(* ===== verification/_CoqProject ===== *)
-Q . S2P
Prelude.v
Bytes.v
ByteStreams.v
ByteStreamProofs.v
ByteStreamContract.v
RWLock.v
RWLockProofs.v
ResourceGraph.v
ResourceGraphProofs.v
Undoable.v
Hasher.v
StdMap.v
HashChain.v
BrmTypes.v
VBBM.v
VBBMProofs.v
VBBMImage.v
VSS.v
AutoIncrement.v
SessionManager.v
OidServer.v
TableLocks.v
TableLocksProofs.v
Requests.v
Dbrm.v
DbrmProofs.v
Controller.v
ControllerProofs.v
WorkerComm.v
WorkerCommProofs.v
VSSProofs.v
VSSQueries.v
Snapshot.v
VersionBuffer.v
VersionBufferProofs.v
CopyLocks.v
ExtentMap.v
ExtentAlloc.v
ExtentProofs.v
ExtentPlace.v
ExtentFree.v
ExtentDelete.v
ExtentDeleteProofs.v
ExtentHWM.v
ExtentQueries.v
ExtentChoice.v
ExtentChoiceProofs.v
ExtentImage.v
ExtentUndo.v
ExtentCP.v
ExtentReload.v
ExtentCheck.v
SlaveNode.v
SlaveExtents.v
SlaveNodeProofs.v
SlaveExtentProofs.v
ControllerNodes.v
Messages.v
MessageProofs.v
NodeJournal.v
DbrmQueries.v
DbrmQueryProofs.v
BlockCache.v
BlockCacheProofs.v
BlockCacheContract.v
ColumnScan.v
ColumnScanProofs.v
ColumnScanContract.v
CasualPartition.v
LbidList.v
