(* ===== verification/Prelude.v ===== *)
(** * The Block Resolution Manager of EryDB

    EryDB is a columnar database.  Its Block Resolution Manager (BRM,
    src/versioning/BRM/) says where the blocks of the database are: which
    extent of which file a logical block id (LBID) belongs to, which versions
    of a block there are, and where the old ones have been copied to.  This
    library models the BRM's tables, the worker node that owns them, the
    controller that keeps the workers alike, the servers beside them and the
    streams their messages are made of, and proves what they promise.  Beside
    the BRM it models the code that lives on it when a column is read: the cache
    of blocks, the scan of a block, and how a scan leaves extents out by the
    ranges of values that the BRM keeps.

    ** The program

    A controller sends commands to worker nodes; every worker owns a copy of
    the tables in shared memory, carries the command out, and is then told to
    confirm or to undo it.  The tables are
    - the extent map (extentmap.cpp): an array of extents and a free list of
      LBID ranges, with high water marks, DBRoots and ranges of values;
    - the Version Substitution Structure, VSS (vss.cpp): the versions of
      blocks, with a lock and a flag that says a copy exists;
    - the Version Buffer Block Map, VBBM (vbbm.cpp): where copies are;
    - the copy locks (copylocks.cpp): the ranges being copied.
    All of them derive from [Undoable] (undoable.cpp), which keeps the old
    bytes of what a command overwrites.  The first worker writes what it
    confirms to a journal and, from time to time, to a snapshot
    (slavecomm.cpp).  The controller (masterdbrmnode.cpp) also serves requests
    that do not go to the workers: transactions and snapshots of queries
    (sessionmanagerserver.cpp), table locks (tablelockserver.cpp), object ids
    (oidserver.cpp) and autoincrement sequences (autoincrementmanager.cpp).

    Messages and journals are made with [ByteStream] (utils/messageqcpp/).
    Other processes map the tables and read them through the client library
    (dbrm.cpp).  A query asks the extent map for the extents of a column and their
    ranges of values, and leaves out those that cannot have a row
    (dbcon/joblist/lbidlist.cpp).  PrimProc looks for a block at a version in its
    cache (primitives/blockcache/), scans it with the filters of the query
    (primitives/linux-port/column.cpp) and answers with the rows and the range of
    the block, from which the ranges of the extents are made.

    ** The files

    Prelude.v       results and exceptions, programs with state, arrays,
                    machine integers, and the lemmas the components share
    Bytes.v         byte layouts, readers and their round trips
    ByteStreams.v   the buffer of a [ByteStream] (utils/messageqcpp/), with its
                    growth and the pointers into it; ByteStreamProofs.v the
                    operations one by one, ByteStreamContract.v as queues of bytes
    RWLock.v        the reader-writer locks of the shared tables
                    (utils/rwlock/): their calls, and threads that interleave,
                    timed requests that give up included; RWLockProofs.v
                    exclusion and progress
    ResourceGraph.v the graph of transactions and blocks for the detection of
                    deadlocks (lbidresourcegraph.cpp); ResourceGraphProofs.v
                    the search, owners and requests
    Undoable.v      undo records, generic in the image of a table; code that
                    records a cell before it writes it is undone exactly
    Hasher.v        the 32-bit hash function (utils/common/hasher.h)
    HashChain.v     chains of entries in an array, one per hash bucket: the
                    structure the VSS and the VBBM share, as an abstract map
    BrmTypes.v      DBROOTS_struct, FBO_struct, LogicalPartition and the ranges
    VBBM.v          the VBBM; VBBMProofs.v its refinement of a finite map, undo
                    and consistency check; VBBMImage.v save and load
    VSS.v           the VSS; VSSProofs.v its refinement; VSSQueries.v what
                    snapshot lookups, commit and the flags do
    VersionBuffer.v getBlocks and what else needs VSS and VBBM together;
                    VersionBufferProofs.v that handed out blocks are free
    CopyLocks.v     the copy locks and their properties
    ExtentMap.v     extents: data, image, growth, locks, lookups, ranges of
                    values;  ExtentAlloc.v creating extents, the free list and
                    [deleteExtent];  ExtentDelete.v what deletes or marks
                    extents in bulk;  ExtentHWM.v high water marks;
                    ExtentImage.v save, load and the consistency check
    ExtentProofs.v  the invariant [em_wf]: the extents and the free list
                    partition the LBID space;  ExtentPlace.v creation keeps it
                    and appends to the right file;  ExtentFree.v and
                    ExtentDeleteProofs.v deletion, dropping columns, rolling
                    back a bulk load;  ExtentQueries.v lookups and HWMs;
                    ExtentChoice.v and ExtentChoiceProofs.v the choice of the
                    DBRoots for new data;
                    ExtentCP.v ranges of values;  ExtentReload.v save and
                    load;  ExtentCheck.v the consistency check;  ExtentUndo.v
                    which changes are undone, and which are not
    SlaveNode.v     the worker node's commands on versions, locks and the whole
                    state; what it asks of the extent map is the class
                    [ExtentMapOps];  SlaveExtents.v the commands on extents,
                    and the extent map as an instance of the class
    SlaveNodeProofs.v, SlaveExtentProofs.v  the commands as a whole: writing
                    and rolling back, locking, undoing
    StdMap.v        a std::map as a finite map walked in the order of its keys
    SessionManager.v  transactions, the requests that wait for a slot, the
                    snapshots of queries, the system state and the file they
                    are kept in
    Snapshot.v      a query's snapshot and the versions it sees in the VSS
    TableLocks.v    the table lock server and its file; TableLocksProofs.v
    AutoIncrement.v the sequences of autoincrement columns
    OidServer.v     the object ids and their file
    Controller.v    how the controller distributes a command, compares the
                    answers, confirms or undoes it, halts and reconnects; what
                    it asks of a worker is the class [Worker];
                    ControllerProofs.v that the workers act as one copy;
                    Requests.v the requests the controller serves itself, from
                    the bytes of the message to those of the reply;
                    ControllerNodes.v the worker nodes of SlaveExtents.v as an
                    instance of the class, and what follows for extents
    WorkerComm.v    the command loop of a worker, its journal and snapshots, and
                    the recovery from them, over the class [Store];
                    WorkerCommProofs.v replaying, and what a confirmation writes
    Dbrm.v          the client library's calls for the requests of Requests.v,
                    with the second attempt after a failure; DbrmProofs.v that a
                    call over the wire is the server's operation
    Messages.v      the commands for the workers: how the client library packs
                    them, how a worker unpacks them, carries them out on its
                    node and answers, and how the client reads the answer;
                    MessageProofs.v that a command through the cluster is a
                    call of one node;  NodeJournal.v the worker node as an
                    instance of [Store], and what of its commands survives a
                    restart and a crash
    DbrmQueries.v   what the client library reads from the tables in shared memory,
                    and its locks for a copy; DbrmQueryProofs.v
    BlockCache.v    PrimProc's cache of blocks (filebuffermgr.cpp);
                    BlockCacheProofs.v its invariant and the operations,
                    BlockCacheContract.v the cache as a list in the order of use
    ColumnScan.v    the scan of a block (column.cpp); ColumnScanProofs.v rows and
                    filters, ColumnScanContract.v the answer and its range
    CasualPartition.v  the test whether an extent can be left out (lbidlist.cpp),
                    against the scan;  LbidList.v the ranges of the extents of a
                    scan, and what the next scan leaves out by them

    ** How the code is modelled

    A C++ object is a record, a member function a program [prog S A]: it maps
    a state to a result and a state, and the result is a value, an exception
    or undefined behaviour ([res]).  The state survives an exception.  Reading
    or writing outside an array, dividing by zero, following a pointer into a
    segment that was replaced and a loop that does not end are undefined
    behaviour, not errors; a theorem that a call returns says that it has
    none.  Integers are [Z]; every conversion and every operation that can
    wrap around is written out ([u32], [s32], ...).  Arrays in shared memory are
    lists; a std::map with integer keys is a [gmap], and where its order
    matters a list.  The build is the release build for x86-64: assert is
    compiled out, erydbassert throws, the code under BRM_DEBUG and BRM_INFO is
    absent, the layouts of structs are those of the System V ABI.

    In the tables, the process-shared locks are modelled as flags that say which write
    locks the object holds, since a lock that is granted has no other effect
    on the object; [others] in SlaveNode.v stands for what other processes do
    while a node sleeps without its locks, and is arbitrary.  That a lock
    excludes what it should is shown once, in RWLock.v, where a critical section is
    one step because the semaphore [MUTEX] lets one thread at a time into one.

    Loops over an index range are recursions over the list of indices and need
    no fuel.  Walks along a chain take as fuel the length of the array plus
    one: the invariant says chains have no cycle, so a walk visits an entry
    once, and the refinement theorems show it returns.  The waiting loop of
    the worker has the code's own bound of 1200 retries.  The loop of the
    extent map's consistency check takes two iterations more than there are
    ranges; ExtentCheck.v proves that enough for the maps it is about.  The
    replay of the journal takes its length: a record has at least four bytes.
    The client's wait for a copy lock has the code's bound of 600 retries; a scan
    takes one step more than there are rows; the second loop of the choice of
    DBRoots is said to diverge after 1000 turns, where four choices are all that
    fit, and ExtentChoiceProofs.v shows that a turn without a choice is repeated
    for ever.

    A file is its bytes; what the system calls do (fail, write a part, be
    interrupted) is an argument of the operations.  A connection of the
    controller is a queue of answers with a list of failures to come; a crash
    of the worker is a prefix of the writes to its disk.  The cluster's
    configuration ([cluster] in ExtentChoice.v, [existDbroot] in DbrmQueries.v) and
    the C library's regular expressions (ColumnScan.v) are arguments.  The bytes of
    a new buffer are [None] until they are written, and computing with one is
    undefined behaviour.  A node of a std::list is a number that is never used
    again, so that a stale iterator shows.  A call that comes
    to wait for a condition ends in [WouldBlock] and leaves the state alone; what it
    does when it is woken is a definition of its own ([newTxnID_woken]).

    ** What is shown

    Refinement: each operation of the VBBM, the VSS and the copy locks is an
    operation of a finite map or a list, and keeps the invariant of the table;
    creating and deleting extents keep the partition of the LBID space and
    add or remove exactly the extents they should.  Safety: blocks given out
    for new copies hold no version a rollback needs; a command that is undone
    leaves the tables as they were, for all code that records before it
    writes.  Round trips: writing and rolling back, saving and loading the
    VBBM and the extent map, locating a block and its LBID, high water marks.
    Equivalence: the case analysis of the roll back of a bulk load and its
    definition by the logical order of extents; merging ranges of values and
    their hull.  Liveness: the DML locks are eventually granted.

    The distributed part: over workers with equal tables the controller is a
    single copy, also when a connection breaks and is made again, and a command
    that cannot be sent to all has changed none, for the commands on extents whose
    undo is exact; between two snapshots, the disk of the first worker leads back to
    exactly the tables that the confirmed commands made, also after a crash in a
    confirmation before the switch to a new snapshot; a query sees the same versions
    as long as they are kept.  The servers:
    transaction numbers grow, across restarts too, and the slots are counted, those
    included that waiting requests of one session lose;
    table locks exclude each other and survive a restart; autoincrement ranges
    are consecutive between resets and stay within the type.  The reader-writer lock:
    writers are alone in every interleaving, and no thread waits for a lock that is
    free, unless it was granted to a timed request that has been left behind.  The graph of resources: a deadlock is reported exactly for a cycle,
    and a block has one owner.  A call of the client library is
    the operation of the server, whatever is packed into messages between them;
    one whose reply is lost happens twice, which is harmless for transactions
    and not for locks.  A command for the workers means the same to the client
    and to every worker, gives the caller the code and the outputs of one node,
    and is a record of the journal that does the same again.

    Reading a column: byte streams are queues of bytes, and the block cache is a
    list of blocks in the order of their use, under any sequence of calls that their
    contracts cover; a flushed block is never seen again, and one in use is not evicted too early.  A
    scan answers with exactly the rows that pass the filters, also when the
    filters were turned into a set before; and the range it gives for a block, put
    together over an extent, sent to the BRM and asked for by the next scan, never
    leaves out a row that passes (NULL and rounded arguments, floating point and
    CHAR(1) columns apart, for which theorems show rows that are lost).

    Several theorems state on small tables what the code does not do: slots of
    transactions and granted locks that nobody has, table locks that are in no file,
    records that
    miss a member, entries lost when a table with holes grows, records that
    point into a segment that is gone, a consistency check that rejects
    consistent maps, replicas that differ after a resume, a journal that is
    replayed twice, object ids that wrap around, answers without the text that
    the client reads, a choice of DBRoots that never ends, a block copied out of
    the cache after its place was given away, streams read beyond their end.

    ** What is not modelled

    Of the controller, the threads and the sockets; of the worker's
    communication, saving the state on request and looking up processes; of the
    client library, the calls for administration (halt, resume, reload,
    read-only).  The controller does not fill the graph of
    resources, the calls are commented out; ResourceGraph.v models what they
    would do.  The HDFS variants do the same through another file layer.  Shared
    memory segments are what the tables' models say about growth; logging and
    tracing have no effect on the tables.  Of PrimProc, the threads that
    read blocks from disk into the cache, the dictionary primitives and the
    joins; in a scan, the size of the output buffer, which a release build does not
    check.  The rest of the database (planning and executing queries, write
    engine, administration) is outside this development. *)
From Stdlib Require Import ZArith Lia.
From stdpp Require Export base tactics list list_numbers option gmap.

#[export] Set Default Goal Selector "!".
Declare Scope brm_scope.
Delimit Scope brm_scope with brm.

(** ** Machine integers

    A C++ integer is a [Z] in the range of its type.  The functions below are
    the conversions the compiler inserts: reduction modulo [2^w] for the
    unsigned types, two's complement for the signed ones. *)

Definition u8 (x : Z) : Z := x mod 2 ^ 8.
Definition u16 (x : Z) : Z := x mod 2 ^ 16.
Definition u32 (x : Z) : Z := x mod 2 ^ 32.
Definition u64 (x : Z) : Z := x mod 2 ^ 64.
Definition s32 (x : Z) : Z := (x + 2 ^ 31) mod 2 ^ 32 - 2 ^ 31.
Definition s64 (x : Z) : Z := (x + 2 ^ 63) mod 2 ^ 64 - 2 ^ 63.

#[global] Arguments u8 : simpl never.
#[global] Arguments u16 : simpl never.
#[global] Arguments u32 : simpl never.
#[global] Arguments u64 : simpl never.
#[global] Arguments s32 : simpl never.
#[global] Arguments s64 : simpl never.

(** ** Outcomes

    A C++ call returns a value, throws, or its behaviour is undefined: an
    array access outside its bounds, an access through a null pointer or one
    into an unmapped segment, a division by zero, a signed addition that
    overflows, the release of a mutex that is not held, computing with a byte
    that was never written, or a loop that does not end.  [WouldBlock] is not an exception of
    the code: it says that the call waits, and changed nothing so far.
    [assert] is compiled out ([NDEBUG]); [erydbassert] throws. *)

Inductive exn :=
  | InvalidArgument
  | LogicError
  | RuntimeError
  | OverflowError
  | VBBMBufferOverFlow
  | IosFailure
  | EOFException
  | WouldBlock
  | ERYDBExcept (rc : Z)
  | BadAlloc
  | UnderflowError
  | LengthError
  | ProtocolError.

Inductive ub :=
  | OutOfBounds
  | DanglingPointer
  | DivisionByZero
  | SignedOverflow
  | BadUnlock
  | Indeterminate
  | Diverges.

Inductive res (A : Type) :=
  | Ret (a : A)
  | Throw (e : exn)
  | UB (u : ub).
Arguments Ret {A} _.
Arguments Throw {A} _.
Arguments UB {A} _.

(** utils/loggingcpp/errorids.h *)
Definition ERR_ASSERTION_FAILURE : Z := 2035.

#[global] Instance exn_eq_dec : EqDecision exn.
Proof. solve_decision. Defined.
#[global] Instance ub_eq_dec : EqDecision ub.
Proof. solve_decision. Defined.
#[global] Instance res_eq_dec {A} `{EqDecision A} : EqDecision (res A).
Proof. solve_decision. Defined.

#[global] Instance res_ret : MRet res := fun A => @Ret A.
#[global] Instance res_bind : MBind res := fun A B f m =>
  match m with Ret a => f a | Throw e => Throw e | UB u => UB u end.

(** Stateful code: the state survives a throw, as an object does. *)
Definition prog (S A : Type) : Type := S -> res A * S.

#[global] Instance prog_ret {S} : MRet (prog S) := fun A a s => (Ret a, s).
#[global] Instance prog_bind {S} : MBind (prog S) := fun A B f p s =>
  match p s with
  | (Ret a, s') => f a s'
  | (Throw e, s') => (Throw e, s')
  | (UB u, s') => (UB u, s')
  end.

Definition gets {S A} (f : S -> A) : prog S A := fun s => (Ret (f s), s).
Definition modify {S} (f : S -> S) : prog S unit := fun s => (Ret tt, f s).
Definition throw {S A} (e : exn) : prog S A := fun s => (Throw e, s).
Definition undefined {S A} (u : ub) : prog S A := fun s => (UB u, s).
(** [try { p } catch (std::exception &e) { h }]; [throw] passes values of
    types derived from [std::exception] only. *)
Definition try_catch {S A} (p : prog S A) (h : exn -> prog S A) : prog S A := fun s =>
  match p s with
  | (Throw e, s') => h e s'
  | r => r
  end.
(** A [const] member function used inside a stateful one. *)
Definition reading {S A} (f : S -> res A) : prog S A := fun s => (f s, s).
(** Run a program of a sub-object. *)
Definition zoom {S T A} (get : S -> T) (set : T -> S -> S) (p : prog T A) : prog S A :=
  fun s => let '(r, t) := p (get s) in (r, set t s).
(** A [for] loop over a list of values. *)
Fixpoint for_each {S A} (l : list A) (f : A -> prog S unit) : prog S unit :=
  match l with
  | [] => mret tt
  | a :: l' => f a ≫= fun _ => for_each l' f
  end.

Fixpoint for_res {A} (l : list A) (f : A -> res unit) : res unit :=
  match l with
  | [] => Ret tt
  | a :: l' => f a ≫= fun _ => for_res l' f
  end.

(** A [while] loop, cut off after [fuel] iterations. *)
Fixpoint while_loop {S} (fuel : nat) (cond : S -> bool) (body : prog S unit) : prog S unit :=
  fun s =>
    if cond s then
      match fuel with
      | O => (UB Diverges, s)
      | S fuel' => (body ≫= fun _ => while_loop fuel' cond body) s
      end
    else (Ret tt, s).

(** What the iterations of a loop produce, one after the other. *)
Fixpoint collect {A B} (l : list A) (f : A -> res (list B)) : res (list B) :=
  match l with
  | [] => Ret []
  | a :: l' => x ← f a; y ← collect l' f; Ret (x ++ y)
  end.

(** ** Arrays

    Reading or writing [a[i]] outside [0 <= i < length a] is undefined. *)
Definition rd {A} (l : list A) (i : Z) : res A :=
  if decide (0 <= i)%Z then
    match l !! Z.to_nat i with Some a => Ret a | None => UB OutOfBounds end
  else UB OutOfBounds.

Definition wr {A} (l : list A) (i : Z) (a : A) : list A :=
  if decide (0 <= i)%Z then <[Z.to_nat i := a]> l else l.

Definition in_range {A} (l : list A) (i : Z) : bool :=
  (0 <=? i)%Z && (i <? Z.of_nat (length l))%Z.

(** A read that is known to be in range. *)
Definition rd_or {A} (d : A) (l : list A) (i : Z) : A :=
  match rd l i with Ret a => a | _ => d end.

(** [for (i = 0; i < n; i++) if (P(a[i])) ...]: the first entry a search over
    the indices [is_] hits. *)
Fixpoint find_index {A} (P : A -> bool) (l : list A) (is_ : list Z) : res (option (Z * A)) :=
  match is_ with
  | [] => Ret None
  | i :: is' =>
      a ← rd l i;
      if P a then Ret (Some (i, a)) else find_index P l is'
  end.

(** A loop over the indices [is_] that only updates local variables. *)
Fixpoint scan {A B} (f : B -> Z -> A -> B) (l : list A) (is_ : list Z) (b : B) : res B :=
  match is_ with
  | [] => Ret b
  | i :: is' => a ← rd l i; scan f l is' (f b i a)
  end.

(** ** Lemmas on machine integers *)

Section MachineIntegers.
Local Open Scope Z_scope.

Lemma u16_range x : 0 <= u16 x < 2 ^ 16.
Proof. apply Z.mod_pos_bound. lia. Qed.
Lemma u32_range x : 0 <= u32 x < 2 ^ 32.
Proof. apply Z.mod_pos_bound. lia. Qed.
Lemma u64_range x : 0 <= u64 x < 2 ^ 64.
Proof. apply Z.mod_pos_bound. lia. Qed.
Lemma u16_id x : 0 <= x < 2 ^ 16 -> u16 x = x.
Proof. apply Z.mod_small. Qed.
Lemma u32_id x : 0 <= x < 2 ^ 32 -> u32 x = x.
Proof. apply Z.mod_small. Qed.
Lemma u64_id x : 0 <= x < 2 ^ 64 -> u64 x = x.
Proof. apply Z.mod_small. Qed.
Lemma s32_range x : - 2 ^ 31 <= s32 x < 2 ^ 31.
Proof. unfold s32. pose proof (Z.mod_pos_bound (x + 2 ^ 31) (2 ^ 32)). lia. Qed.
Lemma s32_id x : - 2 ^ 31 <= x < 2 ^ 31 -> s32 x = x.
Proof. intros H. unfold s32. rewrite Z.mod_small; lia. Qed.
Lemma s64_id x : - 2 ^ 63 <= x < 2 ^ 63 -> s64 x = x.
Proof. intros H. unfold s64. rewrite Z.mod_small; lia. Qed.
Lemma s32_u32 x : s32 (u32 x) = s32 x.
Proof. unfold s32, u32. by rewrite Z.add_mod_idemp_l by lia. Qed.
Lemma u32_s32 x : u32 (s32 x) = u32 x.
Proof.
  unfold s32, u32. rewrite <- Z.add_opp_r, Z.add_mod_idemp_l by lia.
  f_equal. lia.
Qed.
End MachineIntegers.

(** ** Lemmas on arrays *)

Section Arrays.
Context {A : Type}.
Implicit Types (l : list A) (i j : Z) (a b : A).
Local Open Scope Z_scope.

Lemma rd_Ret l i a : rd l i = Ret a <-> 0 <= i /\ l !! Z.to_nat i = Some a.
Proof.
  unfold rd. destruct (decide (0 <= i)) as [Hi|Hi]; [|naive_solver].
  destruct (l !! Z.to_nat i); naive_solver.
Qed.

Lemma rd_nat l (n : nat) a : l !! n = Some a -> rd l (Z.of_nat n) = Ret a.
Proof. intros. apply rd_Ret. rewrite Nat2Z.id. auto with lia. Qed.

Lemma rd_not_throw l i e : rd l i <> Throw e.
Proof. unfold rd. repeat case_match; congruence. Qed.

Lemma wr_nat l (n : nat) a : wr l (Z.of_nat n) a = <[n := a]> l.
Proof. unfold wr. rewrite Nat2Z.id, decide_True; [done|lia]. Qed.

Lemma length_wr l i a : length (wr l i a) = length l.
Proof. unfold wr. case_decide; [apply length_insert|done]. Qed.

Lemma wr_rd l i a : rd l i = Ret a -> wr l i a = l.
Proof.
  intros [Hi Hl]%rd_Ret. unfold wr. rewrite decide_True by done.
  by apply list_insert_id.
Qed.

Lemma wr_rd_or a l i : wr l i (rd_or a l i) = l.
Proof.
  unfold rd_or. destruct (rd l i) as [b|e|u] eqn:E; [by apply wr_rd|..];
    unfold rd, wr in *; case_decide; try done;
    (destruct (l !! Z.to_nat i) eqn:El; [done|]; by apply list_insert_ge, lookup_ge_None).
Qed.

Lemma wr_wr l i a b : wr (wr l i b) i a = wr l i a.
Proof. unfold wr. case_decide; [|done]. by rewrite list_insert_insert_eq. Qed.

Lemma wr_comm l i j a b : i <> j -> wr (wr l i a) j b = wr (wr l j b) i a.
Proof.
  intros Hne. unfold wr. repeat case_decide; try done.
  apply list_insert_insert_ne. lia.
Qed.

Lemma in_range_true l i : in_range l i = true <-> 0 <= i < Z.of_nat (length l).
Proof. unfold in_range. rewrite andb_true_iff, Z.leb_le, Z.ltb_lt. done. Qed.

Lemma in_range_rd l i : in_range l i = true -> exists a, rd l i = Ret a.
Proof.
  rewrite in_range_true. intros Hi.
  destruct (lookup_lt_is_Some_2 l (Z.to_nat i)) as [a Ha]; [lia|].
  exists a. apply rd_Ret. auto with lia.
Qed.

Lemma in_range_nat l (n : nat) a : l !! n = Some a -> in_range l (Z.of_nat n) = true.
Proof. intros H%lookup_lt_Some. apply in_range_true. lia. Qed.
End Arrays.

Lemma filter_all {A} (P : A -> Prop) `{!forall a, Decision (P a)} (l : list A) :
  Forall P l -> filter P l = l.
Proof.
  induction 1 as [|a l Ha _ IH]; [done|]. by rewrite filter_cons, decide_True, IH.
Qed.

Lemma filter_none {A} (P : A -> Prop) `{!forall a, Decision (P a)} (l : list A) :
  Forall (fun a => ~ P a) l -> filter P l = [].
Proof.
  induction 1 as [|a l Ha _ IH]; [done|]. by rewrite filter_cons, decide_False.
Qed.

(** Selections that agree on the elements. *)
Lemma filter_ext_in {A} (P Q : A -> Prop) `{!forall a, Decision (P a), !forall a, Decision (Q a)}
    (l : list A) : (forall a, a ∈ l -> P a <-> Q a) -> filter P l = filter Q l.
Proof.
  induction l as [|a l IH]; intros HPQ; [done|]. rewrite !filter_cons, IH.
  - pose proof (HPQ a (list_elem_of_here _ _)). repeat case_decide; naive_solver.
  - intros b Hb. by apply HPQ, list_elem_of_further.
Qed.

(** Skipping elements while producing a list. *)
Lemma bind_filter {A B} (P : A -> Prop) `{!forall a, Decision (P a)} (g h : A -> list B)
    (l : list A) :
  (forall a, P a -> h a = g a) -> (forall a, ~ P a -> h a = []) -> l ≫= h = filter P l ≫= g.
Proof.
  intros Hg Hn. induction l as [|a l IH]; [done|]. rewrite filter_cons, bind_cons.
  case_decide; [by rewrite bind_cons, Hg, IH|by rewrite Hn, IH].
Qed.

Lemma bind_map {A B} (g : A -> B) (l : list A) : (l ≫= fun a => [g a]) = map g l.
Proof. induction l as [|a l IH]; [done|]. cbn [map]. rewrite bind_cons, IH. done. Qed.

(** The sum of a measure over a list. *)
Section Total.
Local Open Scope Z_scope.
Context {A : Type} (f : A -> Z).

Definition total (l : list A) : Z := foldr (fun a n => f a + n) 0 l.

Lemma total_cons a l : total (a :: l) = f a + total l.
Proof. done. Qed.
Lemma total_app l1 l2 : total (l1 ++ l2) = total l1 + total l2.
Proof. induction l1 as [|a l1 IH]; simpl; lia. Qed.
Lemma total_insert l i a0 a : l !! i = Some a0 -> total (<[i := a]> l) = total l - f a0 + f a.
Proof.
  revert i. induction l as [|x l IH]; intros [|i] H; try done; simpl in *.
  - injection H as ->. lia.
  - rewrite (IH _ H). lia.
Qed.
Lemma total_zero l : Forall (fun a => f a = 0) l -> total l = 0.
Proof. induction 1; simpl; lia. Qed.
Lemma total_replicate n a : total (replicate n a) = Z.of_nat n * f a.
Proof. induction n as [|n IH]; [done|]. simpl replicate. rewrite total_cons, IH. lia. Qed.
Lemma total_lookup l i a : (forall a, 0 <= f a) -> l !! i = Some a -> f a <= total l.
Proof.
  intros Hf. revert i. induction l as [|x l IH]; intros [|i] H; try done; simpl in *.
  - injection H as ->. enough (0 <= total l) by lia. clear IH. induction l; simpl; [lia|].
    pose proof (Hf a0). lia.
  - pose proof (IH _ H). pose proof (Hf x). lia.
Qed.
Lemma total_nonneg l : (forall a, 0 <= f a) -> 0 <= total l.
Proof. intros Hf. induction l as [|a l IH]; simpl; [lia|]. pose proof (Hf a). lia. Qed.
Lemma total_lookup2 l i j a b : (forall a, 0 <= f a) -> i <> j ->
  l !! i = Some a -> l !! j = Some b -> f a + f b <= total l.
Proof.
  intros Hf. revert i j. induction l as [|x l IH]; intros [|i] [|j] Hne Hi Hj; try done; simpl in *.
  - injection Hi as ->. pose proof (total_lookup l j b Hf Hj). lia.
  - injection Hj as ->. pose proof (total_lookup l i a Hf Hi). lia.
  - pose proof (IH i j ltac:(congruence) Hi Hj). pose proof (Hf x). lia.
Qed.
(** A positive sum has a positive summand. *)
Lemma total_pos l : (forall a, 0 <= f a) -> 0 < total l -> exists i a, l !! i = Some a /\ 0 < f a.
Proof.
  intros Hf. induction l as [|x l IH]; simpl; intros H; [lia|].
  destruct (decide (0 < f x)); [by exists 0%nat, x|].
  destruct IH as (i & a & ? & ?); [pose proof (Hf x); lia|]. by exists (S i), a.
Qed.
(** A sum of 0s and 1s below the length leaves out an element. *)
Lemma total_lt l : (forall a, f a <= 1) -> total l < Z.of_nat (length l) ->
  exists a, a ∈ l /\ f a < 1.
Proof.
  intros Hf. induction l as [|x l IH]; simpl; intros H; [lia|].
  destruct (decide (f x < 1)); [exists x; split; [by left|done]|].
  destruct IH as (a & ? & ?); [pose proof (Hf x); lia|]. exists a. split; [by right|done].
Qed.
Lemma total_le l : (forall a, f a <= 1) -> total l <= Z.of_nat (length l).
Proof. intros Hf. induction l as [|x l IH]; simpl; [lia|]. pose proof (Hf x). lia. Qed.
#[global] Instance total_perm : Proper ((≡ₚ) ==> eq) total.
Proof. induction 1; rewrite ?total_cons; lia. Qed.
End Total.

(** A sum that is smaller somewhere and nowhere larger. *)
Lemma total_mono {A} (f g : A -> Z) (l : list A) :
  (forall x, f x <= g x)%Z -> (total f l <= total g l)%Z.
Proof. intros Hle. induction l as [|x l IH]; [done|]. rewrite !total_cons. specialize (Hle x). lia. Qed.
Lemma total_lt_total {A} (f g : A -> Z) (a : A) (l : list A) :
  (forall x, f x <= g x)%Z -> a ∈ l -> (f a < g a)%Z -> (total f l < total g l)%Z.
Proof.
  intros Hle Ha Hlt. induction Ha as [a l|a x l _ IH]; rewrite !total_cons.
  - pose proof (total_mono f g l Hle). lia.
  - specialize (Hle x). specialize (IH Hlt). lia.
Qed.
#[global] Arguments total : simpl never.

(** Replacing an element changes a count by at most one. *)
Lemma count_insert {A} (P : A -> Prop) `{!forall a, Decision (P a)} (l : list A) i a0 a :
  l !! i = Some a0 ->
  (length (filter P (<[i := a]> l)) + (if decide (P a0) then 1 else 0)
   = length (filter P l) + (if decide (P a) then 1 else 0))%nat.
Proof.
  intros Hi. assert (Hlt := lookup_lt_Some _ _ _ Hi).
  rewrite insert_take_drop by done. rewrite <- (take_drop_middle l i a0 Hi) at 3.
  rewrite !filter_app, !filter_cons, !length_app.
  repeat case_decide; simpl; lia.
Qed.

(** ** Lemmas on programs *)

Lemma ret_bind {A B} (a : A) (f : A -> res B) : (Ret a ≫= f) = f a.
Proof. reflexivity. Qed.

Section Programs.
Context {S : Type}.

(** What holds of every state is kept by sequencing. *)
Definition keeps {A} (R : S -> S -> Prop) (p : prog S A) : Prop :=
  forall s, R s (snd (p s)).

Lemma keeps_bind {A B} (R : S -> S -> Prop) `{!Transitive R}
    (p : prog S A) (f : A -> prog S B) :
  keeps R p -> (forall a, keeps R (f a)) -> keeps R (p ≫= f).
Proof.
  intros Hp Hf s. unfold mbind, prog_bind.
  specialize (Hp s). destruct (p s) as [[a|e|u] s'] eqn:E; simpl in *; try done.
  etrans; [exact Hp|apply Hf].
Qed.

Lemma bind_Ret {A B} (p : prog S A) (f : A -> prog S B) s a s' :
  p s = (Ret a, s') -> (p ≫= f) s = f a s'.
Proof. intros H. unfold mbind, prog_bind. by rewrite H. Qed.

Lemma prog_bind_assoc {A B C} (p : prog S A) (f : A -> prog S B) (g : B -> prog S C) s :
  ((p ≫= f) ≫= g) s = (p ≫= fun a => f a ≫= g) s.
Proof. unfold mbind, prog_bind. by destruct (p s) as [[a|e|u] s']. Qed.

Lemma reading_Ret {A} (f : S -> res A) s a : f s = Ret a -> reading f s = (Ret a, s).
Proof. intros H. unfold reading. by rewrite H. Qed.

Lemma bind_reading {A B} (f : S -> res A) (k : A -> prog S B) s a :
  f s = Ret a -> (reading f ≫= k) s = k a s.
Proof. intros H. unfold mbind, prog_bind, reading. by rewrite H. Qed.

Lemma bind_inv {A B} (p : prog S A) (f : A -> prog S B) s b s'' :
  (p ≫= f) s = (Ret b, s'') -> exists a s', p s = (Ret a, s') /\ f a s' = (Ret b, s'').
Proof.
  unfold mbind, prog_bind. destruct (p s) as [[a|e|u] s'] eqn:E; intros H; [|done..].
  by exists a, s'.
Qed.

(** A loop over an index range that reads an array is a loop over the
    elements. *)
Lemma for_each_array {A} (pre l post : list A) (f : A -> prog S unit) s :
  for_each (seqZ (Z.of_nat (length pre)) (Z.of_nat (length l)))
    (fun i => reading (fun _ => rd (pre ++ l ++ post) i) ≫= f) s = for_each l f s.
Proof.
  revert pre s. induction l as [|a l IH]; intros pre s; [done|].
  rewrite seqZ_cons by (simpl; lia). cbn [for_each].
  assert (Hrd : rd (pre ++ (a :: l) ++ post) (Z.of_nat (length pre)) = Ret a).
  { apply rd_nat. by apply list_lookup_middle. }
  unfold mbind, prog_bind. unfold reading at 1. rewrite Hrd.
  destruct (f a s) as [[[]|e|u] s'] eqn:Hf; [|done..].
  replace (pre ++ (a :: l) ++ post) with ((pre ++ [a]) ++ l ++ post)
    by (by rewrite <- app_assoc).
  rewrite <- (IH (pre ++ [a]) s'). f_equal. f_equal; rewrite ?length_app; simpl; lia.
Qed.

Lemma for_each_app {A} (l1 l2 : list A) (f : A -> prog S unit) s s' :
  for_each l1 f s = (Ret tt, s') -> for_each (l1 ++ l2) f s = for_each l2 f s'.
Proof.
  revert s. induction l1 as [|a l1 IH]; simpl; intros s H; [by inversion H|].
  apply bind_inv in H as ([] & s1 & H1 & H2). erewrite bind_Ret by exact H1. by apply IH.
Qed.
Lemma for_each_ext {A} (l : list A) (f g : A -> prog S unit) s :
  (forall a s, f a s = g a s) -> for_each l f s = for_each l g s.
Proof.
  intros H. revert s. induction l as [|a l IH]; intros s; [done|]. cbn [for_each].
  unfold mbind, prog_bind. rewrite H. by destruct (g a s) as [[]?].
Qed.

End Programs.

(** Searches and loops over a whole array. *)
Section Scans.
Local Open Scope Z_scope.

Lemma find_index_shift {A} (P : A -> bool) (pre l post : list A) :
  find_index P (pre ++ l ++ post) (seqZ (Z.of_nat (length pre)) (Z.of_nat (length l))) =
  Ret (prod_map (fun i => Z.of_nat (length pre + i)) id <$> list_find (fun a => P a = true) l).
Proof.
  revert pre. induction l as [|a l IH]; intros pre; [done|].
  rewrite seqZ_cons by (simpl; lia). cbn [find_index].
  rewrite (rd_nat _ (length pre) a) by (by apply list_lookup_middle).
  rewrite ret_bind. cbn [list_find].
  destruct (P a) eqn:HP; [rewrite decide_True by done|rewrite decide_False by done].
  - simpl. rewrite Nat.add_0_r. done.
  - specialize (IH (pre ++ [a])). rewrite <- app_assoc in IH. simpl in *.
    rewrite length_app in IH. simpl in IH.
    replace (Z.of_nat (length pre + 1)) with (Z.succ (Z.of_nat (length pre))) in IH by lia.
    replace (Z.pred (Z.of_nat (S (length l)))) with (Z.of_nat (length l)) by lia.
    rewrite IH. f_equal. destruct (list_find _ l) as [[i b]|]; [|done]. simpl. do 2 f_equal. lia.
Qed.

Lemma find_index_all {A} (P : A -> bool) (l : list A) n :
  n = Z.of_nat (length l) ->
  find_index P l (seqZ 0 n) =
  Ret (prod_map Z.of_nat id <$> list_find (fun a => P a = true) l).
Proof.
  intros ->. pose proof (find_index_shift P [] l []) as H. simpl in H.
  rewrite app_nil_r in H. exact H.
Qed.

Lemma collect_shift {A B} (g : A -> list B) (pre l post : list A) :
  collect (seqZ (Z.of_nat (length pre)) (Z.of_nat (length l)))
    (fun i => a ← rd (pre ++ l ++ post) i; Ret (g a)) = Ret (l ≫= g).
Proof.
  revert pre. induction l as [|a l IH]; intros pre; [done|].
  rewrite seqZ_cons by (simpl; lia). cbn [collect].
  rewrite (rd_nat _ (length pre) a) by (by apply list_lookup_middle). rewrite !ret_bind.
  specialize (IH (pre ++ [a])). rewrite <- app_assoc in IH. simpl in *.
  rewrite length_app in IH. simpl in IH.
  replace (Z.of_nat (length pre + 1)) with (Z.succ (Z.of_nat (length pre))) in IH by lia.
  replace (Z.pred (Z.of_nat (S (length l)))) with (Z.of_nat (length l)) by lia.
  by rewrite IH.
Qed.

(** Collecting over a whole array. *)
Lemma collect_all {A B} (g : A -> list B) (l : list A) n : n = Z.of_nat (length l) ->
  collect (seqZ 0 n) (fun i => a ← rd l i; Ret (g a)) = Ret (l ≫= g).
Proof.
  intros ->. pose proof (collect_shift g [] l []) as H. simpl in H.
  rewrite app_nil_r in H. exact H.
Qed.

Fixpoint ifold {A B} (f : B -> Z -> A -> B) (k : Z) (l : list A) (b : B) : B :=
  match l with
  | [] => b
  | a :: l' => ifold f (k + 1) l' (f b k a)
  end.

Lemma scan_shift {A B} (f : B -> Z -> A -> B) (pre l post : list A) b :
  scan f (pre ++ l ++ post) (seqZ (Z.of_nat (length pre)) (Z.of_nat (length l))) b =
  Ret (ifold f (Z.of_nat (length pre)) l b).
Proof.
  revert pre b. induction l as [|a l IH]; intros pre b; [done|].
  rewrite seqZ_cons by (simpl; lia). cbn [scan].
  rewrite (rd_nat _ (length pre) a) by (by apply list_lookup_middle).
  rewrite ret_bind. specialize (IH (pre ++ [a])). rewrite <- app_assoc in IH. simpl in *.
  rewrite length_app in IH. simpl in IH.
  replace (Z.of_nat (length pre + 1)) with (Z.of_nat (length pre) + 1) in IH by lia.
  replace (Z.pred (Z.of_nat (S (length l)))) with (Z.of_nat (length l)) by lia.
  rewrite <- IH. f_equal.
Qed.

Lemma scan_all {A B} (f : B -> Z -> A -> B) (l : list A) n b :
  n = Z.of_nat (length l) -> scan f l (seqZ 0 n) b = Ret (ifold f 0 l b).
Proof.
  intros ->. pose proof (scan_shift f [] l [] b) as H. simpl in H.
  rewrite app_nil_r in H. exact H.
Qed.

(** What holds of every prefix walked holds at the end. *)
Lemma ifold_ind {A B} (f : B -> Z -> A -> B) (I : list A -> B -> Prop) (l : list A) b :
  I [] b ->
  (forall pre a b, I pre b -> I (pre ++ [a]) (f b (Z.of_nat (length pre)) a)) ->
  I l (ifold f 0 l b).
Proof.
  intros H0 Hs.
  enough (H : forall pre l b, I pre b -> I (pre ++ l) (ifold f (Z.of_nat (length pre)) l b))
    by (exact (H [] l b H0)).
  clear l b H0. intros pre l. revert pre. induction l as [|a l IH]; intros pre b Hp.
  - by rewrite app_nil_r.
  - cbn [ifold]. specialize (IH (pre ++ [a])). rewrite <- app_assoc, length_app in IH.
    cbn [length app] in IH. rewrite Nat2Z.inj_add in IH. apply IH, Hs, Hp.
Qed.
End Scans.

(** Overwriting an element inside or outside of a selection. *)
Lemma filter_insert_new {A} (P : A -> Prop) `{!forall a, Decision (P a)} (l : list A) i a0 a :
  l !! i = Some a0 -> ~ P a0 -> P a -> filter P (<[i := a]> l) ≡ₚ a :: filter P l.
Proof.
  intros Hi H0 Ha. rewrite insert_take_drop by (by eapply lookup_lt_Some).
  rewrite <- (take_drop_middle l i a0 Hi) at 3.
  rewrite !filter_app, !filter_cons, decide_True, decide_False by done. by solve_Permutation.
Qed.
Lemma filter_insert_gone {A} (P : A -> Prop) `{!forall a, Decision (P a)} (l : list A) i a0 a :
  l !! i = Some a0 -> P a0 -> ~ P a -> filter P l ≡ₚ a0 :: filter P (<[i := a]> l).
Proof.
  intros Hi H0 Ha. rewrite insert_take_drop by (by eapply lookup_lt_Some).
  rewrite <- (take_drop_middle l i a0 Hi) at 1.
  rewrite !filter_app, !filter_cons, decide_True, decide_False by done. by solve_Permutation.
Qed.

(** A loop without result succeeds when every iteration does. *)
Lemma for_res_Ret {A} (l : list A) (f : A -> res unit) :
  for_res l f = Ret tt <-> forall a, a ∈ l -> f a = Ret tt.
Proof.
  induction l as [|a l IH]; simpl.
  - split; [by intros _ ? ?%elem_of_nil|done].
  - unfold mbind, res_bind in *. split.
    + destruct (f a) as [[]|e|u] eqn:Hf; try done. rewrite IH.
      by intros H b [->|Hb]%elem_of_cons; [|apply H].
    + intros H. rewrite (H a) by left. apply IH. intros b Hb. apply H. by right.
Qed.

(** ** Automation *)

Create HintDb brm discriminated.
Create Rewrite HintDb brm.
#[export] Hint Resolve length_wr : brm.
#[export] Hint Rewrite @length_wr @wr_nat @length_insert @length_replicate @length_fmap
  @length_app : brm.

(** One step of a run: a step that computes, or a read whose outcome is known. *)
Ltac run_step := first
  [ erewrite bind_Ret by reflexivity
  | erewrite bind_reading by (first [eassumption|reflexivity]) ]; cbv beta.

(** Case analysis on the next [match] or [if] of a hypothesis about a run. *)
Ltac run_case H :=
  match type of H with
  | context [match ?x with _ => _ end] =>
      lazymatch x with context [match _ with _ => _ end] => fail | _ => idtac end;
      let E := fresh "E" in destruct x eqn:E
  end.
