(* ===== verification/Bytes.v ===== *)
(** * Byte layouts

    The BRM tables are saved as raw C structs and messages carry integers in
    host order.  A buffer is a list of byte values in [0, 256); integers are
    little-endian, as on the x86-64 machines the product is built for.  A
    reader consumes a prefix of a buffer and fails when it is too short. *)
From Stdlib Require Import ZArith Lia.
From S2P Require Import Prelude.

Local Open Scope Z_scope.

(** The [n] bytes of an integer, lowest first. *)
Fixpoint le_bytes (n : nat) (x : Z) : list Z :=
  match n with
  | O => []
  | S n' => x mod 256 :: le_bytes n' (x / 256)
  end.

(** The integer a run of bytes spells, lowest first. *)
Fixpoint of_le (bs : list Z) : Z :=
  match bs with
  | [] => 0
  | b :: bs' => b + 256 * of_le bs'
  end.

(** A reader: the value and the bytes that follow it. *)
Definition reader (A : Type) : Type := list Z -> option (A * list Z).

#[global] Instance reader_ret : MRet reader := fun A a bs => Some (a, bs).
#[global] Instance reader_bind : MBind reader := fun A B f r bs =>
  match r bs with Some (a, rest) => f a rest | None => None end.

(** Exactly [n] bytes, as [read(buf, n) == n]. *)
Definition get_bytes (n : nat) : reader (list Z) := fun bs =>
  if decide (n <= length bs)%nat then Some (take n bs, drop n bs) else None.

Definition get_u (n : nat) : reader Z := bs ← get_bytes n; mret (of_le bs).
Definition get_u16 : reader Z := get_u 2.
Definition get_u32 : reader Z := get_u 4.
Definition get_u64 : reader Z := get_u 8.
Definition get_s32 : reader Z := x ← get_u 4; mret (s32 x).
Definition get_s64 : reader Z := x ← get_u 8; mret (s64 x).

Fixpoint get_list {A} (n : nat) (r : reader A) : reader (list A) :=
  match n with
  | O => mret []
  | S n' => a ← r; l ← get_list n' r; mret (a :: l)
  end.

(** Code that reads a file next to an object: the state is the object and the
    bytes not yet read.  A short read throws. *)
Definition file_read {S A} (r : reader A) : prog (S * list Z) A := fun '(s, bs) =>
  match r bs with
  | Some (a, rest) => (Ret a, (s, rest))
  | None => (Throw RuntimeError, (s, bs))
  end.
Definition on_obj {S A} (p : prog S A) : prog (S * list Z) A :=
  zoom fst (fun t s => (t, snd s)) p.

(** ** Results *)

Lemma length_le_bytes n x : length (le_bytes n x) = n.
Proof. revert x. induction n; simpl; intros; f_equal; auto. Qed.

Lemma of_le_bytes n x : of_le (le_bytes n x) = x mod 2 ^ (8 * Z.of_nat n).
Proof.
  revert x. induction n as [|n IH]; intros x.
  - simpl. by rewrite Z.mod_1_r.
  - cbn [le_bytes of_le]. rewrite IH.
    replace (8 * Z.of_nat (S n)) with (8 + 8 * Z.of_nat n) by lia.
    rewrite Z.pow_add_r by lia. rewrite Z.rem_mul_r by lia. done.
Qed.

Lemma le_bytes_range n x : Forall (fun b => 0 <= b < 256) (le_bytes n x).
Proof.
  revert x. induction n; intros x; constructor; [|done]. apply Z.mod_pos_bound. lia.
Qed.

(** [codec w r]: what [w] writes, [r] reads back, whatever follows. *)
Definition codec {A} (w : A -> list Z) (r : reader A) (P : A -> Prop) : Prop :=
  forall a rest, P a -> r (w a ++ rest) = Some (a, rest).

Lemma get_bytes_app n bs rest : length bs = n -> get_bytes n (bs ++ rest) = Some (bs, rest).
Proof.
  intros <-. unfold get_bytes. rewrite decide_True by (rewrite length_app; lia).
  by rewrite take_app_length, drop_app_length.
Qed.

Lemma get_u_le n x rest :
  get_u n (le_bytes n x ++ rest) = Some (x mod 2 ^ (8 * Z.of_nat n), rest).
Proof.
  unfold get_u, mbind, reader_bind. rewrite get_bytes_app by apply length_le_bytes.
  by rewrite of_le_bytes.
Qed.

Lemma get_u16_le x rest : get_u16 (le_bytes 2 x ++ rest) = Some (u16 x, rest).
Proof. apply get_u_le. Qed.
Lemma get_u32_le x rest : get_u32 (le_bytes 4 x ++ rest) = Some (u32 x, rest).
Proof. apply get_u_le. Qed.
Lemma get_u64_le x rest : get_u64 (le_bytes 8 x ++ rest) = Some (u64 x, rest).
Proof. apply get_u_le. Qed.
Lemma get_s32_le x rest : get_s32 (le_bytes 4 x ++ rest) = Some (s32 x, rest).
Proof.
  unfold get_s32, mbind, reader_bind. rewrite get_u_le. change (2 ^ (8 * Z.of_nat 4)) with (2 ^ 32).
  cbv beta. change (x mod 2 ^ 32) with (u32 x). by rewrite s32_u32.
Qed.
Lemma get_s64_le x rest : get_s64 (le_bytes 8 x ++ rest) = Some (s64 x, rest).
Proof.
  unfold get_s64, mbind, reader_bind. rewrite get_u_le. change (2 ^ (8 * Z.of_nat 8)) with (2 ^ 64).
  cbv beta. unfold s64. by rewrite Z.add_mod_idemp_l by lia.
Qed.

Lemma codec_list {A} (w : A -> list Z) (r : reader A) P l rest :
  codec w r P -> Forall P l ->
  get_list (length l) r ((l ≫= w) ++ rest) = Some (l, rest).
Proof.
  intros Hc. induction 1 as [|a l Ha Hl IH]; [done|].
  cbn [length get_list]. rewrite bind_cons, <- app_assoc.
  unfold mbind at 1, reader_bind at 1. rewrite (Hc _ _ Ha).
  unfold mbind at 1, reader_bind at 1. rewrite IH. done.
Qed.

Lemma bind_file_read {S A B} (r : reader A) (k : A -> prog (S * list Z) B) s bs a rest :
  r bs = Some (a, rest) -> (file_read r ≫= k) (s, bs) = k a (s, rest).
Proof. intros H. unfold mbind, prog_bind, file_read. by rewrite H. Qed.

Lemma bind_on_obj {S A B} (p : prog S A) (k : A -> prog (S * list Z) B) s bs a s' :
  p s = (Ret a, s') -> (on_obj p ≫= k) (s, bs) = k a (s', bs).
Proof. intros H. unfold mbind, prog_bind, on_obj, zoom. cbn [fst]. by rewrite H. Qed.

#[export] Hint Rewrite get_u16_le get_u32_le get_u64_le get_s32_le get_s64_le : brm.

#[global] Arguments le_bytes : simpl never.
