(* ===== verification/ByteStreams.v ===== *)
(** * Byte streams

    utils/messageqcpp/bytestream.{h,cpp}: the class every message of the system
    is built in and read from.  [Bytes] has the format of a message; this file
    has the buffer behind it: one allocation with two pointers into it, grown
    when a value does not fit.

    A byte of a fresh allocation is [None] until it is written: copying it is
    harmless, to compute with it is not.  The pointers are offsets from [fBuf];
    when [fBuf] is null they are addresses (0, or 8 after [restart]).  Two
    streams in one call are two objects. *)
From Stdlib Require Import ZArith Lia.
From S2P Require Import Prelude Bytes.

Local Open Scope Z_scope.

Definition BlockSize : Z := 4096.
Definition ISSOverhead : Z := 8.

Record ByteStream := mkBS {
  fBuf : option (list (option Z));
  fCurInPtr : Z;
  fCurOutPtr : Z;
  fMaxLen : Z;
}.

(** ** Memory *)

Definition new_bytes (n : Z) : list (option Z) := replicate (Z.to_nat n) None.

(** The [n] bytes at the offset [off] of a block; nothing is read for [n] = 0. *)
Definition mem_read (b : option (list (option Z))) (off n : Z) : res (list (option Z)) :=
  if decide (n = 0) then Ret []
  else match b with
       | Some l =>
           if decide (0 <= off /\ 0 <= n /\ off + n <= Z.of_nat (length l))
           then Ret (take (Z.to_nat n) (drop (Z.to_nat off) l)) else UB OutOfBounds
       | None => UB OutOfBounds
       end.
Definition mem_write (b : option (list (option Z))) (off : Z) (cs : list (option Z))
    : res (option (list (option Z))) :=
  if decide (cs = []) then Ret b
  else match b with
       | Some l =>
           if decide (0 <= off /\ off + Z.of_nat (length cs) <= Z.of_nat (length l))
           then Ret (Some (take (Z.to_nat off) l ++ cs ++ drop (Z.to_nat off + length cs) l))
           else UB OutOfBounds
       | None => UB OutOfBounds
       end.
(** The value of bytes that must have been written. *)
Definition values (cs : list (option Z)) : res (list Z) :=
  match mapM id cs with Some l => Ret l | None => UB Indeterminate end.

(** ** The buffer *)

Definition bs_length (s : ByteStream) : Z := u32 (fCurInPtr s - fCurOutPtr s).
Definition bs_empty (s : ByteStream) : bool := bool_decide (bs_length s = 0).
(** [buf()]: null, or what is behind the output pointer. *)
Definition bs_buf (s : ByteStream) : option (list (option Z)) :=
  match fBuf s with
  | Some l => Some (drop (Z.to_nat (fCurOutPtr s)) l)
  | None => if decide (fCurOutPtr s = 0) then None else Some []
  end.

(** A multiple of the block size, in 32 bits. *)
Definition round_up (n : Z) : Z := u32 (n + BlockSize - 1) / BlockSize * BlockSize.

Definition growBuf (toSize : Z) : prog ByteStream unit := fun s =>
  match fBuf s with
  | None =>
      let toSize := if decide (toSize = 0) then BlockSize else round_up toSize in
      (Ret tt, mkBS (Some (new_bytes (u32 (toSize + ISSOverhead)))) ISSOverhead ISSOverhead toSize)
  | Some l =>
      let toSize := if decide (toSize = 0) then u32 (fMaxLen s + BlockSize) else round_up toSize in
      if decide (toSize <= fMaxLen s) then (Ret tt, s)
      else
        let toSize := Z.max toSize (u32 (fMaxLen s * 2)) in
        match (cs ← mem_read (Some l) 0 (fCurInPtr s); mem_write (Some (new_bytes (u32 (toSize + ISSOverhead)))) 0 cs) with
        | Ret t => (Ret tt, mkBS t (u32 (fCurInPtr s)) (u32 (fCurOutPtr s)) toSize)
        | Throw e => (Throw e, s)
        | UB u => (UB u, s)
        end
  end.

(** Store at the input pointer, and move it. *)
Definition store_in (cs : list (option Z)) : prog ByteStream unit := fun s =>
  match mem_write (fBuf s) (fCurInPtr s) cs with
  | Ret b => (Ret tt, mkBS b (fCurInPtr s + Z.of_nat (length cs)) (fCurOutPtr s) (fMaxLen s))
  | Throw e => (Throw e, s)
  | UB u => (UB u, s)
  end.
Definition bs_null (s : ByteStream) : bool := match fBuf s with None => true | _ => false end.

Definition bs_add (b : Z) : prog ByteStream unit :=
  s ← gets id;
  (if bs_null s || bool_decide (u32 (fCurInPtr s) = u32 (fMaxLen s + ISSOverhead)) then growBuf 0 else mret tt);;
  store_in (Some <$> le_bytes 1 b).

(** [operator<<] of an integer of [n] bytes. *)
Definition put_int (n : nat) (x : Z) : prog ByteStream unit :=
  s ← gets id;
  (if bs_null s || bool_decide (fCurInPtr s + Z.of_nat n > u32 (fMaxLen s + ISSOverhead))
   then growBuf (u32 (fMaxLen s + BlockSize)) else mret tt);;
  store_in (Some <$> le_bytes n x).

Definition append (bp : option (list (option Z))) (len : Z) : prog ByteStream unit :=
  if decide (len = 0) then mret tt
  else match bp with
  | None => throw InvalidArgument
  | Some _ =>
      s ← gets id;
      let newSize := u32 (fCurInPtr s + len) in
      (if bs_null s || bool_decide (newSize > fMaxLen s) then growBuf newSize else mret tt);;
      cs ← reading (fun _ => mem_read bp 0 len);
      store_in cs
  end.

(** [operator<<(const string&)] *)
Definition put_string (str : list (option Z)) : prog ByteStream unit :=
  let len := s32 (Z.of_nat (length str)) in
  put_int 4 len;; append (Some str) (u32 len).
(** [operator<<(const uuid&)] *)
Definition put_uuid (u : list (option Z)) : prog ByteStream unit := append (Some u) 16.

(** [load]: replaces the contents. *)
Definition load (bp : option (list (option Z))) (len : Z) : prog ByteStream unit := fun s =>
  if bool_decide (bp = None) && negb (bool_decide (len = 0)) then (Throw InvalidArgument, s)
  else
    let newMaxLen := round_up len in
    let s := if decide (len > fMaxLen s)
             then mkBS (Some (new_bytes (u32 (newMaxLen + ISSOverhead)))) (fCurInPtr s) (fCurOutPtr s) newMaxLen else s in
    match (cs ← mem_read bp 0 len; mem_write (fBuf s) ISSOverhead cs) with
    | Ret b => (Ret tt, mkBS b (len + ISSOverhead) ISSOverhead (fMaxLen s))
    | Throw e => (Throw e, s)
    | UB u => (UB u, s)
    end.

(** ** Reading *)

(** [peek] of an integer of [n] bytes. *)
Definition peek_int (n : nat) (s : ByteStream) : res Z :=
  if decide (bs_length s < Z.of_nat n) then Throw UnderflowError
  else cs ← mem_read (fBuf s) (fCurOutPtr s) (Z.of_nat n); bs ← values cs; Ret (of_le bs).
Definition advance_out (n : Z) : prog ByteStream unit :=
  modify (fun s => mkBS (fBuf s) (fCurInPtr s) (fCurOutPtr s + n) (fMaxLen s)).
(** [operator>>] of one; a signed type is [s8] ... [s64] of the result. *)
Definition get_int (n : nat) : prog ByteStream Z :=
  x ← reading (peek_int n); advance_out (Z.of_nat n);; mret x.

Definition peek_string (s : ByteStream) : res (list (option Z)) :=
  len ← peek_int 4 s;
  let len := s32 len in
  if decide (len < 0) then Throw ProtocolError
  else if decide (2 ^ 31 <= len + 4) then UB SignedOverflow
  else if decide (bs_length s < u32 (len + 4)) then Throw UnderflowError
  else mem_read (fBuf s) (fCurOutPtr s + 4) len.
Definition get_string : prog ByteStream (list (option Z)) :=
  str ← reading peek_string; advance_out (4 + Z.of_nat (length str));; mret str.

Definition peek_uuid (s : ByteStream) : res (list (option Z)) :=
  if decide (bs_length s < 16) then Throw UnderflowError else mem_read (fBuf s) (fCurOutPtr s) 16.
Definition get_uuid : prog ByteStream (list (option Z)) :=
  u ← reading peek_uuid; advance_out 16;; mret u.

Definition restart : prog ByteStream unit :=
  modify (fun s => mkBS (fBuf s) ISSOverhead ISSOverhead (fMaxLen s)).
Definition rewind : prog ByteStream unit :=
  modify (fun s => mkBS (fBuf s) (fCurInPtr s) ISSOverhead (fMaxLen s)).
Definition reset : prog ByteStream unit := modify (fun _ => mkBS None 0 0 0).

(** [operator>>(uint8_t*&)]: everything, into the caller's memory. *)
Definition get_all : prog ByteStream (list (option Z)) :=
  bs ← reading (fun s => mem_read (fBuf s) (fCurOutPtr s) (bs_length s)); restart;; mret bs.

Definition advance (adv : Z) : prog ByteStream unit :=
  n ← gets bs_length;
  if decide (adv > n) then throw LengthError else advance_out adv.

(** ** Writing through the input pointer *)

Definition needAtLeast (amount : Z) : prog ByteStream unit :=
  s ← gets id;
  let currentSpace := u64 (fMaxLen s - (fCurInPtr s - ISSOverhead)) in
  if decide (currentSpace < amount) then growBuf (u32 (fMaxLen s + amount)) else mret tt.
Definition getInputPtr (s : ByteStream) : Z := fCurInPtr s.
Definition advanceInputPtr (amount : Z) : prog ByteStream unit :=
  modify (fun s => mkBS (fBuf s) (fCurInPtr s + amount) (fCurOutPtr s) (fMaxLen s)).
(** A caller's write of [cs] at the pointer. *)
Definition poke (ptr : Z) (cs : list (option Z)) : prog ByteStream unit := fun s =>
  match mem_write (fBuf s) ptr cs with
  | Ret b => (Ret tt, mkBS b (fCurInPtr s) (fCurOutPtr s) (fMaxLen s))
  | Throw e => (Throw e, s)
  | UB u => (UB u, s)
  end.

(** ** Two streams *)

(** [doCopy]: what is left to be read. *)
Definition doCopy (rhs : ByteStream) : prog ByteStream unit := fun s =>
  let rlen := bs_length rhs in
  let s := if decide (fMaxLen s < rlen)
           then mkBS (Some (new_bytes (u32 (rlen + ISSOverhead)))) (fCurInPtr s) (fCurOutPtr s) rlen else s in
  match (cs ← mem_read (fBuf rhs) (fCurOutPtr rhs) rlen; mem_write (fBuf s) ISSOverhead cs) with
  | Ret b => (Ret tt, mkBS b (ISSOverhead + rlen) ISSOverhead (fMaxLen s))
  | Throw e => (Throw e, s)
  | UB u => (UB u, s)
  end.
Definition assign (rhs : ByteStream) : prog ByteStream unit :=
  if bs_null rhs then reset else doCopy rhs.

Definition bs_blank : ByteStream := mkBS None 0 0 0.
Definition ByteStream_new (initSize : Z) : ByteStream :=
  if decide (initSize > 0) then (growBuf initSize bs_blank).2 else bs_blank.
Definition ByteStream_load (bp : option (list (option Z))) (len : Z) : res ByteStream :=
  let '(r, s) := load bp len bs_blank in r;; Ret s.
Definition ByteStream_copy (rhs : ByteStream) : res ByteStream :=
  if bs_null rhs then Ret bs_blank else let '(r, s) := doCopy rhs bs_blank in r;; Ret s.

Definition swap (p : ByteStream * ByteStream) : ByteStream * ByteStream := (p.2, p.1).

Definition bs_eqb (a b : ByteStream) : res bool :=
  if decide (bs_length b <> bs_length a) then Ret false
  else
    x ← mem_read (fBuf a) (fCurOutPtr a) (bs_length a);
    y ← mem_read (fBuf b) (fCurOutPtr b) (bs_length a);
    vx ← values x; vy ← values y; Ret (bool_decide (vx = vy)).

(** [operator+=] *)
Definition append_stream (rhs : ByteStream) : prog ByteStream unit := append (bs_buf rhs) (bs_length rhs).
(** [operator<<(const ByteStream&)]; [serialize] is the same call on the other
    object. *)
Definition put_stream (rhs : ByteStream) : prog ByteStream unit :=
  put_int 4 (bs_length rhs);; append (bs_buf rhs) (bs_length rhs).
Definition serialize (s : ByteStream) : prog ByteStream unit :=
  put_int 4 (bs_length s);; append (bs_buf s) (bs_length s).

(** Calls that change both: the first is [this]. *)
Definition on_this {A} (p : prog ByteStream A) : prog (ByteStream * ByteStream) A :=
  zoom fst (fun s st => (s, st.2)) p.
Definition on_other {A} (p : prog ByteStream A) : prog (ByteStream * ByteStream) A :=
  zoom snd (fun s st => (st.1, s)) p.

(** [this->deserialize(bs)] *)
Definition deserialize : prog (ByteStream * ByteStream) unit :=
  on_this restart;;
  len ← on_other (get_int 4);
  o ← gets snd;
  on_this (load (bs_buf o) len);;
  on_other (advance len).

(** [peek(ByteStream&)]: the check leaves out the four bytes of the length. *)
Definition peek_stream : prog (ByteStream * ByteStream) unit :=
  s ← gets fst;
  len ← on_this (reading (peek_int 4));
  if decide (bs_length s < len) then throw UnderflowError
  else
    on_other (load (match fBuf s with
                    | Some l => Some (drop (Z.to_nat (fCurOutPtr s + 4)) l)
                    | None => Some []
                    end) len).
Definition get_stream : prog (ByteStream * ByteStream) unit :=
  peek_stream;;
  n ← gets (fun st => bs_length st.2);
  on_this (advance_out (4 + n)).

(** The replay of a journal reads its records into a stream this way. *)
Definition read_into (cs : list (option Z)) : prog ByteStream unit :=
  needAtLeast (Z.of_nat (length cs));;
  p ← gets getInputPtr;
  poke p cs;;
  advanceInputPtr (Z.of_nat (length cs)).
