(* ===== verification/ByteStreamProofs.v ===== *)
(** * Properties of byte streams

    A stream is a queue: the bytes read so far and still in the buffer, and the
    bytes not yet read ([holds]).  Each operation is shown to do to the buffer
    what it says on the queue; [ByteStreamContract] puts them together. *)
From Stdlib Require Import ZArith Lia.
From S2P Require Import Prelude Bytes ByteStreams.

Local Open Scope Z_scope.

Abbreviation zlen l := (Z.of_nat (length l)).

(** ** Memory *)

Lemma mem_read_mid (a b c : list (option Z)) : mem_read (Some (a ++ b ++ c)) (zlen a) (zlen b) = Ret b.
Proof.
  unfold mem_read. destruct (decide _) as [Hz|Hz]; [by destruct b|].
  rewrite decide_True by (rewrite !length_app; lia). by rewrite !Nat2Z.id, drop_app_length, take_app_length.
Qed.

Lemma mem_write_mid (a b c cs : list (option Z)) : length cs = length b ->
  mem_write (Some (a ++ b ++ c)) (zlen a) cs = Ret (Some (a ++ cs ++ c)).
Proof.
  intros Hl. unfold mem_write. destruct (decide _) as [->|Hz]; [by destruct b|].
  rewrite decide_True by (rewrite !length_app; lia). rewrite Nat2Z.id, take_app_length. do 4 f_equal.
  rewrite Hl, <- drop_drop, drop_app_length. by rewrite drop_app_length.
Qed.

Lemma values_some (l : list Z) : values (Some <$> l) = Ret l.
Proof.
  unfold values. assert (mapM id (Some <$> l) = Some l) as ->; [|done].
  apply mapM_Some_2, Forall2_fmap_l. by apply Forall_Forall2_diag, Forall_forall.
Qed.

(** ** The queue in the buffer *)

(** [live]: the stream is known to have an allocation. *)
Definition holds (s : ByteStream) (live : bool) (dn q : list Z) : Prop :=
  match fBuf s with
  | None => live = false /\ fMaxLen s = 0 /\ dn = [] /\ q = [] /\ fCurInPtr s = fCurOutPtr s /\
            (fCurInPtr s = 0 \/ fCurInPtr s = ISSOverhead)
  | Some l => exists hdr rest, l = hdr ++ (Some <$> dn ++ q) ++ rest /\ zlen hdr = ISSOverhead /\
            zlen l = fMaxLen s + ISSOverhead /\ fCurOutPtr s = ISSOverhead + zlen dn /\
            fCurInPtr s = ISSOverhead + zlen dn + zlen q
  end.

(** The stream has seen no more than [T] bytes. *)
Definition bounded (T : Z) (s : ByteStream) : Prop :=
  0 <= fMaxLen s <= 2 * T + 2 * BlockSize /\ fCurInPtr s <= T + ISSOverhead.
Definition T_max : Z := 2 ^ 30.

Lemma u32_small x : 0 <= x < 2 ^ 32 -> u32 x = x.
Proof. apply Z.mod_small. Qed.

Lemma round_up_small n : 0 <= n < 2 ^ 32 - BlockSize -> round_up n = (n + BlockSize - 1) / BlockSize * BlockSize.
Proof. intros H. unfold round_up. rewrite u32_small; [done|]. unfold BlockSize in *. lia. Qed.
Lemma round_up_bounds n : 0 <= n < 2 ^ 32 - BlockSize -> n <= round_up n < n + BlockSize.
Proof. intros H. rewrite round_up_small by done. unfold BlockSize in *. pose proof (Z.div_mod (n + 4096 - 1) 4096). pose proof (Z.mod_pos_bound (n + 4096 - 1) 4096). lia. Qed.

Lemma holds_ptrs s live dn q : holds s live dn q ->
  0 <= fCurOutPtr s <= fCurInPtr s /\ fCurInPtr s - fCurOutPtr s = zlen q /\ 0 <= fMaxLen s /\
  fCurInPtr s <= fMaxLen s + ISSOverhead.
Proof.
  unfold holds, ISSOverhead. destruct (fBuf s) as [l|].
  - intros (hdr & rest & -> & Hh & Hl & Ho & Hi). rewrite !length_app, length_fmap, length_app in Hl. lia.
  - intros (_ & ? & -> & -> & ? & ?). cbn. lia.
Qed.

Lemma holds_length s live dn q T : holds s live dn q -> bounded T s -> T <= T_max -> bs_length s = zlen q.
Proof.
  intros H [_ Hb] HT. apply holds_ptrs in H as (? & <- & _). apply u32_small. unfold T_max, ISSOverhead in *. lia.
Qed.

(** What [growBuf] is asked for. *)
Definition wanted (s : ByteStream) (toSize : Z) : Z :=
  if decide (toSize = 0) then fMaxLen s + BlockSize else round_up toSize.

Lemma growBuf_spec s live dn q toSize : holds s live dn q -> 0 <= toSize < 2 ^ 32 - BlockSize ->
  0 < wanted s toSize < 2 ^ 32 - ISSOverhead -> (wanted s toSize <= fMaxLen s \/ fMaxLen s * 2 < 2 ^ 32 - ISSOverhead) ->
  fCurInPtr s < 2 ^ 32 ->
  exists s', growBuf toSize s = (Ret tt, s') /\ holds s' true dn q /\ fBuf s' <> None /\
    fMaxLen s' = (if decide (wanted s toSize <= fMaxLen s) then fMaxLen s else Z.max (wanted s toSize) (fMaxLen s * 2)) /\
    (fCurInPtr s' = fCurInPtr s \/ fCurInPtr s' = ISSOverhead /\ q = [] /\ dn = []).
Proof.
  intros Hs Ht Hw Hm Hin. pose proof (holds_ptrs _ _ _ _ Hs) as (Hp & Hq & Hx & Hcap). unfold growBuf, holds in *.
  destruct (fBuf s) as [l|] eqn:Eb.
  - assert ((if decide (toSize = 0) then u32 (fMaxLen s + BlockSize) else round_up toSize) = wanted s toSize) as ->.
    { unfold wanted in *. destruct (decide (toSize = 0)); [|done]. apply u32_small. unfold ISSOverhead, BlockSize in *. lia. }
    destruct (decide _) as [Hle|Hle].
    { exists s. rewrite Eb. split_and!; try done; by left. }
    rewrite (u32_small (fMaxLen s * 2)) by (unfold ISSOverhead in *; lia).
    rewrite (u32_small (_ + ISSOverhead)) by (unfold ISSOverhead in *; lia).
    destruct Hs as (hdr & rest & -> & Hh & Hl & Ho & Hi).
    set (new := Z.max _ _).
    assert (Hsplit : exists rest', new_bytes (new + ISSOverhead) =
      [] ++ new_bytes (fCurInPtr s) ++ rest').
    { exists (new_bytes (new + ISSOverhead - fCurInPtr s)). unfold new_bytes. cbn [app].
      rewrite <- replicate_add. f_equal. unfold ISSOverhead in *. lia. }
    destruct Hsplit as (rest' & Hn).
    pose proof (mem_read_mid [] (hdr ++ (Some <$> dn ++ q)) rest) as Hr.
    assert (Hlen : zlen (hdr ++ (Some <$> dn ++ q)) = fCurInPtr s).
    { rewrite length_app, length_fmap, length_app. lia. }
    rewrite Hlen in Hr. change (zlen []) with 0 in Hr. cbn [app] in Hr. rewrite <- app_assoc in Hr. rewrite Hr. cbn [mbind res_bind].
    pose proof (f_equal length Hn) as Hnl.
    rewrite Hn. pose proof (mem_write_mid [] (new_bytes (fCurInPtr s)) rest' (hdr ++ (Some <$> dn ++ q))) as Hwr.
    change (zlen []) with 0 in Hwr. rewrite Hwr by (unfold new_bytes; rewrite length_replicate; lia).
    eexists. split; [reflexivity|]. cbn. rewrite !u32_small by lia. split_and!; try done; [|by left].
    exists hdr, rest'. rewrite <- app_assoc. split_and!; try done.
    cbn [app] in Hnl. unfold new_bytes in Hnl. rewrite length_app, !length_replicate in Hnl.
    rewrite !length_app, length_fmap, length_app in *. unfold ISSOverhead in *. lia.
  - destruct Hs as (-> & Hz & -> & -> & Hio & Hi).
    assert ((if decide (toSize = 0) then BlockSize else round_up toSize) = wanted s toSize) as ->.
    { unfold wanted. rewrite Hz. by destruct (decide (toSize = 0)). }
    rewrite u32_small by (unfold ISSOverhead in *; lia). eexists. split; [reflexivity|]. cbn.
    split_and!; [|done| |by right].
    + exists (new_bytes ISSOverhead), (new_bytes (wanted s toSize)). unfold new_bytes. cbn [app fmap list_fmap].
      rewrite <- replicate_add. split_and!; try done; [f_equal; unfold ISSOverhead; lia|].
      rewrite length_replicate. unfold ISSOverhead in *. lia.
    + rewrite decide_False by lia. lia.
Qed.

(** ** Writing *)

Lemma store_in_spec s live dn q bs : holds s live dn q -> fBuf s <> None ->
  fCurInPtr s + zlen bs <= fMaxLen s + ISSOverhead ->
  exists s', store_in (Some <$> bs) s = (Ret tt, s') /\ holds s' true dn (q ++ bs) /\
    fMaxLen s' = fMaxLen s /\ fCurInPtr s' = fCurInPtr s + zlen bs.
Proof.
  intros Hs Hb Hfit. unfold store_in, holds in *. destruct (fBuf s) as [l|]; [|done].
  destruct Hs as (hdr & rest & -> & Hh & Hl & Ho & Hi).
  pose proof (mem_write_mid (hdr ++ (Some <$> dn ++ q)) (take (length bs) rest) (drop (length bs) rest) (Some <$> bs)) as Hw.
  assert (Hlen : zlen (hdr ++ (Some <$> dn ++ q)) = fCurInPtr s) by (rewrite length_app, length_fmap, length_app; lia).
  rewrite !length_app, length_fmap, length_app in Hl.
  rewrite take_drop, Hlen, <- !app_assoc in Hw. rewrite Hw; [|rewrite length_fmap, length_take; lia].
  eexists. split; [reflexivity|]. cbn. rewrite length_fmap. split_and!; [|done|lia].
  exists hdr, (drop (length bs) rest). split_and!; try done; [by rewrite !fmap_app, <- !app_assoc| |].
  - rewrite !length_app, length_drop, !length_fmap, length_app. lia.
  - rewrite !length_app. lia.
Qed.

(** Room for [n] bytes, made by growing the buffer to [toSize] when [full]. *)
Lemma grown_spec s live dn q T n (full : bool) toSize : holds s live dn q -> bounded T s -> 0 <= n ->
  0 <= T -> T + n <= T_max ->
  (full = false -> fBuf s <> None /\ fCurInPtr s + n <= fMaxLen s + ISSOverhead) ->
  (full = true -> fBuf s <> None -> fMaxLen s < T + n + ISSOverhead /\ fMaxLen s < wanted s toSize) ->
  (full = true -> 0 <= toSize < 2 ^ 32 - BlockSize /\ n <= wanted s toSize <= 2 * (T + n) + 2 * BlockSize - 1 /\
    fCurInPtr s + n <= wanted s toSize + ISSOverhead) ->
  (full = true -> 0 < n \/ toSize = 0) ->
  exists s', (if full then growBuf toSize else mret tt) s = (Ret tt, s') /\ holds s' true dn q /\ fBuf s' <> None /\
    fCurInPtr s' + n <= fMaxLen s' + ISSOverhead /\ bounded (T + n) s' /\ fCurInPtr s' <= T + ISSOverhead.
Proof.
  intros Hs [Hb1 Hb2] Hn HT HTn Hfit Hfull Hsize Hpos. pose proof (holds_ptrs _ _ _ _ Hs) as (Hp & Hq & Hx & Hcap).
  destruct full.
  - destruct (Hsize eq_refl) as (Ht & Hw & Hw'). unfold T_max, ISSOverhead, BlockSize in *.
    assert (Hw0 : 0 < wanted s toSize).
    { destruct (Hpos eq_refl) as [| ->]; [lia|]. unfold wanted. rewrite decide_True by done. unfold BlockSize. lia. }
    assert (Hm : fBuf s = None /\ fMaxLen s = 0 \/ fMaxLen s < T + n + 8 /\ fMaxLen s < wanted s toSize).
    { destruct (fBuf s) eqn:E; [right; by apply Hfull|left]. unfold holds in Hs. rewrite E in Hs. tauto. }
    destruct (growBuf_spec s live dn q toSize Hs) as (s' & E & Hs' & Hb' & Hm' & Hi); unfold ISSOverhead, BlockSize in *; [lia..|].
    exists s'. rewrite decide_False in Hm' by lia. unfold bounded, ISSOverhead, BlockSize. split_and!; try done; try lia.
  - destruct (Hfit eq_refl). exists s. split; [done|]. split_and!; try done; unfold bounded; try lia.
    unfold holds in *. by destruct (fBuf s).
Qed.

Lemma bind_gets {S A B} (f : S -> A) (k : A -> prog S B) s : (x ← gets f; k x) s = k (f s) s.
Proof. done. Qed.

Ltac bs_unfold := unfold T_max, ISSOverhead, BlockSize in *.

Lemma null_live s live dn q : holds s live dn q -> bs_null s = false -> fBuf s <> None.
Proof. unfold bs_null. by destruct (fBuf s). Qed.

Lemma put_int_spec s live dn q T n x : holds s live dn q -> bounded T s -> 0 <= T -> (0 < n <= 8)%nat ->
  T + Z.of_nat n <= T_max ->
  exists s', put_int n x s = (Ret tt, s') /\ holds s' true dn (q ++ le_bytes n x) /\ bounded (T + Z.of_nat n) s'.
Proof.
  intros Hs Hb HT Hn HTn. pose proof (holds_ptrs _ _ _ _ Hs) as (Hp & Hq & Hx & Hcap).
  unfold put_int. rewrite bind_gets. unfold id.
  assert (Hu : u32 (fMaxLen s + ISSOverhead) = fMaxLen s + ISSOverhead).
  { apply u32_small. destruct Hb. bs_unfold. lia. }
  assert (Hu' : u32 (fMaxLen s + BlockSize) = fMaxLen s + BlockSize).
  { apply u32_small. destruct Hb. bs_unfold. lia. }
  rewrite Hu, Hu'.
  assert (Hr : forall b, b = true -> bs_null s || bool_decide (fCurInPtr s + Z.of_nat n > fMaxLen s + ISSOverhead) = b ->
    fMaxLen s < T + Z.of_nat n).
  { intros b -> H. apply orb_true_iff in H as [H|H%bool_decide_eq_true]; [|destruct Hb; bs_unfold; lia].
    unfold holds, bs_null in *. destruct (fBuf s); [done|]. destruct Hs. lia. }
  destruct (grown_spec s live dn q T (Z.of_nat n)
    (bs_null s || bool_decide (fCurInPtr s + Z.of_nat n > fMaxLen s + ISSOverhead)) (fMaxLen s + BlockSize))
    as (s1 & E1 & Hs1 & Hb1 & Hfit & Hbd1 & Hi1); try done; try lia.
  - intros [H1 H2%bool_decide_eq_false]%orb_false_iff. split; [by eapply null_live|lia].
  - intros Hf _. specialize (Hr _ eq_refl Hf). unfold wanted.
    rewrite decide_False by (bs_unfold; lia). pose proof (round_up_bounds (fMaxLen s + BlockSize)).
    destruct Hb. bs_unfold. lia.
  - intros Hf. specialize (Hr _ eq_refl Hf). unfold wanted.
    rewrite decide_False by (bs_unfold; lia). pose proof (round_up_bounds (fMaxLen s + BlockSize)).
    destruct Hb. bs_unfold. lia.
  - rewrite (bind_Ret _ _ _ _ _ E1).
    destruct (store_in_spec s1 true dn q (le_bytes n x) Hs1 Hb1) as (s2 & E2 & Hs2 & Hm2 & Hi2);
      [by rewrite length_le_bytes|]. rewrite length_le_bytes in Hi2.
    exists s2. split_and!; try done. destruct Hbd1. split; lia.
Qed.

Lemma bs_add_spec s live dn q T b : holds s live dn q -> bounded T s -> 0 <= T -> T + 1 <= T_max ->
  exists s', bs_add b s = (Ret tt, s') /\ holds s' true dn (q ++ le_bytes 1 b) /\ bounded (T + 1) s'.
Proof.
  intros Hs Hb HT HTn. pose proof (holds_ptrs _ _ _ _ Hs) as (Hp & Hq & Hx & Hcap).
  unfold bs_add. rewrite bind_gets. unfold id.
  rewrite (u32_small (fCurInPtr s)) by (destruct Hb; bs_unfold; lia).
  rewrite (u32_small (fMaxLen s + ISSOverhead)) by (destruct Hb; bs_unfold; lia).
  assert (Hr : bs_null s || bool_decide (fCurInPtr s = fMaxLen s + ISSOverhead) = true -> fMaxLen s < T + 1).
  { intros [H|H%bool_decide_eq_true]%orb_true_iff; [|destruct Hb; bs_unfold; lia].
    unfold holds, bs_null in *. destruct (fBuf s); [done|]. destruct Hs. lia. }
  destruct (grown_spec s live dn q T 1 (bs_null s || bool_decide (fCurInPtr s = fMaxLen s + ISSOverhead)) 0)
    as (s1 & E1 & Hs1 & Hb1 & Hfit & Hbd1 & Hi1); try done; try lia.
  - intros [H1 H2%bool_decide_eq_false]%orb_false_iff. split; [by eapply null_live|lia].
  - intros Hf _. specialize (Hr Hf). unfold wanted. rewrite decide_True by done. bs_unfold. lia.
  - intros Hf. specialize (Hr Hf). unfold wanted. rewrite decide_True by done. bs_unfold. lia.
  - rewrite (bind_Ret _ _ _ _ _ E1).
    destruct (store_in_spec s1 true dn q (le_bytes 1 b) Hs1 Hb1) as (s2 & E2 & Hs2 & Hm2 & Hi2); [done|].
    exists s2. split_and!; try done. destruct Hbd1. rewrite length_le_bytes in Hi2. split; lia.
Qed.

(** The [len] bytes at [bp] are [bs]. *)
Definition points_to (bp : option (list (option Z))) (bs : list Z) : Prop :=
  bp <> None /\ mem_read bp 0 (zlen bs) = Ret (Some <$> bs).

Lemma points_some bs : points_to (Some (Some <$> bs)) bs.
Proof.
  split; [done|]. pose proof (mem_read_mid [] (Some <$> bs) []) as H. rewrite app_nil_r, length_fmap in H. exact H.
Qed.

Lemma append_spec s live dn q T bp bs : holds s live dn q -> bounded T s -> 0 <= T -> T + zlen bs <= T_max ->
  (bs = [] \/ points_to bp bs) ->
  exists s', append bp (zlen bs) s = (Ret tt, s') /\
    holds s' (bool_decide (bs <> []) || live) dn (q ++ bs) /\ bounded (T + zlen bs) s'.
Proof.
  intros Hs Hb HT HTn Hbp. pose proof (holds_ptrs _ _ _ _ Hs) as (Hp & Hq & Hx & Hcap). unfold append.
  destruct (decide (zlen bs = 0)) as [Hz|Hz].
  { destruct bs; [|done]. exists s. rewrite app_nil_r. split; [done|]. split; [done|]. destruct Hb. split; cbn; lia. }
  destruct Hbp as [->|[Hne Hbp]]; [done|]. destruct bp as [cells|]; [clear Hne|done].
  rewrite bool_decide_true by (by intros ->). cbn [orb].
  rewrite bind_gets. unfold id. rewrite (u32_small (fCurInPtr s + zlen bs)) by (destruct Hb; bs_unfold; lia).
  assert (Hround := round_up_bounds (fCurInPtr s + zlen bs) ltac:(destruct Hb; bs_unfold; lia)).
  destruct (grown_spec s live dn q T (zlen bs) (bs_null s || bool_decide (fCurInPtr s + zlen bs > fMaxLen s))
    (fCurInPtr s + zlen bs)) as (s1 & E1 & Hs1 & Hb1 & Hfit & Hbd1 & Hi1); try done; try lia.
  - intros [H1 H2%bool_decide_eq_false]%orb_false_iff. split; [by eapply null_live|bs_unfold; lia].
  - intros [H|H%bool_decide_eq_true]%orb_true_iff Hn; [unfold bs_null in H; by destruct (fBuf s)|].
    unfold wanted. rewrite decide_False by lia. destruct Hb. bs_unfold. lia.
  - intros _. unfold wanted. rewrite decide_False by lia. destruct Hb. bs_unfold. lia.
  - rewrite (bind_Ret _ _ _ _ _ E1). unfold reading at 1. unfold mbind, prog_bind. rewrite Hbp.
    destruct (store_in_spec s1 true dn q bs Hs1 Hb1) as (s2 & E2 & Hs2 & Hm2 & Hi2); [done|].
    exists s2. split_and!; try done. destruct Hbd1. split; lia.
Qed.

(** Fresh memory to put [bs] in behind the header. *)
Lemma fill_front l bs maxlen s : zlen l = maxlen + ISSOverhead -> zlen bs <= maxlen ->
  exists l', mem_write (Some l) ISSOverhead (Some <$> bs) = Ret (Some l') /\
    holds (mkBS (Some l') (zlen bs + ISSOverhead) ISSOverhead maxlen) s [] bs.
Proof.
  intros Hl Hb. pose proof (mem_write_mid (take 8 l) (take (length bs) (drop 8 l)) (drop (length bs) (drop 8 l)) (Some <$> bs)) as Hw.
  rewrite take_drop, take_drop in Hw. bs_unfold. rewrite !length_take, length_drop, length_fmap in Hw.
  replace (Z.of_nat (8 `min` length l)) with 8 in Hw by lia. rewrite Hw by lia.
  eexists. split; [done|]. unfold holds. cbn [fBuf fCurInPtr fCurOutPtr fMaxLen]. bs_unfold.
  exists (take 8 l), (drop (length bs) (drop 8 l)). cbn [app]. split_and!; [done| | |cbn; lia|cbn; lia].
  - rewrite length_take. lia.
  - rewrite !length_app, length_take, !length_drop, length_fmap. lia.
Qed.

Lemma load_spec s live dn q T bp bs : holds s live dn q -> bounded T s -> 0 <= T -> T + zlen bs <= T_max ->
  (bs = [] \/ points_to bp bs) ->
  exists s', load bp (zlen bs) s = (Ret tt, s') /\ holds s' (bool_decide (bs <> []) || live) [] bs /\
    bounded (T + zlen bs) s'.
Proof.
  intros Hs Hb HT HTn Hbp. pose proof (holds_ptrs _ _ _ _ Hs) as (Hp & Hq & Hx & Hcap). unfold load.
  assert (Hr : mem_read bp 0 (zlen bs) = Ret (Some <$> bs)) by (destruct Hbp as [->|[_ ?]]; done).
  assert (Hg : bool_decide (bp = None) && negb (bool_decide (zlen bs = 0)) = false).
  { apply andb_false_iff. destruct Hbp as [->|[? _]]; [right|left]; [done|by apply bool_decide_false]. }
  rewrite Hg, Hr. cbn [mbind res_bind]. clear Hg Hr Hbp. destruct (decide _) as [Hgt|Hgt].
  - assert (Hround := round_up_bounds (zlen bs) ltac:(bs_unfold; lia)).
    rewrite (u32_small (_ + _)) by (bs_unfold; lia). cbn [fBuf fMaxLen].
    destruct (fill_front (new_bytes (round_up (zlen bs) + ISSOverhead)) bs (round_up (zlen bs)) (bool_decide (bs <> []) || live))
      as (l' & -> & Hh); [unfold new_bytes; rewrite length_replicate; bs_unfold; lia|lia|].
    eexists. split; [done|]. split; [exact Hh|]. split; cbn; bs_unfold; lia.
  - destruct (fBuf s) as [l|] eqn:El.
    + destruct (fill_front l bs (fMaxLen s) (bool_decide (bs <> []) || live)) as (l' & -> & Hh); [|lia|].
      { unfold holds in Hs. rewrite El in Hs. by destruct Hs as (? & ? & _ & _ & ? & _). }
      eexists. split; [done|]. split; [exact Hh|]. destruct Hb. split; cbn; bs_unfold; lia.
    + unfold holds in Hs. rewrite El in Hs. destruct Hs as (-> & Hz & -> & -> & Hio & Hi).
      destruct bs; [|cbn in Hgt; lia]. cbn [fmap list_fmap]. eexists. split; [done|].
      split; [unfold holds; cbn; split_and!; try done; by right|]. destruct Hb. split; cbn; bs_unfold; lia.
Qed.

(** ** Reading *)

Lemma read_at s live dn a b c : holds s live dn (a ++ b ++ c) ->
  mem_read (fBuf s) (fCurOutPtr s + zlen a) (zlen b) = Ret (Some <$> b).
Proof.
  unfold holds. destruct (fBuf s) as [l|].
  - intros (hdr & rest & -> & Hh & Hl & Ho & Hi). rewrite Ho.
    pose proof (mem_read_mid (hdr ++ (Some <$> dn ++ a)) (Some <$> b) ((Some <$> c) ++ rest)) as H.
    rewrite !length_app, !length_fmap, length_app, !fmap_app, <- !app_assoc in H.
    rewrite !fmap_app, <- !app_assoc. rewrite <- H. f_equal. lia.
  - intros (_ & _ & _ & Hq & _). apply app_nil in Hq as [_ Hq]. by apply app_nil in Hq as [-> _].
Qed.

Lemma read_front s live dn b c : holds s live dn (b ++ c) ->
  mem_read (fBuf s) (fCurOutPtr s) (zlen b) = Ret (Some <$> b).
Proof. intros H. pose proof (read_at s live dn [] b c H) as Hr. by rewrite Z.add_0_r in Hr. Qed.

Lemma advance_out_spec s live dn a b T : holds s live dn (a ++ b) -> bounded T s ->
  exists s', advance_out (zlen a) s = (Ret tt, s') /\ holds s' live (dn ++ a) b /\ bounded T s'.
Proof.
  intros Hs Hb. eexists. split; [reflexivity|]. split; [|exact Hb]. unfold holds in *. cbn [fBuf fCurInPtr fCurOutPtr fMaxLen].
  destruct (fBuf s) as [l|].
  - destruct Hs as (hdr & rest & -> & Hh & Hl & Ho & Hi). exists hdr, rest. rewrite <- app_assoc.
    rewrite !length_app in *. split_and!; try done; lia.
  - destruct Hs as (-> & Hz & -> & Hq & Hio & Hi). apply app_nil in Hq as [-> ->]. cbn.
    split_and!; try done; lia.
Qed.

Section reading.
Context (s : ByteStream) (live : bool) (dn q : list Z) (T : Z).
Hypothesis Hs : holds s live dn q.
Hypothesis Hb : bounded T s.
Hypothesis HT0 : 0 <= T.
Hypothesis HT : T <= T_max.

Lemma peek_int_spec n : peek_int n s =
  if decide (zlen q < Z.of_nat n) then Throw UnderflowError else Ret (of_le (take n q)).
Proof.
  unfold peek_int. rewrite (holds_length _ _ _ _ T) by done. destruct (decide _) as [|Hn]; [done|].
  pose proof (read_front s live dn (take n q) (drop n q)) as H. rewrite take_drop, length_take in H.
  replace (Z.of_nat (n `min` length q)) with (Z.of_nat n) in H by lia. rewrite H by done.
  cbn [mbind res_bind]. by rewrite values_some.
Qed.

Lemma advance_spec n : (n <= length q)%nat ->
  exists s', advance_out (Z.of_nat n) s = (Ret tt, s') /\ holds s' live (dn ++ take n q) (drop n q) /\ bounded T s'.
Proof.
  intros Hn. pose proof (advance_out_spec s live dn (take n q) (drop n q) T) as H.
  rewrite take_drop, length_take in H. replace (n `min` length q)%nat with n in H by lia. by apply H.
Qed.

Lemma get_int_spec n :
  if decide (zlen q < Z.of_nat n) then get_int n s = (Throw UnderflowError, s)
  else exists s', get_int n s = (Ret (of_le (take n q)), s') /\ holds s' live (dn ++ take n q) (drop n q) /\ bounded T s'.
Proof.
  unfold get_int, reading, mbind, prog_bind. rewrite peek_int_spec. destruct (decide _) as [|Hn]; [done|].
  destruct (advance_spec n) as (s' & -> & H); [lia|]. by exists s'.
Qed.

Definition str_len : Z := s32 (of_le (take 4 q)).

Lemma str_len_range : -2 ^ 31 <= str_len < 2 ^ 31.
Proof. unfold str_len, s32. pose proof (Z.mod_pos_bound (of_le (take 4 q) + 2 ^ 31) (2 ^ 32)). lia. Qed.

(** A read of the [n] bytes behind a length. *)
Lemma read_body n : (4 + n <= length q)%nat ->
  mem_read (fBuf s) (fCurOutPtr s + 4) (Z.of_nat n) = Ret (Some <$> take n (drop 4 q)).
Proof.
  intros Hn. pose proof (read_at s live dn (take 4 q) (take n (drop 4 q)) (drop n (drop 4 q))) as H.
  rewrite !take_drop, !length_take, length_drop in H.
  replace (Z.of_nat (4 `min` length q)) with 4 in H by lia.
  replace (n `min` (length q - 4))%nat with n in H by lia. by apply H.
Qed.

Lemma get_string_spec : str_len < 2 ^ 31 - 4 ->
  if decide (zlen q < 4) then get_string s = (Throw UnderflowError, s)
  else if decide (str_len < 0) then get_string s = (Throw ProtocolError, s)
  else if decide (zlen q < 4 + str_len) then get_string s = (Throw UnderflowError, s)
  else exists s', get_string s = (Ret (Some <$> take (Z.to_nat str_len) (drop 4 q)), s') /\
    holds s' live (dn ++ take (4 + Z.to_nat str_len) q) (drop (4 + Z.to_nat str_len) q) /\ bounded T s'.
Proof.
  intros Hl. unfold get_string, reading, peek_string, mbind, prog_bind, res_bind. rewrite peek_int_spec.
  change (Z.of_nat 4) with 4.
  destruct (decide (zlen q < 4)) as [|H4]; [done|]. change (s32 (of_le (take 4 q))) with str_len.
  destruct (decide (str_len < 0)) as [|Hneg]; [done|]. rewrite (decide_False (P := 2 ^ 31 <= str_len + 4)) by lia.
  rewrite (holds_length _ _ _ _ T) by done. rewrite u32_small by lia.
  destruct (decide (zlen q < 4 + str_len)) as [Hsh|Hsh]; [by rewrite decide_True by lia|]. rewrite decide_False by lia.
  pose proof (read_body (Z.to_nat str_len)) as Hr. rewrite Z2Nat.id in Hr by lia. rewrite Hr by lia.
  rewrite length_fmap, length_take, length_drop.
  destruct (advance_spec (4 + Z.to_nat str_len)) as (s' & E & H); [lia|].
  replace (4 + Z.of_nat (Z.to_nat str_len `min` (length q - 4))) with (Z.of_nat (4 + Z.to_nat str_len)) by lia.
  rewrite E. by exists s'.
Qed.

Lemma get_uuid_spec :
  if decide (zlen q < 16) then get_uuid s = (Throw UnderflowError, s)
  else exists s', get_uuid s = (Ret (Some <$> take 16 q), s') /\ holds s' live (dn ++ take 16 q) (drop 16 q) /\ bounded T s'.
Proof.
  unfold get_uuid, reading, peek_uuid, mbind, prog_bind. rewrite (holds_length _ _ _ _ T) by done.
  destruct (decide _) as [|Hn]; [done|].
  pose proof (read_front s live dn (take 16 q) (drop 16 q)) as H. rewrite take_drop, length_take in H.
  replace (Z.of_nat (16 `min` length q)) with 16 in H by lia. rewrite H by done.
  destruct (advance_spec 16) as (s' & E & Hs'); [lia|]. change (Z.of_nat 16) with 16 in E. rewrite E. by exists s'.
Qed.

Lemma advance_call_spec (n : nat) :
  if decide (zlen q < Z.of_nat n) then advance (Z.of_nat n) s = (Throw LengthError, s)
  else exists s', advance (Z.of_nat n) s = (Ret tt, s') /\ holds s' live (dn ++ take n q) (drop n q) /\ bounded T s'.
Proof.
  unfold advance. rewrite bind_gets, (holds_length _ _ _ _ T) by done.
  destruct (decide (zlen q < Z.of_nat n)) as [H|H]; [by rewrite decide_True by lia|]. rewrite decide_False by lia.
  apply advance_spec. lia.
Qed.

Lemma restart_spec : exists s', restart s = (Ret tt, s') /\ holds s' live [] [] /\ bounded T s'.
Proof.
  eexists. split; [reflexivity|]. split; [|split; cbn; pose proof (holds_ptrs _ _ _ _ Hs); destruct Hb; bs_unfold; lia].
  pose proof Hs as H. unfold holds in *. cbn [fBuf fCurInPtr fCurOutPtr fMaxLen]. destruct (fBuf s) as [l|].
  - destruct H as (hdr & rest & -> & Hh & Hl & Ho & Hi). exists hdr, ((Some <$> dn ++ q) ++ rest). cbn. split_and!; try done; lia.
  - destruct H as (-> & ? & _). split_and!; try done; by right.
Qed.

Lemma rewind_spec : live = true -> exists s', rewind s = (Ret tt, s') /\ holds s' live [] (dn ++ q) /\ bounded T s'.
Proof.
  intros ->. eexists. split; [reflexivity|]. split; [|exact Hb].
  pose proof Hs as H. unfold holds in *. cbn [fBuf fCurInPtr fCurOutPtr fMaxLen]. destruct (fBuf s) as [l|]; [|by destruct H].
  destruct H as (hdr & rest & -> & Hh & Hl & Ho & Hi). exists hdr, rest. cbn. rewrite (length_app dn q). split_and!; try done; lia.
Qed.

Lemma get_all_spec : exists s', get_all s = (Ret (Some <$> q), s') /\ holds s' live [] [] /\ bounded T s'.
Proof.
  unfold get_all, reading, mbind, prog_bind. rewrite (holds_length _ _ _ _ T) by done.
  pose proof (read_front s live dn q []) as H. rewrite app_nil_r in H. rewrite H by done.
  destruct restart_spec as (s' & -> & H'). by exists s'.
Qed.

(** What [buf()] points to. *)
Lemma buf_points : q = [] \/ points_to (bs_buf s) q.
Proof.
  destruct (decide (q = [])) as [|Hq]; [by left|right]. unfold bs_buf. pose proof Hs as H. unfold holds in H.
  destruct (fBuf s) as [l|] eqn:El; [|naive_solver]. split; [done|].
  destruct H as (hdr & rest & -> & Hh & Hl & Ho & Hi). rewrite Ho, fmap_app.
  assert (Hd : drop (Z.to_nat (ISSOverhead + zlen dn)) (hdr ++ ((Some <$> dn) ++ (Some <$> q)) ++ rest) = (Some <$> q) ++ rest).
  { rewrite app_assoc, app_assoc, <- app_assoc. rewrite drop_app_length'; [done|]. rewrite length_app, length_fmap. lia. }
  rewrite Hd. pose proof (mem_read_mid [] (Some <$> q) rest) as Hr. by rewrite length_fmap in Hr.
Qed.
End reading.

Lemma reset_spec T : 0 <= T -> holds bs_blank false [] [] /\ bounded T bs_blank.
Proof. intros HT. split; [unfold holds; cbn; by split_and!; try done; left|split; cbn; bs_unfold; lia]. Qed.

(** ** Room at the input pointer *)

Lemma poke_store s cs s' : store_in cs s = (Ret tt, s') ->
  (p ← gets getInputPtr; poke p cs;; advanceInputPtr (zlen cs)) s = (Ret tt, s').
Proof.
  rewrite bind_gets. unfold store_in, poke, mbind, prog_bind, advanceInputPtr, modify, getInputPtr.
  destruct (mem_write _ _ _); [|done..]. by intros [= <-].
Qed.

Lemma read_into_spec s dn q T bs : holds s true dn q -> bounded T s -> 0 <= T -> T + zlen bs <= T_max ->
  exists s', read_into (Some <$> bs) s = (Ret tt, s') /\ holds s' true dn (q ++ bs) /\ bounded (T + zlen bs) s'.
Proof.
  intros Hs Hb HT HTn. pose proof (holds_ptrs _ _ _ _ Hs) as (Hp & Hq & Hx & Hcap).
  assert (Hnn : fBuf s <> None) by (unfold holds in Hs; destruct (fBuf s); [done|naive_solver]).
  unfold read_into. rewrite length_fmap.
  assert (Hi0 : ISSOverhead <= fCurInPtr s).
  { unfold holds in Hs. destruct (fBuf s); [|done]. destruct Hs as (? & ? & _ & _ & _ & ? & ?). lia. }
  assert (E : needAtLeast (zlen bs) s =
    (if bool_decide (fMaxLen s - (fCurInPtr s - ISSOverhead) < zlen bs) then growBuf (fMaxLen s + zlen bs) else mret tt) s).
  { unfold needAtLeast. rewrite bind_gets. unfold id.
    assert (u64 (fMaxLen s - (fCurInPtr s - ISSOverhead)) = fMaxLen s - (fCurInPtr s - ISSOverhead)) as ->.
    { apply Z.mod_small. destruct Hb. bs_unfold. lia. }
    rewrite u32_small by (destruct Hb; bs_unfold; lia).
    destruct (decide _); [by rewrite bool_decide_true|by rewrite bool_decide_false]. }
  destruct (grown_spec s true dn q T (zlen bs) (bool_decide (fMaxLen s - (fCurInPtr s - ISSOverhead) < zlen bs))
    (fMaxLen s + zlen bs)) as (s1 & E1 & Hs1 & Hb1 & Hfit & Hbd1 & Hi1); try done; try lia.
  - intros H%bool_decide_eq_false. split; [done|lia].
  - intros H%bool_decide_eq_true _. pose proof (round_up_bounds (fMaxLen s + zlen bs)). unfold wanted.
    rewrite decide_False by lia. destruct Hb. bs_unfold. lia.
  - intros H%bool_decide_eq_true. pose proof (round_up_bounds (fMaxLen s + zlen bs)). unfold wanted.
    rewrite decide_False by lia. destruct Hb. bs_unfold. lia.
  - intros H%bool_decide_eq_true. bs_unfold. lia.
  - rewrite <- E in E1. rewrite (bind_Ret _ _ _ _ _ E1).
    destruct (store_in_spec s1 true dn q bs Hs1 Hb1) as (s2 & E2 & Hs2 & Hm2 & Hi2); [done|].
    apply poke_store in E2. rewrite length_fmap in E2. exists s2. split_and!; try done. destruct Hbd1. split; lia.
Qed.

(** ** Strings, and one stream in another *)

Lemma bounded_mono T T' s : bounded T s -> T <= T' -> bounded T' s.
Proof. intros [??] ?. split; lia. Qed.

(** A length in four bytes and what it counts. *)
Lemma put_counted_spec s live dn q T bp bs : holds s live dn q -> bounded T s -> 0 <= T ->
  T + 4 + zlen bs <= T_max -> (bs = [] \/ points_to bp bs) ->
  exists s', (put_int 4 (zlen bs);; append bp (zlen bs)) s = (Ret tt, s') /\
    holds s' true dn (q ++ le_bytes 4 (zlen bs) ++ bs) /\ bounded (T + 4 + zlen bs) s'.
Proof.
  intros Hs Hb HT HTn Hbp.
  destruct (put_int_spec s live dn q T 4 (zlen bs) Hs Hb HT) as (s1 & E1 & Hs1 & Hb1); [lia|lia|].
  rewrite (bind_Ret _ _ _ _ _ E1).
  destruct (append_spec s1 true dn _ (T + 4) bp bs Hs1 Hb1) as (s2 & E2 & Hs2 & Hb2); [lia|lia|done|].
  rewrite orb_true_r, <- app_assoc in Hs2. by exists s2.
Qed.

Lemma put_string_spec s live dn q T bs : holds s live dn q -> bounded T s -> 0 <= T ->
  T + 4 + zlen bs <= T_max ->
  exists s', ByteStreams.put_string (Some <$> bs) s = (Ret tt, s') /\
    holds s' true dn (q ++ le_bytes 4 (zlen bs) ++ bs) /\ bounded (T + 4 + zlen bs) s'.
Proof.
  intros Hs Hb HT HTn. unfold ByteStreams.put_string. rewrite length_fmap.
  assert (s32 (zlen bs) = zlen bs) as -> by (unfold s32; rewrite Z.mod_small; bs_unfold; lia).
  rewrite u32_small by (bs_unfold; lia). eapply put_counted_spec; eauto using points_some.
Qed.

Lemma put_stream_spec s live dn q T r rlive rdn rq : holds s live dn q -> bounded T s -> 0 <= T ->
  holds r rlive rdn rq -> bounded T r -> T + 4 + zlen rq <= T_max ->
  exists s', put_stream r s = (Ret tt, s') /\
    holds s' true dn (q ++ le_bytes 4 (zlen rq) ++ rq) /\ bounded (T + 4 + zlen rq) s'.
Proof.
  intros Hs Hb HT Hr Hrb HTn. unfold put_stream. rewrite (holds_length r _ _ _ T Hr Hrb) by lia.
  eapply put_counted_spec; eauto using buf_points.
Qed.

Lemma append_stream_spec s live dn q T r rlive rdn rq : holds s live dn q -> bounded T s -> 0 <= T ->
  holds r rlive rdn rq -> bounded T r -> T + zlen rq <= T_max ->
  exists s', append_stream r s = (Ret tt, s') /\
    holds s' (bool_decide (rq <> []) || live) dn (q ++ rq) /\ bounded (T + zlen rq) s'.
Proof.
  intros Hs Hb HT Hr Hrb HTn. unfold append_stream. rewrite (holds_length r _ _ _ T Hr Hrb) by lia.
  eapply append_spec; eauto using buf_points.
Qed.

Lemma doCopy_spec s live dn q T r rlive rdn rq : holds s live dn q -> bounded T s -> 0 <= T <= T_max ->
  holds r rlive rdn rq -> bounded T r ->
  exists s', doCopy r s = (Ret tt, s') /\ holds s' (bool_decide (rq <> []) || live) [] rq /\ bounded T s'.
Proof.
  intros Hs Hb HT Hr Hrb. pose proof (holds_ptrs _ _ _ _ Hs) as (Hp & Hq & Hx & Hcap).
  pose proof (holds_ptrs _ _ _ _ Hr) as (Hrp & Hrq & Hrx & Hrcap).
  assert (Hrin : zlen rq <= T).
  { destruct Hrb as [_ Hrb]. unfold holds in Hr. destruct (fBuf r) as [l|].
    - destruct Hr as (? & ? & _ & _ & _ & _ & Hi). lia.
    - destruct Hr as (_ & _ & _ & -> & _). cbn. lia. }
  unfold doCopy. rewrite (holds_length r _ _ _ T Hr Hrb) by lia.
  pose proof (read_front r rlive rdn rq []) as Hread. rewrite app_nil_r in Hread. rewrite Hread by done.
  cbn [mbind res_bind]. rewrite (Z.add_comm ISSOverhead (zlen rq)). destruct (decide _) as [Hgt|Hgt].
  - rewrite u32_small by (bs_unfold; lia). cbn [fBuf fMaxLen].
    destruct (fill_front (new_bytes (zlen rq + ISSOverhead)) rq (zlen rq) (bool_decide (rq <> []) || live)) as (l' & E & Hh);
      [unfold new_bytes; rewrite length_replicate; bs_unfold; lia|lia|].
    rewrite E. eexists. split; [done|]. split; [exact Hh|].
    split; cbn; bs_unfold; lia.
  - destruct (fBuf s) as [l|] eqn:El.
    + destruct (fill_front l rq (fMaxLen s) (bool_decide (rq <> []) || live)) as (l' & -> & Hh); [|lia|].
      { unfold holds in Hs. rewrite El in Hs. by destruct Hs as (? & ? & _ & _ & ? & _). }
      eexists. split; [done|]. split; [exact Hh|]. destruct Hb.
      split; cbn; bs_unfold; lia.
    + unfold holds in Hs. rewrite El in Hs. destruct Hs as (-> & Hz & -> & -> & Hio & Hi).
      destruct rq; [|cbn in Hgt; lia]. cbn [fmap list_fmap]. eexists. split; [done|].
      split; [unfold holds; cbn; split_and!; try done; by right|]. destruct Hb. split; cbn; bs_unfold; lia.
Qed.

Lemma holds_weaken s live dn q : holds s live dn q -> holds s false dn q.
Proof. unfold holds. destruct (fBuf s); naive_solver. Qed.

Lemma assign_spec s live dn q T r rlive rdn rq : holds s live dn q -> bounded T s -> 0 <= T <= T_max ->
  holds r rlive rdn rq -> bounded T r ->
  exists s', assign r s = (Ret tt, s') /\ holds s' (rlive && (bool_decide (rq <> []) || live)) [] rq /\ bounded T s'.
Proof.
  intros Hs Hb HT Hr Hrb. unfold assign. destruct (bs_null r) eqn:En.
  - unfold bs_null, holds in *. destruct (fBuf r); [done|]. destruct Hr as (-> & _ & -> & -> & _).
    eexists. split; [reflexivity|]. apply reset_spec. lia.
  - destruct (doCopy_spec s live dn q T r rlive rdn rq Hs Hb HT Hr Hrb) as (s' & -> & Hs' & Hb').
    exists s'. split; [done|]. split; [|done]. destruct rlive; [done|by eapply holds_weaken].
Qed.
