(* ===== verification/ByteStreamContract.v ===== *)
(** * What a byte stream promises

    Two streams under any sequence of calls, against two queues of bytes.  The
    contract says nothing of a call its documentation excludes (more than 2^30
    bytes in all; an integer type that is not one) and of three the code gets
    wrong: [rewind] or a write through the input pointer without an allocation, a
    string length near 2^31, and a nested stream whose length goes beyond the
    end of the data. *)
From Stdlib Require Import ZArith Lia.
From S2P Require Import Prelude Bytes ByteStreams ByteStreamProofs.

Local Open Scope Z_scope.

(** ** Calls *)

Inductive bs_op :=
  | Add (b : Z) | PutInt (n : nat) (x : Z) | PutString (str : list Z) | PutUuid (u : list Z)
  | Append (bs : list Z) | Load (bs : list Z) | ReadInto (bs : list Z)
  | PeekInt (n : nat) | GetInt (n : nat) | GetString | GetUuid | GetAll
  | Advance (n : nat) | Restart | Rewind | Reset | Length
  | Assign | AppendStream | PutStream | GetStream | Deserialize | Equal | Swap.

Inductive bs_out := Unit | Num (x : Z) | Data (bs : list (option Z)) | Flag (b : bool).

Definition ret_unit {S} (p : prog S unit) : prog S bs_out := p;; mret Unit.
Definition ret_data {S} (p : prog S (list (option Z))) : prog S bs_out := bs ← p; mret (Data bs).
Definition cells (bs : list Z) : list (option Z) := Some <$> bs.
Definition from (bs : list Z) : option (list (option Z)) := Some (cells bs).

(** One call on [this], with the other stream as its argument. *)
Definition bs_exec (op : bs_op) : prog (ByteStream * ByteStream) bs_out :=
  match op with
  | Add b => ret_unit (on_this (bs_add b))
  | PutInt n x => ret_unit (on_this (put_int n x))
  | PutString str => ret_unit (on_this (put_string (cells str)))
  | PutUuid u => ret_unit (on_this (put_uuid (cells u)))
  | Append bs => ret_unit (on_this (append (from bs) (zlen bs)))
  | Load bs => ret_unit (on_this (load (from bs) (zlen bs)))
  | ReadInto bs => ret_unit (on_this (read_into (cells bs)))
  | PeekInt n => x ← on_this (reading (peek_int n)); mret (Num x)
  | GetInt n => x ← on_this (get_int n); mret (Num x)
  | GetString => ret_data (on_this get_string)
  | GetUuid => ret_data (on_this get_uuid)
  | GetAll => ret_data (on_this get_all)
  | Advance n => ret_unit (on_this (advance (Z.of_nat n)))
  | Restart => ret_unit (on_this restart)
  | Rewind => ret_unit (on_this rewind)
  | Reset => ret_unit (on_this reset)
  | Length => n ← gets (fun st => bs_length st.1); mret (Num n)
  | Assign => o ← gets snd; ret_unit (on_this (assign o))
  | AppendStream => o ← gets snd; ret_unit (on_this (append_stream o))
  | PutStream => o ← gets snd; ret_unit (on_this (put_stream o))
  | GetStream => ret_unit get_stream
  | Deserialize => ret_unit deserialize
  | Equal => b ← reading (fun st => bs_eqb st.1 st.2); mret (Flag b)
  | Swap => ret_unit (modify swap)
  end.

(** The outcomes of a sequence of calls; an exception ends a call, not the
    sequence. *)
Fixpoint bs_run (ops : list bs_op) (st : ByteStream * ByteStream) : list (res bs_out) :=
  match ops with
  | [] => []
  | op :: ops' => let '(r, st') := bs_exec op st in r :: bs_run ops' st'
  end.

(** ** The contract *)

(** A queue: read, and to be read. *)
Record queue := mkQ { q_live : bool; q_done : list Z; q_todo : list Z }.
(** Two of them, and the number of bytes moved so far. *)
Record queues := mkQs { moved : Z; this : queue; other : queue }.

Definition set_this (q : queue) (s : queues) : queues := mkQs (moved s) q (other s).
(** A call that moves [n] bytes. *)
Definition spending (n : Z) (s : queues) (k : queues -> res bs_out * queues) : option (res bs_out * queues) :=
  if decide (moved s + n <= T_max) then Some (k (mkQs (moved s + n) (this s) (other s))) else None.
(** Add [bs] to the queue. *)
Definition push (live : bool) (bs : list Z) (s : queues) : option (res bs_out * queues) :=
  spending (zlen bs) s (fun s =>
    let q := this s in (Ret Unit, set_this (mkQ (live || q_live q) (q_done q) (q_todo q ++ bs)) s)).
(** Take [n] bytes from it. *)
Definition taken (n : nat) (q : queue) : queue :=
  mkQ (q_live q) (q_done q ++ take n (q_todo q)) (drop n (q_todo q)).
Definition pop (e : exn) (n : nat) (out : list Z -> bs_out) (s : queues) : option (res bs_out * queues) :=
  let q := this s in
  Some (if decide (zlen (q_todo q) < Z.of_nat n) then (Throw e, s)
        else (Ret (out (take n (q_todo q))), set_this (taken n q) s)).
Definition emptied_q (q : queue) : queue := mkQ (q_live q) [] [].
Definition nonempty (bs : list Z) : bool := bool_decide (bs <> []).
(** A length in front of that many bytes. *)
Definition counted (bs : list Z) : list Z := le_bytes 4 (zlen bs) ++ bs.
Definition count_of (q : queue) : Z := of_le (take 4 (q_todo q)).

Definition spec_exec (op : bs_op) (s : queues) : option (res bs_out * queues) :=
  let q := this s in let o := other s in
  match op with
  | Add b => push true (le_bytes 1 b) s
  | PutInt n x => if decide (0 < n <= 8)%nat then push true (le_bytes n x) s else None
  | PutString str => push true (counted str) s
  | PutUuid u => if decide (length u = 16%nat) then push true u s else None
  | Append bs => push (nonempty bs) bs s
  | Load bs => spending (zlen bs) s (fun s => (Ret Unit, set_this (mkQ (nonempty bs || q_live q) [] bs) s))
  | ReadInto bs => if q_live q then push true bs s else None
  | PeekInt n => Some (if decide (zlen (q_todo q) < Z.of_nat n) then Throw UnderflowError
                       else Ret (Num (of_le (take n (q_todo q)))), s)
  | GetInt n => pop UnderflowError n (fun bs => Num (of_le bs)) s
  | GetString =>
      let len := s32 (count_of q) in
      if decide (zlen (q_todo q) < 4) then Some (Throw UnderflowError, s)
      else if decide (len < 0) then Some (Throw ProtocolError, s)
      else if decide (2 ^ 31 - 4 <= len) then None
      else pop UnderflowError (4 + Z.to_nat len) (fun bs => Data (cells (drop 4 bs))) s
  | GetUuid => pop UnderflowError 16 (fun bs => Data (cells bs)) s
  | GetAll => Some (Ret (Data (cells (q_todo q))), set_this (emptied_q q) s)
  | Advance n => pop LengthError n (fun _ => Unit) s
  | Restart => Some (Ret Unit, set_this (emptied_q q) s)
  | Rewind => if q_live q then Some (Ret Unit, set_this (mkQ true [] (q_done q ++ q_todo q)) s) else None
  | Reset => Some (Ret Unit, set_this (mkQ false [] []) s)
  | Length => Some (Ret (Num (zlen (q_todo q))), s)
  | Assign => Some (Ret Unit, set_this (mkQ (q_live o && (nonempty (q_todo o) || q_live q)) [] (q_todo o)) s)
  | AppendStream => push (nonempty (q_todo o)) (q_todo o) s
  | PutStream => push true (counted (q_todo o)) s
  | GetStream =>
      let len := count_of q in
      if decide (zlen (q_todo q) < 4 \/ zlen (q_todo q) < len) then Some (Throw UnderflowError, s)
      else if decide (0 <= len <= zlen (q_todo q) - 4) then
        spending len s (fun s =>
          let bs := take (Z.to_nat len) (drop 4 (q_todo q)) in
          (Ret Unit, mkQs (moved s) (taken (4 + Z.to_nat len) q) (mkQ (nonempty bs || q_live o) [] bs)))
      else None
  | Deserialize =>
      let len := count_of o in
      if decide (zlen (q_todo o) < 4) then Some (Throw UnderflowError, set_this (emptied_q q) s)
      else if decide (0 <= len <= zlen (q_todo o) - 4) then
        spending len s (fun s =>
          let bs := take (Z.to_nat len) (drop 4 (q_todo o)) in
          (Ret Unit, mkQs (moved s) (mkQ (nonempty bs || q_live q) [] bs) (taken (4 + Z.to_nat len) o)))
      else None
  | Equal => Some (Ret (Flag (bool_decide (q_todo q = q_todo o))), s)
  | Swap => Some (Ret Unit, mkQs (moved s) o q)
  end.

Fixpoint spec_run (ops : list bs_op) (s : queues) : option (list (res bs_out)) :=
  match ops with
  | [] => Some []
  | op :: ops' => '(r, s') ← spec_exec op s; rs ← spec_run ops' s'; Some (r :: rs)
  end.

(** ** Each call keeps it *)

Definition stream_ok (T : Z) (s : ByteStream) (q : queue) : Prop :=
  holds s (q_live q) (q_done q) (q_todo q) /\ bounded T s.
Record models (st : ByteStream * ByteStream) (s : queues) : Prop := {
  md_moved : 0 <= moved s <= T_max;
  md_this : stream_ok (moved s) st.1 (this s);
  md_other : stream_ok (moved s) st.2 (other s);
}.

Lemma models_this a b s s' : models (a, b) s -> forall a', stream_ok (moved s') a' (this s') ->
  moved s <= moved s' <= T_max -> other s' = other s -> models (a', b) s'.
Proof.
  intros [Hm Ht [Ho Hb]] a' Ha Hm' Hoth. split; [lia|done|]. rewrite Hoth. split; [done|].
  eapply bounded_mono; [done|lia].
Qed.

(** A call's outcome is the one promised. *)
Definition keeps (p : prog (ByteStream * ByteStream) bs_out) (st : ByteStream * ByteStream)
    (x : option (res bs_out * queues)) : Prop :=
  forall r s', x = Some (r, s') -> exists st', p st = (r, st') /\ models st' s'.

Section calls.
Context (a b : ByteStream) (s : queues).
Hypothesis Hmod : models (a, b) s.
Let q := this s.
Let o := other s.

Lemma keeps_push (p : prog ByteStream unit) live bs :
  (moved s + zlen bs <= T_max -> exists a', p a = (Ret tt, a') /\
     holds a' (live || q_live q) (q_done q) (q_todo q ++ bs) /\ bounded (moved s + zlen bs) a') ->
  keeps (ret_unit (on_this p)) (a, b) (push live bs s).
Proof.
  intros Hp r s'. unfold push, spending. destruct (decide _) as [Hm|]; [|done].
  intros [= <- <-]. destruct (Hp Hm) as (a' & E & Ha & Hb). exists (a', b).
  unfold ret_unit, on_this, zoom, mbind, prog_bind. cbn [fst snd]. rewrite E. split; [done|].
  eapply models_this; [exact Hmod|split; [exact Ha|exact Hb]|cbn; lia|done].
Qed.

Lemma keeps_pop {A} (p : prog ByteStream A) (f : A -> bs_out) e n (out : list Z -> bs_out) (x : A) :
  (if decide (zlen (q_todo q) < Z.of_nat n) then p a = (Throw e, a)
   else exists a', p a = (Ret x, a') /\
     holds a' (q_live q) (q_done q ++ take n (q_todo q)) (drop n (q_todo q)) /\ bounded (moved s) a') ->
  f x = out (take n (q_todo q)) ->
  keeps (y ← on_this p; mret (f y)) (a, b) (pop e n out s).
Proof.
  intros Hp Hf r s'. unfold pop. fold q. intros [= E]. destruct (decide _) as [Hn|Hn].
  - injection E as <- <-. exists (a, b). split; [|done]. unfold on_this, zoom, mbind, prog_bind. cbn [fst snd].
    by rewrite Hp.
  - injection E as <- <-. destruct Hp as (a' & E & Ha & Hb). exists (a', b).
    unfold on_this, zoom, mbind, prog_bind. cbn [fst snd]. rewrite E, <- Hf. split; [done|].
    eapply models_this; [exact Hmod|split; [exact Ha|exact Hb]| |done]. destruct Hmod. cbn. lia.
Qed.

(** A call on [this] that moves nothing. *)
Lemma keeps_this {A} (p : prog ByteStream A) (f : A -> bs_out) x q' :
  (exists a', p a = (Ret x, a') /\ holds a' (q_live q') (q_done q') (q_todo q') /\ bounded (moved s) a') ->
  keeps (y ← on_this p; mret (f y)) (a, b) (Some (Ret (f x), set_this q' s)).
Proof.
  intros (a' & E & Ha & Hb) r s' [= <- <-]. exists (a', b).
  unfold on_this, zoom, mbind, prog_bind. cbn [fst snd]. rewrite E. split; [done|].
  eapply models_this; [exact Hmod|split; [exact Ha|exact Hb]| |done]. destruct Hmod. cbn. lia.
Qed.

Lemma keeps_none p st : keeps p st None.
Proof. done. Qed.

(** The length in front of a nested stream is read in full when it is there. *)
Lemma taken_app n (l : list Z) : (4 <= length l)%nat ->
  take 4 l ++ take n (drop 4 l) = take (4 + n) l.
Proof. intros H. rewrite <- (take_drop 4 l) at 3. rewrite take_app_ge; rewrite length_take_le by done; [|lia]. do 2 f_equal. lia. Qed.
End calls.

Lemma keeps_load a b s bs : models (a, b) s ->
  keeps (ret_unit (on_this (load (from bs) (zlen bs)))) (a, b)
    (spending (zlen bs) s (fun s' => (Ret Unit, set_this (mkQ (nonempty bs || q_live (this s)) [] bs) s'))).
Proof.
  intros Hmod r s'. unfold spending. destruct (decide _) as [Hm|]; [|done]. intros [= <- <-].
  pose proof Hmod as [Hmv [Hh Hb] Ho]. cbn [fst snd] in *.
  destruct (load_spec a _ _ _ (moved s) (from bs) bs Hh Hb) as (a' & E & Ha & Hb'); [lia|lia|right; apply points_some|].
  exists (a', b). unfold ret_unit, on_this, zoom, mbind, prog_bind. cbn [fst snd]. rewrite E. split; [done|].
  eapply models_this; [exact Hmod|split; [exact Ha|exact Hb']|cbn; lia|done].
Qed.

(** Loading what [src] points to into a stream. *)
Lemma load_into t T q src bs : stream_ok T t q -> 0 <= T -> T + zlen bs <= T_max ->
  (bs = [] \/ points_to src bs) ->
  exists t', load src (zlen bs) t = (Ret tt, t') /\ stream_ok (T + zlen bs) t' (mkQ (nonempty bs || q_live q) [] bs).
Proof.
  intros [Hh Hb] HT HTn Hsrc. destruct (load_spec t _ _ _ T src bs Hh Hb HT HTn Hsrc) as (t' & E & H1 & H2).
  exists t'. by split.
Qed.

Lemma count_bytes (q : queue) n : 0 <= n -> (4 + Z.to_nat n <= length (q_todo q))%nat ->
  zlen (take (Z.to_nat n) (drop 4 (q_todo q))) = n.
Proof. intros Hn Hl. rewrite length_take, length_drop. lia. Qed.

(** The bytes behind the length at the output pointer. *)
Lemma body_points s live dn q n : holds s live dn q -> (4 + n <= length q)%nat ->
  take n (drop 4 q) = [] \/
  points_to (match fBuf s with Some l => Some (drop (Z.to_nat (fCurOutPtr s + 4)) l) | None => Some [] end)
    (take n (drop 4 q)).
Proof.
  intros Hs Hn. destruct (decide (take n (drop 4 q) = [])) as [|Hne]; [by left|right].
  unfold holds in Hs. destruct (fBuf s) as [l|]; [|destruct Hs as (_ & _ & _ & -> & _); cbn in Hn; lia]. split; [done|].
  destruct Hs as (hdr & rest & -> & Hh & Hl & Ho & Hi). rewrite Ho.
  assert (Hd : drop (Z.to_nat (ISSOverhead + zlen dn + 4)) (hdr ++ (Some <$> dn ++ q) ++ rest) =
    [] ++ (Some <$> take n (drop 4 q)) ++ (Some <$> drop n (drop 4 q)) ++ rest).
  { rewrite <- (take_drop 4 q) at 1. rewrite <- (take_drop n (drop 4 q)) at 1.
    rewrite !fmap_app, <- !app_assoc, app_assoc, app_assoc. cbn [app].
    apply drop_app_length'. rewrite !length_app, !length_fmap, length_take. lia. }
  rewrite Hd. pose proof (mem_read_mid [] (Some <$> take n (drop 4 q)) ((Some <$> drop n (drop 4 q)) ++ rest)) as Hr.
  by rewrite length_fmap in Hr.
Qed.

Lemma points_prefix bp x y : points_to bp (x ++ y) -> points_to bp x.
Proof.
  intros [Hn Hr]. split; [done|]. unfold mem_read in *. destruct (decide (zlen x = 0)) as [Hz|Hz]; [by destruct x|].
  rewrite length_app in Hr. rewrite decide_False in Hr by lia. destruct bp as [l|]; [|done].
  destruct (decide _) as [Hl|]; [|done]. rewrite decide_True by lia. injection Hr as Hr. f_equal.
  rewrite fmap_app in Hr. apply (f_equal (take (length x))) in Hr.
  rewrite take_app_length' in Hr by (by rewrite length_fmap). rewrite <- Hr, take_take. f_equal. lia.
Qed.

Lemma keeps_get_stream a b s : models (a, b) s -> keeps (bs_exec GetStream) (a, b) (spec_exec GetStream s).
Proof.
  intros Hmod r s'. pose proof Hmod as [Hmv [Hh Hb] [Ho Hbo]]. destruct Hmv as [HT0 HT]. cbn [fst snd] in *. cbn [spec_exec bs_exec].
  unfold ret_unit, get_stream, peek_stream. set (q := this s) in *. set (len := count_of q).
  assert (Hpk := peek_int_spec a _ _ _ (moved s) Hh Hb HT 4).
  assert (Hlen := holds_length a _ _ _ (moved s) Hh Hb HT).
  unfold on_this, on_other, zoom, reading, gets, throw, mbind, prog_bind. cbn [fst snd]. rewrite Hpk, Hlen.
  change (of_le (take 4 (q_todo q))) with len. change (Z.of_nat 4) with 4.
  destruct (decide (zlen (q_todo q) < 4)) as [H4|H4].
  { rewrite decide_True by lia. intros [= <- <-]. by exists (a, b). }
  cbn beta iota. destruct (decide (zlen (q_todo q) < len)) as [Hl|Hl].
  { rewrite decide_True by lia. intros [= <- <-]. by exists (a, b). }
  rewrite decide_False by lia. destruct (decide (0 <= len <= _)) as [Hr|]; [|intros [=]]. unfold spending.
  destruct (decide (moved s + len <= T_max)) as [Hm|]; [|intros [=]]. intros [= <- <-]. cbn [moved].
  set (bs := take (Z.to_nat len) (drop 4 (q_todo q))).
  assert (Hz : zlen bs = len) by (apply count_bytes; lia).
  destruct (load_into b (moved s) (other s) _ bs (conj Ho Hbo) ltac:(lia) ltac:(lia)
    (body_points a _ _ _ (Z.to_nat len) Hh ltac:(lia))) as (b' & E & Hb').
  rewrite Hz in E. cbn beta iota. cbn [fst snd]. rewrite E. cbn [fst snd].
  rewrite (holds_length b' _ _ _ _ (proj1 Hb') (proj2 Hb') ltac:(lia)). cbn [q_todo]. rewrite Hz.
  destruct (advance_spec a _ _ _ (moved s) Hh Hb (4 + Z.to_nat len)) as (a' & E' & Ha' & Hba'); [lia|].
  replace (4 + len) with (Z.of_nat (4 + Z.to_nat len)) by lia. rewrite E'.
  exists (a', b'). split; [done|]. split; [cbn; lia| |].
  - split; [exact Ha'|]. eapply bounded_mono; [exact Hba'|cbn; lia].
  - cbn [moved other snd]. rewrite <- Hz. exact Hb'.
Qed.

Lemma keeps_deserialize a b s : models (a, b) s -> keeps (bs_exec Deserialize) (a, b) (spec_exec Deserialize s).
Proof.
  intros Hmod r s'. pose proof Hmod as [Hmv [Hh Hb] [Ho Hbo]]. destruct Hmv as [HT0 HT]. cbn [fst snd] in *. cbn [spec_exec bs_exec].
  unfold ret_unit, deserialize. set (q := other s) in *. set (len := count_of q).
  destruct (restart_spec a _ _ _ (moved s) Hh Hb HT0) as (a1 & E1 & Ha1 & Hb1).
  assert (Hg := get_int_spec b _ _ _ (moved s) Ho Hbo HT 4).
  unfold on_this, on_other, zoom, gets, mbind, prog_bind. cbn [fst snd]. rewrite E1. cbn [fst snd].
  change (Z.of_nat 4) with 4 in Hg. destruct (decide (zlen (q_todo q) < 4)) as [H4|H4].
  { rewrite Hg. intros [= <- <-]. exists (a1, b). split; [done|].
    eapply models_this; [exact Hmod|split; [exact Ha1|exact Hb1]|cbn; lia|done]. }
  destruct Hg as (b1 & Eg & Hb1' & Hbb1). rewrite Eg. change (of_le (take 4 (q_todo q))) with len.
  destruct (decide (0 <= len <= _)) as [Hr|]; [|intros [=]]. unfold spending.
  destruct (decide (moved s + len <= T_max)) as [Hm|]; [|intros [=]]. intros [= <- <-]. cbn [moved].
  set (bs := take (Z.to_nat len) (drop 4 (q_todo q))).
  assert (Hz : zlen bs = len) by (apply count_bytes; lia).
  assert (Hsplit : drop 4 (q_todo q) = bs ++ drop (Z.to_nat len) (drop 4 (q_todo q))) by (symmetry; apply take_drop).
  assert (Hsrc : bs = [] \/ points_to (bs_buf b1) bs).
  { destruct (decide (bs = [])) as [|Hne]; [by left|right].
    destruct (buf_points b1 _ _ _ Hb1') as [Hnil|[Hnn Hrd]]; [by rewrite Hnil in Hsplit; symmetry in Hsplit; apply app_nil in Hsplit as [? _]|].
    apply (points_prefix _ bs (drop (Z.to_nat len) (drop 4 (q_todo q)))). rewrite <- Hsplit. by split. }
  destruct (load_into a1 (moved s) (mkQ (q_live (this s)) [] []) (bs_buf b1) bs (conj Ha1 Hb1) ltac:(lia) ltac:(lia) Hsrc)
    as (a2 & E2 & Ha2). rewrite Hz in E2.
  assert (Hadv := advance_call_spec b1 _ _ _ (moved s) Hb1' Hbb1 HT (Z.to_nat len)).
  rewrite length_drop, decide_False in Hadv by lia. destruct Hadv as (b2 & E3 & Hb2 & Hbb2). rewrite Z2Nat.id in E3 by lia.
  cbn beta iota. cbn [fst snd]. rewrite E2. cbn [fst snd]. rewrite E3.
  exists (a2, b2). split; [done|]. split; [cbn; lia| |].
  - cbn [moved this fst]. rewrite <- Hz. exact Ha2.
  - split; [|eapply bounded_mono; [exact Hbb2|cbn; lia]]. cbn [other q_live q_done q_todo taken snd].
    rewrite <- app_assoc, taken_app, drop_drop in Hb2 by lia. exact Hb2.
Qed.

Lemma bs_eqb_spec a b T q o : stream_ok T a q -> stream_ok T b o -> T <= T_max ->
  bs_eqb a b = Ret (bool_decide (q_todo q = q_todo o)).
Proof.
  intros [Ha Hab] [Hb Hbb] HT. unfold bs_eqb.
  rewrite (holds_length a _ _ _ T Ha Hab HT), (holds_length b _ _ _ T Hb Hbb HT).
  destruct (decide _) as [Hn|Hn]; [rewrite bool_decide_false; [done|congruence]|].
  pose proof (read_front a (q_live q) (q_done q) (q_todo q) []) as H1. pose proof (read_front b (q_live o) (q_done o) (q_todo o) []) as H2.
  rewrite app_nil_r in H1, H2. apply H1 in Ha as ->. apply H2 in Hb. cbn [mbind res_bind].
  replace (zlen (q_todo q)) with (zlen (q_todo o)) by lia. rewrite Hb. cbn [mbind res_bind]. by rewrite !values_some.
Qed.

Lemma keeps_assign a b s : models (a, b) s -> keeps (bs_exec Assign) (a, b) (spec_exec Assign s).
Proof.
  intros Hmod. pose proof Hmod as [Hmv [Hh Hb] [Ho Hbo]]. cbn [spec_exec].
  refine (keeps_this a b s Hmod (assign b) (fun _ => Unit) tt _ _).
  apply (assign_spec a _ _ _ (moved s) b _ _ _ Hh Hb Hmv Ho Hbo).
Qed.

Lemma keeps_get_string a b s : models (a, b) s -> keeps (bs_exec GetString) (a, b) (spec_exec GetString s).
Proof.
  intros Hmod. pose proof Hmod as [[HT0 HT] [Hh Hb] _]. cbn [fst] in *. cbn [spec_exec bs_exec].
  pose proof (get_string_spec a _ _ _ (moved s) Hh Hb HT) as Hg.
  change (s32 (count_of (this s))) with (str_len (q_todo (this s))). set (len := str_len (q_todo (this s))) in *.
  assert (Hthrow : forall e, get_string a = (Throw e, a) -> keeps (ret_data (on_this get_string)) (a, b) (Some (Throw e, s))).
  { intros e E r s' [= <- <-]. exists (a, b). split; [|done]. unfold ret_data, on_this, zoom, mbind, prog_bind. cbn [fst]. by rewrite E. }
  destruct (decide (zlen (q_todo (this s)) < 4)) as [H4|H4].
  { apply Hthrow. unfold get_string, reading, peek_string, mbind, prog_bind, res_bind.
    rewrite (peek_int_spec a _ _ _ (moved s) Hh Hb HT 4). by rewrite decide_True by lia. }
  destruct (decide (len < 0)) as [Hl|Hl]; [apply Hthrow, Hg; lia|].
  destruct (decide (2 ^ 31 - 4 <= len)) as [Hbig|Hbig]; [done|].
  apply (keeps_pop a b s Hmod get_string Data _ _ _ (cells (take (Z.to_nat len) (drop 4 (q_todo (this s)))))).
  - specialize (Hg ltac:(lia)). destruct (decide (zlen (q_todo (this s)) < 4 + len)) as [Hs|Hs].
    + by rewrite decide_True by lia.
    + rewrite decide_False by lia. exact Hg.
  - f_equal. f_equal. rewrite <- (taken_app _ (q_todo (this s))) by lia.
    rewrite drop_app_length'; [done|]. rewrite length_take. lia.
Qed.

(** Every call does what the contract says it does. *)
Lemma bs_exec_keeps op a b s : models (a, b) s -> keeps (bs_exec op) (a, b) (spec_exec op s).
Proof.
  intros Hmod. pose proof Hmod as [[HT0 HT] [Hh Hb] [Ho Hbo]]. cbn [fst snd] in *.
  destruct op; try (by apply keeps_get_stream || by apply keeps_deserialize || by apply keeps_assign ||
                    by apply keeps_get_string); cbn [spec_exec bs_exec].
  - apply keeps_push; [done|]. intros Hm. rewrite length_le_bytes in *. eapply bs_add_spec; eauto.
  - destruct (decide _) as [Hn|]; [|done]. apply keeps_push; [done|]. intros Hm. rewrite length_le_bytes in *.
    eapply put_int_spec; eauto.
  - apply keeps_push; [done|]. unfold counted. rewrite length_app, length_le_bytes. intros Hm.
    replace (moved s + Z.of_nat (4 + length str)) with (moved s + 4 + zlen str) by lia.
    eapply put_string_spec; eauto. lia.
  - destruct (decide _) as [Hu|]; [|done]. apply keeps_push; [done|]. intros Hm.
    destruct (append_spec a _ _ _ (moved s) (from u) u Hh Hb HT0 Hm) as (a' & E & Ha & Hb'); [right; apply points_some|].
    rewrite bool_decide_true in Ha by (by intros ->). exists a'. unfold put_uuid. rewrite Hu in E. by split_and!.
  - apply keeps_push; [done|]. intros Hm. eapply append_spec; eauto. right; apply points_some.
  - by apply keeps_load.
  - destruct (q_live (this s)) eqn:El; [|done]. apply keeps_push; [done|]. intros Hm. rewrite El. eapply read_into_spec; eauto.
  - intros r s' [= <- <-]. exists (a, b). split; [|done]. unfold on_this, zoom, reading, mbind, prog_bind. cbn [fst snd].
    rewrite (peek_int_spec a _ _ _ (moved s) Hh Hb HT n). by destruct (decide _).
  - eapply keeps_pop; [done|eapply get_int_spec; eauto|done].
  - eapply keeps_pop; [done|eapply get_uuid_spec; eauto|done].
  - eapply (keeps_this a b s Hmod get_all Data), get_all_spec; eauto.
  - eapply (keeps_pop a b s Hmod (advance (Z.of_nat n)) (fun _ => Unit)); [|done]. eapply advance_call_spec; eauto.
  - eapply (keeps_this a b s Hmod restart (fun _ => Unit) tt (emptied_q (this s))), restart_spec; eauto.
  - destruct (q_live (this s)) eqn:El; [|done].
    eapply (keeps_this a b s Hmod rewind (fun _ => Unit) tt (mkQ true [] _)). eapply rewind_spec; eauto.
  - eapply (keeps_this a b s Hmod reset (fun _ => Unit) tt (mkQ false [] [])). eexists. split; [reflexivity|]. by apply reset_spec.
  - intros r s' [= <- <-]. exists (a, b). split; [|done]. unfold gets, mbind, prog_bind. cbn [fst].
    by rewrite (holds_length a _ _ _ (moved s) Hh Hb HT).
  - apply (keeps_push a b s Hmod (append_stream b)). intros Hm. eapply append_stream_spec; eauto.
  - apply (keeps_push a b s Hmod (put_stream b)). unfold counted. rewrite length_app, length_le_bytes. intros Hm.
    replace (moved s + Z.of_nat (4 + length (q_todo (other s)))) with (moved s + 4 + zlen (q_todo (other s))) by lia.
    eapply put_stream_spec; eauto. lia.
  - intros r s' [= <- <-]. exists (a, b). split; [|done]. unfold reading, mbind, prog_bind. cbn [fst snd].
    by rewrite (bs_eqb_spec a b (moved s) (this s) (other s)).
  - intros r s' [= <- <-]. exists (b, a). split; [done|]. by split.
Qed.

(** ** Any sequence of calls *)

Definition defined {A} (r : res A) : Prop := match r with UB _ => False | _ => True end.

Lemma spec_defined op s r s' : spec_exec op s = Some (r, s') -> defined r.
Proof.
  destruct op; cbn [spec_exec]; unfold push, pop, spending; intros E;
    repeat case_decide; repeat case_match; simplify_eq; done.
Qed.

Lemma bs_run_refines ops : forall a b s outs, models (a, b) s -> spec_run ops s = Some outs ->
  bs_run ops (a, b) = outs /\ Forall defined outs.
Proof.
  induction ops as [|op ops IH]; intros a b s outs Hmod; cbn [spec_run bs_run]; [by intros [= <-]|].
  intros ([r s'] & E & (rs & Ers & [= <-])%bind_Some)%bind_Some.
  destruct (bs_exec_keeps op a b s Hmod r s' E) as ([a' b'] & -> & Hmod').
  destruct (IH a' b' s' rs Hmod' Ers) as [-> Hd]. split; [done|]. constructor; [by eapply spec_defined|done].
Qed.

Definition new_queue (initSize : Z) : queue := mkQ (bool_decide (0 < initSize)) [] [].

Lemma new_ok n T : 0 <= n <= T -> T <= T_max -> stream_ok T (ByteStream_new n) (new_queue n).
Proof.
  intros Hn HT. unfold ByteStream_new, new_queue. destruct (reset_spec 0) as [Hh Hb]; [done|].
  destruct (decide _) as [Hp|Hp].
  - pose proof (round_up_bounds n ltac:(bs_unfold; lia)) as Hr. rewrite bool_decide_true by lia.
    destruct (growBuf_spec bs_blank false [] [] n Hh) as (s' & E & Hs' & _ & Hm & Hi);
      unfold wanted in *; rewrite ?(decide_False (P := n = 0)) in * by lia; cbn [bs_blank fMaxLen fCurInPtr] in *; bs_unfold; [lia..|].
    rewrite E. split; [exact Hs'|]. cbn [snd]. rewrite decide_False in Hm by lia.
    split; [bs_unfold; lia|]. destruct Hi as [->|[-> _]]; bs_unfold; lia.
  - rewrite bool_decide_false by lia. split; [exact Hh|]. eapply bounded_mono; [done|lia].
Qed.

(** C9: Two byte streams behave as two queues of bytes under every sequence of calls
    the contract covers, which [spec_run] says, integers, strings, UUIDs, blocks, nested
    streams, copies and comparisons included: every value read is the one written, every
    exception is the documented one and leaves the queues as they were, the buffers grow
    in time, and no call reads or writes outside its buffer or computes with a byte that
    was never written. The contract does not cover reading a nested stream whose length
    is more than what is left, nor [rewind], [needAtLeast] and reading after [reset]
    ([get_stream_beyond_the_end], [deserialize_beyond_the_end], [rewind_after_reset] and
    [needAtLeast_after_reset] show why). *)
Theorem bytestream_refines (i j : Z) (ops : list bs_op) (outs : list (res bs_out)) : 0 <= i -> 0 <= j -> i + j <= T_max ->
  spec_run ops (mkQs (i + j) (new_queue i) (new_queue j)) = Some outs ->
  bs_run ops (ByteStream_new i, ByteStream_new j) = outs /\ Forall defined outs.
Proof.
  intros Hi Hj Hij. apply bs_run_refines. split; cbn; [lia|apply new_ok; lia..].
Qed.

(** Writing, nesting and reading back, with a read beyond the end. *)
Definition demo_calls : list bs_op :=
  [PutInt 4 7; PutString [104; 105]; Swap; Append [1; 2; 3]; PutStream; Swap; Advance 4; GetString; Swap;
   GetInt 1; Advance 2; GetStream; Length; Swap; GetInt 4; GetInt 8; Swap; GetInt 1].
Definition demo_outs : list (res bs_out) :=
  [Ret Unit; Ret Unit; Ret Unit; Ret Unit; Ret Unit; Ret Unit; Ret Unit; Ret (Data [Some 104; Some 105]); Ret Unit;
   Ret (Num 1); Ret Unit; Ret Unit; Ret (Num 0); Ret Unit; Ret (Num 7); Throw UnderflowError; Ret Unit;
   Throw UnderflowError].

Lemma bytestream_refines_witness :
  bs_run demo_calls (ByteStream_new 8192, ByteStream_new 0) = demo_outs /\ Forall defined demo_outs.
Proof. apply bytestream_refines; [lia|lia|vm_compute; done|vm_compute; reflexivity]. Defined.

(** ** What the contract leaves out *)

(** [rewind] of a stream that was [reset] moves the output pointer behind the
    input pointer: the empty stream is 4 GB long. *)
Theorem rewind_after_reset s : bs_length (rewind (reset s).2).2 = 2 ^ 32 - 8.
Proof. done. Qed.

(** [needAtLeast] counts the header of an allocation that is not there: up to
    eight bytes asked of a stream that was [reset], nothing is allocated. *)
Theorem needAtLeast_after_reset s n : 0 <= n <= 8 -> needAtLeast n (reset s).2 = (Ret tt, bs_blank).
Proof.
  intros Hn. unfold needAtLeast. rewrite bind_gets. change (reset s).2 with bs_blank. unfold id.
  assert (u64 (fMaxLen bs_blank - (fCurInPtr bs_blank - ISSOverhead)) = 8) as -> by done. by rewrite decide_False by lia.
Qed.

(** A stream of four bytes that announces four more is accepted: [get_stream]
    gives the caller bytes behind the end, and the stream is then 4 GB long. *)
Theorem get_stream_beyond_the_end :
  let st := ((put_int 4 4 (ByteStream_new 8192)).2, ByteStream_new 8192) in
  let '(r, st') := get_stream st in
  r = Ret tt /\ bs_length st.1 = 4 /\ bs_length st'.1 = 2 ^ 32 - 4 /\
  mem_read (fBuf st'.2) (fCurOutPtr st'.2) (bs_length st'.2) = Ret [None; None; None; None].
Proof. vm_compute. done. Qed.

(** [deserialize] copies what the length says before it is checked. *)
Theorem deserialize_beyond_the_end :
  (deserialize (ByteStream_new 8192, (put_int 4 9000 (ByteStream_new 8192)).2)).1 = UB OutOfBounds /\
  (deserialize (ByteStream_new 8192, (put_int 4 9 (ByteStream_new 8192)).2)).1 = Throw LengthError.
Proof. vm_compute. done. Qed.
