(* ===== verification/RWLock.v ===== *)
(** * Reader-writer locks: src/utils/rwlock/rwlock.{h,cpp}

    The lock the processes of the BRM share: four counters and three
    semaphores in shared memory.  What a call does while it holds the semaphore
    [MUTEX] is a function of the shared state; the calls of several threads
    interleave in the relation [step]. *)
From Stdlib Require Import ZArith Lia.
From S2P Require Import Prelude.

Local Open Scope Z_scope.

(** ** The shared state *)

(** [State]; a semaphore is its value.  The counters are [int]s and at most the
    number of threads. *)
Record State := mkState {
  writerswaiting : Z;
  writing : Z;
  readerswaiting : Z;
  reading : Z;
  sem_mutex : Z;
  sem_readers : Z;
  sem_writers : Z;
}.

(** [RWLockShmImpl]: the state of a new lock. *)
Definition RWLockShmImpl (excl : bool) : State := mkState 0 (if excl then 1 else 0) 0 0 1 0 0.

Definition add_writerswaiting (n : Z) (s : State) : State :=
  mkState (writerswaiting s + n) (writing s) (readerswaiting s) (reading s) (sem_mutex s) (sem_readers s) (sem_writers s).
Definition add_writing (n : Z) (s : State) : State :=
  mkState (writerswaiting s) (writing s + n) (readerswaiting s) (reading s) (sem_mutex s) (sem_readers s) (sem_writers s).
Definition add_readerswaiting (n : Z) (s : State) : State :=
  mkState (writerswaiting s) (writing s) (readerswaiting s + n) (reading s) (sem_mutex s) (sem_readers s) (sem_writers s).
Definition set_reading (n : Z) (s : State) : State :=
  mkState (writerswaiting s) (writing s) (readerswaiting s) n (sem_mutex s) (sem_readers s) (sem_writers s).
Definition add_reading (n : Z) (s : State) : State := set_reading (reading s + n) s.

(** [up] and the decrement of [down] *)
Definition up_mutex (n : Z) (s : State) : State :=
  mkState (writerswaiting s) (writing s) (readerswaiting s) (reading s) (sem_mutex s + n) (sem_readers s) (sem_writers s).
Definition up_readers (n : Z) (s : State) : State :=
  mkState (writerswaiting s) (writing s) (readerswaiting s) (reading s) (sem_mutex s) (sem_readers s + n) (sem_writers s).
Definition up_writers (n : Z) (s : State) : State :=
  mkState (writerswaiting s) (writing s) (readerswaiting s) (reading s) (sem_mutex s) (sem_readers s) (sem_writers s + n).

(** ** Calls *)

Inductive op :=
  | ReadLock (block : bool)
  | ReadLockPriority (block : bool)
  | ReadUnlock
  | WriteLock (block : bool)
  | TimedWriteLock
  | WriteUnlock
  | UpgradeToWrite
  | DowngradeToRead.

(** Where a thread is. *)
Inductive pc :=
  | Out                     (** not using the lock; a call that did not get it ends here *)
  | Reading
  | Writing
  | Enter (o : op)          (** in [down(MUTEX)] *)
  | Inside (o : op)         (** has [MUTEX] *)
  | WaitReaders             (** in [down(READERS)] *)
  | WaitWriters             (** in [down(WRITERS)] *)
  | WaitTimed               (** in [timed_down(WRITERS)] *)
  | TimedOut                (** in the second [timed_down(MUTEX)] *)
  | Revoking.               (** has [MUTEX] again *)

(** ** Critical sections *)

(** [while (readerswaiting > 0) { --readerswaiting; up(READERS); }]; the fuel is
    the counter. *)
Fixpoint wake_loop (fuel : nat) (s : State) : State :=
  match fuel with
  | O => s
  | S fuel' =>
      if decide (readerswaiting s > 0) then wake_loop fuel' (up_readers 1 (add_readerswaiting (-1) s)) else s
  end.
Definition wake_readers (s : State) : State := wake_loop (Z.to_nat (readerswaiting s)) s.

(** [if (busy) { if (!block) throw wouldblock(); ...++ ; wait } else ...++]; the
    exception leaves the thread outside. *)
Definition read_section (busy block : bool) (s : State) : State * pc :=
  if busy then
    if block then (add_readerswaiting 1 s, WaitReaders) else (s, Out)
  else (add_reading 1 s, Reading).
Definition write_section (block : bool) (wait : pc) (s : State) : State * pc :=
  if bool_decide (writing s > 0) || bool_decide (reading s > 0) then
    if block then (add_writerswaiting 1 s, wait) else (s, Out)
  else (add_writing 1 s, Writing).

Definition read_lock (block : bool) (s : State) : State * pc :=
  read_section (bool_decide (writerswaiting s > 0) || bool_decide (writing s > 0)) block s.
Definition read_lock_priority (block : bool) (s : State) : State * pc :=
  read_section (bool_decide (writing s > 0)) block s.

Definition read_unlock (s : State) : State * pc :=
  if decide (reading s > 0) then
    let s := add_reading (-1) s in
    (if bool_decide (writerswaiting s > 0) && bool_decide (reading s = 0)
     then up_writers 1 (add_writing 1 (add_writerswaiting (-1) s)) else s, Out)
  else (s, Out).

Definition write_lock (block : bool) (s : State) : State * pc := write_section block WaitWriters s.

Definition write_unlock (s : State) : State * pc :=
  let s := add_writing (-1) s in
  (if decide (writerswaiting s > 0) then up_writers 1 (add_writing 1 (add_writerswaiting (-1) s))
   else if decide (readerswaiting s > 0) then wake_readers (set_reading (readerswaiting s) s)
   else s, Out).

Definition upgrade_to_write (s : State) : State * pc :=
  let s' := add_reading (-1) s in
  if decide (reading s > 0) then
    if decide (reading s' = 0) then (add_writing 1 s', Writing) else write_section true WaitWriters s'
  else write_section true WaitWriters s.

Definition downgrade_to_read (s : State) : State * pc :=
  let s := add_writing (-1) s in
  let s := if decide (readerswaiting s > 0) then wake_readers (set_reading (readerswaiting s) s) else s in
  (add_reading 1 s, Reading).

(** [timed_write_lock] up to its wait. *)
Definition timed_write_lock (s : State) : State * pc := write_section true WaitTimed s.

(** Its end after a timeout; the caller may have been granted the lock
    meanwhile. *)
Definition revoke (s : State) : State * pc :=
  if decide (writerswaiting s = 0) then
    if decide (sem_writers s > 0) then (up_writers (-1) s, Writing) else (s, Out)
  else
    let s := add_writerswaiting (-1) s in
    (if bool_decide (writing s = 0) && bool_decide (writerswaiting s = 0)
     then wake_readers (add_reading (readerswaiting s) s) else s, Out).

Definition section (o : op) (s : State) : State * pc :=
  match o with
  | ReadLock block => read_lock block s
  | ReadLockPriority block => read_lock_priority block s
  | ReadUnlock => read_unlock s
  | WriteLock block => write_lock block s
  | TimedWriteLock => timed_write_lock s
  | WriteUnlock => write_unlock s
  | UpgradeToWrite => upgrade_to_write s
  | DowngradeToRead => downgrade_to_read s
  end.

(** [reset] *)
Definition reset (s : State) : State := RWLockShmImpl false.

(** [getLockState]: the counters, and whether [MUTEX] is taken. *)
Definition getLockState (s : State) : Z * Z * Z * Z * bool :=
  (writerswaiting s, writing s, readerswaiting s, reading s, negb (bool_decide (sem_mutex s > 0))).

(** ** Threads *)

Definition config : Type := State * list pc.

(** The calls a thread may make: it releases or converts what it holds. *)
Definition may_call (p : pc) (o : op) : Prop :=
  match o with
  | ReadUnlock | UpgradeToWrite => p = Reading
  | WriteUnlock | DowngradeToRead => p = Writing
  | _ => p = Out
  end.

(** One step of one thread; a critical section ends with [up(MUTEX)].  A timed
    request that waited for [MUTEX] for ten seconds more returns and leaves its
    request behind ([step_abandon]). *)
Inductive thread_step : State -> pc -> State -> pc -> Prop :=
  | step_call s p o : may_call p o -> thread_step s p s (Enter o)
  | step_mutex s o : sem_mutex s > 0 -> thread_step s (Enter o) (up_mutex (-1) s) (Inside o)
  | step_section s o s' p' : section o s = (s', p') -> thread_step s (Inside o) (up_mutex 1 s') p'
  | step_reader s : sem_readers s > 0 -> thread_step s WaitReaders (up_readers (-1) s) Reading
  | step_writer s : sem_writers s > 0 -> thread_step s WaitWriters (up_writers (-1) s) Writing
  | step_timed s : sem_writers s > 0 -> thread_step s WaitTimed (up_writers (-1) s) Writing
  | step_late s : thread_step s (Enter TimedWriteLock) s Out
  | step_timeout s : thread_step s WaitTimed s TimedOut
  | step_again s : sem_mutex s > 0 -> thread_step s TimedOut (up_mutex (-1) s) Revoking
  | step_revoke s s' p' : revoke s = (s', p') -> thread_step s Revoking (up_mutex 1 s') p'
  | step_abandon s : thread_step s TimedOut s Out.

(** The step leaves a request behind. *)
Definition abandons (p p' : pc) : nat := match p, p' with TimedOut, Out => 1 | _, _ => 0 end.

(** A step of the threads, with the number of requests it leaves behind. *)
Inductive step : config -> nat -> config -> Prop :=
  | step_thread s ts t p s' p' :
      ts !! t = Some p -> thread_step s p s' p' -> step (s, ts) (abandons p p') (s', <[t := p']> ts).

(** The lock is new, or its creator holds it for writing. *)
Inductive initial : config -> Prop :=
  | initial_free n : initial (RWLockShmImpl false, replicate n Out)
  | initial_excl n : initial (RWLockShmImpl true, Writing :: replicate n Out).

(** Interleavings, with the number of requests that were left behind. *)
Inductive steps : nat -> config -> config -> Prop :=
  | steps_refl c : steps 0 c c
  | steps_l c1 n c2 k c3 : step c1 n c2 -> steps k c2 c3 -> steps (n + k) c1 c3.

Definition reachable_with (k : nat) (c : config) : Prop := exists c0, initial c0 /\ steps k c0 c.
Definition reachable (c : config) : Prop := exists k, reachable_with k c.
