(* ===== verification/RWLockProofs.v ===== *)
(** * What the reader-writer lock guarantees

    The counters and semaphores of RWLock.v count the threads that hold the
    lock and those that wait for it, requests that were left behind included; from that
    follow the exclusion of writers, when somebody can wait for a lock that is free, and
    that the branch of [timed_write_lock] its comment calls impossible is. *)
From Stdlib Require Import ZArith Lia.
From S2P Require Import Prelude RWLock.

Local Open Scope Z_scope.

(** ** Counting threads *)

Fixpoint count (f : pc -> bool) (ts : list pc) : Z :=
  match ts with [] => 0 | p :: ts' => Z.b2z (f p) + count f ts' end.

Definition holdsR (p : pc) : bool :=
  match p with Reading | Enter (ReadUnlock | UpgradeToWrite) | Inside (ReadUnlock | UpgradeToWrite) => true | _ => false end.
Definition holdsW (p : pc) : bool :=
  match p with Writing | Enter (WriteUnlock | DowngradeToRead) | Inside (WriteUnlock | DowngradeToRead) => true | _ => false end.
Definition waitsR (p : pc) : bool := match p with WaitReaders => true | _ => false end.
Definition waitsW (p : pc) : bool :=
  match p with WaitWriters | WaitTimed | TimedOut | Revoking => true | _ => false end.
Definition inside (p : pc) : bool := match p with Inside _ | Revoking => true | _ => false end.

Lemma b2z_range b : 0 <= Z.b2z b <= 1.
Proof. destruct b; cbn; lia. Qed.
Lemma tcount_nonneg f ts : 0 <= count f ts.
Proof. induction ts as [|p ts IH]; cbn [count]; [lia|]. pose proof (b2z_range (f p)). lia. Qed.
Lemma tcount_insert f ts t p p' : ts !! t = Some p ->
  count f (<[t := p']> ts) = count f ts - Z.b2z (f p) + Z.b2z (f p').
Proof.
  revert t. induction ts as [|q ts IH]; intros [|t] H; try done.
  - injection H as ->. change (<[0%nat:=p']> (p :: ts)) with (p' :: ts). cbn [count]. lia.
  - change (<[S t:=p']> (q :: ts)) with (q :: <[t:=p']> ts). cbn [count]. rewrite (IH _ H). lia.
Qed.
Lemma tcount_here f ts t p : ts !! t = Some p -> Z.b2z (f p) <= count f ts.
Proof.
  revert t. induction ts as [|q ts IH]; intros [|t] H; try done; cbn [count].
  - injection H as ->. pose proof (tcount_nonneg f ts). lia.
  - specialize (IH _ H). pose proof (b2z_range (f q)). lia.
Qed.
Lemma tcount_two f ts t u p q : f Out = false -> ts !! t = Some p -> ts !! u = Some q -> t <> u ->
  Z.b2z (f p) + Z.b2z (f q) <= count f ts.
Proof.
  intros Hf Ht Hu Hne. pose proof (tcount_insert f ts t p Out Ht) as H. rewrite Hf in H.
  pose proof (tcount_here f (<[t := Out]> ts) u q) as H2. rewrite list_lookup_insert_ne in H2 by done.
  specialize (H2 Hu). cbn [Z.b2z] in H. lia.
Qed.
Lemma tcount_exists f ts : 0 < count f ts -> exists t p, ts !! t = Some p /\ f p = true.
Proof.
  induction ts as [|q ts IH]; cbn [count]; [lia|]. destruct (f q) eqn:E; cbn [Z.b2z].
  - intros _. by exists 0%nat, q.
  - intros H. destruct IH as (t & p & Ht & Hp); [lia|]. by exists (S t), p.
Qed.
Lemma tcount_replicate f n : f Out = false -> count f (replicate n Out) = 0.
Proof. intros H. induction n as [|n IH]; [done|]. cbn [replicate count]. by rewrite H, IH. Qed.

(** ** The invariant *)

(** [k] requests were left behind; they are still counted as waiting, or have been
    granted the lock. *)
Record lock_ok (k : nat) (s : State) (ts : list pc) : Prop := {
  ok_reading : reading s = count holdsR ts + sem_readers s;
  ok_readerswaiting : readerswaiting s = count waitsR ts - sem_readers s;
  ok_writing : writing s = count holdsW ts + sem_writers s;
  ok_writerswaiting : writerswaiting s = count waitsW ts + Z.of_nat k - sem_writers s;
  ok_mutex : sem_mutex s = 1 - count inside ts;
  ok_sems : 0 <= sem_mutex s /\ 0 <= sem_readers s /\ 0 <= sem_writers s;
  ok_waiting : 0 <= readerswaiting s /\ 0 <= writerswaiting s;
  ok_excl : writing s = 0 \/ writing s = 1 /\ reading s = 0;
  (** nobody waits for nothing *)
  ok_readers_wait : readerswaiting s > 0 -> writing s + writerswaiting s > 0;
  ok_writers_wait : writerswaiting s > 0 -> writing s + reading s > 0;
}.

Lemma wake_readers_all s : 0 <= readerswaiting s ->
  wake_readers s = mkState (writerswaiting s) (writing s) 0 (reading s) (sem_mutex s)
                     (sem_readers s + readerswaiting s) (sem_writers s).
Proof.
  intros H. unfold wake_readers. remember (Z.to_nat (readerswaiting s)) as n eqn:E.
  revert s H E. induction n as [|n IH]; intros s H E.
  - destruct s; cbn in *. f_equal; lia.
  - cbn [wake_loop]. rewrite decide_True by lia. rewrite IH; [|cbn; lia|cbn; lia].
    unfold up_readers, add_readerswaiting. cbn. f_equal; lia.
Qed.

(** The sums after one thread has moved. *)
Lemma lock_ok_move k n s ts t p s' p' : ts !! t = Some p -> lock_ok k s ts ->
  let d f := Z.b2z (f p') - Z.b2z (f p) in
  reading s' = reading s + d holdsR + (sem_readers s' - sem_readers s) ->
  readerswaiting s' = readerswaiting s + d waitsR - (sem_readers s' - sem_readers s) ->
  writing s' = writing s + d holdsW + (sem_writers s' - sem_writers s) ->
  writerswaiting s' = writerswaiting s + d waitsW + Z.of_nat n - (sem_writers s' - sem_writers s) ->
  sem_mutex s' = sem_mutex s - d inside ->
  0 <= sem_mutex s' /\ 0 <= sem_readers s' /\ 0 <= sem_writers s' ->
  0 <= readerswaiting s' /\ 0 <= writerswaiting s' ->
  (writing s' = 0 \/ writing s' = 1 /\ reading s' = 0) ->
  (readerswaiting s' > 0 -> writing s' + writerswaiting s' > 0) ->
  (writerswaiting s' > 0 -> writing s' + reading s' > 0) ->
  lock_ok (n + k) s' (<[t := p']> ts).
Proof.
  intros Ht [] d. intros. split; rewrite ?(tcount_insert _ ts t p p' Ht); subst d; cbv beta in *; try done; lia.
Qed.

Ltac fields := cbn [holdsR holdsW waitsR waitsW inside Z.b2z up_mutex up_readers up_writers add_writerswaiting
  add_writing add_readerswaiting add_reading set_reading writerswaiting writing readerswaiting reading
  sem_mutex sem_readers sem_writers] in *.
Ltac moves Ht Hok := eapply (lock_ok_move _ 0 _ _ _ _ _ _ Ht Hok); fields; try lia.

(** A lock that is asked for. *)
Lemma read_section_ok k busy block s ts t o s' p' : ts !! t = Some (Inside o) -> lock_ok k s ts ->
  may_call Out o -> (writing s > 0 -> busy = true) -> (busy = true -> writing s + writerswaiting s > 0) ->
  read_section busy block s = (s', p') -> lock_ok k (up_mutex 1 s') (<[t := p']> ts).
Proof.
  intros Ht Hok Ho Hb Hw. pose proof (tcount_here inside ts t _ Ht) as Hin. pose proof Hok as [].
  pose proof (tcount_nonneg holdsR ts). unfold read_section.
  destruct busy; [destruct block|]; intros [= <- <-];
    destruct o; try done; moves Ht Hok; destruct (decide (writing s > 0)); try lia; by discriminate Hb.
Qed.
Lemma write_section_ok k block wait s ts t o s' p' : ts !! t = Some (Inside o) -> lock_ok k s ts ->
  may_call Out o -> wait = WaitWriters \/ wait = WaitTimed ->
  write_section block wait s = (s', p') -> lock_ok k (up_mutex 1 s') (<[t := p']> ts).
Proof.
  intros Ht Hok Ho Hw. pose proof (tcount_here inside ts t _ Ht) as Hin. pose proof Hok as [].
  pose proof (tcount_nonneg holdsR ts). pose proof (tcount_nonneg holdsW ts). unfold write_section.
  destruct (decide (writing s > 0 \/ reading s > 0)) as [Hb|Hb].
  - assert (bool_decide (writing s > 0) || bool_decide (reading s > 0) = true) as ->
      by (rewrite orb_true_iff, !bool_decide_eq_true; tauto).
    destruct block; intros [= <- <-]; destruct o; try done; destruct Hw as [->| ->]; moves Ht Hok.
  - rewrite !bool_decide_eq_false_2 by lia. intros [= <- <-]. destruct o; try done; moves Ht Hok.
Qed.

(** A lock that is released or converted. *)
Lemma read_unlock_ok k s ts t s' p' : ts !! t = Some (Inside ReadUnlock) -> lock_ok k s ts ->
  read_unlock s = (s', p') -> lock_ok k (up_mutex 1 s') (<[t := p']> ts).
Proof.
  intros Ht Hok. pose proof (tcount_here holdsR ts t _ Ht) as Hr. pose proof Hok as []. unfold read_unlock.
  fields. rewrite decide_True by lia. intros [= <- <-].
  destruct (bool_decide (writerswaiting s > 0) && bool_decide (reading s + -1 = 0)) eqn:E.
  - apply andb_true_iff in E as [E1%bool_decide_eq_true E2%bool_decide_eq_true]. moves Ht Hok.
  - apply andb_false_iff in E as [E%bool_decide_eq_false|E%bool_decide_eq_false]; moves Ht Hok.
Qed.
Lemma write_unlock_ok k s ts t s' p' : ts !! t = Some (Inside WriteUnlock) -> lock_ok k s ts ->
  write_unlock s = (s', p') -> lock_ok k (up_mutex 1 s') (<[t := p']> ts).
Proof.
  intros Ht Hok. pose proof (tcount_here holdsW ts t _ Ht) as Hw. pose proof Hok as []. unfold write_unlock.
  fields. repeat case_decide; intros [= <- <-]; rewrite ?wake_readers_all by (fields; lia); moves Ht Hok.
Qed.
Lemma upgrade_ok k s ts t s' p' : ts !! t = Some (Inside UpgradeToWrite) -> lock_ok k s ts ->
  upgrade_to_write s = (s', p') -> lock_ok k (up_mutex 1 s') (<[t := p']> ts).
Proof.
  intros Ht Hok. pose proof (tcount_here holdsR ts t _ Ht) as Hr. pose proof Hok as []. unfold upgrade_to_write.
  fields. rewrite decide_True by lia. unfold write_section. fields. case_decide.
  - intros [= <- <-]. moves Ht Hok.
  - rewrite (bool_decide_eq_true_2 (reading s + -1 > 0)), orb_true_r by lia. intros [= <- <-]. moves Ht Hok.
Qed.
Lemma downgrade_ok k s ts t s' p' : ts !! t = Some (Inside DowngradeToRead) -> lock_ok k s ts ->
  downgrade_to_read s = (s', p') -> lock_ok k (up_mutex 1 s') (<[t := p']> ts).
Proof.
  intros Ht Hok. pose proof (tcount_here holdsW ts t _ Ht) as Hw. pose proof Hok as []. unfold downgrade_to_read.
  fields. case_decide; intros [= <- <-]; rewrite ?wake_readers_all by (fields; lia); moves Ht Hok.
Qed.

(** The thread that gives up its request is one of those the semaphore counts. *)
Lemma revoke_granted k s ts t : ts !! t = Some Revoking -> lock_ok k s ts -> writerswaiting s = 0 ->
  sem_writers s > 0.
Proof. intros Ht [] H. pose proof (tcount_here waitsW ts t _ Ht) as Hw. fields. lia. Qed.
Lemma revoke_ok k s ts t s' p' : ts !! t = Some Revoking -> lock_ok k s ts ->
  revoke s = (s', p') -> lock_ok k (up_mutex 1 s') (<[t := p']> ts).
Proof.
  intros Ht Hok. pose proof (revoke_granted k s ts t Ht Hok) as Hg.
  pose proof (tcount_nonneg holdsR ts). pose proof Hok as []. unfold revoke. case_decide.
  - rewrite decide_True by (by apply Hg). intros [= <- <-]. moves Ht Hok.
  - fields. destruct (bool_decide (writing s = 0) && bool_decide (writerswaiting s + -1 = 0)) eqn:E; intros [= <- <-].
    + apply andb_true_iff in E as [E1%bool_decide_eq_true E2%bool_decide_eq_true].
      rewrite wake_readers_all by (fields; lia). moves Ht Hok.
    + apply andb_false_iff in E as [E%bool_decide_eq_false|E%bool_decide_eq_false]; moves Ht Hok.
Qed.

Lemma section_ok k s ts t o s' p' : ts !! t = Some (Inside o) -> lock_ok k s ts -> section o s = (s', p') ->
  lock_ok k (up_mutex 1 s') (<[t := p']> ts).
Proof.
  intros Ht Hok. pose proof Hok as []. destruct o; cbn [section]; intros H.
  - eapply read_section_ok; [exact Ht|done|done|..|exact H].
    + intros. by rewrite (bool_decide_eq_true_2 (writing s > 0)), orb_true_r.
    + rewrite orb_true_iff, !bool_decide_eq_true. lia.
  - eapply read_section_ok; [exact Ht|done|done|..|exact H].
    + intros. by rewrite bool_decide_eq_true.
    + rewrite bool_decide_eq_true. lia.
  - by eapply read_unlock_ok.
  - eapply write_section_ok; [exact Ht|done|done|by left|exact H].
  - eapply write_section_ok; [exact Ht|done|done|by right|exact H].
  - by eapply write_unlock_ok.
  - by eapply upgrade_ok.
  - by eapply downgrade_ok.
Qed.

Lemma step_ok k c n c' : step c n c' -> lock_ok k c.1 c.2 -> lock_ok (n + k) c'.1 c'.2.
Proof.
  intros [s ts t p s' p' Ht Hs] Hok. cbn [fst snd] in *. pose proof Hok as [].
  inv Hs; cbn [abandons]; try by moves Ht Hok.
  - destruct o; cbn [may_call] in *; subst; cbn [abandons]; by moves Ht Hok.
  - by eapply section_ok.
  - by eapply revoke_ok.
  - eapply (lock_ok_move _ 1 _ _ _ _ _ _ Ht Hok); fields; try done; lia.
Qed.

Lemma initial_ok c : initial c -> lock_ok 0 c.1 c.2.
Proof.
  intros [n|n]; cbn [fst snd]; split; cbn [count]; rewrite ?tcount_replicate by done; cbn; lia.
Qed.
Lemma steps_ok k c c' j : steps k c c' -> lock_ok j c.1 c.2 -> lock_ok (k + j) c'.1 c'.2.
Proof.
  intros Hst. revert j. induction Hst as [|c1 n c2 k c3 H _ IH]; intros j Hj; [done|].
  replace (n + k + j)%nat with (k + (n + j))%nat by lia. apply IH. exact (step_ok _ _ _ _ H Hj).
Qed.
Lemma reachable_ok k s ts : reachable_with k (s, ts) -> lock_ok k s ts.
Proof.
  intros (c0 & Hi & Hs). apply initial_ok in Hi. pose proof (steps_ok _ _ _ _ Hs Hi) as H.
  by rewrite Nat.add_0_r in H.
Qed.

(** ** Properties *)

(** C13: In every interleaving of threads that use the lock, a thread that holds
    it for writing is alone: no other holds it for writing or for reading; and one
    thread at most is in a critical section.  This includes timed requests that are
    revoked, and those that are left behind. *)
Theorem rw_exclusion s ts t u p q : reachable (s, ts) -> t <> u -> ts !! t = Some p -> ts !! u = Some q ->
  (holdsW p = true -> holdsW q = false /\ holdsR q = false) /\ (inside p = true -> inside q = false).
Proof.
  intros [k [] % reachable_ok] Hne Ht Hu. pose proof (tcount_two holdsW ts t u p q eq_refl Ht Hu Hne) as HW.
  pose proof (tcount_here holdsR ts u q Hu) as HR. pose proof (tcount_here holdsW ts t p Ht) as HW'.
  pose proof (tcount_two inside ts t u p q eq_refl Ht Hu Hne) as HI.
  split; intros Hp; rewrite Hp in *; cbn [Z.b2z] in *.
  - destruct (holdsW q), (holdsR q); cbn [Z.b2z] in *; (done || lia).
  - destruct (inside q); cbn [Z.b2z] in *; (done || lia).
Qed.

(** A thread that runs: it changes the shared state in the middle of a call. *)
Definition advances (s : State) (q : pc) : Prop := exists s' q', thread_step s q s' q' /\ s' <> s.

Lemma enter_advances s o : sem_mutex s > 0 -> advances s (Enter o).
Proof.
  intros H. eexists _, _. split; [by apply step_mutex|]. intros E. apply (f_equal sem_mutex) in E. cbn in E. lia.
Qed.
Lemma again_advances s : sem_mutex s > 0 -> advances s TimedOut.
Proof.
  intros H. eexists _, _. split; [by apply step_again|]. intros E. apply (f_equal sem_mutex) in E. cbn in E. lia.
Qed.
Lemma wake_loop_mutex n s : sem_mutex (wake_loop n s) = sem_mutex s.
Proof. revert s. induction n as [|n IH]; intros s; [done|]. cbn [wake_loop]. case_decide; [by rewrite IH|done]. Qed.
Lemma section_mutex o s : sem_mutex (section o s).1 = sem_mutex s.
Proof.
  destruct o; cbn [section]; unfold read_lock, read_lock_priority, read_section, read_unlock, write_lock,
    timed_write_lock, write_section, write_unlock, upgrade_to_write, downgrade_to_read, write_section, wake_readers;
    repeat case_match; cbn; rewrite ?wake_loop_mutex; done.
Qed.
Lemma inside_advances s p : inside p = true -> advances s p.
Proof.
  destruct p as [| | | |o| | | | |]; try done; intros _.
  - destruct (section o s) as [s' p'] eqn:E. eexists _, _. split; [by apply step_section|].
    intros H. apply (f_equal sem_mutex) in H. pose proof (section_mutex o s) as Hm. rewrite E in Hm. cbn in *. lia.
  - destruct (revoke s) as [s' p'] eqn:E. eexists _, _. split; [by apply step_revoke|].
    intros H. apply (f_equal sem_mutex) in H.
    assert (Hm : sem_mutex s' = sem_mutex s).
    { apply (f_equal (sem_mutex ∘ fst)) in E. cbn in E. rewrite <- E. unfold revoke, wake_readers.
      repeat case_match; cbn; rewrite ?wake_loop_mutex; done. }
    cbn in *. lia.
Qed.

Definition waits (p : pc) : bool := waitsR p || waitsW p.
Definition in_call (p : pc) : bool := match p with Out | Reading | Writing => false | _ => true end.

Lemma reader_advances s : sem_readers s > 0 -> advances s WaitReaders.
Proof.
  intros H. eexists _, _. split; [by apply step_reader|]. intros E. apply (f_equal sem_readers) in E. cbn in E. lia.
Qed.
Lemma writer_advances s p : sem_writers s > 0 -> p = WaitWriters \/ p = WaitTimed -> advances s p.
Proof.
  intros H [->| ->]; (eexists _, _; split; [by constructor|]); intros E; apply (f_equal sem_writers) in E; cbn in E; lia.
Qed.

(** A thread between its calls and [MUTEX], or with it. *)
Definition near_mutex (p : pc) : bool := match p with Enter _ | TimedOut => true | _ => inside p end.
Lemma near_mutex_advances k s ts t p : lock_ok k s ts -> ts !! t = Some p -> near_mutex p = true ->
  exists u q, ts !! u = Some q /\ advances s q.
Proof.
  intros Hok Ht Hp. destruct (decide (sem_mutex s > 0)) as [Hm|Hm].
  - exists t, p. split; [done|]. destruct (inside p) eqn:Ei; [by apply inside_advances|].
    destruct p; try done; [by apply enter_advances|by apply again_advances].
  - destruct Hok. destruct (tcount_exists inside ts) as (u & q & Hu & Hq); [lia|].
    exists u, q. split; [done|]. by apply inside_advances.
Qed.

(** C14: Nobody waits for a lock that is free: when a thread waits, another holds
    the lock or some thread in the middle of a call can go on and change the shared
    state.  The one exception is a timed request that was left behind when its
    second attempt to get [MUTEX] timed out: the lock can have been granted to it;
    then only readers wait, nobody holds the lock, and the next thread that asks for
    the lock for writing gets it. *)
Theorem rw_progress k s ts t p : reachable_with k (s, ts) -> ts !! t = Some p -> waits p = true ->
  (exists u q, ts !! u = Some q /\ (q = Reading \/ q = Writing \/ in_call q = true /\ advances s q)) \/
  ((0 < k)%nat /\ p = WaitReaders /\ (forall q, q ∈ ts -> q = Out \/ q = WaitReaders) /\
   let s' := (write_lock true s).1 in
   (write_lock true s).2 = WaitWriters /\ thread_step s' WaitWriters (up_writers (-1) s') Writing).
Proof.
  intros Hr%reachable_ok Ht Hp.
  destruct (decide (0 < count near_mutex ts)) as [(u & q & Hu & Hq)%tcount_exists|Hn].
  { left. destruct (near_mutex_advances _ _ _ _ _ Hr Hu Hq) as (v & x & Hv & s' & x' & Hx & Hne).
    exists v, x. split; [done|]. destruct (in_call x) eqn:Ex; [right; right; split; [done|by exists s', x']|].
    exfalso. by inv Hx. }
  pose proof Hr as [].
  assert (Hnone : forall v x, ts !! v = Some x -> near_mutex x = false).
  { intros v x Hv. pose proof (tcount_here near_mutex ts v x Hv) as H. destruct (near_mutex x); [cbn in H; lia|done]. }
  destruct (decide (0 < count holdsR ts)) as [(u & q & Hu & Hq)%tcount_exists|HR].
  { left. exists u, q. split; [done|]. left. specialize (Hnone _ _ Hu). by destruct q. }
  destruct (decide (0 < count holdsW ts)) as [(u & q & Hu & Hq)%tcount_exists|HW].
  { left. exists u, q. split; [done|]. right; left. specialize (Hnone _ _ Hu). by destruct q. }
  pose proof (tcount_nonneg holdsR ts). pose proof (tcount_nonneg holdsW ts). pose proof (tcount_nonneg waitsW ts).
  destruct (decide (sem_readers s > 0)) as [Hs|Hs].
  { left. destruct (tcount_exists waitsR ts) as (u & q & Hu & Hq); [lia|]. exists u, q. split; [done|]. right; right.
    destruct q; try done. split; [done|]. by apply reader_advances. }
  destruct (decide (sem_writers s > 0 /\ 0 < count waitsW ts)) as [[Hs' (u & q & Hu & Hq)%tcount_exists]|Hs'].
  { left. exists u, q. split; [done|]. right; right.
    specialize (Hnone _ _ Hu). split; [by destruct q|]. apply writer_advances; [done|].
    destruct q; try done; auto. }
  right. pose proof (tcount_here waitsR ts t p Ht) as Hr1. pose proof (tcount_here waitsW ts t p Ht) as Hw2.
  assert (Hpr : waitsR p = true).
  { unfold waits in Hp. destruct (waitsR p); [done|]. cbn [orb] in Hp. rewrite Hp in Hw2. cbn in Hw2. lia. }
  rewrite Hpr in Hr1. cbn in Hr1. assert (Hgr : sem_writers s > 0 /\ count waitsW ts = 0) by lia.
  split; [lia|]. split; [by destruct p|]. split.
  - intros q [v Hv]%list_elem_of_lookup. specialize (Hnone v q Hv).
    pose proof (tcount_here holdsR ts v q Hv). pose proof (tcount_here holdsW ts v q Hv). pose proof (tcount_here waitsW ts v q Hv).
    destruct q as [| | |o|o| | | | |]; try done; cbn in *; auto; lia.
  - cbv zeta. unfold write_lock, write_section. rewrite (bool_decide_eq_true_2 (writing s > 0)) by lia. cbn [orb fst snd].
    split; [done|]. apply step_writer. cbn. lia.
Qed.

(** The branch of timed_write_lock that is commented as impossible is: a
    thread whose wait timed out and that finds no waiting writer has been granted the
    lock and takes it. *)
Theorem rw_timed_granted s ts t : reachable (s, ts) -> ts !! t = Some Revoking ->
  snd (revoke s) = if decide (writerswaiting s = 0) then Writing else Out.
Proof.
  intros [k Hr%reachable_ok] Ht. unfold revoke. case_decide as Hw; [|done].
  by rewrite decide_True by exact (revoke_granted k s ts t Ht Hr Hw).
Qed.

(** ** Small runs *)

Lemma steps_quiet s ts t p s' p' k c : ts !! t = Some p -> thread_step s p s' p' -> abandons p p' = 0%nat ->
  steps k (s', <[t := p']> ts) c -> steps k (s, ts) c.
Proof. intros Ht Hs Ha. change k with (0 + k)%nat at 2. rewrite <- Ha. apply steps_l. by constructor. Qed.

(** One step of thread [t], by the constructor [c]; a call. *)
Ltac run t c := eapply (steps_quiet _ _ t); [reflexivity|eapply c; reflexivity|reflexivity|].
Ltac call t p o := eapply (steps_quiet _ _ t); [reflexivity|eapply (step_call _ p o); reflexivity|reflexivity|].

Lemma steps_trans j k c1 c2 c3 : steps j c1 c2 -> steps k c2 c3 -> steps (j + k) c1 c3.
Proof. induction 1 as [|c1 n c2 j c3' H _ IH]; intros H2; [done|]. rewrite <- Nat.add_assoc. eapply steps_l; [exact H|by apply IH]. Qed.

(** A thread writes, one waits to read, and one has asked for the lock with a
    timeout that is over. *)
Definition busy_state : State := mkState 1 1 1 0 1 0 0.
Lemma busy_reachable : reachable_with 0 (busy_state, [Writing; TimedOut; WaitReaders]).
Proof.
  exists (RWLockShmImpl true, [Writing; Out; Out]). split; [apply (initial_excl 2)|].
  call 1%nat Out TimedWriteLock.
  run 1%nat step_mutex. run 1%nat step_section. run 1%nat step_timeout.
  call 2%nat Out (ReadLock true). run 2%nat step_mutex. run 2%nat step_section.
  apply steps_refl.
Qed.

Lemma rw_exclusion_witness :
  holdsW WaitReaders = false /\ holdsR WaitReaders = false.
Proof.
  exact (proj1 (rw_exclusion busy_state _ 0 2 Writing WaitReaders (ex_intro _ 0%nat busy_reachable) ltac:(done) eq_refl eq_refl) eq_refl).
Defined.

(** The request is left behind, and the writer releases the lock: it is granted to
    a thread that has gone. *)
Definition left_state : State := mkState 0 1 1 0 1 0 1.
Lemma left_reachable : reachable_with 1 (left_state, [Out; Out; WaitReaders]).
Proof.
  destruct busy_reachable as (c0 & Hi & Hs). exists c0. split; [done|]. apply (steps_trans 0 1 _ _ _ Hs).
  eapply (steps_l _ 1 _ 0); [eapply (step_thread _ _ 1%nat TimedOut _ Out); [reflexivity|apply step_abandon]|].
  call 0%nat Writing WriteUnlock. run 0%nat step_mutex. run 0%nat step_section. apply steps_refl.
Qed.

Lemma rw_progress_witness :
  (exists u q, [Writing; TimedOut; WaitReaders] !! u = Some q /\
     (q = Reading \/ q = Writing \/ in_call q = true /\ advances busy_state q)) /\
  thread_step (write_lock true left_state).1 WaitWriters (up_writers (-1) (write_lock true left_state).1) Writing.
Proof.
  split.
  - destruct (rw_progress 0 busy_state _ 2%nat WaitReaders busy_reachable eq_refl eq_refl) as [H|[H _]]; [exact H|lia].
  - destruct (rw_progress 1 left_state _ 2%nat WaitReaders left_reachable eq_refl eq_refl)
      as [(u & q & Hu & H)|(_ & _ & _ & _ & H)]; [exfalso|exact H].
    destruct u as [|[|[|u]]]; try discriminate Hu; injection Hu as <-; destruct H as [H|[H|[H (s' & q' & Hst & _)]]];
      try discriminate H; inversion Hst; cbn in *; first [lia|destruct o; discriminate].
Defined.

(** The writer has released the lock while the other thread looked for
    [MUTEX]: the lock is its own. *)
Definition granted_state : State := mkState 0 1 1 0 0 0 1.
Lemma granted_reachable : reachable_with 0 (granted_state, [Out; Revoking; WaitReaders]).
Proof.
  destruct busy_reachable as (c0 & Hi & Hs). exists c0. split; [done|]. apply (steps_trans 0 0 _ _ _ Hs).
  call 0%nat Writing WriteUnlock. run 0%nat step_mutex. run 0%nat step_section.
  run 1%nat step_again. apply steps_refl.
Qed.
Lemma rw_timed_granted_witness : snd (revoke granted_state) = Writing.
Proof. exact (rw_timed_granted granted_state _ 1%nat (ex_intro _ 0%nat granted_reachable) eq_refl). Defined.

(** The request that is left behind: every thread but a reader is outside, and no
    thread can go on until one calls the lock again. *)
Theorem rw_abandoned_request :
  reachable (left_state, [Out; Out; WaitReaders]) /\
  forall t s' p', (exists p, [Out; Out; WaitReaders] !! t = Some p /\ thread_step left_state p s' p') -> exists o, p' = Enter o.
Proof.
  split; [exists 1%nat; apply left_reachable|]. intros t s' p' (p & Hp & Hs).
  destruct t as [|[|[|t]]]; try discriminate Hp; injection Hp as <-; inv Hs; eauto; cbn in *; lia.
Qed.
