(* ===== verification/ResourceGraph.v ===== *)
(** * The graph of resources: src/versioning/BRM/lbidresourcegraph.cpp, rgnode.cpp,
      resourcenode.cpp and transactionnode.cpp

    Who owns which block and who waits for which: an edge leads from a
    transaction to the blocks it waits for and from a block to the transaction
    that owns it.  A transaction that would wait in a cycle is told of a
    deadlock. *)
From Stdlib Require Import ZArith Lia.
From S2P Require Import Prelude.

Local Open Scope Z_scope.

(** ** Nodes and edges *)

(** A node by its number: transactions and blocks have one node each. *)
Inductive node := Txn (txn : Z) | Res (lbid : Z).
#[export] Instance node_eq_dec : EqDecision node.
Proof. solve_decision. Defined.
#[export] Instance node_countable : Countable node.
Proof.
  refine (inj_countable' (fun n => match n with Txn t => inl t | Res l => inr l end)
    (fun x => match x with inl t => Txn t | inr l => Res l end) _).
  by intros [].
Defined.

(** [LBIDResourceGraph] with its nodes.  [out] of one end and [in] of the other
    change together, so an edge is a pair. *)
Record graph := mkGraph {
  txns : gset Z;
  resources : gset Z;
  edges : gset (node * node);
  colors : gmap node Z;
  color : Z;
  sleeping : gset Z;
  dead : gset Z;
}.
Definition LBIDResourceGraph : graph := mkGraph ∅ ∅ ∅ ∅ 0 ∅ ∅.

Definition set_txns (x : gset Z) (g : graph) : graph :=
  mkGraph x (resources g) (edges g) (colors g) (color g) (sleeping g) (dead g).
Definition set_resources (x : gset Z) (g : graph) : graph :=
  mkGraph (txns g) x (edges g) (colors g) (color g) (sleeping g) (dead g).
Definition set_edges (x : gset (node * node)) (g : graph) : graph :=
  mkGraph (txns g) (resources g) x (colors g) (color g) (sleeping g) (dead g).
Definition set_colors (x : gmap node Z) (n : Z) (g : graph) : graph :=
  mkGraph (txns g) (resources g) (edges g) x n (sleeping g) (dead g).
Definition set_sleeping (x : gset Z) (g : graph) : graph :=
  mkGraph (txns g) (resources g) (edges g) (colors g) (color g) x (dead g).
Definition set_dead (x : gset Z) (g : graph) : graph :=
  mkGraph (txns g) (resources g) (edges g) (colors g) (color g) (sleeping g) x.

Definition outs (g : graph) (n : node) : list node := (filter (fun e => e.1 = n) (elements (edges g))).*2.
Definition ins (g : graph) (n : node) : list node := (filter (fun e => e.2 = n) (elements (edges g))).*1.

Definition addOutEdge (a b : node) (g : graph) : graph := set_edges ({[(a, b)]} ∪ edges g) g.
Definition addInEdge (a b : node) (g : graph) : graph := set_edges ({[(b, a)]} ∪ edges g) g.
Definition removeOutEdge (a b : node) (g : graph) : graph := set_edges (edges g ∖ {[(a, b)]}) g.
Definition removeInEdge (a b : node) (g : graph) : graph := set_edges (edges g ∖ {[(b, a)]}) g.

(** The destructor of [RGNode] takes a node out of the lists of its neighbours;
    a new node has color 0. *)
Definition delete_node (n : node) (g : graph) : graph :=
  set_colors (delete n (colors g)) (color g)
    (set_edges (filter (fun e => e.1 <> n /\ e.2 <> n) (edges g)) g).

(** [txns.erase(txn); delete txnNode;]: the flags go with the node. *)
Definition delete_txn (t : Z) (g : graph) : graph :=
  let g := delete_node (Txn t) g in
  mkGraph (txns g ∖ {[t]}) (resources g) (edges g) (colors g) (color g) (sleeping g ∖ {[t]}) (dead g ∖ {[t]}).

(** ** Transactions that sleep *)

Definition sleep (t : Z) (g : graph) : graph := set_sleeping ({[t]} ∪ sleeping g) g.
Definition wake (t : Z) (g : graph) : graph := set_sleeping (sleeping g ∖ {[t]}) g.
Definition die (t : Z) (g : graph) : graph := set_dead ({[t]} ∪ dead g) g.

(** The transaction at a node. *)
Definition txn_of (n : node) : Z := match n with Txn t => t | Res _ => 0 end.

(** [wakeAndDetach] of a block *)
Definition wakeAndDetach (l : Z) (g : graph) : graph :=
  foldl (fun g t => removeInEdge (Res l) t (wake (txn_of t) g)) g (ins g (Res l)).

(** ** Reserving *)

(** The blocks of a range: those that are nobody's get a node. *)
Definition find_or_create (l : Z) (a : graph * list Z * list Z) : graph * list Z * list Z :=
  let '(g, intersection, reserveList) := a in
  if decide (l ∈ resources g) then (g, intersection ++ [l], reserveList)
  else (set_resources ({[l]} ∪ resources g) g, intersection, reserveList ++ [l]).

Definition connectResources (start end_ t : Z) (g : graph) : graph :=
  let '(g, intersection, reserveList) :=
    foldl (fun a l => find_or_create l a) (g, [], []) (seqZ start (end_ - start + 1)) in
  let g := foldl (fun g l => if decide ((Res l, Txn t) ∈ edges g) then g else addOutEdge (Txn t) (Res l) g)
             g intersection in
  foldl (fun g l => addInEdge (Txn t) (Res l) g) g reserveList.

(** ** Deadlocks *)

Definition color_of (c : gmap node Z) (n : node) : Z := default 0 (c !! n).

(** The loop over the neighbours. *)
Fixpoint DFS_loop (step : node -> gmap node Z -> option (bool * gmap node Z)) (black : Z)
    (l : list node) (c : gmap node Z) : option (bool * gmap node Z) :=
  match l with
  | [] => Some (false, c)
  | n :: l' =>
      if decide (color_of c n = black) then DFS_loop step black l' c
      else match step n c with
           | Some (false, c') => DFS_loop step black l' c'
           | r => r
           end
  end.

(** [fuel] is the depth of the recursion. *)
Fixpoint DFSStep (fuel : nat) (g : graph) (gray black : Z) (cur : node) (c : gmap node Z)
    : option (bool * gmap node Z) :=
  match fuel with
  | O => None
  | S fuel' =>
      if decide (color_of c cur = gray) then Some (true, c)
      else
        '(found, c) ← DFS_loop (DFSStep fuel' g gray black) black (outs g cur) (<[cur := gray]> c);
        Some (if found : bool then (true, c) else (false, <[cur := black]> c))
  end.

(** One call for each node of the graph, and one that finds it gray. *)
Definition depth (g : graph) : nat := size (edges g) + 2.

(** [gray = ++color, black = ++color] *)
Definition checkDeadlock (t : Z) (g : graph) : res (bool * graph) :=
  match DFSStep (depth g) g (color g + 1) (color g + 2) (Txn t) (colors g) with
  | Some (found, c) => Ret (found, set_colors c (color g + 2) g)
  | None => UB Diverges
  end.

(** ** Calls *)

Inductive reserved := ROk | RDeadlock | RKilled | RSleeps.

(** From the test of the loop on: done, a deadlock, or asleep. *)
Definition reserve_check (t : Z) (g : graph) : res (reserved * graph) :=
  if decide (outs g (Txn t) = []) then Ret (ROk, g)
  else
    '(found, g) ← checkDeadlock t g;
    Ret (if found : bool then (RDeadlock, g) else (RSleeps, sleep t g)).

(** [reserveRange] up to the first sleep. *)
Definition reserveRange (start end_ t : Z) (g : graph) : res (reserved * graph) :=
  let g := if decide (t ∈ txns g) then g else set_txns ({[t]} ∪ txns g) g in
  reserve_check t (connectResources start end_ t g).

(** Its way on after a sleep: it uses the node it has slept on. *)
Definition reserve_wakes (start end_ t : Z) (g : graph) : res (reserved * graph) :=
  if decide (t ∈ txns g) then
    if decide (t ∈ dead g) then
      Ret (RKilled, delete_txn t g)
    else reserve_check t (connectResources start end_ t g)
  else UB DanglingPointer.

(** The blocks at the other ends. *)
Definition lbids_of (l : list node) : list Z := omap (fun n => match n with Res x => Some x | Txn _ => None end) l.

Definition releaseResources (t : Z) (g : graph) : graph :=
  if decide (t ∈ txns g) then
    let g := foldl (fun g l =>
        delete_node (Res l) (set_resources (resources g ∖ {[l]})
          (removeInEdge (Txn t) (Res l) (wakeAndDetach l g))))
        g (lbids_of (ins g (Txn t))) in
    let g := foldl (fun g l => removeOutEdge (Txn t) (Res l) g) g (lbids_of (outs g (Txn t))) in
    if decide (t ∈ sleeping g) then wake t (die t g)
    else delete_txn t g
  else g.

(** [releaseResource] follows its iterator after the element has been erased. *)
Definition releaseResource (l : Z) (g : graph) : res graph :=
  if decide (l ∈ resources g) then UB DanglingPointer else Ret g.

(** [~LBIDResourceGraph] kills those that sleep and deletes the other nodes. *)
Definition destroy (g : graph) : graph :=
  let g := foldl (fun g t => if decide (t ∈ sleeping g) then wake t (die t g) else delete_txn t g)
             g (elements (txns g)) in
  foldl (fun g l => delete_node (Res l) (set_resources (resources g ∖ {[l]}) g)) g (elements (resources g)).

(** ** Threads *)

(** The requests that sleep, or have been woken and have not run yet. *)
Abbreviation pending := (gmap Z (Z * Z)).
Definition after (r : reserved) (t : Z) (rng : Z * Z) (P : pending) : pending :=
  match r with RSleeps => <[t := rng]> P | _ => delete t P end.

(** A transaction has one request at a time; it can be released at any time. *)
Inductive rg_step : graph * pending -> graph * pending -> Prop :=
  | rg_reserve g P start end_ t r g' : P !! t = None -> reserveRange start end_ t g = Ret (r, g') ->
      rg_step (g, P) (g', after r t (start, end_) P)
  | rg_wake g P start end_ t r g' : P !! t = Some (start, end_) -> t ∉ sleeping g ->
      reserve_wakes start end_ t g = Ret (r, g') -> rg_step (g, P) (g', after r t (start, end_) P)
  | rg_release g P t : rg_step (g, P) (releaseResources t g, P).
