(* ===== verification/ResourceGraphProofs.v ===== *)
(** * What the graph of resources promises

    [checkDeadlock] finds a cycle exactly when there is one on the way from the
    transaction, a block has one owner, and a transaction whose request
    succeeds owns all it asked for. *)
From Stdlib Require Import ZArith Lia.
From S2P Require Import Prelude ResourceGraph.

Local Open Scope Z_scope.

Definition edge (g : graph) (a b : node) : Prop := (a, b) ∈ edges g.

Lemma elem_of_outs g a b : b ∈ outs g a <-> edge g a b.
Proof.
  unfold outs, edge. rewrite list_elem_of_fmap. setoid_rewrite list_elem_of_filter. split.
  - intros ([x y] & -> & Hx & H). cbn in *. subst. by apply elem_of_elements in H.
  - intros H. exists (a, b). by rewrite elem_of_elements.
Qed.
Lemma elem_of_ins g a b : b ∈ ins g a <-> edge g b a.
Proof.
  unfold ins, edge. rewrite list_elem_of_fmap. setoid_rewrite list_elem_of_filter. split.
  - intros ([x y] & -> & Hx & H). cbn in *. subst. by apply elem_of_elements in H.
  - intros H. exists (b, a). by rewrite elem_of_elements.
Qed.

(** ** The search *)

Section Search.
Context (g : graph) (gray black : Z) (Hgb : gray <> black).
(** The nodes the search can meet. *)
Context (U : gset node) (HU : forall a b, edge g a b -> b ∈ U).
Implicit Types (c : gmap node Z) (n : node).

Definition white c n : Prop := color_of c n <> gray /\ color_of c n <> black.
Definition whites c : gset node := filter (fun n => white c n) U.

(** What is black is done: nothing leads out of it, and it has no cycle. *)
Definition black_ok c : Prop := forall n, color_of c n = black ->
  (forall m, edge g n m -> color_of c m = black) /\ ~ tc (edge g) n n.
(** From [c] to [c'], only white nodes have become black. *)
Definition grown c c' : Prop :=
  black_ok c' /\ (forall n, color_of c n = black -> color_of c' n = black) /\
  (forall n, color_of c' n = gray <-> color_of c n = gray).
Definition cycle_from n : Prop := exists m, rtc (edge g) n m /\ tc (edge g) m m.

Lemma color_insert c n m x : color_of (<[n := x]> c) m = if decide (n = m) then x else color_of c m.
Proof. unfold color_of. case_decide; [subst; by rewrite lookup_insert_eq|by rewrite lookup_insert_ne]. Qed.

Lemma whites_grown c c' : grown c c' -> whites c' ⊆ whites c.
Proof.
  intros (_ & Hb & Hg) n. unfold whites, white. rewrite !elem_of_filter. intros [[H1 H2] Hn].
  split; [|done]. split; [by rewrite <- Hg|]. intros E. by apply H2, Hb.
Qed.
Lemma whites_gray c n : white c n -> n ∈ U -> (size (whites (<[n := gray]> c)) < size (whites c))%nat.
Proof.
  intros Hw Hn. apply subset_size. split.
  - intros m. unfold whites, white. rewrite !elem_of_filter, color_insert. case_decide; [by intros [[] ?]|done].
  - intros E. assert (H : n ∈ whites (<[n := gray]> c)) by (apply E; unfold whites; by rewrite elem_of_filter).
    unfold whites, white in H. rewrite elem_of_filter, color_insert, decide_True in H by done.
    by destruct H as [[] _].
Qed.

(** A search that ends without a cycle has made [n] black. *)
Definition found (b : bool) c n c' : Prop :=
  if b then (forall m, color_of c m = gray -> tc (edge g) m n) -> cycle_from n
  else grown c c' /\ color_of c' n = black.
Definition searches (k : nat) (step : node -> gmap node Z -> option (bool * gmap node Z)) : Prop :=
  forall n c, n ∈ U -> black_ok c -> color_of c n <> black -> (size (whites c) < k)%nat ->
    exists b c', step n c = Some (b, c') /\ found b c n c'.

Lemma DFS_loop_ok k step l c : searches k step -> (forall n, n ∈ l -> n ∈ U) -> black_ok c ->
  (size (whites c) < k)%nat ->
  exists b c', DFS_loop step black l c = Some (b, c') /\
    if b then (forall m n, n ∈ l -> color_of c m = gray -> tc (edge g) m n) -> exists n, n ∈ l /\ cycle_from n
    else grown c c' /\ forall n, n ∈ l -> color_of c' n = black.
Proof.
  intros Hs. revert c. induction l as [|n l IH]; intros c Hl Hb Hk.
  { exists false, c. split; [done|]. split; [split; [done|]; split; auto|]. by intros n ?%not_elem_of_nil. }
  cbn [DFS_loop].
  assert (Hrest : forall c1, grown c c1 -> color_of c1 n = black -> exists b c', DFS_loop step black l c1 = Some (b, c') /\
    if b then (forall m n0, n0 ∈ n :: l -> color_of c m = gray -> tc (edge g) m n0) -> exists n0, n0 ∈ n :: l /\ cycle_from n0
    else grown c c' /\ forall n0, n0 ∈ n :: l -> color_of c' n0 = black).
  { intros c1 Hg Hn. pose proof Hg as (Hb1 & Hm & Hgr).
    destruct (IH c1) as ([] & c' & -> & H); [set_solver|done| |exists true, c'|exists false, c'].
    - pose proof (subseteq_size _ _ (whites_grown _ _ Hg)). lia.
    - split; [done|]. intros Hp. destruct H as (x & Hx & Hc); [|exists x; split; [by right|done]].
      intros m x Hx Hmx. apply Hp; [by right|by apply Hgr].
    - destruct H as [(Hb2 & Hm2 & Hgr2) H]. split; [done|]. split.
      + split; [done|]. split; [auto|]. intros x. by rewrite Hgr2.
      + intros x [->|Hx]%elem_of_cons; auto. }
  case_decide as En.
  - apply Hrest; [|done]. split; [done|]. by split.
  - destruct (Hs n c) as ([] & c1 & -> & Hf); [apply Hl; by left|done|done|done| |].
    + exists true, c1. split; [done|]. intros Hp. exists n. split; [by left|]. apply Hf. intros m. apply Hp. by left.
    + destruct Hf as [Hg Hn]. by apply Hrest.
Qed.

Lemma black_closed c n m : black_ok c -> color_of c n = black -> rtc (edge g) n m -> color_of c m = black.
Proof. intros Hb Hn. induction 1 as [|x y z Hxy _ IH]; [done|]. apply IH. by apply (proj1 (Hb _ Hn)). Qed.

Lemma DFSStep_ok k : searches k (DFSStep k g gray black).
Proof.
  induction k as [|k IH]; intros n c Hn Hb Hnb Hk; [lia|]. cbn [DFSStep]. case_decide as Eg.
  { exists true, c. split; [done|]. intros Hp. exists n. split; [done|by apply Hp]. }
  set (c1 := <[n := gray]> c).
  assert (Hc1 : forall m, color_of c1 m = if decide (n = m) then gray else color_of c m) by (intros; apply color_insert).
  assert (Hb1 : black_ok c1).
  { intros m. rewrite Hc1. case_decide; [done|]. intros Hm. destruct (Hb _ Hm) as [H1 H2]. split; [|done].
    intros x Hx. rewrite Hc1. case_decide; [|by apply H1]. subst. by destruct (Hnb (H1 _ Hx)). }
  destruct (DFS_loop_ok k _ (outs g n) c1 IH) as ([] & c2 & -> & H); [|done| | |].
  - intros m Hm%elem_of_outs. by apply (HU n).
  - pose proof (whites_gray c n (conj Eg Hnb) Hn). unfold c1. lia.
  - exists true, c2. split; [done|]. intros Hp. destruct H as (m & Hm & x & Hx1 & Hx2).
    + intros m x Hx%elem_of_outs. rewrite Hc1. case_decide; [subst; intros _; by apply tc_once|].
      intros Hm. eapply tc_r; [by apply Hp|done].
    + exists x. split; [|done]. eapply rtc_l; [by apply elem_of_outs|done].
  - destruct H as [(Hb2 & Hm2 & Hg2) Hall]. exists false, (<[n := black]> c2). split; [done|].
    assert (Hn2 : color_of c2 n = gray) by (apply Hg2; by rewrite Hc1, decide_True).
    split; [|by rewrite color_insert, decide_True]. split; [|split].
    + intros m. rewrite color_insert. case_decide as E.
      * subst m. intros _. split.
        -- intros x Hx. rewrite color_insert. case_decide; [done|]. by apply Hall, elem_of_outs.
        -- intros Ht. assert (Hc : color_of c2 n = black); [|congruence].
           inv Ht; [by apply Hall, elem_of_outs|]. eapply black_closed; [done|by apply Hall, elem_of_outs|].
           by apply tc_rtc.
      * intros Hm. destruct (Hb2 _ Hm) as [H1 H2]. split; [|done]. intros x Hx. rewrite color_insert.
        case_decide; [done|]. by apply H1.
    + intros m Hm. rewrite color_insert. case_decide; [done|]. apply Hm2. by rewrite Hc1, decide_False.
    + intros m. rewrite color_insert. case_decide as E.
      * subst m. split; [intros; congruence|done].
      * rewrite Hg2, Hc1. by rewrite decide_False.
Qed.

End Search.

(** No node has a color that will be used. *)
Definition colors_ok (g : graph) : Prop := 0 <= color g /\ forall n, color_of (colors g) n <= color g.

Lemma DFS_loop_colors step black l c b c' M :
  (forall n c b c', step n c = Some (b, c') -> (forall m, color_of c m <= M) -> forall m, color_of c' m <= M) ->
  DFS_loop step black l c = Some (b, c') -> (forall m, color_of c m <= M) -> forall m, color_of c' m <= M.
Proof.
  intros Hs. revert c. induction l as [|n l IH]; intros c; cbn [DFS_loop]; [by intros [= _ <-]|].
  case_decide; [by apply IH|]. destruct (step n c) as [[[] c1]|] eqn:E; [| |done].
  - intros [= _ <-]. by eapply Hs.
  - intros Hl Hc. eapply IH; [exact Hl|]. by eapply Hs.
Qed.
Lemma DFSStep_colors k g gray black n c b c' M : gray <= M -> black <= M ->
  DFSStep k g gray black n c = Some (b, c') -> (forall m, color_of c m <= M) -> forall m, color_of c' m <= M.
Proof.
  intros Hg Hb. revert n c b c'. induction k as [|k IH]; intros n c b c'; cbn [DFSStep]; [done|].
  case_decide; [by intros [= _ <-]|].
  destruct (DFS_loop _ _ _ _) as [[[] c1]|] eqn:E; cbn; [| |done]; intros [= _ <-] Hc.
  - eapply DFS_loop_colors; [apply IH|exact E|]. intros m. rewrite color_insert. by case_decide.
  - intros m. rewrite color_insert. case_decide; [done|].
    eapply DFS_loop_colors; [apply IH|exact E|]. intros x. rewrite color_insert. by case_decide.
Qed.

(** The search has room for every node. *)
Definition met (g : graph) (t : Z) : gset node := list_to_set (Txn t :: (elements (edges g)).*2).
Lemma size_list_le (l : list node) : (size (list_to_set l : gset node) <= length l)%nat.
Proof.
  induction l as [|n l IH]; [done|]. cbn [list_to_set length]. rewrite size_union_alt, size_singleton.
  assert (size ((list_to_set l : gset node) ∖ {[n]}) <= size (list_to_set l : gset node))%nat by (apply subseteq_size; set_solver).
  lia.
Qed.
Lemma met_size g t : (size (met g t) < depth g)%nat.
Proof.
  unfold met, depth. pose proof (size_list_le (Txn t :: (elements (edges g)).*2)) as H.
  cbn [length] in H. rewrite length_fmap in H. change (size (edges g)) with (length (elements (edges g))). lia.
Qed.

Lemma deadlock_search t g : colors_ok g ->
  exists b c, checkDeadlock t g = Ret (b, set_colors c (color g + 2) g) /\
    (b = true <-> exists n, rtc (edge g) (Txn t) n /\ tc (edge g) n n) /\
    colors_ok (set_colors c (color g + 2) g).
Proof.
  intros [H0 Hc]. unfold checkDeadlock.
  destruct (DFSStep_ok g (color g + 1) (color g + 2) ltac:(lia) (met g t)) with (k := depth g) (n := Txn t) (c := colors g)
    as (b & c & E & Hf).
  - intros a x Hx. unfold met. apply elem_of_list_to_set. right. apply list_elem_of_fmap. exists (a, x).
    split; [done|]. by apply elem_of_elements.
  - unfold met. set_solver.
  - intros n Hn. specialize (Hc n). lia.
  - specialize (Hc (Txn t)). lia.
  - pose proof (met_size g t). assert (size (whites (color g + 1) (color g + 2) (met g t) (colors g)) <= size (met g t))%nat; [|lia].
    apply subseteq_size. intros n. unfold whites. by intros [_ ?]%elem_of_filter.
  - rewrite E. exists b, c. split; [done|]. split.
    + destruct b; cbn in Hf.
      * split; [intros _|done]. apply Hf. intros m Hm. specialize (Hc m). lia.
      * split; [done|]. intros (n & Hn & Hcy). exfalso. destruct Hf as [(Hb & _ & _) Hs].
        destruct (Hb n) as [_ []]; [|done]. by eapply black_closed.
    + split; [cbn; lia|]. cbn [color colors set_colors]. intros n.
      eapply DFSStep_colors; [..|exact E|]; try lia. intros m. specialize (Hc m). lia.
Qed.

(** ** Owners *)

Definition owns (g : graph) (t l : Z) : Prop := edge g (Res l) (Txn t).

Record graph_ok (g : graph) : Prop := {
  g_shape : forall a b, edge g a b -> exists t l, t ∈ txns g /\ l ∈ resources g /\
    (a = Txn t /\ b = Res l \/ a = Res l /\ b = Txn t);
  g_owner : forall l, l ∈ resources g -> exists t, owns g t l;
  g_one : forall t t' l, owns g t l -> owns g t' l -> t = t';
  g_waits : forall t l, edge g (Txn t) (Res l) -> ~ owns g t l;
  g_colors : colors_ok g;
}.

Lemma owned_resource g t l : graph_ok g -> owns g t l -> l ∈ resources g /\ t ∈ txns g.
Proof.
  intros [Hs _ _ _ _] H. destruct (Hs _ _ H) as (x & y & Hx & Hy & [[[=] _]|[[= ->] [= ->]]]). done.
Qed.

Lemma filter_iff_in {A} (P Q : A -> Prop) `{!forall x, Decision (P x), !forall x, Decision (Q x)} (l : list A) :
  (forall x, x ∈ l -> P x <-> Q x) -> filter P l = filter Q l.
Proof.
  induction l as [|x l IH]; intros HPQ; [done|]. rewrite !filter_cons.
  rewrite IH by (intros; apply HPQ; by right). specialize (HPQ x ltac:(by left)).
  repeat case_decide; tauto || done.
Qed.

Lemma find_all g i r l : NoDup l ->
  foldl (fun a x => find_or_create x a) (g, i, r) l =
    (set_resources (list_to_set l ∪ resources g) g, i ++ filter (fun x => x ∈ resources g) l,
     r ++ filter (fun x => x ∉ resources g) l).
Proof.
  revert g i r. induction l as [|x l IH]; intros g i r Hl; cbn [foldl].
  { rewrite !app_nil_r. do 2 f_equal. destruct g. unfold set_resources. cbn. f_equal. set_solver. }
  apply NoDup_cons in Hl as [Hx Hl]. unfold find_or_create at 2. rewrite !filter_cons. case_decide as Hr.
  - rewrite IH by done. rewrite decide_False by (by intros []). rewrite <- app_assoc. cbn [app]. do 2 f_equal.
    unfold set_resources. cbn. f_equal. set_solver.
  - rewrite IH by done. rewrite decide_True by done. rewrite <- app_assoc. cbn [app resources set_resources].
    f_equal; [f_equal|].
    + unfold set_resources. cbn. f_equal. set_solver.
    + f_equal. apply filter_iff_in. intros y Hy. set_solver.
    + do 2 f_equal. apply filter_iff_in. intros y Hy. set_solver.
Qed.

Lemma wait_all t l g : exists E, foldl (fun g x => if decide ((Res x, Txn t) ∈ edges g) then g
    else addOutEdge (Txn t) (Res x) g) g l = set_edges E g /\
  forall e, e ∈ E <-> e ∈ edges g \/ exists x, x ∈ l /\ ~ owns g t x /\ e = (Txn t, Res x).
Proof.
  revert g. induction l as [|x l IH]; intros g; cbn [foldl].
  { exists (edges g). split; [by destruct g|]. set_solver. }
  case_decide as Hx.
  - destruct (IH g) as (E & -> & H). exists E. split; [done|]. intros e. rewrite H.
    setoid_rewrite elem_of_cons. unfold owns, edge. naive_solver.
  - destruct (IH (addOutEdge (Txn t) (Res x) g)) as (E & -> & H). exists E. split; [done|]. intros e. rewrite H.
    assert (Ho : forall y, owns (addOutEdge (Txn t) (Res x) g) t y <-> owns g t y)
      by (intros y; unfold owns, edge, addOutEdge; cbn; set_solver).
    setoid_rewrite Ho. setoid_rewrite elem_of_cons. cbn [addOutEdge set_edges edges].
    rewrite elem_of_union, elem_of_singleton. unfold owns at 2, edge. naive_solver.
Qed.
Lemma take_all t l g : exists E, foldl (fun g x => addInEdge (Txn t) (Res x) g) g l = set_edges E g /\
  forall e, e ∈ E <-> e ∈ edges g \/ exists x, x ∈ l /\ e = (Res x, Txn t).
Proof.
  revert g. induction l as [|x l IH]; intros g; cbn [foldl].
  { exists (edges g). split; [by destruct g|]. set_solver. }
  destruct (IH (addInEdge (Txn t) (Res x) g)) as (E & -> & H). exists E. split; [done|]. intros e. rewrite H.
  setoid_rewrite elem_of_cons. cbn [addInEdge set_edges edges]. rewrite elem_of_union, elem_of_singleton. naive_solver.
Qed.

(** What asking for a range does: the transaction owns what was nobody's and
    waits for what is another's. *)
Lemma connect_edges start end_ t g :
  let rng l := start <= l <= end_ in
  exists R E, connectResources start end_ t g = set_edges E (set_resources R g) /\
    (forall l, l ∈ R <-> l ∈ resources g \/ rng l) /\
    (forall e, e ∈ E <-> e ∈ edges g \/
       exists l, rng l /\ (l ∈ resources g /\ ~ owns g t l /\ e = (Txn t, Res l) \/
                         (l ∉ resources g) /\ e = (Res l, Txn t))).
Proof.
  intros rng. unfold connectResources. rewrite find_all by apply NoDup_seqZ. cbn [app].
  set (L := seqZ start (end_ - start + 1)).
  assert (HL : forall l, l ∈ L <-> rng l) by (intros l; unfold L, rng; rewrite elem_of_seqZ; lia).
  destruct (wait_all t (filter (fun x => x ∈ resources g) L) (set_resources (list_to_set L ∪ resources g) g))
    as (E1 & -> & H1).
  destruct (take_all t (filter (fun x => x ∉ resources g) L) (set_edges E1 (set_resources (list_to_set L ∪ resources g) g)))
    as (E2 & -> & H2).
  exists (list_to_set L ∪ resources g), E2. split; [by destruct g|]. split; [set_solver|].
  intros e. rewrite H2. cbn [edges set_edges]. rewrite H1. cbn [edges set_resources].
  setoid_rewrite list_elem_of_filter. setoid_rewrite HL.
  change (owns (set_resources (list_to_set L ∪ resources g) g)) with (owns g). naive_solver.
Qed.

Lemma connect_ok start end_ t g : graph_ok g -> t ∈ txns g ->
  let g' := connectResources start end_ t g in
  graph_ok g' /\ txns g' = txns g /\
  forall l, start <= l <= end_ -> owns g' t l \/ edge g' (Txn t) (Res l).
Proof.
  intros Hok Ht. pose proof Hok as []. cbv zeta.
  destruct (connect_edges start end_ t g) as (R & E & -> & HR & HE). cbv zeta in *.
  assert (He : forall a b, edge (set_edges E (set_resources R g)) a b <-> (a, b) ∈ E) by done.
  assert (Ho : forall x l, owns (set_edges E (set_resources R g)) x l <->
    owns g x l \/ x = t /\ start <= l <= end_ /\ (l ∉ resources g)).
  { intros x l. unfold owns. rewrite He, HE. unfold edge. naive_solver. }
  split; [|split; [done|]].
  - split.
    + intros a b. rewrite He, HE. intros [Hab|(l & Hl & [(H1 & H2 & [= -> ->])|(H1 & [= -> ->])])].
      * destruct (g_shape0 a b Hab) as (x & l & Hx & Hl & H). exists x, l. split; [done|]. split; [|done].
        cbn. apply HR. by left.
      * exists t, l. split; [done|]. split; [cbn; apply HR; by left|]. by left.
      * exists t, l. split; [done|]. split; [cbn; apply HR; by right|]. by right.
    + intros l. cbn [resources set_edges set_resources]. rewrite HR. intros Hl. setoid_rewrite Ho.
      destruct (decide (l ∈ resources g)) as [Hr|Hr]; [destruct (g_owner0 l Hr) as [x Hx]; exists x; by left|].
      destruct Hl as [|Hl]; [done|]. exists t. by right.
    + intros x y l. rewrite !Ho. intros [H1|(-> & _ & H1)] [H2|(-> & _ & H2)]; [by eapply g_one0| | |done];
        exfalso; [by apply H2, (owned_resource g x)|by apply H1, (owned_resource g y)].
    + intros x l. rewrite He, HE, Ho. intros [Hw|(y & Hy & [(H1 & H2 & [= -> ->])|(H1 & [=])])].
      * intros [H|(-> & _ & H)]; [by eapply g_waits0|]. destruct (g_shape0 _ _ Hw) as (? & ? & ? & ? & [[[= ->] [= ->]]|[[=] _]]). done.
      * intros [H|(_ & _ & H)]; done.
    + done.
  - intros l Hl. rewrite Ho, He, HE. destruct (decide (l ∈ resources g)) as [Hr|Hr]; [|left; by right].
    destruct (decide ((Res l, Txn t) ∈ edges g)) as [Hd|Hd]; [left; by left|]. right. right. exists l. naive_solver.
Qed.

(** ** Releasing *)

Definition touches (l : Z) (e : node * node) : Prop := e.1 = Res l \/ e.2 = Res l.

Lemma detach_edges l g : exists E S, wakeAndDetach l g = set_sleeping S (set_edges E g) /\ S ⊆ sleeping g /\
  forall e, e ∈ E <-> e ∈ edges g /\ e.2 <> Res l.
Proof.
  unfold wakeAndDetach.
  assert (H : forall ns g0, exists E S, foldl (fun g t => removeInEdge (Res l) t (wake (txn_of t) g)) g0 ns =
      set_sleeping S (set_edges E g0) /\ S ⊆ sleeping g0 /\
    forall e, e ∈ E <-> e ∈ edges g0 /\ ~ (e.2 = Res l /\ e.1 ∈ ns)).
  { induction ns as [|n ns IH]; intros g0; cbn [foldl].
    { exists (edges g0), (sleeping g0). split; [by destruct g0|]. split; [done|]. set_solver. }
    destruct (IH (removeInEdge (Res l) n (wake (txn_of n) g0))) as (E & S & -> & HS & HE).
    exists E, S. split; [done|]. split; [cbn in HS; set_solver|]. intros [a b]. rewrite HE. cbn. rewrite elem_of_difference, elem_of_singleton, elem_of_cons.
    cbn. naive_solver. }
  destruct (H (ins g (Res l)) g) as (E & S & -> & HS & HE). exists E, S. split; [done|]. split; [done|]. intros [a b]. rewrite HE. cbn.
  rewrite elem_of_ins. unfold edge. split; [|naive_solver]. intros [H1 H2]. split; [done|]. intros ->. by apply H2.
Qed.

(** The state after the loop over the blocks of [releaseResources]. *)
Lemma release_all t ls g : colors_ok g -> exists E S c,
  foldl (fun g l => delete_node (Res l) (set_resources (resources g ∖ {[l]})
      (removeInEdge (Txn t) (Res l) (wakeAndDetach l g)))) g ls =
    mkGraph (txns g) (resources g ∖ list_to_set ls) E c (color g) S (dead g) /\
  S ⊆ sleeping g /\
  (forall e, e ∈ E <-> e ∈ edges g /\ forall l, l ∈ ls -> ~ touches l e) /\
  (forall n, color_of c n <= color g).
Proof.
  revert g. induction ls as [|l ls IH]; intros g [H0 Hc]; cbn [foldl].
  { exists (edges g), (sleeping g), (colors g). split; [|split; [done|split; [set_solver|done]]].
    destruct g. cbn. f_equal. set_solver. }
  destruct (detach_edges l g) as (E & S & Hd & HS & HE).
  set (g1 := delete_node _ _).
  assert (H1 : colors_ok g1).
  { subst g1. rewrite Hd. split; [done|]. cbn [color colors delete_node set_colors set_edges set_resources removeInEdge
      set_sleeping]. intros n. unfold color_of. destruct (decide (n = Res l)) as [->|].
    - by rewrite lookup_delete_eq.
    - rewrite lookup_delete_ne by done. apply Hc. }
  destruct (IH g1 H1) as (E' & S' & c' & -> & HS' & HE' & Hc').
  exists E', S', c'. subst g1. rewrite Hd in *.
  split; [|split; [|split; [|done]]].
  - cbn. f_equal. set_solver.
  - cbn in HS'. set_solver.
  - intros [a b]. rewrite HE'.
    cbn [edges delete_node set_colors set_edges set_resources removeInEdge set_sleeping].
    rewrite elem_of_filter, elem_of_difference, elem_of_singleton, HE. unfold touches. cbn [fst snd].
    setoid_rewrite elem_of_cons. naive_solver.
Qed.
Lemma stop_waiting t ls g : exists E,
  foldl (fun g l => removeOutEdge (Txn t) (Res l) g) g ls = set_edges E g /\
  forall e, e ∈ E <-> e ∈ edges g /\ forall l, l ∈ ls -> e <> (Txn t, Res l).
Proof.
  revert g. induction ls as [|l ls IH]; intros g; cbn [foldl].
  { exists (edges g). split; [by destruct g|]. set_solver. }
  destruct (IH (removeOutEdge (Txn t) (Res l) g)) as (E & -> & HE). exists E. split; [done|]. intros e.
  rewrite HE. cbn. rewrite elem_of_difference, elem_of_singleton. setoid_rewrite elem_of_cons. naive_solver.
Qed.

Lemma elem_of_lbids l ns : l ∈ lbids_of ns <-> Res l ∈ ns.
Proof.
  unfold lbids_of. rewrite list_elem_of_omap. split.
  - by intros ([x|x] & Hx & [= ->]).
  - intros H. by exists (Res l).
Qed.

(** The blocks of the transaction are gone with all that led to them, and so are
    its requests. *)
Lemma release_edges t g : graph_ok g -> t ∈ txns g -> exists X E S c D,
  releaseResources t g = mkGraph X (resources (releaseResources t g)) E c (color g) S D /\
  (X = txns g \/ X = txns g ∖ {[t]}) /\ S ⊆ sleeping g /\
  (forall x, x ∈ D -> x ∈ dead g \/ x = t /\ t ∈ sleeping g) /\
  (forall l, l ∈ resources (releaseResources t g) <-> l ∈ resources g /\ ~ owns g t l) /\
  (forall a b, (a, b) ∈ E <-> edge g a b /\ a <> Txn t /\ b <> Txn t /\
     forall l, owns g t l -> ~ touches l (a, b)) /\
  (forall n, color_of c n <= color g).
Proof.
  intros Hok Ht. unfold releaseResources. rewrite decide_True by done.
  destruct (release_all t (lbids_of (ins g (Txn t))) g (g_colors _ Hok)) as (E & S & c & Hr & HS & HE & Hc). rewrite Hr.
  set (g1 := mkGraph _ _ E _ _ _ _) in *. cbv zeta.
  destruct (stop_waiting t (lbids_of (outs g1 (Txn t))) g1) as (E2 & -> & HE2).
  setoid_rewrite elem_of_lbids in HE. setoid_rewrite elem_of_ins in HE. fold (owns g t) in HE.
  assert (Hres : forall l, l ∈ resources g ∖ list_to_set (lbids_of (ins g (Txn t))) <-> l ∈ resources g /\ ~ owns g t l).
  { intros l. rewrite elem_of_difference, elem_of_list_to_set, elem_of_lbids, elem_of_ins. done. }
  assert (HE3 : forall a b, (a, b) ∈ E2 <-> edge g a b /\ a <> Txn t /\ b <> Txn t /\
     forall l, owns g t l -> ~ touches l (a, b)).
  { intros a b. rewrite HE2. setoid_rewrite elem_of_lbids. setoid_rewrite elem_of_outs.
    unfold edge at 1. cbn [edges g1]. setoid_rewrite HE. destruct Hok as [Hs _ _ _ _]. split.
    - intros [[Hab Hn] Hw]. split; [done|]. destruct (Hs a b Hab) as (x & l & _ & _ & [[-> ->]|[-> ->]]).
      + split; [|split; [done|done]]. intros [= ->]. by apply (Hw l).
      + split; [done|]. split; [|done]. intros [= ->]. apply (Hn l Hab). by left.
    - intros (Hab & Ha & Hb & Hn). split; [done|]. intros l _ [= -> ->]. done. }
  case_decide as Hsl.
  - eexists _, _, _, _, _. split; [reflexivity|]. cbn. split; [by left|].
    cbn in Hsl. split; [set_solver|]. split; [set_solver|]. split; [exact Hres|]. split; [exact HE3|exact Hc].
  - eexists _, _, _, _, _. split; [reflexivity|]. cbn. split; [by right|].
    cbn in Hsl. split; [set_solver|]. split; [set_solver|]. split; [exact Hres|]. split.
    + intros a b. rewrite elem_of_filter. cbn. rewrite HE3. naive_solver.
    + intros n. unfold color_of. destruct (decide (n = Txn t)) as [->|].
      * rewrite lookup_delete_eq. apply (g_colors _ Hok).
      * rewrite lookup_delete_ne by done. apply Hc.
Qed.

Lemma release_ok t g : graph_ok g -> graph_ok (releaseResources t g).
Proof.
  intros Hok. destruct (decide (t ∈ txns g)) as [Ht|Ht]; [|unfold releaseResources; by rewrite decide_False].
  destruct (release_edges t g Hok Ht) as (X & E & S & c & D & Heq & HX & _ & _ & HR & HE & Hc).
  pose proof Hok as [Hs Ho H1 Hw [Hc0 _]].
  assert (He : forall a b, edge (releaseResources t g) a b <-> (a, b) ∈ E) by (intros; unfold edge; by rewrite Heq).
  assert (Hown : forall x l, owns (releaseResources t g) x l <-> owns g x l /\ x <> t).
  { intros x l. unfold owns. rewrite He, HE. split; [intros (? & _ & Hx & _); split; [done|]; by intros ->|].
    intros [Hx Hne]. split; [done|]. split; [done|]. split; [by intros [= ->]|].
    intros y Hy [Ht'|Ht']; cbn in Ht'; [|done]. injection Ht' as ->. by apply Hne, (H1 _ _ y). }
  split.
  - intros a b. rewrite He, HE. intros (Hab & Ha & Hb & Hn). destruct (Hs a b Hab) as (x & l & Hx & Hl & Hsh).
    exists x, l. split; [|split; [|done]].
    + rewrite Heq. cbn. destruct HX as [->| ->]; [done|]. apply elem_of_difference. split; [done|].
      rewrite elem_of_singleton. intros ->. by destruct Hsh as [[-> ->]|[-> ->]].
    + apply HR. split; [done|]. intros Hy. apply (Hn l Hy). unfold touches. cbn.
      destruct Hsh as [[-> ->]|[-> ->]]; auto.
  - intros l [Hl Hn]%HR. destruct (Ho l Hl) as [x Hx]. exists x. apply Hown. split; [done|]. by intros ->.
  - intros x y l. rewrite !Hown. intros [Hx _] [Hy _]. by apply (H1 x y l).
  - intros x l. rewrite He, HE, Hown. intros (Hwt & _) [Hx _]. by apply (Hw x l).
  - rewrite Heq. by split.
Qed.

(** ** Requests *)

Definition deadlocked (g : graph) (t : Z) : Prop := exists n, rtc (edge g) (Txn t) n /\ tc (edge g) n n.

Lemma same_edges_ok g g' : graph_ok g -> colors_ok g' -> txns g' = txns g -> resources g' = resources g ->
  edges g' = edges g -> graph_ok g'.
Proof.
  intros [Hs Ho H1 Hw _] Hc Ht Hr He.
  assert (E : forall a b, edge g' a b <-> edge g a b) by (intros; unfold edge; by rewrite He).
  split; unfold owns in *; try setoid_rewrite E; rewrite ?Ht, ?Hr; done.
Qed.

(** What a call answers once it has asked for its range. *)
Definition answered (g : graph) (t : Z) (r : reserved) : Prop :=
  match r with
  | ROk => outs g (Txn t) = []
  | RDeadlock => deadlocked g t
  | RSleeps => outs g (Txn t) <> [] /\ ~ deadlocked g t
  | RKilled => False
  end.
Lemma reserve_check_ok t g : graph_ok g -> exists r g', reserve_check t g = Ret (r, g') /\ graph_ok g' /\
  edges g' = edges g /\ dead g' = dead g /\ answered g t r /\
  sleeping g' = match r with RSleeps => {[t]} ∪ sleeping g | _ => sleeping g end.
Proof.
  intros Hok. unfold reserve_check. case_decide as Ho; [by exists ROk, g|].
  destruct (deadlock_search t g (g_colors _ Hok)) as (b & c & -> & Hb & Hc). cbn.
  assert (Hg : graph_ok (set_colors c (color g + 2) g)) by (by eapply same_edges_ok).
  destruct b.
  - exists RDeadlock, (set_colors c (color g + 2) g). repeat (split; [done|]). split; [by apply Hb|done].
  - exists RSleeps, (sleep t (set_colors c (color g + 2) g)). split; [done|].
    split; [by eapply same_edges_ok|]. repeat (split; [done|]). split; [|done]. split; [done|].
    intros Hd. by apply Hb in Hd.
Qed.

Record sys_ok (g : graph) (P : pending) : Prop := {
  y_graph : graph_ok g;
  y_sleeping : forall t, t ∈ sleeping g -> is_Some (P !! t);
  y_dead : forall t, t ∈ dead g -> is_Some (P !! t) /\ forall n, ~ edge g (Txn t) n /\ ~ edge g n (Txn t);
}.

Lemma after_other r t rng P x : x <> t -> is_Some (P !! x) -> is_Some (after r t rng P !! x).
Proof.
  intros Hne Hx. destruct r; cbn [after]; first [rewrite lookup_insert_ne by congruence|rewrite lookup_delete_ne by congruence]; done.
Qed.

Lemma connect_same start end_ t g : sleeping (connectResources start end_ t g) = sleeping g /\
  dead (connectResources start end_ t g) = dead g.
Proof. destruct (connect_edges start end_ t g) as (R & E & -> & _). done. Qed.
Lemma connect_others start end_ t g x n : x <> t ->
  let g' := connectResources start end_ t g in
  (edge g' (Txn x) n -> edge g (Txn x) n) /\ (edge g' n (Txn x) -> edge g n (Txn x)).
Proof.
  intros Hne. cbv zeta. destruct (connect_edges start end_ t g) as (R & E & -> & _ & HE). cbv zeta in HE.
  unfold edge. cbn [edges set_edges]. rewrite !HE. naive_solver.
Qed.

(** A request, new or woken, of a transaction that has not been killed. *)
Lemma request_ok start end_ t g P : sys_ok g P -> t ∈ txns g -> t ∉ dead g -> t ∉ sleeping g ->
  exists r g', reserve_check t (connectResources start end_ t g) = Ret (r, g') /\
    sys_ok g' (after r t (start, end_) P) /\ answered g' t r /\
    (r = ROk -> forall l, start <= l <= end_ -> owns g' t l).
Proof.
  intros [Hg Hs Hd] Ht Hnd Hns. destruct (connect_ok start end_ t g Hg Ht) as (Hg1 & _ & Hr).
  destruct (connect_same start end_ t g) as [Es Ed]. pose proof (connect_others start end_ t g) as Hx.
  set (g1 := connectResources start end_ t g) in *.
  destruct (reserve_check_ok t g1 Hg1) as (r & g' & Hc & Hg' & He & Hd' & Ha & Hsl).
  assert (E : forall a b, edge g' a b <-> edge g1 a b) by (intros; unfold edge; by rewrite He).
  exists r, g'. split; [done|]. split; [|split].
  - split; [done| |].
    + intros x Hxs. destruct (decide (x = t)) as [->|Hne].
      * destruct r; [..|cbn; rewrite lookup_insert_eq; by eexists]; rewrite Hsl, Es in Hxs; done.
      * apply after_other; [done|]. apply Hs. rewrite <- Es. rewrite Hsl in Hxs. destruct r; set_solver.
    + intros x. rewrite Hd', Ed. intros Hxd. assert (Hne : x <> t) by (by intros ->).
      destruct (Hd x Hxd) as [H1 H2]. split; [by apply after_other|]. intros n. rewrite !E.
      destruct (Hx x n Hne) as [H3 H4], (H2 n) as [H5 H6]. tauto.
  - assert (outs g' (Txn t) = outs g1 (Txn t)) as Ho by (unfold outs; by rewrite He).
    assert (deadlocked g' t <-> deadlocked g1 t) as Hdl by (unfold deadlocked, edge; by rewrite He).
    unfold answered in *. rewrite Ho. destruct r; by rewrite ?Hdl.
  - intros -> l Hl. unfold owns. rewrite E. destruct (Hr l Hl) as [Hw|Hw]; [done|].
    apply elem_of_outs in Hw. cbn in Ha. rewrite Ha in Hw. by apply not_elem_of_nil in Hw.
Qed.

Lemma new_txn_ok g P t : sys_ok g P -> sys_ok (set_txns ({[t]} ∪ txns g) g) P.
Proof.
  intros [[Hs Ho H1 Hw Hc] Hsl Hd]. split; [|done|done]. split; [|done..].
  intros a b Hab. destruct (Hs a b Hab) as (x & l & Hx & Hl). exists x, l. split; [cbn; set_solver|done].
Qed.

(** The killed transaction has no edges left. *)
Lemma delete_txn_ok t g P rng : sys_ok g P -> t ∈ dead g -> sys_ok (delete_txn t g) (after RKilled t rng P).
Proof.
  intros [[Hs Ho H1 Hw Hc] Hsl Hd] Ht. destruct (Hd t Ht) as [_ Hn].
  assert (E : edges (delete_txn t g) = edges g).
  { cbn. apply set_eq. intros [a b]. rewrite elem_of_filter. cbn. split; [tauto|]. intros Hab. split; [|done].
    split; intros ->; [by apply (proj1 (Hn b))|by apply (proj2 (Hn a))]. }
  assert (Ee : forall a b, edge (delete_txn t g) a b <-> edge g a b) by (intros; unfold edge; by rewrite E).
  split.
  - split; unfold owns; try setoid_rewrite Ee; try done.
    + intros a b Hab. destruct (Hs a b Hab) as (x & l & Hx & Hl & Hsh). exists x, l. split; [|done].
      cbn. apply elem_of_difference. split; [done|]. rewrite elem_of_singleton. intros ->.
      destruct Hsh as [[-> ->]|[-> ->]]; [by apply (proj1 (Hn (Res l)))|by apply (proj2 (Hn (Res l)))].
    + destruct Hc as [Hc0 Hc]. split; [done|]. cbn [delete_txn delete_node colors color set_colors set_edges].
      intros n. unfold color_of. destruct (decide (n = Txn t)) as [->|].
      * by rewrite lookup_delete_eq.
      * rewrite lookup_delete_ne by done. apply Hc.
  - intros x. cbn. intros [Hx Hne]%elem_of_difference. apply (after_other RKilled t rng); [set_solver|]. by apply Hsl.
  - intros x. cbn. intros [Hx Hne]%elem_of_difference. destruct (Hd x Hx) as [H2 H3].
    split; [apply (after_other RKilled t rng); [set_solver|done]|]. intros n. by rewrite !Ee.
Qed.

Lemma release_sys_ok t g P : sys_ok g P -> sys_ok (releaseResources t g) P.
Proof.
  intros [Hg Hs Hd]. split; [by apply release_ok|..];
    (destruct (decide (t ∈ txns g)) as [Ht|Ht]; [|unfold releaseResources; by rewrite decide_False]);
    destruct (release_edges t g Hg Ht) as (X & E & S & c & D & Heq & _ & HS & HD & _ & HE & _); rewrite Heq; cbn.
  - intros x Hx. apply Hs. set_solver.
  - intros x Hx. unfold edge. cbn [edges]. setoid_rewrite HE. destruct (HD x Hx) as [Hx'|[-> Hsl]].
    + destruct (Hd x Hx') as [H1 H2]. split; [done|]. intros n. destruct (H2 n). tauto.
    + split; [by apply Hs|]. intros n. tauto.
Qed.

Lemma rg_step_ok c c' : rg_step c c' -> sys_ok c.1 c.2 -> sys_ok c'.1 c'.2.
Proof.
  intros [g P start end_ t r g' HP Hr|g P start end_ t r g' HP Hw Hr|g P t] Hok; cbn [fst snd] in *.
  - unfold reserveRange in Hr.
    assert (Hns : t ∉ sleeping g) by (intros [? ?]%(y_sleeping _ _ Hok); congruence).
    assert (Hnd : t ∉ dead g) by (intros [[? ?] _]%(y_dead _ _ Hok); congruence).
    case_decide as Ht.
    + destruct (request_ok start end_ t g P Hok Ht Hnd Hns) as (r' & g'' & E & H & _). rewrite E in Hr. by simplify_eq.
    + destruct (request_ok start end_ t (set_txns ({[t]} ∪ txns g) g) P (new_txn_ok _ _ _ Hok)) as (r' & g'' & E & H & _);
        [cbn; set_solver|done|done|]. rewrite E in Hr. by simplify_eq.
  - unfold reserve_wakes in Hr. case_decide as Ht; [|done]. case_decide as Hd.
    + injection Hr as <- <-. by apply delete_txn_ok.
    + destruct (request_ok start end_ t g P Hok Ht Hd Hw) as (r' & g'' & E & H & _). rewrite E in Hr. by simplify_eq.
  - by apply release_sys_ok.
Qed.

Definition rg_reachable (g : graph) (P : pending) : Prop := rtc rg_step (LBIDResourceGraph, ∅) (g, P).

Lemma rg_reachable_ok g P : rg_reachable g P -> sys_ok g P.
Proof.
  intros H.
  assert (Hall : forall c c', rtc rg_step c c' -> sys_ok c.1 c.2 -> sys_ok c'.1 c'.2).
  { induction 1; [done|]. intros. by eauto using rg_step_ok. }
  apply (Hall _ _ H). cbn. split; [split|..]; try set_solver. split; [done|]. done.
Qed.

(** ** Properties *)

(** C15: The search for a deadlock ends, finds one exactly when a cycle can be
    reached from the transaction, and changes nothing but colors, of which it leaves
    fresh ones for the next. *)
Theorem deadlock_detected t g : colors_ok g ->
  exists b c, checkDeadlock t g = Ret (b, set_colors c (color g + 2) g) /\
    (b = true <-> deadlocked g t) /\ colors_ok (set_colors c (color g + 2) g).
Proof. apply deadlock_search. Qed.

(** C18: A request for a range of blocks returns: with success only if the
    transaction owns every block of the range, with a deadlock only if it would wait in
    a cycle, and asleep only if it would not; and no block has two owners. *)
Theorem rg_request start end_ t g P : rg_reachable g P -> P !! t = None ->
  exists r g', reserveRange start end_ t g = Ret (r, g') /\
    (forall x y l, owns g' x l -> owns g' y l -> x = y) /\
    match r with
    | ROk => forall l, start <= l <= end_ -> owns g' t l
    | RDeadlock => deadlocked g' t
    | RSleeps => outs g' (Txn t) <> [] /\ ~ deadlocked g' t
    | RKilled => False
    end.
Proof.
  intros Hok%rg_reachable_ok HP. unfold reserveRange.
  assert (Hns : t ∉ sleeping g) by (intros [? ?]%(y_sleeping _ _ Hok); congruence).
  assert (Hnd : t ∉ dead g) by (intros [[? ?] _]%(y_dead _ _ Hok); congruence).
  assert (H : forall g0, sys_ok g0 P -> t ∈ txns g0 -> t ∉ dead g0 -> t ∉ sleeping g0 -> exists r g',
    reserve_check t (connectResources start end_ t g0) = Ret (r, g') /\
    (forall x y l, owns g' x l -> owns g' y l -> x = y) /\
    match r with
    | ROk => forall l, start <= l <= end_ -> owns g' t l
    | RDeadlock => deadlocked g' t
    | RSleeps => outs g' (Txn t) <> [] /\ ~ deadlocked g' t
    | RKilled => False
    end).
  { intros g0 H0 H1 H2 H3. destruct (request_ok start end_ t g0 P H0 H1 H2 H3) as (r & g' & E & Hs & Ha & Hr).
    exists r, g'. split; [done|]. split; [apply (g_one _ (y_graph _ _ Hs))|]. destruct r; cbn in Ha; auto. }
  case_decide as Ht; [by apply H|]. apply H; [by apply new_txn_ok|cbn; set_solver|done|done].
Qed.

(** ** Small runs *)

Definition graph_of (x : res (reserved * graph)) : graph :=
  match x with Ret (_, g) => g | _ => LBIDResourceGraph end.

(** Transaction 1 owns block 5; 2 owns block 6 and waits for block 5. *)
Definition one_owner : graph := graph_of (reserveRange 5 5 1 LBIDResourceGraph).
Definition one_waits : graph := graph_of (reserveRange 5 6 2 one_owner).
Definition waiting : pending := {[2 := (5, 6)]}.

Lemma one_waits_reachable : rg_reachable one_waits waiting.
Proof.
  eapply rtc_l; [apply (rg_reserve _ _ 5 5 1 ROk one_owner); vm_compute; reflexivity|].
  eapply rtc_l; [apply (rg_reserve _ _ 5 6 2 RSleeps one_waits); vm_compute; reflexivity|].
  vm_compute. apply rtc_refl.
Qed.

Lemma deadlock_detected_witness : exists b c, checkDeadlock 2 one_waits = Ret (b, set_colors c 4 one_waits) /\
  (b = true <-> deadlocked one_waits 2).
Proof.
  destruct (deadlock_detected 2 one_waits) as (b & c & H1 & H2 & _).
  - apply g_colors, (y_graph _ waiting), rg_reachable_ok, one_waits_reachable.
  - exists b, c. split; [exact H1|exact H2].
Defined.

(** Asking for block 6 now would close a circle. *)
Lemma rg_request_witness : exists g', reserveRange 6 6 1 one_waits = Ret (RDeadlock, g') /\ deadlocked g' 1.
Proof.
  destruct (rg_request 6 6 1 one_waits waiting one_waits_reachable eq_refl) as (r & g' & H & _ & Hr).
  assert (E : exists g'', reserveRange 6 6 1 one_waits = Ret (RDeadlock, g'')) by (eexists; vm_compute; reflexivity).
  destruct E as [g'' E]. rewrite H in E. injection E as -> ->. exists g''. split; [exact H|exact Hr].
Defined.

(** When the owner releases its blocks the waiting transaction is woken and no
    longer counts as asleep; if it is released before its thread has run, its node is
    deleted, and the thread goes on with a dangling pointer. *)
Theorem rg_released_before_running : exists g, rg_reachable g waiting /\
  reserve_wakes 5 6 2 g = UB DanglingPointer.
Proof.
  exists (releaseResources 2 (releaseResources 1 one_waits)). split; [|vm_compute; reflexivity].
  unfold rg_reachable. etrans; [exact one_waits_reachable|].
  eapply rtc_l; [apply rg_release|]. eapply rtc_l; [apply rg_release|]. apply rtc_refl.
Qed.
