(* ===== verification/Undoable.v ===== *)
(** * Undo records: src/versioning/BRM/undoable.cpp

    Every BRM table derives from [Undoable]: before a member function
    overwrites a piece of the shared image it saves the old bytes with
    [makeUndoRecord]; [undoChanges] copies the saved bytes back, newest
    record first; [confirmChanges] forgets them.

    The file is generic in the image.  [DeltaImage] is the interface a table
    offers: the cells of its image, the value of one cell ([snapshot]) and
    the store of a value into a cell ([apply_delta]).  [DeltaLaws] are the
    laws of stores.  The main results say that code which records a cell
    before it writes it ([undo_safe]) is reverted exactly by [undoChanges]. *)
From Stdlib Require Import ZArith Lia.
From S2P Require Import Prelude.

Local Open Scope Z_scope.

(** The largest undo record, brmtypes.h. *)
Definition ID_MAXSIZE : Z := 200.

Class DeltaImage (M D C : Type) := {
  cell_of : D -> C;             (* the address a saved value belongs to *)
  apply_delta : D -> M -> M;    (* memcpy (start, data, size) *)
  snapshot : C -> M -> D;       (* memcpy (data, start, size) *)
  csize : C -> Z;               (* bytes of a cell *)
  seg_of : C -> M -> Z;         (* the segment the cell's address points into *)
}.

Class DeltaLaws (M D C : Type) `{DeltaImage M D C} : Prop := {
  snapshot_cell c m : cell_of (snapshot c m) = c;
  apply_snapshot c m : apply_delta (snapshot c m) m = m;
  apply_absorb d1 d2 m :
    cell_of d1 = cell_of d2 -> apply_delta d1 (apply_delta d2 m) = apply_delta d1 m;
  apply_comm d1 d2 m :
    cell_of d1 <> cell_of d2 ->
    apply_delta d1 (apply_delta d2 m) = apply_delta d2 (apply_delta d1 m);
  apply_seg c d m : seg_of c (apply_delta d m) = seg_of c m;
}.

(** [struct ImageDelta]: the address lies in the segment [id_seg], which a
    resize replaces; a record is a run of adjacent cells. *)
Record ImageDelta (D : Type) := mkDelta { id_seg : Z; id_data : list D }.
Arguments mkDelta {D} _ _.
Arguments id_seg {D} _.
Arguments id_data {D} _.

(** An object of a class derived from [Undoable]. *)
Record undoable (M D : Type) := mkUndoable {
  image : M;
  undoRecords : list (ImageDelta D);
}.
Arguments mkUndoable {M D} _ _.
Arguments image {M D} _.
Arguments undoRecords {M D} _.

Section Undoable.
Context {M D C : Type} `{!DeltaImage M D C} `{!EqDecision C}.
Abbreviation obj := (undoable M D).
Implicit Types (m : M) (d : D) (c : C) (o : obj) (log : list (ImageDelta D)).

Definition set_image (f : M -> M) (o : obj) : obj :=
  mkUndoable (f (image o)) (undoRecords o).

Definition store (d : D) : prog obj unit := modify (set_image (apply_delta d)).

Definition record_size (cs : list C) : Z := foldr (fun c n => csize c + n) 0 cs.

(** The segment the start of a record lies in. *)
Definition record_seg (cs : list C) (m : M) : Z :=
  match cs with c :: _ => seg_of c m | [] => 0 end.

Definition makeUndoRecord (cs : list C) : prog obj unit :=
  if decide (ID_MAXSIZE < record_size cs) then throw OverflowError
  else modify (fun o =>
    mkUndoable (image o)
      (undoRecords o ++ [mkDelta (record_seg cs (image o))
                           ((fun c => snapshot c (image o)) <$> cs)])).

(** Copying a record back, and all of them from the newest to the oldest. *)
Definition restore (r : ImageDelta D) (m : M) : M := foldr apply_delta m (id_data r).
Definition replay (log : list (ImageDelta D)) (m : M) : M := foldr restore m log.

(** The address of the record is still mapped. *)
Definition mapped (m : M) (r : ImageDelta D) : Prop :=
  id_seg r = record_seg (cell_of <$> id_data r) m.

#[global] Instance mapped_dec m r : Decision (mapped m r).
Proof. unfold mapped. apply _. Defined.

Definition undoChanges : prog obj unit := fun o =>
  if decide (Forall (mapped (image o)) (undoRecords o))
  then (Ret tt, mkUndoable (replay (undoRecords o) (image o)) [])
  else (UB DanglingPointer, o).

Definition confirmChanges : prog obj unit :=
  modify (fun o => mkUndoable (image o) []).
End Undoable.

(** ** Code that records before it writes *)

Section UndoSafe.
Context {M D C : Type} `{!DeltaImage M D C} `{!EqDecision C} `{!DeltaLaws M D C}.
Abbreviation obj := (undoable M D).
Implicit Types (m : M) (d : D) (c : C) (o : obj) (log : list (ImageDelta D)).

(** The saved values of a log, and the cells it has saved. *)
Definition saved (log : list (ImageDelta D)) : list D := log ≫= id_data.
Definition logged (o : obj) : list C := cell_of <$> saved (undoRecords o).

Lemma replay_saved log m : replay log m = foldr apply_delta m (saved log).
Proof.
  induction log as [|r log IH]; [done|].
  change (saved (r :: log)) with (id_data r ++ saved log).
  rewrite foldr_app, <- IH. done.
Qed.

Lemma saved_app log1 log2 : saved (log1 ++ log2) = saved log1 ++ saved log2.
Proof. apply bind_app. Qed.

Lemma restore_comm (ds : list D) d m :
  cell_of d ∉ cell_of <$> ds ->
  foldr apply_delta (apply_delta d m) ds = apply_delta d (foldr apply_delta m ds).
Proof.
  induction ds as [|d' ds IH]; [done|].
  rewrite fmap_cons, not_elem_of_cons. intros [Hne Hni]. simpl.
  rewrite (IH Hni). apply apply_comm. congruence.
Qed.

(** A store into a saved cell is invisible after the replay. *)
Lemma restore_covered (ds : list D) d m :
  cell_of d ∈ cell_of <$> ds ->
  foldr apply_delta (apply_delta d m) ds = foldr apply_delta m ds.
Proof.
  induction ds as [|d' ds IH]; [by intros ?%elem_of_nil|].
  destruct (decide (cell_of d ∈ cell_of <$> ds)) as [Hin|Hni].
  - intros _. simpl. by rewrite (IH Hin).
  - rewrite fmap_cons, elem_of_cons. intros [Heq|?]; [|done].
    simpl. rewrite (restore_comm _ _ _ Hni). by apply apply_absorb.
Qed.

Lemma restore_snapshots (cs : list C) m :
  foldr apply_delta m ((fun c => snapshot c m) <$> cs) = m.
Proof.
  induction cs as [|c cs IH]; [done|]. rewrite fmap_cons. cbn [foldr].
  rewrite IH. apply apply_snapshot.
Qed.

Lemma snapshots_cells (cs : list C) m : cell_of <$> ((fun c => snapshot c m) <$> cs) = cs.
Proof.
  rewrite <- list_fmap_compose. transitivity (id <$> cs); [|apply list_fmap_id].
  apply list_fmap_ext. intros. apply snapshot_cell.
Qed.

(** No segment was replaced. *)
Definition same_segs (m m' : M) : Prop := forall c, seg_of c m' = seg_of c m.

Lemma mapped_same m m' r : same_segs m m' -> mapped m' r <-> mapped m r.
Proof.
  intros Hs. unfold mapped, record_seg. by destruct (cell_of <$> id_data r); rewrite ?Hs.
Qed.

(** [p] may assume the cells [K] saved; it keeps the image the log leads
    back to, and every record it adds points into the current segment. *)
Definition undo_safe {A} (K : list C) (p : prog obj A) : Prop :=
  forall o, K ⊆ logged o ->
    let o' := snd (p o) in
    replay (undoRecords o') (image o') = replay (undoRecords o) (image o) /\
    same_segs (image o) (image o') /\
    exists ext, undoRecords o' = undoRecords o ++ ext /\
      Forall (mapped (image o)) ext.

Lemma undo_safe_const {A} K (p : prog obj A) :
  (forall o, snd (p o) = o) -> undo_safe K p.
Proof.
  intros Hp o _. simpl. rewrite Hp. split; [done|]. split; [done|].
  exists []. rewrite app_nil_r. by split.
Qed.

Lemma undo_safe_ret {A} K (a : A) : undo_safe K (mret a).
Proof. by apply undo_safe_const. Qed.
Lemma undo_safe_gets {A} K (f : obj -> A) : undo_safe K (gets f).
Proof. by apply undo_safe_const. Qed.
Lemma undo_safe_throw {A} K e : undo_safe K (throw e : prog obj A).
Proof. by apply undo_safe_const. Qed.
Lemma undo_safe_undefined {A} K u : undo_safe K (undefined u : prog obj A).
Proof. by apply undo_safe_const. Qed.
Lemma undo_safe_reading {A} K (f : obj -> res A) : undo_safe K (reading f).
Proof. by apply undo_safe_const. Qed.

Lemma logged_ext o o' ext :
  undoRecords o' = undoRecords o ++ ext -> logged o ⊆ logged o'.
Proof.
  intros H c Hc. unfold logged in *. rewrite H, saved_app, fmap_app, elem_of_app. by left.
Qed.

Lemma undo_safe_bind {A B} K (p : prog obj A) (f : A -> prog obj B) :
  undo_safe K p -> (forall a, undo_safe K (f a)) -> undo_safe K (p ≫= f).
Proof.
  intros Hp Hf o HK. simpl. unfold mbind, prog_bind.
  specialize (Hp o HK). simpl in Hp.
  destruct (p o) as [[a|e|u] o1] eqn:E; simpl in *; try exact Hp.
  destruct Hp as (Hr & Hs & ext & Hext & Hall).
  specialize (Hf a o1 ltac:(etrans; [exact HK|by eapply logged_ext])). simpl in Hf.
  destruct Hf as (Hr' & Hs' & ext' & Hext' & Hall').
  split; [congruence|]. split; [intros c; etrans; [apply Hs'|apply Hs]|].
  exists (ext ++ ext'). rewrite Hext', Hext, app_assoc. split; [done|].
  apply Forall_app. split; [done|].
  eapply Forall_impl; [exact Hall'|]. intros r H. by apply (mapped_same _ _ r Hs).
Qed.

Lemma undo_safe_for_each {A} K (l : list A) (f : A -> prog obj unit) :
  (forall a, undo_safe K (f a)) -> undo_safe K (for_each l f).
Proof.
  intros Hf. induction l as [|a l IH]; [apply undo_safe_ret|].
  simpl. apply undo_safe_bind; [apply Hf|done].
Qed.

Lemma undo_safe_weaken {A} K K' (p : prog obj A) :
  undo_safe K p -> K ⊆ K' -> undo_safe K' p.
Proof. intros Hp Hsub o HK. apply Hp. set_solver. Qed.

Lemma undo_safe_store K d : cell_of d ∈ K -> undo_safe K (store d).
Proof.
  intros Hd o HK. simpl. split; [|split].
  - rewrite !replay_saved. apply restore_covered, HK, Hd.
  - intros c. apply apply_seg.
  - exists []. rewrite app_nil_r. by split.
Qed.

Lemma undo_safe_makeUndoRecord {A} K cs (q : prog obj A) :
  undo_safe (cs ++ K) q -> undo_safe K (makeUndoRecord cs ≫= fun _ => q).
Proof.
  intros Hq o HK. simpl. unfold mbind, prog_bind, makeUndoRecord.
  destruct (decide _) as [_|_]; [by apply (undo_safe_throw (A:=A) K OverflowError)|].
  simpl. set (rec := mkDelta _ _). set (o1 := mkUndoable _ _).
  destruct (Hq o1) as (Hr & Hs & ext & Hext & Hall).
  { unfold logged, o1. simpl. rewrite saved_app, fmap_app. unfold rec, saved. simpl.
    rewrite app_nil_r, snapshots_cells. unfold logged, saved in HK. set_solver. }
  split; [|split].
  - rewrite Hr, !replay_saved. unfold o1, rec, saved. simpl.
    rewrite bind_app, foldr_app. simpl. rewrite app_nil_r, restore_snapshots. done.
  - exact Hs.
  - exists ([rec] ++ ext). rewrite Hext. unfold o1. simpl. rewrite <- app_assoc.
    split; [done|]. constructor; [|done].
    unfold mapped, rec. cbn [id_seg id_data]. by rewrite snapshots_cells.
Qed.

Lemma undo_safe_assoc {A B X} K (p : prog obj A) (f : A -> prog obj B) (g : B -> prog obj X) :
  undo_safe K (p ≫= fun a => f a ≫= g) -> undo_safe K ((p ≫= f) ≫= g).
Proof. intros H o HK. cbv zeta. rewrite prog_bind_assoc. by apply H. Qed.

(** [o'] can be taken back to [o]: what a run of undo-safe code leads to. *)
Definition undoes_to (o o' : obj) : Prop :=
  replay (undoRecords o') (image o') = replay (undoRecords o) (image o) /\
  same_segs (image o) (image o') /\
  exists ext, undoRecords o' = undoRecords o ++ ext /\
    Forall (mapped (image o)) ext.

#[global] Instance undoes_to_preorder : PreOrder undoes_to.
Proof.
  split.
  - intros o. split_and!; [done|done|]. exists []. by rewrite app_nil_r.
  - intros o1 o2 o3 (R1 & S1 & e1 & E1 & F1) (R2 & S2 & e2 & E2 & F2).
    split_and!; [congruence|intros c; etrans; [apply S2|apply S1]|].
    exists (e1 ++ e2). rewrite E2, E1, app_assoc.
    split; [done|]. apply Forall_app. split; [done|].
    eapply Forall_impl; [exact F2|]. intros r H. by apply (mapped_same _ _ r S1).
Qed.

Lemma undo_safe_step {A} (p : prog obj A) o : undo_safe [] p -> undoes_to o (snd (p o)).
Proof. intros Hp. apply (Hp o). set_solver. Qed.

Lemma undoes_to_reverts o o' : undoes_to o o' -> undoRecords o = [] ->
  undoChanges o' = (Ret tt, mkUndoable (image o) []).
Proof.
  intros (Hr & Hs & ext & Hext & Hall) Hlog. unfold undoChanges. rewrite decide_True.
  - rewrite Hr, Hlog. done.
  - rewrite Hext, Hlog. eapply Forall_impl; [exact Hall|]. intros r H. by apply (mapped_same _ _ r Hs).
Qed.

(** Running undo-safe code and undoing gives back the image. *)
Lemma undo_safe_reverts {A} (p : prog obj A) o :
  undo_safe [] p -> undoRecords o = [] ->
  undoChanges (snd (p o)) = (Ret tt, mkUndoable (image o) []).
Proof. intros Hp. apply undoes_to_reverts. by apply undo_safe_step. Qed.
End UndoSafe.

(** ** Running undoable code *)

Section Runs.
Context {M D C : Type} `{!DeltaImage M D C}.

Lemma bind_store {A} (d : D) (q : prog (undoable M D) A) m log :
  (store d ≫= fun _ => q) (mkUndoable m log) = q (mkUndoable (apply_delta d m) log).
Proof. reflexivity. Qed.

Lemma bind_makeUndoRecord {A} (cs : list C) (q : prog (undoable M D) A) m log :
  record_size cs <= ID_MAXSIZE ->
  (makeUndoRecord cs ≫= fun _ => q) (mkUndoable m log) =
  q (mkUndoable m (log ++ [mkDelta (record_seg cs m) ((fun c => snapshot c m) <$> cs)])).
Proof.
  intros H. unfold makeUndoRecord. rewrite decide_False by lia. reflexivity.
Qed.
End Runs.

(** ** Automation for [undo_safe] goals *)

Create HintDb undo discriminated.
#[export] Hint Resolve undo_safe_ret undo_safe_gets undo_safe_throw undo_safe_undefined
  undo_safe_reading : undo.

Ltac undo_step :=
  lazymatch goal with
  | |- undo_safe _ (makeUndoRecord _ ≫= _) => apply undo_safe_makeUndoRecord
  | |- undo_safe _ (makeUndoRecord _) =>
      apply (undo_safe_makeUndoRecord _ _ (mret tt)); apply undo_safe_ret
  | |- undo_safe _ ((match ?x with _ => _ end) ≫= _) => destruct x
  | |- undo_safe _ ((_ ≫= _) ≫= _) => apply undo_safe_assoc; cbv beta
  | |- undo_safe _ (_ ≫= _) => apply undo_safe_bind; [|intros ?]
  | |- undo_safe _ (store _) => apply undo_safe_store; simpl; set_solver
  | |- undo_safe _ (match ?x with _ => _ end) => destruct x
  | |- undo_safe _ (for_each _ _) => apply undo_safe_for_each; intros ?
  | |- undo_safe _ _ => solve [eauto with undo]
  end.
Ltac solve_undo := intros; repeat undo_step.
