(* ===== verification/Hasher.v ===== *)
(** * The Murmur3 hash: src/utils/common/hasher.h

    [utils::Hasher] hashes a byte buffer to a [uint32_t]; the VSS hashes the
    eight bytes of an LBID with it, the VBBM the eight bytes of an LBID
    followed by the four of a version.  Buffers are lists of byte values,
    integers are laid out little-endian. *)
From Stdlib Require Import ZArith Lia.
From S2P Require Import Prelude Bytes.

Local Open Scope Z_scope.

Definition rotl32 (x r : Z) : Z := Z.lor (u32 (Z.shiftl x r)) (Z.shiftr x (32 - r)).

Definition fmix (h0 : Z) : Z :=
  let h1 := Z.lxor h0 (Z.shiftr h0 16) in
  let h2 := u32 (h1 * 0x85ebca6b) in
  let h3 := Z.lxor h2 (Z.shiftr h2 13) in
  let h4 := u32 (h3 * 0xc2b2ae35) in
  Z.lxor h4 (Z.shiftr h4 16).

Definition hash_c1 : Z := 0xcc9e2d51.
Definition hash_c2 : Z := 0x1b873593.

Definition hash_k1 (k1 : Z) : Z := u32 (rotl32 (u32 (k1 * hash_c1)) 15 * hash_c2).

(** The loop over the 32-bit blocks; it stops with fewer than 4 bytes left. *)
Fixpoint hash_body (data : list Z) (h1 : Z) : Z * list Z :=
  match data with
  | b0 :: b1 :: b2 :: b3 :: rest =>
      let k1 := of_le [b0; b1; b2; b3] in
      hash_body rest (u32 (rotl32 (Z.lxor h1 (hash_k1 k1)) 13 * 5 + 0xe6546b64))
  | _ => (h1, data)
  end.

(** The fall-through [switch (len & 3)] on the bytes that are left. *)
Definition hash_tail (tail : list Z) (h1 : Z) : Z :=
  match tail with
  | [b0] => Z.lxor h1 (hash_k1 b0)
  | [b0; b1] => Z.lxor h1 (hash_k1 (Z.lxor (Z.shiftl b1 8) b0))
  | [b0; b1; b2] =>
      Z.lxor h1 (hash_k1 (Z.lxor (Z.lxor (Z.shiftl b2 16) (Z.shiftl b1 8)) b0))
  | _ => h1
  end.

Definition hasher (data : list Z) : Z :=
  let '(h1, tail) := hash_body data 0 in
  fmix (u32 (Z.lxor (hash_tail tail h1) (Z.of_nat (length data)))).

(** ** Results *)

Lemma lxor_range n a b :
  0 <= n -> 0 <= a < 2 ^ n -> 0 <= b < 2 ^ n -> 0 <= Z.lxor a b < 2 ^ n.
Proof.
  intros Hn Ha Hb. split; [by apply Z.lxor_nonneg; lia|].
  destruct (decide (Z.lxor a b = 0)) as [->|Hne]; [lia|].
  assert (0 <= Z.lxor a b) by (apply Z.lxor_nonneg; lia).
  apply Z.log2_lt_pow2; [lia|].
  eapply Z.le_lt_trans; [apply Z.log2_lxor; lia|].
  destruct (decide (a = 0)) as [->|], (decide (b = 0)) as [->|]; simpl;
    rewrite ?Z.max_lt_iff, ?Z.max_lub_lt_iff; rewrite ?Z.log2_nonpos by lia.
  - rewrite Z.lxor_0_l in Hne. lia.
  - assert (Z.log2 b < n) by (apply Z.log2_lt_pow2; lia). pose proof (Z.log2_nonneg b). lia.
  - assert (Z.log2 a < n) by (apply Z.log2_lt_pow2; lia). pose proof (Z.log2_nonneg a). lia.
  - split; apply Z.log2_lt_pow2; lia.
Qed.

Lemma shiftr_range n a k : 0 <= k -> 0 <= a < 2 ^ n -> 0 <= Z.shiftr a k < 2 ^ n.
Proof.
  intros Hk Ha. rewrite Z.shiftr_div_pow2 by done.
  assert (0 < 2 ^ k) by lia.
  split; [apply Z.div_pos; lia|]. apply Z.div_lt_upper_bound; [done|]. nia.
Qed.

(** The hash is a 32-bit number whatever the buffer. *)
Lemma hasher_range data : 0 <= hasher data < 2 ^ 32.
Proof.
  unfold hasher. destruct (hash_body data 0) as [h1 tail]. unfold fmix. cbv zeta.
  assert (Hx : forall a k, 0 <= k -> 0 <= a < 2 ^ 32 -> 0 <= Z.lxor a (Z.shiftr a k) < 2 ^ 32).
  { intros a k Hk Ha. apply lxor_range; [lia|done|by apply shiftr_range]. }
  apply Hx; [lia|]. apply u32_range.
Qed.

(** Murmur3 test vectors. *)
Example hasher_empty : hasher [] = 0.
Proof. reflexivity. Qed.
Example hasher_vector1 : hasher (le_bytes 8 0) = 0x63852afc.
Proof. vm_compute. reflexivity. Qed.
Example hasher_vector2 : hasher [104; 101; 108; 108; 111] = 0x248bfa47.
Proof. vm_compute. reflexivity. Qed.

#[global] Arguments hasher : simpl never.
