(* ===== verification/StdMap.v ===== *)
(** * std::map with integer keys

    A [std::map<integer, V>] is a [gmap Z V].  Where the code walks the map it
    visits the entries by increasing key: [in_order]. *)
From Stdlib Require Import ZArith Lia.
From stdpp Require Import sorting.
From S2P Require Import Prelude.

Local Open Scope Z_scope.

Definition key_le {V} (a b : Z * V) : Prop := a.1 <= b.1.
#[global] Instance key_le_dec {V} : RelDecision (@key_le V).
Proof. intros a b. unfold key_le. apply _. Defined.

Definition in_order {V} (m : gmap Z V) : list (Z * V) := merge_sort key_le (map_to_list m).

(** The loop [for (it = begin; it != end; ++it) if (p) return it]. *)
Definition first_in {V} (p : V -> bool) (m : gmap Z V) : option (Z * V) :=
  head (filter (fun kv => p kv.2) (in_order m)).

(** Erasing every entry whose value is [p]. *)
Definition erase_all {V} (p : V -> bool) (m : gmap Z V) : gmap Z V :=
  filter (fun kv => negb (p kv.2)) m.

(** ** Results *)

Section Results.
Context {V : Type}.
Implicit Types m : gmap Z V.

Lemma in_order_perm m : in_order m ≡ₚ map_to_list m.
Proof. apply merge_sort_Permutation. Qed.

Lemma elem_of_in_order m k v : (k, v) ∈ in_order m <-> m !! k = Some v.
Proof. by rewrite in_order_perm, elem_of_map_to_list. Qed.

Lemma length_in_order m : length (in_order m) = size m.
Proof. by rewrite in_order_perm, length_map_to_list. Qed.

Lemma in_order_sorted m : StronglySorted key_le (in_order m).
Proof.
  apply Sorted_StronglySorted; [intros a b c; unfold key_le; lia|].
  assert (Total (@key_le V)) by (intros a b; unfold key_le; lia).
  apply (Sorted_merge_sort _).
Qed.

Lemma in_order_keys m : NoDup (in_order m).*1.
Proof. rewrite in_order_perm. apply NoDup_fst_map_to_list. Qed.

Lemma in_order_key_inj m a b k v w :
  in_order m !! a = Some (k, v) -> in_order m !! b = Some (k, w) -> a = b.
Proof.
  intros Ha Hb. eapply (NoDup_lookup _ _ _ k (in_order_keys m)); by rewrite list_lookup_fmap, ?Ha, ?Hb.
Qed.

Lemma in_order_empty : in_order (∅ : gmap Z V) = [].
Proof. apply Permutation_nil_r. by rewrite in_order_perm, map_to_list_empty. Qed.

Lemma first_in_None p m :
  first_in p m = None <-> forall k v, m !! k = Some v -> p v = false.
Proof.
  unfold first_in. rewrite head_None. split.
  - intros H k v Hk. destruct (p v) eqn:E; [|done]. exfalso.
    assert (Hin : (k, v) ∈ filter (fun kv : Z * V => p kv.2) (in_order m)).
    { apply list_elem_of_filter. cbn. rewrite E. split; [done|]. by apply elem_of_in_order. }
    rewrite H in Hin. by apply not_elem_of_nil in Hin.
  - intros H. destruct (filter _ _) as [|[k v] l] eqn:E; [done|]. exfalso.
    assert (Hin : (k, v) ∈ (k, v) :: l) by apply list_elem_of_here.
    rewrite <- E in Hin. apply list_elem_of_filter in Hin as [Hp Hin%elem_of_in_order].
    cbn in Hp. by rewrite (H _ _ Hin) in Hp.
Qed.

Lemma first_in_Some p m k v :
  first_in p m = Some (k, v) -> m !! k = Some v /\ p v = true.
Proof.
  unfold first_in. intros [l Hl]%head_Some.
  assert (Hin : (k, v) ∈ filter (fun kv : Z * V => p kv.2) (in_order m))
    by (rewrite Hl; apply list_elem_of_here).
  apply list_elem_of_filter in Hin as [Hp Hin]. rewrite elem_of_in_order in Hin.
  cbn in Hp. by destruct (p v).
Qed.

End Results.
