(* ===== verification/HashChain.v ===== *)
(** * Chained hash tables in shared memory

    The VSS and the VBBM keep their entries in the same shape: an array
    [hashBuckets] of list heads and an array [storage] of entries, linked by
    array index, with -1 as the null link and LBID -1 marking a free entry.
    vss.h and vbbm.h say that the code that manipulates the two "is nearly
    identical"; this file holds what the two share: the traversal of a list,
    the search for a free entry, the well-formedness of the table and the two
    link operations, insertion at the head of a list and unlinking.

    [Slot] is the interface an entry type offers. *)
From Stdlib Require Import ZArith Lia.
From S2P Require Import Prelude.

Local Open Scope Z_scope.

Class Slot (E : Type) := {
  slot_lbid : E -> Z;
  slot_next : E -> Z;
  slot_set_lbid : Z -> E -> E;
  slot_set_next : Z -> E -> E;
}.

Class SlotLaws (E : Type) `{Slot E} : Prop := {
  lbid_set_lbid z e : slot_lbid (slot_set_lbid z e) = z;
  next_set_lbid z e : slot_next (slot_set_lbid z e) = slot_next e;
  lbid_set_next z e : slot_lbid (slot_set_next z e) = slot_lbid e;
  next_set_next z e : slot_next (slot_set_next z e) = z;
}.

(** ** Loops over the arrays *)

Section Loops.
Context {E : Type} `{!Slot E}.

(** [while (index != -1) { body; index = storage[index].next; }] where the
    body updates an accumulator or returns early.  The fuel is the number
    of entries: a list without a cycle is no longer than that. *)
Fixpoint list_walk {A R} (fuel : nat) (body : A -> Z -> E -> A + R)
    (storage : list E) (index : Z) (acc : A) : res (A + R) :=
  match fuel with
  | O => UB Diverges
  | S fuel' =>
      if decide (index = -1) then Ret (inl acc)
      else
        e ← rd storage index;
        match body acc index e with
        | inr r => Ret (inr r)
        | inl acc' => list_walk fuel' body storage (slot_next e) acc'
        end
  end.

(** [while (storage[insertIndex].lbid != -1) insertIndex++;] *)
Fixpoint find_free (fuel : nat) (storage : list E) (insertIndex : Z) : res Z :=
  match fuel with
  | O => UB Diverges
  | S fuel' =>
      e ← rd storage insertIndex;
      if decide (slot_lbid e = -1) then Ret insertIndex
      else find_free fuel' storage (insertIndex + 1)
  end.

Definition used (e : E) : Prop := slot_lbid e <> -1.
#[export] Instance used_dec e : Decision (used e).
Proof. unfold used. apply _. Defined.

(** The number of entries in use. *)
Definition used_count (storage : list E) : nat := length (filter used storage).
End Loops.

(** ** Well-formed tables *)

Section Chains.
Context {E : Type} `{!Slot E} `{!SlotLaws E}.
Implicit Types (st : list E) (bs : list Z) (cs : list (list nat)) (c : list nat) (e : E).

(** [chain st h c]: following the links from [h] visits the indices [c]. *)
Inductive chain st : Z -> list nat -> Prop :=
  | chain_nil : chain st (-1) []
  | chain_cons i e c :
      st !! i = Some e -> chain st (slot_next e) c -> chain st (Z.of_nat i) (i :: c).

(** [bucket_of] is the bucket the code computes for an entry.  [cs] lists
    the visited indices bucket by bucket: every list holds exactly the
    used entries of its bucket. *)
Record wf_table (bucket_of : E -> nat) bs st cs : Prop := {
  wt_length : length cs = length bs;
  wt_chain b h c : bs !! b = Some h -> cs !! b = Some c -> chain st h c;
  wt_sound b c i e : cs !! b = Some c -> i ∈ c -> st !! i = Some e ->
    used e /\ bucket_of e = b;
  wt_complete i e : st !! i = Some e -> used e ->
    exists c, cs !! bucket_of e = Some c /\ i ∈ c;
}.

(** *** Lists *)

Lemma chain_det st h c1 c2 : chain st h c1 -> chain st h c2 -> c1 = c2.
Proof.
  intros H1. revert c2. induction H1 as [|i e c Hi Hc IH]; intros c2 H2.
  - inversion H2; subst; [done|lia].
  - inversion H2 as [|i' e' c' Hi' Hc']; subst; [lia|].
    apply Nat2Z.inj in H as ->. simplify_eq. by rewrite (IH _ Hc').
Qed.

Lemma chain_nil_inv st c : chain st (-1) c -> c = [].
Proof. intros H. eapply chain_det; [exact H|constructor]. Qed.

Lemma chain_cons_inv st h i c :
  chain st h (i :: c) ->
  h = Z.of_nat i /\ exists e, st !! i = Some e /\ chain st (slot_next e) c.
Proof. intros H. inversion H; subst. eauto. Qed.

Lemma chain_lookup st h c i : chain st h c -> i ∈ c -> exists e, st !! i = Some e.
Proof.
  induction 1 as [|j e c Hj Hc IH]; [by intros ?%elem_of_nil|].
  intros [->|?]%elem_of_cons; eauto.
Qed.

Lemma chain_app st h l1 i l2 :
  chain st h (l1 ++ i :: l2) -> chain st (Z.of_nat i) (i :: l2).
Proof.
  revert h. induction l1 as [|j l1 IH]; intros h H.
  - simpl in H. by apply chain_cons_inv in H as H'; destruct H' as [-> _].
  - apply chain_cons_inv in H as (_ & e & _ & H). eauto.
Qed.

(** The end of a list starts where its first index says. *)
Lemma chain_suffix st st' h h' l1 c : chain st h c -> chain st' h' (l1 ++ c) -> chain st' h c.
Proof.
  intros H H'. destruct H as [|i e c Hi Hc]; [constructor|]. by apply chain_app in H'.
Qed.

(** A list that reaches its end visits no entry twice. *)
Lemma chain_NoDup st h c : chain st h c -> NoDup c.
Proof.
  induction 1 as [|i e c Hi Hc IH]; constructor; [|done].
  intros (l1 & l2 & ->)%list_elem_of_split.
  assert (H : chain st (Z.of_nat i) (i :: l1 ++ i :: l2)) by (econstructor; eauto).
  pose proof (chain_app _ _ _ _ _ Hc) as H'.
  pose proof (chain_det _ _ _ _ H H') as Heq. apply (f_equal length) in Heq.
  simpl in Heq. rewrite length_app in Heq. simpl in Heq. lia.
Qed.

Lemma chain_length st h c : chain st h c -> (length c <= length st)%nat.
Proof.
  intros H. replace (length st) with (length (seq 0 (length st))) by apply length_seq.
  apply submseteq_length, NoDup_submseteq; [by eapply chain_NoDup|].
  intros i Hi. destruct (chain_lookup _ _ _ _ H Hi) as [e He].
  apply lookup_lt_Some in He. apply elem_of_seq. lia.
Qed.

Lemma chain_frame st h c i e : chain st h c -> i ∉ c -> chain (<[i := e]> st) h c.
Proof.
  induction 1 as [|j e' c Hj Hc IH]; intros Hi; [constructor|].
  apply not_elem_of_cons in Hi as [Hne Hi].
  econstructor; [|by apply IH]. by rewrite list_lookup_insert_ne.
Qed.

Lemma chain_payload st h c i e e' :
  st !! i = Some e -> slot_next e' = slot_next e -> chain st h c -> chain (<[i := e']> st) h c.
Proof.
  intros He Hn. induction 1 as [|j e'' c Hj Hc IH]; [constructor|].
  destruct (decide (i = j)) as [->|Hne].
  - econstructor; [by eapply list_lookup_insert_eq, lookup_lt_Some|]. simplify_eq.
    by rewrite Hn.
  - econstructor; [by rewrite list_lookup_insert_ne|]. done.
Qed.

(** Linking around [i]: the predecessor [p] takes over its link. *)
Lemma chain_unlink st h l1 p i l2 e ep :
  chain st h (l1 ++ p :: i :: l2) -> st !! i = Some e -> st !! p = Some ep ->
  chain (<[p := slot_set_next (slot_next e) ep]> (<[i := slot_set_lbid (-1) e]> st)) h
    (l1 ++ p :: l2).
Proof.
  intros H He Hp. assert (Hnd := chain_NoDup _ _ _ H).
  revert h H Hnd. induction l1 as [|j l1 IH]; intros h H Hnd.
  - simpl in *. apply chain_cons_inv in H as (-> & ep' & Hp' & H). simplify_eq.
    apply chain_cons_inv in H as (_ & e' & He' & H). simplify_eq.
    inversion_clear Hnd as [|?? Hni Hnd']. inversion_clear Hnd' as [|?? Hni' _].
    econstructor.
    { eapply list_lookup_insert_eq. rewrite length_insert. by eapply lookup_lt_Some. }
    rewrite next_set_next. apply chain_frame; [by apply chain_frame|set_solver].
  - simpl in *. apply chain_cons_inv in H as (-> & ej & Hj & H).
    inversion_clear Hnd as [|?? Hni Hnd'].
    econstructor; [|by apply IH].
    rewrite list_lookup_insert_ne by set_solver. by rewrite list_lookup_insert_ne by set_solver.
Qed.

(** *** Traversal *)

(** The entries of a list, with their indices. *)
Definition chain_entries st c : list (nat * E) :=
  omap (fun i => (fun e => (i, e)) <$> st !! i) c.

Fixpoint walk_entries {A R} (body : A -> Z -> E -> A + R) (l : list (nat * E)) (acc : A)
    : A + R :=
  match l with
  | [] => inl acc
  | (i, e) :: l' =>
      match body acc (Z.of_nat i) e with
      | inr r => inr r
      | inl acc' => walk_entries body l' acc'
      end
  end.

Lemma list_walk_chain {A R} (body : A -> Z -> E -> A + R) st h c fuel acc :
  chain st h c -> (length c < fuel)%nat ->
  list_walk fuel body st h acc = Ret (walk_entries body (chain_entries st c) acc).
Proof.
  intros H. revert fuel acc. induction H as [|i e c Hi Hc IH]; intros [|fuel] acc Hf;
    simpl in Hf; try lia; [done|].
  simpl. rewrite decide_False by lia. rewrite (rd_nat _ _ _ Hi). simpl. rewrite Hi. simpl.
  destruct (body acc (Z.of_nat i) e); [|done]. apply IH. lia.
Qed.

Lemma chain_entries_cons st i e c :
  st !! i = Some e -> chain_entries st (i :: c) = (i, e) :: chain_entries st c.
Proof. intros He. unfold chain_entries. simpl. by rewrite He. Qed.

Lemma chain_entries_elem st c i e :
  (i, e) ∈ chain_entries st c <-> i ∈ c /\ st !! i = Some e.
Proof.
  unfold chain_entries. rewrite list_elem_of_omap. split.
  - intros (j & Hj & Hs). apply fmap_Some in Hs as (e' & Hs & [= -> ->]). done.
  - intros [Hi He]. exists i. by rewrite He.
Qed.
End Chains.

(** ** Table updates *)

Section Updates.
Context {E : Type} `{!Slot E} `{!SlotLaws E}.
Context (bucket_of : E -> nat).
Context (bucket_next : forall z e, bucket_of (slot_set_next z e) = bucket_of e).
Implicit Types (st : list E) (bs : list Z) (cs : list (list nat)) (c : list nat) (e : E).

Lemma wf_table_free bs st cs b c i e :
  wf_table bucket_of bs st cs -> st !! i = Some e -> ~ used e -> cs !! b = Some c -> i ∉ c.
Proof. intros Hwf Hi Hu Hc Hin. destruct (wt_sound _ _ _ _ Hwf _ _ _ _ Hc Hin Hi). done. Qed.

(** An entry stored in a free slot and linked in front of its bucket. *)
Lemma wf_insert_head bs st cs b c h i e0 e :
  wf_table bucket_of bs st cs -> st !! i = Some e0 -> ~ used e0 -> used e ->
  bucket_of e = b -> bs !! b = Some h -> cs !! b = Some c -> slot_next e = h ->
  wf_table bucket_of (<[b := Z.of_nat i]> bs) (<[i := e]> st) (<[b := i :: c]> cs).
Proof.
  intros Hwf Hi Hfree Hu <- Hh Hc Hn. assert (Hlen := wt_length _ _ _ _ Hwf).
  assert (Hlt := lookup_lt_Some _ _ _ Hi). assert (Hltb := lookup_lt_Some _ _ _ Hh).
  split.
  - by rewrite !length_insert.
  - intros b' h' c' [(<- & <- & _)|[Hne Hb']]%list_lookup_insert_Some
      [(Hbb & <- & _)|[Hne' Hc']]%list_lookup_insert_Some; try done.
    + econstructor; [by apply list_lookup_insert_eq|]. rewrite Hn.
      apply chain_frame; [by eapply wt_chain|by eapply wf_table_free].
    + apply chain_frame; [by eapply wt_chain|by eapply wf_table_free].
  - intros b' c' j e' [(<- & <- & _)|[Hne Hc']]%list_lookup_insert_Some Hj
      [(<- & <- & _)|[Hij He']]%list_lookup_insert_Some; [done|..].
    + apply elem_of_cons in Hj as [?|Hj]; [done|]. by eapply wt_sound.
    + exfalso. by eapply wf_table_free.
    + by eapply wt_sound.
  - intros j e' [(<- & <- & _)|[Hij He']]%list_lookup_insert_Some Hu'.
    { eexists. split; [apply list_lookup_insert_eq; lia|left]. }
    destruct (wt_complete _ _ _ _ Hwf _ _ He' Hu') as (c' & Hc' & Hin).
    destruct (decide (bucket_of e = bucket_of e')) as [Heq|Hne].
    + exists (i :: c). rewrite <- Heq, list_lookup_insert_eq by lia.
      rewrite <- Heq in Hc'. simplify_eq. split; [done|by right].
    + exists c'. by rewrite list_lookup_insert_ne.
Qed.

(** The state of the links around a used entry [i] that [unlink] removes:
    [prev] is -1 when [i] heads its bucket and else its predecessor. *)
Definition unlinked bs st (b i : nat) e (prev : Z) : list Z * list E :=
  let st' := <[i := slot_set_lbid (-1) e]> st in
  if decide (prev = -1) then (<[b := slot_next e]> bs, st')
  else match st !! Z.to_nat prev with
       | Some ep => (bs, <[Z.to_nat prev := slot_set_next (slot_next e) ep]> st')
       | None => (bs, st')
       end.

Definition prev_of (l1 : list nat) : Z :=
  match last l1 with Some p => Z.of_nat p | None => -1 end.

(** Entry by entry, [st'] has the keys of [st] except that [i] is free. *)
Record same_keys_but (i : nat) st st' : Prop := {
  sk_free e : st' !! i = Some e -> ~ used e;
  sk_to j e : j <> i -> st !! j = Some e ->
    exists e', st' !! j = Some e' /\ slot_lbid e' = slot_lbid e /\ bucket_of e' = bucket_of e;
  sk_from j e' : j <> i -> st' !! j = Some e' ->
    exists e, st !! j = Some e /\ slot_lbid e' = slot_lbid e /\ bucket_of e' = bucket_of e;
}.

Lemma wf_relink bs st cs bs' st' b l1 i l2 :
  wf_table bucket_of bs st cs -> cs !! b = Some (l1 ++ i :: l2) ->
  length bs' = length bs -> (forall b', b <> b' -> bs' !! b' = bs !! b') ->
  (forall h c, chain st h c -> (forall j, j ∈ c -> j ∉ l1 ++ i :: l2) -> chain st' h c) ->
  (forall h, bs' !! b = Some h -> chain st' h (l1 ++ l2)) ->
  same_keys_but i st st' -> i ∉ l1 ++ l2 ->
  wf_table bucket_of bs' st' (<[b := l1 ++ l2]> cs).
Proof.
  intros Hwf Hc Hlen Hbs Hframe Hch Hsk Hni.
  assert (Hin : forall j e, j ∈ l1 ++ i :: l2 -> st !! j = Some e -> bucket_of e = b).
  { intros j e Hj He. by eapply (wt_sound _ _ _ _ Hwf). }
  split.
  - rewrite length_insert, Hlen. by apply (wt_length _ _ _ _ Hwf).
  - intros b' h c' Hb' [(<- & <- & _)|[Hne Hc']]%list_lookup_insert_Some; [by apply Hch|].
    rewrite Hbs in Hb' by done. apply Hframe; [by eapply (wt_chain _ _ _ _ Hwf)|].
    intros j Hj Hj'. destruct (chain_lookup st h c' j) as [e He];
      [by eapply (wt_chain _ _ _ _ Hwf)|done|].
    apply Hne. rewrite <- (Hin j e Hj' He). by eapply (wt_sound _ _ _ _ Hwf).
  - intros b' c' j e' Hc' Hj He'.
    assert (Hji : j <> i).
    { intros ->. apply list_lookup_insert_Some in Hc' as [(-> & <- & _)|[Hne Hc']]; [done|].
      destruct (lookup_lt_is_Some_2 bs b') as [h Hh];
        [rewrite <- (wt_length _ _ _ _ Hwf); by eapply lookup_lt_Some|].
      destruct (chain_lookup st h c' i) as [e He]; [by eapply (wt_chain _ _ _ _ Hwf)|done|].
      apply Hne. rewrite <- (Hin i e); [by eapply (wt_sound _ _ _ _ Hwf)|set_solver|done]. }
    destruct (sk_from _ _ _ Hsk _ _ Hji He') as (e & He & Hl & ->). unfold used. rewrite Hl.
    apply list_lookup_insert_Some in Hc' as [(<- & <- & _)|[Hne Hc']];
      eapply (wt_sound _ _ _ _ Hwf); eauto. set_solver.
  - intros j e' He' Hu. assert (Hji : j <> i).
    { intros ->. by apply (sk_free _ _ _ Hsk) in He'. }
    destruct (sk_from _ _ _ Hsk _ _ Hji He') as (e & He & Hl & ->).
    destruct (wt_complete _ _ _ _ Hwf _ _ He) as (c & Hc' & Hj); [by unfold used; rewrite <- Hl|].
    destruct (decide (b = bucket_of e)) as [->|Hne].
    + exists (l1 ++ l2). rewrite list_lookup_insert_eq by (by eapply lookup_lt_Some).
      simplify_eq. split; [done|]. set_solver.
    + exists c. by rewrite list_lookup_insert_ne.
Qed.

Lemma same_keys_free st i e : st !! i = Some e ->
  same_keys_but i st (<[i := slot_set_lbid (-1) e]> st).
Proof.
  intros He. assert (Hlt := lookup_lt_Some _ _ _ He). split.
  - intros e'. rewrite list_lookup_insert_eq by done. intros [= <-] Hu.
    apply Hu, lbid_set_lbid.
  - intros j e' Hne He'. exists e'. by rewrite list_lookup_insert_ne.
  - intros j e' Hne He'. exists e'. by rewrite list_lookup_insert_ne in He'.
Qed.

Lemma same_keys_next st st' i p ep z : same_keys_but i st st' -> p <> i ->
  st' !! p = Some ep -> same_keys_but i st (<[p := slot_set_next z ep]> st').
Proof.
  intros Hsk Hne Hp. assert (Hlt := lookup_lt_Some _ _ _ Hp). split.
  - intros e. rewrite list_lookup_insert_ne by done. apply (sk_free _ _ _ Hsk).
  - intros j e Hj He. destruct (sk_to _ _ _ Hsk _ _ Hj He) as (e' & He' & ? & ?).
    destruct (decide (p = j)) as [->|]; [|exists e'; by rewrite list_lookup_insert_ne].
    simplify_eq. eexists. rewrite list_lookup_insert_eq by done.
    by rewrite lbid_set_next, bucket_next.
  - intros j e Hj [(<- & <- & _)|[? He]]%list_lookup_insert_Some;
      [|by apply (sk_from _ _ _ Hsk)].
    rewrite lbid_set_next, bucket_next. by apply (sk_from _ _ _ Hsk).
Qed.

Lemma wf_unlink bs st cs b l1 i l2 e :
  wf_table bucket_of bs st cs -> cs !! b = Some (l1 ++ i :: l2) -> st !! i = Some e ->
  let '(bs', st') := unlinked bs st b i e (prev_of l1) in
  wf_table bucket_of bs' st' (<[b := l1 ++ l2]> cs).
Proof.
  intros Hwf Hc Hi. assert (Hlen := wt_length _ _ _ _ Hwf).
  destruct (lookup_lt_is_Some_2 bs b) as [h Hh]; [rewrite <- Hlen; by eapply lookup_lt_Some|].
  assert (Hch := wt_chain _ _ _ _ Hwf _ _ _ Hh Hc). assert (Hnd := chain_NoDup _ _ _ Hch).
  apply NoDup_app in Hnd as (Hnd1 & Hnd2 & Hnd3).
  apply NoDup_cons in Hnd3 as [Hil2 Hnd3].
  assert (Hni : i ∉ l1 ++ l2) by set_solver.
  unfold unlinked, prev_of. cbv zeta. destruct (last l1) as [p|] eqn:Hlast.
  - rewrite decide_False by lia. rewrite Nat2Z.id.
    apply last_Some in Hlast as [l1' ->]. rewrite <- !app_assoc in *. simpl in *.
    destruct (chain_lookup _ _ _ p Hch) as [ep Hp]; [set_solver|]. rewrite Hp.
    replace (l1' ++ p :: l2) with ((l1' ++ [p]) ++ l2) by (by rewrite <- app_assoc).
    eapply wf_relink; rewrite <- ?app_assoc; simpl; eauto.
    + intros h' c' Hc' Hd. apply chain_frame; [apply chain_frame; [done|]|]; set_solver.
    + intros h' Hh'. simplify_eq. by apply chain_unlink.
    + apply same_keys_next; [by apply same_keys_free|set_solver|].
      rewrite list_lookup_insert_ne; [done|set_solver].
  - rewrite decide_True by done. apply last_None in Hlast as ->. simpl in *.
    apply (wf_relink bs st _ _ _ _ [] i); eauto.
    + by rewrite length_insert.
    + intros. by rewrite list_lookup_insert_ne.
    + intros h' c' Hc' Hd. apply chain_frame; [done|]. set_solver.
    + intros h'. rewrite list_lookup_insert_eq by (by eapply lookup_lt_Some). intros [= <-].
      apply chain_cons_inv in Hch as (_ & e' & He' & Hch). simplify_eq. by apply chain_frame.
    + by apply same_keys_free.
Qed.

(** Overwriting the payload of an entry leaves the table alone. *)
Lemma wf_payload bs st cs i e e' :
  wf_table bucket_of bs st cs -> st !! i = Some e ->
  slot_lbid e' = slot_lbid e -> slot_next e' = slot_next e -> bucket_of e' = bucket_of e ->
  wf_table bucket_of bs (<[i := e']> st) cs.
Proof.
  intros Hwf Hi Hl Hn Hb. split.
  - by apply (wt_length _ _ _ _ Hwf).
  - intros b h c Hh Hc. eapply chain_payload; eauto. by eapply (wt_chain _ _ _ _ Hwf).
  - intros b c j e1 Hc Hj [(<- & <- & _)|[? He]]%list_lookup_insert_Some;
      [|by eapply (wt_sound _ _ _ _ Hwf)].
    unfold used. rewrite Hl, Hb. by eapply (wt_sound _ _ _ _ Hwf).
  - intros j e1 [(<- & <- & _)|[? He]]%list_lookup_insert_Some Hu;
      [|by eapply (wt_complete _ _ _ _ Hwf)].
    rewrite Hb. eapply (wt_complete _ _ _ _ Hwf); eauto. unfold used in *. by rewrite <- Hl.
Qed.
End Updates.

(** ** Counting and searching *)

Section Search.
Context {E : Type} `{!Slot E} `{!SlotLaws E}.
Implicit Types (st : list E) (c : list nat) (e : E).

Definition used_nat e : nat := if decide (used e) then 1 else 0.

Lemma used_count_insert st i e0 e :
  st !! i = Some e0 ->
  (used_count (<[i := e]> st) + used_nat e0 = used_count st + used_nat e)%nat.
Proof. apply (count_insert used). Qed.

Lemma used_count_le st : (used_count st <= length st)%nat.
Proof. apply length_filter. Qed.

Lemma used_count_zero st :
  (forall i e, st !! i = Some e -> ~ used e) -> used_count st = 0%nat.
Proof.
  intros H. unfold used_count. induction st as [|e st IH]; [done|].
  rewrite filter_cons, decide_False by (by apply (H 0%nat)). apply IH.
  intros i. apply (H (S i)).
Qed.

Lemma used_count_full st :
  used_count st = length st -> forall i e, st !! i = Some e -> used e.
Proof.
  unfold used_count. induction st as [|e st IH]; [by intros _ i e' ?|].
  rewrite filter_cons. pose proof (used_count_le st) as Hle. unfold used_count in Hle.
  case_decide; simpl; [|lia]. intros Hl [|i] e'; simpl; [by intros [= <-]|].
  apply IH. lia.
Qed.

(** Below the number of used entries there is a first free one. *)
Lemma exists_free st (k : nat) :
  (used_count st < length st)%nat ->
  (forall i e, (i < k)%nat -> st !! i = Some e -> used e) ->
  exists i e, st !! i = Some e /\ ~ used e /\
    (forall j e', (j < i)%nat -> st !! j = Some e' -> used e') /\ (k <= i)%nat.
Proof.
  intros Hc Hk.
  assert (Hex : exists i e, st !! i = Some e /\ ~ used e /\
    (forall j e', (j < i)%nat -> st !! j = Some e' -> used e')).
  { clear Hk. induction st as [|e st IH]; [simpl in Hc; lia|].
    destruct (decide (used e)) as [Hu|Hu].
    - destruct IH as (i & e' & Hi & Hn & Hb).
      { unfold used_count in *. rewrite filter_cons, decide_True in Hc by done. simpl in Hc. lia. }
      exists (S i), e'. split_and!; [done..|].
      intros [|j] e'' Hj; simpl; [by intros [= <-]|]. apply Hb. lia.
    - exists 0%nat, e. split_and!; [done..|]. intros. lia. }
  destruct Hex as (i & e & Hi & Hn & Hb). exists i, e. split_and!; try done.
  destruct (decide (k <= i)%nat); [done|]. exfalso. eapply Hn, Hk; [|done]. lia.
Qed.

Lemma find_free_spec fuel st (k i : nat) e :
  st !! i = Some e -> ~ used e -> (forall j e', (j < i)%nat -> st !! j = Some e' -> used e') ->
  (k <= i)%nat -> (i - k < fuel)%nat ->
  find_free fuel st (Z.of_nat k) = Ret (Z.of_nat i).
Proof.
  intros Hi Hn Hb. revert k. induction fuel as [|fuel IH]; intros k Hki Hf; [lia|].
  assert (Hlt := lookup_lt_Some _ _ _ Hi).
  destruct (lookup_lt_is_Some_2 st k) as [ek Hk]; [lia|].
  simpl. rewrite (rd_nat _ _ _ Hk). simpl.
  destruct (decide (slot_lbid ek = -1)) as [Hfree|Hu].
  - destruct (decide (k = i)) as [->|Hne]; [done|].
    exfalso. eapply (Hb k); [lia|done|done].
  - assert (k <> i) by (intros ->; simplify_eq; by apply Hn).
    replace (Z.of_nat k + 1) with (Z.of_nat (S k)) by lia. apply IH; lia.
Qed.

(** [getIndex] of both tables: the first entry of the list that satisfies
    [p], and its predecessor on the list. *)
Definition find_body (p : E -> bool) (prev index : Z) (e : E) : Z + (Z * Z) :=
  if p e then inr (index, prev) else inl index.

Definition prev_from (prev0 : Z) (l1 : list nat) : Z :=
  match last l1 with Some q => Z.of_nat q | None => prev0 end.

Variant find_result (p : E -> bool) st c (prev0 : Z) : Z + (Z * Z) -> Prop :=
  | Found l1 i l2 e :
      c = l1 ++ i :: l2 -> st !! i = Some e -> p e = true ->
      (forall j ej, j ∈ l1 -> st !! j = Some ej -> p ej = false) ->
      find_result p st c prev0 (inr (Z.of_nat i, prev_from prev0 l1))
  | NotFound z :
      (forall j ej, j ∈ c -> st !! j = Some ej -> p ej = false) ->
      find_result p st c prev0 (inl z).

Lemma walk_find p st c prev0 :
  (forall i, i ∈ c -> exists e, st !! i = Some e) ->
  find_result p st c prev0 (walk_entries (find_body p) (chain_entries st c) prev0).
Proof.
  revert prev0. induction c as [|i c IH]; intros prev0 Hc.
  - constructor. by intros ?? ?%elem_of_nil.
  - destruct (Hc i) as [e He]; [left|].
    rewrite (chain_entries_cons _ _ _ _ He). cbn [walk_entries].
    unfold find_body at 1. destruct (p e) eqn:Hp.
    + apply (Found p st (i :: c) prev0 [] i c e); [done..|]. by intros ?? ?%elem_of_nil.
    + assert (Hc' : forall j, j ∈ c -> exists e, st !! j = Some e)
        by (intros j Hj; apply Hc; by right).
      destruct (IH (Z.of_nat i) Hc') as [l1 j l2 ej -> Hj Hpj Hb|z Hb].
      * replace (prev_from (Z.of_nat i) l1) with (prev_from prev0 (i :: l1)).
        { apply (Found p st _ prev0 (i :: l1) j l2 ej); try done.
          intros k ek [->|Hk]%elem_of_cons Hek; [by simplify_eq|by eapply Hb]. }
        unfold prev_from. rewrite last_cons. by destruct (last l1).
      * constructor. intros k ek [->|Hk]%elem_of_cons Hek; [by simplify_eq|by eapply Hb].
Qed.

(** The loops that return at the first entry with a property. *)
Lemma walk_first {R} (p : E -> bool) (g : E -> R) (l : list (nat * E)) :
  match walk_entries (fun (_ : unit) _ e => if p e then inr (g e) else inl tt) l tt with
  | inr r => exists i e, (i, e) ∈ l /\ p e = true /\ r = g e
  | inl _ => forall i e, (i, e) ∈ l -> p e = false
  end.
Proof.
  induction l as [|[i e] l IH]; cbn [walk_entries]; [by intros ?? ?%elem_of_nil|].
  destruct (p e) eqn:Hp; [exists i, e; split; [left|done]|].
  destruct (walk_entries _ l tt) as [|r].
  - intros j ej [[= -> ->]|Hin]%elem_of_cons; [done|by eapply IH].
  - destruct IH as (j & ej & Hin & Hpe & ->). exists j, ej. split; [by right|done].
Qed.

(** Used entries with the same key are the same entry. *)
Definition unique_keys {K} (key : E -> K) st : Prop :=
  forall i j ei ej, st !! i = Some ei -> st !! j = Some ej -> used ei -> used ej ->
    key ei = key ej -> i = j.

(** [e] is stored in some used slot of [st]. *)
Definition stored st e : Prop := exists i : nat, st !! i = Some e /\ used e.

Lemma stored_cons e st e' : stored st e' -> stored (e :: st) e'.
Proof. intros (i & Hi & Hu). by exists (S i). Qed.

Lemma stored_elem st e : stored st e <-> e ∈ filter used st.
Proof.
  rewrite list_elem_of_filter, list_elem_of_lookup. unfold stored. naive_solver.
Qed.
End Search.

(** ** The table as a finite map

    [key] and [val] split an entry's payload; the free entries and the links
    are not part of the abstract value. *)

Section Contents.
Context {E : Type} `{!Slot E} `{!SlotLaws E}.
Context {K V : Type} `{!EqDecision K} `{!Countable K}.
Context (key : E -> K) (val : E -> V).
Implicit Types (st : list E) (e : E) (k : K) (v : V).

Definition contents st : gmap K V :=
  list_to_map ((fun e => (key e, val e)) <$> filter used st).

Lemma unique_keys_cons e st : unique_keys key (e :: st) ->
  unique_keys key st /\ (used e -> forall e', stored st e' -> key e' <> key e).
Proof.
  intros H. split.
  - intros i j ei ej Hi Hj Hui Huj Hk. by injection (H (S i) (S j) ei ej Hi Hj Hui Huj Hk).
  - intros He e' (i & Hi & Hui) Hk.
    by specialize (H 0%nat (S i) e e' eq_refl Hi He Hui (eq_sym Hk)).
Qed.

Lemma unique_keys_NoDup st : unique_keys key st -> NoDup (key <$> filter used st).
Proof.
  induction st as [|e st IH]; intros Hu; [constructor|].
  assert (Hu' : unique_keys key st).
  { intros i j ei ej Hi Hj Hui Huj Hk. by injection (Hu (S i) (S j) ei ej Hi Hj Hui Huj Hk). }
  rewrite filter_cons. case_decide as He; [|by apply IH].
  rewrite fmap_cons. constructor; [|by apply IH].
  intros (e' & Hk & (i & Hi & Hui)%stored_elem)%list_elem_of_fmap.
  by specialize (Hu 0%nat (S i) e e' eq_refl Hi He Hui Hk).
Qed.

Lemma contents_Some st k v : unique_keys key st ->
  contents st !! k = Some v <-> exists e, stored st e /\ key e = k /\ val e = v.
Proof.
  intros Hu. unfold contents. rewrite <- elem_of_list_to_map.
  - rewrite list_elem_of_fmap. setoid_rewrite stored_elem. naive_solver.
  - rewrite <- list_fmap_compose. by apply unique_keys_NoDup.
Qed.

Lemma contents_None st k : unique_keys key st ->
  contents st !! k = None <-> forall e, stored st e -> key e <> k.
Proof.
  intros Hu. rewrite eq_None_not_Some. unfold is_Some. setoid_rewrite contents_Some; [|done].
  naive_solver.
Qed.

Lemma unique_stored st e e' : unique_keys key st ->
  stored st e -> stored st e' -> key e = key e' -> e = e'.
Proof.
  intros Hu (i & Hi & Hui) (j & Hj & Huj) Hk.
  assert (i = j) as -> by by eapply Hu. congruence.
Qed.

(** A free slot takes an entry with a new key. *)
Lemma unique_insert st i e0 e : unique_keys key st -> st !! i = Some e0 -> ~ used e0 ->
  contents st !! key e = None -> unique_keys key (<[i := e]> st).
Proof.
  intros Hu Hi Hf Hk. rewrite contents_None in Hk by done.
  intros j1 j2 e1 e2 [(<- & <- & _)|[Hn1 H1]]%list_lookup_insert_Some
    [(Hj & <- & _)|[Hn2 H2]]%list_lookup_insert_Some Hu1 Hu2 Heq; try done.
  - exfalso. by apply (Hk e2); [exists j2|].
  - exfalso. by apply (Hk e1); [exists j1|].
  - by eapply Hu.
Qed.

Lemma stored_insert_free st i e0 e e' : st !! i = Some e0 -> ~ used e0 -> used e ->
  stored (<[i := e]> st) e' <-> e' = e \/ stored st e'.
Proof.
  intros Hi Hf He. assert (Hlt := lookup_lt_Some _ _ _ Hi). split.
  - intros (j & [(<- & <- & _)|[Hn Hj]]%list_lookup_insert_Some & Hu'); [by left|].
    right. by exists j.
  - intros [->|(j & Hj & Hu')].
    + exists i. by rewrite list_lookup_insert_eq.
    + exists j. rewrite list_lookup_insert_ne; [done|]. intros ->. by simplify_eq.
Qed.

Lemma contents_insert st i e0 e : unique_keys key st -> st !! i = Some e0 -> ~ used e0 ->
  used e -> contents st !! key e = None ->
  contents (<[i := e]> st) = <[key e := val e]> (contents st).
Proof.
  intros Hu Hi Hf He Hk. assert (Hu' := unique_insert _ _ _ _ Hu Hi Hf Hk).
  rewrite contents_None in Hk by done.
  apply map_eq. intros k. apply option_eq. intros v.
  rewrite contents_Some, lookup_insert_Some, contents_Some by done.
  setoid_rewrite stored_insert_free; [|done..]. naive_solver.
Qed.

(** A used slot is freed. *)
Lemma stored_free st i e e0 e' : unique_keys key st -> st !! i = Some e -> used e ->
  ~ used e0 -> stored (<[i := e0]> st) e' <-> stored st e' /\ key e' <> key e.
Proof.
  intros Hu Hi He Hf. split.
  - intros (j & [(<- & <- & _)|[Hn Hj]]%list_lookup_insert_Some & Hu'); [done|].
    split; [by exists j|]. intros Hk. by apply Hn; eapply Hu.
  - intros [(j & Hj & Hu') Hk]. exists j. rewrite list_lookup_insert_ne; [done|].
    intros ->. by simplify_eq.
Qed.

Lemma unique_free st i e0 : unique_keys key st -> ~ used e0 ->
  unique_keys key (<[i := e0]> st).
Proof.
  intros Hu Hf j1 j2 e1 e2 [(<- & <- & _)|[Hn1 H1]]%list_lookup_insert_Some
    [(Hj & <- & _)|[Hn2 H2]]%list_lookup_insert_Some; try done. by eapply Hu.
Qed.

Lemma contents_free st i e e0 : unique_keys key st -> st !! i = Some e -> used e ->
  ~ used e0 -> contents (<[i := e0]> st) = delete (key e) (contents st).
Proof.
  intros Hu Hi He Hf. assert (Hu' := unique_free _ i e0 Hu Hf).
  apply map_eq. intros k. apply option_eq. intros v.
  rewrite contents_Some, lookup_delete_Some, contents_Some by done.
  setoid_rewrite stored_free; [|done..]. naive_solver.
Qed.

(** An entry is overwritten by one with the same key. *)
Lemma unique_update st i e e' : unique_keys key st -> st !! i = Some e ->
  (used e' -> used e) -> key e' = key e -> unique_keys key (<[i := e']> st).
Proof.
  intros Hu Hi He Hk j1 j2 e1 e2 [(<- & <- & _)|[Hn1 H1]]%list_lookup_insert_Some
    [(Hj & <- & _)|[Hn2 H2]]%list_lookup_insert_Some Hu1 Hu2 Heq; try done.
  - eapply (Hu i j2 e); eauto. congruence.
  - subst j2. eapply (Hu j1 i); eauto. congruence.
  - by eapply Hu.
Qed.

Lemma contents_update st i e e' : unique_keys key st -> st !! i = Some e ->
  used e -> used e' -> key e' = key e ->
  contents (<[i := e']> st) = <[key e := val e']> (contents st).
Proof.
  intros Hu Hi He He' Hk. assert (Hlt := lookup_lt_Some _ _ _ Hi).
  assert (Hu' : unique_keys key (<[i := e']> st)) by (eapply unique_update; eauto).
  apply map_eq. intros k. apply option_eq. intros v.
  rewrite contents_Some, lookup_insert_Some, contents_Some by done. split.
  - intros (x & (j & [(<- & <- & _)|[Hn Hj]]%list_lookup_insert_Some & Hx) & <- & <-);
      [by left|]. right. split; [intros ?; by apply Hn; eapply Hu|]. exists x. split; [|done].
    by exists j.
  - intros [[<- <-]|[Hn (x & (j & Hj & Hx) & <- & <-)]].
    + exists e'. split; [|done]. exists i. by rewrite list_lookup_insert_eq.
    + exists x. split; [|done]. exists j. rewrite list_lookup_insert_ne; [done|].
      intros ->. by simplify_eq.
Qed.

(** A link changes. *)
Lemma contents_same st i e e' : st !! i = Some e -> (used e' <-> used e) ->
  key e' = key e -> val e' = val e -> contents (<[i := e']> st) = contents st.
Proof.
  intros Hi Hu Hk Hv. unfold contents. f_equal.
  rewrite (insert_take_drop st i e') by (by eapply lookup_lt_Some).
  rewrite <- (take_drop_middle st i e Hi) at 3.
  rewrite !filter_app, !filter_cons, !fmap_app. f_equal.
  destruct (decide (used e)) as [H1|H1], (decide (used e')) as [H2|H2]; try tauto.
  rewrite !fmap_cons. by rewrite Hk, Hv.
Qed.

Lemma contents_cons e st : used e -> contents (e :: st) = <[key e := val e]> (contents st).
Proof. intros He. unfold contents. rewrite filter_cons, decide_True by done. done. Qed.

Lemma contents_empty st : (forall e, e ∈ st -> ~ used e) -> contents st = ∅.
Proof.
  intros H. unfold contents. replace (filter used st) with (@nil E); [done|].
  symmetry. apply elem_of_nil_inv. intros e. rewrite list_elem_of_filter. naive_solver.
Qed.
End Contents.

(** ** Finding a key through its bucket *)

Section Find.
Context {E : Type} `{!Slot E} `{!SlotLaws E}.
Context (bucket_of : E -> nat).
Implicit Types (st : list E) (bs : list Z) (cs : list (list nat)) (e : E).

(** What [getIndex] finds in bucket [b]: an entry on the bucket's list and
    its predecessor, or nothing, and then no used entry satisfies [p]. *)
Variant find_outcome (p : E -> bool) st cs (b : nat) : Z + (Z * Z) -> Prop :=
  | FoundAt l1 i l2 e :
      cs !! b = Some (l1 ++ i :: l2) -> st !! i = Some e -> used e -> p e = true ->
      find_outcome p st cs b (inr (Z.of_nat i, prev_of l1))
  | FoundNone z :
      (forall e, stored st e -> p e = false) ->
      find_outcome p st cs b (inl z).

Lemma table_find bs st cs p b h :
  wf_table bucket_of bs st cs -> bs !! b = Some h ->
  (forall e, p e = true -> bucket_of e = b) ->
  exists r, list_walk (S (length st)) (find_body p) st h (-1) = Ret r /\
    find_outcome p st cs b r.
Proof.
  intros Hwf Hh Hp.
  destruct (lookup_lt_is_Some_2 cs b) as [c Hc];
    [rewrite (wt_length _ _ _ _ Hwf); by eapply lookup_lt_Some|].
  assert (Hch := wt_chain _ _ _ _ Hwf _ _ _ Hh Hc).
  eexists. split; [apply (list_walk_chain _ _ _ c); [done|]|].
  { pose proof (chain_length _ _ _ Hch). lia. }
  destruct (walk_find p st c (-1)) as [l1 i l2 e -> Hi Hpe Hb|z Hb].
  { intros i Hi. by eapply chain_lookup. }
  - eapply FoundAt; eauto. apply (wt_sound _ _ _ _ Hwf _ _ i e Hc); [set_solver|done].
  - constructor. intros e (i & Hi & Hu).
    destruct (wt_complete _ _ _ _ Hwf _ _ Hi Hu) as (c' & Hc' & Hin).
    destruct (p e) eqn:Hpe; [|done]. rewrite (Hp _ Hpe) in Hc'. simplify_eq.
    by rewrite (Hb _ _ Hin Hi) in Hpe.
Qed.

(** The predecessor [getIndex] returns is another entry of the list. *)
Lemma prev_of_spec bs st cs b l1 i l2 :
  wf_table bucket_of bs st cs -> cs !! b = Some (l1 ++ i :: l2) ->
  prev_of l1 = -1 \/ exists p : nat, prev_of l1 = Z.of_nat p /\ p <> i /\ is_Some (st !! p).
Proof.
  intros Hcs Hc. destruct (lookup_lt_is_Some_2 bs b) as [h Hh];
    [rewrite <- (wt_length _ _ _ _ Hcs); by eapply lookup_lt_Some|].
  assert (Hch := wt_chain _ _ _ _ Hcs _ _ _ Hh Hc).
  assert (Hnd := chain_NoDup _ _ _ Hch). unfold prev_of.
  destruct (last l1) as [p|] eqn:Hlast; [right|by left]. exists p.
  apply last_Some in Hlast as [l1' ->]. rewrite <- app_assoc in *. simpl in *.
  split_and!; [done| |apply (chain_lookup _ _ _ p Hch); set_solver].
  intros ->. apply NoDup_app in Hnd as (_ & _ & Hnd). inversion Hnd. set_solver.
Qed.

Lemma prev_of_ne bs st cs b l1 i l2 :
  wf_table bucket_of bs st cs -> cs !! b = Some (l1 ++ i :: l2) ->
  prev_of l1 <> -1 -> Z.to_nat (prev_of l1) <> i.
Proof.
  intros Hcs Hc Hne. destruct (prev_of_spec _ _ _ _ _ _ _ Hcs Hc) as [?|(p & -> & Hp & _)];
    [done|]. by rewrite Nat2Z.id.
Qed.

(** An empty table. *)
Lemma wf_table_empty bs st :
  (forall b h, bs !! b = Some h -> h = -1) -> (forall e, e ∈ st -> ~ used e) ->
  wf_table bucket_of bs st (replicate (length bs) []).
Proof.
  intros Hb Hs. split.
  - apply length_replicate.
  - intros b h c Hh [-> _]%lookup_replicate. rewrite (Hb _ _ Hh). constructor.
  - intros b c i e [-> _]%lookup_replicate ?%elem_of_nil. done.
  - intros i e Hi%list_elem_of_lookup_2 Hu. by destruct (Hs _ Hi).
Qed.
End Find.

#[global] Arguments list_walk : simpl never.
#[global] Arguments find_free : simpl never.
