(* ===== verification/BrmTypes.v ===== *)
(** * Shared BRM types: src/versioning/BRM/logicalpartition.{h,cpp}, brmtypes.{h,cpp}

    [DBROOTS_struct] (the DBRoots that hold the replicas of an object),
    [FBO_struct] (one file block offset per replica), [LogicalPartition],
    [LBIDRange] and [VBRange], with their operations and the layouts they are
    sent in. *)
From Stdlib Require Import ZArith Lia.
From S2P Require Import Prelude Bytes.

Local Open Scope Z_scope.

(** [MAX_DATA_REPLICATESIZE], oam/oamcpp/liboam.h. *)
Definition MAX_DATA_REPLICATESIZE : nat := 4.

(** ** DBROOTS_struct *)

Record DBROOTS_struct := mkRoots { dbRoots : list Z }.

(** The default constructor and the one from a packed [uint64_t]. *)
Definition DBROOTS_zero : DBROOTS_struct := mkRoots [0; 0; 0; 0].

Definition DBROOTS_of_uint64 (dbRoot : Z) : DBROOTS_struct :=
  mkRoots
    [ Z.land dbRoot 0xFFFF;
      Z.land (Z.shiftr dbRoot 16) 0xFFFF;
      Z.land (Z.shiftr dbRoot 32) 0xFFFF;
      Z.land (Z.shiftr dbRoot 48) 0xFFFF ].

(** [a << n] on [uint64_t]: undefined unless [n < 64]. *)
Definition shl64 (a n : Z) : res Z :=
  if decide (0 <= n < 64) then Ret (u64 (Z.shiftl a n)) else UB OutOfBounds.

(** [(uint64_t)r3<<48 + (uint64_t)r2<<32 + (uint64_t)r1<<16 + (uint64_t)r0]:
    the additions bind tighter than the shifts. *)
Definition getUintVal (d : DBROOTS_struct) : res Z :=
  r0 ← rd (dbRoots d) 0; r1 ← rd (dbRoots d) 1;
  r2 ← rd (dbRoots d) 2; r3 ← rd (dbRoots d) 3;
  a ← shl64 r3 (48 + r2);
  b ← shl64 a (32 + r1);
  shl64 b (16 + r0).

Definition roots_get (d : DBROOTS_struct) (i : Z) : res Z := rd (dbRoots d) i.
(** Assignment through [operator[]]; the element is a [uint16_t]. *)
Definition roots_set (d : DBROOTS_struct) (i v : Z) : res DBROOTS_struct :=
  _ ← rd (dbRoots d) i; Ret (mkRoots (wr (dbRoots d) i (u16 v))).

(** [size()]: the number of DBRoots before the first 0. *)
Fixpoint prefix_size (l : list Z) : Z :=
  match l with
  | [] => 0
  | x :: l' => if decide (x = 0) then 0 else 1 + prefix_size l'
  end.
Definition roots_size (d : DBROOTS_struct) : Z := prefix_size (dbRoots d).

(** [getDbrIndex]: the position of [dbr] before the first 0, or -1. *)
Fixpoint dbr_index_loop (dbr : Z) (size : Z) (l : list Z) : Z :=
  match l with
  | [] => -1
  | x :: l' =>
      if decide (x = 0) then -1
      else if decide (dbr = x) then size
      else dbr_index_loop dbr (size + 1) l'
  end.
Definition getDbrIndex (d : DBROOTS_struct) (dbr : Z) : Z :=
  if decide (dbr = 0) then -1 else dbr_index_loop dbr 0 (dbRoots d).

(** The inner loop of [remove]: [l] is the array from position [n] on.  Each
    element is overwritten by its successor until the successor is 0 or the
    array ends, and the last one reached becomes 0. *)
Fixpoint shift_out (l : list Z) : list Z :=
  match l with
  | [] => []
  | x :: l' =>
      match l' with
      | [] => [0]
      | y :: _ => if decide (y = 0) then 0 :: l' else y :: shift_out l'
      end
  end.

Fixpoint remove_loop (dbr : Z) (n : Z) (l : list Z) : list Z * Z :=
  match l with
  | [] => ([], -1)
  | x :: l' =>
      if decide (x = 0) then (l, -1)
      else if decide (x = dbr) then (shift_out l, n)
      else let '(l'', r) := remove_loop dbr (n + 1) l' in (x :: l'', r)
  end.

Definition roots_remove (d : DBROOTS_struct) (dbr : Z) : DBROOTS_struct * Z :=
  let '(l, r) := remove_loop dbr 0 (dbRoots d) in (mkRoots l, r).

(** The comparison operators look at the master DBRoot only. *)
Definition roots_master (d : DBROOTS_struct) : Z := default 0 (dbRoots d !! 0%nat).
Definition roots_ltb (a b : DBROOTS_struct) : bool := roots_master a <? roots_master b.
Definition roots_eqb (a b : DBROOTS_struct) : bool := bool_decide (dbRoots a = dbRoots b).

Definition roots_bytes (d : DBROOTS_struct) : list Z := dbRoots d ≫= le_bytes 2.
Definition get_roots : reader DBROOTS_struct :=
  l ← get_list MAX_DATA_REPLICATESIZE get_u16; mret (mkRoots l).

Definition roots_wf (d : DBROOTS_struct) : Prop :=
  length (dbRoots d) = MAX_DATA_REPLICATESIZE /\ Forall (fun x => 0 <= x < 2 ^ 16) (dbRoots d).

(** ** FBO_struct *)

Record FBO_struct := mkFbo { fbos : list Z }.

Definition FBO_zero : FBO_struct := mkFbo [0; 0; 0; 0].
Definition FBO_of (fbo : Z) : FBO_struct := mkFbo [u32 fbo; u32 fbo; u32 fbo; u32 fbo].
Definition fbo_get (f : FBO_struct) (i : Z) : res Z := rd (fbos f) i.
Definition fbo_set (f : FBO_struct) (i v : Z) : res FBO_struct :=
  _ ← rd (fbos f) i; Ret (mkFbo (wr (fbos f) i (u32 v))).
(** [remove(i)]: returns the offset taken out. *)
Definition fbo_remove (f : FBO_struct) (i : Z) : res (FBO_struct * Z) :=
  fbo ← rd (fbos f) i;
  Ret (mkFbo (take (Z.to_nat i) (fbos f) ++ shift_out (drop (Z.to_nat i) (fbos f))), s32 fbo).

Definition fbo_bytes (f : FBO_struct) : list Z := fbos f ≫= le_bytes 4.
Definition get_fbo : reader FBO_struct :=
  l ← get_list MAX_DATA_REPLICATESIZE get_u32; mret (mkFbo l).

Definition fbo_wf (f : FBO_struct) : Prop :=
  length (fbos f) = MAX_DATA_REPLICATESIZE /\ Forall (fun x => 0 <= x < 2 ^ 32) (fbos f).

#[global] Instance DBROOTS_eq_dec : EqDecision DBROOTS_struct.
Proof. solve_decision. Defined.
#[global] Instance FBO_eq_dec : EqDecision FBO_struct.
Proof. solve_decision. Defined.

(** ** LogicalPartition *)

Record LogicalPartition := mkLP { lp_dbRoot : DBROOTS_struct; lp_pp : Z; lp_seg : Z }.

Definition lp_ltb (a b : LogicalPartition) : bool :=
  (lp_pp a <? lp_pp b)
  || ((lp_pp a =? lp_pp b) && (lp_seg a <? lp_seg b))
  || ((lp_pp a =? lp_pp b) && (lp_seg a =? lp_seg b) && roots_ltb (lp_dbRoot a) (lp_dbRoot b)).

Definition lp_bytes (a : LogicalPartition) : list Z :=
  roots_bytes (lp_dbRoot a) ++ le_bytes 4 (lp_pp a) ++ le_bytes 2 (lp_seg a).
Definition get_lp : reader LogicalPartition :=
  d ← get_roots; p ← get_u32; s ← get_u16; mret (mkLP d p s).

(** ** LBIDRange and VBRange *)

Record LBIDRange := mkRange { r_start : Z; r_size : Z }.

Definition RANGE_V2_MAGIC : Z := 0x80000000ffff0000.

Definition LBIDRange_serialize (r : LBIDRange) : list Z :=
  le_bytes 8 RANGE_V2_MAGIC ++ le_bytes 8 (r_start r) ++ le_bytes 4 (r_size r).

(** Version 1 packed two 32-bit numbers into the first word. *)
Definition LBIDRange_deserialize : reader LBIDRange :=
  tmp ← get_u64;
  if decide (tmp = RANGE_V2_MAGIC) then
    start ← get_u64; size ← get_u32; mret (mkRange (s64 start) size)
  else
    mret (mkRange (Z.land tmp 0x00000000ffffffff)
                  (u32 (Z.shiftr (Z.land tmp 0xffffffff00000000) 32))).

Record VBRange := mkVBRange { vr_vbOID : Z; vr_vbFBO : Z; vr_size : Z }.

Definition VBRange_serialize (v : VBRange) : list Z :=
  le_bytes 4 (vr_vbOID v) ++ le_bytes 4 (vr_vbFBO v) ++ le_bytes 4 (vr_size v).
Definition VBRange_deserialize : reader VBRange :=
  oid ← get_u32; fbo ← get_u32; size ← get_u32; mret (mkVBRange (s32 oid) fbo size).

#[global] Instance LBIDRange_eq_dec : EqDecision LBIDRange.
Proof. solve_decision. Defined.
#[global] Instance VBRange_eq_dec : EqDecision VBRange.
Proof. solve_decision. Defined.

(** ** Results *)

Lemma codec_u16 : codec (le_bytes 2) get_u16 (fun x => 0 <= x < 2 ^ 16).
Proof. intros x rest H. rewrite get_u16_le. by rewrite u16_id. Qed.
Lemma codec_u32 : codec (le_bytes 4) get_u32 (fun x => 0 <= x < 2 ^ 32).
Proof. intros x rest H. rewrite get_u32_le. by rewrite u32_id. Qed.

Lemma roots_codec : codec roots_bytes get_roots roots_wf.
Proof.
  intros [l] rest [Hlen Hall]. unfold get_roots, mbind, reader_bind, roots_bytes.
  cbn [dbRoots] in *. rewrite <- Hlen. by rewrite (codec_list _ _ _ _ _ codec_u16 Hall).
Qed.
Lemma fbo_codec : codec fbo_bytes get_fbo fbo_wf.
Proof.
  intros [l] rest [Hlen Hall]. unfold get_fbo, mbind, reader_bind, fbo_bytes.
  cbn [fbos] in *. rewrite <- Hlen. by rewrite (codec_list _ _ _ _ _ codec_u32 Hall).
Qed.

Lemma lp_codec :
  codec lp_bytes get_lp
    (fun a => roots_wf (lp_dbRoot a) /\ 0 <= lp_pp a < 2 ^ 32 /\ 0 <= lp_seg a < 2 ^ 16).
Proof.
  intros [d p s] rest (Hd & Hp & Hs). unfold get_lp, lp_bytes, mbind, reader_bind.
  cbn [lp_dbRoot lp_pp lp_seg] in *. rewrite <- !app_assoc, (roots_codec _ _ Hd). autorewrite with brm.
  by rewrite u32_id, u16_id.
Qed.

(** What [LBIDRange::serialize] writes, [deserialize] reads back; the magic
    word keeps the two versions of the format apart. *)
Lemma LBIDRange_codec :
  codec LBIDRange_serialize LBIDRange_deserialize
    (fun r => - 2 ^ 63 <= r_start r < 2 ^ 63 /\ 0 <= r_size r < 2 ^ 32).
Proof.
  intros [st sz] rest [Hst Hsz].
  unfold LBIDRange_deserialize, LBIDRange_serialize, mbind, reader_bind.
  cbn [r_start r_size] in *.
  rewrite <- !app_assoc, get_u64_le, decide_True by done. autorewrite with brm.
  rewrite u32_id by done. unfold u64. unfold mret, reader_ret. repeat f_equal.
  unfold s64. rewrite Z.add_mod_idemp_l by lia. rewrite Z.mod_small; lia.
Qed.

Lemma VBRange_codec :
  codec VBRange_serialize VBRange_deserialize
    (fun v => - 2 ^ 31 <= vr_vbOID v < 2 ^ 31 /\ 0 <= vr_vbFBO v < 2 ^ 32 /\
              0 <= vr_size v < 2 ^ 32).
Proof.
  intros [o f s] rest (Ho & Hf & Hs).
  unfold VBRange_deserialize, VBRange_serialize, mbind, reader_bind.
  cbn [vr_vbOID vr_vbFBO vr_size] in *.
  rewrite <- !app_assoc. autorewrite with brm.
  by rewrite s32_u32, s32_id, !u32_id.
Qed.

Lemma shift_out_cons x y l :
  shift_out (x :: y :: l) = if decide (y = 0) then 0 :: y :: l else y :: shift_out (y :: l).
Proof. reflexivity. Qed.

Lemma shift_out_dense x post k :
  Forall (fun y => y <> 0) post ->
  shift_out (x :: post ++ replicate k 0) = post ++ replicate (S k) 0.
Proof.
  intros Hp. revert x. induction Hp as [|y post Hy Hp IH]; intros x.
  - destruct k; [done|]. cbn [replicate app]. by rewrite shift_out_cons, decide_True.
  - rewrite <- app_comm_cons, shift_out_cons, decide_False by done. by rewrite IH.
Qed.

(** Removing a DBRoot from a dense replica list closes the gap and keeps the
    others in order. *)
Lemma roots_remove_dense pre dbr post k :
  Forall (fun y => y <> 0) (pre ++ dbr :: post) -> dbr ∉ pre ->
  roots_remove (mkRoots (pre ++ dbr :: post ++ replicate k 0)) dbr =
  (mkRoots (pre ++ post ++ replicate (S k) 0), Z.of_nat (length pre)).
Proof.
  intros Hnz Hni. unfold roots_remove. simpl dbRoots.
  enough (H : forall n, remove_loop dbr n (pre ++ dbr :: post ++ replicate k 0) =
    (pre ++ post ++ replicate (S k) 0, n + Z.of_nat (length pre))) by (rewrite H; done).
  induction pre as [|x pre IH]; intros n.
  - apply Forall_cons in Hnz as [Hd Hp]. cbn [app remove_loop].
    rewrite decide_False by done. rewrite decide_True by done.
    rewrite shift_out_dense by done. simpl. f_equal. lia.
  - apply Forall_cons in Hnz as [Hx Hnz]. apply not_elem_of_cons in Hni as [Hne Hni].
    cbn [app remove_loop]. rewrite decide_False by done. rewrite decide_False by done.
    rewrite IH by done. cbn [length]. f_equal. lia.
Qed.

(** [getUintVal] does not pack the replica list: without a fourth DBRoot it
    returns 0 whatever the other three are. *)
Lemma getUintVal_loses r0 r1 r2 :
  0 <= r2 < 16 -> 0 <= r1 < 32 -> 0 <= r0 < 48 ->
  getUintVal (mkRoots [r0; r1; r2; 0]) = Ret 0.
Proof.
  intros H2 H1 H0. unfold getUintVal, mbind, res_bind. simpl.
  assert (Hz : forall n, 0 <= n < 64 -> shl64 0 n = Ret 0).
  { intros n Hn. unfold shl64. rewrite decide_True by done. by rewrite Z.shiftl_0_l. }
  rewrite !Hz by lia. done.
Qed.

(** ** Properties *)

(** What [LBIDRange::serialize] writes, [deserialize] reads back, and
    leaves the rest of the message; so for [VBRange] and for a logical
    partition with its DBRoots. *)
Theorem ranges_roundtrip (r : LBIDRange) (b : VBRange) (p : LogicalPartition) rest :
  - 2 ^ 63 <= r_start r < 2 ^ 63 -> 0 <= r_size r < 2 ^ 32 ->
  - 2 ^ 31 <= vr_vbOID b < 2 ^ 31 -> 0 <= vr_vbFBO b < 2 ^ 32 -> 0 <= vr_size b < 2 ^ 32 ->
  roots_wf (lp_dbRoot p) -> 0 <= lp_pp p < 2 ^ 32 -> 0 <= lp_seg p < 2 ^ 16 ->
  LBIDRange_deserialize (LBIDRange_serialize r ++ rest) = Some (r, rest) /\
  VBRange_deserialize (VBRange_serialize b ++ rest) = Some (b, rest) /\
  get_lp (lp_bytes p ++ rest) = Some (p, rest).
Proof.
  intros. split_and!; [by apply LBIDRange_codec|by apply VBRange_codec|by apply lp_codec].
Qed.

Lemma ranges_roundtrip_witness :
  LBIDRange_deserialize (LBIDRange_serialize (mkRange 4096 8) ++ [1]) = Some (mkRange 4096 8, [1]).
Proof.
  apply (ranges_roundtrip (mkRange 4096 8) (mkVBRange 1 0 3)
    (mkLP (mkRoots [1; 2; 0; 0]) 5 6) [1]); try (cbn; lia).
  split; [reflexivity|]. repeat apply Forall_cons_2; try apply Forall_nil_2; lia.
Defined.

(** Removing a DBRoot from a dense replica list closes the gap, keeps
    the others in order and returns the position it had. *)
Theorem roots_remove_closes_gap pre dbr post k :
  Forall (fun y => y <> 0) (pre ++ dbr :: post) -> dbr ∉ pre ->
  roots_remove (mkRoots (pre ++ dbr :: post ++ replicate k 0)) dbr =
  (mkRoots (pre ++ post ++ replicate (S k) 0), Z.of_nat (length pre)).
Proof. apply roots_remove_dense. Qed.

Lemma roots_remove_closes_gap_witness :
  roots_remove (mkRoots [4; 2; 7; 0]) 2 = (mkRoots [4; 7; 0; 0], 1).
Proof.
  apply (roots_remove_closes_gap [4] 2 [7] 1);
    [repeat apply Forall_cons_2; try apply Forall_nil_2; lia|].
  intros H%list_elem_of_singleton. discriminate H.
Defined.

(** [getUintVal] does not pack the replica list: without a fourth DBRoot
    it is 0 whatever the other three are, because [+] binds tighter than
    [<<]. *)
Theorem getUintVal_drops r0 r1 r2 :
  0 <= r2 < 16 -> 0 <= r1 < 32 -> 0 <= r0 < 48 ->
  getUintVal (mkRoots [r0; r1; r2; 0]) = Ret 0.
Proof. apply getUintVal_loses. Qed.

Lemma getUintVal_drops_witness :
  getUintVal (DBROOTS_of_uint64 0x000000000003) = Ret 0 /\
  dbRoots (DBROOTS_of_uint64 0x000000000003) = [3; 0; 0; 0].
Proof. split; [apply (getUintVal_drops 3 0 0); lia|reflexivity]. Defined.
