(* ===== verification/VBBM.v ===== *)
(** * The Version Buffer Block Map: src/versioning/BRM/vbbm.{h,cpp}

    The VBBM says where in the version buffer the block <LBID, version> is.
    This file models its image in shared memory and the operations that need
    no other table; [getBlocks], which calls into the VSS, is in
    VersionBuffer.v.  Debug-only code ([BRM_DEBUG], [BRM_VERBOSE]) is left
    out, as in a release build. *)
From Stdlib Require Import ZArith Lia.
From S2P Require Import Prelude Bytes Undoable Hasher HashChain BrmTypes.

Local Open Scope Z_scope.

(** ** Data *)

Record VBFileMetadata := mkFile { fm_OID : Z; fm_fileSize : Z; fm_nextOffset : Z }.

Record VBBMEntry := mkVBBMEntry {
  vb_lbid : Z;
  vb_vbOids : DBROOTS_struct;
  vb_vbFbo : FBO_struct;
  vb_verID : Z;
  vb_next : Z;
}.

(** The constructor of [VBBMEntry]. *)
Definition VBBMEntry_new : VBBMEntry := mkVBBMEntry (-1) DBROOTS_zero FBO_zero 0 (-1).

#[global] Instance VBFileMetadata_eq_dec : EqDecision VBFileMetadata.
Proof. solve_decision. Defined.
#[global] Instance VBBMEntry_eq_dec : EqDecision VBBMEntry.
Proof. solve_decision. Defined.

#[global] Instance VBBM_slot : Slot VBBMEntry := {
  slot_lbid := vb_lbid;
  slot_next := vb_next;
  slot_set_lbid z e := mkVBBMEntry z (vb_vbOids e) (vb_vbFbo e) (vb_verID e) (vb_next e);
  slot_set_next z e := mkVBBMEntry (vb_lbid e) (vb_vbOids e) (vb_vbFbo e) (vb_verID e) z;
}.
#[global] Instance VBBM_slot_laws : SlotLaws VBBMEntry.
Proof. by split. Qed.

(** The segment: [VBShmsegHeader], the three arrays that follow it, and the
    segment's description in the master segment table.  [fPVBBMImpl] says
    whether the segment is mapped; [currentFileSize] is a member of the
    object. *)
Record vbbm_seg := mkVbbm {
  nFiles : Z;
  vbCapacity : Z;
  vbCurrentSize : Z;
  vbLWM : Z;
  numHashBuckets : Z;
  files : list VBFileMetadata;
  hashBuckets : list Z;
  storage : list VBBMEntry;
  tableShmkey : Z;
  allocdSize : Z;
  fPVBBMImpl : bool;
  currentFileSize : Z;
}.

(** Sizes in bytes on x86-64. *)
Definition sizeof_VBBMEntry : Z := 40.
Definition sizeof_VBFileMetadata : Z := 12.
Definition sizeof_VBShmsegHeader : Z := 20.

Definition VBSTORAGE_INITIAL_COUNT : Z := 100000.
Definition VBSTORAGE_INCREMENT_COUNT : Z := 10000.
Definition VBSTORAGE_INITIAL_SIZE : Z := VBSTORAGE_INITIAL_COUNT * sizeof_VBBMEntry.
Definition VBSTORAGE_INCREMENT : Z := VBSTORAGE_INCREMENT_COUNT * sizeof_VBBMEntry.
Definition VBTABLE_INITIAL_SIZE : Z := 25000 * 4.
Definition VBTABLE_INCREMENT : Z := 2500 * 4.
Definition VBBM_INCREMENT : Z := VBTABLE_INCREMENT + VBSTORAGE_INCREMENT.
Definition VBBM_SIZE (nfiles entries : Z) : Z :=
  entries * sizeof_VBBMEntry + entries / 4 * 4 + nfiles * sizeof_VBFileMetadata
  + sizeof_VBShmsegHeader.

(** Key ranges of the segments, shmkeys.{h,cpp}. *)
Definition KEYRANGE_SIZE : Z := 0x10000.
Definition KEYRANGE_VBBM_BASE : Z := 0x40000.

Definition BLOCK_SIZE : Z := 8192.
Definition VBBM_CHUNK_SIZE : Z := 100.
Definition VBBM_MAGIC_V1 : Z := 0x7b27ec13.
Definition VBBM_MAGIC_V2 : Z := 0x1fb58c7a.

(** ** The image as cells *)

Inductive vb_field := FnFiles | FvbCapacity | FvbCurrentSize | FvbLWM | FnumHashBuckets.
Inductive vb_cell := CHdr (f : vb_field) | CFile (i : Z) | CBucket (i : Z) | CStorage (i : Z).
Inductive vb_delta :=
  | DHdr (f : vb_field) (v : Z)
  | DFile (i : Z) (v : VBFileMetadata)
  | DBucket (i v : Z)
  | DStorage (i : Z) (v : VBBMEntry).

#[global] Instance vb_field_eq_dec : EqDecision vb_field.
Proof. solve_decision. Defined.
#[global] Instance vb_cell_eq_dec : EqDecision vb_cell.
Proof. solve_decision. Defined.

Definition get_field (f : vb_field) (m : vbbm_seg) : Z :=
  match f with
  | FnFiles => nFiles m
  | FvbCapacity => vbCapacity m
  | FvbCurrentSize => vbCurrentSize m
  | FvbLWM => vbLWM m
  | FnumHashBuckets => numHashBuckets m
  end.

Definition set_field (f : vb_field) (v : Z) (m : vbbm_seg) : vbbm_seg :=
  let (nf, cap, sz, lwm, nb, fs, bs, st, key, sz', p, cfs) := m in
  match f with
  | FnFiles => mkVbbm v cap sz lwm nb fs bs st key sz' p cfs
  | FvbCapacity => mkVbbm nf v sz lwm nb fs bs st key sz' p cfs
  | FvbCurrentSize => mkVbbm nf cap v lwm nb fs bs st key sz' p cfs
  | FvbLWM => mkVbbm nf cap sz v nb fs bs st key sz' p cfs
  | FnumHashBuckets => mkVbbm nf cap sz lwm v fs bs st key sz' p cfs
  end.

Definition set_arrays (fs : list VBFileMetadata) (bs : list Z) (st : list VBBMEntry)
    (m : vbbm_seg) : vbbm_seg :=
  let (nf, cap, sz, lwm, nb, _, _, _, key, sz', p, cfs) := m in
  mkVbbm nf cap sz lwm nb fs bs st key sz' p cfs.

Definition set_currentFileSize (v : Z) (m : vbbm_seg) : vbbm_seg :=
  let (nf, cap, sz, lwm, nb, fs, bs, st, key, sz', p, _) := m in
  mkVbbm nf cap sz lwm nb fs bs st key sz' p v.

#[global] Instance vbbm_image : DeltaImage vbbm_seg vb_delta vb_cell := {
  cell_of d :=
    match d with
    | DHdr f _ => CHdr f | DFile i _ => CFile i | DBucket i _ => CBucket i
    | DStorage i _ => CStorage i
    end;
  apply_delta d m :=
    match d with
    | DHdr f v => set_field f v m
    | DFile i v => set_arrays (wr (files m) i v) (hashBuckets m) (storage m) m
    | DBucket i v => set_arrays (files m) (wr (hashBuckets m) i v) (storage m) m
    | DStorage i v => set_arrays (files m) (hashBuckets m) (wr (storage m) i v) m
    end;
  snapshot c m :=
    match c with
    | CHdr f => DHdr f (get_field f m)
    | CFile i => DFile i (rd_or (mkFile 0 0 0) (files m) i)
    | CBucket i => DBucket i (rd_or 0 (hashBuckets m) i)
    | CStorage i => DStorage i (rd_or VBBMEntry_new (storage m) i)
    end;
  csize c :=
    match c with
    | CHdr _ => 4 | CFile _ => sizeof_VBFileMetadata | CBucket _ => 4
    | CStorage _ => sizeof_VBBMEntry
    end;
  seg_of _ := tableShmkey;
}.

#[global] Instance vbbm_image_laws : DeltaLaws vbbm_seg vb_delta vb_cell.
Proof.
  split.
  - by intros [] [].
  - intros [[]| | |] []; simpl; rewrite ?wr_rd_or; done.
  - intros [[]| | |] [[]| | |] []; simpl; intros [=]; subst; rewrite ?wr_wr; done.
  - intros [[]| | |] [[]| | |] []; simpl; intros Hne; try done;
      f_equal; apply wr_comm; congruence.
  - by intros ? [[]| | |] [].
Qed.

Abbreviation vbbm_obj := (undoable vbbm_seg vb_delta).

(** [makeUndoRecord(vbbm, sizeof(VBShmsegHeader))] *)
Definition header_cells : list vb_cell :=
  [CHdr FnFiles; CHdr FvbCapacity; CHdr FvbCurrentSize; CHdr FvbLWM; CHdr FnumHashBuckets].

(** Array accesses of the object. *)
Definition field (f : vb_field) : prog vbbm_obj Z := gets (fun o => get_field f (image o)).
Definition rdStorage (i : Z) : prog vbbm_obj VBBMEntry :=
  reading (fun o => rd (storage (image o)) i).
Definition wrStorage (i : Z) (e : VBBMEntry) : prog vbbm_obj unit :=
  _ ← rdStorage i; store (DStorage i e).
Definition rdBucket (i : Z) : prog vbbm_obj Z := reading (fun o => rd (hashBuckets (image o)) i).
Definition wrBucket (i v : Z) : prog vbbm_obj unit := _ ← rdBucket i; store (DBucket i v).
Definition rdFile (i : Z) : prog vbbm_obj VBFileMetadata :=
  reading (fun o => rd (files (image o)) i).
Definition wrFile (i : Z) (v : VBFileMetadata) : prog vbbm_obj unit :=
  _ ← rdFile i; store (DFile i v).

(** ** Keys and searches *)

(** [hasher(cHash, cHashlen) % numHashBuckets] *)
Definition hash_index (lbid verID nb : Z) : res Z :=
  if decide (u32 nb = 0) then UB DivisionByZero
  else Ret (hasher (le_bytes 8 lbid ++ le_bytes 4 verID) mod u32 nb).

#[global] Arguments hash_index : simpl never.

Definition key_match (lbid verID : Z) (e : VBBMEntry) : bool :=
  bool_decide (vb_lbid e = lbid) && bool_decide (vb_verID e = verID).

(** [getIndex]: the index, and the out-parameters [prev] and [bucket]. *)
Definition getIndex (m : vbbm_seg) (lbid verID : Z) : res (Z * Z * Z) :=
  bucket ← hash_index lbid verID (numHashBuckets m);
  head ← rd (hashBuckets m) bucket;
  if decide (head = -1) then Ret (-1, -1, bucket)
  else
    r ← list_walk (S (length (storage m))) (find_body (key_match lbid verID)) (storage m) head (-1);
    match r with
    | inr (index, prev) => Ret (index, prev, bucket)
    | inl prev => Ret (-1, prev, bucket)
    end.

(** The [lookup] that returns a pointer to the entry: its index, if any. *)
Definition lookup_ptr (m : vbbm_seg) (lbid verID : Z) : res (option Z) :=
  if decide (lbid < 0) then Throw InvalidArgument
  else if decide (verID < 0) then Throw InvalidArgument
  else
    '(index, _, _) ← getIndex m lbid verID;
    if decide (index = -1) then Ret None else Ret (Some index).

(** The [lookup] that copies the location out; [None] is the return code -1. *)
Definition lookup (m : vbbm_seg) (lbid verID : Z) : res (option (DBROOTS_struct * FBO_struct)) :=
  if decide (lbid < 0) then Throw InvalidArgument
  else if decide (verID < 0) then Throw InvalidArgument
  else
    '(index, _, _) ← getIndex m lbid verID;
    if decide (index = -1) then Ret None
    else e ← rd (storage m) index; Ret (Some (vb_vbOids e, vb_vbFbo e)).

(** ** Insertion and growth *)

(** [_insert]: [e] goes to the first free entry at or after the low water
    mark and to the front of its bucket's list. *)
Definition _insert (e : VBBMEntry) (loading : bool) : prog vbbm_obj unit :=
  nb ← field FnumHashBuckets;
  hashIndex ← reading (fun _ => hash_index (vb_lbid e) (vb_verID e) nb);
  lwm ← field FvbLWM;
  insertIndex ← reading (fun o =>
    find_free (S (length (storage (image o)))) (storage (image o)) lwm);
  (if loading then mret tt
   else
     makeUndoRecord header_cells;;
     makeUndoRecord [CStorage insertIndex];;
     makeUndoRecord [CBucket hashIndex]);;
  store (DHdr FvbLWM insertIndex);;
  head ← rdBucket hashIndex;
  wrStorage insertIndex (slot_set_next head e);;
  wrBucket hashIndex insertIndex.

(** An entry in zeroed memory whose LBID has been set to -1. *)
Definition free_entry : VBBMEntry := mkVBBMEntry (-1) DBROOTS_zero FBO_zero 0 0.

Definition chooseShmkey (m : vbbm_seg) : Z :=
  if decide (tableShmkey m + 1 = KEYRANGE_VBBM_BASE + KEYRANGE_SIZE - 1
             \/ u32 (tableShmkey m) < KEYRANGE_VBBM_BASE)
  then KEYRANGE_VBBM_BASE + 1
  else tableShmkey m + 1.

(** [memcpy(newFiles, files, sizeof(VBFileMetadata) * vbbm->nFiles)] when the
    header already counts files the array does not have: past its end lie the
    hash buckets, three of them per record. *)
Definition files_at (m : vbbm_seg) (k : nat) : VBFileMetadata :=
  match files m !! k with
  | Some f => f
  | None =>
      let j := (3 * (k - length (files m)))%nat in
      let word i := default 0 (hashBuckets m !! i) in
      mkFile (word j) (u32 (word (j + 1)%nat)) (u32 (word (j + 2)%nat))
  end.

Definition files_copy (m : vbbm_seg) : list VBFileMetadata :=
  files_at m <$> seq 0 (Z.to_nat (nFiles m)).

(** [copyVBBM(dest)]: the object is the new segment, whose capacity, number of
    buckets and low water mark the caller has set. *)
Definition copyVBBM (src : vbbm_seg) : prog vbbm_obj unit :=
  modify (set_image (fun d =>
    set_arrays (files_copy src)
      (replicate (Z.to_nat (numHashBuckets d)) (-1))
      (replicate (Z.to_nat (vbCapacity d)) free_entry)
      (set_field FvbCurrentSize (vbCurrentSize src) (set_field FnFiles (nFiles src) d))));;
  for_each (seqZ 0 (vbCurrentSize src)) (fun i =>
    e ← reading (fun _ => rd (storage src) i);
    if decide (vb_lbid e = -1) then mret tt else _insert e true).

Section Config.
(** The value of VersionBuffer/VersionBufferFileSize in the configuration
    file, [None] when the lookup throws. *)
Context (VersionBufferFileSize : option Z).

Definition setCurrentFileSize : prog vbbm_obj unit :=
  modify (set_image (set_currentFileSize 2147483648));;
  match VersionBufferFileSize with
  | None => throw InvalidArgument
  | Some ltmp =>
      if decide (ltmp < 1) then throw InvalidArgument
      else modify (set_image (set_currentFileSize ltmp))
  end.

Definition initShmseg (nf : Z) : prog vbbm_obj unit :=
  store (DHdr FvbCapacity (VBSTORAGE_INITIAL_SIZE / sizeof_VBBMEntry));;
  store (DHdr FvbCurrentSize 0);;
  store (DHdr FvbLWM 0);;
  store (DHdr FnumHashBuckets (VBTABLE_INITIAL_SIZE / 4));;
  setCurrentFileSize;;
  store (DHdr FnFiles nf);;
  modify (set_image (fun m =>
    set_arrays (replicate (Z.to_nat nf) (mkFile 0 0 0))
      (replicate (Z.to_nat (numHashBuckets m)) (-1))
      (replicate (Z.to_nat (vbCapacity m)) free_entry) m)).

(** A segment of zero bytes, mapped in place of the one of [m]. *)
Definition blank (m : vbbm_seg) : vbbm_seg :=
  mkVbbm 0 0 0 0 0 [] [] [] (tableShmkey m) (allocdSize m) true (currentFileSize m).

Definition set_shminfo (key size : Z) (m : vbbm_seg) : vbbm_seg :=
  let (nf, cap, sz, lwm, nb, fs, bs, st, _, _, p, cfs) := m in
  mkVbbm nf cap sz lwm nb fs bs st key size p cfs.

(** [growVBBM(addAFile)]; [vbbm] is NULL exactly when no segment has been
    allocated yet. *)
Definition growVBBM (addAFile : Z) : prog vbbm_obj unit :=
  m0 ← gets image;
  let created := bool_decide (allocdSize m0 = 0) in
  let nf := if decide (addAFile = 0) then 0 else 1 in
  let allocSize :=
    if created then
      sizeof_VBShmsegHeader + nf * sizeof_VBFileMetadata + VBSTORAGE_INITIAL_SIZE
      + VBTABLE_INITIAL_SIZE
    else if decide (addAFile = 0) then allocdSize m0 + VBBM_INCREMENT
    else allocdSize m0 + sizeof_VBFileMetadata * addAFile in
  (if created || bool_decide (addAFile = 0) then mret tt
   else modify (set_image (set_field FnFiles (nFiles m0 + addAFile))));;
  m ← gets image;
  let newshmkey := chooseShmkey m in
  (if fPVBBMImpl m then
     if created then modify (fun _ => mkUndoable (blank m) [])
     else
       let cap := vbCapacity m
         + (if decide (addAFile = 0) then VBSTORAGE_INCREMENT / sizeof_VBBMEntry else 0) in
       let nb := numHashBuckets m
         + (if decide (addAFile = 0) then VBTABLE_INCREMENT / 4 else 0) in
       let tmp := set_field FvbCapacity cap
                    (set_field FnumHashBuckets nb (set_field FvbLWM 0 (blank m))) in
       fun o => let '(r, d) := copyVBBM m (mkUndoable tmp []) in
                (r, mkUndoable (image d) [])
   else modify (set_image blank));;
  (if created then initShmseg nf else mret tt);;
  modify (set_image (set_shminfo newshmkey allocSize)).

(** [lock(WRITE)]: makes sure that the current segment is mapped; the model
    has one segment, the one the master segment table describes. *)
Definition lock : prog vbbm_obj unit :=
  m ← gets image;
  if fPVBBMImpl m then mret tt
  else if decide (allocdSize m = 0) then growVBBM 0
  else modify (set_image (fun m : vbbm_seg =>
    let (nf, cap, sz, lwm, nb, fs, bs, st, key, sz', _, cfs) := m in
    mkVbbm nf cap sz lwm nb fs bs st key sz' true cfs)).

Definition insert (lbid verID : Z) (vbOids : DBROOTS_struct) (vbFbo : FBO_struct)
    (loading : bool) : prog vbbm_obj unit :=
  let entry := mkVBBMEntry lbid vbOids vbFbo verID (-1) in
  size ← field FvbCurrentSize;
  cap ← field FvbCapacity;
  (if decide (size = cap) then growVBBM 0 else mret tt);;
  _insert entry loading;;
  (if loading then mret tt else makeUndoRecord [CHdr FvbCurrentSize]);;
  size ← field FvbCurrentSize;
  store (DHdr FvbCurrentSize (size + 1)).

(** ** Version buffer files *)

Definition addVBFileIfNotExists (vbOID : Z) : prog vbbm_obj Z :=
  len ← field FnFiles;
  (if decide (len < vbOID) then
     setCurrentFileSize;;
     growVBBM (vbOID - len);;
     for_each (seqZ len (vbOID - len)) (fun i =>
       cfs ← gets (fun o => currentFileSize (image o));
       wrFile i (mkFile (i + 1) (u32 (cfs / BLOCK_SIZE)) 0))
   else mret tt);;
  mret (u32 (vbOID - 1)).

Definition growForLoad (count0 : Z) : prog vbbm_obj unit :=
  m ← gets image;
  let nf := nFiles m in
  let count1 := if decide (count0 < VBSTORAGE_INITIAL_COUNT)
                then VBSTORAGE_INITIAL_COUNT else count0 in
  let count := if decide (Z.rem count1 VBSTORAGE_INCREMENT_COUNT = 0) then count1
               else (Z.quot count1 VBSTORAGE_INCREMENT_COUNT + 1) * VBSTORAGE_INCREMENT_COUNT in
  let fs := if fPVBBMImpl m then files m else replicate (Z.to_nat nf) (mkFile 0 0 0) in
  modify (fun _ => mkUndoable
    (mkVbbm nf count 0 0 (count / 4) fs
      (replicate (Z.to_nat (count / 4)) (-1))
      (replicate (Z.to_nat count) free_entry)
      (chooseShmkey m) (VBBM_SIZE nf count) true (currentFileSize m)) []).

Definition clear : prog vbbm_obj unit :=
  saved ← reading (fun o => if decide (nFiles (image o) < 0) then Throw BadAlloc
                            else Ret (files_copy (image o)));
  setCurrentFileSize;;
  m ← gets image;
  let nf := nFiles m in
  let newFiles :=
    (fun f => mkFile (fm_OID f) (u32 (currentFileSize m / BLOCK_SIZE)) 0) <$> saved in
  let allocSize := sizeof_VBShmsegHeader + nf * sizeof_VBFileMetadata
                   + VBSTORAGE_INITIAL_SIZE + VBTABLE_INITIAL_SIZE in
  let newshmkey := chooseShmkey m in
  modify (set_image blank);;
  initShmseg nf;;
  modify (set_image (fun m' =>
    set_arrays newFiles (hashBuckets m') (storage m') (set_shminfo newshmkey allocSize m'))).
End Config.

(** ** Removal *)

Definition removeEntry (lbid verID : Z) : prog vbbm_obj unit :=
  '(index, prev, bucket) ← reading (fun o => getIndex (image o) lbid verID);
  if decide (index = -1) then mret tt
  else
    makeUndoRecord [CStorage index];;
    e ← rdStorage index;
    wrStorage index (slot_set_lbid (-1) e);;
    (if decide (prev <> -1) then
       makeUndoRecord [CStorage prev];;
       e ← rdStorage index;
       p ← rdStorage prev;
       wrStorage prev (slot_set_next (vb_next e) p)
     else
       makeUndoRecord [CBucket bucket];;
       e ← rdStorage index;
       wrBucket bucket (vb_next e));;
    makeUndoRecord header_cells;;
    size ← field FvbCurrentSize;
    store (DHdr FvbCurrentSize (size - 1));;
    lwm ← field FvbLWM;
    (if decide (index < lwm) then store (DHdr FvbLWM index) else mret tt).

(** [size()] of a release build. *)
Definition size (m : vbbm_seg) : Z := vbCurrentSize m.

Fixpoint all_empty (l : list Z) (bs : list Z) : res bool :=
  match l with
  | [] => Ret true
  | i :: l' =>
      h ← rd bs i;
      if decide (h = -1) then all_empty l' bs else Ret false
  end.
Definition hashEmpty (m : vbbm_seg) : res bool :=
  all_empty (seqZ 0 (numHashBuckets m)) (hashBuckets m).

(** ** Consistency check *)

(** A [for] loop over a list, with the body of [checkConsistency]'s tests:
    the body throws or goes on. *)
Definition walk_check (m : vbbm_seg) (head : Z) (body : Z -> VBBMEntry -> res unit) : res unit :=
  r ← list_walk (S (length (storage m)))
        (fun (_ : unit) i e => match body i e with Ret _ => inl tt | r => inr r end)
        (storage m) head tt;
  match r with inl _ => Ret tt | inr r => r end.

(** Test 2: no free entry is reachable from the hash table. *)
Definition check_reachable (m : vbbm_seg) : res unit :=
  for_res (seqZ 0 (numHashBuckets m)) (fun i =>
    head ← rd (hashBuckets m) i;
    if decide (head = -1) then Ret tt
    else walk_check m head (fun _ e =>
           if decide (vb_lbid e = -1) then Throw LogicError else Ret tt)).

(** Test 3: no free entry below the low water mark. *)
Definition check_LWM (m : vbbm_seg) : res unit :=
  for_res (seqZ 0 (vbLWM m)) (fun i =>
    e ← rd (storage m) i;
    if decide (vb_lbid e = -1) then Throw LogicError else Ret tt).

(** Test 4b: no two entries of a list have the same LBID and version. *)
Definition check_unique (m : vbbm_seg) : res unit :=
  for_res (seqZ 0 (numHashBuckets m)) (fun i =>
    head ← rd (hashBuckets m) i;
    if decide (head = -1) then Ret tt
    else walk_check m head (fun _ ej =>
           walk_check m (vb_next ej) (fun _ ek =>
             if key_match (vb_lbid ek) (vb_verID ek) ej then Throw LogicError else Ret tt))).

(** Test 4a: no two entries share a place on the master DBRoot. *)
Definition check_space (m : vbbm_seg) : res unit :=
  for_res (seqZ 0 (vbCapacity m)) (fun i =>
    ei ← rd (storage m) i;
    if decide (vb_lbid ei = -1) then Ret tt
    else for_res (seqZ (i + 1) (vbCapacity m - (i + 1))) (fun j =>
           ej ← rd (storage m) j;
           if decide (vb_lbid ej = -1) then Ret tt
           else
             oi ← roots_get (vb_vbOids ei) 0; oj ← roots_get (vb_vbOids ej) 0;
             fi ← fbo_get (vb_vbFbo ei) 0; fj ← fbo_get (vb_vbFbo ej) 0;
             if decide (oj = oi /\ fj = fi) then Throw LogicError else Ret tt)).

Definition checkConsistency (m : vbbm_seg) : res Z :=
  _ ← check_reachable m; _ ← check_LWM m; _ ← check_unique m; _ ← check_space m; Ret 0.

(** ** The image on disk *)

Definition VBFileMetadata_bytes (f : VBFileMetadata) : list Z :=
  le_bytes 4 (fm_OID f) ++ le_bytes 4 (fm_fileSize f) ++ le_bytes 4 (fm_nextOffset f).
Definition get_VBFileMetadata : reader VBFileMetadata :=
  o ← get_s32; s ← get_u32; n ← get_u32; mret (mkFile o s n).

Definition VBBMEntry_bytes (e : VBBMEntry) : list Z :=
  le_bytes 8 (vb_lbid e) ++ roots_bytes (vb_vbOids e) ++ fbo_bytes (vb_vbFbo e)
  ++ le_bytes 4 (vb_verID e) ++ le_bytes 4 (vb_next e).
Definition get_VBBMEntry : reader VBBMEntry :=
  l ← get_s64; o ← get_roots; f ← get_fbo; v ← get_s32; n ← get_s32;
  mret (mkVBBMEntry l o f v n).

Definition save (m : vbbm_seg) : res (list Z) :=
  entries ← collect (seqZ 0 (vbCapacity m)) (fun i =>
    e ← rd (storage m) i;
    Ret (if decide (vb_lbid e = -1) then [] else VBBMEntry_bytes e));
  Ret (le_bytes 4 VBBM_MAGIC_V2 ++ le_bytes 4 (vbCurrentSize m) ++ le_bytes 4 (nFiles m)
       ++ (files_copy m ≫= VBFileMetadata_bytes) ++ entries).

Section Load.
Context (VersionBufferFileSize : option Z).
(** [OamCache::getRepSize()], the configured number of replicas. *)
Context (repSize : Z).

Definition insert_loaded (e : VBBMEntry) : prog (vbbm_obj * list Z) unit :=
  on_obj (insert VersionBufferFileSize (vb_lbid e) (vb_verID e) (vb_vbOids e) (vb_vbFbo e) true).

Definition loadVersion1 : prog (vbbm_obj * list Z) unit :=
  on_obj (clear VersionBufferFileSize);;
  vbbmEntries ← file_read get_s32;
  for_each (seqZ 0 vbbmEntries) (fun _ =>
    entry ← file_read get_VBBMEntry;
    insert_loaded entry;;
    for_each (seqZ 0 repSize) (fun oi =>
      oid ← reading (fun _ => roots_get (vb_vbOids entry) oi);
      if decide (oid = 0) then mret tt
      else on_obj (addVBFileIfNotExists VersionBufferFileSize oid);; mret tt)).

Definition loadVersion2 : prog (vbbm_obj * list Z) unit :=
  vbbmEntries ← file_read get_s32;
  nf ← file_read get_s32;
  on_obj (modify (set_image (fun m =>
    if decide (nf < nFiles m) then set_field FnFiles nf m else m)));;
  on_obj (clear VersionBufferFileSize);;
  on_obj (while_loop (Z.to_nat nf) (fun o => bool_decide (nFiles (image o) < nf))
            (growVBBM VersionBufferFileSize 1));;
  on_obj (growForLoad vbbmEntries);;
  fs ← file_read (get_list (Z.to_nat nf) get_VBFileMetadata);
  on_obj (modify (set_image (fun m => set_arrays fs (hashBuckets m) (storage m) m)));;
  for_each (seqZ 0 vbbmEntries) (fun _ =>
    entry ← file_read get_VBBMEntry;
    insert_loaded entry).

(** [load], once the file is open: its bytes are the second component. *)
Definition load : prog (vbbm_obj * list Z) unit :=
  magic ← file_read get_s32;
  if decide (magic = VBBM_MAGIC_V1) then loadVersion1
  else if decide (magic = VBBM_MAGIC_V2) then loadVersion2
  else throw RuntimeError.
End Load.
