(* ===== verification/VBBMProofs.v ===== *)
(** * The VBBM implements a finite map

    The invariant of the VBBM, its abstract value (a finite map from <LBID,
    version> to the place of the block in the version buffer) and the
    refinement of every operation of VBBM.v: searches, insertion, removal,
    growth, the consistency check, the image on disk and the undo log. *)
From Stdlib Require Import ZArith Lia.
From S2P Require Import Prelude Bytes Undoable Hasher HashChain BrmTypes VBBM.

Local Open Scope Z_scope.

(** ** Abstract value and invariant *)

Definition vb_key (e : VBBMEntry) : Z * Z := (vb_lbid e, vb_verID e).
Definition vb_val (e : VBBMEntry) : DBROOTS_struct * FBO_struct := (vb_vbOids e, vb_vbFbo e).

Definition vbbm_map (m : vbbm_seg) : gmap (Z * Z) (DBROOTS_struct * FBO_struct) :=
  contents vb_key vb_val (storage m).

Definition vb_bucket (nb : Z) (e : VBBMEntry) : nat :=
  Z.to_nat (hasher (le_bytes 8 (vb_lbid e) ++ le_bytes 4 (vb_verID e)) mod u32 nb).

#[global] Arguments vb_bucket : simpl never.

(** The hash table, without the entry count. *)
Record table_wf (m : vbbm_seg) : Prop := {
  tw_cap : vbCapacity m = Z.of_nat (length (storage m));
  tw_nb : numHashBuckets m = Z.of_nat (length (hashBuckets m));
  tw_nb_pos : 0 < numHashBuckets m < 2 ^ 31;
  tw_lwm : 0 <= vbLWM m <= vbCapacity m;
  tw_lwm_used i e : Z.of_nat i < vbLWM m -> storage m !! i = Some e -> used e;
  tw_table : exists cs, wf_table (vb_bucket (numHashBuckets m)) (hashBuckets m) (storage m) cs;
  tw_keys : unique_keys vb_key (storage m);
}.

Record vbbm_wf (m : vbbm_seg) : Prop := {
  vw_table : table_wf m;
  vw_size : vbCurrentSize m = Z.of_nat (used_count (storage m));
  vw_files : nFiles m = Z.of_nat (length (files m));
}.

(** ** Hashing *)

Lemma hash_index_eq lbid verID nb : 0 < nb < 2 ^ 31 ->
  hash_index lbid verID nb
  = Ret (Z.of_nat (vb_bucket nb (mkVBBMEntry lbid DBROOTS_zero FBO_zero verID (-1)))).
Proof.
  intros Hnb. unfold hash_index, vb_bucket. simpl vb_lbid. simpl vb_verID.
  rewrite u32_id by lia. rewrite decide_False by lia.
  rewrite Z2Nat.id; [done|]. apply Z.mod_pos_bound. lia.
Qed.

Lemma vb_bucket_key nb e e' : vb_key e = vb_key e' -> vb_bucket nb e = vb_bucket nb e'.
Proof. intros [= Hl Hv]. unfold vb_bucket. by rewrite Hl, Hv. Qed.

Lemma vb_bucket_lt nb e : 0 < nb < 2 ^ 31 -> Z.of_nat (vb_bucket nb e) < nb.
Proof.
  intros Hnb. unfold vb_bucket. rewrite u32_id by lia.
  pose proof (Z.mod_pos_bound (hasher (le_bytes 8 (vb_lbid e) ++ le_bytes 4 (vb_verID e))) nb).
  lia.
Qed.

Lemma key_match_true lbid verID e : key_match lbid verID e = true <-> vb_key e = (lbid, verID).
Proof.
  unfold key_match, vb_key. rewrite andb_true_iff, !bool_decide_eq_true. naive_solver.
Qed.

Lemma bucket_head m e : table_wf m ->
  exists h, hashBuckets m !! vb_bucket (numHashBuckets m) e = Some h.
Proof.
  intros Hwf. apply lookup_lt_is_Some_2. pose proof (vb_bucket_lt _ e (tw_nb_pos _ Hwf)).
  pose proof (tw_nb _ Hwf). lia.
Qed.

(** ** Searches *)

Variant getIndex_outcome (m : vbbm_seg) (cs : list (list nat)) (k : Z * Z) :
    Z * Z * Z -> Prop :=
  | GI_found l1 i l2 e b :
      cs !! b = Some (l1 ++ i :: l2) -> storage m !! i = Some e -> used e -> vb_key e = k ->
      getIndex_outcome m cs k (Z.of_nat i, prev_of l1, Z.of_nat b)
  | GI_none prev b :
      vbbm_map m !! k = None -> getIndex_outcome m cs k (-1, prev, b).

Lemma getIndex_spec m cs lbid verID : table_wf m ->
  wf_table (vb_bucket (numHashBuckets m)) (hashBuckets m) (storage m) cs ->
  exists r, getIndex m lbid verID = Ret r /\ getIndex_outcome m cs (lbid, verID) r.
Proof.
  intros Hwf Hcs. unfold getIndex. rewrite hash_index_eq by (by apply tw_nb_pos). rewrite ret_bind.
  set (e0 := mkVBBMEntry lbid DBROOTS_zero FBO_zero verID (-1)).
  destruct (bucket_head m e0 Hwf) as [h Hh]. rewrite (rd_nat _ _ _ Hh), ret_bind.
  destruct (table_find (vb_bucket (numHashBuckets m)) _ _ cs (key_match lbid verID) _ _ Hcs Hh)
    as (r & Hr & Hout).
  { intros e He%key_match_true. by apply vb_bucket_key. }
  assert (Hnone : (forall e, stored (storage m) e -> key_match lbid verID e = false) ->
    vbbm_map m !! (lbid, verID) = None).
  { intros Hz. apply contents_None; [by apply tw_keys|]. intros e He Hk%key_match_true.
    by rewrite Hz in Hk. }
  destruct (decide (h = -1)) as [->|Hne].
  - eexists. split; [done|]. constructor. apply Hnone.
    cbn in Hr. injection Hr as <-. by inversion Hout.
  - rewrite Hr, ret_bind. inversion Hout as [l1 i l2 e Hc Hi Hu Hp|z Hz]; subst.
    + eexists. split; [done|]. econstructor; eauto. by apply key_match_true.
    + eexists. split; [done|]. constructor. by apply Hnone.
Qed.

Lemma vbbm_map_found m i e : table_wf m -> storage m !! i = Some e -> used e ->
  vbbm_map m !! vb_key e = Some (vb_val e).
Proof.
  intros Hwf Hi Hu. apply contents_Some; [by apply tw_keys|]. exists e. split; [by exists i|done].
Qed.

Lemma lookup_refines m lbid verID : table_wf m -> 0 <= lbid -> 0 <= verID ->
  lookup m lbid verID = Ret (vbbm_map m !! (lbid, verID)).
Proof.
  intros Hwf Hl Hv. unfold lookup. rewrite !decide_False by lia.
  destruct (tw_table _ Hwf) as [cs Hcs].
  destruct (getIndex_spec m cs lbid verID Hwf Hcs) as (r & -> & Hr). simpl.
  destruct Hr as [l1 i l2 e b Hc Hi Hu Hk|prev b Hn].
  - rewrite decide_False by lia. rewrite (rd_nat _ _ _ Hi). simpl.
    rewrite <- Hk. by erewrite vbbm_map_found.
  - by rewrite decide_True, Hn.
Qed.

(** ** Insertion *)

(** What an update of the hash table leaves alone. *)
Definition frame (m : vbbm_seg) :=
  (nFiles m, vbCapacity m, vbCurrentSize m, numHashBuckets m, files m, tableShmkey m,
   allocdSize m, fPVBBMImpl m, currentFileSize m).

Definition link_first (m : vbbm_seg) (e : VBBMEntry) (i : nat) (h : Z) : vbbm_seg :=
  let b := vb_bucket (numHashBuckets m) e in
  set_arrays (files m) (<[b := Z.of_nat i]> (hashBuckets m))
    (<[i := slot_set_next h e]> (storage m)) (set_field FvbLWM (Z.of_nat i) m).

Lemma insert_run e loading m log : table_wf m ->
  (used_count (storage m) < length (storage m))%nat ->
  exists i e0 h log', storage m !! i = Some e0 /\ ~ used e0 /\
    (forall j e', (j < i)%nat -> storage m !! j = Some e' -> used e') /\
    hashBuckets m !! vb_bucket (numHashBuckets m) e = Some h /\
    _insert e loading (mkUndoable m log) = (Ret tt, mkUndoable (link_first m e i h) log').
Proof.
  intros Hwf Hroom. pose proof (tw_lwm _ Hwf) as Hlwm.
  destruct (exists_free (storage m) (Z.to_nat (vbLWM m)) Hroom) as (i & e0 & Hi & Hf & Hb & Hki).
  { intros j e' Hj. apply (tw_lwm_used _ Hwf). lia. }
  destruct (bucket_head m e Hwf) as [h Hh].
  exists i, e0, h.
  assert (Hfree : find_free (S (length (storage m))) (storage m) (vbLWM m) = Ret (Z.of_nat i)).
  { rewrite <- (Z2Nat.id (vbLWM m)) by lia. apply (find_free_spec _ _ _ _ e0); auto.
    apply lookup_lt_Some in Hi. lia. }
  assert (Hhash : hash_index (vb_lbid e) (vb_verID e) (numHashBuckets m)
                  = Ret (Z.of_nat (vb_bucket (numHashBuckets m) e))).
  { rewrite hash_index_eq by (by apply tw_nb_pos). by rewrite (vb_bucket_key _ _ e). }
  unfold link_first. cbv zeta. generalize dependent (vb_bucket (numHashBuckets m) e).
  intros b Hh Hhash.
  destruct m as [nf cap sz lwm nb fs bs st key sz' p cfs]. simpl in *.
  enough (H : forall log', (store (DHdr FvbLWM (Z.of_nat i));;
    head ← rdBucket (Z.of_nat b);
    wrStorage (Z.of_nat i) (slot_set_next head e);; wrBucket (Z.of_nat b) (Z.of_nat i))
    (mkUndoable (mkVbbm nf cap sz lwm nb fs bs st key sz' p cfs) log') = (Ret tt, mkUndoable
      (mkVbbm nf cap sz (Z.of_nat i) nb fs (<[b := Z.of_nat i]> bs)
         (<[i := slot_set_next h e]> st) key sz' p cfs) log')).
  - destruct loading; eexists; (split_and!; [done..|]); unfold _insert;
      (erewrite bind_Ret by reflexivity); (erewrite bind_reading by exact Hhash);
      (erewrite bind_Ret by reflexivity); (erewrite bind_reading by exact Hfree);
      (erewrite bind_Ret by reflexivity); apply H.
  - intros log'. rewrite bind_store. simpl. unfold rdBucket, wrStorage, wrBucket, rdStorage.
    erewrite bind_reading by (simpl; by apply rd_nat).
    erewrite bind_Ret by (erewrite bind_reading by (simpl; by apply rd_nat); reflexivity).
    unfold rdBucket. erewrite bind_reading by (simpl; by apply rd_nat). simpl.
    unfold store, modify, set_image. simpl. by rewrite !wr_nat.
Qed.

(** [_insert] adds the entry to the map and keeps the table well formed. *)
Lemma link_first_wf m e i e0 h : table_wf m -> storage m !! i = Some e0 -> ~ used e0 ->
  (forall j e', (j < i)%nat -> storage m !! j = Some e' -> used e') ->
  hashBuckets m !! vb_bucket (numHashBuckets m) e = Some h ->
  used e -> vbbm_map m !! vb_key e = None ->
  let m' := link_first m e i h in
  table_wf m' /\ frame m' = frame m /\ length (storage m') = length (storage m) /\
  used_count (storage m') = S (used_count (storage m)) /\
  vbbm_map m' = <[vb_key e := vb_val e]> (vbbm_map m).
Proof.
  intros [Hcap Hnb Hpos Hlwm Hlwmu [cs Hcs] Hkeys] Hi Hf Hb Hh Hu Hnew. cbv zeta.
  assert (Hlt := lookup_lt_Some _ _ _ Hi).
  assert (Hu' : used (slot_set_next h e)) by done.
  assert (Hc : exists c, cs !! vb_bucket (numHashBuckets m) e = Some c).
  { apply lookup_lt_is_Some_2. rewrite (wt_length _ _ _ _ Hcs). by eapply lookup_lt_Some. }
  destruct Hc as [c Hc].
  assert (Hmap := contents_insert vb_key vb_val _ _ _ (slot_set_next h e) Hkeys Hi Hf Hu' Hnew).
  assert (Huq := unique_insert vb_key vb_val _ _ _ (slot_set_next h e) Hkeys Hi Hf Hnew).
  pose proof (wf_insert_head (vb_bucket (numHashBuckets m)) _ _ _ _ _ _ _ _
    (slot_set_next h e) Hcs Hi Hf Hu' (vb_bucket_key _ (slot_set_next h e) e eq_refl) Hh Hc eq_refl)
    as Htab.
  pose proof (used_count_insert (storage m) i e0 (slot_set_next h e) Hi) as Hcount.
  unfold used_nat in Hcount. rewrite decide_False in Hcount by done.
  rewrite decide_True in Hcount by done.
  unfold link_first, vbbm_map in *. cbv zeta.
  generalize dependent (vb_bucket (numHashBuckets m) e). intros b Hh Hc Htab.
  destruct m as [nf cap sz lwm nb fs bs st key sz' p cfs]. simpl in *.
  split_and!; [|done|by rewrite length_insert|lia|done].
  split; simpl; rewrite ?length_insert; try done; [lia| |by eexists].
  intros j e' Hj [(<- & <- & _)|[Hne Hj']]%list_lookup_insert_Some; [lia|].
  apply (Hb j); [lia|done].
Qed.

(** ** Copying a table *)

Definition copy_entry (e : VBBMEntry) : prog vbbm_obj unit :=
  if decide (vb_lbid e = -1) then mret tt else _insert e true.

Lemma copy_entries l d log : table_wf d -> unique_keys vb_key l ->
  (used_count (storage d) + used_count l <= length (storage d))%nat ->
  (forall e, stored l e -> vbbm_map d !! vb_key e = None) ->
  exists d' log', for_each l copy_entry (mkUndoable d log) = (Ret tt, mkUndoable d' log') /\
    table_wf d' /\ frame d' = frame d /\ length (storage d') = length (storage d) /\
    used_count (storage d') = (used_count (storage d) + used_count l)%nat /\
    vbbm_map d' = contents vb_key vb_val l ∪ vbbm_map d.
Proof.
  revert d log. induction l as [|e l IH]; intros d log Hwf Huq Hroom Hnew.
  { exists d, log. split_and!; try done.
    change (contents vb_key vb_val []) with (∅ : gmap (Z * Z) (DBROOTS_struct * FBO_struct)). by rewrite (left_id_L ∅ (∪)). }
  apply unique_keys_cons in Huq as [Huq Hne].
  cbn [for_each]. destruct (decide (vb_lbid e = -1)) as [Hfree|Hu].
  { assert (Hcount : used_count (e :: l) = used_count l).
    { unfold used_count. rewrite filter_cons, decide_False; [done|]. intros Hx. by apply Hx. }
    destruct (IH d log) as (d' & log' & Hrun & Hwf' & Hfr & Hlen & Hc & Hmap); try done.
    { lia. }
    { intros e' He'. by apply Hnew, stored_cons. }
    exists d', log'. erewrite bind_Ret by (unfold copy_entry; by rewrite decide_True).
    split_and!; try done; [lia|].
    rewrite Hmap. unfold contents. rewrite filter_cons, decide_False; [done|].
    intros Hx. by apply Hx. }
  assert (Hused : used e) by done.
  assert (Hcount : used_count (e :: l) = S (used_count l)).
  { unfold used_count. rewrite filter_cons, decide_True; [done|]. exact Hused. }
  destruct (insert_run e true d log Hwf) as (i & e0 & h & log1 & Hi & Hf & Hb & Hh & Hrun1).
  { lia. }
  destruct (link_first_wf d e i e0 h Hwf Hi Hf Hb Hh Hused) as (Hwf1 & Hfr1 & Hlen1 & Hc1 & Hmap1).
  { apply Hnew. by exists 0%nat. }
  destruct (IH (link_first d e i h) log1) as (d' & log' & Hrun & Hwf' & Hfr & Hlen & Hc & Hmap);
    try done.
  { lia. }
  { intros e' He'. rewrite Hmap1, lookup_insert_ne; [by apply Hnew, stored_cons|].
    intros Hk. by eapply Hne. }
  exists d', log'. erewrite bind_Ret
    by (unfold copy_entry; rewrite decide_False by done; exact Hrun1).
  split_and!; [done|done|congruence|congruence|lia|].
  rewrite Hmap, Hmap1, contents_cons by done. rewrite <- insert_union_l.
  symmetry. apply insert_union_r, contents_None; [done|]. by apply Hne.
Qed.

(** An empty table of the right size, as the new segment starts out. *)
Definition emptied (fs : list VBFileMetadata) (d : vbbm_seg) : vbbm_seg :=
  set_arrays fs (replicate (Z.to_nat (numHashBuckets d)) (-1))
    (replicate (Z.to_nat (vbCapacity d)) free_entry) d.

Lemma replicate_free n e : e ∈ replicate n free_entry -> ~ used e.
Proof. intros [-> _]%elem_of_replicate Hu. by apply Hu. Qed.

Lemma emptied_wf fs d : 0 < numHashBuckets d < 2 ^ 31 -> 0 <= vbCapacity d -> vbLWM d = 0 ->
  table_wf (emptied fs d) /\ vbbm_map (emptied fs d) = ∅ /\
  used_count (storage (emptied fs d)) = 0%nat.
Proof.
  destruct d as [nf cap sz lwm nb fs' bs st key sz' p cfs]. simpl. intros Hnb Hcap ->.
  split_and!.
  - split; simpl; rewrite ?length_replicate; try lia.
    + exists (replicate (length (replicate (Z.to_nat nb) (-1))) []).
      apply wf_table_empty; [by intros b h [-> _]%lookup_replicate|apply replicate_free].
    + intros i j ei ej Hi%list_elem_of_lookup_2 _ Hu. by destruct (replicate_free _ _ Hi).
  - apply contents_empty, replicate_free.
  - apply used_count_zero. intros i e He%list_elem_of_lookup_2. by eapply replicate_free.
Qed.

Lemma length_files_copy m : length (files_copy m) = Z.to_nat (nFiles m).
Proof. unfold files_copy. by rewrite length_fmap, length_seq. Qed.

Lemma files_copy_id m : nFiles m = Z.of_nat (length (files m)) -> files_copy m = files m.
Proof.
  intros H. unfold files_copy. rewrite H, Nat2Z.id. apply list_eq. intros i.
  rewrite list_lookup_fmap. destruct (files m !! i) as [f|] eqn:Hf.
  - rewrite lookup_seq_lt by (by eapply lookup_lt_Some). simpl. unfold files_at. by rewrite Hf.
  - rewrite lookup_seq_ge by (by apply lookup_ge_None). done.
Qed.

(** [copyVBBM] copies the entries below [vbCurrentSize]. *)
Lemma copyVBBM_run src d log : table_wf src ->
  0 <= vbCurrentSize src <= vbCapacity src ->
  0 < numHashBuckets d < 2 ^ 31 -> vbCapacity src <= vbCapacity d -> vbLWM d = 0 ->
  exists d' log', copyVBBM src (mkUndoable d log) = (Ret tt, mkUndoable d' log') /\
    table_wf d' /\
    frame d' = frame (set_field FvbCurrentSize (vbCurrentSize src)
                        (set_field FnFiles (nFiles src) (emptied (files_copy src) d))) /\
    vbbm_map d' = contents vb_key vb_val (take (Z.to_nat (vbCurrentSize src)) (storage src)) /\
    used_count (storage d') =
      used_count (take (Z.to_nat (vbCurrentSize src)) (storage src)).
Proof.
  intros Hwf Hsz Hnb Hcap Hlwm. set (l := take _ _).
  set (d0 := emptied (files_copy src)
    (set_field FvbCurrentSize (vbCurrentSize src) (set_field FnFiles (nFiles src) d))).
  assert (Hd0 : table_wf d0 /\ vbbm_map d0 = ∅ /\ used_count (storage d0) = 0%nat).
  { apply emptied_wf; destruct d; simpl in *; try done. pose proof (tw_lwm _ Hwf). lia. }
  destruct Hd0 as (Hwf0 & Hmap0 & Hc0).
  assert (Hl : length l = Z.to_nat (vbCurrentSize src)).
  { unfold l. rewrite length_take. pose proof (tw_cap _ Hwf). lia. }
  destruct (copy_entries l d0 log) as (d' & log' & Hrun & Hwf' & Hfr & Hlen & Hc & Hmap); try done.
  - intros i j ei ej [Hi _]%lookup_take_Some [Hj _]%lookup_take_Some.
    by apply (tw_keys _ Hwf).
  - rewrite Hc0. pose proof (used_count_le l). pose proof (tw_cap _ Hwf0) as Hcap0.
    assert (vbCapacity d0 = vbCapacity d) by (unfold d0; by destruct d). lia.
  - intros e He. by rewrite Hmap0, lookup_empty.
  - exists d', log'. split_and!; try done.
    + transitivity (for_each (seqZ 0 (vbCurrentSize src))
        (fun i => reading (fun _ => rd (storage src) i) ≫= copy_entry)
        (mkUndoable d0 log)); [unfold d0; by destruct d|].
      rewrite <- Hrun, <- (for_each_array [] l (drop (Z.to_nat (vbCurrentSize src)) (storage src))).
      simpl. unfold l. rewrite take_drop. fold l. rewrite Hl, Z2Nat.id by lia. done.
    + rewrite Hfr. unfold d0. by destruct d.
    + by rewrite Hmap, Hmap0, (right_id_L ∅ (∪)).
    + lia.
Qed.

(** ** Growth *)

(** The segment has been allocated and is mapped. *)
Definition mapped (m : vbbm_seg) : Prop := fPVBBMImpl m = true /\ 0 < allocdSize m.

(** No used entry lies at or above [vbCurrentSize]. *)
Definition dense (m : vbbm_seg) : Prop :=
  forall i e, storage m !! i = Some e -> used e -> Z.of_nat i < vbCurrentSize m.

Lemma dense_take m : dense m ->
  filter used (take (Z.to_nat (vbCurrentSize m)) (storage m)) = filter used (storage m).
Proof.
  intros Hd. rewrite <- (take_drop (Z.to_nat (vbCurrentSize m)) (storage m)) at 2.
  rewrite filter_app. rewrite <- (app_nil_r (filter used (take _ _))) at 1. f_equal.
  symmetry. apply elem_of_nil_inv. intros e.
  rewrite list_elem_of_filter, list_elem_of_lookup. intros [Hu [i Hi]].
  rewrite lookup_drop in Hi. specialize (Hd _ _ Hi Hu). lia.
Qed.

Lemma full_dense m : vbbm_wf m -> vbCurrentSize m = vbCapacity m -> dense m.
Proof.
  intros Hwf Hfull i e Hi _. apply lookup_lt_Some in Hi.
  rewrite Hfull, (tw_cap _ (vw_table _ Hwf)). lia.
Qed.

Lemma vbbm_wf_size m : vbbm_wf m -> 0 <= vbCurrentSize m <= vbCapacity m.
Proof.
  intros Hwf. rewrite (vw_size _ Hwf), (tw_cap _ (vw_table _ Hwf)).
  pose proof (used_count_le (storage m)). lia.
Qed.

Record grown (addAFile : Z) (m m' : vbbm_seg) : Prop := {
  gr_table : table_wf m';
  gr_nFiles : nFiles m' = nFiles m + addAFile;
  gr_files : files m `prefix_of` files m';
  gr_files_len : Z.of_nat (length (files m')) = nFiles m';
  gr_size : vbCurrentSize m' = vbCurrentSize m;
  gr_cap : vbCapacity m' =
    vbCapacity m + if decide (addAFile = 0) then VBSTORAGE_INCREMENT_COUNT else 0;
  gr_nb : numHashBuckets m' = numHashBuckets m + if decide (addAFile = 0) then 2500 else 0;
  gr_mapped : mapped m';
  gr_map : vbbm_map m' =
    contents vb_key vb_val (take (Z.to_nat (vbCurrentSize m)) (storage m));
  gr_count : used_count (storage m') =
    used_count (take (Z.to_nat (vbCurrentSize m)) (storage m));
  gr_cfs : currentFileSize m' = currentFileSize m;
}.

Lemma frame_inv m m' : frame m = frame m' ->
  nFiles m = nFiles m' /\ vbCapacity m = vbCapacity m' /\ vbCurrentSize m = vbCurrentSize m' /\
  numHashBuckets m = numHashBuckets m' /\ files m = files m' /\ tableShmkey m = tableShmkey m' /\
  allocdSize m = allocdSize m' /\ fPVBBMImpl m = fPVBBMImpl m' /\
  currentFileSize m = currentFileSize m'.
Proof. intros [=]. done. Qed.

Lemma files_copy_prefix m k : 0 <= k -> nFiles m = Z.of_nat (length (files m)) ->
  files m `prefix_of` files_copy (set_field FnFiles (nFiles m + k) m).
Proof.
  intros Hk H. destruct m as [nf cap sz lwm nb fs bs st key sz' p cfs]. simpl in *.
  unfold files_copy. simpl. subst nf.
  replace (Z.to_nat (Z.of_nat (length fs) + k)) with (length fs + Z.to_nat k)%nat by lia.
  rewrite seq_app, fmap_app.
  pose proof (files_copy_id (mkVbbm (Z.of_nat (length fs)) cap sz lwm nb fs bs st key sz' p cfs)
    eq_refl) as Hid.
  unfold files_copy in Hid. simpl in Hid. rewrite Nat2Z.id in Hid.
  apply prefix_app_r. rewrite <- Hid at 1. apply reflexive_eq, list_fmap_ext.
  intros i x Hx. done.
Qed.

(** Growing copies the entries below [vbCurrentSize] into a larger table. *)
Lemma growVBBM_run cfg addAFile m log : vbbm_wf m -> mapped m -> 0 <= addAFile ->
  numHashBuckets m + 2500 < 2 ^ 31 ->
  exists m', growVBBM cfg addAFile (mkUndoable m log) = (Ret tt, mkUndoable m' []) /\
    grown addAFile m m'.
Proof.
  intros Hwf [Himpl Halloc] Hadd Hnb.
  set (m1 := if decide (addAFile = 0) then m else set_field FnFiles (nFiles m + addAFile) m).
  assert (Hm1 : table_wf m1 /\ storage m1 = storage m /\ vbCurrentSize m1 = vbCurrentSize m /\
    vbCapacity m1 = vbCapacity m /\ numHashBuckets m1 = numHashBuckets m /\
    fPVBBMImpl m1 = true /\ nFiles m1 = nFiles m + addAFile /\
    files m `prefix_of` files_copy m1 /\ currentFileSize m1 = currentFileSize m).
  { unfold m1. destruct (decide (addAFile = 0)) as [->|Hne].
    - rewrite files_copy_id by apply Hwf. split_and!; try done; [apply Hwf|lia].
    - assert (Hp := files_copy_prefix m addAFile Hadd (vw_files _ Hwf)).
      destruct (vw_table _ Hwf) as [Hcap Hbs Hpos Hlwm Hlwmu Htab Hkeys].
      destruct m. simpl in *. split_and!; done. }
  destruct Hm1 as (Hwf1 & Hst & Hsz & Hcap & Hb & Hi & Hnf & Hpre & Hcfs).
  pose proof (vbbm_wf_size m Hwf). pose proof (tw_nb_pos _ (vw_table _ Hwf)).
  set (tmp := set_field FvbCapacity (vbCapacity m1
      + if decide (addAFile = 0) then VBSTORAGE_INCREMENT / sizeof_VBBMEntry else 0)
    (set_field FnumHashBuckets (numHashBuckets m1
      + if decide (addAFile = 0) then VBTABLE_INCREMENT / 4 else 0)
      (set_field FvbLWM 0 (blank m1)))).
  destruct (copyVBBM_run m1 tmp []) as (d' & log' & Hrun & Hwf' & Hfr & Hmap & Hc); try done.
  { lia. }
  { simpl. rewrite Hb. change (VBTABLE_INCREMENT / 4) with 2500. case_decide; lia. }
  { simpl. rewrite Hcap. change (VBSTORAGE_INCREMENT / sizeof_VBBMEntry) with 10000.
    case_decide; lia. }
  exists (set_shminfo (chooseShmkey m1)
    (if decide (addAFile = 0) then allocdSize m + VBBM_INCREMENT
     else allocdSize m + sizeof_VBFileMetadata * addAFile) d').
  split.
  - unfold growVBBM. erewrite bind_Ret by reflexivity. cbv zeta.
    cbn [image]. rewrite (bool_decide_eq_false_2 (allocdSize m = 0)) by lia. cbn [orb].
    erewrite bind_Ret with (s' := mkUndoable m1 log).
    2: { unfold m1. case_bool_decide; case_decide; done. }
    erewrite bind_Ret by reflexivity. cbn [image]. rewrite Hi.
    erewrite bind_Ret with (s' := mkUndoable d' []); [done|].
    fold tmp. by rewrite Hrun.
  - apply frame_inv in Hfr as (F1 & F2 & F3 & F4 & F5 & F6 & F7 & F8 & F9).
    change (VBTABLE_INCREMENT / 4) with 2500 in *.
    change (VBSTORAGE_INCREMENT / sizeof_VBBMEntry) with VBSTORAGE_INCREMENT_COUNT in *.
    simpl in F1, F2, F3, F4, F5, F6, F7, F8, F9.
    pose proof (length_files_copy m1) as Hfl. pose proof (vw_files _ Hwf).
    destruct Hwf' as [Wcap Wbs Wpos Wlwm Wlwmu Wtab Wkeys]. unfold vbbm_map in Hmap.
    destruct d' as [nf cap sz lwm nb fs bs st key sz' p cfs]. simpl in *. subst.
    split; unfold vbbm_map; simpl; try congruence; try lia.
    + by split.
    + split; simpl; [done|]. change VBBM_INCREMENT with 410000.
      case_decide; unfold sizeof_VBFileMetadata; lia.
Qed.

Lemma growVBBM_dense cfg addAFile m log : vbbm_wf m -> mapped m -> dense m -> 0 <= addAFile ->
  numHashBuckets m + 2500 < 2 ^ 31 ->
  exists m', growVBBM cfg addAFile (mkUndoable m log) = (Ret tt, mkUndoable m' []) /\
    grown addAFile m m' /\ vbbm_wf m' /\ vbbm_map m' = vbbm_map m.
Proof.
  intros Hwf Hm Hd Hadd Hnb.
  destruct (growVBBM_run cfg addAFile m log Hwf Hm Hadd Hnb) as (m' & Hrun & Hg).
  exists m'. split_and!; [done|done|..].
  - split; [apply Hg| |].
    + rewrite (gr_size _ _ _ Hg), (gr_count _ _ _ Hg).
      unfold used_count. rewrite dense_take by done. apply (vw_size _ Hwf).
    + symmetry. apply Hg.
  - rewrite (gr_map _ _ _ Hg). unfold vbbm_map, contents. by rewrite dense_take.
Qed.

Lemma grown_files m m' : vbbm_wf m -> grown 0 m m' -> files m' = files m.
Proof.
  intros Hwf Hg. destruct (gr_files _ _ _ Hg) as [l Hl].
  pose proof (gr_files_len _ _ _ Hg) as Hlen. rewrite (gr_nFiles _ _ _ Hg), (vw_files _ Hwf) in Hlen.
  rewrite Hl, length_app in Hlen. destruct l; [|simpl in Hlen; lia]. by rewrite Hl, app_nil_r.
Qed.

(** [insert] when there is room. *)
Lemma insert_room cfg m log lbid verID o f loading : vbbm_wf m -> mapped m ->
  vbCurrentSize m < vbCapacity m -> 0 <= lbid -> vbbm_map m !! (lbid, verID) = None ->
  exists m' log', insert cfg lbid verID o f loading (mkUndoable m log)
    = (Ret tt, mkUndoable m' log') /\ vbbm_wf m' /\ mapped m' /\
    vbbm_map m' = <[(lbid, verID) := (o, f)]> (vbbm_map m) /\
    frame m' = frame (set_field FvbCurrentSize (vbCurrentSize m + 1) m) /\
    (exists i z, storage m' = <[i := mkVBBMEntry lbid o f verID z]> (storage m)).
Proof.
  intros Hwf Hm Hroom Hl Hnew. set (e := mkVBBMEntry lbid o f verID (-1)).
  assert (He : used e) by (unfold used; simpl; lia).
  destruct (insert_run e loading m log) as (i & e0 & h & log1 & Hi & Hf & Hb & Hh & Hrun);
    [apply Hwf| |].
  { rewrite (vw_size _ Hwf), (tw_cap _ (vw_table _ Hwf)) in Hroom. lia. }
  destruct (link_first_wf m e i e0 h (vw_table _ Hwf) Hi Hf Hb Hh He Hnew)
    as (Hwf1 & Hfr1 & Hlen1 & Hc1 & Hmap1).
  set (m1 := link_first m e i h) in *.
  assert (Hst1 : storage m1 = <[i := mkVBBMEntry lbid o f verID h]> (storage m))
    by (unfold m1; by destruct m).
  apply frame_inv in Hfr1 as (F1 & F2 & F3 & F4 & F5 & F6 & F7 & F8 & F9).
  assert (Hfin : exists log', insert cfg lbid verID o f loading (mkUndoable m log)
    = (Ret tt, mkUndoable (set_field FvbCurrentSize (vbCurrentSize m + 1) m1) log')).
  { destruct loading; eexists; unfold insert;
      (erewrite bind_Ret by reflexivity); (erewrite bind_Ret by reflexivity);
      cbn [get_field image]; (rewrite decide_False by lia); (erewrite bind_Ret by reflexivity);
      (erewrite bind_Ret by exact Hrun); (erewrite bind_Ret by reflexivity);
      (erewrite bind_Ret by reflexivity); simpl; rewrite F3; reflexivity. }
  destruct Hfin as [log' Hfin].
  exists (set_field FvbCurrentSize (vbCurrentSize m + 1) m1), log'. split; [exact Hfin|].
  clear Hfin Hrun Hh.
  pose proof (vw_size _ Hwf). pose proof (vw_files _ Hwf). destruct Hm as [Hm1 Hm2].
  destruct Hwf1 as [Wcap Wbs Wpos Wlwm Wlwmu Wtab Wkeys]. unfold vbbm_map in Hmap1.
  clearbody m1. destruct m1, m. simpl in *. subst.
  split_and!; [|by split|done|done|by exists i, h].
  split; simpl; [by split|lia|done].
Qed.

(** A full table grows first, and [insert] starts over in the larger one. *)
Lemma insert_full cfg m log lbid verID o f loading m1 :
  vbCurrentSize m = vbCapacity m ->
  growVBBM cfg 0 (mkUndoable m log) = (Ret tt, mkUndoable m1 []) ->
  vbCurrentSize m1 < vbCapacity m1 ->
  insert cfg lbid verID o f loading (mkUndoable m log)
  = insert cfg lbid verID o f loading (mkUndoable m1 []).
Proof.
  intros Hfull Hrun Hroom. unfold insert at 1.
  do 2 (erewrite bind_Ret by reflexivity). cbn [get_field image].
  rewrite decide_True by done. erewrite bind_Ret by exact Hrun. symmetry. unfold insert.
  do 2 (erewrite bind_Ret by reflexivity). cbn [get_field image].
  rewrite decide_False by lia. by erewrite bind_Ret by reflexivity.
Qed.

Lemma insert_spec cfg m log lbid verID o f loading : vbbm_wf m -> mapped m ->
  numHashBuckets m + 2500 < 2 ^ 31 -> 0 <= lbid -> vbbm_map m !! (lbid, verID) = None ->
  exists m' log', insert cfg lbid verID o f loading (mkUndoable m log)
    = (Ret tt, mkUndoable m' log') /\ vbbm_wf m' /\ mapped m' /\
    vbbm_map m' = <[(lbid, verID) := (o, f)]> (vbbm_map m) /\ files m' = files m.
Proof.
  intros Hwf Hm Hnb Hl Hnew.
  destruct (decide (vbCurrentSize m = vbCapacity m)) as [Hfull|Hroom].
  - destruct (growVBBM_dense cfg 0 m log) as (m1 & Hrun & Hg & Hwf1 & Hmap1);
      [done|done|by apply full_dense|lia|done|].
    assert (Hroom1 : vbCurrentSize m1 < vbCapacity m1).
    { rewrite (gr_size _ _ _ Hg), (gr_cap _ _ _ Hg), decide_True by done.
      unfold VBSTORAGE_INCREMENT_COUNT. lia. }
    rewrite (insert_full cfg m log lbid verID o f loading m1 Hfull Hrun Hroom1).
    destruct (insert_room cfg m1 [] lbid verID o f loading) as (m' & log' & H1 & H2 & H3 & H4 & H5 & _);
      [done|apply Hg|done|done|by rewrite Hmap1|].
    exists m', log'. apply frame_inv in H5 as (_ & _ & _ & _ & F5 & _).
    split_and!; [done..| |].
    + by rewrite H4, Hmap1.
    + rewrite F5. transitivity (files m1); [by destruct m1|by apply grown_files].
  - pose proof (vbbm_wf_size m Hwf).
    destruct (insert_room cfg m log lbid verID o f loading) as (m' & log' & H1 & H2 & H3 & H4 & H5 & _);
      [done|done|lia|done|done|].
    exists m', log'. apply frame_inv in H5 as (_ & _ & _ & _ & F5 & _).
    split_and!; [done..|]. rewrite F5. by destruct m.
Qed.

(** ** Removal *)

Definition with_links (bs : list Z) (st : list VBBMEntry) (m : vbbm_seg) : vbbm_seg :=
  set_arrays (files m) bs st m.

(** Runs of the array accesses. *)
Section ArrayRuns.
Context {A : Type}.
Implicit Types (m : vbbm_seg) (log : list (ImageDelta vb_delta)).

Lemma bind_rdStorage i e (k : VBBMEntry -> prog vbbm_obj A) m log :
  storage m !! i = Some e ->
  (rdStorage (Z.of_nat i) ≫= k) (mkUndoable m log) = k e (mkUndoable m log).
Proof. intros H. apply bind_reading. by apply rd_nat. Qed.

Lemma bind_rdBucket b h (k : Z -> prog vbbm_obj A) m log :
  hashBuckets m !! b = Some h ->
  (rdBucket (Z.of_nat b) ≫= k) (mkUndoable m log) = k h (mkUndoable m log).
Proof. intros H. apply bind_reading. by apply rd_nat. Qed.

Lemma bind_wrStorage i e0 e (q : prog vbbm_obj A) m log :
  storage m !! i = Some e0 ->
  (wrStorage (Z.of_nat i) e ≫= fun _ => q) (mkUndoable m log)
  = q (mkUndoable (with_links (hashBuckets m) (<[i := e]> (storage m)) m) log).
Proof.
  intros H. unfold wrStorage. rewrite prog_bind_assoc.
  unfold rdStorage. erewrite bind_reading by (by apply rd_nat).
  rewrite bind_store. simpl. by rewrite wr_nat.
Qed.

Lemma bind_wrBucket b h0 h (q : prog vbbm_obj A) m log :
  hashBuckets m !! b = Some h0 ->
  (wrBucket (Z.of_nat b) h ≫= fun _ => q) (mkUndoable m log)
  = q (mkUndoable (with_links (<[b := h]> (hashBuckets m)) (storage m) m) log).
Proof.
  intros H. unfold wrBucket. rewrite prog_bind_assoc.
  unfold rdBucket. erewrite bind_reading by (by apply rd_nat).
  rewrite bind_store. simpl. by rewrite wr_nat.
Qed.
End ArrayRuns.

Definition removed (m : vbbm_seg) (b i : nat) (e : VBBMEntry) (prev : Z) : vbbm_seg :=
  let '(bs, st) := unlinked (hashBuckets m) (storage m) b i e prev in
  let m1 := set_field FvbCurrentSize (vbCurrentSize m - 1) (with_links bs st m) in
  if decide (Z.of_nat i < vbLWM m) then set_field FvbLWM (Z.of_nat i) m1 else m1.

(** The end of [removeEntry]: the header. *)
Lemma remove_tail i m log :
  exists log',
    (makeUndoRecord header_cells;;
     size ← field FvbCurrentSize;
     store (DHdr FvbCurrentSize (size - 1));;
     lwm ← field FvbLWM;
     if decide (i < lwm) then store (DHdr FvbLWM i) else mret tt) (mkUndoable m log)
    = (Ret tt, mkUndoable
        (let m1 := set_field FvbCurrentSize (vbCurrentSize m - 1) m in
         if decide (i < vbLWM m) then set_field FvbLWM i m1 else m1) log').
Proof.
  destruct m. eexists. rewrite bind_makeUndoRecord by done. erewrite bind_Ret by reflexivity.
  rewrite bind_store. erewrite bind_Ret by reflexivity. simpl.
  by case_decide.
Qed.

Lemma remove_links m log b i e prev (q : prog vbbm_obj unit) :
  storage m !! i = Some e -> is_Some (hashBuckets m !! b) ->
  (prev = -1 \/ exists p : nat, prev = Z.of_nat p /\ p <> i /\ is_Some (storage m !! p)) ->
  exists log',
    (makeUndoRecord [CStorage (Z.of_nat i)];;
     e ← rdStorage (Z.of_nat i);
     wrStorage (Z.of_nat i) (slot_set_lbid (-1) e);;
     (if decide (prev <> -1) then
        makeUndoRecord [CStorage prev];;
        e ← rdStorage (Z.of_nat i);
        p ← rdStorage prev;
        wrStorage prev (slot_set_next (vb_next e) p)
      else
        makeUndoRecord [CBucket (Z.of_nat b)];;
        e ← rdStorage (Z.of_nat i);
        wrBucket (Z.of_nat b) (vb_next e));; q) (mkUndoable m log)
    = q (mkUndoable
           (let '(bs, st) := unlinked (hashBuckets m) (storage m) b i e prev in
            with_links bs st m) log').
Proof.
  intros Hi [h Hh] Hp. assert (Hlt := lookup_lt_Some _ _ _ Hi).
  rewrite bind_makeUndoRecord by done. erewrite bind_rdStorage by done.
  erewrite bind_wrStorage by done. unfold unlinked.
  destruct m as [nf cap sz lwm nb fs bs st key sz' pp cfs]. unfold with_links. simpl in *.
  assert (Hi' : <[i := slot_set_lbid (-1) e]> st !! i = Some (slot_set_lbid (-1) e))
    by (by apply list_lookup_insert_eq).
  destruct Hp as [->|(p & -> & Hpi & [ep Hep])].
  - eexists. rewrite decide_False by lia. rewrite decide_True by done.
    rewrite prog_bind_assoc, bind_makeUndoRecord by done.
    rewrite prog_bind_assoc. erewrite bind_rdStorage by done. by erewrite bind_wrBucket by done.
  - eexists. rewrite decide_True by lia. rewrite decide_False by lia. rewrite Nat2Z.id, Hep.
    assert (Hep' : <[i := slot_set_lbid (-1) e]> st !! p = Some ep)
      by (by rewrite list_lookup_insert_ne).
    rewrite prog_bind_assoc, bind_makeUndoRecord by done.
    rewrite prog_bind_assoc. erewrite bind_rdStorage by done.
    rewrite prog_bind_assoc. erewrite bind_rdStorage by done.
    by erewrite bind_wrStorage by done.
Qed.

Lemma removeEntry_run m log lbid verID cs : table_wf m ->
  wf_table (vb_bucket (numHashBuckets m)) (hashBuckets m) (storage m) cs ->
  (vbbm_map m !! (lbid, verID) = None /\
   removeEntry lbid verID (mkUndoable m log) = (Ret tt, mkUndoable m log)) \/
  (exists l1 i l2 e b log', cs !! b = Some (l1 ++ i :: l2) /\ storage m !! i = Some e /\
    used e /\ vb_key e = (lbid, verID) /\
    removeEntry lbid verID (mkUndoable m log)
    = (Ret tt, mkUndoable (removed m b i e (prev_of l1)) log')).
Proof.
  intros Hwf Hcs. destruct (getIndex_spec m cs lbid verID Hwf Hcs) as (r & Hr & Hout).
  destruct Hout as [l1 i l2 e b Hc Hi Hu Hk|prev b Hn].
  2: { left. split; [done|]. unfold removeEntry. by erewrite bind_reading by exact Hr. }
  right. exists l1, i, l2, e, b.
  assert (Hb : is_Some (hashBuckets m !! b)).
  { apply lookup_lt_is_Some_2. rewrite <- (wt_length _ _ _ _ Hcs). by eapply lookup_lt_Some. }
  pose proof (prev_of_spec _ _ _ _ _ _ _ _ Hcs Hc) as Hprev.
  unfold removeEntry. erewrite bind_reading by exact Hr. cbv beta iota.
  rewrite decide_False by lia.
  edestruct (remove_links m log b i e (prev_of l1)) as [log1 Hlinks]; [done..|].
  rewrite Hlinks.
  edestruct (remove_tail (Z.of_nat i)) as [log' Htail]. exists log'.
  split_and!; [done..|]. rewrite Htail. unfold removed.
  destruct (unlinked _ _ _ _ _ _) as [bs st]. by destruct m.
Qed.

Lemma unlinked_contents m b i e prev : table_wf m -> storage m !! i = Some e -> used e ->
  (prev <> -1 -> Z.to_nat prev <> i) ->
  let st' := snd (unlinked (hashBuckets m) (storage m) b i e prev) in
  contents vb_key vb_val st' = delete (vb_key e) (vbbm_map m) /\
  unique_keys vb_key st' /\ length st' = length (storage m) /\
  S (used_count st') = used_count (storage m) /\
  (forall j ej, st' !! j = Some ej -> exists ej', storage m !! j = Some ej' /\
     vb_val ej = vb_val ej' /\ (j <> i -> vb_key ej = vb_key ej')) /\
  (forall ej, st' !! i = Some ej -> ~ used ej).
Proof.
  intros Hwf Hi Hu Hpi. pose proof (tw_keys _ Hwf) as Hkeys.
  assert (Hlt := lookup_lt_Some _ _ _ Hi).
  assert (Hf : ~ used (slot_set_lbid (-1) e)) by (intros Hx; by apply Hx).
  set (st1 := <[i := slot_set_lbid (-1) e]> (storage m)).
  assert (H1 : contents vb_key vb_val st1 = delete (vb_key e) (vbbm_map m))
    by (by apply contents_free).
  assert (H2 : unique_keys vb_key st1) by (by apply unique_free).
  assert (H3 : S (used_count st1) = used_count (storage m)).
  { pose proof (used_count_insert _ _ _ (slot_set_lbid (-1) e) Hi) as Hcount.
    unfold used_nat in Hcount. rewrite decide_True, decide_False in Hcount by done.
    unfold st1. lia. }
  assert (H4 : forall j ej, st1 !! j = Some ej -> exists ej', storage m !! j = Some ej' /\
    vb_val ej = vb_val ej' /\ (j <> i -> vb_key ej = vb_key ej')).
  { intros j ej. unfold st1. intros [(<- & <- & _)|[Hne Hj]]%list_lookup_insert_Some.
    - by exists e.
    - by exists ej. }
  assert (H5 : forall ej, st1 !! i = Some ej -> ~ used ej).
  { intros ej. unfold st1. rewrite list_lookup_insert_eq by done. by intros [= <-]. }
  unfold unlinked. fold st1. case_decide as Hp; cbn [snd].
  { split_and!; try done. unfold st1. by rewrite length_insert. }
  destruct (storage m !! Z.to_nat prev) as [ep|] eqn:Hep; cbn [snd].
  2: { split_and!; try done. unfold st1. by rewrite length_insert. }
  assert (Hep' : st1 !! Z.to_nat prev = Some ep).
  { unfold st1. rewrite list_lookup_insert_ne; [done|]. intros Hx. by apply Hpi. }
  split_and!.
  - by rewrite (contents_same vb_key vb_val _ _ ep).
  - by apply (unique_update vb_key _ _ ep).
  - unfold st1. by rewrite !length_insert.
  - pose proof (used_count_insert _ _ _ (slot_set_next (slot_next e) ep) Hep') as Hcount.
    assert (Hsame : used_nat (slot_set_next (slot_next e) ep) = used_nat ep) by done. lia.
  - intros j ej [(<- & <- & _)|[_ Hst]]%list_lookup_insert_Some; [|by eapply H4].
    by exists ep.
  - intros ej. rewrite list_lookup_insert_ne; [apply H5|]. intros Hx. by apply Hpi.
Qed.

Lemma removed_wf m cs b l1 i l2 e : vbbm_wf m ->
  wf_table (vb_bucket (numHashBuckets m)) (hashBuckets m) (storage m) cs ->
  cs !! b = Some (l1 ++ i :: l2) -> storage m !! i = Some e -> used e ->
  let m' := removed m b i e (prev_of l1) in
  vbbm_wf m' /\ vbbm_map m' = delete (vb_key e) (vbbm_map m) /\ files m' = files m /\
  (mapped m -> mapped m') /\ vbCapacity m' = vbCapacity m /\
  numHashBuckets m' = numHashBuckets m /\ vbCurrentSize m' = vbCurrentSize m - 1 /\
  (forall j ej, storage m' !! j = Some ej -> exists ej', storage m !! j = Some ej' /\
     vb_val ej = vb_val ej' /\ (used ej -> vb_key ej = vb_key ej')).
Proof.
  intros Hwf Hcs Hc Hi Hu. cbv zeta. pose proof (vw_table _ Hwf) as Htw.
  pose proof (prev_of_ne _ _ _ _ _ _ _ _ Hcs Hc) as Hpi.
  destruct (unlinked_contents m b i e (prev_of l1) Htw Hi Hu Hpi) as (H1 & H2 & H3 & H4 & H5 & H6).
  pose proof (wf_unlink (vb_bucket (numHashBuckets m))
    (fun z e => vb_bucket_key _ (slot_set_next z e) e eq_refl)
    _ _ _ _ _ _ _ _ Hcs Hc Hi) as Hun.
  assert (Hbl : length (fst (unlinked (hashBuckets m) (storage m) b i e (prev_of l1)))
                = length (hashBuckets m)).
  { unfold unlinked. repeat case_match; simpl; by rewrite ?length_insert. }
  unfold removed. destruct (unlinked _ _ _ _ _ _) as [bs st]. simpl in *.
  assert (Hlt := lookup_lt_Some _ _ _ Hi).
  pose proof (vw_size _ Hwf) as Hs. pose proof (vw_files _ Hwf) as Hfl.
  destruct Htw as [Wcap Wbs Wpos Wlwm Wlwmu _ _]. unfold vbbm_map, mapped, with_links in *.
  destruct m as [nf cap sz lwm nb fs bs0 st0 key sz' p cfs]. simpl in *.
  assert (Hbelow : forall j ej, Z.of_nat j < Z.min lwm (Z.of_nat i) -> st !! j = Some ej -> used ej).
  { intros j ej Hj Hej. destruct (H5 j ej) as (ej' & Hej' & _ & Hk); [done|].
    specialize (Hk ltac:(lia)) as [= Hl Hv]. unfold used. simpl. rewrite Hl. apply (Wlwmu j); [lia|done]. }
  assert (Hkeep : forall j ej, st !! j = Some ej -> exists ej', st0 !! j = Some ej' /\
    vb_val ej = vb_val ej' /\ (used ej -> vb_key ej = vb_key ej')).
  { intros j ej Hj. destruct (H5 j ej Hj) as (ej' & Hj' & Hv & Hk). exists ej'.
    split_and!; [done..|]. intros Huj. apply Hk. intros ->. by eapply H6. }
  destruct (decide (Z.of_nat i < lwm)) as [Hd|Hd]; (split_and!; [|done..]); split; simpl; try done; try lia;
    split; simpl; eauto; try lia; intros j ej Hj; apply Hbelow; lia.
Qed.

Lemma vbbm_removeEntry_spec m log lbid verID : vbbm_wf m ->
  exists m' log', removeEntry lbid verID (mkUndoable m log) = (Ret tt, mkUndoable m' log') /\
    vbbm_wf m' /\ vbbm_map m' = delete (lbid, verID) (vbbm_map m) /\ files m' = files m /\
    (mapped m -> mapped m') /\ vbCapacity m' = vbCapacity m /\
    numHashBuckets m' = numHashBuckets m /\ vbCurrentSize m' <= vbCurrentSize m /\
    (forall j ej, storage m' !! j = Some ej -> exists ej', storage m !! j = Some ej' /\
       vb_val ej = vb_val ej' /\ (used ej -> vb_key ej = vb_key ej')).
Proof.
  intros Hwf. destruct (tw_table _ (vw_table _ Hwf)) as [cs Hcs].
  destruct (removeEntry_run m log lbid verID cs (vw_table _ Hwf) Hcs)
    as [[Hn Hrun]|(l1 & i & l2 & e & b & log' & Hc & Hi & Hu & Hk & Hrun)].
  - exists m, log. split_and!; try done; [|by intros; eexists].
    symmetry. by apply delete_id.
  - destruct (removed_wf m cs b l1 i l2 e Hwf Hcs Hc Hi Hu)
      as (H1 & H2 & H3 & H4 & H5 & H6 & H7 & H8).
    exists (removed m b i e (prev_of l1)), log'. rewrite <- Hk. split_and!; try done. lia.
Qed.

(** ** Undoing *)

Lemma undo_safe_wrStorage K i e : CStorage i ∈ K -> undo_safe K (wrStorage i e).
Proof. intros. unfold wrStorage, rdStorage. solve_undo. Qed.
Lemma undo_safe_wrBucket K i v : CBucket i ∈ K -> undo_safe K (wrBucket i v).
Proof. intros. unfold wrBucket, rdBucket. solve_undo. Qed.
Lemma undo_safe_wrFile K i v : CFile i ∈ K -> undo_safe K (wrFile i v).
Proof. intros. unfold wrFile, rdFile. solve_undo. Qed.

Ltac vbbm_undo := repeat first
  [ lazymatch goal with
    | |- undo_safe _ (wrStorage _ _) => apply undo_safe_wrStorage; set_solver
    | |- undo_safe _ (wrBucket _ _) => apply undo_safe_wrBucket; set_solver
    | |- undo_safe _ (wrFile _ _) => apply undo_safe_wrFile; set_solver
    | |- undo_safe _ (field _) => apply undo_safe_gets
    | |- undo_safe _ (rdStorage _) => apply undo_safe_reading
    | |- undo_safe _ (rdBucket _) => apply undo_safe_reading
    | |- undo_safe _ (rdFile _) => apply undo_safe_reading
    end
  | undo_step ].

Lemma removeEntry_undo_safe K lbid verID : undo_safe K (removeEntry lbid verID).
Proof. unfold removeEntry. vbbm_undo. Qed.

Lemma _insert_undo_safe K e : undo_safe K (_insert e false).
Proof. unfold _insert. vbbm_undo. Qed.

(** [insert] into a table with room. *)
Lemma insert_undoes_to cfg lbid verID o f obj : vbCurrentSize (image obj) <> vbCapacity (image obj) ->
  undoes_to obj (snd (insert cfg lbid verID o f false obj)).
Proof.
  intros Hroom. unfold insert. erewrite bind_Ret by reflexivity. cbn [get_field].
  erewrite bind_Ret by reflexivity. cbn [get_field]. rewrite decide_False by done.
  erewrite (bind_Ret _ _ obj tt) by reflexivity.
  apply undo_safe_step. unfold _insert. vbbm_undo.
Qed.

(** ** The consistency check *)

(** Two used entries never share a place on their master DBRoot. *)
Definition place (e : VBBMEntry) : option Z * option Z :=
  (dbRoots (vb_vbOids e) !! 0%nat, fbos (vb_vbFbo e) !! 0%nat).
Definition places_distinct (m : vbbm_seg) : Prop :=
  forall i j ei ej, i <> j -> storage m !! i = Some ei -> storage m !! j = Some ej ->
    used ei -> used ej -> place ei <> place ej.
(** Every stored location names a master DBRoot and an offset there. *)
Definition places_exist (m : vbbm_seg) : Prop :=
  forall i e, storage m !! i = Some e ->
    is_Some (dbRoots (vb_vbOids e) !! 0%nat) /\ is_Some (fbos (vb_vbFbo e) !! 0%nat).

Lemma walk_check_chain m h c body : chain (storage m) h c ->
  (forall l1 i l2 e, c = l1 ++ i :: l2 -> storage m !! i = Some e ->
     body (Z.of_nat i) e = Ret tt) ->
  walk_check m h body = Ret tt.
Proof.
  intros Hc Hb. unfold walk_check.
  rewrite (list_walk_chain _ _ _ c) by (done || (pose proof (chain_length _ _ _ Hc); lia)).
  rewrite ret_bind. set (f := fun (_ : unit) (i : Z) (e : VBBMEntry) => _).
  assert (H : walk_entries f (chain_entries (storage m) c) tt = inl tt); [|by rewrite H].
  assert (Hall : forall i e, (i, e) ∈ chain_entries (storage m) c -> body (Z.of_nat i) e = Ret tt).
  { intros i e [(l1 & l2 & ->)%list_elem_of_split He]%chain_entries_elem. by eapply Hb. }
  induction (chain_entries (storage m) c) as [|[i e] l IH]; [done|].
  cbn [walk_entries]. unfold f at 1. rewrite (Hall i e) by left.
  apply IH. intros i' e' Hin. apply Hall. by right.
Qed.

(** The loop over the buckets that tests 2 and 4b share. *)
Lemma check_buckets m cs f : table_wf m ->
  wf_table (vb_bucket (numHashBuckets m)) (hashBuckets m) (storage m) cs ->
  (forall l1 i l2 e b, cs !! b = Some (l1 ++ i :: l2) -> chain (storage m) (slot_next e) l2 ->
     storage m !! i = Some e -> used e -> f (Z.of_nat i) e = Ret tt) ->
  for_res (seqZ 0 (numHashBuckets m)) (fun i =>
    head ← rd (hashBuckets m) i;
    if decide (head = -1) then Ret tt else walk_check m head f) = Ret tt.
Proof.
  intros Hwf Hcs Hf. apply for_res_Ret. intros i Hi%elem_of_seqZ.
  pose proof (tw_nb _ Hwf) as Hnb.
  destruct (lookup_lt_is_Some_2 (hashBuckets m) (Z.to_nat i)) as [h Hh]; [lia|].
  destruct (lookup_lt_is_Some_2 cs (Z.to_nat i)) as [c Hc];
    [rewrite (wt_length _ _ _ _ Hcs); lia|].
  rewrite (proj2 (rd_Ret _ _ h)) by (split; [lia|done]). rewrite ret_bind.
  assert (Hch := wt_chain _ _ _ _ Hcs _ _ _ Hh Hc).
  case_decide; [done|]. apply (walk_check_chain _ _ _ _ Hch). intros l1 j l2 e -> Hj.
  eapply (Hf l1 j l2); eauto.
  - apply chain_app, chain_cons_inv in Hch as (_ & e' & He' & Hch). by simplify_eq.
  - apply (wt_sound _ _ _ _ Hcs _ _ j e Hc); [set_solver|done].
Qed.

Lemma check_unique_ok m : table_wf m -> check_unique m = Ret tt.
Proof.
  intros Htw. destruct (tw_table _ Htw) as [cs Hcs].
  apply (check_buckets m cs); [done..|]. intros l1 i l2 e b Hc Hch Hi Hu.
  apply (walk_check_chain m _ _ _ Hch). intros k1 k k2 ek -> Hk.
  destruct (key_match _ _ _) eqn:Hkm; [|done]. apply key_match_true in Hkm. exfalso.
  assert (i = k) as ->.
  { apply (tw_keys _ Htw i k e ek); try done.
    apply (wt_sound _ _ _ _ Hcs _ _ k ek Hc); [set_solver|done]. }
  destruct (lookup_lt_is_Some_2 (hashBuckets m) b) as [h Hh];
    [rewrite <- (wt_length _ _ _ _ Hcs); by eapply lookup_lt_Some|].
  pose proof (chain_NoDup _ _ _ (wt_chain _ _ _ _ Hcs _ _ _ Hh Hc)) as Hnd.
  apply NoDup_app in Hnd as (_ & _ & Hnd). inversion Hnd. set_solver.
Qed.

(** Reading storage within the capacity. *)
Lemma rd_storage m i : table_wf m -> 0 <= i < vbCapacity m ->
  exists e, storage m !! Z.to_nat i = Some e /\ rd (storage m) i = Ret e.
Proof.
  intros Htw Hi. pose proof (tw_cap _ Htw).
  destruct (lookup_lt_is_Some_2 (storage m) (Z.to_nat i)) as [e He]; [lia|].
  exists e. split; [done|]. apply rd_Ret. by split; [lia|].
Qed.

Lemma check_space_ok m : table_wf m -> places_exist m -> places_distinct m ->
  check_space m = Ret tt.
Proof.
  intros Htw Hex Hdist. apply for_res_Ret. intros i Hi%elem_of_seqZ.
  destruct (rd_storage m i Htw) as (ei & Hei & ->); [lia|]. rewrite ret_bind.
  case_decide as Hui; [done|]. apply for_res_Ret. intros j Hj%elem_of_seqZ.
  destruct (rd_storage m j Htw) as (ej & Hej & ->); [lia|]. rewrite ret_bind.
  case_decide as Huj; [done|].
  destruct (Hex _ _ Hei) as [[oi Hoi] [fi Hfi]], (Hex _ _ Hej) as [[oj Hoj] [fj Hfj]].
  unfold roots_get, fbo_get.
  assert (R : forall (l : list Z) x, l !! 0%nat = Some x -> rd l 0 = Ret x)
    by (intros l x; apply (rd_nat _ 0)).
  rewrite (R _ _ Hoi), (R _ _ Hoj), (R _ _ Hfi), (R _ _ Hfj), !ret_bind.
  rewrite decide_False; [done|]. intros [-> ->].
  apply (Hdist (Z.to_nat i) (Z.to_nat j) ei ej); [lia|done..|]. unfold place. congruence.
Qed.

Lemma check_LWM_ok m : table_wf m -> check_LWM m = Ret tt.
Proof.
  intros Htw. apply for_res_Ret. intros i Hi%elem_of_seqZ. pose proof (tw_lwm _ Htw).
  destruct (rd_storage m i Htw) as (e & He & ->); [lia|]. rewrite ret_bind.
  rewrite decide_False; [done|]. apply (tw_lwm_used _ Htw (Z.to_nat i) e); [lia|done].
Qed.

Lemma check_reachable_ok m : table_wf m -> check_reachable m = Ret tt.
Proof.
  intros Htw. destruct (tw_table _ Htw) as [cs Hcs].
  apply (check_buckets m cs); [done..|]. intros l1 i l2 e b _ _ _ Hu. by rewrite decide_False.
Qed.

(** ** A small table

    Four entries, three buckets and one version buffer file; and the same
    table after one insertion. *)

Definition small : vbbm_seg :=
  emptied [mkFile 1 1000 0] (mkVbbm 1 4 0 0 3 [] [] [] 0x40001 1000 true 8192000).
Definition small_roots : DBROOTS_struct := mkRoots [1; 2; 0; 0].
Definition small_fbo : FBO_struct := mkFbo [17; 40; 0; 0].
Definition small1 : vbbm_seg :=
  image (snd (insert None 7 1 small_roots small_fbo false (mkUndoable small []))).

Lemma small_wf : vbbm_wf small /\ mapped small /\ vbbm_map small = ∅.
Proof.
  destruct (emptied_wf [mkFile 1 1000 0] (mkVbbm 1 4 0 0 3 [] [] [] 0x40001 1000 true 8192000))
    as (H1 & H2 & H3); [simpl; lia..|].
  split_and!; [|by split|done]. split; [exact H1| |done]. unfold small. by rewrite H3.
Qed.

Lemma small1_wf : vbbm_wf small1 /\ mapped small1 /\
  vbbm_map small1 = {[ (7, 1) := (small_roots, small_fbo) ]}.
Proof.
  destruct small_wf as (H1 & H2 & H3).
  destruct (insert_spec None small [] 7 1 small_roots small_fbo false H1 H2)
    as (m' & log' & Hrun & Hwf & Hm & Hmap & _); [simpl; lia|lia|by rewrite H3|].
  assert (Heq : small1 = m') by (unfold small1; rewrite Hrun; reflexivity). rewrite Heq.
  rewrite Hmap, H3. split_and!; [exact Hwf|exact Hm|apply insert_empty].
Qed.

Lemma small1_storage : storage small1 =
  [mkVBBMEntry 7 small_roots small_fbo 1 (-1); free_entry; free_entry; free_entry].
Proof. vm_compute. reflexivity. Qed.

Lemma small1_size : vbCurrentSize small1 = 1.
Proof. vm_compute. reflexivity. Qed.

(** Its only used entry is the first. *)
Lemma small1_used i e : storage small1 !! i = Some e -> used e -> i = 0%nat.
Proof.
  rewrite small1_storage. intros Hi Hu.
  destruct i as [|[|[|[|i]]]]; [done|..]; simpl in Hi; try done; injection Hi as <-;
    by destruct Hu.
Qed.

Lemma small1_dense : dense small1.
Proof. intros i e Hi Hu. rewrite (small1_used i e Hi Hu), small1_size. lia. Qed.

(** ** Properties *)

(** [lookup] of the VBBM throws on a negative LBID or version and else
    answers from the abstract map: the place of the version in the version
    buffer, or "not found". *)
Theorem vbbm_lookup_refines m lbid verID : vbbm_wf m ->
  lookup m lbid verID =
    if decide (lbid < 0 \/ verID < 0) then Throw InvalidArgument
    else Ret (vbbm_map m !! (lbid, verID)).
Proof.
  intros Hwf. case_decide as Hd; [|apply lookup_refines; [apply Hwf|lia|lia]].
  unfold lookup. repeat case_decide; done || lia.
Qed.

Lemma vbbm_lookup_refines_witness :
  lookup small1 7 1 = Ret (Some (small_roots, small_fbo)) /\
  lookup small1 (-3) 1 = Throw InvalidArgument.
Proof.
  destruct small1_wf as (Hwf & _ & Hmap).
  split; [rewrite (vbbm_lookup_refines small1 7 1 Hwf)|rewrite (vbbm_lookup_refines small1 (-3) 1 Hwf)].
  - rewrite Hmap. vm_compute. reflexivity.
  - reflexivity.
Defined.

(** [insert] of the VBBM, growing the table when it is full, adds the
    version to the abstract map, keeps the invariant and leaves the version
    buffer files alone, whether or not it is called while loading. *)
Theorem vbbm_insert_refines cfg m log lbid verID o f loading : vbbm_wf m -> mapped m ->
  numHashBuckets m + 2500 < 2 ^ 31 -> 0 <= lbid -> vbbm_map m !! (lbid, verID) = None ->
  exists m' log', insert cfg lbid verID o f loading (mkUndoable m log)
    = (Ret tt, mkUndoable m' log') /\ vbbm_wf m' /\ mapped m' /\
    vbbm_map m' = <[(lbid, verID) := (o, f)]> (vbbm_map m) /\ files m' = files m.
Proof. apply insert_spec. Qed.

Lemma vbbm_insert_refines_witness :
  exists m' log', insert None 8 2 small_roots small_fbo false (mkUndoable small1 [])
    = (Ret tt, mkUndoable m' log') /\ vbbm_map m' !! (8, 2) = Some (small_roots, small_fbo).
Proof.
  destruct small1_wf as (Hwf & Hm & Hmap).
  destruct (vbbm_insert_refines None small1 [] 8 2 small_roots small_fbo false Hwf Hm)
    as (m' & log' & Hrun & _ & _ & Hmap' & _); [vm_compute; done|lia|by rewrite Hmap|].
  exists m', log'. split; [exact Hrun|]. by rewrite Hmap', lookup_insert_eq.
Defined.

(** [removeEntry] of the VBBM deletes exactly the given version from the
    abstract map, does nothing when it is not there, and keeps the invariant. *)
Theorem vbbm_removeEntry_refines m log lbid verID : vbbm_wf m ->
  exists m' log', removeEntry lbid verID (mkUndoable m log) = (Ret tt, mkUndoable m' log') /\
    vbbm_wf m' /\ vbbm_map m' = delete (lbid, verID) (vbbm_map m) /\ files m' = files m.
Proof.
  intros Hwf. destruct (vbbm_removeEntry_spec m log lbid verID Hwf)
    as (m' & log' & H1 & H2 & H3 & H4 & _). by exists m', log'.
Qed.

Lemma vbbm_removeEntry_refines_witness :
  exists m' log', removeEntry 7 1 (mkUndoable small1 []) = (Ret tt, mkUndoable m' log') /\
    vbbm_map m' = ∅.
Proof.
  destruct small1_wf as (Hwf & _ & Hmap).
  destruct (vbbm_removeEntry_refines small1 [] 7 1 Hwf) as (m' & log' & Hrun & _ & Hm & _).
  exists m', log'. split; [exact Hrun|]. by rewrite Hm, Hmap, delete_singleton_eq.
Defined.

(** Growing the VBBM, by entries or by version buffer files, keeps the
    abstract map, the invariant and the existing files, provided no used entry
    lies at or above [vbCurrentSize]. *)
Theorem vbbm_grow_keeps cfg addAFile m log : vbbm_wf m -> mapped m -> dense m -> 0 <= addAFile ->
  numHashBuckets m + 2500 < 2 ^ 31 ->
  exists m', growVBBM cfg addAFile (mkUndoable m log) = (Ret tt, mkUndoable m' []) /\
    vbbm_wf m' /\ mapped m' /\ vbbm_map m' = vbbm_map m /\
    nFiles m' = nFiles m + addAFile /\ files m `prefix_of` files m' /\
    vbCapacity m' = vbCapacity m + (if decide (addAFile = 0) then VBSTORAGE_INCREMENT_COUNT else 0).
Proof.
  intros Hwf Hm Hd Ha Hnb.
  destruct (growVBBM_dense cfg addAFile m log Hwf Hm Hd Ha Hnb) as (m' & Hrun & Hg & Hwf' & Hmap).
  exists m'. split_and!; try done; apply Hg.
Qed.

Lemma vbbm_grow_keeps_witness :
  exists m', growVBBM None 2 (mkUndoable small1 []) = (Ret tt, mkUndoable m' []) /\
    vbbm_map m' = {[ (7, 1) := (small_roots, small_fbo) ]} /\ nFiles m' = 3.
Proof.
  destruct small1_wf as (Hwf & Hm & Hmap).
  destruct (vbbm_grow_keeps None 2 small1 [] Hwf Hm) as (m' & Hrun & _ & _ & Hmap' & Hnf & _).
  - apply small1_dense.
  - lia.
  - vm_compute. done.
  - exists m'. split_and!; [exact Hrun|by rewrite Hmap'|by rewrite Hnf].
Defined.

(** A table with a hole: two versions inserted, the first one removed. *)
Definition holed : vbbm_seg :=
  image (snd ((insert None 7 1 small_roots small_fbo false;;
               insert None 8 2 small_roots (mkFbo [18; 41; 0; 0]) false;;
               removeEntry 7 1) (mkUndoable small []))).

(** With a hole below a used entry, adding a version buffer file loses
    that entry: [copyVBBM] walks the first [vbCurrentSize] entries, not the
    first [vbCapacity].  The recorded size still counts it. *)
Theorem vbbm_grow_loses_entry :
  lookup holed 8 2 = Ret (Some (small_roots, mkFbo [18; 41; 0; 0])) /\
  (let m' := image (snd (growVBBM None 1 (mkUndoable holed []))) in
   lookup m' 8 2 = Ret None /\ vbCurrentSize m' = 1 /\ used_count (storage m') = 0%nat).
Proof. vm_compute. done. Qed.

(** Whatever [removeEntry] of the VBBM did, and whatever the linking of
    a new entry did, [undoChanges] gives back the image bit for bit; so does
    any sequence of the two. *)
Theorem vbbm_undo_reverts (ops : list (Z * Z + VBBMEntry)) m :
  undoChanges (snd (for_each ops (fun op =>
      match op with
      | inl (lbid, verID) => removeEntry lbid verID
      | inr e => _insert e false
      end) (mkUndoable m []))) = (Ret tt, mkUndoable m []).
Proof.
  apply (undo_safe_reverts _ (mkUndoable m [])); [|done].
  apply undo_safe_for_each. intros [[lbid verID]|e];
    [apply removeEntry_undo_safe|apply _insert_undo_safe].
Qed.

(** the consistency check accepts every table that satisfies the
    invariant and whose entries have distinct places in the version buffer. *)
Theorem vbbm_checkConsistency_accepts m : vbbm_wf m -> places_exist m -> places_distinct m ->
  checkConsistency m = Ret 0.
Proof.
  intros Hwf Hex Hdist. pose proof (vw_table _ Hwf) as Htw. unfold checkConsistency.
  by rewrite check_reachable_ok, check_LWM_ok, check_unique_ok, check_space_ok.
Qed.

Lemma vbbm_checkConsistency_accepts_witness : checkConsistency small1 = Ret 0.
Proof.
  destruct small1_wf as (Hwf & _ & _).
  apply (vbbm_checkConsistency_accepts small1 Hwf).
  - intros i e Hi. rewrite small1_storage in Hi.
    do 4 (destruct i as [|i]; [injection Hi as <-; split; vm_compute; eauto|]). done.
  - intros i j ei ej Hne Hi Hj Hui Huj. exfalso. apply Hne.
    by rewrite (small1_used i ei Hi Hui), (small1_used j ej Hj Huj).
Defined.
