(* ===== verification/VBBMImage.v ===== *)
(** * The VBBM on disk

    [save] followed by [load] gives back the same map and the same version
    buffer files, whatever the table held before the load. *)
From Stdlib Require Import ZArith Lia.
From S2P Require Import Prelude Bytes Undoable Hasher HashChain BrmTypes VBBM VBBMProofs.

Local Open Scope Z_scope.

(** ** Layouts *)

Definition file_ok (f : VBFileMetadata) : Prop :=
  - 2 ^ 31 <= fm_OID f < 2 ^ 31 /\ 0 <= fm_fileSize f < 2 ^ 32 /\ 0 <= fm_nextOffset f < 2 ^ 32.

Lemma VBFileMetadata_codec : codec VBFileMetadata_bytes get_VBFileMetadata file_ok.
Proof.
  intros [o s n] rest (Ho & Hs & Hn). unfold get_VBFileMetadata, VBFileMetadata_bytes.
  unfold mbind, reader_bind. cbn [fm_OID fm_fileSize fm_nextOffset] in *.
  rewrite <- !app_assoc. autorewrite with brm. by rewrite s32_id, !u32_id.
Qed.

Definition entry_ok (e : VBBMEntry) : Prop :=
  0 <= vb_lbid e < 2 ^ 63 /\ roots_wf (vb_vbOids e) /\ fbo_wf (vb_vbFbo e) /\
  - 2 ^ 31 <= vb_verID e < 2 ^ 31 /\ - 2 ^ 31 <= vb_next e < 2 ^ 31.

Lemma VBBMEntry_codec : codec VBBMEntry_bytes get_VBBMEntry entry_ok.
Proof.
  intros [l o f v n] rest (Hl & Ho & Hf & Hv & Hn). unfold get_VBBMEntry, VBBMEntry_bytes.
  unfold mbind, reader_bind. cbn [vb_lbid vb_vbOids vb_vbFbo vb_verID vb_next] in *.
  rewrite <- !app_assoc, get_s64_le, (roots_codec _ _ Ho), (fbo_codec _ _ Hf).
  autorewrite with brm. rewrite s64_id, !s32_id by lia. done.
Qed.

(** ** What [save] writes *)

Lemma collect_entries m : table_wf m ->
  collect (seqZ 0 (vbCapacity m)) (fun i =>
    e ← rd (storage m) i;
    Ret (if decide (vb_lbid e = -1) then [] else VBBMEntry_bytes e))
  = Ret (filter used (storage m) ≫= VBBMEntry_bytes).
Proof.
  intros Htw. rewrite collect_all by apply (tw_cap _ Htw). f_equal.
  apply bind_filter; intros e He; [by rewrite decide_False|].
  rewrite decide_True; [done|]. by apply dec_stable.
Qed.

Lemma save_bytes m : vbbm_wf m ->
  save m = Ret (le_bytes 4 VBBM_MAGIC_V2 ++ le_bytes 4 (vbCurrentSize m) ++ le_bytes 4 (nFiles m)
    ++ (files m ≫= VBFileMetadata_bytes) ++ (filter used (storage m) ≫= VBBMEntry_bytes)).
Proof.
  intros Hwf. unfold save. rewrite (collect_entries m (vw_table _ Hwf)), ret_bind.
  by rewrite files_copy_id by apply Hwf.
Qed.

(** ** The steps of [load] *)

(** A table without entries. *)
Record empty_table (nf : Z) (m : vbbm_seg) : Prop := {
  et_wf : vbbm_wf m;
  et_mapped : mapped m;
  et_map : vbbm_map m = ∅;
  et_size : vbCurrentSize m = 0;
  et_nFiles : nFiles m = nf;
  et_nb : numHashBuckets m + 2500 < 2 ^ 31;
}.

Lemma empty_dense nf m : empty_table nf m -> dense m.
Proof.
  intros He i e Hi Hu. exfalso.
  assert (H := vbbm_map_found m i e (vw_table _ (et_wf _ _ He)) Hi Hu).
  by rewrite (et_map _ _ He), lookup_empty in H.
Qed.

(** The table of a fresh segment. *)
Definition fresh (nf cap nb : Z) (fs : list VBFileMetadata) (key sz cfs : Z) : vbbm_seg :=
  mkVbbm nf cap 0 0 nb fs (replicate (Z.to_nat nb) (-1)) (replicate (Z.to_nat cap) free_entry)
    key sz true cfs.

Lemma fresh_empty nf cap nb fs key sz cfs :
  nf = Z.of_nat (length fs) -> 0 <= cap -> 0 < nb -> nb + 2500 < 2 ^ 31 -> 0 < sz ->
  empty_table nf (fresh nf cap nb fs key sz cfs).
Proof.
  intros Hnf Hcap Hnb Hnb' Hsz.
  destruct (emptied_wf fs (mkVbbm nf cap 0 0 nb [] [] [] key sz true cfs)) as (Hwf & Hmap & Hc);
    cbn [numHashBuckets vbCapacity vbLWM]; [lia..|].
  split; try done. split; [exact Hwf| |done]. unfold emptied in Hc.
  cbn [set_arrays numHashBuckets vbCapacity storage] in Hc. unfold fresh.
  cbn [storage vbCurrentSize]. by rewrite Hc.
Qed.

Lemma setCurrentFileSize_run v m log : 1 <= v ->
  setCurrentFileSize (Some v) (mkUndoable m log)
  = (Ret tt, mkUndoable (set_currentFileSize v m) log).
Proof.
  intros Hv. unfold setCurrentFileSize. erewrite bind_Ret by reflexivity.
  rewrite decide_False by lia. unfold modify, set_image. by destruct m.
Qed.

Lemma initShmseg_run v nf m log : 1 <= v ->
  initShmseg (Some v) nf (mkUndoable m log)
  = (Ret tt, mkUndoable (mkVbbm nf VBSTORAGE_INITIAL_COUNT 0 0 25000
      (replicate (Z.to_nat nf) (mkFile 0 0 0)) (replicate (Z.to_nat 25000) (-1))
      (replicate (Z.to_nat VBSTORAGE_INITIAL_COUNT) free_entry)
      (tableShmkey m) (allocdSize m) (fPVBBMImpl m) v) log).
Proof.
  intros Hv. unfold initShmseg. rewrite !bind_store.
  erewrite bind_Ret by (by apply setCurrentFileSize_run). rewrite bind_store.
  destruct m. reflexivity.
Qed.

Lemma clear_run v m log : 1 <= v -> 0 <= nFiles m ->
  exists fs, length fs = Z.to_nat (nFiles m) /\
    clear (Some v) (mkUndoable m log)
    = (Ret tt, mkUndoable (fresh (nFiles m) VBSTORAGE_INITIAL_COUNT 25000 fs (chooseShmkey m)
        (sizeof_VBShmsegHeader + nFiles m * sizeof_VBFileMetadata + VBSTORAGE_INITIAL_SIZE
         + VBTABLE_INITIAL_SIZE) v) log).
Proof.
  intros Hv Hnf.
  exists ((fun f => mkFile (fm_OID f) (u32 (v / BLOCK_SIZE)) 0) <$> files_copy m).
  split; [by rewrite length_fmap, length_files_copy|]. unfold clear.
  erewrite bind_reading by (cbn [image]; rewrite decide_False by lia; reflexivity).
  erewrite bind_Ret by (by apply setCurrentFileSize_run). erewrite bind_Ret by reflexivity.
  cbv zeta. cbn [image].
  assert (H : nFiles (set_currentFileSize v m) = nFiles m /\
    currentFileSize (set_currentFileSize v m) = v /\
    chooseShmkey (set_currentFileSize v m) = chooseShmkey m) by (by destruct m).
  destruct H as (-> & -> & ->).
  erewrite bind_Ret by reflexivity. erewrite bind_Ret by (by apply initShmseg_run).
  destruct m. reflexivity.
Qed.

Lemma clear_empty v m log : 1 <= v -> 0 <= nFiles m ->
  exists m', clear (Some v) (mkUndoable m log) = (Ret tt, mkUndoable m' log) /\
    empty_table (nFiles m) m' /\ vbCapacity m' = VBSTORAGE_INITIAL_COUNT.
Proof.
  intros Hv Hnf. destruct (clear_run v m log Hv Hnf) as (fs & Hlen & Hrun).
  eexists. split; [exact Hrun|]. split; [|done]. apply fresh_empty; try lia; [done|].
  change VBSTORAGE_INITIAL_SIZE with 4000000. change VBTABLE_INITIAL_SIZE with 100000.
  unfold sizeof_VBShmsegHeader, sizeof_VBFileMetadata. lia.
Qed.

(** [while (vbbm->nFiles < nFiles) growVBBM(1);] *)
Lemma grow_files_loop cfg fuel nf m log : nFiles m <= nf -> nf - nFiles m <= Z.of_nat fuel ->
  empty_table (nFiles m) m ->
  exists m' log', while_loop fuel (fun o => bool_decide (nFiles (image o) < nf))
      (growVBBM cfg 1) (mkUndoable m log) = (Ret tt, mkUndoable m' log') /\
    empty_table nf m' /\ vbCapacity m' = vbCapacity m.
Proof.
  revert m log. induction fuel as [|fuel IH]; intros m log Hle Hf He; cbn [while_loop image].
  - rewrite bool_decide_eq_false_2 by lia. exists m, log.
    by replace nf with (nFiles m) by lia.
  - case_bool_decide as Hlt.
    2: { exists m, log. by replace nf with (nFiles m) by lia. }
    destruct (growVBBM_dense cfg 1 m log) as (m1 & Hrun & Hg & Hwf1 & Hmap1);
      [apply He|apply He|by eapply empty_dense|lia|apply He|].
    pose proof (gr_nFiles _ _ _ Hg). pose proof (gr_cap _ _ _ Hg) as Hcap. simpl in Hcap.
    assert (He1 : empty_table (nFiles m1) m1).
    { split; try done; [apply Hg|by rewrite Hmap1, (et_map _ _ He)| |].
      - rewrite (gr_size _ _ _ Hg). apply (et_size _ _ He).
      - rewrite (gr_nb _ _ _ Hg). simpl. rewrite Z.add_0_r. apply (et_nb _ _ He). }
    destruct (IH m1 []) as (m' & log' & Hrun' & He' & Hcap'); [lia|lia|done|].
    exists m', log'. erewrite bind_Ret by exact Hrun. split_and!; [done|done|].
    rewrite Hcap', Hcap. lia.
Qed.

Definition load_capacity (count : Z) : Z :=
  let count := if decide (count < VBSTORAGE_INITIAL_COUNT)
               then VBSTORAGE_INITIAL_COUNT else count in
  if decide (Z.rem count VBSTORAGE_INCREMENT_COUNT = 0) then count
  else (Z.quot count VBSTORAGE_INCREMENT_COUNT + 1) * VBSTORAGE_INCREMENT_COUNT.

(** Room for the entries, rounded up by less than one increment. *)
Lemma load_capacity_bounds count :
  let c := load_capacity count in
  count <= c /\ VBSTORAGE_INITIAL_COUNT <= c /\
  c < Z.max count VBSTORAGE_INITIAL_COUNT + VBSTORAGE_INCREMENT_COUNT.
Proof.
  cbv zeta. unfold load_capacity. set (k := if decide (count < _) then _ else _).
  assert (Hk : k = Z.max count VBSTORAGE_INITIAL_COUNT) by (unfold k; case_decide; lia).
  clearbody k. unfold VBSTORAGE_INITIAL_COUNT, VBSTORAGE_INCREMENT_COUNT in *.
  pose proof (Z.quot_rem' k 10000). pose proof (Z.rem_bound_pos k 10000). case_decide; lia.
Qed.

Lemma growForLoad_empty count nf m log : empty_table nf m -> count < 2 ^ 31 ->
  exists m', growForLoad count (mkUndoable m log) = (Ret tt, mkUndoable m' []) /\
    empty_table nf m' /\ vbCapacity m' = load_capacity count.
Proof.
  intros He Hc. pose proof (load_capacity_bounds count) as Hb. cbv zeta in Hb.
  destruct (et_mapped _ _ He) as [Hi Ha]. pose proof (et_nFiles _ _ He) as Hnf.
  exists (fresh nf (load_capacity count) (load_capacity count / 4) (files m) (chooseShmkey m)
    (VBBM_SIZE nf (load_capacity count)) (currentFileSize m)).
  split.
  { unfold growForLoad. erewrite bind_Ret by reflexivity. cbn [image]. rewrite Hi, Hnf. done. }
  split; [|done]. pose proof (vw_files _ (et_wf _ _ He)).
  unfold VBSTORAGE_INITIAL_COUNT, VBSTORAGE_INCREMENT_COUNT in Hb.
  pose proof (Z.div_mod (load_capacity count) 4). pose proof (Z.mod_pos_bound (load_capacity count) 4).
  apply fresh_empty; try lia.
  unfold VBBM_SIZE, sizeof_VBBMEntry, sizeof_VBFileMetadata, sizeof_VBShmsegHeader. lia.
Qed.

Section Entries.
Context (cfg : option Z).

(** The loop that inserts the entries of the file. *)
Lemma load_entries l m log rest z : vbbm_wf m -> mapped m -> Forall entry_ok l ->
  unique_keys vb_key l ->
  vbCurrentSize m + Z.of_nat (length l) <= vbCapacity m ->
  (forall e, stored l e -> vbbm_map m !! vb_key e = None) ->
  exists m' log',
    for_each (seqZ z (Z.of_nat (length l))) (fun _ =>
      entry ← file_read get_VBBMEntry; insert_loaded cfg entry)
      (mkUndoable m log, (l ≫= VBBMEntry_bytes) ++ rest)
    = (Ret tt, (mkUndoable m' log', rest)) /\
    vbbm_wf m' /\ files m' = files m /\ vbbm_map m' = contents vb_key vb_val l ∪ vbbm_map m.
Proof.
  revert m log z. induction l as [|e l IH]; intros m log z Hwf Hm Hok Huq Hroom Hnew.
  { exists m, log. split_and!; try done.
    change (contents vb_key vb_val []) with (∅ : gmap (Z * Z) (DBROOTS_struct * FBO_struct)).
    by rewrite (left_id_L ∅ (∪)). }
  apply Forall_cons in Hok as [Hoke Hok]. apply unique_keys_cons in Huq as [Huq Hne].
  assert (Hu : used e) by (unfold used; destruct Hoke; simpl; lia).
  destruct (insert_room cfg m log (vb_lbid e) (vb_verID e) (vb_vbOids e) (vb_vbFbo e) true)
    as (m1 & log1 & Hrun1 & Hwf1 & Hm1 & Hmap1 & Hfr & _); [done|done| |apply Hoke| |].
  { cbn [length] in Hroom. lia. }
  { apply (Hnew e). by exists 0%nat. }
  apply frame_inv in Hfr as (_ & F2 & F3 & _ & F5 & _).
  assert (G : vbCapacity m1 = vbCapacity m /\ vbCurrentSize m1 = vbCurrentSize m + 1 /\
    files m1 = files m) by (rewrite F2, F3, F5; by destruct m).
  destruct G as (G2 & G3 & G5).
  destruct (IH m1 log1 (Z.succ z)) as (m' & log' & Hrun & Hwf' & Hfiles & Hmap); try done.
  { cbn [length] in Hroom. lia. }
  { intros e' He'. rewrite Hmap1, lookup_insert_ne; [by apply Hnew, stored_cons|].
    intros Hk. by eapply Hne. }
  exists m', log'. split.
  - cbn [length]. rewrite seqZ_cons by lia.
    replace (Z.pred (Z.of_nat (S (length l)))) with (Z.of_nat (length l)) by lia.
    cbn [for_each]. rewrite bind_cons, <- app_assoc.
    erewrite bind_Ret; [exact Hrun|].
    erewrite bind_file_read by (by apply VBBMEntry_codec).
    unfold insert_loaded, on_obj, zoom. cbn [fst snd]. by rewrite Hrun1.
  - split_and!; [done|congruence|]. rewrite Hmap, Hmap1, contents_cons by done.
    rewrite <- insert_union_l. symmetry. apply insert_union_r, contents_None; [done|].
    by apply Hne.
Qed.
End Entries.

(** ** Round trip *)

Lemma unique_keys_filter m : table_wf m -> unique_keys vb_key (filter used (storage m)).
Proof.
  intros Htw i j ei ej Hi Hj _ _ Hk.
  eapply (NoDup_lookup (vb_key <$> filter used (storage m))).
  - apply (unique_keys_NoDup vb_key), (tw_keys _ Htw).
  - rewrite list_lookup_fmap, Hi. done.
  - rewrite list_lookup_fmap, Hj. simpl. by rewrite Hk.
Qed.

Lemma filter_used_idem (l : list VBBMEntry) : filter used (filter used l) = filter used l.
Proof. rewrite list_filter_filter. apply list_filter_iff. tauto. Qed.

(** The header and the files of an image, and the empty table they leave. *)
Lemma load_header v m0 m log rest : 1 <= v -> 0 <= nFiles m0 -> vbbm_wf m ->
  vbCurrentSize m < 2 ^ 31 -> nFiles m < 2 ^ 31 -> Forall file_ok (files m) ->
  exists m1,
    loadVersion2 (Some v)
      (mkUndoable m0 log, le_bytes 4 (vbCurrentSize m) ++ le_bytes 4 (nFiles m)
        ++ (files m ≫= VBFileMetadata_bytes) ++ rest)
    = for_each (seqZ 0 (vbCurrentSize m)) (fun _ =>
        entry ← file_read get_VBBMEntry; insert_loaded (Some v) entry) (mkUndoable m1 [], rest) /\
    empty_table (nFiles m) m1 /\ files m1 = files m /\ vbCurrentSize m <= vbCapacity m1.
Proof.
  intros Hv Hnf0 Hwf Hsz Hnf Hfok. pose proof (vbbm_wf_size m Hwf). pose proof (vw_files _ Hwf) as Hfl.
  set (m0' := if decide (nFiles m < nFiles m0) then set_field FnFiles (nFiles m) m0 else m0).
  assert (Hm0' : nFiles m0' = Z.min (nFiles m) (nFiles m0)).
  { unfold m0'. case_decide; destruct m0 as [nf0 c0 s0 l0 n0 f0 b0 t0 k0 z0 p0 q0];
      cbn [nFiles set_field] in *; lia. }
  destruct (clear_empty v m0' log Hv) as (ma & Ha & Hea & _); [lia|].
  destruct (grow_files_loop (Some v) (Z.to_nat (nFiles m)) (nFiles m) ma log)
    as (mb & logb & Hb & Heb & _); rewrite ?(et_nFiles _ _ Hea); [lia|lia|done|].
  destruct (growForLoad_empty (vbCurrentSize m) _ mb logb Heb Hsz) as (mc & Hc & Hec & Hcap).
  exists (set_arrays (files m) (hashBuckets mc) (storage mc) mc). split.
  - unfold loadVersion2. erewrite bind_file_read by apply get_s32_le.
    erewrite bind_file_read by apply get_s32_le. rewrite !s32_id by lia.
    erewrite bind_on_obj by reflexivity. cbn [image undoRecords].
    erewrite bind_on_obj by exact Ha. erewrite bind_on_obj by exact Hb.
    erewrite bind_on_obj by exact Hc.
    erewrite bind_file_read.
    2: { rewrite Hfl, Nat2Z.id. apply (codec_list _ _ _ _ _ VBFileMetadata_codec Hfok). }
    by erewrite bind_on_obj by reflexivity.
  - pose proof (load_capacity_bounds (vbCurrentSize m)) as Hcb. cbv zeta in Hcb.
    destruct Hec as [[Htw Hs Hf] Hm Hmap Hsize Hnfc Hnb].
    destruct Htw as [Wcap Wbs Wpos Wlwm Wlwmu Wtab Wkeys].
    destruct mc as [nf0 c0 s0 l0 n0 f0 b0 t0 k0 z0 p0 q0]. cbn [set_arrays nFiles vbCapacity vbCurrentSize vbLWM numHashBuckets files
      hashBuckets storage tableShmkey allocdSize fPVBBMImpl currentFileSize] in *.
    split_and!; [|done|lia]. split; try done. split; [by split|done|]. cbn. lia.
Qed.

Lemma load_save_run v repSize m m0 log bs : vbbm_wf m -> Forall file_ok (files m) ->
  Forall entry_ok (filter used (storage m)) -> vbCurrentSize m < 2 ^ 31 -> nFiles m < 2 ^ 31 ->
  1 <= v -> 0 <= nFiles m0 -> save m = Ret bs ->
  exists m' log', load (Some v) repSize (mkUndoable m0 log, bs)
      = (Ret tt, (mkUndoable m' log', [])) /\
    vbbm_wf m' /\ vbbm_map m' = vbbm_map m /\ files m' = files m.
Proof.
  intros Hwf Hfok Heok Hsz Hnf Hv Hnf0 Hs. rewrite (save_bytes m Hwf) in Hs.
  match type of Hs with Ret ?w = _ => assert (bs = w) as -> by congruence end.
  destruct (load_header v m0 m log (filter used (storage m) ≫= VBBMEntry_bytes))
    as (m1 & Hrun1 & He1 & Hf1 & Hcap1); try done.
  destruct (load_entries (Some v) (filter used (storage m)) m1 [] [] 0)
    as (m' & log' & Hrun & Hwf' & Hf' & Hmap'); try done; [apply He1|apply He1|..].
  { by apply unique_keys_filter, Hwf. }
  { rewrite (et_size _ _ He1). rewrite (vw_size _ Hwf) in Hcap1. unfold used_count in Hcap1. lia. }
  { intros e _. by rewrite (et_map _ _ He1), lookup_empty. }
  exists m', log'. split_and!; [|done| |congruence].
  - unfold load. erewrite bind_file_read by apply get_s32_le.
    rewrite decide_False by done. rewrite decide_True by done. rewrite Hrun1, <- Hrun.
    rewrite app_nil_r, (vw_size _ Hwf). done.
  - rewrite Hmap', (et_map _ _ He1), (right_id_L ∅ (∪)).
    unfold contents, vbbm_map, contents. by rewrite filter_used_idem.
Qed.

Lemma Forall_range4 n a b c d : 0 <= a < n -> 0 <= b < n -> 0 <= c < n -> 0 <= d < n ->
  Forall (fun x => 0 <= x < n) [a; b; c; d].
Proof. intros. apply Forall_cons_2; [done|]. apply Forall_cons_2; [done|].
  apply Forall_cons_2; [done|]. by apply Forall_singleton. Qed.

Lemma small1_files_ok : Forall file_ok (files small1).
Proof.
  assert (Hf : files small1 = [mkFile 1 1000 0]) by (vm_compute; reflexivity). rewrite Hf.
  apply Forall_singleton. unfold file_ok. cbn. lia.
Qed.

Lemma small1_entries_ok : Forall entry_ok (filter used (storage small1)).
Proof.
  assert (Hf : filter used (storage small1) = [mkVBBMEntry 7 small_roots small_fbo 1 (-1)])
    by (rewrite small1_storage; vm_compute; reflexivity).
  rewrite Hf. apply Forall_singleton. unfold entry_ok, roots_wf, fbo_wf. cbn.
  split_and!; try lia; try reflexivity; apply Forall_range4; lia.
Qed.

(** loading a saved VBBM into any object, whatever it held, gives back
    the same map and the same version buffer files, consumes the whole image
    and leaves a well-formed table. *)
Theorem vbbm_load_save v repSize m m0 log bs : vbbm_wf m -> Forall file_ok (files m) ->
  Forall entry_ok (filter used (storage m)) -> vbCurrentSize m < 2 ^ 31 -> nFiles m < 2 ^ 31 ->
  1 <= v -> 0 <= nFiles m0 -> save m = Ret bs ->
  exists m' log', load (Some v) repSize (mkUndoable m0 log, bs)
      = (Ret tt, (mkUndoable m' log', [])) /\
    vbbm_wf m' /\ vbbm_map m' = vbbm_map m /\ files m' = files m.
Proof. apply load_save_run. Qed.

Lemma vbbm_load_save_witness :
  exists bs m' log', save small1 = Ret bs /\
    load (Some 8192000) 2 (mkUndoable small [], bs) = (Ret tt, (mkUndoable m' log', [])) /\
    vbbm_map m' = {[ (7, 1) := (small_roots, small_fbo) ]}.
Proof.
  destruct small1_wf as (Hwf & _ & Hmap). pose proof (save_bytes small1 Hwf) as Hs.
  match type of Hs with _ = Ret ?w => set (bs := w) in Hs end. exists bs.
  destruct (vbbm_load_save 8192000 2 small1 small [] bs Hwf) as (m' & log' & Hrun & _ & Hm & _).
  - exact small1_files_ok.
  - exact small1_entries_ok.
  - vm_compute. done.
  - vm_compute. done.
  - lia.
  - vm_compute. done.
  - exact Hs.
  - exists m', log'. split_and!; [exact Hs|exact Hrun|by rewrite Hm].
Defined.
