(* ===== verification/VSS.v ===== *)
(** * The Version Substitution Structure: src/versioning/BRM/vss.{h,cpp}

    The VSS lists, for every block that has been written, its versions: which
    transaction wrote each of them, whether it has been copied to the version
    buffer and whether its transaction is still open.  It shares the shape of
    the VBBM (HashChain.v), but hashes on the LBID alone, so that one list
    holds all versions of a block.  [removeEntriesFromDB] and
    [checkConsistency], which also use the VBBM, are in VersionBuffer.v. *)
From Stdlib Require Import ZArith Lia.
From S2P Require Import Prelude Bytes Undoable Hasher HashChain BrmTypes.

Local Open Scope Z_scope.

(** ** Data *)

Record VSSEntry := mkVSSEntry {
  vs_lbid : Z;
  vs_verID : Z;
  vs_vbFlag : bool;
  vs_locked : bool;
  vs_next : Z;
}.

Definition VSSEntry_new : VSSEntry := mkVSSEntry (-1) 0 false false (-1).

#[global] Instance VSSEntry_eq_dec : EqDecision VSSEntry.
Proof. solve_decision. Defined.

#[global] Instance VSS_slot : Slot VSSEntry := {
  slot_lbid := vs_lbid;
  slot_next := vs_next;
  slot_set_lbid z e := mkVSSEntry z (vs_verID e) (vs_vbFlag e) (vs_locked e) (vs_next e);
  slot_set_next z e := mkVSSEntry (vs_lbid e) (vs_verID e) (vs_vbFlag e) (vs_locked e) z;
}.
#[global] Instance VSS_slot_laws : SlotLaws VSSEntry.
Proof. by split. Qed.

Definition set_vbFlag (b : bool) (e : VSSEntry) : VSSEntry :=
  mkVSSEntry (vs_lbid e) (vs_verID e) b (vs_locked e) (vs_next e).
Definition set_locked (b : bool) (e : VSSEntry) : VSSEntry :=
  mkVSSEntry (vs_lbid e) (vs_verID e) (vs_vbFlag e) b (vs_next e).

(** [QueryContext] and its copy with a set of transactions. *)
Record QueryContext := mkQC { qc_currentScn : Z; qc_currentTxns : list Z }.
Record QueryContext_vss := mkQCV { currentScn : Z; txns : gset Z }.
Definition QueryContext_vss_of (qc : QueryContext) : QueryContext_vss :=
  mkQCV (qc_currentScn qc) (list_to_set (qc_currentTxns qc)).

(** [VSSShmsegHeader], the arrays after it, and the description of the
    segment in the master segment table; [fPVSSImpl] says whether it is
    mapped. *)
Record vss_seg := mkVss {
  capacity : Z;
  currentSize : Z;
  LWM : Z;
  numHashBuckets : Z;
  lockedEntryCount : Z;
  hashBuckets : list Z;
  storage : list VSSEntry;
  tableShmkey : Z;
  allocdSize : Z;
  fPVSSImpl : bool;
}.

Definition sizeof_VSSEntry : Z := 24.
Definition sizeof_VSSShmsegHeader : Z := 20.
Definition VSSSTORAGE_INITIAL_COUNT : Z := 200000.
Definition VSSSTORAGE_INITIAL_SIZE : Z := VSSSTORAGE_INITIAL_COUNT * sizeof_VSSEntry.
Definition VSSSTORAGE_INCREMENT_COUNT : Z := 20000.
Definition VSSSTORAGE_INCREMENT : Z := VSSSTORAGE_INCREMENT_COUNT * sizeof_VSSEntry.
Definition VSSTABLE_INITIAL_SIZE : Z := 50000 * 4.
Definition VSSTABLE_INCREMENT : Z := 5000 * 4.
Definition VSS_INITIAL_SIZE : Z :=
  sizeof_VSSShmsegHeader + VSSSTORAGE_INITIAL_SIZE + VSSTABLE_INITIAL_SIZE.
Definition VSS_INCREMENT : Z := VSSTABLE_INCREMENT + VSSSTORAGE_INCREMENT.
Definition VSS_SIZE (entries : Z) : Z :=
  entries * sizeof_VSSEntry + entries / 4 * 4 + sizeof_VSSShmsegHeader.

Definition KEYRANGE_SIZE : Z := 0x10000.
Definition KEYRANGE_VSS_BASE : Z := 0x10000.
Definition VSS_MAGIC_V1 : Z := 0x7218db12.
Definition ERR_SNAPSHOT_TOO_OLD : Z := 15.

(** ** The image as cells *)

Inductive vs_field := Fcapacity | FcurrentSize | FLWM | FnumHashBuckets | FlockedEntryCount.
Inductive vs_cell := CHdr (f : vs_field) | CBucket (i : Z) | CStorage (i : Z).
Inductive vs_delta :=
  | DHdr (f : vs_field) (v : Z)
  | DBucket (i v : Z)
  | DStorage (i : Z) (v : VSSEntry).

#[global] Instance vs_field_eq_dec : EqDecision vs_field.
Proof. solve_decision. Defined.
#[global] Instance vs_cell_eq_dec : EqDecision vs_cell.
Proof. solve_decision. Defined.

Definition get_field (f : vs_field) (m : vss_seg) : Z :=
  match f with
  | Fcapacity => capacity m
  | FcurrentSize => currentSize m
  | FLWM => LWM m
  | FnumHashBuckets => numHashBuckets m
  | FlockedEntryCount => lockedEntryCount m
  end.

Definition set_field (f : vs_field) (v : Z) (m : vss_seg) : vss_seg :=
  let (cap, sz, lwm, nb, lk, bs, st, key, sz', p) := m in
  match f with
  | Fcapacity => mkVss v sz lwm nb lk bs st key sz' p
  | FcurrentSize => mkVss cap v lwm nb lk bs st key sz' p
  | FLWM => mkVss cap sz v nb lk bs st key sz' p
  | FnumHashBuckets => mkVss cap sz lwm v lk bs st key sz' p
  | FlockedEntryCount => mkVss cap sz lwm nb v bs st key sz' p
  end.

Definition set_arrays (bs : list Z) (st : list VSSEntry) (m : vss_seg) : vss_seg :=
  let (cap, sz, lwm, nb, lk, _, _, key, sz', p) := m in mkVss cap sz lwm nb lk bs st key sz' p.

Definition set_shminfo (key size : Z) (m : vss_seg) : vss_seg :=
  let (cap, sz, lwm, nb, lk, bs, st, _, _, p) := m in mkVss cap sz lwm nb lk bs st key size p.

#[global] Instance vss_image : DeltaImage vss_seg vs_delta vs_cell := {
  cell_of d :=
    match d with DHdr f _ => CHdr f | DBucket i _ => CBucket i | DStorage i _ => CStorage i end;
  apply_delta d m :=
    match d with
    | DHdr f v => set_field f v m
    | DBucket i v => set_arrays (wr (hashBuckets m) i v) (storage m) m
    | DStorage i v => set_arrays (hashBuckets m) (wr (storage m) i v) m
    end;
  snapshot c m :=
    match c with
    | CHdr f => DHdr f (get_field f m)
    | CBucket i => DBucket i (rd_or 0 (hashBuckets m) i)
    | CStorage i => DStorage i (rd_or VSSEntry_new (storage m) i)
    end;
  csize c := match c with CHdr _ => 4 | CBucket _ => 4 | CStorage _ => sizeof_VSSEntry end;
  seg_of _ := tableShmkey;
}.

#[global] Instance vss_image_laws : DeltaLaws vss_seg vs_delta vs_cell.
Proof.
  split.
  - by intros [] [].
  - intros [[]| |] []; simpl; rewrite ?wr_rd_or; done.
  - intros [[]| |] [[]| |] []; simpl; intros [=]; subst; rewrite ?wr_wr; done.
  - intros [[]| |] [[]| |] []; simpl; intros Hne; try done; f_equal; apply wr_comm; congruence.
  - by intros ? [[]| |] [].
Qed.

Abbreviation vss_obj := (undoable vss_seg vs_delta).

(** [makeUndoRecord(vss, sizeof(VSSShmsegHeader))] *)
Definition header_cells : list vs_cell :=
  [CHdr Fcapacity; CHdr FcurrentSize; CHdr FLWM; CHdr FnumHashBuckets; CHdr FlockedEntryCount].

Definition field (f : vs_field) : prog vss_obj Z := gets (fun o => get_field f (image o)).
Definition rdStorage (i : Z) : prog vss_obj VSSEntry :=
  reading (fun o => rd (storage (image o)) i).
Definition wrStorage (i : Z) (e : VSSEntry) : prog vss_obj unit :=
  _ ← rdStorage i; store (DStorage i e).
Definition rdBucket (i : Z) : prog vss_obj Z := reading (fun o => rd (hashBuckets (image o)) i).
Definition wrBucket (i v : Z) : prog vss_obj unit := _ ← rdBucket i; store (DBucket i v).

(** ** Searches *)

(** [hasher((char * ) &lbid, sizeof(lbid)) % vss->numHashBuckets] *)
Definition hash_lbid (lbid nb : Z) : res Z :=
  if decide (u32 nb = 0) then UB DivisionByZero else Ret (hasher (le_bytes 8 lbid) mod u32 nb).

#[global] Arguments hash_lbid : simpl never.

(** The loops of the [const] members: from the head of the LBID's list. *)
Definition walk {A R} (m : vss_seg) (lbid : Z) (body : A -> Z -> VSSEntry -> A + R) (acc : A)
    : res (A + R) :=
  hashIndex ← hash_lbid lbid (numHashBuckets m);
  currentIndex ← rd (hashBuckets m) hashIndex;
  list_walk (S (length (storage m))) body (storage m) currentIndex acc.

Definition getIndex (m : vss_seg) (lbid verID : Z) : res (Z * Z * Z) :=
  bucket ← hash_lbid lbid (numHashBuckets m);
  head ← rd (hashBuckets m) bucket;
  r ← list_walk (S (length (storage m)))
        (find_body (fun e => bool_decide (vs_lbid e = lbid) && bool_decide (vs_verID e = verID)))
        (storage m) head (-1);
  match r with
  | inr (index, prev) => Ret (index, prev, bucket)
  | inl prev => Ret (-1, prev, bucket)
  end.

(** One iteration of [lookup]'s loop; the accumulator is [maxVersion], the
    flag of [maxEntry] (if any) and [minVersion]. *)
Definition lookup_body (lbid : Z) (verInfo : QueryContext_vss) (txnID : Z) (vbOnly : bool)
    (acc : Z * option bool * Z) (_ : Z) (e : VSSEntry) : (Z * option bool * Z) + (Z * bool) :=
  let '(maxVersion, maxEntry, minVersion) := acc in
  if negb (bool_decide (vs_lbid e = lbid)) then inl acc
  else if vbOnly && negb (vs_vbFlag e) then inl acc
  else if bool_decide (txnID <> vs_verID e) && bool_decide (vs_verID e ∈ txns verInfo)
  then inl acc
  else if bool_decide (currentScn verInfo = vs_verID e) then inr (vs_verID e, vs_vbFlag e)
  else
    let minVersion' :=
      if bool_decide (minVersion > vs_verID e) || bool_decide (minVersion = -1)
      then vs_verID e else minVersion in
    if bool_decide (currentScn verInfo > vs_verID e) && bool_decide (maxVersion < vs_verID e)
    then inl (vs_verID e, Some (vs_vbFlag e), minVersion')
    else inl (maxVersion, maxEntry, minVersion').

(** [lookup]: the return code, [*outVer] and [*vbFlag]. *)
Definition lookup (m : vss_seg) (lbid : Z) (verInfo : QueryContext_vss) (txnID : Z)
    (vbOnly : bool) : res (Z * Z * bool) :=
  r ← walk m lbid (lookup_body lbid verInfo txnID vbOnly) (-1, None, -1);
  match r with
  | inr (v, f) => Ret (0, v, f)
  | inl (maxVersion, maxEntry, minVersion) =>
      match maxEntry with
      | Some f => Ret (0, maxVersion, f)
      | None =>
          if decide (minVersion > currentScn verInfo) then Ret (ERR_SNAPSHOT_TOO_OLD, 0, false)
          else Ret (-1, 0, false)
      end
  end.

(** [getCurrentVersion]: the version and [*isLocked]. *)
Definition getCurrentVersion (m : vss_seg) (lbid : Z) : res (Z * bool) :=
  r ← walk m lbid (fun (_ : unit) _ e =>
        if bool_decide (vs_lbid e = lbid) && negb (vs_vbFlag e)
        then inr (vs_verID e, vs_locked e) else inl tt) tt;
  match r with inr p => Ret p | inl _ => Ret (0, false) end.

Definition getHighestVerInVB (m : vss_seg) (lbid max : Z) : res Z :=
  r ← walk (R := Empty_set) m lbid (fun ret _ e =>
        if bool_decide (vs_lbid e = lbid) && vs_vbFlag e
           && bool_decide (vs_verID e <= max) && bool_decide (vs_verID e > ret)
        then inl (vs_verID e) else inl ret) (-1);
  match r with inl ret => Ret ret | inr x => match x : Empty_set with end end.

Definition isVersioned (m : vss_seg) (lbid version : Z) : res bool :=
  r ← walk m lbid (fun (_ : unit) _ e =>
        if bool_decide (vs_lbid e = lbid) && bool_decide (vs_verID e = version)
        then inr (vs_vbFlag e) else inl tt) tt;
  match r with inr b => Ret b | inl _ => Ret false end.

(** [isLocked]: stops at the first locked entry of the range. *)
Fixpoint isLocked_loop (m : vss_seg) (blocks : list Z) (transID : Z) : res bool :=
  match blocks with
  | [] => Ret false
  | currentBlock :: blocks' =>
      r ← walk m currentBlock (fun (_ : unit) _ e =>
            if bool_decide (vs_lbid e = currentBlock) && vs_locked e
            then inr (negb (bool_decide (vs_verID e = transID))) else inl tt) tt;
      match r with inr b => Ret b | inl _ => isLocked_loop m blocks' transID end
  end.
Definition isLocked (m : vss_seg) (range : LBIDRange) (transID : Z) : res bool :=
  isLocked_loop m (seqZ (r_start range) (r_size range)) transID.

Definition isTooOld (m : vss_seg) (lbid verID : Z) : res bool :=
  r ← walk (R := Empty_set) m lbid (fun minVer _ e =>
        if bool_decide (vs_lbid e = lbid) && bool_decide (minVer > vs_verID e)
        then inl (vs_verID e) else inl minVer) 0;
  match r with inl minVer => Ret (bool_decide (minVer > verID)) | inr x => match x : Empty_set with end end.

Definition isEntryLocked (m : vss_seg) (lbid verID : Z) : res bool :=
  if decide (lbid = -1) then Ret false
  else
    r ← walk (R := Empty_set) m lbid (fun '(hasALockedEntry, rollbackVersion) _ e =>
          if bool_decide (vs_lbid e = lbid) then
            (if vs_locked e then inl (true, rollbackVersion)
             else if bool_decide (rollbackVersion < vs_verID e)
             then inl (hasALockedEntry, vs_verID e) else inl (hasALockedEntry, rollbackVersion))
          else inl (hasALockedEntry, rollbackVersion)) (false, 0);
    match r with
    | inl (hasALockedEntry, rollbackVersion) =>
        Ret (hasALockedEntry && bool_decide (verID = rollbackVersion))
    | inr x => match x : Empty_set with end
    end.

(** ** Insertion and growth *)

Definition _insert (e : VSSEntry) (loading : bool) : prog vss_obj unit :=
  nb ← field FnumHashBuckets;
  hashIndex ← reading (fun _ => hash_lbid (vs_lbid e) nb);
  lwm ← field FLWM;
  insertIndex ← reading (fun o =>
    find_free (S (length (storage (image o)))) (storage (image o)) lwm);
  (if loading then mret tt else makeUndoRecord header_cells);;
  store (DHdr FLWM (insertIndex + 1));;
  (if loading then mret tt
   else
     makeUndoRecord [CStorage insertIndex];;
     makeUndoRecord [CBucket hashIndex]);;
  head ← rdBucket hashIndex;
  wrStorage insertIndex (slot_set_next head e);;
  wrBucket hashIndex insertIndex.

(** An entry in zeroed memory whose LBID has been set to -1. *)
Definition free_entry : VSSEntry := mkVSSEntry (-1) 0 false false 0.

Definition chooseShmkey (m : vss_seg) : Z :=
  if decide (tableShmkey m + 1 = KEYRANGE_VSS_BASE + KEYRANGE_SIZE - 1
             \/ u32 (tableShmkey m) < KEYRANGE_VSS_BASE)
  then KEYRANGE_VSS_BASE + 1
  else tableShmkey m + 1.

(** A zeroed segment mapped in place of the one of [m]. *)
Definition blank (m : vss_seg) : vss_seg :=
  mkVss 0 0 0 0 0 [] [] (tableShmkey m) (allocdSize m) true.

Definition initShmseg (m : vss_seg) : vss_seg :=
  mkVss (VSSSTORAGE_INITIAL_SIZE / sizeof_VSSEntry) 0 0 (VSSTABLE_INITIAL_SIZE / 4) 0
    (replicate (Z.to_nat (VSSTABLE_INITIAL_SIZE / 4)) (-1))
    (replicate (Z.to_nat (VSSSTORAGE_INITIAL_SIZE / sizeof_VSSEntry)) free_entry)
    (tableShmkey m) (allocdSize m) (fPVSSImpl m).

(** [copyVSS(dest)]: the object is the new segment. *)
Definition copyVSS (src : vss_seg) : prog vss_obj unit :=
  modify (set_image (fun d =>
    set_arrays (replicate (Z.to_nat (numHashBuckets d)) (-1))
      (replicate (Z.to_nat (capacity d)) free_entry)
      (set_field FlockedEntryCount (lockedEntryCount src)
        (set_field FcurrentSize (currentSize src) d))));;
  for_each (seqZ 0 (currentSize src)) (fun i =>
    e ← reading (fun _ => rd (storage src) i);
    if decide (vs_lbid e = -1) then mret tt else _insert e true).

(** [growVSS]: unlike the other tables, it keeps its undo records. *)
Definition growVSS : prog vss_obj unit :=
  m ← gets image;
  let allocSize := if decide (allocdSize m = 0) then VSS_INITIAL_SIZE
                   else allocdSize m + VSS_INCREMENT in
  let newshmkey := chooseShmkey m in
  (if fPVSSImpl m || bool_decide (allocSize = VSS_INITIAL_SIZE) then mret tt
   else throw (ERYDBExcept ERR_ASSERTION_FAILURE));;
  (if fPVSSImpl m then
     let tmp := set_field Fcapacity (capacity m + VSSSTORAGE_INCREMENT / sizeof_VSSEntry)
                  (set_field FnumHashBuckets (numHashBuckets m + VSSTABLE_INCREMENT / 4)
                    (set_field FLWM 0 (blank m))) in
     fun o => let '(r, d) := copyVSS m (mkUndoable tmp []) in
              (r, mkUndoable (image d) (undoRecords o))
   else modify (set_image blank));;
  (if decide (allocSize = VSS_INITIAL_SIZE) then modify (set_image initShmseg) else mret tt);;
  modify (set_image (set_shminfo newshmkey allocSize)).

(** [lock(WRITE)]: makes sure that the current segment is mapped; the model
    has one segment, the one the master segment table describes. *)
Definition lock : prog vss_obj unit :=
  m ← gets image;
  if fPVSSImpl m then mret tt
  else if decide (allocdSize m = 0) then growVSS
  else modify (set_image (fun m : vss_seg =>
    let (cap, sz, lwm, nb, lk, bs, st, key, sz', _) := m in
    mkVss cap sz lwm nb lk bs st key sz' true)).

Definition insert (lbid verID : Z) (vbFlag locked loading : bool) : prog vss_obj unit :=
  let entry := mkVSSEntry lbid verID vbFlag locked (-1) in
  size ← field FcurrentSize;
  cap ← field Fcapacity;
  (if decide (size = cap) then growVSS else mret tt);;
  _insert entry loading;;
  (if loading then mret tt else makeUndoRecord [CHdr FcurrentSize]);;
  size ← field FcurrentSize;
  store (DHdr FcurrentSize (size + 1));;
  (if locked then
     lk ← field FlockedEntryCount; store (DHdr FlockedEntryCount (lk + 1))
   else mret tt).

Definition growForLoad (count0 : Z) : prog vss_obj unit :=
  m ← gets image;
  let count1 := if decide (count0 < VSSSTORAGE_INITIAL_COUNT)
                then VSSSTORAGE_INITIAL_COUNT else count0 in
  let count := if decide (Z.rem count1 VSSSTORAGE_INCREMENT_COUNT = 0) then count1
               else (Z.quot count1 VSSSTORAGE_INCREMENT_COUNT + 1) * VSSSTORAGE_INCREMENT_COUNT in
  modify (fun _ => mkUndoable
    (mkVss count 0 0 (count / 4) 0
      (replicate (Z.to_nat (count / 4)) (-1)) (replicate (Z.to_nat count) free_entry)
      (chooseShmkey m) (VSS_SIZE count) true) []).

(** [clear] asserts that a segment is mapped; its key differs from the next
    one chosen. *)
Definition clear : prog vss_obj unit :=
  m ← gets image;
  if fPVSSImpl m then
    modify (set_image (fun m =>
      set_shminfo (chooseShmkey m) VSS_INITIAL_SIZE (initShmseg (blank m))))
  else throw (ERYDBExcept ERR_ASSERTION_FAILURE).

(** ** Removal *)

(** Mark the entry free and link its list around it. *)
Definition unlink (bucket prev index : Z) : prog vss_obj unit :=
  makeUndoRecord [CStorage index];;
  e ← rdStorage index;
  wrStorage index (slot_set_lbid (-1) e);;
  (if decide (prev <> -1) then
     makeUndoRecord [CStorage prev];;
     e ← rdStorage index;
     p ← rdStorage prev;
     wrStorage prev (slot_set_next (vs_next e) p)
   else
     makeUndoRecord [CBucket bucket];;
     e ← rdStorage index;
     wrBucket bucket (vs_next e)).

(** The counters after entry [index] has been freed. *)
Definition account (index : Z) : prog vss_obj unit :=
  size ← field FcurrentSize;
  store (DHdr FcurrentSize (size - 1));;
  e ← rdStorage index;
  lk ← field FlockedEntryCount;
  (if vs_locked e && bool_decide (lk > 0)
   then store (DHdr FlockedEntryCount (lk - 1)) else mret tt);;
  lwm ← field FLWM;
  (if decide (index < lwm) then store (DHdr FLWM index) else mret tt).

(** The loop that frees every entry of [lbid] on a list. *)
Fixpoint sweep (fuel : nat) (lbid bucket prev index : Z) : prog vss_obj unit :=
  match fuel with
  | O => undefined Diverges
  | S fuel' =>
      if decide (index = -1) then mret tt
      else
        e ← rdStorage index;
        if decide (vs_lbid e = lbid) then
          unlink bucket prev index;;
          account index;;
          e' ← rdStorage index;
          sweep fuel' lbid bucket prev (vs_next e')
        else sweep fuel' lbid bucket index (vs_next e)
  end.

(** Is another version of [lbid] in the version buffer or locked? *)
Definition needed (m : vss_seg) (lbid bucket : Z) : res bool :=
  head ← rd (hashBuckets m) bucket;
  r ← list_walk (S (length (storage m))) (fun (_ : unit) _ e =>
        if bool_decide (vs_lbid e = lbid) && (vs_vbFlag e || vs_locked e)
        then inr tt else inl tt) (storage m) head tt;
  match r with inr _ => Ret true | inl _ => Ret false end.

(** [removeEntry]: the result is what is appended to [*flushList]. *)
Definition removeEntry (lbid verID : Z) : prog vss_obj (list Z) :=
  '(index, prev, bucket) ← reading (fun o => getIndex (image o) lbid verID);
  if decide (index = -1) then mret []
  else
    unlink bucket prev index;;
    makeUndoRecord header_cells;;
    account index;;
    again ← reading (fun o => needed (image o) lbid bucket);
    if again : bool then mret []
    else
      head ← rdBucket bucket;
      n ← gets (fun o => length (storage (image o)));
      sweep (S n) lbid bucket (-1) head;;
      mret [lbid].

(** ** Flags and commit *)

Definition setVBFlag (lbid verID : Z) (vbFlag : bool) : prog vss_obj unit :=
  '(index, _, _) ← reading (fun o => getIndex (image o) lbid verID);
  if decide (index = -1) then throw LogicError
  else
    makeUndoRecord [CStorage index];;
    e ← rdStorage index;
    wrStorage index (set_vbFlag vbFlag e).

(** The body of [commit]'s loop; the header is not saved. *)
Definition commit_entry (txnID i : Z) : prog vss_obj unit :=
  e ← rdStorage i;
  if negb (bool_decide (vs_lbid e = -1)) && bool_decide (vs_verID e = txnID) then
    makeUndoRecord [CStorage i];;
    wrStorage i (set_locked false e);;
    lk ← field FlockedEntryCount;
    (if decide (lk > 0) then store (DHdr FlockedEntryCount (lk - 1)) else mret tt)
  else mret tt.

Definition commit (txnID : Z) : prog vss_obj unit :=
  cap ← field Fcapacity;
  for_each (seqZ 0 cap) (commit_entry txnID).

(** ** Listings *)

(** The loops over all of [storage] that collect something per entry. *)
Definition scan {B} (m : vss_seg) (f : VSSEntry -> list B) : res (list B) :=
  collect (seqZ 0 (capacity m)) (fun i =>
    e ← rd (storage m) i; Ret (if decide (vs_lbid e = -1) then [] else f e)).

Definition getUncommittedLBIDs (m : vss_seg) (txnID : Z) : res (list Z) :=
  scan m (fun e => if decide (vs_verID e = txnID) then [vs_lbid e] else []).
Definition getUnlockedLBIDs (m : vss_seg) : res (list (Z * Z)) :=
  scan m (fun e => if vs_locked e then [] else [(vs_lbid e, vs_verID e)]).
Definition getLockedLBIDs (m : vss_seg) : res (list (Z * Z)) :=
  scan m (fun e => if vs_locked e then [(vs_lbid e, vs_verID e)] else []).
(** [getCurrentTxnIDs]: adds to the caller's set. *)
Definition getCurrentTxnIDs (m : vss_seg) (l : gset Z) : res (gset Z) :=
  ids ← scan m (fun e => if vs_locked e then [vs_verID e] else []);
  Ret (list_to_set ids ∪ l).

(** [size()] counts and compares. *)
Definition size (m : vss_seg) : res Z :=
  l ← scan m (fun _ => [tt]);
  let ret := Z.of_nat (length l) in
  if decide (ret = currentSize m) then Ret ret else Throw LogicError.

Definition isEmpty (m : vss_seg) : bool := bool_decide (currentSize m = 0).

Fixpoint all_empty (l : list Z) (bs : list Z) : res bool :=
  match l with
  | [] => Ret true
  | i :: l' => h ← rd bs i; if decide (h = -1) then all_empty l' bs else Ret false
  end.
Definition hashEmpty (m : vss_seg) : res bool :=
  all_empty (seqZ 0 (numHashBuckets m)) (hashBuckets m).

(** ** The image on disk

    A [VSSEntry] takes 24 bytes; the compiler's padding (bytes 14-15 and
    20-23) is written as 0 and skipped on reading. *)

Definition bool_byte (b : bool) : Z := if b then 1 else 0.

Definition VSSEntry_bytes (e : VSSEntry) : list Z :=
  le_bytes 8 (vs_lbid e) ++ le_bytes 4 (vs_verID e)
  ++ [bool_byte (vs_vbFlag e); bool_byte (vs_locked e); 0; 0]
  ++ le_bytes 4 (vs_next e) ++ [0; 0; 0; 0].

Definition get_VSSEntry : reader VSSEntry :=
  l ← get_s64; v ← get_s32; fl ← get_bytes 4; n ← get_s32; _ ← get_bytes 4;
  mret (mkVSSEntry l v (bool_decide (fl !! 0%nat <> Some 0)) (bool_decide (fl !! 1%nat <> Some 0)) n).

Definition save (m : vss_seg) : res (list Z) :=
  entries ← scan m VSSEntry_bytes;
  Ret (le_bytes 4 VSS_MAGIC_V1 ++ le_bytes 4 (currentSize m) ++ entries).

Definition load : prog (vss_obj * list Z) unit :=
  '(magic, entries) ← file_read (m ← get_s32; n ← get_s32; mret (m, n));
  if decide (magic <> VSS_MAGIC_V1) then throw RuntimeError
  else if decide (entries < 0) then throw RuntimeError
  else
    on_obj (growForLoad entries);;
    for_each (seqZ 0 entries) (fun _ =>
      entry ← file_read get_VSSEntry;
      on_obj (insert (vs_lbid entry) (vs_verID entry) (vs_vbFlag entry) (vs_locked entry) true)).
