(* ===== verification/AutoIncrement.v ===== *)
(** * Autoincrement sequences: src/versioning/BRM/autoincrementmanager.{h,cpp}

    The controller hands out ranges of numbers for the autoincrement columns.
    A sequence is its next number, the first number that does not fit the
    column, and a mutex that sessions hold across several calls. *)
From Stdlib Require Import ZArith Lia.
From S2P Require Import Prelude StdMap BrmTypes.

Local Open Scope Z_scope.

(** [ColDataType] and [isUnsigned], dbcon/execplan/erydbsystemcatalog.h *)
Definition UTINYINT : Z := 16.
Definition USMALLINT : Z := 17.
Definition UMEDINT : Z := 19.
Definition UINT : Z := 20.
Definition UBIGINT : Z := 22.
Definition isUnsigned (type : Z) : bool :=
  bool_decide (type ∈ [UTINYINT; USMALLINT; UMEDINT; UINT; UBIGINT]).

Record sequence := mkSeq { value : Z; overflow : Z; ai_locked : bool }.
Definition set_value (v : Z) (s : sequence) : sequence := mkSeq v (overflow s) (ai_locked s).
Definition set_locked (b : bool) (s : sequence) : sequence := mkSeq (value s) (overflow s) b.

(** [std::map<uint64_t, sequence> sequences] *)
Abbreviation AutoincrementManager := (gmap Z sequence).

(** [a >> n] on [uint64_t]: undefined unless [n < 64]. *)
Definition shr64 (a n : Z) : res Z :=
  if decide (0 <= n < 64) then Ret (Z.shiftr a n) else UB OutOfBounds.

(** The limit of a column of [colWidth] bytes. *)
Definition ai_overflow (colWidth : Z) (colDataType : Z) : res Z :=
  if isUnsigned colDataType then
    x ← shr64 0xFFFFFFFFFFFFFFFF (u32 (64 - colWidth * 8)); Ret (u64 (x - 1))
  else shl64 1 (u32 (colWidth * 8 - 1)).

Definition startSequence (oid firstNum colWidth colDataType : Z) : prog AutoincrementManager unit :=
  m ← gets id;
  match m !! oid with
  | Some _ => mret tt
  | None =>
      o ← reading (fun _ => ai_overflow colWidth colDataType);
      modify (fun m => <[oid := mkSeq firstNum o false]> m)
  end.

(** [getAIRange]: whether the range is granted, and its first number. *)
Definition getAIRange (oid count : Z) : prog AutoincrementManager (option Z) :=
  m ← gets id;
  match m !! oid with
  | None => throw RuntimeError
  | Some s =>
      if (bool_decide (overflow s <= count)
          || bool_decide (overflow s < u64 (count + value s))
          || bool_decide (u64 (count + value s) <= value s))
         && negb (bool_decide (count = 0))
      then mret None
      else
        modify (fun m => <[oid := set_value (u64 (value s + count)) s]> m);;
        mret (Some (value s))
  end.

Definition resetSequence (oid v : Z) : prog AutoincrementManager unit :=
  modify (fun m => alter (set_value v) oid m).

(** [getLock]: [tries] has one element per attempt made in the 30 seconds, and
    says whether the holder released the mutex before it.  After the last
    attempt the caller takes possession, whether it got the mutex or not. *)
Fixpoint try_lock (tries : list bool) (locked : bool) : bool :=
  match tries with
  | [] => locked
  | released :: tries' => if negb locked || released then true else try_lock tries' locked
  end.

Definition ai_getLock (oid : Z) (tries : list bool) : prog AutoincrementManager unit :=
  m ← gets id;
  match m !! oid with
  | None => throw RuntimeError
  | Some s => modify (fun m => <[oid := set_locked (try_lock tries (ai_locked s)) s]> m)
  end.

(** Unlocking a mutex nobody holds is undefined. *)
Definition ai_releaseLock (oid : Z) : prog AutoincrementManager unit :=
  m ← gets id;
  match m !! oid with
  | None => mret tt
  | Some s =>
      if ai_locked s then modify (fun m => <[oid := set_locked false s]> m)
      else undefined BadUnlock
  end.

Definition deleteSequence (oid : Z) : prog AutoincrementManager unit :=
  modify (fun m => delete oid m).

(** ** Calls, as the controller makes them *)

Inductive ai_call :=
  | StartSequence (oid firstNum colWidth colDataType : Z)
  | GetAIRange (oid count : Z)
  | ResetSequence (oid v : Z)
  | GetLock (oid : Z) (tries : list bool)
  | ReleaseLock (oid : Z)
  | DeleteSequence (oid : Z).

(** The call, and the range it hands out: sequence, first number and count. *)
Definition ai_exec (c : ai_call) : prog AutoincrementManager (option (Z * Z * Z)) :=
  match c with
  | StartSequence oid f w t => startSequence oid f w t;; mret None
  | GetAIRange oid count =>
      r ← getAIRange oid count; mret (first ← r; Some (oid, first, count))
  | ResetSequence oid v => resetSequence oid v;; mret None
  | GetLock oid tries => ai_getLock oid tries;; mret None
  | ReleaseLock oid => ai_releaseLock oid;; mret None
  | DeleteSequence oid => deleteSequence oid;; mret None
  end.

(** A run; a call that throws hands out nothing. *)
Inductive ai_run (m : AutoincrementManager) : list (Z * Z * Z) -> list ai_call ->
    AutoincrementManager -> Prop :=
  | ai_nil : ai_run m [] [] m
  | ai_ok gs cs m1 c g m2 : ai_run m gs cs m1 -> ai_exec c m1 = (Ret g, m2) ->
      ai_run m (gs ++ option_list g) (cs ++ [c]) m2
  | ai_throw gs cs m1 c e m2 : ai_run m gs cs m1 -> ai_exec c m1 = (Throw e, m2) ->
      ai_run m gs (cs ++ [c]) m2.

(** The numbers handed out for a sequence, in order. *)
Definition handed_out (oid : Z) (gs : list (Z * Z * Z)) : list Z :=
  gs ≫= fun '(o, first, count) => if decide (o = oid) then seqZ first count else [].

(** ** Results *)

(** The calls that move a sequence back or remove it; a count is a [uint64_t]. *)
Definition disturbs (oid : Z) (c : ai_call) : Prop :=
  match c with
  | ResetSequence o _ | DeleteSequence o => o = oid
  | GetAIRange o count => o = oid /\ ~ (0 <= count < 2 ^ 64)
  | _ => False
  end.

Definition seq_ok (s : sequence) : Prop := 0 <= value s < 2 ^ 64 /\ 0 <= overflow s < 2 ^ 64.

(** When a range is granted, without the wrap-around. *)
Lemma getAIRange_spec oid count m s : m !! oid = Some s -> seq_ok s -> 0 <= count < 2 ^ 64 ->
  (count = 0 \/ (count < overflow s /\ value s + count <= overflow s)) /\
    getAIRange oid count m = (Ret (Some (value s)), <[oid := set_value (value s + count) s]> m)
  \/ (count <> 0 /\ (overflow s <= count \/ overflow s < value s + count)) /\
    getAIRange oid count m = (Ret None, m).
Proof.
  intros Hm [Hv Ho] Hc. unfold getAIRange. erewrite bind_Ret by reflexivity.
  change (id m) with m. rewrite Hm.
  destruct (decide (count = 0)) as [->|Hc0].
  { left. split; [by left|]. rewrite (bool_decide_eq_true_2 (0 = 0)) by done.
    rewrite andb_false_r. rewrite Z.add_0_r, u64_id by lia. done. }
  rewrite (bool_decide_eq_false_2 (count = 0)) by done. cbn [negb]. rewrite andb_true_r.
  destruct (decide (value s + count < 2 ^ 64)) as [Hs|Hs].
  - rewrite (Z.add_comm count), u64_id by lia.
    rewrite (bool_decide_eq_false_2 (value s + count <= value s)) by lia. rewrite orb_false_r.
    destruct (decide (overflow s <= count \/ overflow s < value s + count)) as [H|H].
    + right. split; [done|]. replace (_ || _) with true; [done|]. symmetry.
      rewrite orb_true_iff, !bool_decide_eq_true. done.
    + left. split; [right; lia|]. rewrite !bool_decide_eq_false_2 by lia. done.
  - right. split; [split; [done|lia]|].
    assert (E : u64 (count + value s) = count + value s - 2 ^ 64).
    { unfold u64. rewrite <- (Z.mod_small (count + value s - 2 ^ 64) (2 ^ 64)) by lia.
      rewrite <- (Z_mod_plus_full (count + value s - 2 ^ 64) 1). f_equal. lia. }
    rewrite (bool_decide_eq_true_2 (u64 _ <= _)) by lia. by rewrite orb_true_r.
Qed.

(** The limit of a column: for a signed one the first number that does not
    fit, for an unsigned one the first of the two reserved numbers. *)
Definition limit (colWidth colDataType : Z) : Z :=
  if isUnsigned colDataType then 2 ^ (8 * colWidth) - 2 else 2 ^ (8 * colWidth - 1).

Lemma ai_overflow_limit w t : 1 <= w <= 8 ->
  ai_overflow w t = Ret (limit w t) /\ 0 <= limit w t < 2 ^ 64.
Proof.
  intros Hw. unfold ai_overflow, limit.
  assert (w = 1 \/ w = 2 \/ w = 3 \/ w = 4 \/ w = 5 \/ w = 6 \/ w = 7 \/ w = 8) as Hcases by lia.
  destruct (isUnsigned t); repeat (destruct Hcases as [->|Hcases]; [vm_compute; split; done|]);
    subst w; vm_compute; split; done.
Qed.

(** What a call does to a sequence it does not disturb. *)
Definition advances (oid : Z) (s s' : sequence) (gs : list (Z * Z * Z)) : Prop :=
  overflow s' = overflow s /\ value s <= value s' <= Z.max (value s) (overflow s) /\
  handed_out oid gs = seqZ (value s) (value s' - value s).

Lemma advances_locked oid s b : advances oid s (set_locked b s) [].
Proof. split; [done|]. cbn. split; [lia|]. by rewrite Z.sub_diag. Qed.

Lemma advances_refl oid s : advances oid s s [].
Proof. pose proof (advances_locked oid s (ai_locked s)). by destruct s. Qed.

Lemma advances_trans oid s s1 s2 gs gs' :
  advances oid s s1 gs -> advances oid s1 s2 gs' -> advances oid s s2 (gs ++ gs').
Proof.
  intros (Eo & Hv & Hh) (Eo' & Hv' & Hh'). split; [congruence|]. rewrite Eo in *. split; [lia|].
  unfold handed_out in *. rewrite bind_app, Hh, Hh'.
  replace (value s2 - value s) with ((value s1 - value s) + (value s2 - value s1)) by lia.
  rewrite seqZ_app by lia. do 2 f_equal. lia.
Qed.

(** The sequence a call is about. *)
Definition about (c : ai_call) : Z :=
  match c with
  | StartSequence o _ _ _ | GetAIRange o _ | ResetSequence o _ | GetLock o _ | ReleaseLock o
  | DeleteSequence o => o
  end.

Definition granted (r : res (option (Z * Z * Z))) : list (Z * Z * Z) :=
  match r with Ret (Some g) => [g] | _ => [] end.

Ltac ai_unfold := unfold startSequence, getAIRange, ai_getLock, ai_releaseLock, mbind, prog_bind, gets,
  reading, modify, id in *.

Lemma ai_exec_other oid c m r m' : about c <> oid -> ai_exec c m = (r, m') ->
  m' !! oid = m !! oid /\ handed_out oid (granted r) = [].
Proof.
  intros Hne H.
  destruct c as [o f w t|o count|o v|o tries|o|o]; cbn [ai_exec about] in *; ai_unfold;
    [destruct (m !! o); [|destruct (ai_overflow w t)] | destruct (m !! o) as [x|]; [destruct (_ && _)|]
    | | destruct (m !! o) | destruct (m !! o) as [x|]; [destruct (ai_locked x)|] |];
    injection H as <- <-; unfold resetSequence, deleteSequence, modify;
    rewrite ?lookup_insert_ne, ?lookup_alter_ne, ?lookup_delete_ne by done; try done.
  split; [done|]. unfold handed_out. cbn. by rewrite decide_False.
Qed.

Lemma ai_exec_own oid c m r m' s : about c = oid -> ~ disturbs oid c -> m !! oid = Some s ->
  seq_ok s -> ai_exec c m = (r, m') -> (forall u, r <> UB u) ->
  exists s', m' !! oid = Some s' /\ advances oid s s' (granted r).
Proof.
  intros <- Hd Hm Hok H Hub.
  destruct c as [o f w t|o count|o v|o tries|o|o]; cbn [ai_exec about disturbs] in *; try done.
  - ai_unfold. rewrite Hm in H. injection H as <- <-. exists s. split; [done|]. apply advances_refl.
  - destruct (getAIRange_spec o count m s Hm Hok) as [[Hg E]|[_ E]]; [lia| |];
      unfold mbind at 1, prog_bind in H; rewrite E in H; injection H as <- <-.
    + eexists. rewrite lookup_insert_eq. split; [done|]. destruct Hok. split; [done|].
      cbn [value set_value]. split; [lia|]. unfold handed_out. cbn. rewrite decide_True by done.
      rewrite app_nil_r. f_equal. lia.
    + exists s. split; [done|]. apply advances_refl.
  - ai_unfold. rewrite Hm in H. injection H as <- <-. eexists. rewrite lookup_insert_eq.
    split; [done|]. apply advances_locked.
  - ai_unfold. rewrite Hm in H. destruct (ai_locked s); injection H as <- <-; [|by destruct (Hub BadUnlock)].
    eexists. rewrite lookup_insert_eq. split; [done|]. apply advances_locked.
Qed.

Lemma ai_exec_advances oid c m r m' s : ~ disturbs oid c -> m !! oid = Some s -> seq_ok s ->
  ai_exec c m = (r, m') -> (forall u, r <> UB u) ->
  exists s', m' !! oid = Some s' /\ advances oid s s' (granted r).
Proof.
  intros Hd Hm Hok H Hub. destruct (decide (about c = oid)) as [He|Hne]; [by eapply ai_exec_own|].
  destruct (ai_exec_other _ _ _ _ _ Hne H) as [Hk Hh]. exists s. split; [by rewrite Hk|].
  destruct (advances_refl oid s) as (H1 & H2 & H3). split; [done|]. split; [done|]. by rewrite Hh, <- H3.
Qed.

Lemma advances_ok oid s s' gs : advances oid s s' gs -> seq_ok s -> seq_ok s'.
Proof. intros (Eo & Hv & _) [Hv0 Ho]. split; rewrite ?Eo; [lia|done]. Qed.

Lemma ai_run_advances oid m gs cs m' s : ai_run m gs cs m' -> Forall (fun c => ~ disturbs oid c) cs ->
  m !! oid = Some s -> seq_ok s -> exists s', m' !! oid = Some s' /\ advances oid s s' gs.
Proof.
  intros Hrun Hd Hm Hok.
  induction Hrun as [|gs cs m1 c g m2 Hrun IH H|gs cs m1 c e m2 Hrun IH H].
  - exists s. split; [done|]. apply advances_refl.
  - apply Forall_app in Hd as [Hd Hc]. destruct (IH Hd) as (s1 & Hm1 & Ha1).
    rewrite Forall_singleton in Hc.
    destruct (ai_exec_advances oid c m1 _ _ s1 Hc Hm1 (advances_ok _ _ _ _ Ha1 Hok) H ltac:(done))
      as (s2 & Hm2 & Ha2).
    exists s2. split; [done|]. eapply advances_trans; [exact Ha1|]. by destruct g.
  - apply Forall_app in Hd as [Hd Hc]. destruct (IH Hd) as (s1 & Hm1 & Ha1).
    rewrite Forall_singleton in Hc.
    destruct (ai_exec_advances oid c m1 _ _ s1 Hc Hm1 (advances_ok _ _ _ _ Ha1 Hok) H ltac:(done))
      as (s2 & Hm2 & Ha2).
    exists s2. split; [done|]. rewrite <- (app_nil_r gs). eapply advances_trans; [exact Ha1|exact Ha2].
Qed.

(** ** Properties *)

(** A sequence gets the next number [first] and has the limit [lim]: it is started, or
    one that exists is reset. *)
Inductive begins (oid first lim : Z) (m m1 : AutoincrementManager) : Prop :=
  | begins_start w t : m !! oid = None -> 1 <= w <= 8 -> lim = limit w t ->
      startSequence oid first w t m = (Ret tt, m1) -> begins oid first lim m m1
  | begins_reset s : m !! oid = Some s -> seq_ok s -> lim = overflow s ->
      resetSequence oid first m = (Ret tt, m1) -> begins oid first lim m m1.

Lemma begins_seq oid first lim m m1 : begins oid first lim m m1 -> 0 <= first < 2 ^ 64 ->
  exists s, m1 !! oid = Some s /\ value s = first /\ overflow s = lim /\ seq_ok s.
Proof.
  intros [w t Hm Hw -> H|s Hm Hok -> H] Hf.
  - destruct (ai_overflow_limit w t Hw) as [Ho Hl]. exists (mkSeq first (limit w t) false).
    ai_unfold. rewrite Hm, Ho in H. injection H as <-. by rewrite lookup_insert_eq.
  - injection H as <-. exists (set_value first s). rewrite lookup_alter_eq, Hm. destruct Hok. done.
Qed.

(** C37: Between the start or the reset of a sequence and its next reset or
    deletion, whatever calls are made in between by whichever sessions, the ranges that
    are granted are, one after the other, exactly the consecutive numbers from the first
    value on, none twice, and none beyond the limit of the column's type. *)
Theorem ai_consecutive m oid first lim m1 gs cs m2 : begins oid first lim m m1 -> 0 <= first < 2 ^ 64 ->
  ai_run m1 gs cs m2 -> Forall (fun c => ~ disturbs oid c) cs ->
  exists n, handed_out oid gs = seqZ first n /\ NoDup (handed_out oid gs) /\
    Forall (fun x => first <= x < lim) (handed_out oid gs).
Proof.
  intros Hb Hf Hrun Hd. destruct (begins_seq _ _ _ _ _ Hb Hf) as (s & Hm1 & <- & <- & Hok).
  destruct (ai_run_advances oid _ _ _ _ _ Hrun Hd Hm1 Hok) as (s' & _ & (Eo & Hv & Hh)).
  exists (value s' - value s). split; [done|]. rewrite Hh.
  split; [apply NoDup_seqZ|]. apply Forall_forall. intros x Hx%elem_of_seqZ. lia.
Qed.

Lemma ai_snoc m gs cs m1 c g gs' cs' : ai_run m gs cs m1 -> fst (ai_exec c m1) = Ret g ->
  gs ++ option_list g = gs' -> cs ++ [c] = cs' -> ai_run m gs' cs' (snd (ai_exec c m1)).
Proof.
  intros Hrun H <- <-. eapply ai_ok; [exact Hrun|]. by rewrite <- H, <- surjective_pairing.
Qed.

Lemma ai_consecutive_witness :
  let m1 := snd (startSequence 3001 1 1 UTINYINT ∅) in
  exists m2, ai_run m1 [(3001, 1, 5); (3001, 6, 248)]
      [GetAIRange 3001 5; GetAIRange 3001 249; GetAIRange 3001 248; GetAIRange 3002 1] m2 /\
    NoDup (seqZ 1 253) /\ Forall (fun x => 1 <= x < 254) (seqZ 1 253).
Proof.
  cbv zeta.
  assert (Hrun : exists m2, ai_run (snd (startSequence 3001 1 1 UTINYINT ∅)) [(3001, 1, 5); (3001, 6, 248)]
      [GetAIRange 3001 5; GetAIRange 3001 249; GetAIRange 3001 248; GetAIRange 3002 1] m2).
  { eexists.
    eapply (ai_throw _ _ [GetAIRange 3001 5; GetAIRange 3001 249; GetAIRange 3001 248] _ (GetAIRange 3002 1)
      RuntimeError);
      [eapply (ai_snoc _ [(3001, 1, 5)] [GetAIRange 3001 5; GetAIRange 3001 249] _ (GetAIRange 3001 248));
        [eapply (ai_snoc _ [(3001, 1, 5)] [GetAIRange 3001 5] _ (GetAIRange 3001 249) None);
          [eapply (ai_snoc _ [] [] _ (GetAIRange 3001 5)); [constructor|..]|..]|..]|];
      vm_compute; reflexivity. }
  destruct Hrun as [m2 Hrun]. exists m2. split; [exact Hrun|].
  destruct (ai_consecutive ∅ 3001 1 254 (snd (startSequence 3001 1 1 UTINYINT ∅))
    [(3001, 1, 5); (3001, 6, 248)] [GetAIRange 3001 5; GetAIRange 3001 249; GetAIRange 3001 248; GetAIRange 3002 1] m2)
    as (n & Hh & Hnd & Hf); [|lia|exact Hrun| |].
  - apply (begins_start _ _ _ _ _ 1 UTINYINT); [reflexivity|lia|vm_compute; reflexivity|vm_compute; reflexivity].
  - repeat (apply Forall_cons; split; [cbn; lia|]). constructor.
  - assert (E : handed_out 3001 [(3001, 1, 5); (3001, 6, 248)] = seqZ 1 253) by (vm_compute; reflexivity).
    rewrite E in Hnd, Hf. split; [exact Hnd|exact Hf].
Defined.
