(* ===== verification/SessionManager.v ===== *)
(** * The session manager: src/versioning/BRM/sessionmanagerserver.{h,cpp}

    The controller's source of transaction ids, snapshots and unique numbers.
    A counting semaphore bounds the number of open transactions, and requests wait
    for it; the last
    transaction id, the last version of the system catalog and the flags of
    the system are kept in a file of three 32-bit words. *)
From Stdlib Require Import ZArith Lia.
From stdpp Require Import sorting.
From S2P Require Import Prelude Bytes StdMap VSS.

Local Open Scope Z_scope.

(** ** Files *)

(** [write(fd, data, n)] at an offset: the kernel takes the first [n] bytes,
    or refuses.  Writing past the end fills the hole with zeros. *)
Inductive write_outcome := Wrote (n : nat) | WriteError.

Definition file_write (f : list Z) (off : nat) (data : list Z) : list Z :=
  take off (f ++ replicate (off - length f) 0) ++ data ++ drop (off + length data) f.

(** ** State *)

Record TxnID := mkTxn { txn_id : Z; txn_valid : bool }.
Definition TxnID_default : TxnID := mkTxn 0 false.

Record SessionManager := mkSM {
  unique32 : Z;
  unique64 : Z;
  maxTxns : Z;
  _verID : Z;
  _sysCatVerID : Z;
  systemState : Z;
  activeTxns : gmap Z Z;
  semValue : Z;
  txnidFile : list Z;
}.

Definition set_counters (u32' u64' : Z) (s : SessionManager) : SessionManager :=
  mkSM u32' u64' (maxTxns s) (_verID s) (_sysCatVerID s) (systemState s) (activeTxns s)
    (semValue s) (txnidFile s).
Definition set_versions (v c : Z) (s : SessionManager) : SessionManager :=
  mkSM (unique32 s) (unique64 s) (maxTxns s) v c (systemState s) (activeTxns s)
    (semValue s) (txnidFile s).
Definition set_systemState (st : Z) (s : SessionManager) : SessionManager :=
  mkSM (unique32 s) (unique64 s) (maxTxns s) (_verID s) (_sysCatVerID s) st (activeTxns s)
    (semValue s) (txnidFile s).
Definition set_txns (a : gmap Z Z) (sem : Z) (s : SessionManager) : SessionManager :=
  mkSM (unique32 s) (unique64 s) (maxTxns s) (_verID s) (_sysCatVerID s) (systemState s) a
    sem (txnidFile s).
Definition set_file (f : list Z) (s : SessionManager) : SessionManager :=
  mkSM (unique32 s) (unique64 s) (maxTxns s) (_verID s) (_sysCatVerID s) (systemState s)
    (activeTxns s) (semValue s) f.

Definition SS_READY : Z := 1.
Definition SS_SUSPENDED : Z := 2.
Definition SS_SUSPEND_PENDING : Z := 4.
Definition SS_SHUTDOWN_PENDING : Z := 8.
Definition SS_ROLLBACK : Z := 16.
Definition SS_FORCE : Z := 32.
Definition SS_QUERY_READY : Z := 64.

Definition not_loaded : Z :=
  Z.lor SS_READY (Z.lor SS_QUERY_READY (Z.lor SS_SUSPEND_PENDING
    (Z.lor SS_SHUTDOWN_PENDING (Z.lor SS_ROLLBACK SS_FORCE)))).
Definition not_saved : Z :=
  Z.lor SS_READY (Z.lor SS_QUERY_READY (Z.lor SS_SUSPEND_PENDING
    (Z.lor SS_SHUTDOWN_PENDING SS_FORCE))).

(** ** Loading *)

(** [read(fd, buf, 4)] at an offset: the word, if four bytes were there. *)
Definition read_word (f : list Z) (off : nat) : option Z :=
  match get_u32 (drop off f) with Some (x, _) => Some x | None => None end.

(** [loadState]; [readable] says which of the three reads the kernel carries
    out (one that was interrupted is repeated).  A failed read of the first
    two words throws, one of the third counts as a missing word. *)
Definition loadState (r1 r2 r3 : bool) : prog SessionManager unit :=
  if negb r1 then throw RuntimeError else
  modify (fun s => set_versions (default (_verID s) (s32 <$> read_word (txnidFile s) 0))
                                (_sysCatVerID s) s);;
  if negb r2 then throw RuntimeError else
  modify (fun s => set_versions (_verID s)
                     (default (_sysCatVerID s) (s32 <$> read_word (txnidFile s) 4)) s);;
  modify (fun s => set_systemState
                     (match (if r3 then read_word (txnidFile s) 8 else None) with
                      | Some w => Z.ldiff w not_loaded
                      | None => 0
                      end) s).

(** The constructor: [cfg] is [MaxConcurrentTransactions] as a number, [None]
    when it is not configured; [f] is the file, empty if it is new.  Errors
    of [loadState] are ignored. *)
Definition SessionManagerServer (cfg : option Z) (f : list Z) (r1 r2 r3 : bool) : SessionManager :=
  let max := match cfg with
             | Some tmp => if decide (tmp < 1) then 1 else s32 tmp
             | None => 1
             end in
  snd (loadState r1 r2 r3 (mkSM 0 0 max 0 0 0 ∅ (u32 max) f)).

(** ** Saving *)

Definition write_at (off : nat) (data : list Z) (o : write_outcome) : prog SessionManager unit :=
  match o with
  | WriteError => throw RuntimeError
  | Wrote n => modify (fun s => set_file (file_write (txnidFile s) off (take n data)) s)
  end.

Definition saveSystemState (o : write_outcome) : prog SessionManager unit :=
  st ← gets systemState;
  write_at 8 (le_bytes 4 (Z.ldiff st not_saved)) o.

(** ** Operations *)

Definition verID (s : SessionManager) : QueryContext :=
  mkQC (_verID s) (snd <$> in_order (activeTxns s)).
Definition sysCatVerID (s : SessionManager) : QueryContext :=
  mkQC (_sysCatVerID s) (snd <$> in_order (activeTxns s)).

Definition erydbassert {S} (b : bool) : prog S unit :=
  if b then mret tt else throw (ERYDBExcept ERR_ASSERTION_FAILURE).

(** [++x] on an [int]. *)
Definition next_int {S} (x : Z) : prog S Z :=
  if decide (x + 1 < 2 ^ 31) then mret (x + 1) else undefined SignedOverflow.

(** [newTxnID] from [semValue--] on: the part behind the wait. *)
Definition take_slot (session : Z) (isDDL : bool) (o : write_outcome) : prog SessionManager TxnID :=
  active ← gets activeTxns;
  sem ← gets semValue;
  modify (set_txns active (sem - 1));;
  max ← gets maxTxns;
  erydbassert (bool_decide (sem - 1 <= u32 max));;
  v ← gets _verID;
  id ← next_int v;
  c ← gets _sysCatVerID;
  c' ← (if isDDL then next_int c else mret c);
  modify (fun s => set_versions id c' (set_txns (<[session := id]> active) (semValue s) s));;
  write_at 0 (le_bytes 4 id ++ le_bytes 4 c') o;;
  mret (mkTxn id true).

(** [newTxnID] up to its end or to [condvar.wait], which is [WouldBlock]. *)
Definition newTxnID (session : Z) (block isDDL : bool) (o : write_outcome) :
    prog SessionManager TxnID :=
  active ← gets activeTxns;
  match active !! session with
  | Some id => mret (mkTxn id true)
  | None =>
      sem ← gets semValue;
      if decide (sem = 0) then
        if block then throw WouldBlock else mret TxnID_default
      else take_slot session isDDL o
  end.

(** The call when it returns from [condvar.wait]: the loop tests the semaphore
    again, and the session is not looked up a second time. *)
Definition newTxnID_woken (session : Z) (isDDL : bool) (o : write_outcome) : prog SessionManager TxnID :=
  sem ← gets semValue;
  if decide (sem = 0) then throw WouldBlock else take_slot session isDDL o.

(** [finishTransaction], which is [committed] and [rolledback]. *)
Definition finishTransaction (txn : TxnID) : prog SessionManager TxnID :=
  if negb (txn_valid txn) then throw InvalidArgument
  else
    active ← gets activeTxns;
    sem ← gets semValue;
    max ← gets maxTxns;
    let is_it := fun id => bool_decide (id = txn_id txn) in
    match first_in is_it active with
    | None => throw InvalidArgument
    | Some _ =>
      let sem' := u32 (sem + 1) in
      modify (set_txns (erase_all is_it active) sem');;
      erydbassert (bool_decide (sem' <= u32 max));;
      mret (mkTxn (txn_id txn) false)
    end.

Definition getTxnID (session : Z) (s : SessionManager) : TxnID :=
  match activeTxns s !! session with
  | Some id => mkTxn id true
  | None => TxnID_default
  end.

Definition SIDTIDMap (s : SessionManager) : list (Z * TxnID) :=
  (fun kv => (kv.1, mkTxn kv.2 true)) <$> in_order (activeTxns s).

Definition setSystemState (state : Z) (o : write_outcome) : prog SessionManager unit :=
  modify (fun s => set_systemState (Z.lor (systemState s) state) s);;
  saveSystemState o.
Definition clearSystemState (state : Z) (o : write_outcome) : prog SessionManager unit :=
  modify (fun s => set_systemState (Z.ldiff (systemState s) state) s);;
  saveSystemState o.
Definition getSystemState (s : SessionManager) : Z := systemState s.
Definition getTxnCount (s : SessionManager) : Z := Z.of_nat (base.size (activeTxns s)).

Definition sm_reset : prog SessionManager unit :=
  modify (fun s => set_txns ∅ (u32 (maxTxns s)) s).

(** [atomicInc] returns the new value. *)
Definition getUnique32 : prog SessionManager Z :=
  modify (fun s => set_counters (u32 (unique32 s + 1)) (unique64 s) s);;
  gets unique32.
Definition getUnique64 : prog SessionManager Z :=
  modify (fun s => set_counters (unique32 s) (u64 (unique64 s + 1)) s);;
  gets unique64.

(** ** Invariant *)

(** The semaphore and the open transactions stay within the maximum; the open
    transactions have different ids, none above the last one issued. *)
Record sm_wf (s : SessionManager) : Prop := {
  sm_max : 1 <= maxTxns s < 2 ^ 31;
  sm_sem : semValue s + Z.of_nat (base.size (activeTxns s)) <= maxTxns s;
  sm_sem_pos : 0 <= semValue s;
  sm_old : forall sid id, activeTxns s !! sid = Some id -> id <= _verID s;
  sm_inj : forall sid sid' id, activeTxns s !! sid = Some id ->
    activeTxns s !! sid' = Some id -> sid = sid';
}.

(** The server with the requests that wait in [newTxnID]: their sessions, and
    whether they are for DDL.  [lost] counts the slots that were taken, since the
    last reset, for a session that had a transaction already. *)
Record server := mkServer { sm : SessionManager; waiting : list (Z * bool); lost : Z }.

(** The id a call issued, if it issued one. *)
Definition issued (s s' : SessionManager) : option Z :=
  if decide (_verID s' = _verID s) then None else Some (_verID s').
(** The slot that is lost when [session] is given one. *)
Definition loses (session : Z) (s s' : SessionManager) : Z :=
  match issued s s' with Some _ => Z.b2z (bool_decide (is_Some (activeTxns s !! session))) | None => 0 end.

(** The calls that change the server, and the transaction id they issue.  [ok]
    says what may happen to a write of so many bytes.  A request that waits may be
    woken at any time, as the threads of a condition variable are. *)
Inductive sm_step (ok : nat -> write_outcome -> Prop) (c : server) : option Z -> server -> Prop :=
  | step_new session block isDDL o r s' :
      ok 8%nat o -> newTxnID session block isDDL o (sm c) = (r, s') -> (forall u, r <> UB u) ->
      r <> Throw WouldBlock -> sm_step ok c (issued (sm c) s') (mkServer s' (waiting c) (lost c))
  | step_wait session isDDL o s' :
      ok 8%nat o -> newTxnID session true isDDL o (sm c) = (Throw WouldBlock, s') ->
      sm_step ok c None (mkServer s' (waiting c ++ [(session, isDDL)]) (lost c))
  | step_again i session isDDL o s' : waiting c !! i = Some (session, isDDL) ->
      ok 8%nat o -> newTxnID_woken session isDDL o (sm c) = (Throw WouldBlock, s') ->
      sm_step ok c None (mkServer s' (waiting c) (lost c))
  | step_woken i session isDDL o r s' : waiting c !! i = Some (session, isDDL) ->
      ok 8%nat o -> newTxnID_woken session isDDL o (sm c) = (r, s') -> (forall u, r <> UB u) ->
      r <> Throw WouldBlock ->
      sm_step ok c (issued (sm c) s')
        (mkServer s' (delete i (waiting c)) (lost c + loses session (sm c) s'))
  | step_finish txn r s' : finishTransaction txn (sm c) = (r, s') ->
      sm_step ok c None (mkServer s' (waiting c) (lost c))
  | step_reset s' : sm_reset (sm c) = (Ret tt, s') -> sm_step ok c None (mkServer s' (waiting c) 0)
  | step_set_state st o r s' :
      ok 4%nat o -> setSystemState st o (sm c) = (r, s') ->
      sm_step ok c None (mkServer s' (waiting c) (lost c))
  | step_clear_state st o r s' :
      ok 4%nat o -> clearSystemState st o (sm c) = (r, s') ->
      sm_step ok c None (mkServer s' (waiting c) (lost c))
  | step_unique32 n s' : getUnique32 (sm c) = (Ret n, s') ->
      sm_step ok c None (mkServer s' (waiting c) (lost c))
  | step_unique64 n s' : getUnique64 (sm c) = (Ret n, s') ->
      sm_step ok c None (mkServer s' (waiting c) (lost c)).

(** Runs, with the transaction ids issued, oldest first. *)
Inductive sm_run (ok : nat -> write_outcome -> Prop) (c : server) : list Z -> server -> Prop :=
  | run_nil : sm_run ok c [] c
  | run_step ids c1 o c2 : sm_run ok c ids c1 -> sm_step ok c1 o c2 ->
      sm_run ok c (ids ++ option_list o) c2.

(** Whatever the file system does; and a file system that works. *)
Definition any_write (n : nat) (o : write_outcome) : Prop := True.
Definition full_write (n : nat) (o : write_outcome) : Prop := o = Wrote n.

(** ** What opening a transaction does *)

Definition overflows (isDDL : bool) (s : SessionManager) : Prop :=
  2 ^ 31 <= _verID s + 1 \/ (isDDL = true /\ 2 ^ 31 <= _sysCatVerID s + 1).

(** The state with the transaction open, before the file is written. *)
Definition opened (session : Z) (isDDL : bool) (s : SessionManager) : SessionManager :=
  set_versions (_verID s + 1) (if isDDL then _sysCatVerID s + 1 else _sysCatVerID s)
    (set_txns (<[session := _verID s + 1]> (activeTxns s)) (semValue s - 1) s).

Definition versions_bytes (s : SessionManager) : list Z :=
  le_bytes 4 (_verID s) ++ le_bytes 4 (_sysCatVerID s).

Inductive new_outcome (session : Z) (block isDDL : bool) (o : write_outcome) (s : SessionManager) :
    res TxnID * SessionManager -> Prop :=
  | new_has id : activeTxns s !! session = Some id ->
      new_outcome session block isDDL o s (Ret (mkTxn id true), s)
  | new_full : activeTxns s !! session = None -> semValue s = 0 ->
      new_outcome session block isDDL o s
        (if block then Throw WouldBlock else Ret TxnID_default, s)
  | new_overflow r : activeTxns s !! session = None -> 0 < semValue s -> overflows isDDL s ->
      r.1 = UB SignedOverflow -> new_outcome session block isDDL o s r
  | new_opened : activeTxns s !! session = None -> 0 < semValue s -> ~ overflows isDDL s ->
      new_outcome session block isDDL o s
        (match o with
         | WriteError => (Throw RuntimeError, opened session isDDL s)
         | Wrote n =>
             let s' := opened session isDDL s in
             (Ret (mkTxn (_verID s') true),
              set_file (file_write (txnidFile s) 0 (take n (versions_bytes s'))) s')
         end).

(** The slot is taken and the file written. *)
Definition taken (session : Z) (isDDL : bool) (o : write_outcome) (s : SessionManager) :
    res TxnID * SessionManager :=
  match o with
  | WriteError => (Throw RuntimeError, opened session isDDL s)
  | Wrote n =>
      let s' := opened session isDDL s in
      (Ret (mkTxn (_verID s') true),
       set_file (file_write (txnidFile s) 0 (take n (versions_bytes s'))) s')
  end.

Lemma take_slot_spec session isDDL o s : sm_wf s -> 0 < semValue s ->
  overflows isDDL s /\ fst (take_slot session isDDL o s) = UB SignedOverflow \/
  ~ overflows isDDL s /\ take_slot session isDDL o s = taken session isDDL o s.
Proof.
  intros [Hmax Hsem Hpos Hold Hinj] H0. unfold take_slot. do 4 erewrite bind_Ret by reflexivity.
  cbn [maxTxns set_txns]. unfold erydbassert. rewrite bool_decide_eq_true_2 by (rewrite u32_id; lia).
  do 2 erewrite bind_Ret by reflexivity. cbn [_verID set_txns]. unfold next_int.
  destruct (decide (_verID s + 1 < 2 ^ 31)) as [Hv|Hv]; [|left; split; [left; lia|reflexivity]].
  do 2 erewrite bind_Ret by reflexivity. cbn [_sysCatVerID set_txns].
  assert (Hcase : isDDL = true /\ 2 ^ 31 <= _sysCatVerID s + 1 \/ ~ overflows isDDL s).
  { unfold overflows. destruct isDDL; [|right; lia].
    destruct (decide (2 ^ 31 <= _sysCatVerID s + 1)); [by left|right; lia]. }
  destruct Hcase as [[-> Hc]|Hno].
  { left. rewrite decide_False by lia. split; [by right|reflexivity]. }
  right. split; [done|].
  assert (Hc : (if isDDL
      then if decide (_sysCatVerID s + 1 < 2 ^ 31) then mret (_sysCatVerID s + 1)
           else undefined SignedOverflow
      else mret (_sysCatVerID s)) (set_txns (activeTxns s) (semValue s - 1) s)
      = (Ret (if isDDL then _sysCatVerID s + 1 else _sysCatVerID s),
         set_txns (activeTxns s) (semValue s - 1) s)).
  { destruct isDDL; [|done]. rewrite decide_True; [done|]. unfold overflows in Hno. lia. }
  erewrite bind_Ret by exact Hc. erewrite bind_Ret by reflexivity. by destruct o.
Qed.

Lemma newTxnID_spec session block isDDL o s : sm_wf s ->
  new_outcome session block isDDL o s (newTxnID session block isDDL o s).
Proof.
  intros Hwf. unfold newTxnID. erewrite bind_Ret by reflexivity.
  destruct (activeTxns s !! session) as [id|] eqn:Ea; [by constructor|].
  erewrite bind_Ret by reflexivity. pose proof (sm_sem_pos s Hwf).
  destruct (decide (semValue s = 0)) as [E0|E0].
  { pose proof (new_full session block isDDL o s Ea E0) as H'. by destruct block. }
  assert (H0 : 0 < semValue s) by lia.
  destruct (take_slot_spec session isDDL o s Hwf H0) as [[Ho Hr]|[Ho ->]].
  - by apply new_overflow.
  - by apply new_opened.
Qed.

Lemma newTxnID_woken_spec session isDDL o s : sm_wf s ->
  semValue s = 0 /\ newTxnID_woken session isDDL o s = (Throw WouldBlock, s) \/
  0 < semValue s /\ overflows isDDL s /\ fst (newTxnID_woken session isDDL o s) = UB SignedOverflow \/
  0 < semValue s /\ ~ overflows isDDL s /\ newTxnID_woken session isDDL o s = taken session isDDL o s.
Proof.
  intros Hwf. pose proof (sm_sem_pos s Hwf). unfold newTxnID_woken. erewrite bind_Ret by reflexivity.
  destruct (decide (semValue s = 0)) as [E0|E0]; [by left|right].
  assert (H0 : 0 < semValue s) by lia.
  destruct (take_slot_spec session isDDL o s Hwf H0) as [?|?]; [by left|by right].
Qed.

(** The session may have a transaction already: then it is overwritten. *)
Lemma opened_wf session isDDL s : sm_wf s -> 0 < semValue s -> sm_wf (opened session isDDL s).
Proof.
  intros [Hmax Hsem Hpos Hold Hinj] H0.
  split; cbn [opened set_versions set_txns maxTxns semValue activeTxns _verID]; [done| |lia| |].
  - rewrite map_size_insert. destruct (activeTxns s !! session); unfold id; lia.
  - intros sid id [[-> <-]|[_ H]]%lookup_insert_Some; [lia|]. specialize (Hold _ _ H). lia.
  - intros sid sid' id [[-> <-]|[Hn H]]%lookup_insert_Some [[-> Hid]|[Hn' H']]%lookup_insert_Some;
      [done| | |by eapply Hinj].
    + specialize (Hold _ _ H'). lia.
    + specialize (Hold _ _ H). lia.
Qed.

(** ** What finishing a transaction does *)

Lemma erase_all_delete (a : gmap Z Z) sid id :
  a !! sid = Some id -> (forall sid', a !! sid' = Some id -> sid' = sid) ->
  erase_all (fun x => bool_decide (x = id)) a = delete sid a.
Proof.
  intros Ha Hu. apply map_eq. intros k. unfold erase_all.
  destruct (decide (k = sid)) as [->|Hk].
  - rewrite lookup_delete_eq, (map_lookup_filter_None _ a). right.
    intros x Hx. rewrite Ha in Hx. injection Hx as <-. cbn. rewrite bool_decide_eq_true_2 by done. by intros [].
  - rewrite lookup_delete_ne by done.
    destruct (a !! k) as [x|] eqn:E.
    + apply map_lookup_filter_Some. split; [done|]. cbn. rewrite bool_decide_eq_false_2; [done|].
      intros ->. by apply Hk, Hu.
    + apply map_lookup_filter_None. by left.
Qed.

Lemma finishTransaction_spec txn s : sm_wf s ->
  (txn_valid txn = true /\ exists sid, activeTxns s !! sid = Some (txn_id txn) /\
     finishTransaction txn s =
       (Ret (mkTxn (txn_id txn) false), set_txns (delete sid (activeTxns s)) (semValue s + 1) s)) \/
  ((txn_valid txn = false \/ forall sid, activeTxns s !! sid <> Some (txn_id txn)) /\
     finishTransaction txn s = (Throw InvalidArgument, s)).
Proof.
  intros [Hmax Hsem Hpos Hold Hinj]. destruct txn as [id v]. unfold finishTransaction.
  cbn [txn_id txn_valid]. destruct v; [|right; split; [by left|done]]. cbn [negb].
  do 3 erewrite bind_Ret by reflexivity.
  destruct (first_in _ _) as [[sid id']|] eqn:E.
  - apply first_in_Some in E as [Ha Hid%bool_decide_eq_true]. subst id'. left.
    split; [done|]. exists sid. split; [done|].
    assert (Hsz : (base.size (activeTxns s) <> 0)%nat).
    { rewrite map_size_non_empty_iff. intros Hn. by rewrite Hn in Ha. }
    rewrite (erase_all_delete _ sid) by naive_solver. rewrite (u32_id (_ + 1)) by lia.
    erewrite bind_Ret by reflexivity. unfold erydbassert.
    rewrite bool_decide_eq_true_2 by (rewrite u32_id; lia). reflexivity.
  - right. split; [right|done]. intros sid Ha.
    apply (proj1 (first_in_None _ _) E) in Ha. by rewrite bool_decide_eq_true_2 in Ha.
Qed.

Lemma closed_wf sid id s : sm_wf s -> activeTxns s !! sid = Some id ->
  sm_wf (set_txns (delete sid (activeTxns s)) (semValue s + 1) s).
Proof.
  intros [Hmax Hsem Hpos Hold Hinj] Ha.
  assert (Hsz : (base.size (activeTxns s) <> 0)%nat).
  { rewrite map_size_non_empty_iff. intros Hn. by rewrite Hn in Ha. }
  split; cbn [set_txns maxTxns semValue activeTxns _verID]; [done| |lia| |].
  - rewrite map_size_delete_Some by done. lia.
  - intros k x [_ H]%lookup_delete_Some. by eapply Hold.
  - intros k k' x [_ H]%lookup_delete_Some [_ H']%lookup_delete_Some. by eapply Hinj.
Qed.

(** ** Runs *)

(** Calls that leave transactions and versions alone. *)
Definition same_txns (s s' : SessionManager) : Prop :=
  maxTxns s' = maxTxns s /\ semValue s' = semValue s /\ activeTxns s' = activeTxns s /\
  _verID s' = _verID s.

Lemma same_txns_wf s s' : same_txns s s' -> sm_wf s -> sm_wf s'.
Proof.
  intros (Em & Es & Ea & Ev) [Hmax Hsem Hpos Hold Hinj].
  split; rewrite ?Em, ?Es, ?Ea, ?Ev; done.
Qed.

Lemma saveSystemState_same o s r s' : saveSystemState o s = (r, s') -> same_txns s s'.
Proof. destruct o; intros [= <- <-]; done. Qed.

(** What a step does to the transactions. *)
Inductive moved (c : server) : option Z -> server -> Prop :=
  | moved_same s' w : same_txns (sm c) s' -> moved c None (mkServer s' w (lost c))
  | moved_opened session isDDL s' w n : 0 < semValue (sm c) -> same_txns (opened session isDDL (sm c)) s' ->
      n = Z.b2z (bool_decide (is_Some (activeTxns (sm c) !! session))) ->
      moved c (Some (_verID (sm c) + 1)) (mkServer s' w (lost c + n))
  | moved_closed sid id w : activeTxns (sm c) !! sid = Some id ->
      moved c None (mkServer (set_txns (delete sid (activeTxns (sm c))) (semValue (sm c) + 1) (sm c)) w (lost c))
  | moved_reset w : moved c None (mkServer (set_txns ∅ (u32 (maxTxns (sm c))) (sm c)) w 0).

Lemma taken_same session isDDL o s r s' : taken session isDDL o s = (r, s') ->
  same_txns (opened session isDDL s) s' /\ issued s s' = Some (_verID s + 1) /\
  loses session s s' = Z.b2z (bool_decide (is_Some (activeTxns s !! session))).
Proof.
  assert (H : forall x, issued s (set_file x (opened session isDDL s)) = Some (_verID s + 1)).
  { intros x. unfold issued. cbn [set_file opened set_versions _verID]. by rewrite decide_False by lia. }
  assert (H' : issued s (opened session isDDL s) = Some (_verID s + 1)) by apply (H (txnidFile s)).
  destruct o; intros [= <- <-]; unfold loses; rewrite ?H, ?H'; done.
Qed.
Lemma issued_same s : issued s s = None.
Proof. unfold issued. by rewrite decide_True. Qed.

Lemma new_moved c session block isDDL o r s' : sm_wf (sm c) ->
  newTxnID session block isDDL o (sm c) = (r, s') -> (forall u, r <> UB u) ->
  moved c (issued (sm c) s') (mkServer s' (waiting c) (lost c)).
Proof.
  intros Hwf H Hub. pose proof (newTxnID_spec session block isDDL o (sm c) Hwf) as Hn. rewrite H in Hn.
  inversion Hn as [id Ha|Ha Hs|r' Ha Hs Ho Hr|Ha Hs Ho Hr]; subst; try (rewrite issued_same; by apply moved_same).
  { by destruct (Hub SignedOverflow). }
  change (taken session isDDL o (sm c) = (r, s')) in Hr.
  destruct (taken_same _ _ _ _ _ _ Hr) as (Hsame & -> & _). rewrite <- (Z.add_0_r (lost c)).
  eapply moved_opened; [done|exact Hsame|]. by rewrite Ha.
Qed.
Lemma woken_moved c session isDDL o r s' w : sm_wf (sm c) ->
  newTxnID_woken session isDDL o (sm c) = (r, s') -> (forall u, r <> UB u) -> r <> Throw WouldBlock ->
  moved c (issued (sm c) s') (mkServer s' w (lost c + loses session (sm c) s')).
Proof.
  intros Hwf H Hub Hr. destruct (newTxnID_woken_spec session isDDL o (sm c) Hwf) as [[_ E]|[(_ & _ & E)|(H0 & _ & E)]];
    rewrite H in E.
  - by injection E as -> ->.
  - by destruct (Hub SignedOverflow).
  - symmetry in E. destruct (taken_same _ _ _ _ _ _ E) as (Hsame & -> & ->). by eapply moved_opened.
Qed.

Lemma sm_step_moved ok c o c' : sm_step ok c o c' -> sm_wf (sm c) -> moved c o c'.
Proof.
  intros Hst Hwf. destruct Hst as [session block isDDL o r s' _ H Hub _|session isDDL o s' _ H|i session isDDL o s' _ _ H
    |i session isDDL o r s' _ _ H Hub Hr|txn r s' H|s' H|st o r s' _ H|st o r s' _ H|n s' H|n s' H].
  - by eapply new_moved.
  - pose proof (newTxnID_spec session true isDDL o (sm c) Hwf) as Hn. rewrite H in Hn.
    inversion Hn as [|Ha Hs E|r' Ha Hs Ho Hr|Ha Hs Ho Hr]; subst; [by apply moved_same|done|by destruct o].
  - destruct (newTxnID_woken_spec session isDDL o (sm c) Hwf) as [[_ E]|[(_ & _ & E)|(_ & _ & E)]];
      rewrite H in E; [|done|by destruct o]. injection E as ->. by apply moved_same.
  - by eapply woken_moved.
  - destruct (finishTransaction_spec txn (sm c) Hwf) as [(_ & sid & Ha & E)|(_ & E)];
      rewrite E in H; injection H as <- <-; [by eapply moved_closed|by apply moved_same].
  - injection H as <-. apply moved_reset.
  - unfold setSystemState in H. erewrite bind_Ret in H by reflexivity.
    apply moved_same. by apply saveSystemState_same in H.
  - unfold clearSystemState in H. erewrite bind_Ret in H by reflexivity.
    apply moved_same. by apply saveSystemState_same in H.
  - injection H as <- <-. by apply moved_same.
  - injection H as <- <-. by apply moved_same.
Qed.

Lemma reset_wf s : sm_wf s -> sm_wf (set_txns ∅ (u32 (maxTxns s)) s).
Proof.
  intros [Hmax _ _ _ _]. split; cbn [set_txns maxTxns semValue activeTxns _verID]; [done| | | |].
  - rewrite map_size_empty, u32_id; lia.
  - rewrite u32_id; lia.
  - intros sid id Hk. by rewrite lookup_empty in Hk.
  - intros sid sid' id Hk. by rewrite lookup_empty in Hk.
Qed.

Lemma sm_step_wf ok c o c' : sm_step ok c o c' -> sm_wf (sm c) ->
  sm_wf (sm c') /\ _verID (sm c) <= _verID (sm c') /\ maxTxns (sm c') = maxTxns (sm c) /\
  match o with Some id => _verID (sm c) < id /\ id = _verID (sm c') | None => _verID (sm c') = _verID (sm c) end.
Proof.
  intros Hst Hwf. destruct (sm_step_moved _ _ _ _ Hst Hwf) as [s' w H|session isDDL s' w n H0 H _|sid id w Ha|w];
    cbn [sm].
  - split; [by eapply same_txns_wf|]. destruct H as (? & ? & ? & ->). naive_solver lia.
  - split; [eapply same_txns_wf; [exact H|by apply opened_wf]|]. destruct H as (-> & _ & _ & ->). cbn. lia.
  - split; [by eapply closed_wf|]. cbn. lia.
  - split; [by apply reset_wf|]. cbn. lia.
Qed.

(** The open transactions, the free slots and the lost ones. *)
Definition slots (c : server) : Z := getTxnCount (sm c) + semValue (sm c) + lost c.
Lemma sm_step_slots ok c o c' : sm_step ok c o c' -> sm_wf (sm c) ->
  slots c = maxTxns (sm c) /\ 0 <= lost c -> slots c' = maxTxns (sm c') /\ 0 <= lost c'.
Proof.
  intros Hst Hwf. unfold slots, getTxnCount.
  destruct (sm_step_moved _ _ _ _ Hst Hwf) as [s' w H|session isDDL s' w n H0 H ->|sid id w Ha|w]; cbn [sm lost].
  - destruct H as (-> & -> & -> & _). done.
  - destruct H as (-> & -> & -> & _). cbn [opened set_versions set_txns semValue activeTxns maxTxns].
    rewrite map_size_insert. destruct (activeTxns (sm c) !! session) as [x|].
    + rewrite bool_decide_eq_true_2 by done. cbn [Z.b2z]. unfold id. lia.
    + rewrite bool_decide_eq_false_2 by (by intros []). cbn [Z.b2z]. lia.
  - cbn [set_txns semValue activeTxns maxTxns]. rewrite map_size_delete_Some by done.
    assert (Hsz : (base.size (activeTxns (sm c)) <> 0)%nat).
    { rewrite map_size_non_empty_iff. intros Hn. by rewrite Hn in Ha. }
    lia.
  - cbn [set_txns semValue activeTxns maxTxns]. pose proof (sm_max _ Hwf). rewrite map_size_empty, u32_id; lia.
Qed.

Lemma StronglySorted_join (l l' : list Z) m :
  StronglySorted Z.lt l -> StronglySorted Z.lt l' ->
  Forall (fun x => x <= m) l -> Forall (fun x => m < x) l' -> StronglySorted Z.lt (l ++ l').
Proof.
  intros Hl Hl' Hm Hm'. induction Hl as [|x l Hl IH Hx]; [done|].
  apply Forall_cons in Hm as [Hxm Hm]. cbn [app]. constructor; [auto|].
  apply Forall_app. split; [done|]. eapply Forall_impl; [exact Hm'|]. intros y Hy. cbn in *. lia.
Qed.

Lemma sm_run_wf ok c ids c' : sm_run ok c ids c' -> sm_wf (sm c) ->
  sm_wf (sm c') /\ maxTxns (sm c') = maxTxns (sm c) /\ _verID (sm c) <= _verID (sm c') /\
  StronglySorted Z.lt ids /\ Forall (fun id => _verID (sm c) < id <= _verID (sm c')) ids.
Proof.
  intros Hrun Hwf. induction Hrun as [|ids c1 o c2 Hrun (IHw & IHm & IHv & IHs & IHf) Hst].
  - split; [done|]. split; [done|]. split; [lia|]. repeat constructor.
  - destruct (sm_step_wf _ _ _ _ Hst IHw) as (Hw & Hv & Hm & Ho).
    split; [done|]. split; [congruence|]. split; [lia|].
    assert (Hf : Forall (fun id => _verID (sm c) < id <= _verID (sm c2)) ids)
      by (eapply Forall_impl; [exact IHf|]; intros x ?; cbn in *; lia).
    destruct o as [id|]; cbn [option_list]; [|by rewrite app_nil_r].
    destruct Ho as [Ho ->]. split.
    + apply (StronglySorted_join _ _ (_verID (sm c1))); [done|repeat constructor| |repeat constructor; lia].
      eapply Forall_impl; [exact IHf|]. intros x ?; cbn in *; lia.
    + apply Forall_app. split; [done|]. repeat constructor; lia.
Qed.
Lemma sm_run_slots ok c ids c' : sm_run ok c ids c' -> sm_wf (sm c) ->
  slots c = maxTxns (sm c) /\ 0 <= lost c -> slots c' = maxTxns (sm c') /\ 0 <= lost c'.
Proof.
  intros Hrun Hwf H. induction Hrun as [|ids c1 o c2 Hrun IH Hst]; [done|].
  eapply sm_step_slots; [exact Hst| |exact IH]. by destruct (sm_run_wf _ _ _ _ Hrun Hwf) as (? & _).
Qed.

(** ** The file *)

Definition int_range (x : Z) : Prop := - 2 ^ 31 <= x < 2 ^ 31.

(** The file of a new server, or one that starts with the current versions. *)
Definition synced (s : SessionManager) : Prop :=
  int_range (_verID s) /\ int_range (_sysCatVerID s) /\
  (txnidFile s = [] /\ _verID s = 0 /\ _sysCatVerID s = 0 \/
   exists rest, txnidFile s = versions_bytes s ++ rest).

Lemma length_versions_bytes s : length (versions_bytes s) = 8%nat.
Proof. unfold versions_bytes. by rewrite length_app, !length_le_bytes. Qed.

Lemma read_word_at pre w rest :
  read_word (pre ++ le_bytes 4 w ++ rest) (length pre) = Some (u32 w).
Proof. unfold read_word. by rewrite drop_app_length, get_u32_le. Qed.

Lemma file_write_start f data : file_write f 0 data = data ++ drop (length data) f.
Proof. unfold file_write. by rewrite Nat.sub_0_l, app_nil_r, take_0. Qed.

Lemma file_write_after pre f data :
  file_write (pre ++ f) (length pre) data = pre ++ data ++ drop (length data) f.
Proof.
  unfold file_write. rewrite length_app.
  replace (length pre - (length pre + length f))%nat with 0%nat by lia.
  rewrite app_nil_r, take_app_length. do 2 f_equal. apply drop_app_add.
Qed.

(** A save of the flags leaves the versions in the file. *)
Lemma saveSystemState_synced s r s' : synced s ->
  saveSystemState (Wrote 4) s = (r, s') -> synced s'.
Proof.
  intros (Hv & Hc & Hf) H.
  assert (E : s' = set_file (file_write (txnidFile s) 8 (le_bytes 4 (Z.ldiff (systemState s) not_saved))) s)
    by (unfold saveSystemState in H; erewrite bind_Ret in H by reflexivity; unfold write_at, modify in H;
        rewrite firstn_all2 in H by (rewrite length_le_bytes; lia); congruence).
  rewrite E. split; [done|]. split; [done|]. right. cbn [txnidFile set_file].
  change (versions_bytes (set_file _ s)) with (versions_bytes s).
  destruct Hf as [(-> & Ev & Ec)|[rest ->]].
  - eexists. unfold versions_bytes. rewrite Ev, Ec. unfold file_write. cbn [length app].
    rewrite firstn_all2 by (rewrite length_replicate; lia). reflexivity.
  - rewrite <- (length_versions_bytes s), file_write_after. by eexists.
Qed.

Lemma opened_synced session isDDL s : synced s -> ~ overflows isDDL s ->
  let s' := opened session isDDL s in
  synced (set_file (file_write (txnidFile s) 0 (take 8 (versions_bytes s'))) s').
Proof.
  intros ([Hv _] & [Hc Hc'] & _) Hno. unfold overflows in Hno. cbv zeta.
  rewrite firstn_all2 by (rewrite length_versions_bytes; lia).
  rewrite file_write_start. unfold synced, int_range.
  cbn [_verID _sysCatVerID txnidFile set_file opened set_versions].
  split; [lia|]. split; [destruct isDDL; lia|]. right. by eexists.
Qed.

Lemma taken_synced session isDDL s r s' : taken session isDDL (Wrote 8) s = (r, s') -> synced s ->
  ~ overflows isDDL s -> synced s'.
Proof. intros [= <- <-] Hs Ho. by apply opened_synced. Qed.

Lemma sm_step_synced c o c' : sm_step full_write c o c' -> sm_wf (sm c) -> synced (sm c) -> synced (sm c').
Proof.
  intros Hst Hwf Hsy.
  assert (Hset : forall st r s', saveSystemState (Wrote 4) (set_systemState st (sm c)) = (r, s') -> synced s').
  { intros st r s' H. eapply saveSystemState_synced; [|exact H]. exact Hsy. }
  assert (Hnew : forall session block isDDL r s', newTxnID session block isDDL (Wrote 8) (sm c) = (r, s') ->
    (forall u, r <> UB u) -> synced s').
  { intros session block isDDL r s' H Hub.
    pose proof (newTxnID_spec session block isDDL (Wrote 8) (sm c) Hwf) as Hn. rewrite H in Hn.
    inversion Hn as [id Ha|Ha Hs|r' Ha Hs Ho Hr|Ha Hs Ho]; subst; try done.
    - by destruct (Hub SignedOverflow).
    - by apply opened_synced. }
  assert (Hwok : forall session isDDL r s', newTxnID_woken session isDDL (Wrote 8) (sm c) = (r, s') ->
    (forall u, r <> UB u) -> synced s').
  { intros session isDDL r s' H Hub.
    destruct (newTxnID_woken_spec session isDDL (Wrote 8) (sm c) Hwf) as [[_ E]|[(_ & _ & E)|(H0 & Ho & E)]];
      rewrite H in E.
    - by injection E as -> ->.
    - by destruct (Hub SignedOverflow).
    - symmetry in E. by eapply taken_synced. }
  destruct Hst as [session block isDDL o r s' -> H Hub _|session isDDL o s' -> H|i session isDDL o s' _ -> H
    |i session isDDL o r s' _ -> H Hub Hr|txn r s' H|s' H|st o r s' -> H|st o r s' -> H|n s' H|n s' H]; cbn [sm].
  - by eapply Hnew.
  - by eapply Hnew.
  - by eapply Hwok.
  - by eapply Hwok.
  - destruct (finishTransaction_spec txn (sm c) Hwf) as [(_ & sid & Ha & E)|(_ & E)];
      rewrite E in H; injection H as <- <-; exact Hsy.
  - injection H as <-. exact Hsy.
  - unfold setSystemState in H. erewrite bind_Ret in H by reflexivity. by eapply Hset.
  - unfold clearSystemState in H. erewrite bind_Ret in H by reflexivity. by eapply Hset.
  - injection H as <- <-. exact Hsy.
  - injection H as <- <-. exact Hsy.
Qed.

Lemma sm_run_synced c ids c' : sm_run full_write c ids c' -> sm_wf (sm c) -> synced (sm c) -> synced (sm c').
Proof.
  intros Hrun Hwf Hsy. induction Hrun as [|ids s1 o s2 Hrun IH Hst]; [done|].
  eapply sm_step_synced; [exact Hst| |exact IH].
  by destruct (sm_run_wf _ _ _ _ Hrun Hwf) as (? & _).
Qed.

Lemma s32_int_range x : int_range x -> s32 (u32 x) = x.
Proof. intros H. rewrite s32_u32. apply s32_id. unfold int_range in H. lia. Qed.

Lemma read_versions s rest :
  read_word (versions_bytes s ++ rest) 0 = Some (u32 (_verID s)) /\
  read_word (versions_bytes s ++ rest) 4 = Some (u32 (_sysCatVerID s)).
Proof.
  unfold versions_bytes. rewrite <- app_assoc. split.
  - apply (read_word_at [] (_verID s)).
  - exact (read_word_at (le_bytes 4 (_verID s)) (_sysCatVerID s) rest).
Qed.

(** A restart reads the versions back; no transaction is open. *)
Lemma restart_versions cfg s : synced s ->
  let s' := SessionManagerServer cfg (txnidFile s) true true true in
  _verID s' = _verID s /\ _sysCatVerID s' = _sysCatVerID s /\ activeTxns s' = ∅.
Proof.
  intros (Hv & Hc & [(Hf & Ev & Ec)|[rest Hf]]); unfold SessionManagerServer, loadState;
    cbn [negb]; rewrite Hf.
  - by rewrite Ev, Ec.
  - unfold mbind, prog_bind, modify.
    cbn [snd set_versions set_systemState txnidFile _verID _sysCatVerID activeTxns].
    destruct (read_versions s rest) as [-> ->].
    cbn [fmap option_fmap option_map default]. by rewrite !s32_int_range.
Qed.

Lemma server_wf cfg f r1 r2 r3 : (forall n, cfg = Some n -> n < 2 ^ 31) ->
  sm_wf (SessionManagerServer cfg f r1 r2 r3).
Proof.
  intros Hcfg.
  set (max := match cfg with Some tmp => if decide (tmp < 1) then 1 else s32 tmp | None => 1 end).
  assert (Hmax : 1 <= max < 2 ^ 31).
  { subst max. destruct cfg as [n|]; [|lia]. specialize (Hcfg n eq_refl).
    destruct (decide (n < 1)); [lia|]. rewrite s32_id; lia. }
  assert (Hs : same_txns (mkSM 0 0 max (_verID (SessionManagerServer cfg f r1 r2 r3)) 0 0 ∅ (u32 max) f)
                 (SessionManagerServer cfg f r1 r2 r3)) by (by destruct r1, r2, r3).
  eapply same_txns_wf; [exact Hs|].
  split; cbn [maxTxns semValue activeTxns]; [done| | | |].
  - rewrite map_size_empty, u32_id; lia.
  - rewrite u32_id; lia.
  - intros sid id H. by rewrite lookup_empty in H.
  - intros sid sid' id H. by rewrite lookup_empty in H.
Qed.

Lemma restart_synced cfg s : synced s ->
  synced (SessionManagerServer cfg (txnidFile s) true true true).
Proof.
  intros Hsy. destruct (restart_versions cfg s Hsy) as (Ev & Ec & _).
  destruct Hsy as (Hv & Hc & Hf). unfold synced, versions_bytes. rewrite Ev, Ec.
  split; [done|]. split; [done|]. exact Hf.
Qed.

(** An open transaction was open before the call, or the call issued its id. *)
Lemma sm_step_active ok c o c' sid id : sm_step ok c o c' -> sm_wf (sm c) ->
  activeTxns (sm c') !! sid = Some id -> activeTxns (sm c) !! sid = Some id \/ o = Some id.
Proof.
  intros Hst Hwf. destruct (sm_step_moved _ _ _ _ Hst Hwf) as [s' w H|session isDDL s' w n H0 H _|sid' id' w Ha|w];
    cbn [sm].
  - destruct H as (_ & _ & -> & _). by left.
  - destruct H as (_ & _ & -> & _). cbn. intros [[_ <-]|[_ Ha]]%lookup_insert_Some; auto.
  - cbn. intros [_ H]%lookup_delete_Some. by left.
  - cbn. by rewrite lookup_empty.
Qed.

Lemma sm_run_active ok c ids c' sid id : sm_run ok c ids c' -> sm_wf (sm c) ->
  activeTxns (sm c') !! sid = Some id -> activeTxns (sm c) !! sid = Some id \/ id ∈ ids.
Proof.
  intros Hrun Hwf. induction Hrun as [|ids c1 o c2 Hrun IH Hst]; [by left|]. intros Ha.
  destruct (sm_run_wf _ _ _ _ Hrun Hwf) as (Hw & _).
  destruct (sm_step_active _ _ _ _ _ _ Hst Hw Ha) as [H| ->].
  - destruct (IH H) as [?|?]; [by left|right; set_solver].
  - right. set_solver.
Qed.

(** ** Properties *)

(** A request that waits gets a transaction once any other one finishes, if no other
    request takes the slot first. *)
Theorem sm_wait_ends s session isDDL sid id : sm_wf s -> semValue s = 0 ->
  activeTxns s !! session = None -> activeTxns s !! sid = Some id -> ~ overflows isDDL s ->
  newTxnID session true isDDL (Wrote 8) s = (Throw WouldBlock, s) /\
  exists s1 s2, finishTransaction (mkTxn id true) s = (Ret (mkTxn id false), s1) /\
    newTxnID_woken session isDDL (Wrote 8) s1 = (Ret (mkTxn (_verID s + 1) true), s2) /\
    activeTxns s2 = <[session := _verID s + 1]> (delete sid (activeTxns s)).
Proof.
  intros Hwf H0 Ha Hsid Hno. split.
  { pose proof (newTxnID_spec session true isDDL (Wrote 8) s Hwf) as Hn.
    inversion Hn; try done; congruence || lia. }
  destruct (finishTransaction_spec (mkTxn id true) s Hwf) as [(_ & sid' & Ha' & E)|([?|Hn] & _)];
    [|done|by destruct (Hn sid)].
  assert (sid' = sid) as -> by (by eapply (sm_inj s Hwf)).
  eexists _, _. split; [exact E|].
  pose proof (closed_wf _ _ _ Hwf Hsid) as Hwf1.
  destruct (newTxnID_woken_spec session isDDL (Wrote 8) _ Hwf1) as [[Hs _]|[(_ & Ho & _)|(_ & _ & ->)]];
    [cbn in Hs; lia|done|done].
Qed.

(** C31: Whatever requests the session manager has served since it started,
    requests that waited for a slot and were woken included: the open transactions, the
    free slots and the slots that were lost since the last reset add up to the configured
    maximum, where a slot is lost when a request that waited is given one although its
    session has got a transaction meanwhile; the transaction numbers given out grow
    strictly; and a number belongs to at most one session, to which it was given since
    the start. *)
Theorem sm_transactions cfg f r1 r2 r3 ids c : (forall n, cfg = Some n -> n < 2 ^ 31) ->
  let s0 := SessionManagerServer cfg f r1 r2 r3 in
  sm_run any_write (mkServer s0 [] 0) ids c ->
  getTxnCount (sm c) + semValue (sm c) + lost c = maxTxns s0 /\ 0 <= semValue (sm c) /\ 0 <= lost c /\
  StronglySorted Z.lt ids /\
  (forall sid id, activeTxns (sm c) !! sid = Some id -> id ∈ ids /\
     forall sid', activeTxns (sm c) !! sid' = Some id -> sid' = sid).
Proof.
  intros Hcfg s0 Hrun. pose proof (server_wf cfg f r1 r2 r3 Hcfg : sm_wf s0) as Hwf.
  assert (E : activeTxns s0 = ∅) by (by subst s0; destruct r1, r2, r3).
  assert (Es : semValue s0 = u32 (maxTxns s0)) by (by subst s0; destruct r1, r2, r3).
  destruct (sm_run_wf _ _ _ _ Hrun Hwf) as ([Hmax _ Hpos Hold Hinj] & Hm & _ & Hs & _). cbn [sm] in Hm.
  destruct (sm_run_slots _ _ _ _ Hrun Hwf) as [Hslots Hlost].
  { unfold slots, getTxnCount. cbn [sm lost]. rewrite E, map_size_empty, Es, u32_id; lia. }
  split; [unfold slots in Hslots; lia|]. do 3 (split; [done|]). intros sid id Ha. split.
  - destruct (sm_run_active _ _ _ _ _ _ Hrun Hwf Ha) as [H|H]; [|done]. exfalso.
    cbn [sm] in H. by rewrite E, lookup_empty in H.
  - intros sid' Ha'. by eapply Hinj.
Qed.

(** C39: If every write to the file of the session manager was complete and a restarted
    server can read it, the numbers given out before the restart and after it grow
    strictly together, so that none is used twice, and the server is again in step with
    its file. *)
Theorem sm_restart_fresh c0 ids c cfg ids' c' : sm_wf (sm c0) -> synced (sm c0) ->
  (forall n, cfg = Some n -> n < 2 ^ 31) ->
  let s1 := SessionManagerServer cfg (txnidFile (sm c)) true true true in
  sm_run full_write c0 ids c -> sm_run any_write (mkServer s1 [] 0) ids' c' ->
  StronglySorted Z.lt (ids ++ ids') /\ sm_wf s1 /\ synced s1.
Proof.
  intros Hwf Hsy Hcfg s1 Hrun Hrun'.
  pose proof (sm_run_synced _ _ _ Hrun Hwf Hsy) as Hsy1.
  destruct (restart_versions cfg (sm c) Hsy1) as (Ev & _ & _). fold s1 in Ev.
  pose proof (server_wf cfg (txnidFile (sm c)) true true true Hcfg : sm_wf s1) as Hwf1.
  destruct (sm_run_wf _ _ _ _ Hrun Hwf) as (_ & _ & _ & Hs & Hf).
  destruct (sm_run_wf _ _ _ _ Hrun' Hwf1) as (_ & _ & _ & Hs' & Hf'). cbn [sm] in Hf'.
  split; [|split; [done|by apply restart_synced]].
  apply (StronglySorted_join _ _ (_verID (sm c))); [done|done| |].
  - eapply Forall_impl; [exact Hf|]. intros x Hx. cbn in *. lia.
  - eapply Forall_impl; [exact Hf'|]. intros x Hx. cbn in *. lia.
Qed.

(** ** Small runs *)

Definition demo_sm : SessionManager := SessionManagerServer (Some 2) [] true true true.
Definition demo_open (sid : Z) (s : SessionManager) : SessionManager :=
  snd (newTxnID sid false false (Wrote 8) s).
Definition demo_finish (id : Z) (s : SessionManager) : SessionManager :=
  snd (finishTransaction (mkTxn id true) s).
Definition demo_woken (sid : Z) (s : SessionManager) : SessionManager :=
  snd (newTxnID_woken sid false (Wrote 8) s).

(** Extend a run by a call of [newTxnID] that issues [id], by the end of a
    transaction, by a request that starts to wait, and by one that is woken. *)
Lemma run_new ok c0 ids c session block o r s' id ids' : sm_run ok c0 ids c -> ok 8%nat o ->
  newTxnID session block false o (sm c) = (r, s') -> (forall u, r <> UB u) -> r <> Throw WouldBlock ->
  issued (sm c) s' = id -> ids ++ option_list id = ids' ->
  sm_run ok c0 ids' (mkServer s' (waiting c) (lost c)).
Proof. intros Hr Ho H Hub Hw <- <-. eapply run_step; [exact Hr|]. by eapply step_new. Qed.
Lemma run_finish ok c0 ids c txn r s' : sm_run ok c0 ids c -> finishTransaction txn (sm c) = (r, s') ->
  sm_run ok c0 ids (mkServer s' (waiting c) (lost c)).
Proof. intros Hr H. rewrite <- (app_nil_r ids). eapply (run_step _ _ _ _ None); [exact Hr|]. by eapply step_finish. Qed.
Lemma run_wait ok c0 ids c session o s' : sm_run ok c0 ids c -> ok 8%nat o ->
  newTxnID session true false o (sm c) = (Throw WouldBlock, s') ->
  sm_run ok c0 ids (mkServer s' (waiting c ++ [(session, false)]) (lost c)).
Proof. intros Hr Ho H. rewrite <- (app_nil_r ids). eapply (run_step _ _ _ _ None); [exact Hr|]. by eapply step_wait. Qed.
Lemma run_woken ok c0 ids c session o r s' id ids' n : sm_run ok c0 ids c -> ok 8%nat o ->
  waiting c !! 0%nat = Some (session, false) ->
  newTxnID_woken session false o (sm c) = (r, s') -> (forall u, r <> UB u) -> r <> Throw WouldBlock ->
  issued (sm c) s' = id -> ids ++ option_list id = ids' -> lost c + loses session (sm c) s' = n ->
  sm_run ok c0 ids' (mkServer s' (delete 0%nat (waiting c)) n).
Proof. intros Hr Ho Hi H Hub Hw <- <- <-. eapply run_step; [exact Hr|]. by eapply step_woken. Qed.

(** Two sessions open transactions. *)
Definition demo_full : SessionManager := demo_open 8 (demo_open 7 demo_sm).
Lemma demo_full_run ok : ok 8%nat (Wrote 8) -> sm_run ok (mkServer demo_sm [] 0) [1; 2] (mkServer demo_full [] 0).
Proof.
  intros Hok.
  assert (H1 : sm_run ok (mkServer demo_sm [] 0) [1] (mkServer (demo_open 7 demo_sm) [] 0)).
  { eapply (run_new _ _ [] (mkServer demo_sm [] 0) 7 false (Wrote 8) (Ret (mkTxn 1 true)) _ (Some 1));
      [constructor|done|vm_compute; reflexivity|done|done|vm_compute; reflexivity|reflexivity]. }
  eapply (run_new _ _ [1] (mkServer _ [] 0) 8 false (Wrote 8) (Ret (mkTxn 2 true)) _ (Some 2));
    [exact H1|done|vm_compute; reflexivity|done|done|vm_compute; reflexivity|reflexivity].
Qed.
(** A third finds no slot, the first commits. *)
Definition demo_sm2 : SessionManager := demo_finish 1 (demo_open 9 demo_full).
Lemma demo_sm_run ok : ok 8%nat (Wrote 8) -> sm_run ok (mkServer demo_sm [] 0) [1; 2] (mkServer demo_sm2 [] 0).
Proof.
  intros Hok. pose proof (demo_full_run ok Hok) as H2.
  assert (H3 : sm_run ok (mkServer demo_sm [] 0) [1; 2] (mkServer (demo_open 9 demo_full) [] 0)).
  { eapply (run_new _ _ [1; 2] (mkServer _ [] 0) 9 false (Wrote 8) (Ret TxnID_default) _ None);
      [exact H2|done|vm_compute; reflexivity|done|done|vm_compute; reflexivity|reflexivity]. }
  eapply (run_finish _ _ _ (mkServer _ [] 0) (mkTxn 1 true) (Ret (mkTxn 1 false)) _ H3). vm_compute. reflexivity.
Qed.

(** Two requests of a third session wait; the open transactions finish, and both
    requests are given a slot. *)
Definition demo_lost : SessionManager := demo_woken 9 (demo_woken 9 (demo_finish 2 (demo_finish 1 demo_full))).
Lemma demo_lost_run : sm_run any_write (mkServer demo_sm [] 0) [1; 2; 3; 4] (mkServer demo_lost [] 1).
Proof.
  pose proof (demo_full_run any_write I) as H.
  assert (H2 : sm_run any_write (mkServer demo_sm [] 0) [1; 2] (mkServer demo_full [(9, false); (9, false)] 0)).
  { eapply (run_wait _ _ _ (mkServer demo_full [(9, false)] 0) 9 (Wrote 8)); [|exact I|vm_compute; reflexivity].
    eapply (run_wait _ _ _ (mkServer demo_full [] 0) 9 (Wrote 8)); [exact H|exact I|vm_compute; reflexivity]. }
  assert (H3 : sm_run any_write (mkServer demo_sm [] 0) [1; 2]
    (mkServer (demo_finish 2 (demo_finish 1 demo_full)) [(9, false); (9, false)] 0)).
  { eapply (run_finish _ _ _ (mkServer (demo_finish 1 demo_full) [(9, false); (9, false)] 0) (mkTxn 2 true) (Ret (mkTxn 2 false)));
      [|vm_compute; reflexivity].
    eapply (run_finish _ _ _ (mkServer demo_full [(9, false); (9, false)] 0) (mkTxn 1 true) (Ret (mkTxn 1 false)) _ H2). vm_compute. reflexivity. }
  assert (H4 : sm_run any_write (mkServer demo_sm [] 0) [1; 2; 3]
    (mkServer (demo_woken 9 (demo_finish 2 (demo_finish 1 demo_full))) [(9, false)] 0)).
  { eapply (run_woken _ _ [1; 2] (mkServer (demo_finish 2 (demo_finish 1 demo_full)) [(9, false); (9, false)] 0) 9
      (Wrote 8) (Ret (mkTxn 3 true)) _ (Some 3) _ 0);
      [exact H3|exact I|reflexivity|vm_compute; reflexivity|done|done|vm_compute; reflexivity|reflexivity|vm_compute; reflexivity]. }
  eapply (run_woken _ _ [1; 2; 3] (mkServer (demo_woken 9 (demo_finish 2 (demo_finish 1 demo_full))) [(9, false)] 0) 9
    (Wrote 8) (Ret (mkTxn 4 true)) _ (Some 4) _ 1);
    [exact H4|exact I|reflexivity|vm_compute; reflexivity|done|done|vm_compute; reflexivity|reflexivity|vm_compute; reflexivity].
Qed.

Lemma sm_transactions_witness :
  getTxnCount demo_lost = 1 /\ semValue demo_lost = 0 /\ getTxnCount demo_lost + semValue demo_lost + 1 = 2 /\
  StronglySorted Z.lt [1; 2; 3; 4] /\
  (forall sid id, activeTxns demo_lost !! sid = Some id -> id ∈ [1; 2; 3; 4] /\
     forall sid', activeTxns demo_lost !! sid' = Some id -> sid' = sid).
Proof.
  destruct (sm_transactions (Some 2) [] true true true [1; 2; 3; 4] (mkServer demo_lost [] 1)) as (Hn & _ & _ & Hs & Ha).
  - intros n [= <-]. lia.
  - apply demo_lost_run.
  - split; [vm_compute; reflexivity|]. split; [vm_compute; reflexivity|]. split; [exact Hn|]. split; [exact Hs|exact Ha].
Defined.

(** A slot can be lost for good: two requests of one session wait, both are given a
    number, the first of which belongs to nobody; when the session has finished its
    transaction, no transaction is open and one slot of two is free. *)
Theorem sm_slot_lost :
  sm_run any_write (mkServer demo_sm [] 0) [1; 2; 3; 4] (mkServer demo_lost [] 1) /\
  activeTxns demo_lost = {[9 := 4]} /\
  finishTransaction (mkTxn 3 true) demo_lost = (Throw InvalidArgument, demo_lost) /\
  let s := demo_finish 4 demo_lost in activeTxns s = ∅ /\ semValue s = 1 /\ maxTxns s = 2.
Proof.
  split; [exact demo_lost_run|]. split; [vm_compute; reflexivity|]. split; [vm_compute; reflexivity|].
  vm_compute. done.
Qed.

Lemma sm_restart_fresh_witness :
  let s1 := SessionManagerServer None (txnidFile demo_sm2) true true true in
  newTxnID 7 true false WriteError s1 = (Throw RuntimeError, opened 7 false s1) /\
  StronglySorted Z.lt [1; 2; 3] /\ synced s1.
Proof.
  cbv zeta. split; [vm_compute; reflexivity|].
  destruct (sm_restart_fresh (mkServer demo_sm [] 0) [1; 2] (mkServer demo_sm2 [] 0) None [3]
    (mkServer (opened 7 false (SessionManagerServer None (txnidFile demo_sm2) true true true)) [] 0))
    as (H & _ & Hs); [| | | | |by split].
  - apply server_wf. intros n [= <-]. lia.
  - split; [vm_compute; split; congruence|]. split; [vm_compute; split; congruence|].
    left. vm_compute. done.
  - done.
  - apply demo_sm_run. reflexivity.
  - eapply (run_new _ _ [] (mkServer _ [] 0) 7 true WriteError (Throw RuntimeError) _ (Some 3));
      [constructor|exact I|vm_compute; reflexivity|done|done|vm_compute; reflexivity|reflexivity].
Defined.
