(* ===== verification/OidServer.v ===== *)
(** * The object id server: src/versioning/BRM/oidserver.{h,cpp}

    The controller's counter of object ids.  The next id is kept in the first
    four bytes of a file, which is read and written with system calls that may
    fail, be interrupted or transfer less than asked for. *)
From Stdlib Require Import ZArith Lia.
From S2P Require Import Prelude Bytes SessionManager.

Local Open Scope Z_scope.

Definition HeaderSize : nat := 4.
Definition MaxRetries : nat := 10.
(** [MAX_DBROOT + 2000], oam/oamcpp/liboam.h *)
Definition USER_OBJECT_ID : Z := 12240.

Record OIDServer := mkOID { currentOID : Z; oidFile : list Z }.
Definition set_currentOID (x : Z) (s : OIDServer) : OIDServer := mkOID x (oidFile s).
Definition set_oidFile (f : list Z) (s : OIDServer) : OIDServer := mkOID (currentOID s) f.

(** ** System calls *)

(** What a [read] or [write] does: it transfers up to so many bytes, fails, or
    is interrupted.  A list of them is what the next calls do; after its end
    the calls work.  [seeks] counts the calls of [lseek] that fail. *)
Inductive io_result := Moves (n : nat) | IoError | Interrupted.

(** The loop on [lseek]: at most [MaxRetries] calls.  The loop counts the last
    call too, and gives up when it has made [MaxRetries] calls, even if the
    last one worked. *)
Definition seek_ok (seeks : nat) : bool := bool_decide (seeks + 1 < MaxRetries)%nat.

(** The loop on [write]: [buf] is what is left; the file is written at [off]. *)
Fixpoint write_loop (outs : list io_result) (errCount : nat) (off : nat) (buf : list Z) :
    prog OIDServer unit :=
  if decide (buf = []) then
    if decide (errCount = MaxRetries) then throw IosFailure else mret tt
  else if decide (MaxRetries <= errCount)%nat then throw IosFailure
  else
    match outs with
    | [] => modify (fun s => set_oidFile (file_write (oidFile s) off buf) s)
    | Moves n :: outs' =>
        modify (fun s => set_oidFile (file_write (oidFile s) off (take n buf)) s);;
        write_loop outs' errCount (off + length (take n buf)) (drop n buf)
    | IoError :: outs' => write_loop outs' (S errCount) off buf
    | Interrupted :: outs' => write_loop outs' errCount off buf
    end.

Definition writeData (buf : list Z) (offset : nat) (seeks : nat) (outs : list io_result) :
    prog OIDServer unit :=
  if decide (buf = []) then mret tt
  else if seek_ok seeks then write_loop outs 0 offset buf
  else throw IosFailure.

(** The loop on [read]: [acc] is what has been read; reading at the end of the
    file throws. *)
Fixpoint read_loop (outs : list io_result) (errCount : nat) (off size : nat) (acc : list Z)
    (f : list Z) : res (list Z) :=
  if decide (size = 0)%nat then
    if decide (errCount = MaxRetries) then Throw IosFailure else Ret acc
  else if decide (MaxRetries <= errCount)%nat then Throw IosFailure
  else
    match outs with
    | [] =>
        let got := take size (drop off f) in
        if decide (length got = size) then Ret (acc ++ got) else Throw EOFException
    | Moves n :: outs' =>
        let got := take (Nat.min n size) (drop off f) in
        if decide (got = []) then Throw EOFException
        else read_loop outs' errCount (off + length got) (size - length got) (acc ++ got) f
    | IoError :: outs' => read_loop outs' (S errCount) off size acc f
    | Interrupted :: outs' => read_loop outs' errCount off size acc f
    end.

Definition readData (offset size : nat) (seeks : nat) (outs : list io_result) (f : list Z) :
    res (list Z) :=
  if decide (size = 0)%nat then Ret []
  else if seek_ok seeks then read_loop outs 0 offset size [] f
  else Throw IosFailure.

(** ** Operations *)

(** [initializeBitmap]: [cfg] is [OIDManager/FirstOID], if configured. *)
Definition initializeBitmap (cfg : option Z) (seeks : nat) (outs : list io_result) :
    prog OIDServer unit :=
  let ltmp := default USER_OBJECT_ID cfg in
  let firstOID := if decide (ltmp > 2 ^ 31 - 1 \/ ltmp < USER_OBJECT_ID) then USER_OBJECT_ID
                  else ltmp in
  writeData (le_bytes 4 firstOID) 0 seeks outs.

(** The constructor.  [file] is the file, if there is one; without one the
    extent map must be empty.  The counter is an [int] that starts as 0, and
    two bytes are read into it. *)
Definition new_OIDServer (cfg : option Z) (emEmpty : bool) (file : option (list Z))
    (wseeks : nat) (wouts : list io_result) (rseeks : nat) (routs : list io_result) :
    res OIDServer :=
  match (match file with
         | Some f => (Ret tt, mkOID 0 f)
         | None =>
             if emEmpty then initializeBitmap cfg wseeks wouts (mkOID 0 [])
             else (Throw RuntimeError, mkOID 0 [])
         end) with
  | (Ret _, s) =>
      bytes ← readData 0 2 rseeks routs (oidFile s);
      Ret (set_currentOID (of_le bytes) s)
  | (Throw e, _) => Throw e
  | (UB u, _) => UB u
  end.

Definition allocOIDs (num : Z) (seeks : nat) (outs : list io_result) : prog OIDServer Z :=
  bestMatchBegin ← gets currentOID;
  if decide (int_range (bestMatchBegin + num)) then
    modify (set_currentOID (bestMatchBegin + num));;
    writeData (le_bytes 4 (bestMatchBegin + num)) 0 seeks outs;;
    mret bestMatchBegin
  else undefined SignedOverflow.

Definition returnOIDs (start end_ : Z) : prog OIDServer unit := mret tt.
Definition oid_size (s : OIDServer) : Z := currentOID s.

(** ** Results *)

Fixpoint io_errors (outs : list io_result) : nat :=
  match outs with
  | [] => 0
  | IoError :: outs' => S (io_errors outs')
  | _ :: outs' => io_errors outs'
  end.

Lemma file_write_length f off data : (off <= length f)%nat ->
  file_write f off data = take off f ++ data ++ drop (off + length data) f.
Proof.
  intros H. unfold file_write. replace (off - length f)%nat with 0%nat by lia. by rewrite app_nil_r.
Qed.

(** Writing in two steps is writing at once. *)
Lemma file_write_twice f off a b :
  file_write (file_write f off a) (off + length a) b = file_write f off (a ++ b).
Proof.
  set (p := take off (f ++ replicate (off - length f) 0)).
  assert (Hp : length p = off).
  { subst p. rewrite length_take, length_app, length_replicate. lia. }
  assert (E : file_write f off a = (p ++ a) ++ drop (off + length a) f)
    by (unfold file_write; by rewrite <- app_assoc).
  rewrite E. replace (off + length a)%nat with (length (p ++ a)) at 2 by (rewrite length_app; lia).
  rewrite file_write_after. unfold file_write. fold p. rewrite <- !app_assoc, length_app, drop_drop.
  by rewrite Nat.add_assoc.
Qed.

Lemma write_loop_done outs errCount off buf s : buf <> [] -> (errCount + io_errors outs < MaxRetries)%nat ->
  write_loop outs errCount off buf s = (Ret tt, set_oidFile (file_write (oidFile s) off buf) s).
Proof.
  revert errCount off buf s. induction outs as [|[n| |] outs IH]; intros errCount off buf s Hb He.
  - cbn [write_loop]. rewrite decide_False by done. rewrite decide_False by (unfold MaxRetries in *; lia). done.
  - assert (He' : (errCount + io_errors outs < MaxRetries)%nat) by exact He.
    cbn [write_loop]. rewrite decide_False by done. rewrite decide_False by lia.
    erewrite bind_Ret by reflexivity.
    destruct (decide (drop n buf = [])) as [Hd|Hd].
    + assert (take n buf = buf) as E by (rewrite <- (take_drop n buf) at 2; rewrite Hd; by rewrite app_nil_r).
      rewrite Hd, E. destruct outs; cbn [write_loop]; rewrite decide_True, decide_False by (done || lia); done.
    + rewrite IH by done. unfold set_oidFile. cbn [oidFile currentOID].
      rewrite file_write_twice, take_drop. done.
  - assert (He' : (S errCount + io_errors outs < MaxRetries)%nat).
    { cbn in He. lia. }
    cbn [write_loop]. rewrite decide_False by done. rewrite decide_False by lia. by rewrite IH.
  - assert (He' : (errCount + io_errors outs < MaxRetries)%nat) by exact He.
    cbn [write_loop]. rewrite decide_False by done. rewrite decide_False by lia. by rewrite IH.
Qed.

(** [writeData] gets the whole buffer to the file through short writes,
    interruptions and up to nine errors. *)
Lemma writeData_done buf off seeks outs s : buf <> [] -> seek_ok seeks = true ->
  (io_errors outs < MaxRetries)%nat ->
  writeData buf off seeks outs s = (Ret tt, set_oidFile (file_write (oidFile s) off buf) s).
Proof.
  intros Hb Hs He. unfold writeData. rewrite decide_False by done. rewrite Hs. by apply write_loop_done.
Qed.

Lemma read_loop_done outs errCount off size acc f : (off + size <= length f)%nat ->
  (errCount + io_errors outs < MaxRetries)%nat -> Forall (fun o => o <> Moves 0) outs ->
  read_loop outs errCount off size acc f = Ret (acc ++ take size (drop off f)).
Proof.
  revert errCount off size acc. induction outs as [|o outs IH]; intros errCount off size acc Hf He Ho.
  - cbn [read_loop]. cbv zeta. destruct (decide (size = 0)%nat) as [->|Hs].
    { rewrite decide_False by (unfold MaxRetries in *; lia). by rewrite take_0, app_nil_r. }
    rewrite decide_False by (unfold MaxRetries in *; lia).
    rewrite decide_True by (rewrite length_take, length_drop; lia). done.
  - apply Forall_cons in Ho as [Hn Ho]. cbn [read_loop]. cbv zeta.
    destruct (decide (size = 0)%nat) as [->|Hs].
    { rewrite decide_False by (unfold MaxRetries in *; lia). by rewrite take_0, app_nil_r. }
    assert (Hl : length (take (Nat.min (match o with Moves n => n | _ => 0 end) size) (drop off f))
      = Nat.min (match o with Moves n => n | _ => 0 end) size)
      by (rewrite length_take, length_drop; lia).
    rewrite decide_False by lia. destruct o as [n| |].
    + assert (n <> 0)%nat by congruence.
      rewrite decide_False by (intros E; rewrite E in Hl; cbn in Hl; lia).
      rewrite Hl. rewrite IH; [|lia|exact He|done]. rewrite <- app_assoc. do 2 f_equal.
      rewrite <- (drop_drop f), take_take_drop. f_equal. lia.
    + rewrite IH; [done|done| |done]. cbn in He. lia.
    + rewrite IH; [done|done|exact He|done].
Qed.

(** A read of the first bytes of the file that meets no end of file. *)
Definition reads_well (seeks : nat) (outs : list io_result) : Prop :=
  seek_ok seeks = true /\ (io_errors outs < MaxRetries)%nat /\ Forall (fun o => o <> Moves 0) outs.
Definition writes_well (seeks : nat) (outs : list io_result) : Prop :=
  seek_ok seeks = true /\ (io_errors outs < MaxRetries)%nat.

Lemma restart_reads cfg em x rest wseeks wouts rseeks routs : reads_well rseeks routs ->
  new_OIDServer cfg em (Some (le_bytes 4 x ++ rest)) wseeks wouts rseeks routs
  = Ret (mkOID (u16 x) (le_bytes 4 x ++ rest)).
Proof.
  intros (Hs & He & Ho). unfold new_OIDServer, readData. cbn [oidFile].
  rewrite decide_False by done. rewrite Hs.
  rewrite read_loop_done; [|rewrite length_app, length_le_bytes; lia|exact He|exact Ho].
  rewrite drop_0. cbn [app mbind res_bind]. unfold set_currentOID. cbn [oidFile]. do 2 f_equal.
  rewrite take_app_le by (rewrite length_le_bytes; lia).
  change (take 2 (le_bytes 4 x)) with (le_bytes 2 x). by rewrite of_le_bytes.
Qed.

Lemma allocOIDs_run num seeks outs s : writes_well seeks outs ->
  int_range (currentOID s + num) ->
  allocOIDs num seeks outs s =
    (Ret (currentOID s), mkOID (currentOID s + num)
       (le_bytes 4 (currentOID s + num) ++ drop 4 (oidFile s))).
Proof.
  intros [Hs He] Hr. unfold allocOIDs. erewrite bind_Ret by reflexivity.
  rewrite decide_True by done. erewrite bind_Ret by reflexivity.
  erewrite bind_Ret by (apply writeData_done; [|exact Hs|exact He];
    intros E; apply (f_equal length) in E; by rewrite length_le_bytes in E).
  unfold set_oidFile, set_currentOID. cbn [oidFile currentOID].
  by rewrite file_write_start, length_le_bytes.
Qed.

(** ** Properties *)

(** A restart of the OID server that reads its file back without an error
    continues after the last OID handed out modulo 2^16: the constructor reads two of
    the four bytes of the high water mark. *)
Theorem oid_restart_truncates s num seeks outs cfg em wseeks wouts rseeks routs num' seeks' outs' :
  writes_well seeks outs -> reads_well rseeks routs -> writes_well seeks' outs' ->
  0 <= currentOID s -> 0 <= num -> currentOID s + num < 2 ^ 31 -> 0 <= num' < 2 ^ 30 ->
  exists s1 s2 s3,
    allocOIDs num seeks outs s = (Ret (currentOID s), s1) /\ currentOID s1 = currentOID s + num /\
    new_OIDServer cfg em (Some (oidFile s1)) wseeks wouts rseeks routs = Ret s2 /\
    allocOIDs num' seeks' outs' s2 = (Ret ((currentOID s + num) mod 2 ^ 16), s3).
Proof.
  intros Hw Hr Hw' H0 Hn Hm Hn'.
  assert (Hb : 0 <= u16 (currentOID s + num) < 2 ^ 16) by (apply Z.mod_pos_bound; lia).
  do 3 eexists. split; [apply allocOIDs_run; [done|unfold int_range; lia]|]. split; [done|].
  split; [by apply restart_reads|].
  apply allocOIDs_run; [done|]. unfold int_range. cbn [currentOID]. lia.
Qed.

(** Ids 65530 to 65539 are in use; after a restart the server gives out 4. *)
Lemma oid_restart_truncates_witness :
  exists s1 s2 s3,
    allocOIDs 10 0 [IoError; Moves 3] (mkOID 65530 []) = (Ret 65530, s1) /\
    new_OIDServer None true (Some (oidFile s1)) 0 [] 1 [Interrupted; Moves 1] = Ret s2 /\
    allocOIDs 1 0 [] s2 = (Ret 4, s3).
Proof.
  destruct (oid_restart_truncates (mkOID 65530 []) 10 0 [IoError; Moves 3] None true 0 [] 1
    [Interrupted; Moves 1] 1 0 []) as (s1 & s2 & s3 & H1 & _ & H2 & H3);
    [split; [done|cbn; unfold MaxRetries; lia]
    |split; [done|split; [cbn; unfold MaxRetries; lia|repeat constructor; discriminate]]
    |split; [done|cbn; unfold MaxRetries; lia]|cbn; lia|lia|cbn; lia|lia|].
  exists s1, s2, s3. split; [exact H1|]. split; [exact H2|exact H3].
Defined.
