(* ===== verification/TableLocks.v ===== *)
(** * The table lock server: src/versioning/BRM/tablelockserver.{h,cpp}, brmtypes.cpp

    Bulk loads and DDL lock a table on the DBRoots they write.  The controller
    keeps the locks in a map by lock id, which it saves to a file at every
    change and loads when it starts. *)
From Stdlib Require Import ZArith Lia.
From S2P Require Import Prelude Bytes StdMap BrmTypes SessionManager.

Local Open Scope Z_scope.

(** ** TableLockInfo *)

(** [LockState]; messages and files can hold other numbers. *)
Definition LOADING : Z := 0.
Definition CLEANUP : Z := 1.

Record TableLockInfo := mkTLI {
  tl_id : Z;
  tableOID : Z;
  ownerName : list Z;
  ownerPID : Z;
  ownerSessionID : Z;
  ownerTxnID : Z;
  tl_state : Z;
  creationTime : Z;
  dbrootList : list Z;
}.

Definition set_id (i : Z) (t : TableLockInfo) : TableLockInfo :=
  mkTLI i (tableOID t) (ownerName t) (ownerPID t) (ownerSessionID t) (ownerTxnID t) (tl_state t)
    (creationTime t) (dbrootList t).
Definition set_state (st : Z) (t : TableLockInfo) : TableLockInfo :=
  mkTLI (tl_id t) (tableOID t) (ownerName t) (ownerPID t) (ownerSessionID t) (ownerTxnID t) st
    (creationTime t) (dbrootList t).
Definition set_owner (name : list Z) (pid session txn : Z) (t : TableLockInfo) : TableLockInfo :=
  mkTLI (tl_id t) (tableOID t) name pid session txn (tl_state t) (creationTime t) (dbrootList t).

#[global] Instance TableLockInfo_eq_dec : EqDecision TableLockInfo.
Proof. solve_decision. Defined.

Definition overlaps (t t2 : TableLockInfo) (sDbrootList : gset Z) : bool :=
  bool_decide (tableOID t = tableOID t2) &&
  existsb (fun r => bool_decide (r ∈ sDbrootList)) (dbrootList t).

(** ** The messages: a string is its length and its bytes, a vector its
    length and its elements. *)

Definition tli_serialize (t : TableLockInfo) : list Z :=
  le_bytes 8 (tl_id t) ++ le_bytes 4 (tableOID t) ++
  le_bytes 4 (Z.of_nat (length (ownerName t))) ++ ownerName t ++
  le_bytes 4 (ownerPID t) ++ le_bytes 4 (ownerSessionID t) ++ le_bytes 4 (ownerTxnID t) ++
  le_bytes 1 (tl_state t) ++ le_bytes 8 (creationTime t) ++
  le_bytes 8 (Z.of_nat (length (dbrootList t))) ++ (dbrootList t ≫= le_bytes 2).

Definition get_string : reader (list Z) :=
  n ← get_s32; if decide (n < 0) then (fun _ => None) : reader (list Z) else get_bytes (Z.to_nat n).

(** [None] is an exception, except that a message which ends inside the vector
    is read past its end. *)
Definition tli_deserialize : reader TableLockInfo :=
  i ← get_u64; oid ← get_u32; name ← get_string; pid ← get_u32; ses ← get_s32; txn ← get_s32;
  st ← get_u 1; time ← get_s64; n ← get_u64; roots ← get_list (Z.to_nat n) get_u16;
  mret (mkTLI i oid name pid ses txn st time roots).

(** ** The save file *)

Section SaveFile.
(** The roots are 16-bit numbers in a vector, and the file has 32 bits for
    each: the record of the last one takes in the two bytes behind the
    vector's storage.  [beyond roots] is what is there; [None] says that the
    allocator's block ends with the vector, and then the access is undefined. *)
Context (beyond : list Z -> option Z).

(** The words of the first [n] roots. *)
Fixpoint root_words (spare : Z) (n : nat) (roots : list Z) : list Z :=
  match n, roots with
  | S n', r :: roots' =>
      le_bytes 2 r ++ le_bytes 2 (default spare (head roots')) ++ root_words spare n' roots'
  | _, _ => []
  end.

Definition file_fields (t : TableLockInfo) : list Z :=
  le_bytes 8 (tl_id t) ++ le_bytes 4 (tableOID t) ++ le_bytes 4 (ownerPID t) ++
  le_bytes 4 (tl_state t) ++ le_bytes 4 (ownerSessionID t) ++ le_bytes 4 (ownerTxnID t) ++
  le_bytes 8 (creationTime t).

Definition tli_write (t : TableLockInfo) : res (list Z) :=
  let nameLen := u16 (Z.of_nat (length (ownerName t))) in
  let dbrootListSize := u16 (Z.of_nat (length (dbrootList t))) in
  let n := Z.to_nat dbrootListSize in
  spare ← (if decide (n = 0%nat \/ n <> length (dbrootList t)) then Ret 0
           else match beyond (dbrootList t) with Some x => Ret x | None => UB OutOfBounds end);
  Ret (file_fields t ++ le_bytes 2 nameLen ++ take (Z.to_nat nameLen) (ownerName t) ++
       le_bytes 2 dbrootListSize ++ root_words spare n (dbrootList t)).

(** Reading writes four bytes at each root; the next one overwrites the upper
    half, the last one goes behind the vector. *)
Definition get_root : reader Z := w ← get_u32; mret (u16 w).

Definition get_tli_file : reader TableLockInfo :=
  i ← get_u64; oid ← get_u32; pid ← get_u32; st ← get_u32; ses ← get_s32; txn ← get_s32;
  time ← get_s64; nameLen ← get_u16; name ← get_bytes (Z.to_nat nameLen);
  n ← get_u16; roots ← get_list (Z.to_nat n) get_root;
  mret (mkTLI i oid name pid ses txn st time roots).

Definition tli_read (bs : list Z) : res (TableLockInfo * list Z) :=
  match get_tli_file bs with
  | None => Throw IosFailure
  | Some (t, rest) =>
      match dbrootList t, beyond (dbrootList t) with
      | _ :: _, None => UB OutOfBounds
      | _, _ => Ret (t, rest)
      end
  end.

(** ** The server *)

Record TableLockServer := mkTLS {
  locks : gmap Z TableLockInfo;
  saveFile : option (list Z);
  sms : SessionManager;
}.
Definition set_locks (l : gmap Z TableLockInfo) (s : TableLockServer) : TableLockServer :=
  mkTLS l (saveFile s) (sms s).
Definition set_saveFile (f : list Z) (s : TableLockServer) : TableLockServer :=
  mkTLS (locks s) (Some f) (sms s).

Definition on_sms {A} (p : prog SessionManager A) : prog TableLockServer A :=
  zoom sms (fun m s => mkTLS (locks s) (saveFile s) m) p.

(** What becomes of a save: it is complete; the file cannot be opened; or the
    stream is found bad before the record of index [i], with [kept] in the
    file.  When [i] is the number of locks, nobody looks. *)
Inductive save_outcome := Saved | OpenFails | Breaks (i : nat) (kept : list Z).

Definition records (l : list (Z * TableLockInfo)) : res (list Z) :=
  collect l (fun kv => tli_write kv.2).

Definition save (o : save_outcome) : prog TableLockServer unit :=
  l ← gets (fun s => in_order (locks s));
  let count := le_bytes 4 (Z.of_nat (length l)) in
  match o with
  | OpenFails => throw RuntimeError
  | Saved => bs ← reading (fun _ => records l); modify (set_saveFile (count ++ bs))
  | Breaks i kept =>
      reading (fun _ => records (take i l));;
      modify (set_saveFile kept);;
      if decide (i < length l)%nat then throw RuntimeError else mret tt
  end.

(** A new id; 0 is an error code. *)
Definition new_id : prog TableLockServer Z :=
  i ← on_sms getUnique64;
  if decide (i = 0) then on_sms getUnique64 else mret i.

(** The loop of [load] over the records. *)
Fixpoint load_locks (n : nat) (bs : list Z) : prog TableLockServer unit :=
  match n with
  | O => mret tt
  | S n' =>
      r ← reading (fun _ => tli_read bs);
      i ← new_id;
      modify (fun s => set_locks (<[i := set_id i r.1]> (locks s)) s);;
      load_locks n' r.2
  end.

Definition load : prog TableLockServer unit :=
  f ← gets saveFile;
  match f with
  | None => mret tt
  | Some bs =>
      match get_u32 bs with
      | None => throw IosFailure
      | Some (size, rest) => load_locks (Z.to_nat size) rest
      end
  end.

(** [lock]: the id, or 0 and the owner of a lock in the way. *)
Definition lock (tli : TableLockInfo) (o : save_outcome) : prog TableLockServer (Z * TableLockInfo) :=
  held ← gets locks;
  let dbroots := list_to_set (dbrootList tli) in
  match first_in (fun t => overlaps t tli dbroots) held with
  | Some (_, t) =>
      mret (0, set_owner (ownerName t) (ownerPID t) (ownerSessionID t) (ownerTxnID t) tli)
  | None =>
      i ← new_id;
      let tli' := set_id i tli in
      modify (fun s => set_locks (<[i := tli']> (locks s)) s);;
      try_catch (save o) (fun e => modify (fun s => set_locks (delete i (locks s)) s);; throw e);;
      mret (i, tli')
  end.

Definition unlock (i : Z) (o : save_outcome) : prog TableLockServer bool :=
  held ← gets locks;
  match held !! i with
  | None => mret false
  | Some tli =>
      modify (fun s => set_locks (delete i (locks s)) s);;
      try_catch (save o)
        (fun e => modify (fun s => set_locks (<[tl_id tli := tli]> (locks s)) s);; throw e);;
      mret true
  end.

(** A change in place; the handler puts the old fields back. *)
Definition change (i : Z) (f back : TableLockInfo -> TableLockInfo) (o : save_outcome) :
    prog TableLockServer bool :=
  modify (fun s => set_locks (alter f i (locks s)) s);;
  try_catch (save o) (fun e => modify (fun s => set_locks (alter back i (locks s)) s);; throw e);;
  mret true.

Definition changeState (i st : Z) (o : save_outcome) : prog TableLockServer bool :=
  held ← gets locks;
  match held !! i with
  | None => mret false
  | Some t => change i (set_state st) (set_state (tl_state t)) o
  end.

Definition changeOwner (i : Z) (name : list Z) (pid session txnID : Z) (o : save_outcome) :
    prog TableLockServer bool :=
  held ← gets locks;
  match held !! i with
  | None => mret false
  | Some t =>
      change i (set_owner name pid session txnID)
        (set_owner (ownerName t) (ownerPID t) (ownerSessionID t) (ownerTxnID t)) o
  end.

Definition getAllLocks (s : TableLockServer) : list TableLockInfo := snd <$> in_order (locks s).

Definition releaseAllLocks (o : save_outcome) : prog TableLockServer unit :=
  tmp ← gets locks;
  modify (set_locks ∅);;
  try_catch (save o) (fun e => modify (set_locks tmp);; throw e).

(** [getLockInfo]; the info is copied unless [out] is null. *)
Definition getLockInfo (i : Z) (out : bool) (s : TableLockServer) : bool * option TableLockInfo :=
  match locks s !! i with
  | Some t => (true, if out then Some t else None)
  | None => (false, None)
  end.

(** The constructor; the file has been named in the configuration. *)
Definition start_TableLockServer (f : option (list Z)) (sm : SessionManager) :
    res unit * TableLockServer :=
  load (mkTLS ∅ f sm).

End SaveFile.
