(* ===== verification/TableLocksProofs.v ===== *)
(** * Table locks: exclusion, failed saves, restart *)
From Stdlib Require Import ZArith Lia.
From S2P Require Import Prelude Bytes StdMap BrmTypes SessionManager TableLocks.

Local Open Scope Z_scope.

(** Two locks that must not be held at once: the same table on a common DBRoot. *)
Definition conflict (a b : TableLockInfo) : Prop :=
  tableOID a = tableOID b /\ exists r, r ∈ dbrootList a /\ r ∈ dbrootList b.

Lemma overlaps_conflict t t2 :
  overlaps t t2 (list_to_set (dbrootList t2)) = true <-> conflict t t2.
Proof.
  unfold overlaps, conflict. rewrite andb_true_iff, bool_decide_eq_true, existsb_exists.
  split; intros [E [r [Hr H]]]; (split; [done|]); exists r.
  - apply bool_decide_eq_true in H. rewrite elem_of_list_to_set in H.
    by rewrite <- list_elem_of_In in Hr.
  - rewrite <- list_elem_of_In. split; [done|]. apply bool_decide_eq_true.
    by rewrite elem_of_list_to_set.
Qed.

Lemma conflict_sym a b : conflict a b -> conflict b a.
Proof. intros [E (r & Ha & Hb)]. split; [done|]. by exists r. Qed.

(** Every lock is filed under its id, ids come from the counter, and no two
    locks are in conflict. *)
Record tl_wf (s : TableLockServer) : Prop := {
  tl_key : forall i t, locks s !! i = Some t -> tl_id t = i;
  tl_range : forall i t, locks s !! i = Some t -> 1 <= i <= unique64 (sms s);
  tl_counter : 0 <= unique64 (sms s) < 2 ^ 64;
  tl_excl : forall i j a b, locks s !! i = Some a -> locks s !! j = Some b -> i <> j -> ~ conflict a b;
}.

(** Fewer than 2^64 - 1 ids have been given out. *)
Definition ids_left (s : TableLockServer) : Prop := unique64 (sms s) + 1 < 2 ^ 64.

Section Proofs.
Context (beyond : list Z -> option Z).

(** The calls of the controller, and whether they return; [step_unique] is a
    client that asks for a number of its own. *)
Inductive tl_step (s : TableLockServer) : bool -> TableLockServer -> Prop :=
  | step_lock tli o r s' : ids_left s -> lock beyond tli o s = (Ret r, s') -> tl_step s true s'
  | step_unlock i o r s' : unlock beyond i o s = (Ret r, s') -> tl_step s true s'
  | step_state i st o r s' : changeState beyond i st o s = (Ret r, s') -> tl_step s true s'
  | step_owner i n p ses x o r s' :
      changeOwner beyond i n p ses x o s = (Ret r, s') -> tl_step s true s'
  | step_release o r s' : releaseAllLocks beyond o s = (Ret r, s') -> tl_step s true s'
  | step_unique n s' : ids_left s -> on_sms getUnique64 s = (Ret n, s') -> tl_step s true s'
  | fail_lock tli o e s' : ids_left s -> lock beyond tli o s = (Throw e, s') -> tl_step s false s'
  | fail_unlock i o e s' : unlock beyond i o s = (Throw e, s') -> tl_step s false s'
  | fail_state i st o e s' : changeState beyond i st o s = (Throw e, s') -> tl_step s false s'
  | fail_owner i n p ses x o e s' :
      changeOwner beyond i n p ses x o s = (Throw e, s') -> tl_step s false s'
  | fail_release o e s' : releaseAllLocks beyond o s = (Throw e, s') -> tl_step s false s'.

Inductive tl_run (s : TableLockServer) : TableLockServer -> Prop :=
  | tl_run_nil : tl_run s s
  | tl_run_step s1 ok s2 : tl_run s s1 -> tl_step s1 ok s2 -> tl_run s s2.

(** ** A save writes the file and nothing else *)

Lemma save_keeps o s r s' : save beyond o s = (r, s') -> locks s' = locks s /\ sms s' = sms s.
Proof.
  unfold save. erewrite bind_Ret by reflexivity. cbv zeta.
  destruct o as [| |i kept]; [| by intros [= _ <-] |];
    unfold mbind, prog_bind, reading, modify, mret, prog_ret, throw;
    destruct (records _ _) as [bs|e|u]; try (by intros [= _ <-]).
  destruct (decide _); by intros [= _ <-].
Qed.

(** A save with a handler that puts things back. *)
Lemma save_or_back o h s r s' :
  try_catch (save beyond o) (fun e => modify h;; throw e) s = (r, s') ->
  (exists s1, locks s1 = locks s /\ sms s1 = sms s /\
     (r = Ret tt /\ s' = s1 \/ (exists e, r = Throw e) /\ s' = h s1 \/ (exists u, r = UB u))).
Proof.
  unfold try_catch. destruct (save beyond o s) as [rs s1] eqn:E.
  destruct (save_keeps _ _ _ _ E) as [El Es].
  destruct rs as [[]|e|u].
  - intros [= <- <-]. exists s1. split; [done|]. split; [done|]. by left.
  - intros [= <- <-]. exists s1. split; [done|]. split; [done|]. right. left. split; [by exists e|done].
  - intros [= <- <-]. exists s1. split; [done|]. split; [done|]. right. right. by exists u.
Qed.

Lemma bind_cases {S A B} (p : prog S A) (k : A -> prog S B) s r s' : (p ≫= k) s = (r, s') ->
  (exists a s1, p s = (Ret a, s1) /\ k a s1 = (r, s')) \/
  (exists e, p s = (Throw e, s') /\ r = Throw e) \/ (exists u, p s = (UB u, s') /\ r = UB u).
Proof.
  unfold mbind, prog_bind. destruct (p s) as [[a|e|u] s1] eqn:E.
  - intros H. left. by exists a, s1.
  - intros [= <- <-]. right. left. by exists e.
  - intros [= <- <-]. right. right. by exists u.
Qed.

(** The shape every call shares: a change, a save, and the change undone when
    the save throws. *)
Lemma saved_or_back {A} o h (a : A) s r s' :
  (try_catch (save beyond o) (fun e => modify h;; throw e);; mret a) s = (r, s') ->
  (r = Ret a /\ locks s' = locks s /\ sms s' = sms s) \/
  (exists e s1, r = Throw e /\ locks s1 = locks s /\ sms s1 = sms s /\ s' = h s1) \/
  (exists u, r = UB u).
Proof.
  intros H. apply bind_cases in H as [([] & s1 & H & H')|[(e & H & ->)|(u & H & ->)]].
  - apply save_or_back in H as (s2 & El & Es & [[_ ->]|[[[e He] _]|[u Hu]]]); [|done|done].
    left. by injection H' as <- <-.
  - apply save_or_back in H as (s2 & El & Es & [[He ->]|[[_ ->]|[u Hu]]]); [done| |done].
    right. left. by exists e, s2.
  - right. right. by exists u.
Qed.

(** ** Each call *)

Lemma new_id_run s : tl_wf s -> ids_left s -> exists m,
  unique64 m = unique64 (sms s) + 1 /\
  new_id s = (Ret (unique64 (sms s) + 1), mkTLS (locks s) (saveFile s) m).
Proof.
  intros Hwf Hids. unfold ids_left in Hids. pose proof (tl_counter _ Hwf) as Hc.
  unfold new_id, on_sms, zoom, getUnique64.
  unfold mbind at 1, prog_bind at 1. unfold mbind, prog_bind, modify, gets.
  cbn [unique64 set_counters sms]. rewrite u64_id by lia. rewrite decide_False by lia.
  eexists. split; [|reflexivity]. reflexivity.
Qed.

Lemma fresh_id s : tl_wf s -> locks s !! (unique64 (sms s) + 1) = None.
Proof.
  intros Hwf. destruct (locks s !! _) as [t|] eqn:E; [|done]. apply (tl_range _ Hwf) in E. lia.
Qed.

Definition in_way (t tli : TableLockInfo) : TableLockInfo :=
  set_owner (ownerName t) (ownerPID t) (ownerSessionID t) (ownerTxnID t) tli.

Lemma lock_cases tli o s r s' : tl_wf s -> ids_left s -> lock beyond tli o s = (r, s') ->
  let i := unique64 (sms s) + 1 in
  (exists k t, locks s !! k = Some t /\ conflict t tli /\ r = Ret (0, in_way t tli) /\ s' = s) \/
  ((forall k t, locks s !! k = Some t -> ~ conflict t tli) /\ unique64 (sms s') = i /\
   (r = Ret (i, set_id i tli) /\ locks s' = <[i := set_id i tli]> (locks s) \/
    (exists e, r = Throw e) /\ locks s' = locks s)) \/
  (exists u, r = UB u).
Proof.
  intros Hwf Hids H i. unfold lock in H. erewrite bind_Ret in H by reflexivity. cbv zeta in H.
  destruct (first_in _ _) as [[k t]|] eqn:E.
  - apply first_in_Some in E as [Hk Hc%overlaps_conflict]. injection H as <- <-.
    left. by exists k, t.
  - right. rewrite first_in_None in E.
    assert (Hno : forall k t, locks s !! k = Some t -> ~ conflict t tli).
    { intros k t Hk Hc%overlaps_conflict. specialize (E _ _ Hk). cbn in E. congruence. }
    destruct (new_id_run s Hwf Hids) as (m & Hm & Hid).
    erewrite bind_Ret in H by exact Hid. erewrite bind_Ret in H by reflexivity.
    apply saved_or_back in H as [(-> & El & Es)|[(e & s1 & -> & El & Es & ->)|Hu]]; [| |by right].
    + left. split; [done|]. rewrite Es. split; [exact Hm|]. left. by rewrite El.
    + left. split; [done|]. cbn [sms locks set_locks]. rewrite Es, El. split; [exact Hm|]. right.
      split; [by exists e|]. cbn [locks set_locks]. apply delete_insert_id. by apply fresh_id.
Qed.

Lemma unlock_cases i o s r s' : tl_wf s -> unlock beyond i o s = (r, s') ->
  (exists u, r = UB u) \/
  (sms s' = sms s /\
   ((r = Ret false /\ locks s !! i = None /\ s' = s) \/
    (r = Ret true /\ is_Some (locks s !! i) /\ locks s' = delete i (locks s)) \/
    ((exists e, r = Throw e) /\ locks s' = locks s))).
Proof.
  intros Hwf H. unfold unlock in H. erewrite bind_Ret in H by reflexivity.
  destruct (locks s !! i) as [t|] eqn:E.
  - erewrite bind_Ret in H by reflexivity.
    apply saved_or_back in H as [(-> & El & Es)|[(e & s1 & -> & El & Es & ->)|Hu]]; [| |by left].
    + right. split; [done|]. right. left. split; [done|]. split; [by eexists|done].
    + right. split; [done|]. right. right. split; [by exists e|]. cbn [locks set_locks].
      rewrite El, (tl_key _ Hwf _ _ E). cbn [locks set_locks]. by apply insert_delete_id.
  - right. injection H as <- <-. split; [done|]. by left.
Qed.

(** A change in place that is put back exactly. *)
Lemma change_cases i f back o s r s' t : locks s !! i = Some t -> back (f t) = t ->
  change beyond i f back o s = (r, s') ->
  (exists u, r = UB u) \/
  (sms s' = sms s /\ ((r = Ret true /\ locks s' = <[i := f t]> (locks s)) \/
                     ((exists e, r = Throw e) /\ locks s' = locks s))).
Proof.
  intros Ht Hb H. unfold change in H. erewrite bind_Ret in H by reflexivity.
  assert (Ea : alter f i (locks s) = <[i := f t]> (locks s)).
  { apply map_eq. intros k. destruct (decide (k = i)) as [->|Hk].
    - by rewrite lookup_alter_eq, lookup_insert_eq, Ht.
    - by rewrite lookup_alter_ne, lookup_insert_ne. }
  apply saved_or_back in H as [(-> & El & Es)|[(e & s1 & -> & El & Es & ->)|Hu]]; [| |by left].
  - right. split; [done|]. left. split; [done|]. by rewrite El.
  - right. split; [done|]. right. split; [by exists e|]. cbn [locks set_locks]. rewrite El.
    cbn [locks set_locks]. rewrite Ea. apply map_eq. intros k. destruct (decide (k = i)) as [->|Hk].
    + by rewrite lookup_alter_eq, lookup_insert_eq, Ht; cbn; rewrite Hb.
    + by rewrite lookup_alter_ne, lookup_insert_ne.
Qed.

(** ** The invariant *)

Lemma wf_same s s' : locks s' = locks s -> unique64 (sms s) <= unique64 (sms s') < 2 ^ 64 ->
  tl_wf s -> tl_wf s'.
Proof.
  intros El Hu [Hk Hr Hc He]. split; rewrite ?El; try done.
  - intros i t Ht. specialize (Hr _ _ Ht). lia.
  - lia.
Qed.

Lemma wf_update i f s s' t : tl_wf s -> locks s !! i = Some t -> sms s' = sms s ->
  locks s' = <[i := f t]> (locks s) ->
  tl_id (f t) = tl_id t -> tableOID (f t) = tableOID t -> dbrootList (f t) = dbrootList t -> tl_wf s'.
Proof.
  intros [Hk Hr Hc He] Ht Es El Hid Hoid Hroots.
  assert (Hconf : forall x, conflict (f t) x <-> conflict t x)
    by (intros x; unfold conflict; by rewrite Hoid, Hroots).
  split; rewrite ?El, ?Es; [| |done|].
  - intros j x [[<- <-]|[_ H]]%lookup_insert_Some; [rewrite Hid|]; by apply Hk.
  - intros j x [[<- <-]|[_ H]]%lookup_insert_Some; by eapply Hr.
  - intros j k a b [[<- <-]|[Hj Ha]]%lookup_insert_Some [[<- <-]|[Hk' Hb]]%lookup_insert_Some Hne;
      [done| | |by eapply He].
    + rewrite Hconf. by eapply He.
    + intros Hcf%conflict_sym. rewrite Hconf in Hcf. by eapply (He i j).
Qed.

Lemma wf_grant s s' tli : tl_wf s -> ids_left s ->
  (forall k t, locks s !! k = Some t -> ~ conflict t tli) ->
  let i := unique64 (sms s) + 1 in
  unique64 (sms s') = i -> locks s' = <[i := set_id i tli]> (locks s) -> tl_wf s'.
Proof.
  intros [Hk Hr Hc He] Hids Hno i Hu El. unfold ids_left in Hids. split; rewrite ?El, ?Hu.
  - intros j x [[<- <-]|[_ H]]%lookup_insert_Some; [done|by apply Hk].
  - intros j x [[<- <-]|[_ H]]%lookup_insert_Some; [lia|]. specialize (Hr _ _ H). lia.
  - lia.
  - intros j k a b [[<- <-]|[Hj Ha]]%lookup_insert_Some [[<- <-]|[Hk' Hb]]%lookup_insert_Some Hne;
      [done| | |by eapply He].
    + intros Hcf%conflict_sym. by eapply Hno.
    + intros Hcf. by eapply Hno.
Qed.

Lemma wf_subset s s' : tl_wf s -> sms s' = sms s -> locks s' ⊆ locks s -> tl_wf s'.
Proof.
  intros [Hk Hr Hc He] Es Hsub. rewrite map_subseteq_spec in Hsub. split; rewrite ?Es.
  - intros i t Ht. by apply Hk, Hsub.
  - intros i t Ht. by eapply Hr, Hsub.
  - done.
  - intros i j a b Ha Hb. eapply He; by apply Hsub.
Qed.

Lemma wf_kept s s' : tl_wf s -> sms s' = sms s -> locks s' = locks s -> tl_wf s'.
Proof. intros Hwf Es El. apply (wf_subset s); [done|done|by rewrite El]. Qed.

Lemma changeState_cases i st o s r s' : tl_wf s -> changeState beyond i st o s = (r, s') ->
  (exists u, r = UB u) \/ (tl_wf s' /\ forall e, r = Throw e -> locks s' = locks s).
Proof.
  intros Hwf H. unfold changeState in H. erewrite bind_Ret in H by reflexivity.
  destruct (locks s !! i) as [t|] eqn:Ht; [|right; by injection H as <- <-].
  apply (change_cases _ _ _ _ _ _ _ t Ht) in H; [|by destruct t].
  destruct H as [Hu|[Es [[-> El]|[[e ->] El]]]]; [by left|right|right].
  - split; [|done]. by apply (wf_update i (set_state st) s s' t).
  - split; [by apply (wf_kept s)|done].
Qed.

Lemma changeOwner_cases i n p ses x o s r s' : tl_wf s ->
  changeOwner beyond i n p ses x o s = (r, s') ->
  (exists u, r = UB u) \/ (tl_wf s' /\ forall e, r = Throw e -> locks s' = locks s).
Proof.
  intros Hwf H. unfold changeOwner in H. erewrite bind_Ret in H by reflexivity.
  destruct (locks s !! i) as [t|] eqn:Ht; [|right; by injection H as <- <-].
  apply (change_cases _ _ _ _ _ _ _ t Ht) in H; [|by destruct t].
  destruct H as [Hu|[Es [[-> El]|[[e ->] El]]]]; [by left|right|right].
  - split; [|done]. by apply (wf_update i (set_owner n p ses x) s s' t).
  - split; [by apply (wf_kept s)|done].
Qed.

Lemma releaseAllLocks_cases o s r s' : tl_wf s -> releaseAllLocks beyond o s = (r, s') ->
  (exists u, r = UB u) \/ (tl_wf s' /\ forall e, r = Throw e -> locks s' = locks s).
Proof.
  intros Hwf H. unfold releaseAllLocks in H. do 2 erewrite bind_Ret in H by reflexivity.
  apply save_or_back in H as (s1 & El & Es & [[-> ->]|[[[e ->] ->]|Hu]]); [right|right|by left].
  - split; [|done]. apply (wf_subset s); [done|done|]. rewrite El. apply map_empty_subseteq.
  - split; [by apply (wf_kept s)|done].
Qed.

(** Every call keeps the invariant, and one that throws changes no lock. *)
Lemma tl_step_wf s ok s' : tl_wf s -> tl_step s ok s' ->
  tl_wf s' /\ (ok = false -> locks s' = locks s).
Proof.
  intros Hwf Hst.
  assert (Hlock : forall tli o r s', ids_left s -> lock beyond tli o s = (r, s') ->
    (exists u, r = UB u) \/ (tl_wf s' /\ forall e, r = Throw e -> locks s' = locks s)).
  { intros tli o r s2 Hids H. pose proof (tl_counter _ Hwf). unfold ids_left in *.
    destruct (lock_cases tli o s r s2 Hwf Hids H)
      as [(k & t & _ & _ & -> & ->)|[(Hno & Hu & [[-> El]|[[e ->] El]])|Hub]];
      [by right|right|right|by left].
    - split; [|done]. by eapply wf_grant.
    - split; [|done]. eapply wf_same; [exact El|lia|done]. }
  assert (Hunl : forall i o r s', unlock beyond i o s = (r, s') ->
    (exists u, r = UB u) \/ (tl_wf s' /\ forall e, r = Throw e -> locks s' = locks s)).
  { intros i o r s2 H.
    destruct (unlock_cases i o s r s2 Hwf H)
      as [Hu|[Es [(-> & _ & ->)|[(-> & _ & El)|[[e ->] El]]]]]; [by left|by right|right|right].
    - split; [|done]. apply (wf_subset s); [done|done|]. rewrite El. apply delete_subseteq.
    - split; [by apply (wf_kept s)|done]. }
  destruct Hst as [tli o r s' Hi H|i o r s' H|i st o r s' H|i n p ses x o r s' H|o r s' H|n s' Hi H
    |tli o e s' Hi H|i o e s' H|i st o e s' H|i n p ses x o e s' H|o e s' H].
  6: { split; [|done]. unfold on_sms, zoom, getUnique64, mbind, prog_bind, modify, gets in H.
       injection H as <- <-. pose proof (tl_counter _ Hwf). unfold ids_left in Hi.
       apply (wf_same s); [reflexivity| |done]. cbn. rewrite u64_id; lia. }
  - destruct (Hlock _ _ _ _ Hi H) as [[u [=]]|[Hw _]]. by split.
  - destruct (Hunl _ _ _ _ H) as [[u [=]]|[Hw _]]. by split.
  - destruct (changeState_cases _ _ _ _ _ _ Hwf H) as [[u [=]]|[Hw _]]. by split.
  - destruct (changeOwner_cases _ _ _ _ _ _ _ _ _ Hwf H) as [[u [=]]|[Hw _]]. by split.
  - destruct (releaseAllLocks_cases _ _ _ _ Hwf H) as [[u [=]]|[Hw _]]. by split.
  - destruct (Hlock _ _ _ _ Hi H) as [[u [=]]|[Hw Hb]]. split; [done|]. by intros _; apply (Hb e).
  - destruct (Hunl _ _ _ _ H) as [[u [=]]|[Hw Hb]]. split; [done|]. by intros _; apply (Hb e).
  - destruct (changeState_cases _ _ _ _ _ _ Hwf H) as [[u [=]]|[Hw Hb]].
    split; [done|]. by intros _; apply (Hb e).
  - destruct (changeOwner_cases _ _ _ _ _ _ _ _ _ Hwf H) as [[u [=]]|[Hw Hb]].
    split; [done|]. by intros _; apply (Hb e).
  - destruct (releaseAllLocks_cases _ _ _ _ Hwf H) as [[u [=]]|[Hw Hb]].
    split; [done|]. by intros _; apply (Hb e).
Qed.

(** ** The save file *)

(** What the file can hold, and a vector with two bytes behind it. *)
Record storable (t : TableLockInfo) : Prop := {
  st_oid : 0 <= tableOID t < 2 ^ 32;
  st_pid : 0 <= ownerPID t < 2 ^ 32;
  st_ses : int_range (ownerSessionID t);
  st_txn : int_range (ownerTxnID t);
  st_state : 0 <= tl_state t < 2 ^ 32;
  st_time : - 2 ^ 63 <= creationTime t < 2 ^ 63;
  st_name : Z.of_nat (length (ownerName t)) < 2 ^ 16;
  st_count : Z.of_nat (length (dbrootList t)) < 2 ^ 16;
  st_roots : Forall (fun r => 0 <= r < 2 ^ 16) (dbrootList t);
  st_room : dbrootList t <> [] -> is_Some (beyond (dbrootList t));
}.

Lemma of_le_app l1 l2 : of_le (l1 ++ l2) = of_le l1 + 256 ^ Z.of_nat (length l1) * of_le l2.
Proof.
  induction l1 as [|b l1 IH]; [cbn; lia|]. cbn [app of_le length]. rewrite IH.
  rewrite Nat2Z.inj_succ, Z.pow_succ_r by lia. lia.
Qed.

Lemma get_root_word r x rest : 0 <= r < 2 ^ 16 ->
  get_root (le_bytes 2 r ++ le_bytes 2 x ++ rest) = Some (r, rest).
Proof.
  intros Hr. unfold get_root, get_u32, get_u, mbind, reader_bind. rewrite app_assoc.
  rewrite get_bytes_app by (by rewrite length_app, !length_le_bytes).
  cbv [mret reader_ret]. do 2 f_equal. rewrite of_le_app, !of_le_bytes, length_le_bytes.
  change (8 * Z.of_nat 2) with 16. change (256 ^ Z.of_nat 2) with (2 ^ 16).
  unfold u16. rewrite (Z.mul_comm (2 ^ 16)), Z.mod_add, Z.mod_mod by lia. by apply Z.mod_small.
Qed.

Lemma get_root_words sp l rest : Forall (fun r => 0 <= r < 2 ^ 16) l ->
  get_list (length l) get_root (root_words sp (length l) l ++ rest) = Some (l, rest).
Proof.
  induction 1 as [|r l Hr Hl IH]; [done|]. cbn [length get_list root_words].
  rewrite <- !app_assoc. unfold mbind at 1, reader_bind at 1. rewrite get_root_word by done.
  unfold mbind at 1, reader_bind at 1. by rewrite IH.
Qed.

(** A record is read back, whatever the spare bytes were. *)
Lemma tli_write_read t : storable t -> exists bs, tli_write beyond t = Ret bs /\
  forall rest, tli_read beyond (bs ++ rest) = Ret (set_id (u64 (tl_id t)) t, rest).
Proof.
  intros [Hoid Hpid Hses Htxn Hst Htime Hname Hcnt Hroots Hroom]. unfold tli_write.
  rewrite !u16_id by lia. rewrite !Nat2Z.id.
  assert (Hsp : exists sp, (if decide (length (dbrootList t) = 0%nat \/
      length (dbrootList t) <> length (dbrootList t)) then Ret 0
    else match beyond (dbrootList t) with Some x => Ret x | None => UB OutOfBounds end) = Ret sp).
  { destruct (decide _) as [|Hn]; [by eexists|]. destruct Hroom as [x ->]; [|by eexists].
    intros E. rewrite E in Hn. cbn in Hn. lia. }
  destruct Hsp as [sp ->]. eexists. split; [reflexivity|]. intros rest.
  unfold tli_read.
  assert (E : get_tli_file ((file_fields t ++ le_bytes 2 (Z.of_nat (length (ownerName t))) ++
      take (length (ownerName t)) (ownerName t) ++ le_bytes 2 (Z.of_nat (length (dbrootList t))) ++
      root_words sp (length (dbrootList t)) (dbrootList t)) ++ rest)
    = Some (set_id (u64 (tl_id t)) t, rest)).
  { unfold file_fields. rewrite firstn_all. rewrite <- !app_assoc.
    unfold get_tli_file, mbind, reader_bind, int_range in *. autorewrite with brm.
    rewrite !u16_id, !Nat2Z.id by lia. rewrite get_bytes_app by done. autorewrite with brm.
    rewrite !u16_id, !Nat2Z.id by lia. rewrite get_root_words by done.
    rewrite !u32_id, !s32_id, s64_id by lia. by destruct t. }
  rewrite E. destruct t as [i oid name pid ses txn st time [|r roots]]; [done|].
  cbn [dbrootList set_id] in *. by destruct (Hroom ltac:(done)) as [x ->].
Qed.

Lemma records_some l : Forall (fun kv => storable kv.2) l -> exists bs, records beyond l = Ret bs.
Proof.
  induction 1 as [|[k t] l Ht Hl [bs IH]]; [by eexists|].
  destruct (tli_write_read t Ht) as (b & Hb & _). exists (b ++ bs).
  unfold records in *. cbn [collect snd]. rewrite Hb. cbn. by rewrite IH.
Qed.

(** Loading records gives the next ids, in order. *)
Lemma load_records l : Forall (fun kv => storable kv.2) l -> forall bs s u,
  records beyond l = Ret bs -> unique64 (sms s) = u -> 0 <= u -> u + Z.of_nat (length l) < 2 ^ 64 ->
  exists s', load_locks beyond (length l) bs s = (Ret tt, s') /\
    unique64 (sms s') = u + Z.of_nat (length l) /\
    forall k, locks s' !! k =
      if decide (u < k <= u + Z.of_nat (length l))
      then set_id k <$> l.*2 !! Z.to_nat (k - u - 1) else locks s !! k.
Proof.
  induction 1 as [|[k0 t] l Ht Hl IH]; intros bs s u Hbs Hu H0 Hmax.
  { exists s. split; [done|]. split; [cbn; lia|]. intros k. by rewrite decide_False by (cbn; lia). }
  destruct (tli_write_read t Ht) as (b & Hb & Hread). destruct (records_some l Hl) as [bs' Hbs'].
  assert (bs = b ++ bs') as ->.
  { unfold records in *. cbn [collect snd] in Hbs. rewrite Hb in Hbs. cbn in Hbs. rewrite Hbs' in Hbs.
    by injection Hbs. }
  cbn [length] in *. rewrite Nat2Z.inj_succ in *.
  assert (Hid : exists m, unique64 m = u + 1 /\
    new_id s = (Ret (u + 1), mkTLS (locks s) (saveFile s) m)).
  { unfold new_id, on_sms, zoom, getUnique64. unfold mbind at 1, prog_bind at 1.
    unfold mbind, prog_bind, modify, gets. cbn [unique64 set_counters sms].
    rewrite Hu, u64_id, decide_False by lia.
    eexists. split; [|reflexivity]. done. }
  destruct Hid as (m & Hm & Hid). cbn [load_locks].
  erewrite bind_Ret by (unfold reading; rewrite Hread; reflexivity). cbn [fst snd].
  erewrite bind_Ret by exact Hid. erewrite bind_Ret by reflexivity.
  set (s1 := set_locks _ _).
  destruct (IH bs' s1 (u + 1) Hbs') as (s' & Hrun & Hu' & Hl'); [exact Hm|lia|lia|].
  exists s'. split; [exact Hrun|]. split; [lia|]. intros k. rewrite Hl'.
  rewrite fmap_cons. cbn [s1 locks set_locks snd].
  destruct (decide (u + 1 < k <= u + 1 + Z.of_nat (length l))) as [Hk|Hk].
  - rewrite decide_True by lia.
    replace (Z.to_nat (k - u - 1)) with (S (Z.to_nat (k - (u + 1) - 1))) by lia. done.
  - destruct (decide (k = u + 1)) as [->|Hne].
    + rewrite lookup_insert_eq, decide_True by lia.
      replace (Z.to_nat (u + 1 - u - 1)) with 0%nat by lia. cbn. by destruct t.
    + rewrite lookup_insert_ne by done. by rewrite decide_False by lia.
Qed.

(** The locks of a server that was loaded exclude each other as before. *)
Lemma locks_loaded_wf s s2 n : tl_wf s -> 0 <= n < 2 ^ 64 -> unique64 (sms s2) = 0 + n ->
  (forall k, locks s2 !! k =
     if decide (0 < k <= 0 + n) then set_id k <$> (in_order (locks s)).*2 !! Z.to_nat (k - 1)
     else (∅ : gmap Z TableLockInfo) !! k) ->
  tl_wf s2.
Proof.
  intros Hwf Hn Hu Hl.
  assert (Hfrom : forall k t, locks s2 !! k = Some t -> 0 < k <= n /\ exists i x,
    in_order (locks s) !! Z.to_nat (k - 1) = Some (i, x) /\ locks s !! i = Some x /\ t = set_id k x).
  { intros k t Ht. rewrite Hl in Ht. destruct (decide _) as [Hk|Hk]; [|by rewrite lookup_empty in Ht].
    split; [lia|]. apply fmap_Some in Ht as (x & Hx & ->).
    apply list_lookup_fmap_Some in Hx as ([i y] & -> & Hy). exists i, y.
    split; [done|]. split; [|done]. apply elem_of_in_order. by eapply list_elem_of_lookup_2. }
  split.
  - intros i t Ht. by destruct (Hfrom _ _ Ht) as (_ & j & x & _ & _ & ->).
  - intros i t Ht. destruct (Hfrom _ _ Ht) as (Hi & _). lia.
  - lia.
  - intros i j a b Ha Hb Hne.
    destruct (Hfrom _ _ Ha) as (Hi & i' & x & Hx & Hx' & ->).
    destruct (Hfrom _ _ Hb) as (Hj & j' & y & Hy & Hy' & ->).
    assert (Hne' : i' <> j').
    { intros ->. assert (Z.to_nat (i - 1) = Z.to_nat (j - 1)) by (by eapply in_order_key_inj). lia. }
    exact (tl_excl _ Hwf _ _ _ _ Hx' Hy' Hne').
Qed.

(** ** Properties *)

(** C32: After any history of requests to the table lock server, no two locks on
    the same table share a DBRoot, and a request that failed has left the locks as
    they were. *)
Theorem tl_exclusive s s1 ok s2 : tl_wf s -> tl_run s s1 -> tl_step s1 ok s2 ->
  (forall i j a b, locks s2 !! i = Some a -> locks s2 !! j = Some b -> i <> j -> ~ conflict a b) /\
  (ok = false -> locks s2 = locks s1).
Proof.
  intros Hwf Hrun Hst.
  assert (Hwf1 : tl_wf s1).
  { clear Hst. induction Hrun as [|s1' ok' s2' Hrun IH Hst']; [done|].
    by destruct (tl_step_wf _ _ _ IH Hst'). }
  destruct (tl_step_wf _ _ _ Hwf1 Hst) as [Hwf2 Hback]. split; [|done]. apply (tl_excl _ Hwf2).
Qed.

(** A save of [n] locks that fails so that [save] notices: the file cannot be opened,
    or the stream is bad before a record is written. *)
Definition noticed (o : save_outcome) (n : nat) : Prop :=
  match o with Saved => False | OpenFails => True | Breaks i _ => (i < n)%nat end.
#[global] Instance noticed_dec o n : Decision (noticed o n).
Proof. destruct o; cbn [noticed]; apply _. Defined.

Lemma save_run o s : (forall i t, locks s !! i = Some t -> storable t) ->
  exists s', save beyond o s = (if decide (noticed o (base.size (locks s))) then Throw RuntimeError else Ret tt, s').
Proof.
  intros Hall. rewrite <- length_in_order.
  assert (Hrec : forall n, exists bs, records beyond (take n (in_order (locks s))) = Ret bs).
  { intros n. apply records_some, Forall_take, Forall_forall. intros [k t] Hin%elem_of_in_order. by eapply Hall. }
  unfold save. erewrite bind_Ret by reflexivity. destruct o as [| |i kept]; cbn [noticed].
  - destruct (Hrec (length (in_order (locks s)))) as [bs Hbs]. rewrite firstn_all in Hbs.
    eexists. erewrite bind_reading by exact Hbs. reflexivity.
  - by eexists.
  - destruct (Hrec i) as [bs Hbs]. eexists. erewrite bind_reading by exact Hbs. erewrite bind_Ret by reflexivity.
    repeat case_decide; done.
Qed.

(** C33: A lock is granted exactly when it is in the way of no other and the save
    of the locks is not seen to fail: when a lock is in the way, the answer is zero and the
    owner of that lock; when the file cannot be opened, or the stream goes bad before the
    last record is begun, the request throws and grants nothing; in all other cases, a
    write that fails in the last record or when the file is closed included, the lock is
    granted under a new number. *)
Theorem tl_lock_grants s tli : tl_wf s -> ids_left s -> storable tli ->
  (forall i t, locks s !! i = Some t -> storable t) ->
  let i := unique64 (sms s) + 1 in
  (exists k t, locks s !! k = Some t /\ conflict t tli /\
     forall o, lock beyond tli o s = (Ret (0, in_way t tli), s)) \/
  ((forall k t, locks s !! k = Some t -> ~ conflict t tli) /\
   forall o, exists s',
     if decide (noticed o (S (base.size (locks s))))
     then lock beyond tli o s = (Throw RuntimeError, s') /\ locks s' = locks s
     else lock beyond tli o s = (Ret (i, set_id i tli), s') /\ locks s' = <[i := set_id i tli]> (locks s)).
Proof.
  intros Hwf Hids Htli Hall i.
  destruct (first_in (fun t => overlaps t tli (list_to_set (dbrootList tli))) (locks s))
    as [[k t]|] eqn:E.
  - left. destruct (first_in_Some _ _ _ _ E) as [Hk Hc%overlaps_conflict]. exists k, t.
    split; [done|]. split; [done|]. intros o. unfold lock. erewrite bind_Ret by reflexivity.
    cbv zeta. by rewrite E.
  - right. split.
    { intros k t Hk Hc%overlaps_conflict.
      pose proof (proj1 (first_in_None _ _) E _ _ Hk) as H. cbn in H. congruence. }
    intros o. destruct (new_id_run s Hwf Hids) as (m & Hm & Hid). fold i in Hid.
    pose proof (fresh_id s Hwf) as Hfresh. fold i in Hfresh.
    set (s1 := set_locks (<[i := set_id i tli]> (locks s)) (mkTLS (locks s) (saveFile s) m)).
    destruct (save_run o s1) as [s' Hs].
    { cbn [s1 locks set_locks]. intros k t [[_ <-]|[_ Hk]]%lookup_insert_Some; [by destruct Htli|by eapply Hall]. }
    destruct (save_keeps o s1 _ s' Hs) as [Hl _]. cbn [s1 locks set_locks] in Hs, Hl.
    rewrite map_size_insert_None in Hs by done.
    assert (Hlock : lock beyond tli o s = ((try_catch (save beyond o)
      (fun e => modify (fun s => set_locks (delete i (locks s)) s);; throw e);; mret (i, set_id i tli)) s1)).
    { unfold lock. erewrite bind_Ret by reflexivity. cbv zeta. rewrite E.
      erewrite bind_Ret by exact Hid. by erewrite bind_Ret by reflexivity. }
    rewrite Hlock. unfold try_catch, mbind, prog_bind. fold s1 in Hs. rewrite Hs.
    case_decide; eexists; (split; [reflexivity|]); cbn [locks set_locks]; rewrite Hl; [|done].
    by apply delete_insert_id.
Qed.

(** A restart finds every lock that was saved, in the same order and
    numbered from one, and the locks still exclude each other. *)
Theorem tl_restart s sm : tl_wf s -> (forall i t, locks s !! i = Some t -> storable t) ->
  unique64 sm = 0 -> Z.of_nat (base.size (locks s)) < 2 ^ 32 ->
  exists s1 s2, save beyond Saved s = (Ret tt, s1) /\
    start_TableLockServer beyond (saveFile s1) sm = (Ret tt, s2) /\ tl_wf s2 /\
    forall k, locks s2 !! k =
      if decide (1 <= k <= Z.of_nat (base.size (locks s)))
      then set_id k <$> getAllLocks s !! Z.to_nat (k - 1) else None.
Proof.
  intros Hwf Hall Hu Hsz.
  assert (Hst : Forall (fun kv => storable kv.2) (in_order (locks s))).
  { apply Forall_forall. intros [k t] Hin%elem_of_in_order. by eapply Hall. }
  destruct (records_some _ Hst) as [bs Hbs].
  destruct (load_records _ Hst bs
    (mkTLS ∅ (Some (le_bytes 4 (Z.of_nat (length (in_order (locks s)))) ++ bs)) sm) 0 Hbs)
    as (s2 & Hrun & Hu2 & Hl2); [done|lia|rewrite length_in_order; lia|].
  eexists _, s2. split; [|split; [|split]].
  - unfold save, mbind, prog_bind, gets, reading. rewrite Hbs. reflexivity.
  - unfold start_TableLockServer, load. erewrite bind_Ret by reflexivity.
    cbn [saveFile set_saveFile]. rewrite get_u32_le, u32_id by (rewrite length_in_order; lia).
    rewrite Nat2Z.id. exact Hrun.
  - apply (locks_loaded_wf s s2 (Z.of_nat (base.size (locks s)))); [done|lia| |].
    + by rewrite Hu2, length_in_order.
    + intros k. rewrite Hl2, length_in_order, Z.sub_0_r. done.
  - intros k. rewrite Hl2, length_in_order.
    destruct (decide _) as [Hk|Hk]; [rewrite decide_True by lia|by rewrite decide_False by lia].
    by rewrite Z.sub_0_r.
Qed.

End Proofs.

(** A record of the last root takes in the two bytes behind the vector: when
    the allocator's block ends with the vector, saving a lock on it is
    undefined, and so is every call that changes a lock. *)
Theorem tl_save_overrun (beyond : list Z -> option Z) s i t : locks s !! i = Some t ->
  dbrootList t <> [] -> Z.of_nat (length (dbrootList t)) < 2 ^ 16 -> beyond (dbrootList t) = None ->
  (forall j x, locks s !! j = Some x -> j <> i -> storable beyond x) ->
  fst (save beyond Saved s) = UB OutOfBounds.
Proof.
  intros Hi Hne Hlen Hb Hall.
  assert (Hw : tli_write beyond t = UB OutOfBounds).
  { unfold tli_write. rewrite !(u16_id (Z.of_nat (length (dbrootList t)))) by lia. rewrite Nat2Z.id.
    rewrite decide_False by (destruct (dbrootList t); cbn; [done|lia]). by rewrite Hb. }
  assert (Hrec : forall l, (i, t) ∈ l -> (forall j x, (j, x) ∈ l -> locks s !! j = Some x) ->
    records beyond l = UB OutOfBounds).
  { induction l as [|[j x] l IH]; intros Hin Hl; [by apply not_elem_of_nil in Hin|].
    unfold records in *. cbn [collect snd].
    destruct (decide (j = i)) as [->|Hji].
    - assert (Some x = Some t) as [= ->] by (rewrite <- Hi; symmetry; apply Hl; left). by rewrite Hw.
    - destruct (tli_write_read beyond x) as (b & -> & _).
      { eapply Hall; [|exact Hji]. apply Hl. left. }
      cbn. rewrite IH; [done| |].
      + apply elem_of_cons in Hin as [[= <- <-]|Hin]; done.
      + intros k y Hy. apply Hl. by right. }
  unfold save, mbind, prog_bind, gets, reading.
  rewrite Hrec; [done| |]; intros; by apply elem_of_in_order.
Qed.

(** Blocks with room for two more bytes. *)
Definition roomy (_ : list Z) : option Z := Some 77.
Definition demo_lock (oid : Z) (roots : list Z) : TableLockInfo :=
  mkTLI 0 oid [99; 112; 105] 1234 5 6 LOADING 1400000000 roots.
Definition demo_tls : TableLockServer := mkTLS ∅ None demo_sm.
(** Table 3000 is locked on DBRoots 1 and 2. *)
Definition demo_tls1 : TableLockServer := snd (lock roomy (demo_lock 3000 [1; 2]) Saved demo_tls).

Lemma demo_tls_wf : tl_wf demo_tls.
Proof. split; cbn [locks demo_tls]; [done|done|vm_compute; split; congruence|done]. Qed.

Lemma demo_lock_storable oid roots : 0 <= oid < 2 ^ 32 -> Z.of_nat (length roots) < 2 ^ 16 ->
  Forall (fun r => 0 <= r < 2 ^ 16) roots -> storable roomy (demo_lock oid roots).
Proof.
  intros Hoid Hlen Hr. split; cbn [demo_lock tableOID ownerPID ownerSessionID ownerTxnID tl_state
    creationTime ownerName dbrootList length]; unfold int_range, LOADING; try lia; try done.
Qed.

Lemma demo_tls1_locks : locks demo_tls1 = {[ 1 := set_id 1 (demo_lock 3000 [1; 2]) ]}.
Proof. vm_compute. reflexivity. Qed.

Lemma tl_exclusive_witness :
  let s2 := snd (lock roomy (demo_lock 3000 [3]) OpenFails demo_tls1) in
  locks s2 = locks demo_tls1 /\
  (forall i j a b, locks s2 !! i = Some a -> locks s2 !! j = Some b -> i <> j -> ~ conflict a b).
Proof.
  cbv zeta.
  assert (Hrun : tl_run roomy demo_tls demo_tls1).
  { eapply tl_run_step; [constructor|].
    eapply (step_lock _ _ (demo_lock 3000 [1; 2]) Saved); [vm_compute; reflexivity|].
    vm_compute. reflexivity. }
  assert (Hst : tl_step roomy demo_tls1 false (snd (lock roomy (demo_lock 3000 [3]) OpenFails demo_tls1))).
  { eapply (fail_lock _ _ (demo_lock 3000 [3]) OpenFails RuntimeError); [vm_compute; reflexivity|].
    vm_compute. reflexivity. }
  destruct (tl_exclusive roomy demo_tls demo_tls1 false _ demo_tls_wf Hrun Hst) as [He Hb].
  split; [by apply Hb|exact He].
Defined.

Lemma demo_tls1_wf : tl_wf demo_tls1.
Proof.
  split; rewrite ?demo_tls1_locks.
  - by intros i t [<- <-]%lookup_singleton_Some.
  - intros i t [<- <-]%lookup_singleton_Some. vm_compute. split; congruence.
  - vm_compute. split; congruence.
  - intros i j a b [<- _]%lookup_singleton_Some [<- _]%lookup_singleton_Some. done.
Qed.

Lemma demo_tls1_storable i t : locks demo_tls1 !! i = Some t -> storable roomy t.
Proof.
  rewrite demo_tls1_locks. intros [<- <-]%lookup_singleton_Some.
  destruct (demo_lock_storable 3000 [1; 2]); [lia|cbn; lia|repeat constructor; lia|]. by split.
Qed.

(** A request on DBRoot 3 is granted, also when its record, the second, is not
    written; it is not when the first one is not.  One on DBRoot 2 is refused. *)
Lemma tl_lock_grants_witness :
  (exists s', lock roomy (demo_lock 3000 [3]) Saved demo_tls1 = (Ret (2, set_id 2 (demo_lock 3000 [3])), s')) /\
  (exists s', lock roomy (demo_lock 3000 [3]) (Breaks 2 []) demo_tls1 = (Ret (2, set_id 2 (demo_lock 3000 [3])), s')) /\
  (exists s', lock roomy (demo_lock 3000 [3]) (Breaks 1 []) demo_tls1 = (Throw RuntimeError, s') /\
     locks s' = locks demo_tls1) /\
  lock roomy (demo_lock 3000 [4; 2]) Saved demo_tls1 =
    (Ret (0, in_way (demo_lock 3000 [1; 2]) (demo_lock 3000 [4; 2])), demo_tls1).
Proof.
  destruct (tl_lock_grants roomy demo_tls1 (demo_lock 3000 [3]) demo_tls1_wf)
    as [(k & t & Hk & [_ (r & Hr & Hr')] & _)|(_ & H)].
  - vm_compute. reflexivity.
  - apply demo_lock_storable; [lia|cbn; lia|repeat constructor; lia].
  - apply demo_tls1_storable.
  - exfalso. rewrite demo_tls1_locks in Hk. apply lookup_singleton_Some in Hk as [<- <-].
    cbn in Hr, Hr'. apply list_elem_of_singleton in Hr'. subst r.
    apply elem_of_cons in Hr as [|Hr%list_elem_of_singleton]; lia.
  - rewrite demo_tls1_locks, map_size_singleton in H. split_and!.
    + destruct (H Saved) as [s' Hs]. exists s'. exact (proj1 Hs).
    + destruct (H (Breaks 2 [])) as [s' Hs]. exists s'. exact (proj1 Hs).
    + destruct (H (Breaks 1 [])) as [s' Hs]. exists s'. rewrite demo_tls1_locks. exact Hs.
    + vm_compute. reflexivity.
Defined.

(** A lock can be granted that is in no file: the disk is full, the stream holds the
    records back until the file is closed, and nobody looks then. *)
Theorem tl_lock_unsaved : exists s',
  lock roomy (demo_lock 3000 [1; 2]) (Breaks 1 []) demo_tls = (Ret (1, set_id 1 (demo_lock 3000 [1; 2])), s') /\
  locks s' = {[1 := set_id 1 (demo_lock 3000 [1; 2])]} /\ saveFile s' = Some [] /\
  fst (start_TableLockServer roomy (saveFile s') demo_sm) = Throw IosFailure.
Proof. eexists. split; [vm_compute; reflexivity|]. split; [vm_compute; reflexivity|]. split; reflexivity. Qed.

Lemma tl_restart_witness :
  exists s1 s2, save roomy Saved demo_tls1 = (Ret tt, s1) /\
    start_TableLockServer roomy (saveFile s1) demo_sm = (Ret tt, s2) /\
    locks s2 !! 1 = Some (set_id 1 (demo_lock 3000 [1; 2])).
Proof.
  destruct (tl_restart roomy demo_tls1 demo_sm demo_tls1_wf demo_tls1_storable)
    as (s1 & s2 & H1 & H2 & _ & H); [vm_compute; reflexivity|vm_compute; reflexivity|].
  exists s1, s2. split; [exact H1|]. split; [exact H2|]. rewrite H. vm_compute. reflexivity.
Defined.
