(* ===== verification/Requests.v ===== *)
(** * The controller's own requests: src/versioning/BRM/masterdbrmnode.cpp

    Requests to the session manager, the OID server, the table lock server and
    the autoincrement manager do not go to the workers: a handler unpacks the
    message, calls the server and packs the reply. *)
From Stdlib Require Import ZArith Lia.
From S2P Require Import Prelude Bytes StdMap VSS AutoIncrement SessionManager OidServer TableLocks.

Local Open Scope Z_scope.

(** ** Message codes, brmtypes.h *)
Definition VER_ID : Z := 45.
Definition NEW_TXN_ID : Z := 46.
Definition COMMITTED : Z := 47.
Definition ROLLED_BACK : Z := 48.
Definition GET_TXN_ID : Z := 49.
Definition SID_TID_MAP : Z := 50.
Definition SM_RESET : Z := 51.
Definition GET_UNIQUE_UINT32 : Z := 52.
Definition SYSCAT_VER_ID : Z := 53.
Definition GET_SYSTEM_STATE : Z := 54.
Definition SET_SYSTEM_STATE : Z := 55.
Definition GET_UNIQUE_UINT64 : Z := 56.
Definition CLEAR_SYSTEM_STATE : Z := 57.
Definition ALLOC_OIDS : Z := 60.
Definition RETURN_OIDS : Z := 61.
Definition OIDM_SIZE : Z := 62.
Definition GET_TABLE_LOCK : Z := 70.
Definition RELEASE_TABLE_LOCK : Z := 71.
Definition CHANGE_TABLE_LOCK_STATE : Z := 72.
Definition CHANGE_TABLE_LOCK_OWNER : Z := 73.
Definition GET_ALL_TABLE_LOCKS : Z := 74.
Definition RELEASE_ALL_TABLE_LOCKS : Z := 75.
Definition GET_TABLE_LOCK_INFO : Z := 76.
Definition OWNER_CHECK : Z := 77.
Definition START_AI_SEQUENCE : Z := 80.
Definition GET_AI_RANGE : Z := 81.
Definition RESET_AI_SEQUENCE : Z := 82.
Definition GET_AI_LOCK : Z := 83.
Definition RELEASE_AI_LOCK : Z := 84.
Definition DELETE_AI_SEQUENCE : Z := 85.

(** ** State *)

(** [MasterDBRMNode]'s [tableLockServer], which has a pointer to [sm], [oids]
    and [aiManager]. *)
Record servers := mkServers {
  tls : TableLockServer;
  oids : OIDServer;
  aiManager : AutoincrementManager;
}.
Definition on_tls {A} (p : prog TableLockServer A) : prog servers A :=
  zoom tls (fun t s => mkServers t (oids s) (aiManager s)) p.
Definition on_sm {A} (p : prog SessionManager A) : prog servers A := on_tls (on_sms p).
Definition on_oids {A} (p : prog OIDServer A) : prog servers A :=
  zoom oids (fun o s => mkServers (tls s) o (aiManager s)) p.
Definition on_ai {A} (p : prog AutoincrementManager A) : prog servers A :=
  zoom aiManager (fun a s => mkServers (tls s) (oids s) a) p.
Definition the_sm (s : servers) : SessionManager := sms (tls s).

(** What the world does during a request: to the files, to the lock of a
    sequence, and what the workers answer about the owner of a lock ([None]
    when one of them does not). *)
Record io := mkIo {
  io_sm : write_outcome;
  io_tl : save_outcome;
  io_seeks : nat;
  io_outs : list io_result;
  io_tries : list bool;
  io_owner : list Z -> Z -> option bool;
}.

(** ** Messages *)

(** [msg >> ...]; with [whole], followed by [erydbassert(msg.length() == 0)]. *)
Definition unpack {S A} (whole : bool) (r : reader A) (msg : list Z) : prog S A :=
  match r msg with
  | None => throw RuntimeError
  | Some (a, rest) => erydbassert (negb whole || bool_decide (rest = []));; mret a
  end.

(** Objects with a vector at their end: one that is longer than the message is
    copied from behind it. *)
Definition unpack_vector {S A} (whole : bool) (r : reader A) (head : reader Z) (msg : list Z) :
    prog S A :=
  match r msg, head msg with
  | None, Some _ => undefined OutOfBounds
  | _, _ => unpack whole r msg
  end.

Definition put_string (s : list Z) : list Z := le_bytes 4 (Z.of_nat (length s)) ++ s.
Definition put_bool (b : bool) : list Z := le_bytes 1 (if b then 1 else 0).
Definition get_flag : reader bool := x ← get_u 1; mret (negb (bool_decide (x = 0))).

(** [QueryContext] *)
Definition qc_serialize (q : QueryContext) : list Z :=
  le_bytes 4 (qc_currentScn q) ++ le_bytes 8 (Z.of_nat (length (qc_currentTxns q))) ++
  (qc_currentTxns q ≫= le_bytes 4).
Definition qc_head : reader Z := get_s32;; get_u64.
Definition qc_deserialize : reader QueryContext :=
  scn ← get_s32; n ← get_u64; l ← get_list (Z.to_nat n) get_s32; mret (mkQC scn l).

Definition tli_head : reader Z :=
  get_u64;; get_u32;; get_string;; get_u32;; get_s32;; get_s32;; get_u 1;; get_s64;; get_u64.

Definition put_txn (t : TxnID) : list Z := le_bytes 4 (txn_id t) ++ put_bool (txn_valid t).
Definition get_txn : reader TxnID := i ← get_s32; v ← get_flag; mret (mkTxn i v).

(** The code of a request. *)
Definition get_cmd : reader Z := get_u 1.

Definition ok (r : list Z) : list Z := le_bytes 1 0 ++ r.
Definition failure : list Z := le_bytes 1 1.

(** [try { p } catch (exception&)], the reply then being [ERR_FAILURE]. *)
Definition or_failure (p : prog servers (list Z)) : prog servers (list Z) :=
  try_catch p (fun e => if decide (e = WouldBlock) then throw e else mret failure).

Section Handlers.
Context (beyond : list Z -> option Z).
Implicit Types (i : io) (msg : list Z).

(** ** Session manager *)

Definition doVerID i msg : prog servers (list Z) :=
  q ← gets (fun s => verID (the_sm s)); mret (ok (qc_serialize q)).
Definition doSysCatVerID i msg : prog servers (list Z) :=
  q ← gets (fun s => sysCatVerID (the_sm s)); mret (ok (qc_serialize q)).

Definition doNewTxnID i msg : prog servers (list Z) :=
  or_failure
    ('(session, block, isDDL) ← unpack false
       (get_cmd;; s ← get_u32; b ← get_flag; d ← get_flag; mret (s, b, d)) msg;
     txnid ← on_sm (newTxnID session block isDDL (io_sm i));
     mret (ok (put_txn txnid))).

(** [doCommitted] and [doRolledBack]; [committed] and [rolledback] are the same. *)
Definition doCommitted i msg : prog servers (list Z) :=
  or_failure
    (txnid ← unpack false (get_cmd;; get_txn) msg;
     on_sm (finishTransaction txnid);;
     mret (ok [])).
Definition doRolledBack i msg : prog servers (list Z) :=
  or_failure
    (txnid ← unpack false (get_cmd;; get_txn) msg;
     on_sm (finishTransaction txnid);;
     mret (ok [])).

Definition doGetTxnID i msg : prog servers (list Z) :=
  or_failure
    (sid ← unpack false (get_cmd;; get_u32) msg;
     txnid ← gets (fun s => getTxnID sid (the_sm s));
     mret (ok (put_txn txnid))).

Definition doSIDTIDMap i msg : prog servers (list Z) :=
  entries ← gets (fun s => SIDTIDMap (the_sm s));
  mret (ok (le_bytes 4 (Z.of_nat (length entries)) ++
            (entries ≫= fun e => put_txn e.2 ++ le_bytes 4 e.1))).

Definition doGetUniqueUint32 i msg : prog servers (list Z) :=
  or_failure (n ← on_sm getUnique32; mret (ok (le_bytes 4 n))).
Definition doGetUniqueUint64 i msg : prog servers (list Z) :=
  or_failure (n ← on_sm getUnique64; mret (ok (le_bytes 8 n))).

Definition doGetSystemState i msg : prog servers (list Z) :=
  or_failure (ss ← gets (fun s => getSystemState (the_sm s)); mret (ok (le_bytes 4 ss))).
Definition doSetSystemState i msg : prog servers (list Z) :=
  or_failure
    (ss ← unpack false (get_cmd;; get_u32) msg;
     on_sm (setSystemState ss (io_sm i));; mret (ok [])).
Definition doClearSystemState i msg : prog servers (list Z) :=
  or_failure
    (ss ← unpack false (get_cmd;; get_u32) msg;
     on_sm (clearSystemState ss (io_sm i));; mret (ok [])).
Definition doSessionManagerReset i msg : prog servers (list Z) :=
  or_failure (on_sm sm_reset;; mret (ok [])).

(** ** Object ids *)

Definition doAllocOIDs i msg : prog servers (list Z) :=
  or_failure
    (num ← unpack false (get_cmd;; get_s32) msg;
     ret ← on_oids (allocOIDs num (io_seeks i) (io_outs i));
     mret (ok (le_bytes 4 ret))).
Definition doReturnOIDs i msg : prog servers (list Z) :=
  or_failure
    ('(a, b) ← unpack false (get_cmd;; a ← get_s32; b ← get_s32; mret (a, b)) msg;
     on_oids (returnOIDs a b);; mret (ok [])).
Definition doOidmSize i msg : prog servers (list Z) :=
  or_failure (n ← gets (fun s => oid_size (oids s)); mret (ok (le_bytes 4 n))).

(** ** Table locks *)

Definition doGetTableLock i msg : prog servers (list Z) :=
  or_failure
    (tli ← unpack_vector true (get_cmd;; tli_deserialize) (get_cmd;; tli_head) msg;
     '(id, tli) ← on_tls (lock beyond tli (io_tl i));
     mret (ok (le_bytes 8 id ++
       if decide (id = 0)
       then le_bytes 4 (ownerPID tli) ++ put_string (ownerName tli) ++
            le_bytes 4 (ownerSessionID tli) ++ le_bytes 4 (ownerTxnID tli)
       else []))).

Definition doReleaseTableLock i msg : prog servers (list Z) :=
  or_failure
    (id ← unpack true (get_cmd;; get_u64) msg;
     ret ← on_tls (unlock beyond id (io_tl i));
     mret (ok (put_bool ret))).

Definition doChangeTableLockState i msg : prog servers (list Z) :=
  or_failure
    ('(id, state) ← unpack true (get_cmd;; id ← get_u64; st ← get_u32; mret (id, st)) msg;
     ret ← on_tls (changeState beyond id state (io_tl i));
     mret (ok (put_bool ret))).

(** The name of the owner's process ends at the first blank. *)
Fixpoint process_name (name : list Z) : list Z :=
  match name with
  | [] => []
  | c :: name' => if decide (c = 32) then [] else c :: process_name name'
  end.

Definition doChangeTableLockOwner i msg : prog servers (list Z) :=
  or_failure
    ('(id, name, pid, sessionID, txnID) ← unpack true
       (get_cmd;; id ← get_u64; name ← get_string; pid ← get_u32; ses ← get_s32; txn ← get_s32;
        mret (id, name, pid, ses, txn)) msg;
     cur ← gets (fun s => getLockInfo id true (tls s));
     match cur with
     | (true, Some tli) =>
         match io_owner i (process_name (ownerName tli)) (ownerPID tli) with
         | None => mret failure
         | Some true => mret (ok (put_bool false))
         | Some false =>
             ret ← on_tls (changeOwner beyond id name pid sessionID txnID (io_tl i));
             mret (ok (put_bool ret))
         end
     | _ => mret (ok (put_bool false))
     end).

Definition doGetAllTableLocks i msg : prog servers (list Z) :=
  or_failure
    (unpack true get_cmd msg;;
     ret ← gets (fun s => getAllLocks (tls s));
     mret (ok (le_bytes 8 (Z.of_nat (length ret)) ++ (ret ≫= tli_serialize)))).

Definition doReleaseAllTableLocks i msg : prog servers (list Z) :=
  or_failure
    (unpack true get_cmd msg;;
     on_tls (releaseAllLocks beyond (io_tl i));; mret (ok [])).

Definition doGetTableLockInfo i msg : prog servers (list Z) :=
  or_failure
    (id ← unpack true (get_cmd;; get_u64) msg;
     cur ← gets (fun s => getLockInfo id true (tls s));
     match cur with
     | (true, Some tli) => mret (ok (put_bool true ++ tli_serialize tli))
     | (ret, _) => mret (ok (put_bool ret))
     end).

Definition doOwnerCheck i msg : prog servers (list Z) :=
  or_failure
    (id ← unpack true (get_cmd;; get_u64) msg;
     cur ← gets (fun s => getLockInfo id true (tls s));
     match cur with
     | (true, Some tli) =>
         match io_owner i (process_name (ownerName tli)) (ownerPID tli) with
         | None => mret failure
         | Some exists_ => mret (ok (put_bool exists_))
         end
     | (ret, _) => mret (ok (put_bool ret))
     end).

(** ** Autoincrement sequences *)

Definition doStartAISequence i msg : prog servers (list Z) :=
  or_failure
    ('(oid, firstNum, colWidth, ty) ← unpack true
       (get_cmd;; o ← get_u32; f ← get_u64; w ← get_u32; t ← get_u 1; mret (o, f, w, t)) msg;
     on_ai (startSequence oid firstNum colWidth ty);; mret (ok [])).

(** Without a range [nextVal] is what the stack holds: it is not read. *)
Definition doGetAIRange i msg : prog servers (list Z) :=
  or_failure
    ('(oid, count) ← unpack true (get_cmd;; o ← get_u32; c ← get_u32; mret (o, c)) msg;
     ret ← on_ai (getAIRange oid count);
     mret (ok (put_bool (bool_decide (is_Some ret)) ++ le_bytes 8 (default 0 ret)))).

Definition doResetAISequence i msg : prog servers (list Z) :=
  or_failure
    ('(oid, val) ← unpack true (get_cmd;; o ← get_u32; v ← get_u64; mret (o, v)) msg;
     on_ai (resetSequence oid val);; mret (ok [])).
Definition doGetAILock i msg : prog servers (list Z) :=
  or_failure
    (oid ← unpack true (get_cmd;; get_u32) msg;
     on_ai (ai_getLock oid (io_tries i));; mret (ok [])).
Definition doReleaseAILock i msg : prog servers (list Z) :=
  or_failure
    (oid ← unpack true (get_cmd;; get_u32) msg;
     on_ai (ai_releaseLock oid);; mret (ok [])).
Definition doDeleteAISequence i msg : prog servers (list Z) :=
  or_failure
    (oid ← unpack true (get_cmd;; get_u32) msg;
     on_ai (deleteSequence oid);; mret (ok [])).

(** ** The switch of [msgProcessor] *)

Definition handlers : list (Z * (io -> list Z -> prog servers (list Z))) :=
  [(VER_ID, doVerID); (SYSCAT_VER_ID, doSysCatVerID); (NEW_TXN_ID, doNewTxnID);
   (COMMITTED, doCommitted); (ROLLED_BACK, doRolledBack); (GET_TXN_ID, doGetTxnID);
   (SID_TID_MAP, doSIDTIDMap); (GET_UNIQUE_UINT32, doGetUniqueUint32);
   (GET_UNIQUE_UINT64, doGetUniqueUint64); (GET_SYSTEM_STATE, doGetSystemState);
   (SET_SYSTEM_STATE, doSetSystemState); (CLEAR_SYSTEM_STATE, doClearSystemState);
   (SM_RESET, doSessionManagerReset);
   (GET_TABLE_LOCK, doGetTableLock); (RELEASE_TABLE_LOCK, doReleaseTableLock);
   (CHANGE_TABLE_LOCK_STATE, doChangeTableLockState);
   (CHANGE_TABLE_LOCK_OWNER, doChangeTableLockOwner);
   (GET_ALL_TABLE_LOCKS, doGetAllTableLocks); (RELEASE_ALL_TABLE_LOCKS, doReleaseAllTableLocks);
   (GET_TABLE_LOCK_INFO, doGetTableLockInfo); (OWNER_CHECK, doOwnerCheck);
   (ALLOC_OIDS, doAllocOIDs); (RETURN_OIDS, doReturnOIDs); (OIDM_SIZE, doOidmSize);
   (START_AI_SEQUENCE, doStartAISequence); (GET_AI_RANGE, doGetAIRange);
   (RESET_AI_SEQUENCE, doResetAISequence); (GET_AI_LOCK, doGetAILock);
   (RELEASE_AI_LOCK, doReleaseAILock); (DELETE_AI_SEQUENCE, doDeleteAISequence)].

Definition handler_of (cmd : Z) : option (io -> list Z -> prog servers (list Z)) :=
  '(_, (_, h)) ← list_find (fun h => h.1 = cmd) handlers; Some h.

(** The reply to a request; [None] is for the workers. *)
Definition serve i msg : option (prog servers (list Z)) :=
  h ← handler_of (default 0 (head msg)); Some (h i msg).

End Handlers.
