(* ===== verification/Dbrm.v ===== *)
(** * The client's side of the requests: src/versioning/BRM/dbrm.cpp

    [DBRM] packs a call into a message, sends it to the controller and unpacks
    the reply.  A connection that fails is made again once, and the message is
    sent again. *)
From Stdlib Require Import ZArith Lia.
From S2P Require Import Prelude Bytes StdMap VSS AutoIncrement SessionManager OidServer TableLocks Requests.

Local Open Scope Z_scope.

Section Client.
Context (beyond : list Z -> option Z).

(** ** The connection *)

(** An attempt to send a message and to get the reply: there is no connection;
    the message cannot be sent; the controller gets it, but the reply does not
    arrive (or is empty, when the controller closes the connection); or all
    works. *)
Inductive attempt_ :=
  | NoConnection
  | NotSent
  | ReplyLost (i : io)
  | Answered (i : io).

(** The controller serves the message; one it does not know goes to the
    workers, which is not part of this model. *)
Definition served (i : io) (msg : list Z) : prog servers (list Z) :=
  default (mret []) (serve beyond i msg).

(** [send_recv]: [None] is [ERR_NETWORK]. *)
Definition send_recv (first second : attempt_) (msg : list Z) : prog servers (option (list Z)) :=
  let again : prog servers (option (list Z)) :=
    match second with
    | NoConnection | NotSent => mret None
    | ReplyLost i => served i msg;; mret None
    | Answered i => out ← served i msg; mret (if decide (out = []) then None else Some out)
    end in
  match first with
  | NoConnection => mret None
  | NotSent => again
  | ReplyLost i => served i msg;; again
  | Answered i => out ← served i msg; if decide (out = []) then again else mret (Some out)
  end.

Context (a1 a2 : attempt_).
Implicit Types (msg : list Z).

Definition send (code : Z) (args : list Z) : prog servers (option (list Z)) :=
  send_recv a1 a2 (le_bytes 1 code ++ args).

(** ** Session manager *)

(** [verID] and [sysCatVerID]: in an error the number is -1.  The error code of
    the reply is not looked at. *)
Definition dbrm_context (code : Z) : prog servers QueryContext :=
  response ← send code [];
  match response with
  | None => mret (mkQC (-1) [])
  | Some r =>
      try_catch (unpack_vector false (get_u 1;; qc_deserialize) (get_u 1;; qc_head) r)
        (fun _ => mret (mkQC (-1) []))
  end.
Definition dbrm_verID : prog servers QueryContext := dbrm_context VER_ID.
Definition dbrm_sysCatVerID : prog servers QueryContext := dbrm_context SYSCAT_VER_ID.

Definition dbrm_newTxnID (session : Z) (block isDDL : bool) : prog servers TxnID :=
  response ← send NEW_TXN_ID (le_bytes 4 session ++ put_bool block ++ put_bool isDDL);
  match response with
  | None => mret TxnID_default
  | Some r =>
      if decide (length r = 6%nat) then unpack false (get_u 1;; get_txn) r else mret TxnID_default
  end.

(** [committed] and [rolledback]: errors are logged, and the transaction is no
    longer valid for the caller.  Without a reply there is nothing to read the
    error code from, and that throws. *)
Definition dbrm_finish (code : Z) (txnid : TxnID) : prog servers TxnID :=
  response ← send code (put_txn txnid);
  match response with
  | None => throw RuntimeError
  | Some r => unpack false (get_u 1) r;; mret (mkTxn (txn_id txnid) false)
  end.
Definition dbrm_committed (txnid : TxnID) : prog servers TxnID := dbrm_finish COMMITTED txnid.
Definition dbrm_rolledback (txnid : TxnID) : prog servers TxnID := dbrm_finish ROLLED_BACK txnid.

(** A reply with an error code in front; [bad] is what an error leads to. *)
Definition after_code {A} (r : list Z) (bad : prog servers A) (k : list Z -> prog servers A) :
    prog servers A :=
  match get_u 1 r with
  | None => throw RuntimeError
  | Some (err, rest) => if decide (err = 0) then k rest else bad
  end.

Definition dbrm_getTxnID (session : Z) : prog servers TxnID :=
  response ← send GET_TXN_ID (le_bytes 4 session);
  match response with
  | None => mret TxnID_default
  | Some r => after_code r (mret TxnID_default) (unpack false get_txn)
  end.

(** [SIDTIDMap]: [None] is a null pointer. *)
Definition dbrm_SIDTIDMap : prog servers (option (list (Z * TxnID))) :=
  response ← send SID_TID_MAP [];
  match response with
  | None => mret None
  | Some r => after_code r (mret None) (fun r =>
      l ← unpack false
        (n ← get_u32; get_list (Z.to_nat n) (t ← get_txn; sid ← get_u32; mret (sid, t))) r;
      mret (Some l))
  end.

Definition dbrm_getUnique32 : prog servers Z :=
  response ← send GET_UNIQUE_UINT32 [];
  match response with
  | None => throw RuntimeError
  | Some r => after_code r (throw RuntimeError) (unpack false get_u32)
  end.
Definition dbrm_getUnique64 : prog servers Z :=
  response ← send GET_UNIQUE_UINT64 [];
  match response with
  | None => throw RuntimeError
  | Some r => after_code r (throw RuntimeError) (unpack false get_u64)
  end.

Definition dbrm_sessionmanager_reset : prog servers unit := send SM_RESET [];; mret tt.

(** [getSystemState]: [None] is -1. *)
Definition dbrm_getSystemState : prog servers (option Z) :=
  response ← send GET_SYSTEM_STATE [];
  match response with
  | None => mret None
  | Some r =>
      try_catch (after_code r (mret None) (fun r => ss ← unpack false get_u32 r; mret (Some ss)))
        (fun _ => mret None)
  end.
(** [setSystemState] and [clearSystemState]: whether the answer is 1. *)
Definition dbrm_state (code stateFlags : Z) : prog servers bool :=
  response ← send code (le_bytes 4 stateFlags);
  match response with
  | None => mret false
  | Some r => try_catch (after_code r (mret false) (fun _ => mret true)) (fun _ => mret false)
  end.
Definition dbrm_setSystemState : Z -> prog servers bool := dbrm_state SET_SYSTEM_STATE.
Definition dbrm_clearSystemState : Z -> prog servers bool := dbrm_state CLEAR_SYSTEM_STATE.

(** ** Object ids *)

Definition dbrm_allocOIDs (num : Z) : prog servers Z :=
  response ← send ALLOC_OIDS (le_bytes 4 num);
  match response with
  | None => mret (-1)
  | Some r => try_catch (after_code r (mret (-1)) (unpack false get_s32)) (fun _ => mret (-1))
  end.
Definition dbrm_returnOIDs (start end_ : Z) : prog servers unit :=
  response ← send RETURN_OIDS (le_bytes 4 start ++ le_bytes 4 end_);
  match response with
  | None => throw RuntimeError
  | Some r => after_code r (throw RuntimeError) (fun _ => mret tt)
  end.
Definition dbrm_oidm_size : prog servers Z :=
  response ← send OIDM_SIZE [];
  match response with
  | None => throw RuntimeError
  | Some r => after_code r (mret (-1)) (unpack false get_s32)
  end.

(** ** Table locks *)

(** [getTableLock]: the DBRoots are those of the modules, [tli] what is asked
    for.  The answer is the id, and the owner in the way when it is 0. *)
Definition get_owner (tli : TableLockInfo) : reader (Z * TableLockInfo) :=
  ret ← get_u64;
  if decide (ret = 0) then
    pid ← get_u32; name ← get_string; ses ← get_s32; txn ← get_s32;
    mret (ret, set_owner name pid ses txn tli)
  else mret (ret, tli).
Definition dbrm_getTableLock (tli : TableLockInfo) : prog servers (Z * TableLockInfo) :=
  response ← send GET_TABLE_LOCK (tli_serialize tli);
  match response with
  | None => throw RuntimeError
  | Some r => after_code r (throw RuntimeError) (unpack true (get_owner tli))
  end.

(** Calls with a truth value for an answer. *)
Definition dbrm_bool (code : Z) (args : list Z) : prog servers bool :=
  response ← send code args;
  match response with
  | None => throw RuntimeError
  | Some r => after_code r (throw RuntimeError) (unpack true get_flag)
  end.
Definition dbrm_releaseTableLock (id : Z) : prog servers bool :=
  dbrm_bool RELEASE_TABLE_LOCK (le_bytes 8 id).
Definition dbrm_changeState (id state : Z) : prog servers bool :=
  dbrm_bool CHANGE_TABLE_LOCK_STATE (le_bytes 8 id ++ le_bytes 4 state).
Definition dbrm_changeOwner (id : Z) (name : list Z) (pid session txnID : Z) : prog servers bool :=
  dbrm_bool CHANGE_TABLE_LOCK_OWNER
    (le_bytes 8 id ++ put_string name ++ le_bytes 4 pid ++ le_bytes 4 session ++ le_bytes 4 txnID).
Definition dbrm_checkOwner (id : Z) : prog servers bool := dbrm_bool OWNER_CHECK (le_bytes 8 id).

Definition dbrm_getAllTableLocks : prog servers (list TableLockInfo) :=
  response ← send GET_ALL_TABLE_LOCKS [];
  match response with
  | None => throw RuntimeError
  | Some r => after_code r (throw RuntimeError)
      (unpack true (n ← get_u64; get_list (Z.to_nat n) tli_deserialize))
  end.

(** Calls without an answer. *)
Definition dbrm_unit (code : Z) (args : list Z) : prog servers unit :=
  response ← send code args;
  match response with
  | None => throw RuntimeError
  | Some r =>
      err ← unpack true (get_u 1) r;
      if decide (err = 0) then mret tt else throw RuntimeError
  end.
Definition dbrm_releaseAllTableLocks : prog servers unit := dbrm_unit RELEASE_ALL_TABLE_LOCKS [].

Definition dbrm_getTableLockInfo (id : Z) : prog servers (option TableLockInfo) :=
  response ← send GET_TABLE_LOCK_INFO (le_bytes 8 id);
  match response with
  | None => throw RuntimeError
  | Some r => after_code r (throw RuntimeError) (fun r =>
      match get_flag r with
      | None => throw RuntimeError
      | Some (false, _) => mret None
      | Some (true, r) => t ← unpack_vector false tli_deserialize tli_head r; mret (Some t)
      end)
  end.

(** ** Autoincrement sequences *)

Definition dbrm_startAISequence (oid firstNum colWidth ty : Z) : prog servers unit :=
  dbrm_unit START_AI_SEQUENCE (le_bytes 4 oid ++ le_bytes 8 firstNum ++ le_bytes 4 colWidth ++ le_bytes 1 ty).
Definition dbrm_getAIRange (oid count : Z) : prog servers (option Z) :=
  response ← send GET_AI_RANGE (le_bytes 4 oid ++ le_bytes 4 count);
  match response with
  | None => throw RuntimeError
  | Some r => after_code r (throw RuntimeError) (fun r =>
      match get_flag r with
      | None => throw RuntimeError
      | Some (false, _) => mret None
      | Some (true, r) => n ← unpack true get_u64 r; mret (Some n)
      end)
  end.
Definition dbrm_getAIValue (oid : Z) : prog servers (option Z) := dbrm_getAIRange oid 0.
Definition dbrm_resetAISequence (oid v : Z) : prog servers unit :=
  dbrm_unit RESET_AI_SEQUENCE (le_bytes 4 oid ++ le_bytes 8 v).
Definition dbrm_getAILock (oid : Z) : prog servers unit := dbrm_unit GET_AI_LOCK (le_bytes 4 oid).
Definition dbrm_releaseAILock (oid : Z) : prog servers unit := dbrm_unit RELEASE_AI_LOCK (le_bytes 4 oid).
Definition dbrm_deleteAISequence (oid : Z) : prog servers unit :=
  dbrm_unit DELETE_AI_SEQUENCE (le_bytes 4 oid).

(** ** The system state, through its flags *)

Definition flag_of (mask : Z) : prog servers (option Z) :=
  st ← dbrm_getSystemState; mret ((fun ss => Z.land ss mask) <$> st).
Definition dbrm_getSystemReady := flag_of SS_READY.
Definition dbrm_getSystemQueryReady := flag_of SS_QUERY_READY.
Definition dbrm_getSystemSuspended := flag_of SS_SUSPENDED.
Definition dbrm_getSystemSuspendPending : prog servers (option (Z * bool)) :=
  st ← dbrm_getSystemState;
  mret ((fun ss => (Z.land ss SS_SUSPEND_PENDING, negb (bool_decide (Z.land ss SS_ROLLBACK = 0)))) <$> st).
Definition dbrm_getSystemShutdownPending : prog servers (option (Z * bool * bool)) :=
  st ← dbrm_getSystemState;
  mret ((fun ss => (Z.land ss SS_SHUTDOWN_PENDING, negb (bool_decide (Z.land ss SS_ROLLBACK = 0)),
                    negb (bool_decide (Z.land ss SS_FORCE = 0)))) <$> st).

Definition dbrm_setSystemReady (b : bool) : prog servers bool :=
  if b then dbrm_setSystemState SS_READY else dbrm_clearSystemState SS_READY.
Definition dbrm_setSystemQueryReady (b : bool) : prog servers bool :=
  if b then dbrm_setSystemState SS_QUERY_READY else dbrm_clearSystemState SS_QUERY_READY.
Definition dbrm_setSystemSuspendPending (pending rollback : bool) : prog servers bool :=
  if pending
  then dbrm_setSystemState (if rollback then Z.lor SS_SUSPEND_PENDING SS_ROLLBACK else SS_SUSPEND_PENDING)
  else dbrm_clearSystemState (Z.lor SS_SUSPEND_PENDING SS_ROLLBACK).
Definition dbrm_setSystemShutdownPending (pending rollback force : bool) : prog servers bool :=
  if pending
  then dbrm_setSystemState
         (if force then Z.lor SS_SHUTDOWN_PENDING SS_FORCE
          else if rollback then Z.lor SS_SHUTDOWN_PENDING SS_ROLLBACK else SS_SHUTDOWN_PENDING)
  else dbrm_clearSystemState (Z.lor SS_SHUTDOWN_PENDING (Z.lor SS_ROLLBACK SS_FORCE)).

End Client.

(** Two messages, so two more attempts. *)
Definition dbrm_setSystemSuspended beyond (a1 a2 b1 b2 : attempt_) (b : bool) : prog servers bool :=
  if b then
    done_ ← dbrm_setSystemState beyond a1 a2 SS_SUSPENDED;
    if (done_ : bool)
    then dbrm_clearSystemState beyond b1 b2 (Z.lor SS_SUSPEND_PENDING SS_ROLLBACK) else mret false
  else dbrm_clearSystemState beyond a1 a2 (Z.lor SS_SUSPENDED (Z.lor SS_SUSPEND_PENDING SS_ROLLBACK)).
