(* ===== verification/DbrmProofs.v ===== *)
(** * A call of the client is a call of the server

    Over a connection that works, what a caller of [DBRM] gets and what becomes
    of the servers is what the call itself does. *)
From Stdlib Require Import ZArith Lia.
From S2P Require Import Prelude Bytes StdMap BrmTypes VSS AutoIncrement SessionManager OidServer TableLocks TableLocksProofs Requests Dbrm.

Local Open Scope Z_scope.

(** What a caller sees of [p]: its value as [f] shows it; of an exception, [bad]. *)
Definition seen {A B} (p : prog servers A) (bad : prog servers B) (f : A -> B) : prog servers B :=
  fun s => match p s with
           | (Ret v, s') => (Ret (f v), s')
           | (Throw e, s') => if decide (e = WouldBlock) then (Throw e, s') else bad s'
           | (UB u, s') => (UB u, s')
           end.

Section Rpc.
Context (beyond : list Z -> option Z).

Lemma send_answered i a2 code args h s : 0 <= code < 256 -> handler_of beyond code = Some h ->
  exists again, send beyond (Answered i) a2 code args s =
    (h i (le_bytes 1 code ++ args) ≫= fun out => if decide (out = []) then again else mret (Some out)) s.
Proof.
  intros Hc Hh. unfold send, send_recv. eexists. unfold served, serve.
  replace (default 0 (head (le_bytes 1 code ++ args))) with code
    by (change (code = code mod 256); by rewrite Z.mod_small).
  rewrite Hh. reflexivity.
Qed.

(** The shape of all handlers and stubs. *)
Lemma rpc_call {A B} i a2 code args h (p : prog servers A) (enc : A -> list Z)
    (client : option (list Z) -> prog servers B) (bad : prog servers B) (f : A -> B) s :
  0 <= code < 256 -> handler_of beyond code = Some h ->
  h i (le_bytes 1 code ++ args) s = or_failure (p ≫= fun v => mret (ok (enc v))) s ->
  (forall v s', p s = (Ret v, s') -> client (Some (ok (enc v))) s' = (Ret (f v), s')) ->
  (forall s', client (Some failure) s' = bad s') ->
  (send beyond (Answered i) a2 code args ≫= client) s = seen p bad f s.
Proof.
  intros Hc Hh Hrun Hok Hbad. destruct (send_answered i a2 code args h s Hc Hh) as [again E].
  unfold mbind at 1, prog_bind at 1. rewrite E. unfold mbind at 1, prog_bind at 1. rewrite Hrun.
  unfold or_failure, try_catch, seen. unfold mbind at 1, prog_bind at 1.
  destruct (p s) as [[v|e|u] s'] eqn:Ep; [|destruct (decide (e = WouldBlock))|]; cbn; try done.
  - by apply Hok.
  - by apply Hbad.
Qed.

Lemma bind_unpack {S A B} w (r : reader A) msg (k : A -> prog S B) a s :
  r msg = Some (a, []) -> (unpack w r msg ≫= k) s = k a s.
Proof.
  intros E. unfold unpack. rewrite E. unfold erydbassert.
  rewrite bool_decide_eq_true_2, orb_true_r by done. done.
Qed.
Lemma unpack_run {S A} w (r : reader A) msg (a : A) (s : S) :
  r msg = Some (a, []) -> unpack w r msg s = (Ret a, s).
Proof.
  intros E. unfold unpack. rewrite E. unfold erydbassert.
  rewrite bool_decide_eq_true_2, orb_true_r by done. done.
Qed.

(** ** Reading what was written *)

Lemma get_u1_le x rest : get_u 1 (le_bytes 1 x ++ rest) = Some (u8 x, rest).
Proof. apply get_u_le. Qed.
Lemma get_flag_bool b rest : get_flag (put_bool b ++ rest) = Some (b, rest).
Proof. by destruct b. Qed.
Lemma get_txn_put t rest : int_range (txn_id t) -> get_txn (put_txn t ++ rest) = Some (t, rest).
Proof.
  intros H. unfold get_txn, put_txn, mbind, reader_bind. rewrite <- app_assoc, get_s32_le, get_flag_bool.
  rewrite s32_id by (unfold int_range in H; lia). by destruct t.
Qed.
Lemma get_string_put n rest : Z.of_nat (length n) < 2 ^ 31 ->
  get_string (put_string n ++ rest) = Some (n, rest).
Proof.
  intros H. unfold get_string, put_string, mbind, reader_bind. rewrite <- app_assoc, get_s32_le, s32_id by lia.
  rewrite decide_False, Nat2Z.id by lia. by rewrite get_bytes_app.
Qed.

(** ** Ranges *)

(** A lock that a message can carry. *)
Record sendable (t : TableLockInfo) : Prop := {
  sd_id : 0 <= tl_id t < 2 ^ 64;
  sd_oid : 0 <= tableOID t < 2 ^ 32;
  sd_name : Z.of_nat (length (ownerName t)) < 2 ^ 31;
  sd_pid : 0 <= ownerPID t < 2 ^ 32;
  sd_ses : int_range (ownerSessionID t);
  sd_txn : int_range (ownerTxnID t);
  sd_state : 0 <= tl_state t < 2 ^ 8;
  sd_time : - 2 ^ 63 <= creationTime t < 2 ^ 63;
  sd_count : Z.of_nat (length (dbrootList t)) < 2 ^ 64;
  sd_roots : Forall (fun r => 0 <= r < 2 ^ 16) (dbrootList t);
}.

(** What the C++ types of the members say. *)
Record servers_ok (s : servers) : Prop := {
  so_ver : int_range (_verID (the_sm s));
  so_cat : int_range (_sysCatVerID (the_sm s));
  so_txns : forall sid id, activeTxns (the_sm s) !! sid = Some id -> 0 <= sid < 2 ^ 32 /\ int_range id;
  so_count : Z.of_nat (base.size (activeTxns (the_sm s))) < 2 ^ 32;
  so_state : 0 <= systemState (the_sm s) < 2 ^ 32;
  so_oid : int_range (currentOID (oids s));
  so_ai : forall oid q, aiManager s !! oid = Some q -> 0 <= value q < 2 ^ 64;
  so_locks : forall id t, locks (tls s) !! id = Some t -> sendable t;
  so_lock_count : Z.of_nat (base.size (locks (tls s))) < 2 ^ 64;
}.

Lemma tli_codec : codec tli_serialize tli_deserialize sendable.
Proof.
  intros t rest [Hid Hoid Hname Hpid Hses Htxn Hst Htime Hcnt Hroots].
  unfold tli_serialize, int_range in *. rewrite <- !app_assoc.
  unfold tli_deserialize, mbind, reader_bind. autorewrite with brm.
  rewrite (app_assoc (le_bytes 4 (Z.of_nat (length (ownerName t)))) (ownerName t)).
  fold (put_string (ownerName t)). rewrite get_string_put by done. autorewrite with brm.
  rewrite get_u1_le. autorewrite with brm. rewrite u64_id, Nat2Z.id by lia.
  rewrite (codec_list (le_bytes 2) get_u16 (fun r => 0 <= r < 2 ^ 16)); [|intros x r Hx; rewrite get_u16_le; by rewrite u16_id|done].
  unfold u8. rewrite !u32_id, !s32_id, s64_id, u64_id, Z.mod_small by lia. by destruct t.
Qed.

Lemma qc_codec : codec qc_serialize qc_deserialize
  (fun q => int_range (qc_currentScn q) /\ Z.of_nat (length (qc_currentTxns q)) < 2 ^ 64 /\
            Forall int_range (qc_currentTxns q)).
Proof.
  intros q rest (Hs & Hn & Hl). unfold qc_serialize, int_range in *. rewrite <- !app_assoc.
  unfold qc_deserialize, mbind, reader_bind. autorewrite with brm. rewrite u64_id, Nat2Z.id by lia.
  rewrite (codec_list (le_bytes 4) get_s32 (fun x => - 2 ^ 31 <= x < 2 ^ 31)); [|intros x r Hx; rewrite get_s32_le; by rewrite s32_id|done].
  rewrite s32_id by lia. by destruct q.
Qed.

(** At the end of a message. *)
Lemma get_u1_end x : get_u 1 (le_bytes 1 x) = Some (u8 x, []).
Proof. by rewrite <- (app_nil_r (le_bytes 1 x)), get_u1_le. Qed.
Lemma get_u32_end x : get_u32 (le_bytes 4 x) = Some (u32 x, []).
Proof. by rewrite <- (app_nil_r (le_bytes 4 x)), get_u32_le. Qed.
Lemma get_s32_end x : get_s32 (le_bytes 4 x) = Some (s32 x, []).
Proof. by rewrite <- (app_nil_r (le_bytes 4 x)), get_s32_le. Qed.
Lemma get_u64_end x : get_u64 (le_bytes 8 x) = Some (u64 x, []).
Proof. by rewrite <- (app_nil_r (le_bytes 8 x)), get_u64_le. Qed.
Lemma get_flag_end b : get_flag (put_bool b) = Some (b, []).
Proof. by destruct b. Qed.
Lemma get_txn_end t : int_range (txn_id t) -> get_txn (put_txn t) = Some (t, []).
Proof. intros H. by rewrite <- (app_nil_r (put_txn t)), get_txn_put. Qed.

Hint Rewrite get_u1_le get_u1_end get_u32_end get_s32_end get_u64_end get_flag_bool get_flag_end : brm.

Lemma or_failure_ext p q s : p s = q s -> or_failure p s = or_failure q s.
Proof. intros E. unfold or_failure, try_catch. by rewrite E. Qed.

Lemma after_ok {A} r (bad : prog servers A) k : after_code (ok r) bad k = k r.
Proof. unfold after_code, ok. by rewrite get_u1_le. Qed.

(** ** The calls *)

Inductive call : Type -> Type :=
  | CVerID : call QueryContext
  | CSysCatVerID : call QueryContext
  | CNewTxnID (session : Z) (block isDDL : bool) : call TxnID
  | CCommitted (t : TxnID) : call TxnID
  | CRolledback (t : TxnID) : call TxnID
  | CGetTxnID (session : Z) : call TxnID
  | CSIDTIDMap : call (option (list (Z * TxnID)))
  | CGetUnique32 : call Z
  | CGetUnique64 : call Z
  | CReset : call unit
  | CGetSystemState : call (option Z)
  | CSetSystemState (st : Z) : call bool
  | CClearSystemState (st : Z) : call bool
  | CAllocOIDs (num : Z) : call Z
  | CReturnOIDs (a b : Z) : call unit
  | COidmSize : call Z
  | CGetTableLock (tli : TableLockInfo) : call (Z * TableLockInfo)
  | CReleaseTableLock (id : Z) : call bool
  | CChangeState (id st : Z) : call bool
  | CChangeOwner (id : Z) (name : list Z) (pid session txnID : Z) : call bool
  | CCheckOwner (id : Z) : call bool
  | CGetAllTableLocks : call (list TableLockInfo)
  | CReleaseAllTableLocks : call unit
  | CGetTableLockInfo (id : Z) : call (option TableLockInfo)
  | CStartAI (oid firstNum colWidth ty : Z) : call unit
  | CGetAIRange (oid count : Z) : call (option Z)
  | CResetAI (oid v : Z) : call unit
  | CGetAILock (oid : Z) : call unit
  | CReleaseAILock (oid : Z) : call unit
  | CDeleteAI (oid : Z) : call unit.

(** Through the client and the controller. *)
Definition remote {A} (a1 a2 : attempt_) (c : call A) : prog servers A :=
  match c in call A return prog servers A with
  | CVerID => dbrm_verID beyond a1 a2
  | CSysCatVerID => dbrm_sysCatVerID beyond a1 a2
  | CNewTxnID session block isDDL => dbrm_newTxnID beyond a1 a2 session block isDDL
  | CCommitted t => dbrm_committed beyond a1 a2 t
  | CRolledback t => dbrm_rolledback beyond a1 a2 t
  | CGetTxnID session => dbrm_getTxnID beyond a1 a2 session
  | CSIDTIDMap => dbrm_SIDTIDMap beyond a1 a2
  | CGetUnique32 => dbrm_getUnique32 beyond a1 a2
  | CGetUnique64 => dbrm_getUnique64 beyond a1 a2
  | CReset => dbrm_sessionmanager_reset beyond a1 a2
  | CGetSystemState => dbrm_getSystemState beyond a1 a2
  | CSetSystemState st => dbrm_setSystemState beyond a1 a2 st
  | CClearSystemState st => dbrm_clearSystemState beyond a1 a2 st
  | CAllocOIDs num => dbrm_allocOIDs beyond a1 a2 num
  | CReturnOIDs a b => dbrm_returnOIDs beyond a1 a2 a b
  | COidmSize => dbrm_oidm_size beyond a1 a2
  | CGetTableLock tli => dbrm_getTableLock beyond a1 a2 tli
  | CReleaseTableLock id => dbrm_releaseTableLock beyond a1 a2 id
  | CChangeState id st => dbrm_changeState beyond a1 a2 id st
  | CChangeOwner id name pid session txnID => dbrm_changeOwner beyond a1 a2 id name pid session txnID
  | CCheckOwner id => dbrm_checkOwner beyond a1 a2 id
  | CGetAllTableLocks => dbrm_getAllTableLocks beyond a1 a2
  | CReleaseAllTableLocks => dbrm_releaseAllTableLocks beyond a1 a2
  | CGetTableLockInfo id => dbrm_getTableLockInfo beyond a1 a2 id
  | CStartAI oid firstNum colWidth ty => dbrm_startAISequence beyond a1 a2 oid firstNum colWidth ty
  | CGetAIRange oid count => dbrm_getAIRange beyond a1 a2 oid count
  | CResetAI oid v => dbrm_resetAISequence beyond a1 a2 oid v
  | CGetAILock oid => dbrm_getAILock beyond a1 a2 oid
  | CReleaseAILock oid => dbrm_releaseAILock beyond a1 a2 oid
  | CDeleteAI oid => dbrm_deleteAISequence beyond a1 a2 oid
  end.

(** Is the process that owns a lock there?  No lock has no owner. *)
Definition owner_there (i : io) (id : Z) : prog servers bool :=
  held ← gets (fun s => locks (tls s) !! id);
  match held with
  | None => mret false
  | Some t => match io_owner i (process_name (ownerName t)) (ownerPID t) with
              | None => throw RuntimeError
              | Some b => mret b
              end
  end.

Definition new_owner (i : io) (id : Z) (name : list Z) (pid session txnID : Z) : prog servers bool :=
  there ← owner_there i id;
  if (there : bool) then mret false
  else on_tls (changeOwner beyond id name pid session txnID (io_tl i)).

(** The servers themselves. *)
Definition direct {A} (i : io) (c : call A) : prog servers A :=
  let fails {B} : prog servers B := throw RuntimeError in
  match c in call A return prog servers A with
  | CVerID => gets (fun s => verID (the_sm s))
  | CSysCatVerID => gets (fun s => sysCatVerID (the_sm s))
  | CNewTxnID session block isDDL =>
      seen (on_sm (newTxnID session block isDDL (io_sm i))) (mret TxnID_default) id
  | CCommitted t | CRolledback t =>
      seen (on_sm (finishTransaction t)) (mret (mkTxn (txn_id t) false)) (fun _ => mkTxn (txn_id t) false)
  | CGetTxnID session => gets (fun s => getTxnID session (the_sm s))
  | CSIDTIDMap => gets (fun s => Some (SIDTIDMap (the_sm s)))
  | CGetUnique32 => on_sm getUnique32
  | CGetUnique64 => on_sm getUnique64
  | CReset => on_sm sm_reset
  | CGetSystemState => gets (fun s => Some (getSystemState (the_sm s)))
  | CSetSystemState st => seen (on_sm (setSystemState st (io_sm i))) (mret false) (fun _ => true)
  | CClearSystemState st => seen (on_sm (clearSystemState st (io_sm i))) (mret false) (fun _ => true)
  | CAllocOIDs num => seen (on_oids (allocOIDs num (io_seeks i) (io_outs i))) (mret (-1)) id
  | CReturnOIDs a b => on_oids (returnOIDs a b)
  | COidmSize => gets (fun s => oid_size (oids s))
  | CGetTableLock tli =>
      seen (on_tls (lock beyond tli (io_tl i))) fails (fun '(id, t) => (id,
        if decide (id = 0) then set_owner (ownerName t) (ownerPID t) (ownerSessionID t) (ownerTxnID t) tli
        else tli))
  | CReleaseTableLock id => seen (on_tls (unlock beyond id (io_tl i))) fails (fun b => b)
  | CChangeState id st => seen (on_tls (changeState beyond id st (io_tl i))) fails (fun b => b)
  | CChangeOwner id name pid session txnID =>
      seen (new_owner i id name pid session txnID) fails (fun b => b)
  | CCheckOwner id => seen (owner_there i id) fails (fun b => b)
  | CGetAllTableLocks => gets (fun s => getAllLocks (tls s))
  | CReleaseAllTableLocks => seen (on_tls (releaseAllLocks beyond (io_tl i))) fails (fun u => u)
  | CGetTableLockInfo id => gets (fun s => locks (tls s) !! id)
  | CStartAI oid firstNum colWidth ty => on_ai (startSequence oid firstNum colWidth ty)
  | CGetAIRange oid count => seen (on_ai (getAIRange oid count)) fails (fun r => r)
  | CResetAI oid v => on_ai (resetSequence oid v)
  | CGetAILock oid => seen (on_ai (ai_getLock oid (io_tries i))) fails (fun u => u)
  | CReleaseAILock oid => on_ai (ai_releaseLock oid)
  | CDeleteAI oid => on_ai (deleteSequence oid)
  end.

(** The types of the arguments. *)
Definition call_ok {A} (c : call A) : Prop :=
  match c with
  | CNewTxnID session _ _ | CGetTxnID session => 0 <= session < 2 ^ 32
  | CCommitted t | CRolledback t => int_range (txn_id t)
  | CSetSystemState st | CClearSystemState st => 0 <= st < 2 ^ 32
  | CAllocOIDs num => int_range num
  | CReturnOIDs a b => int_range a /\ int_range b
  | CGetTableLock tli => sendable tli
  | CReleaseTableLock id | CCheckOwner id | CGetTableLockInfo id => 0 <= id < 2 ^ 64
  | CChangeState id st => 0 <= id < 2 ^ 64 /\ 0 <= st < 2 ^ 32
  | CChangeOwner id name pid session txnID => 0 <= id < 2 ^ 64 /\ Z.of_nat (length name) < 2 ^ 31 /\
      0 <= pid < 2 ^ 32 /\ int_range session /\ int_range txnID
  | CStartAI oid firstNum colWidth ty => 0 <= oid < 2 ^ 32 /\ 0 <= firstNum < 2 ^ 64 /\
      0 <= colWidth < 2 ^ 32 /\ 0 <= ty < 2 ^ 8
  | CGetAIRange oid count => 0 <= oid < 2 ^ 32 /\ 0 <= count < 2 ^ 32
  | CResetAI oid v => 0 <= oid < 2 ^ 32 /\ 0 <= v < 2 ^ 64
  | CGetAILock oid | CReleaseAILock oid | CDeleteAI oid => 0 <= oid < 2 ^ 32
  | _ => True
  end.

Lemma seen_same {A} (p : prog servers A) bad s : (forall e, fst (p s) <> Throw e) ->
  seen p bad (fun x => x) s = p s.
Proof. intros H. unfold seen. destruct (p s) as [[v|e|u] s']; [done|by destruct (H e)|done]. Qed.

Lemma seen_gets {A B} (g : servers -> A) (bad : prog servers B) f s :
  seen (gets g) bad f s = gets (fun s => f (g s)) s.
Proof. done. Qed.

(** Stubs with a truth value, or nothing, for an answer. *)
Lemma rpc_bool i a2 code args h (p : prog servers bool) s :
  0 <= code < 256 -> handler_of beyond code = Some h ->
  h i (le_bytes 1 code ++ args) s = or_failure (p ≫= fun v => mret (ok (put_bool v))) s ->
  dbrm_bool beyond (Answered i) a2 code args s = seen p (throw RuntimeError) (fun b => b) s.
Proof.
  intros Hc Hh Hrun. unfold dbrm_bool. eapply rpc_call; [done|exact Hh|exact Hrun| |done].
  intros v s' _. rewrite after_ok. by apply unpack_run, get_flag_end.
Qed.

Lemma rpc_unit i a2 code args h (p : prog servers unit) s :
  0 <= code < 256 -> handler_of beyond code = Some h ->
  h i (le_bytes 1 code ++ args) s = or_failure (p ≫= fun _ => mret (ok [])) s ->
  dbrm_unit beyond (Answered i) a2 code args s = seen p (throw RuntimeError) (fun u => u) s.
Proof.
  intros Hc Hh Hrun. unfold dbrm_unit. eapply rpc_call; [done|exact Hh|exact Hrun| |done].
  intros [] s' _. done.
Qed.

Ltac wire := unfold get_cmd, mbind, reader_bind, mret, reader_ret, int_range in *;
  repeat progress (rewrite <- ?app_assoc; autorewrite with brm);
  rewrite ?u32_id, ?u64_id, ?s32_id by lia; try done.

(** The arguments of a request are those of the call. *)
Ltac args a := apply or_failure_ext; rewrite (bind_unpack _ _ _ _ a); [done|wire].

Lemma on_sm_inv {A} (p : prog SessionManager A) s r s' : on_sm p s = (r, s') ->
  fst (p (the_sm s)) = r.
Proof.
  unfold on_sm, on_tls, on_sms, zoom, the_sm. destruct (p (sms (tls s))) as [r' m]. cbn.
  by intros [= <- _].
Qed.
Lemma on_tls_inv {A} (p : prog TableLockServer A) s r s' : on_tls p s = (r, s') -> fst (p (tls s)) = r.
Proof. unfold on_tls, zoom. destruct (p (tls s)) as [r' m]. by intros [= <- _]. Qed.
Lemma on_ai_inv {A} (p : prog AutoincrementManager A) s r s' : on_ai p s = (r, s') ->
  fst (p (aiManager s)) = r.
Proof. unfold on_ai, zoom. destruct (p (aiManager s)) as [r' m]. by intros [= <- _]. Qed.
Lemma on_oids_inv {A} (p : prog OIDServer A) s r s' : on_oids p s = (r, s') -> fst (p (oids s)) = r.
Proof. unfold on_oids, zoom. destruct (p (oids s)) as [r' m]. by intros [= <- _]. Qed.

Lemma newTxnID_range session block isDDL o m v : int_range (_verID m) ->
  (forall sid id, activeTxns m !! sid = Some id -> int_range id) ->
  fst (newTxnID session block isDDL o m) = Ret v -> int_range (txn_id v).
Proof.
  intros Hv Ha. unfold newTxnID. erewrite bind_Ret by reflexivity.
  destruct (activeTxns m !! session) as [x|] eqn:E; [intros [= <-]; by eapply Ha|].
  erewrite bind_Ret by reflexivity. destruct (decide (semValue m = 0)).
  { destruct block; [done|]. by intros [= <-]. }
  unfold take_slot. do 4 erewrite bind_Ret by reflexivity. unfold erydbassert, next_int. cbn [maxTxns set_txns].
  destruct (bool_decide _); [|done]. erewrite !bind_Ret by reflexivity. cbn [_verID set_txns].
  destruct (decide (_verID m + 1 < 2 ^ 31)) as [Hlt|]; [|done]. do 2 erewrite bind_Ret by reflexivity.
  unfold mbind, prog_bind, modify, write_at, mret, prog_ret.
  destruct isDDL; [destruct (decide _); [|done]|]; destruct o; cbn; try done; intros [= <-];
    unfold int_range in *; cbn; lia.
Qed.

Lemma remote_newTxnID i a2 session block isDDL s : servers_ok s -> 0 <= session < 2 ^ 32 ->
  dbrm_newTxnID beyond (Answered i) a2 session block isDDL s =
  seen (on_sm (newTxnID session block isDDL (io_sm i))) (mret TxnID_default) id s.
Proof.
  intros Hs Hse. unfold dbrm_newTxnID.
  eapply (rpc_call _ _ _ _ (doNewTxnID)) with (enc := put_txn); [done|reflexivity| | |done].
  - args (session, block, isDDL).
  - intros v s' Hr%on_sm_inv. rewrite decide_True by (unfold ok, put_txn; by destruct (txn_valid v)).
    apply unpack_run. unfold ok. wire. rewrite get_txn_end; [done|].
    eapply newTxnID_range; [apply (so_ver _ Hs)| |exact Hr]. intros sid x Hx.
    by apply (so_txns _ Hs sid).
Qed.

Lemma remote_finish i a2 code h t s :
  0 <= code < 256 -> handler_of beyond code = Some h -> h = doCommitted \/ h = doRolledBack ->
  int_range (txn_id t) ->
  dbrm_finish beyond (Answered i) a2 code t s =
  seen (on_sm (finishTransaction t)) (mret (mkTxn (txn_id t) false)) (fun _ => mkTxn (txn_id t) false) s.
Proof.
  intros Hc Hh Hor Ht. unfold dbrm_finish.
  eapply (rpc_call _ _ _ _ h) with (enc := fun _ => []); [done|done| | |done].
  - destruct Hor as [->| ->]; apply or_failure_ext;
      (rewrite (bind_unpack _ _ _ _ t); [done|]; wire; by rewrite get_txn_end).
  - done.
Qed.

(** The snapshots the session manager gives out. *)
Lemma context_ok s scn : servers_ok s -> int_range scn ->
  int_range scn /\ Z.of_nat (length (snd <$> in_order (activeTxns (the_sm s)))) < 2 ^ 64 /\
  Forall int_range (snd <$> in_order (activeTxns (the_sm s))).
Proof.
  intros Hs Hscn. split; [done|]. split.
  - rewrite length_fmap, length_in_order. pose proof (so_count _ Hs). lia.
  - apply Forall_fmap, Forall_forall. intros [sid x] Hx%elem_of_in_order. by apply (so_txns _ Hs sid).
Qed.

Lemma remote_context i a2 code h s (q : SessionManager -> QueryContext) :
  0 <= code < 256 -> handler_of beyond code = Some h ->
  h i (le_bytes 1 code ++ []) s = (Ret (ok (qc_serialize (q (the_sm s)))), s) ->
  (int_range (qc_currentScn (q (the_sm s))) /\ Z.of_nat (length (qc_currentTxns (q (the_sm s)))) < 2 ^ 64 /\
   Forall int_range (qc_currentTxns (q (the_sm s)))) ->
  dbrm_context beyond (Answered i) a2 code s = gets (fun s => q (the_sm s)) s.
Proof.
  intros Hc Hh Hrun Hq. unfold dbrm_context.
  rewrite (rpc_call _ _ _ _ h (gets (fun s => q (the_sm s))) qc_serialize _
    (mret (mkQC (-1) [])) (fun x => x)); [done|done|done|done| |done].
  intros v s' [= <- <-].
  assert (E : (get_u 1 ≫= fun _ => qc_deserialize) (ok (qc_serialize (q (the_sm s)))) = Some (q (the_sm s), [])).
  { unfold ok. wire. rewrite <- (app_nil_r (qc_serialize _)). by apply qc_codec. }
  unfold try_catch, unpack_vector. rewrite E. by rewrite (unpack_run _ _ _ _ _ E).
Qed.

Lemma remote_getTxnID i a2 session s : servers_ok s -> 0 <= session < 2 ^ 32 ->
  dbrm_getTxnID beyond (Answered i) a2 session s = gets (fun s => getTxnID session (the_sm s)) s.
Proof.
  intros Hs Hse. unfold dbrm_getTxnID.
  rewrite (rpc_call _ _ _ _ doGetTxnID (gets (fun s => getTxnID session (the_sm s))) put_txn _
    (mret TxnID_default) (fun x => x)); [done|done|reflexivity| | |done].
  - args session.
  - intros v s' [= <- <-]. rewrite after_ok. apply unpack_run, get_txn_end. unfold getTxnID.
    destruct (activeTxns (the_sm s) !! session) as [x|] eqn:E; [|done]. by apply (so_txns _ Hs session).
Qed.

Lemma remote_SIDTIDMap i a2 s : servers_ok s ->
  dbrm_SIDTIDMap beyond (Answered i) a2 s = gets (fun s => Some (SIDTIDMap (the_sm s))) s.
Proof.
  intros Hs. unfold dbrm_SIDTIDMap.
  rewrite (rpc_call _ _ _ _ doSIDTIDMap (gets (fun s => SIDTIDMap (the_sm s)))
    (fun l => le_bytes 4 (Z.of_nat (length l)) ++ (l ≫= fun e => put_txn e.2 ++ le_bytes 4 e.1)) _
    (mret None) Some); [done|done|reflexivity|done| |done].
  intros v s' [= <- <-]. rewrite after_ok. erewrite bind_unpack; [done|].
  unfold mbind at 1, reader_bind at 1. rewrite get_u32_le, u32_id, Nat2Z.id.
  2: { unfold SIDTIDMap. rewrite length_fmap, length_in_order. pose proof (so_count _ Hs). lia. }
  rewrite <- (app_nil_r (_ ≫= _)).
  apply (codec_list (fun e : Z * TxnID => put_txn e.2 ++ le_bytes 4 e.1) _
    (fun e => 0 <= e.1 < 2 ^ 32 /\ int_range (txn_id e.2))).
  - intros [sid t] rest [H1 H2]. unfold mbind, reader_bind. rewrite <- app_assoc, get_txn_put by done.
    by rewrite get_u32_le, u32_id.
  - apply Forall_fmap, Forall_forall. intros [sid x] Hx%elem_of_in_order. cbn. by apply (so_txns _ Hs sid).
Qed.

(** Calls that cannot fail and answer with a number. *)
Lemma remote_number i a2 code h (p : prog servers Z) n (get : reader Z) bad s :
  0 <= code < 256 -> handler_of beyond code = Some h ->
  h i (le_bytes 1 code ++ []) s = or_failure (p ≫= fun v => mret (ok (le_bytes n v))) s ->
  (forall e, fst (p s) <> Throw e) ->
  (forall v s', p s = (Ret v, s') -> get (le_bytes n v) = Some (v, [])) ->
  (send beyond (Answered i) a2 code [] ≫= fun response =>
     match response with
     | None => throw RuntimeError
     | Some r => after_code r bad (unpack false get)
     end) s = p s.
Proof.
  intros Hc Hh Hrun Hno Hget.
  rewrite (rpc_call _ _ _ _ h p (le_bytes n) _ bad (fun x => x)); [by apply seen_same|done..| |].
  - intros v s' Hr. rewrite after_ok. apply unpack_run. by eapply Hget.
  - done.
Qed.

Lemma remote_getSystemState i a2 s : servers_ok s ->
  dbrm_getSystemState beyond (Answered i) a2 s = gets (fun s => Some (getSystemState (the_sm s))) s.
Proof.
  intros Hs. unfold dbrm_getSystemState.
  rewrite (rpc_call _ _ _ _ doGetSystemState (gets (fun s => getSystemState (the_sm s))) (le_bytes 4) _
    (mret None) Some); [done|done|reflexivity|done| |done].
  intros v s' [= <- <-]. unfold try_catch. rewrite after_ok.
  rewrite (bind_unpack _ _ _ _ (getSystemState (the_sm s))); [done|].
  rewrite get_u32_end, u32_id; [done|]. apply (so_state _ Hs).
Qed.

Lemma remote_state i a2 code h (p : prog SessionManager unit) st s :
  0 <= code < 256 -> handler_of beyond code = Some h ->
  h i (le_bytes 1 code ++ le_bytes 4 st) s = or_failure (on_sm p ≫= fun _ => mret (ok [])) s ->
  dbrm_state beyond (Answered i) a2 code st s = seen (on_sm p) (mret false) (fun _ => true) s.
Proof.
  intros Hc Hh Hrun. unfold dbrm_state.
  by eapply (rpc_call _ _ _ _ h (on_sm p) (fun _ => [])); [|exact Hh|exact Hrun| |].
Qed.

Lemma remote_allocOIDs i a2 num s : servers_ok s -> int_range num ->
  dbrm_allocOIDs beyond (Answered i) a2 num s =
  seen (on_oids (allocOIDs num (io_seeks i) (io_outs i))) (mret (-1)) id s.
Proof.
  intros Hs Hn. unfold dbrm_allocOIDs.
  eapply (rpc_call _ _ _ _ doAllocOIDs) with (enc := le_bytes 4); [done|reflexivity| | |done].
  - args num.
  - intros v s' Hr%on_oids_inv. unfold try_catch. rewrite after_ok.
    assert (v = currentOID (oids s)) as ->.
    { unfold allocOIDs in Hr. erewrite bind_Ret in Hr by reflexivity. destruct (decide _); [|done].
      erewrite bind_Ret in Hr by reflexivity. unfold mbind, prog_bind in Hr.
      destruct (writeData _ _ _ _ _) as [[u|e|u] o]; [by injection Hr|done|done]. }
    rewrite (unpack_run _ _ _ (currentOID (oids s))); [done|]. rewrite get_s32_end, s32_id; [done|].
    pose proof (so_oid _ Hs). unfold int_range in *. lia.
Qed.

(** The id of a lock fits, and so does the owner in its way. *)
Lemma lock_range tli o t v : (forall id x, locks t !! id = Some x -> sendable x) -> sendable tli ->
  fst (lock beyond tli o t) = Ret v -> 0 <= v.1 < 2 ^ 64 /\ sendable (set_id (tl_id tli) v.2).
Proof.
  intros Hl Ht. unfold lock. erewrite bind_Ret by reflexivity.
  destruct (first_in _ _) as [[k x]|] eqn:E.
  { intros [= <-]. split; [cbn; lia|]. destruct (first_in_Some _ _ _ _ E) as [Hk _].
    destruct (Hl _ _ Hk), Ht. by split. }
  assert (Hid : forall t, exists j t', new_id t = (Ret j, t') /\ 0 <= j < 2 ^ 64).
  { intros t0. unfold new_id. erewrite bind_Ret by reflexivity. case_decide.
    - eexists _, _. split; [reflexivity|]. cbn. apply Z.mod_pos_bound. lia.
    - eexists _, _. split; [reflexivity|]. cbn. apply Z.mod_pos_bound. lia. }
  destruct (Hid t) as (j & t' & Hj & Hr). erewrite bind_Ret by exact Hj.
  erewrite bind_Ret by reflexivity. unfold mbind, prog_bind, try_catch.
  destruct (save beyond o _) as [[u|e|u] t''] eqn:Es; cbn; [|done..].
  intros [= <-]. split; [done|]. by destruct tli.
Qed.

Lemma remote_getTableLock i a2 tli s : servers_ok s -> sendable tli ->
  dbrm_getTableLock beyond (Answered i) a2 tli s = direct i (CGetTableLock tli) s.
Proof.
  intros Hs Ht. unfold dbrm_getTableLock, direct.
  eapply (rpc_call _ _ _ _ (doGetTableLock beyond)) with (enc := fun '(id, tli) => le_bytes 8 id ++
       if decide (id = 0)
       then le_bytes 4 (ownerPID tli) ++ put_string (ownerName tli) ++
            le_bytes 4 (ownerSessionID tli) ++ le_bytes 4 (ownerTxnID tli)
       else []); [done|reflexivity| | |done].
  - apply or_failure_ext.
    assert (E : (get_cmd ≫= fun _ => tli_deserialize) (le_bytes 1 GET_TABLE_LOCK ++ tli_serialize tli) =
      Some (tli, [])) by (wire; rewrite <- (app_nil_r (tli_serialize _)); by apply tli_codec).
    unfold unpack_vector. rewrite E. rewrite (bind_unpack _ _ _ _ tli) by exact E.
    unfold mbind, prog_bind. by destruct (on_tls _ s) as [[[? ?]| |] ?].
  - intros [id t] s' Hr%on_tls_inv. rewrite after_ok.
    destruct (lock_range _ _ _ _ (so_locks _ Hs) Ht Hr) as [Hid [_ _ Hname Hpid Hses Htxn _ _ _ _]].
    cbn [fst snd set_id ownerName ownerPID ownerSessionID ownerTxnID] in *.
    apply unpack_run. unfold get_owner. unfold mbind at 1, reader_bind at 1.
    rewrite get_u64_le, u64_id by done. case_decide; [|done].
    wire. rewrite get_string_put by done. wire.
Qed.

Lemma remote_getAllTableLocks i a2 s : servers_ok s ->
  dbrm_getAllTableLocks beyond (Answered i) a2 s = gets (fun s => getAllLocks (tls s)) s.
Proof.
  intros Hs. unfold dbrm_getAllTableLocks.
  rewrite (rpc_call _ _ _ _ doGetAllTableLocks (gets (fun s => getAllLocks (tls s)))
    (fun l => le_bytes 8 (Z.of_nat (length l)) ++ (l ≫= tli_serialize)) _
    (throw RuntimeError) (fun x => x)); [done|done|reflexivity|done| |done].
  intros v s' [= <- <-]. rewrite after_ok. apply unpack_run.
  unfold mbind at 1, reader_bind at 1. rewrite get_u64_le, u64_id, Nat2Z.id.
  2: { unfold getAllLocks. rewrite length_fmap, length_in_order. pose proof (so_lock_count _ Hs). lia. }
  rewrite <- (app_nil_r (_ ≫= _)). apply (codec_list _ _ sendable); [exact tli_codec|].
  apply Forall_fmap, Forall_forall. intros [k t] Hx%elem_of_in_order. by apply (so_locks _ Hs k).
Qed.

Lemma remote_getTableLockInfo i a2 id s : servers_ok s -> 0 <= id < 2 ^ 64 ->
  dbrm_getTableLockInfo beyond (Answered i) a2 id s = gets (fun s => locks (tls s) !! id) s.
Proof.
  intros Hs Hid. unfold dbrm_getTableLockInfo.
  rewrite (rpc_call _ _ _ _ doGetTableLockInfo (gets (fun s => locks (tls s) !! id))
    (fun r => put_bool (bool_decide (is_Some r)) ++ match r with Some t => tli_serialize t | None => [] end) _
    (throw RuntimeError) (fun x => x)); [done|done|reflexivity| | |done].
  - apply or_failure_ext. rewrite (bind_unpack _ _ _ _ id) by wire.
    erewrite !bind_Ret by reflexivity. unfold getLockInfo. by destruct (locks (tls s) !! id).
  - intros v s' [= <- <-]. rewrite after_ok, get_flag_bool.
    destruct (locks (tls s) !! id) as [t|] eqn:E; cbn; [|done].
    assert (Ht : tli_deserialize (tli_serialize t) = Some (t, [])).
    { rewrite <- (app_nil_r (tli_serialize _)). apply tli_codec. by apply (so_locks _ Hs id). }
    unfold unpack_vector. rewrite Ht. by rewrite (bind_unpack _ _ _ _ t).
Qed.

Lemma remote_checkOwner i a2 id s : 0 <= id < 2 ^ 64 ->
  dbrm_checkOwner beyond (Answered i) a2 id s = direct i (CCheckOwner id) s.
Proof.
  intros Hid. apply (rpc_bool _ _ _ _ doOwnerCheck); [done|reflexivity|].
  unfold doOwnerCheck, or_failure, try_catch. rewrite (bind_unpack _ _ _ _ id) by wire.
  unfold owner_there, getLockInfo, gets, mbind, prog_bind.
  destruct (locks (tls s) !! id) as [t|]; [|done]. by destruct (io_owner _ _ _) as [[]|].
Qed.

Lemma remote_changeOwner i a2 id name pid ses txn s : call_ok (CChangeOwner id name pid ses txn) ->
  dbrm_changeOwner beyond (Answered i) a2 id name pid ses txn s =
  direct i (CChangeOwner id name pid ses txn) s.
Proof.
  intros (Hid & Hname & Hpid & Hses & Htxn). cbn [call_ok] in *.
  apply (rpc_bool _ _ _ _ (doChangeTableLockOwner beyond)); [done|reflexivity|].
  unfold doChangeTableLockOwner, or_failure, try_catch.
  rewrite (bind_unpack _ _ _ _ (id, name, pid, ses, txn)).
  2: { wire. rewrite get_string_put by done. wire. }
  unfold new_owner, owner_there, getLockInfo, gets, mbind, prog_bind.
  destruct (locks (tls s) !! id) as [t|] eqn:E.
  - destruct (io_owner _ _ _) as [[]|]; done.
  - unfold changeOwner, on_tls, zoom, mbind, prog_bind, gets. cbn [locks tls] in *.
    destruct s as [[l f m] o a]. cbn in E |- *. by rewrite ?E.
Qed.

Lemma remote_getAIRange i a2 oid count s : servers_ok s -> 0 <= oid < 2 ^ 32 -> 0 <= count < 2 ^ 32 ->
  dbrm_getAIRange beyond (Answered i) a2 oid count s = direct i (CGetAIRange oid count) s.
Proof.
  intros Hs Ho Hc. unfold dbrm_getAIRange.
  apply (rpc_call _ _ _ _ doGetAIRange (on_ai (getAIRange oid count))
    (fun ret => put_bool (bool_decide (is_Some ret)) ++ le_bytes 8 (default 0 ret)));
    [done|reflexivity| | |done].
  - args (oid, count).
  - intros v s' Hr%on_ai_inv. rewrite after_ok, get_flag_bool. destruct v as [v|]; cbn; [|done].
    rewrite (bind_unpack _ _ _ _ v); [done|]. rewrite get_u64_end, u64_id; [done|].
    unfold getAIRange in Hr. erewrite bind_Ret in Hr by reflexivity. cbn [id] in Hr.
    destruct (aiManager s !! oid) as [q|] eqn:E; [|done]. destruct (_ && _); [done|].
    injection Hr as <-. by apply (so_ai _ Hs oid).
Qed.

Lemma remote_returnOIDs i a2 a b s : int_range a -> int_range b ->
  dbrm_returnOIDs beyond (Answered i) a2 a b s = on_oids (returnOIDs a b) s.
Proof.
  intros Ha Hb. unfold dbrm_returnOIDs.
  rewrite (rpc_call _ _ _ _ doReturnOIDs (on_oids (returnOIDs a b)) (fun _ => []) _
    (throw RuntimeError) (fun x => x)); [by apply seen_same|done|reflexivity| |by intros []|done].
  args (a, b).
Qed.

(** Calls that do not throw. *)
Lemma remote_unit i a2 code args h (p : prog servers unit) s :
  0 <= code < 256 -> handler_of beyond code = Some h ->
  h i (le_bytes 1 code ++ args) s = or_failure (p ≫= fun _ => mret (ok [])) s ->
  (forall e, fst (p s) <> Throw e) ->
  dbrm_unit beyond (Answered i) a2 code args s = p s.
Proof. intros Hc Hh Hrun Hno. rewrite (rpc_unit _ _ _ _ h p) by done. by apply seen_same. Qed.

Lemma startSequence_no_throw oid f w t m e : fst (startSequence oid f w t m) <> Throw e.
Proof.
  unfold startSequence. erewrite bind_Ret by reflexivity. cbn [id]. destruct (m !! oid); [done|].
  unfold ai_overflow, shr64, shl64, mbind, prog_bind, reading, res_bind.
  destruct (isUnsigned t); by destruct (decide _).
Qed.
Lemma releaseLock_no_throw oid m e : fst (ai_releaseLock oid m) <> Throw e.
Proof.
  unfold ai_releaseLock. erewrite bind_Ret by reflexivity. cbn [id].
  destruct (m !! oid) as [q|]; [|done]. by destruct (ai_locked q).
Qed.

Lemma on_ai_no_throw {A} (p : prog AutoincrementManager A) s :
  (forall e, fst (p (aiManager s)) <> Throw e) -> forall e, fst (on_ai p s) <> Throw e.
Proof. intros H e. specialize (H e). unfold on_ai, zoom. by destruct (p (aiManager s)). Qed.

Lemma remote_direct {A} (c : call A) i a2 s : call_ok c -> servers_ok s ->
  remote (Answered i) a2 c s = direct i c s.
Proof.
  intros Hc Hs. destruct c; cbn [remote direct call_ok] in *; try (destruct_and! Hc).
  - eapply remote_context; [done|reflexivity|done|]. apply (context_ok s); [done|apply (so_ver _ Hs)].
  - eapply remote_context; [done|reflexivity|done|]. apply (context_ok s); [done|apply (so_cat _ Hs)].
  - by apply remote_newTxnID.
  - by eapply remote_finish; [|reflexivity|left|].
  - by eapply remote_finish; [|reflexivity|right|].
  - by apply remote_getTxnID.
  - by apply remote_SIDTIDMap.
  - eapply remote_number; [done|reflexivity|done|done|]. intros v s' Hr%on_sm_inv.
    injection Hr as <-. rewrite get_u32_end, u32_id; [done|apply Z.mod_pos_bound; lia].
  - eapply remote_number; [done|reflexivity|done|done|]. intros v s' Hr%on_sm_inv.
    injection Hr as <-. rewrite get_u64_end, u64_id; [done|apply Z.mod_pos_bound; lia].
  - done.
  - by apply remote_getSystemState.
  - eapply remote_state; [done|reflexivity|]. args st.
  - eapply remote_state; [done|reflexivity|]. args st.
  - by apply remote_allocOIDs.
  - by apply remote_returnOIDs.
  - eapply remote_number; [done|reflexivity|done|done|]. intros v s' [= <- <-].
    pose proof (so_oid _ Hs). unfold int_range in *. by rewrite get_s32_end, s32_id.
  - by apply remote_getTableLock.
  - apply (rpc_bool _ _ _ _ (doReleaseTableLock beyond)); [done|reflexivity|]. args id.
  - apply (rpc_bool _ _ _ _ (doChangeTableLockState beyond)); [done|reflexivity|]. args (id, st).
  - by apply remote_changeOwner.
  - by apply remote_checkOwner.
  - by apply remote_getAllTableLocks.
  - by apply (rpc_unit _ _ _ _ (doReleaseAllTableLocks beyond)); [|reflexivity|apply or_failure_ext].
  - by apply remote_getTableLockInfo.
  - eapply remote_unit; [done|reflexivity| |apply on_ai_no_throw, startSequence_no_throw].
    args (oid, firstNum, colWidth, ty). unfold u8. by rewrite Z.mod_small.
  - by apply remote_getAIRange.
  - eapply remote_unit; [done|reflexivity| |done]. args (oid, v).
  - apply (rpc_unit _ _ _ _ doGetAILock); [done|reflexivity|]. args oid.
  - eapply remote_unit; [done|reflexivity| |apply on_ai_no_throw, releaseLock_no_throw]. args oid.
  - eapply remote_unit; [done|reflexivity| |done]. args oid.
Qed.

(** C19: Over a connection that works, a call of the client library to the session
    manager, the OID server, the table lock server or the autoincrement manager gives
    the caller what the server's own operation gives, as the library shows it, and
    changes the servers exactly as that operation does; packing and unpacking of the
    request and the reply lose nothing. *)
Theorem rpc_transparent {A} (c : call A) i a2 s : call_ok c -> servers_ok s ->
  remote (Answered i) a2 c s = direct i c s.
Proof. apply remote_direct. Qed.

(** ** A reply that does not arrive *)

(** The message of a call, and what is made of the reply. *)
Definition stub {A} (c : call A) (code : Z) (args : list Z)
    (client : option (list Z) -> prog servers A) : Prop :=
  (forall a1 a2, remote a1 a2 c = (send beyond a1 a2 code args ≫= client)) /\
  (forall r s, snd (client r s) = s) /\
  (forall i s e, fst (served beyond i (le_bytes 1 code ++ args) s) = Throw e -> e = WouldBlock).

Lemma or_failure_throws p s e : fst (or_failure p s) = Throw e -> e = WouldBlock.
Proof.
  unfold or_failure, try_catch. destruct (p s) as [[v|e'|u] s']; [done| |done].
  destruct (decide (e' = WouldBlock)); [by intros [= <-]|done].
Qed.

Lemma unpack_state {S A} w (r : reader A) m (s : S) : snd (unpack w r m s) = s.
Proof. unfold unpack, erydbassert. destruct (r m) as [[a rest]|]; [|done]. by destruct (_ || _). Qed.
Lemma unpack_vector_state {S A} w (r : reader A) h m (s : S) : snd (unpack_vector w r h m s) = s.
Proof.
  unfold unpack_vector. destruct (r m); [apply unpack_state|]. destruct (h m); [done|apply unpack_state].
Qed.
Lemma bind_state {S A B} (p : prog S A) (k : A -> prog S B) s : snd (p s) = s ->
  (forall a, snd (k a s) = s) -> snd ((p ≫= k) s) = s.
Proof. unfold mbind, prog_bind. destruct (p s) as [[v|e|u] s']; cbn; by intros ->. Qed.
Lemma try_state {S A} (p : prog S A) h s : snd (p s) = s -> (forall e, snd (h e s) = s) ->
  snd (try_catch p h s) = s.
Proof. unfold try_catch. destruct (p s) as [[v|e|u] s']; cbn; by intros ->. Qed.
Lemma after_code_state {A} r (bad : prog servers A) k s : snd (bad s) = s ->
  (forall r, snd (k r s) = s) -> snd (after_code r bad k s) = s.
Proof. intros Hb Hk. unfold after_code. destruct (get_u 1 r) as [[e rest]|]; [|done]. by case_decide. Qed.

Ltac quiet := repeat first
  [ done | apply unpack_state | apply unpack_vector_state | apply bind_state; [|intros ?]
  | apply try_state; [|intros ?] | apply after_code_state; [|intros ?]
  | match goal with |- context [match ?x with _ => _ end] => destruct x end ].

Lemma call_stub {A} (c : call A) : exists code args client, stub c code args client.
Proof.
  destruct c; eexists _, _, _; (split; [reflexivity|split; [intros r s; quiet|]]);
    intros i s e; try (apply or_failure_throws); done.
Qed.

(** The message is served twice. *)
Lemma send_again i1 i2 code args s out s1 : served beyond i1 (le_bytes 1 code ++ args) s = (Ret out, s1) ->
  send beyond (ReplyLost i1) (Answered i2) code args s = send beyond (Answered i2) NotSent code args s1.
Proof.
  intros H. unfold send, send_recv. erewrite bind_Ret by exact H.
  unfold mbind, prog_bind. destruct (served beyond i2 _ s1) as [[o|e|u] s2]; [|done..]. by case_decide.
Qed.

(** A call that was answered, or not, has had its effect. *)
Lemma served_effect {A} (c : call A) code args client i s r1 s1 : stub c code args client ->
  remote (Answered i) NotSent c s = (r1, s1) ->
  (forall u, r1 <> UB u) -> r1 <> Throw WouldBlock ->
  exists out, served beyond i (le_bytes 1 code ++ args) s = (Ret out, s1).
Proof.
  intros (Hrem & Hcl & Hthr) Hr Hu Hw. rewrite Hrem in Hr. unfold send, send_recv in Hr.
  unfold mbind at 1, prog_bind at 1 in Hr. unfold mbind at 1, prog_bind at 1 in Hr.
  destruct (served beyond i _ s) as [[out|e|u] s'] eqn:E.
  - exists out. f_equal.
    destruct (decide (out = [])); cbn in Hr;
      [specialize (Hcl None s')|specialize (Hcl (Some out) s')]; rewrite Hr in Hcl; by cbn in Hcl.
  - injection Hr as <- <-. destruct Hw. f_equal. eapply (Hthr i s). by rewrite E.
  - injection Hr as <- <-. by destruct (Hu u).
Qed.

(** So a call whose reply is lost happens twice, and the answer is that of the
    second one. *)
Lemma remote_again {A} (c : call A) i1 i2 s r1 s1 : call_ok c -> servers_ok s -> servers_ok s1 ->
  direct i1 c s = (r1, s1) -> (forall u, r1 <> UB u) -> r1 <> Throw WouldBlock ->
  remote (ReplyLost i1) (Answered i2) c s = direct i2 c s1.
Proof.
  intros Hc Hs Hs1 Hd Hu Hw. destruct (call_stub c) as (code & args & client & Hst).
  rewrite <- (remote_direct c i1 NotSent) in Hd by done.
  destruct (served_effect c code args client i1 s r1 s1 Hst Hd Hu Hw) as [out Ho].
  rewrite <- (remote_direct c i2 NotSent) by done. destruct Hst as (Hrem & _ & _). rewrite !Hrem.
  unfold mbind, prog_bind. by rewrite (send_again _ _ _ _ _ _ _ Ho).
Qed.

(** ** What that means *)

(** A transaction that was opened is found again. *)
Lemma newTxnID_again session block isDDL i s t s1 : sm_wf (the_sm s) -> servers_ok s ->
  0 <= session < 2 ^ 32 ->
  on_sm (newTxnID session block isDDL (io_sm i)) s = (Ret t, s1) -> txn_valid t = true ->
  servers_ok s1 /\ activeTxns (the_sm s1) !! session = Some (txn_id t).
Proof.
  intros Hwf Hs Hse Hrun Hv. unfold on_sm, on_tls, on_sms, zoom in Hrun. fold (the_sm s) in Hrun.
  destruct (newTxnID_spec session block isDDL (io_sm i) (the_sm s) Hwf) as [x Hx|Hn H0|r Hn H0 Ho Hr|Hn H0 Ho].
  - injection Hrun as <- <-. by destruct s as [[l f m] o a].
  - destruct block; [done|]. injection Hrun as <- <-. done.
  - destruct r as [[r| |] m]; cbn in Hr; done.
  - destruct (io_sm i) as [n|]; [|done]. injection Hrun as <- <-. cbn [txn_id].
    pose proof (opened_wf session isDDL (the_sm s) Hwf H0) as [Hmax Hsem Hpos _ _].
    destruct Hs as [Hver Hcat Htx Hcnt Hst Hoid Hai Hlk Hlc]. unfold overflows, int_range in *.
    split; [split|]; unfold the_sm in *; cbn; try done.
    all: try (unfold int_range; destruct isDDL; lia).
    all: try (cbn in Hsem, Hmax; lia).
    + intros sid x [[<- <-]|[_ Hx]]%lookup_insert_Some; [unfold int_range; lia|by apply Htx].
    + by rewrite lookup_insert_eq.
Qed.

(** When the reply to newTxnID is lost and the client library sends the
    request again, the session gets the transaction that was opened by the first
    request, and no second one is opened. *)
Theorem rpc_newTxn_retry session block isDDL i1 i2 s t s1 : sm_wf (the_sm s) -> servers_ok s ->
  0 <= session < 2 ^ 32 ->
  on_sm (newTxnID session block isDDL (io_sm i1)) s = (Ret t, s1) -> txn_valid t = true ->
  remote (ReplyLost i1) (Answered i2) (CNewTxnID session block isDDL) s = (Ret t, s1).
Proof.
  intros Hwf Hs Hse Hrun Hv.
  destruct (newTxnID_again session block isDDL i1 s t s1 Hwf Hs Hse Hrun Hv) as [Hs1 Ha].
  rewrite (remote_again _ i1 i2 s (Ret t) s1); [|done|done|done| |done|done].
  - cbn [direct]. unfold seen, on_sm, on_tls, on_sms, zoom. fold (the_sm s1). unfold newTxnID.
    erewrite bind_Ret by reflexivity. rewrite Ha. destruct t as [x []]; [|done].
    by destruct s1 as [[l f m] o a].
  - cbn [direct]. unfold seen. by rewrite Hrun.
Qed.

(** The lock that was granted is the one in the way. *)
Lemma lock_again tli o o2 t id t1 : dbrootList tli <> [] ->
  lock beyond tli o t = (Ret (id, set_id id tli), t1) -> locks t1 = <[id := set_id id tli]> (locks t) ->
  (forall k x, locks t !! k = Some x -> ~ conflict x tli) ->
  lock beyond tli o2 t1 = (Ret (0, tli), t1).
Proof.
  intros Hr Hl Hins Hno. unfold lock. erewrite bind_Ret by reflexivity.
  destruct (first_in _ (locks t1)) as [[k x]|] eqn:E.
  - destruct (first_in_Some _ _ _ _ E) as [Hk Hc%overlaps_conflict]. rewrite Hins in Hk.
    apply lookup_insert_Some in Hk as [[<- <-]|[_ Hk]]; [|by destruct (Hno _ _ Hk)]. by destruct tli.
  - exfalso. assert (Hk : locks t1 !! id = Some (set_id id tli)) by (by rewrite Hins, lookup_insert_eq).
    rewrite first_in_None in E. pose proof (E _ _ Hk) as Hc. cbn in Hc.
    assert (conflict (set_id id tli) tli) as Hcf.
    { split; [done|]. destruct (dbrootList tli) as [|r rs] eqn:Er; [done|]. exists r. cbn. rewrite Er. set_solver. }
    apply overlaps_conflict in Hcf. by rewrite Hcf in Hc.
Qed.

(** When the reply to a granted getTableLock is lost and the client library
    sends the request again, the caller is told that the table is locked, by itself,
    while the lock stays with the server under an id that nobody knows. *)
Theorem rpc_lock_retry tli i1 i2 s id s1 : tl_wf (tls s) -> ids_left (tls s) -> servers_ok s ->
  servers_ok s1 -> sendable tli -> dbrootList tli <> [] -> 0 < id ->
  direct i1 (CGetTableLock tli) s = (Ret (id, tli), s1) ->
  remote (ReplyLost i1) (Answered i2) (CGetTableLock tli) s = (Ret (0, tli), s1) /\
  locks (tls s1) !! id = Some (set_id id tli).
Proof.
  intros Hwf Hids Hs Hs1 Ht Hr Hid Hd.
  assert (Hl : exists t1, lock beyond tli (io_tl i1) (tls s) = (Ret (id, set_id id tli), t1) /\
     tls s1 = t1 /\ locks t1 = <[id := set_id id tli]> (locks (tls s)) /\
     (forall k x, locks (tls s) !! k = Some x -> ~ conflict x tli)).
  { cbn [direct] in Hd. unfold seen, on_tls, zoom in Hd.
    destruct (lock beyond tli (io_tl i1) (tls s)) as [[[j u]|e|u] t1] eqn:El; [|by case_decide|done].
    injection Hd as -> _ <-. exists t1.
    destruct (lock_cases beyond _ _ _ _ _ Hwf Hids El) as [(k & x & _ & _ & [= -> _] & _)|[(Hno & _ & [([= Hj ->] & Hlk)|([e He] & _)])|H]];
      [lia| |done|].
    - by rewrite <- Hj in *.
    - by destruct H. }
  destruct Hl as (t1 & El & Et & Hins & Hno).
  rewrite (remote_again _ i1 i2 s (Ret (id, tli)) s1); [|done..].
  split; [|by rewrite Et, Hins, lookup_insert_eq].
  cbn [direct]. unfold seen, on_tls, zoom. rewrite Et.
  rewrite (lock_again tli (io_tl i1) (io_tl i2) (tls s) id t1); [|done..]. cbn.
  destruct s1, tli; cbn in *; by subst.
Qed.

End Rpc.

(** ** A controller that has just started *)

Definition demo_io : io := mkIo (Wrote 8) Saved 0 [] [] (fun _ _ => Some false).
Definition demo_servers : servers := mkServers demo_tls (mkOID 12240 []) ∅.
(** The same after a lock on table 3000 was granted. *)
Definition demo_servers1 : servers := mkServers demo_tls1 (mkOID 12240 []) ∅.

Lemma demo_sendable oid : 0 <= oid < 2 ^ 32 -> sendable (demo_lock oid [1; 2]).
Proof. intros H. split; cbn; unfold int_range; try lia; [done|]. repeat constructor; lia. Qed.

Lemma demo_ok t : the_sm (mkServers t (mkOID 12240 []) ∅) = sms t ->
  _verID (sms t) = 0 -> _sysCatVerID (sms t) = 0 -> systemState (sms t) = 0 -> activeTxns (sms t) = ∅ ->
  (forall id x, locks t !! id = Some x -> sendable x) -> Z.of_nat (base.size (locks t)) < 2 ^ 64 ->
  servers_ok (mkServers t (mkOID 12240 []) ∅).
Proof.
  intros E Hv Hc Hst Ha Hl Hn.
  split; rewrite ?E, ?Hv, ?Hc, ?Hst, ?Ha; unfold int_range; cbn [oids tls aiManager currentOID];
    try lia; try done.
Qed.

Lemma demo_servers_ok : servers_ok demo_servers.
Proof. by apply demo_ok. Qed.

Lemma demo_locks1 : locks demo_tls1 = {[1 := set_id 1 (demo_lock 3000 [1; 2])]}.
Proof. reflexivity. Qed.

Lemma demo_servers1_ok : servers_ok demo_servers1.
Proof.
  apply demo_ok; try reflexivity.
  intros id t Ht. rewrite demo_locks1 in Ht. apply lookup_singleton_Some in Ht as [_ <-].
  destruct (demo_sendable 3000) as []; [lia|]. by split; cbn.
Qed.

(** A lock request over the wire. *)
Theorem rpc_transparent_witness :
  remote roomy (Answered demo_io) NotSent (CGetTableLock (demo_lock 3000 [1; 2])) demo_servers =
  direct roomy demo_io (CGetTableLock (demo_lock 3000 [1; 2])) demo_servers.
Proof.
  apply (rpc_transparent roomy (CGetTableLock (demo_lock 3000 [1; 2])) demo_io NotSent demo_servers);
    [apply (demo_sendable 3000); lia|exact demo_servers_ok].
Defined.

(** Session 7 gets transaction 1, although the first reply was lost. *)
Theorem rpc_newTxn_retry_witness :
  fst (remote roomy (ReplyLost demo_io) (Answered demo_io) (CNewTxnID 7 false false) demo_servers) =
  Ret (mkTxn 1 true).
Proof.
  rewrite (rpc_newTxn_retry roomy 7 false false demo_io demo_io demo_servers (mkTxn 1 true)
    (snd (on_sm (newTxnID 7 false false (Wrote 8)) demo_servers)));
    [reflexivity|apply (server_wf (Some 2) [] true true true); intros n [= <-]; lia
    |exact demo_servers_ok|lia|reflexivity|reflexivity].
Defined.

(** The client is told that its own lock is in the way. *)
Theorem rpc_lock_retry_witness :
  remote roomy (ReplyLost demo_io) (Answered demo_io) (CGetTableLock (demo_lock 3000 [1; 2])) demo_servers =
    (Ret (0, demo_lock 3000 [1; 2]), demo_servers1) /\
  locks (tls demo_servers1) !! 1 = Some (set_id 1 (demo_lock 3000 [1; 2])).
Proof.
  apply (rpc_lock_retry roomy (demo_lock 3000 [1; 2]) demo_io demo_io demo_servers 1 demo_servers1);
    [exact demo_tls_wf|vm_compute; reflexivity|exact demo_servers_ok|exact demo_servers1_ok
    |apply demo_sendable; lia|done|lia|reflexivity].
Defined.
