(* ===== verification/Controller.v ===== *)
(** * The controller's commands: src/versioning/BRM/masterdbrmnode.{h,cpp}

    The controller sends every change to all workers, compares what they
    answer, and tells them to confirm or to undo it.  What it asks of a worker
    is the class [Worker]; the connections can fail at every call. *)
From Stdlib Require Import ZArith Lia.
From S2P Require Import Prelude SessionManager.

Local Open Scope Z_scope.

(** brmtypes.h *)
Definition ERR_FAILURE : Z := 1.
Definition ERR_SLAVE_INCONSISTENCY : Z := 2.
Definition ERR_NETWORK : Z := 3.
Definition ERR_READONLY : Z := 5.
Definition ERR_INVALID_OP_LAST_PARTITION : Z := 10.
Definition ERR_PARTITION_DISABLED : Z := 11.
Definition ERR_NOT_EXIST_PARTITION : Z := 12.
Definition ERR_PARTITION_ENABLED : Z := 13.
Definition ERR_NO_PARTITION_PERFORMED : Z := 16.
Definition FLUSH_INODE_CACHES : Z := 16.
Definition BRM_CLEAR : Z := 17.
Definition TAKE_SNAPSHOT : Z := 31.
Definition DELETE_PARTITION : Z := 33.
Definition MARK_PARTITION_FOR_DELETION : Z := 34.
Definition RESTORE_PARTITION : Z := 35.

(** What a worker does with the messages it gets: a command is carried out and
    answered; undo and confirm have no answer.  [cmd_code] is the first byte of
    a command. *)
Class Worker (C W : Type) := {
  cmd_code : C -> Z;
  w_exec : C -> W -> list Z * W;
  w_undo : W -> W;
  w_confirm : W -> W;
}.

Section Controller.
Context {C W : Type} `{!Worker C W}.

(** ** Connections *)

(** A connection: the worker behind it, the answers it has sent, and which of
    the next writes and reads fail; after the end of a list they work. *)
Record link := mkLink {
  peer : W;
  inbox : list (list Z);
  wr_faults : list bool;
  rd_faults : list bool;
}.

Definition faulty (l : list bool) : bool := default false (head l).

(** [write]: [false] if it throws; else the worker handles the message. *)
Definition link_write (act : W -> option (list Z) * W) (l : link) : bool * link :=
  if faulty (wr_faults l) then (false, mkLink (peer l) (inbox l) (tail (wr_faults l)) (rd_faults l))
  else
    let '(reply, w) := act (peer l) in
    (true, mkLink w (inbox l ++ option_list reply) (tail (wr_faults l)) (rd_faults l)).

(** The loop on [read]: [None] if it throws or times out; an answer that comes
    later stays unread. *)
Definition link_read (l : link) : option (list Z) * link :=
  let l' := fun inbox' => mkLink (peer l) inbox' (wr_faults l) (tail (rd_faults l)) in
  if faulty (rd_faults l) then (None, l' (inbox l))
  else match inbox l with
       | [] => (None, l' [])
       | [] :: rest => (None, l' rest)
       | reply :: rest => (Some reply, l' rest)
       end.

Definition act_exec (c : C) (w : W) : option (list Z) * W :=
  let '(r, w') := w_exec c w in (Some r, w').
Definition act_undo (w : W) : option (list Z) * W := (None, w_undo w).
Definition act_confirm (w : W) : option (list Z) * W := (None, w_confirm w).

(** ** State *)

Record controller := mkCtl {
  slaves : list link;
  iSlave : nat;
  readOnly : bool;
  halting : bool;
  sm : SessionManager;
}.
Definition set_slaves (ls : list link) (i : nat) (s : controller) : controller :=
  mkCtl ls i (readOnly s) (halting s) (sm s).
Definition set_readOnly (b : bool) (s : controller) : controller :=
  mkCtl (slaves s) (iSlave s) b (halting s) (sm s).
Definition set_halting (b : bool) (s : controller) : controller :=
  mkCtl (slaves s) (iSlave s) (readOnly s) b (sm s).

(** ** Distributing, gathering, comparing *)

(** The loop of [distribute]: the connections after it, and where it stopped. *)
Fixpoint dist_loop (act : W -> option (list Z) * W) (ls : list link) : list link * option nat :=
  match ls with
  | [] => ([], None)
  | l :: ls' =>
      match link_write act l with
      | (false, l') => (l' :: ls', Some 0%nat)
      | (true, l') => let '(ls'', k) := dist_loop act ls' in (l' :: ls'', S <$> k)
      end
  end.

Definition distribute (act : W -> option (list Z) * W) : prog controller unit := fun s =>
  if halting s then (Ret tt, set_slaves (slaves s) 0 s)
  else
    let '(ls, k) := dist_loop act (slaves s) in
    match k with
    | Some i => (Throw RuntimeError, set_slaves ls i s)
    | None => (Ret tt, set_slaves ls (length ls) s)
    end.

(** The loop of [gatherResponses]. *)
Fixpoint gather_loop (ls : list link) : list link * list (list Z) * option nat :=
  match ls with
  | [] => ([], [], None)
  | l :: ls' =>
      match link_read l with
      | (None, l') => (l' :: ls', [], Some 0%nat)
      | (Some r, l') => let '(ls'', rs, k) := gather_loop ls' in (l' :: ls'', r :: rs, S <$> k)
      end
  end.

(** [gatherResponses] appends to [responses]; a read that fails starts a halt. *)
Definition gatherResponses (responses : list (list Z)) : prog controller (list (list Z)) := fun s =>
  if halting s then (Ret responses, set_slaves (slaves s) 0 s)
  else
    let '(ls, rs, k) := gather_loop (slaves s) in
    match k with
    | Some i => (Ret (responses ++ rs), set_halting true (set_slaves ls i s))
    | None => (Ret (responses ++ rs), set_slaves ls (length ls) s)
    end.

(** Are two neighbours different? *)
Fixpoint differ (l : list (list Z)) : bool :=
  match l with
  | a :: ((b :: _) as l') => negb (bool_decide (a = b)) || differ l'
  | _ => false
  end.

Definition compareResponses (responses : list (list Z)) : prog controller Z :=
  match responses with
  | [] => undefined OutOfBounds
  | [] :: _ => modify (set_readOnly true);; mret ERR_NETWORK
  | (errCode :: _) :: _ =>
      h ← gets halting;
      mret (if differ responses && negb h then ERR_SLAVE_INCONSISTENCY else errCode)
  end.

(** [undo] goes to the workers up to where the last loop stopped. *)
Definition undo : prog controller unit :=
  modify (fun s =>
    let n := if decide (iSlave s < length (slaves s))%nat then S (iSlave s) else length (slaves s) in
    set_slaves (((fun l => snd (link_write act_undo l)) <$> take n (slaves s)) ++ drop n (slaves s))
      (iSlave s) s).

Definition confirm : prog controller unit := distribute act_confirm.

(** ** One command *)

Inductive round_result :=
  | RNetwork
  | RHalted
  | RDone (err : Z) (responses : list (list Z)).

(** The loop that sends a command again while the answers differ; the answers
    of earlier rounds stay in [responses]. *)
Fixpoint rounds (more : nat) (c : C) (responses : list (list Z)) : prog controller round_result :=
  sent ← try_catch (distribute (act_exec c);; mret true) (fun _ => mret false);
  if negb sent then undo;; modify (set_readOnly true);; mret RNetwork
  else
    rs ← gatherResponses responses;
    h ← gets halting;
    if (h : bool) then undo;; mret RHalted
    else
      err ← compareResponses rs;
      if decide (err = ERR_SLAVE_INCONSISTENCY) then
        match more with
        | O => modify (set_readOnly true);; mret (RDone err rs)
        | S more' => rounds more' c rs
        end
      else mret (RDone err rs).

Definition is_partition_cmd (code : Z) : bool :=
  bool_decide (code ∈ [DELETE_PARTITION; MARK_PARTITION_FOR_DELETION; RESTORE_PARTITION]).
Definition is_partition_warning (err : Z) : bool :=
  bool_decide (err ∈ [ERR_PARTITION_DISABLED; ERR_PARTITION_ENABLED; ERR_INVALID_OP_LAST_PARTITION;
                      ERR_NOT_EXIST_PARTITION; ERR_NO_PARTITION_PERFORMED]).
Definition is_unconfirmed_cmd (code : Z) : bool :=
  bool_decide (code ∈ [FLUSH_INODE_CACHES; BRM_CLEAR; TAKE_SNAPSHOT]).

Inductive attempt_result := Reply (r : list Z) | Halted.

(** The end of a command: confirm, unless it needs no second phase, and send
    the first answer. *)
Definition finish (c : C) (responses : list (list Z)) : prog controller attempt_result :=
  (if is_unconfirmed_cmd (cmd_code c) then mret tt
   else try_catch confirm
          (fun _ => h ← gets halting; if (h : bool) then mret tt else modify (set_readOnly true)));;
  match responses with
  | [] => undefined OutOfBounds
  | r :: _ => mret (Reply r)
  end.

(** From taking the lock to the answer. *)
Definition attempt (c : C) : prog controller attempt_result :=
  txns ← gets (fun s => getTxnCount (sm s));
  if bool_decide (cmd_code c = BRM_CLEAR) && negb (bool_decide (txns = 0)) then
    mret (Reply [ERR_FAILURE])
  else
    r ← rounds 2 c [];
    match r with
    | RNetwork => mret (Reply [ERR_NETWORK])
    | RHalted => mret Halted
    | RDone err rs =>
        if is_partition_cmd (cmd_code c) && negb (bool_decide (err = 0)) then
          (if is_partition_warning err then mret tt else undo);;
          finish c rs
        else
          h ← gets halting;
          if (h : bool) then undo;; mret Halted
          else if decide (err = 0) then finish c rs
          else undo;; mret (Reply [err])
    end.

(** ** Halts *)

(** What ends a halt: [doResume], or [doReload] before it, which connects to
    the workers again and tells them all to undo; the faults are those of the
    new connections. *)
Inductive resume_event := Resume | Reload (faults : list (list bool * list bool)).

Definition reconnect (faults : list (list bool * list bool)) (ls : list link) : list link :=
  imap (fun i l => let '(wf, rf) := default ([], []) (faults !! i) in mkLink (peer l) [] wf rf) ls.

Definition doResume : prog controller unit := modify (set_halting false).
Definition doReload (faults : list (list bool * list bool)) : prog controller unit :=
  modify (fun s => set_slaves (reconnect faults (slaves s)) (length (slaves s)) s);;
  undo;;
  modify (set_readOnly false).

Definition run_event (e : resume_event) : prog controller unit :=
  match e with
  | Resume => doResume
  | Reload faults => doReload faults;; doResume
  end.

Definition try_once (c : C) (again : prog controller (list Z)) : prog controller (list Z) :=
  ro ← gets readOnly;
  if (ro : bool) then mret [ERR_READONLY]
  else
    r ← attempt c;
    match r with
    | Reply bytes => mret bytes
    | Halted => again
    end.

(** Waiting for the end of a halt; after five minutes without one the
    controller becomes read-only. *)
Fixpoint halted_wait (c : C) (events : list resume_event) : prog controller (list Z) :=
  match events with
  | [] => modify (fun s => set_halting false (set_readOnly true s));; mret [ERR_READONLY]
  | e :: events' => run_event e;; try_once c (halted_wait c events')
  end.

(** The part of [msgProcessor] that handles a command for the workers;
    [events] are the halts that end while it runs. *)
Definition process (c : C) (events : list resume_event) : prog controller (list Z) :=
  h ← gets halting;
  if (h : bool) then halted_wait c events else try_once c (halted_wait c events).

Definition setReadOnly (ro : bool) : prog controller unit := modify (set_readOnly ro).
Definition doHalt : prog controller unit := modify (set_halting true).

End Controller.

Arguments link W : clear implicits.
Arguments mkLink {W} _ _ _ _.
Arguments controller W : clear implicits.
Arguments mkCtl {W} _ _ _ _ _.
