(* ===== verification/ControllerProofs.v ===== *)
(** * The controller: replicas as one copy, failures as if nothing had happened *)
From Stdlib Require Import ZArith Lia.
From S2P Require Import Prelude SessionManager Controller.

Local Open Scope Z_scope.

Section Proofs.
Context {C W : Type} `{!Worker C W}.
Implicit Types (c : C) (w : W) (ws : list W).

(** A connection without faults and without unread answers. *)
Definition clean (w : W) : link W := mkLink w [] [] [].
Definition exec1 c w : W := snd (w_exec c w).
Definition reply1 c w : list Z := fst (w_exec c w).

(** The worker answers: with an error code at least. *)
Definition replies c w : Prop := reply1 c w <> [].
(** It does so each time it may be asked. *)
Definition answers c w : Prop :=
  replies c w /\ replies c (exec1 c w) /\ replies c (exec1 c (exec1 c w)).

(** ** The loops on connections that work *)

Lemma dist_act (act : W -> option (list Z) * W) ws :
  dist_loop act (clean <$> ws) =
    ((fun w => mkLink (snd (act w)) (option_list (fst (act w))) [] []) <$> ws, None).
Proof.
  induction ws as [|w ws IH]; [done|]. cbn [fmap list_fmap dist_loop].
  unfold link_write at 1. cbn [clean wr_faults faulty head default peer inbox rd_faults app tail].
  change (list_fmap _ _ clean ws) with (clean <$> ws). rewrite IH. by destruct (act w).
Qed.

Lemma gather_replies c ws : Forall (replies c) ws ->
  gather_loop ((fun w => mkLink (exec1 c w) [reply1 c w] [] []) <$> ws) =
    (clean <$> (exec1 c <$> ws), reply1 c <$> ws, None).
Proof.
  induction 1 as [|w ws Ha _ IH]; [done|]. rewrite !fmap_cons. cbn [gather_loop].
  rewrite IH. unfold link_read. cbn [rd_faults inbox faulty head default peer wr_faults tail].
  unfold replies in Ha. by destruct (reply1 c w).
Qed.

(** The controller with these workers, all connections clean. *)
Definition ctl (ws : list W) (i : nat) (ro h : bool) (m : SessionManager) : controller W :=
  mkCtl (clean <$> ws) i ro h m.

Lemma distribute_exec c ws i ro m :
  distribute (act_exec c) (ctl ws i ro false m) =
    (Ret tt, mkCtl ((fun w => mkLink (exec1 c w) [reply1 c w] [] []) <$> ws) (length ws) ro false m).
Proof.
  unfold distribute, ctl. cbn [halting slaves]. rewrite dist_act. unfold set_slaves.
  cbn [readOnly halting sm]. rewrite length_fmap. do 2 f_equal.
  apply list_fmap_ext. intros j w _. unfold act_exec, exec1, reply1. by destruct (w_exec c w).
Qed.

Lemma gather_clean c ws i ro m rs : Forall (replies c) ws ->
  gatherResponses rs
    (mkCtl ((fun w => mkLink (exec1 c w) [reply1 c w] [] []) <$> ws) i ro false m) =
    (Ret (rs ++ (reply1 c <$> ws)), ctl (exec1 c <$> ws) (length ws) ro false m).
Proof.
  intros Ha. unfold gatherResponses. cbn [halting slaves]. rewrite gather_replies by done.
  unfold set_slaves. cbn [readOnly halting sm]. by rewrite !length_fmap.
Qed.

(** [undo] after a loop that went through. *)
Lemma undo_all ws i ro h m : (length ws <= i)%nat ->
  undo (ctl ws i ro h m) = (Ret tt, ctl (w_undo <$> ws) i ro h m).
Proof.
  intros Hi. unfold undo, modify, ctl. cbn [iSlave slaves]. rewrite length_fmap.
  rewrite decide_False by lia. unfold set_slaves. cbn [readOnly halting sm].
  rewrite firstn_all2 by (rewrite length_fmap; lia). rewrite drop_ge by (rewrite length_fmap; lia).
  rewrite app_nil_r, <- !list_fmap_compose. done.
Qed.

Lemma confirm_all ws i ro m :
  confirm (ctl ws i ro false m) = (Ret tt, ctl (w_confirm <$> ws) (length ws) ro false m).
Proof.
  unfold confirm, distribute, ctl. cbn [halting slaves]. rewrite dist_act. unfold set_slaves.
  cbn [readOnly halting sm]. rewrite length_fmap, <- list_fmap_compose. done.
Qed.

(** ** Rounds *)

(** What the answers so far amount to. *)
Definition verdict (rs : list (list Z)) : Z :=
  if differ rs then ERR_SLAVE_INCONSISTENCY else default 0 (head (default [] (head rs))).

Lemma compare_clean rs (s : controller W) : halting s = false -> (exists r, head rs = Some r /\ r <> []) ->
  compareResponses rs s = (Ret (verdict rs), s).
Proof.
  intros Hh (r & Hr & Hne). destruct rs as [|r' rs]; [done|]. injection Hr as ->.
  destruct r as [|b r]; [done|]. unfold compareResponses.
  erewrite bind_Ret by reflexivity. rewrite Hh. cbn [negb]. rewrite andb_true_r.
  unfold verdict. cbn [head default]. by destruct (differ _).
Qed.

(** One round. *)
Lemma round_clean more c ws i ro m rs : Forall (replies c) ws -> ws <> [] ->
  (rs = [] \/ exists r, head rs = Some r /\ r <> []) ->
  let rs' := rs ++ (reply1 c <$> ws) in
  let s' := ctl (exec1 c <$> ws) (length ws) ro false m in
  rounds more c rs (ctl ws i ro false m) =
    if decide (verdict rs' = ERR_SLAVE_INCONSISTENCY) then
      match more with
      | O => (Ret (RDone ERR_SLAVE_INCONSISTENCY rs'), set_readOnly true s')
      | S more' => rounds more' c rs' s'
      end
    else (Ret (RDone (verdict rs') rs'), s').
Proof.
  intros Ha Hws Hrs rs' s'.
  assert (Hhead : exists r, head rs' = Some r /\ r <> []).
  { destruct Hrs as [->|(r & Hr & Hne)].
    - destruct Ha as [|w ws' Hw _]; [done|]. by exists (reply1 c w).
    - exists r. split; [|done]. subst rs'. by destruct rs. }
  destruct more; cbn [rounds];
    (erewrite bind_Ret by (unfold try_catch, mbind, prog_bind; rewrite distribute_exec; reflexivity));
    cbn [negb]; (erewrite bind_Ret by (apply gather_clean, Ha)); fold rs'; fold s';
    (erewrite bind_Ret by reflexivity); cbn [halting s' ctl];
    (erewrite bind_Ret by (apply compare_clean; [done|exact Hhead]));
    destruct (decide _) as [E|E]; rewrite ?E; done.
Qed.

Lemma differ_app l l' : differ l = true -> differ (l ++ l') = true.
Proof.
  revert l'. induction l as [|a l IH]; intros l'; [done|]. destruct l as [|b l]; [done|].
  cbn [differ app]. intros [H|H]%orb_true_iff; [by rewrite H|].
  rewrite orb_true_iff. right. by apply IH.
Qed.

(** Answers are never taken back: what was inconsistent stays so. *)
Lemma verdict_app rs l : rs <> [] -> verdict rs = ERR_SLAVE_INCONSISTENCY ->
  verdict (rs ++ l) = ERR_SLAVE_INCONSISTENCY.
Proof.
  intros Hne. unfold verdict. destruct (differ rs) eqn:E.
  - by rewrite differ_app.
  - destruct rs as [|r rs]; [done|]. intros H. cbn [app].
    destruct (differ (r :: rs ++ l)); [done|exact H].
Qed.

(** All the rounds of a command: one, or three when the answers differ. *)
Lemma rounds_clean c ws i ro m : Forall (answers c) ws -> ws <> [] ->
  let rs := reply1 c <$> ws in
  exists more_rs, 
  rounds 2 c [] (ctl ws i ro false m) =
    if decide (verdict rs = ERR_SLAVE_INCONSISTENCY) then
      (Ret (RDone ERR_SLAVE_INCONSISTENCY (rs ++ more_rs)),
       ctl (exec1 c <$> (exec1 c <$> (exec1 c <$> ws))) (length ws) true false m)
    else (Ret (RDone (verdict rs) rs), ctl (exec1 c <$> ws) (length ws) ro false m).
Proof.
  intros Ha Hws rs.
  assert (Hne : forall f : W -> W, f <$> ws <> []) by (intros f E; by apply fmap_nil_inv in E).
  assert (Hrs : rs <> []) by (intros E; by apply fmap_nil_inv in E).
  assert (Hhd : exists r, head rs = Some r /\ r <> []).
  { subst rs. destruct Ha as [|w ws' [Hw _] _]; [done|]. by exists (reply1 c w). }
  assert (H1 : Forall (replies c) ws) by (eapply Forall_impl; [exact Ha|]; by intros w (? & _)).
  assert (H2 : Forall (replies c) (exec1 c <$> ws))
    by (apply Forall_fmap; eapply Forall_impl; [exact Ha|]; by intros w (_ & ? & _)).
  assert (H3 : Forall (replies c) (exec1 c <$> (exec1 c <$> ws)))
    by (do 2 apply Forall_fmap; eapply Forall_impl; [exact Ha|]; by intros w (_ & _ & ?)).
  rewrite round_clean by (done || by left). cbn [app]. fold rs.
  destruct (decide _) as [Hv|Hv]; [|by exists []].
  assert (Hhd' : forall l, exists r, head (rs ++ l) = Some r /\ r <> []).
  { intros l. destruct Hhd as (r & Hr & Hr'). exists r. split; [|done]. by destruct rs. }
  rewrite round_clean by (done || auto || by right).
  rewrite decide_True by (by apply verdict_app).
  rewrite round_clean; [|done|by rewrite <- list_fmap_compose; apply Hne|by right; apply Hhd'].
  rewrite <- app_assoc. rewrite decide_True by (by apply verdict_app).
  eexists. unfold set_readOnly, ctl. cbn [slaves iSlave halting sm].
  rewrite !length_fmap. reflexivity.
Qed.

(** ** A command on connections that work *)

(** The workers after the rounds, and whether the controller is read-only. *)
Definition after_rounds c (err : Z) (w : W) : W :=
  if decide (err = ERR_SLAVE_INCONSISTENCY) then exec1 c (exec1 c (exec1 c w)) else exec1 c w.

(** The end of a command, at one worker: undone or not, confirmed or not. *)
Definition settle c (err : Z) (w : W) : W :=
  if is_partition_cmd (cmd_code c) && negb (bool_decide (err = 0)) then
    w_confirm (if is_partition_warning err then w else w_undo w)
  else if decide (err = 0) then
    if is_unconfirmed_cmd (cmd_code c) then w else w_confirm w
  else w_undo w.

Definition refused c (m : SessionManager) : bool :=
  bool_decide (cmd_code c = BRM_CLEAR) && negb (bool_decide (getTxnCount m = 0)).

(** The answer to the client. *)
Definition answer c (err : Z) (r0 : list Z) : list Z :=
  if is_partition_cmd (cmd_code c) then r0 else if decide (err = 0) then r0 else [err].

Lemma finish_clean c ws i ro m r rs : exists i',
  finish c (r :: rs) (ctl ws i ro false m) =
    (Ret (Reply r),
     ctl (if is_unconfirmed_cmd (cmd_code c) then ws else w_confirm <$> ws) i' ro false m).
Proof.
  unfold finish. destruct (is_unconfirmed_cmd _).
  - by exists i.
  - exists (length ws).
    by erewrite bind_Ret by (unfold try_catch; rewrite confirm_all; reflexivity).
Qed.

Lemma partition_confirmed code : is_partition_cmd code = true -> is_unconfirmed_cmd code = false.
Proof.
  unfold is_partition_cmd, is_unconfirmed_cmd. rewrite bool_decide_eq_true, bool_decide_eq_false.
  rewrite !elem_of_cons. unfold DELETE_PARTITION, MARK_PARTITION_FOR_DELETION, RESTORE_PARTITION,
    FLUSH_INODE_CACHES, BRM_CLEAR, TAKE_SNAPSHOT.
  intros H [E|[E|[E|E%not_elem_of_nil]]]; [..|done];
    destruct H as [H|[H|[H|H%not_elem_of_nil]]]; congruence || done.
Qed.

Lemma attempt_done c ws i ro m err r rs : (length ws <= i)%nat -> exists i',
  (if is_partition_cmd (cmd_code c) && negb (bool_decide (err = 0)) then
     (if is_partition_warning err then mret tt else undo);; finish c (r :: rs)
   else
     h ← gets halting;
     if (h : bool) then undo;; mret Halted
     else if decide (err = 0) then finish c (r :: rs)
     else undo;; mret (Reply [err])) (ctl ws i ro false m)
  = (Ret (Reply (answer c err r)), ctl (settle c err <$> ws) i' ro false m).
Proof.
  intros Hi. unfold answer, settle.
  destruct (is_partition_cmd (cmd_code c)) eqn:Ep; cbn [andb].
  - pose proof (partition_confirmed _ Ep) as Eu.
    destruct (decide (err = 0)) as [->|He]; cbn [bool_decide negb].
    + rewrite (bool_decide_eq_true_2 (0 = 0)) by done. cbn [negb]. erewrite bind_Ret by reflexivity.
      cbn [halting ctl].
      destruct (finish_clean c ws i ro m r rs) as [i' ->]. exists i'. by rewrite Eu.
    + rewrite (bool_decide_eq_false_2 (err = 0)) by done. cbn [negb].
      destruct (is_partition_warning err).
      * erewrite bind_Ret by reflexivity. destruct (finish_clean c ws i ro m r rs) as [i' ->].
        exists i'. by rewrite Eu.
      * erewrite bind_Ret by (by apply undo_all).
        destruct (finish_clean c (w_undo <$> ws) i ro m r rs) as [i' ->].
        exists i'. by rewrite Eu, <- list_fmap_compose.
  - erewrite bind_Ret by reflexivity. cbn [halting ctl].
    destruct (decide (err = 0)) as [->|He].
    + destruct (finish_clean c ws i ro m r rs) as [i' ->]. exists i'.
      destruct (is_unconfirmed_cmd _); [|done]. by rewrite list_fmap_id.
    + erewrite bind_Ret by (by apply undo_all). by eexists.
Qed.

Lemma attempt_clean c w0 ws i m : Forall (answers c) (w0 :: ws) ->
  let err := verdict (reply1 c <$> w0 :: ws) in
  exists i', attempt c (ctl (w0 :: ws) i false false m) =
    if refused c m then (Ret (Reply [ERR_FAILURE]), ctl (w0 :: ws) i false false m)
    else (Ret (Reply (answer c err (reply1 c w0))),
          ctl ((fun w => settle c err (after_rounds c err w)) <$> w0 :: ws) i'
            (bool_decide (err = ERR_SLAVE_INCONSISTENCY)) false m).
Proof.
  intros Ha err. unfold attempt. erewrite bind_Ret by reflexivity. cbn [sm ctl].
  fold (refused c m). destruct (refused c m); [by exists i|].
  destruct (rounds_clean c (w0 :: ws) i false m Ha ltac:(done)) as [more_rs Hr]. fold err in Hr.
  unfold after_rounds. destruct (decide (err = ERR_SLAVE_INCONSISTENCY)) as [E|E].
  - erewrite bind_Ret by exact Hr. rewrite E. change (reply1 c <$> w0 :: ws) with (reply1 c w0 :: (reply1 c <$> ws)). cbn [app].
    destruct (attempt_done c (exec1 c <$> (exec1 c <$> (exec1 c <$> w0 :: ws)))
      (length (w0 :: ws)) true m ERR_SLAVE_INCONSISTENCY (reply1 c w0)
      ((reply1 c <$> ws) ++ more_rs)) as [i' ->]; [by rewrite !length_fmap|].
    exists i'. by rewrite <- !list_fmap_compose.
  - erewrite bind_Ret by exact Hr. change (reply1 c <$> w0 :: ws) with (reply1 c w0 :: (reply1 c <$> ws)).
    destruct (attempt_done c (exec1 c <$> w0 :: ws) (length (w0 :: ws)) false m err (reply1 c w0)
      (reply1 c <$> ws)) as [i' ->]; [by rewrite !length_fmap|].
    exists i'. by rewrite <- !list_fmap_compose, bool_decide_eq_false_2.
Qed.

Lemma process_clean c events w0 ws i m : Forall (answers c) (w0 :: ws) ->
  let err := verdict (reply1 c <$> w0 :: ws) in
  exists i', process c events (ctl (w0 :: ws) i false false m) =
    if refused c m then (Ret [ERR_FAILURE], ctl (w0 :: ws) i false false m)
    else (Ret (answer c err (reply1 c w0)),
          ctl ((fun w => settle c err (after_rounds c err w)) <$> w0 :: ws) i'
            (bool_decide (err = ERR_SLAVE_INCONSISTENCY)) false m).
Proof.
  intros Ha err. destruct (attempt_clean c w0 ws i m Ha) as [i' Hat]. fold err in Hat. exists i'.
  unfold process. erewrite bind_Ret by reflexivity. cbn [halting ctl].
  unfold try_once. erewrite bind_Ret by reflexivity. cbn [readOnly ctl].
  destruct (refused c m); by erewrite bind_Ret by exact Hat.
Qed.

(** ** One copy *)

(** The command on a single worker: the answer, the worker and whether the
    controller ends up read-only. *)
Definition single c (m : SessionManager) w : list Z * W * bool :=
  let err := default 0 (head (reply1 c w)) in
  if refused c m then ([ERR_FAILURE], w, false)
  else (answer c err (reply1 c w), settle c err (after_rounds c err w),
        bool_decide (err = ERR_SLAVE_INCONSISTENCY)).

Lemma verdict_same n (r : list Z) : verdict (replicate (S n) r) = default 0 (head r).
Proof.
  unfold verdict. assert (differ (replicate (S n) r) = false) as ->; [|done].
  induction n as [|n IH]; [done|]. cbn [replicate differ] in *. rewrite bool_decide_eq_true_2 by done. exact IH.
Qed.

(** Equal workers whose answer is no call for another round. *)
Lemma process_agree n c events w i m : replies c w -> refused c m = false ->
  let err := default 0 (head (reply1 c w)) in
  err <> ERR_SLAVE_INCONSISTENCY ->
  exists i', process c events (ctl (replicate (S n) w) i false false m) =
    (Ret (answer c err (reply1 c w)), ctl (replicate (S n) (settle c err (exec1 c w))) i' false false m).
Proof.
  intros Ha Hr err He. unfold process. erewrite bind_Ret by reflexivity. cbn [halting ctl].
  unfold try_once. erewrite bind_Ret by reflexivity. cbn [readOnly ctl].
  destruct (attempt_done c (exec1 c <$> replicate (S n) w) (length (replicate (S n) w)) false m err
    (reply1 c w) (reply1 c <$> replicate n w)) as [i' Hd]; [by rewrite length_fmap|].
  exists i'. assert (Hat : attempt c (ctl (replicate (S n) w) i false false m) =
    (Ret (Reply (answer c err (reply1 c w))),
     ctl (replicate (S n) (settle c err (exec1 c w))) i' false false m));
    [|by erewrite bind_Ret by exact Hat].
  unfold attempt. erewrite bind_Ret by reflexivity. cbn [sm ctl]. fold (refused c m). rewrite Hr.
  erewrite bind_Ret; [|rewrite round_clean;
    [|by apply Forall_replicate|done|by left]; cbn [app]; rewrite fmap_replicate, verdict_same, decide_False by done;
    reflexivity].
  fold err. rewrite !fmap_replicate in Hd. rewrite !fmap_replicate. exact Hd.
Qed.

(** ** Connections that fail *)

(** Undoing the command brings the worker back, and there is nothing to undo
    in a worker that has not got it. *)
Definition undoes c w : Prop := w_undo (exec1 c w) = w /\ w_undo w = w.

Lemma dist_app (act : W -> option (list Z) * W) ls ls' out : dist_loop act ls = (out, None) ->
  dist_loop act (ls ++ ls') =
    let '(out', k) := dist_loop act ls' in (out ++ out', Nat.add (length ls) <$> k).
Proof.
  revert out. induction ls as [|l ls IH]; intros out; cbn [dist_loop app length].
  - intros [= <-]. destruct (dist_loop act ls') as [out' [k|]]; done.
  - destruct (link_write act l) as [[] l']; [|done].
    destruct (dist_loop act ls) as [out1 [k|]]; [done|]. intros [= <-]. rewrite (IH out1 eq_refl).
    destruct (dist_loop act ls') as [out' [k|]]; done.
Qed.

Lemma gather_app ls ls' out rs : gather_loop (W := W) ls = (out, rs, None) ->
  gather_loop (ls ++ ls') =
    let '(out', rs', k) := gather_loop ls' in (out ++ out', rs ++ rs', Nat.add (length ls) <$> k).
Proof.
  revert out rs. induction ls as [|l ls IH]; intros out rs; cbn [gather_loop app length].
  - intros [= <- <-]. destruct (gather_loop ls') as [[out' rs'] [k|]]; done.
  - destruct (link_read l) as [[r|] l']; [|done].
    destruct (gather_loop ls) as [[out1 rs1] [k|]]; [done|]. intros [= <- <-].
    rewrite (IH out1 rs1 eq_refl). destruct (gather_loop ls') as [[out' rs'] [k|]]; done.
Qed.

(** A worker that has carried the command out, its answer unread. *)
Definition sent c w : link W := mkLink (exec1 c w) [reply1 c w] [] [].

Lemma dist_exec c ws : dist_loop (act_exec c) (clean <$> ws) = (sent c <$> ws, None).
Proof.
  rewrite dist_act. f_equal. apply list_fmap_ext. intros j w _.
  unfold act_exec, sent, exec1, reply1. by destruct (w_exec c w).
Qed.

(** A worker that got [undo]. *)
Definition undone (l : link W) : link W := mkLink (w_undo (peer l)) (inbox l) [] (rd_faults l).

(** [undo] up to worker [k]. *)
Lemma undo_prefix (ls ls' : list (link W)) l ro h m :
  Forall (fun l => wr_faults l = []) (ls ++ [l]) ->
  undo (mkCtl (ls ++ l :: ls') (length ls) ro h m) =
    (Ret tt, mkCtl ((undone <$> ls ++ [l]) ++ ls') (length ls) ro h m).
Proof.
  intros Hf. unfold undo, modify. cbn [iSlave slaves].
  rewrite decide_True by (rewrite length_app; cbn; lia).
  assert (E : ls ++ l :: ls' = (ls ++ [l]) ++ ls') by (by rewrite <- app_assoc).
  rewrite E. replace (S (length ls)) with (length (ls ++ [l])) by (rewrite length_app; cbn; lia).
  rewrite take_app_length, drop_app_length. unfold set_slaves. cbn [readOnly halting sm].
  do 3 f_equal. apply list_fmap_ext. intros j x Hx.
  rewrite Forall_lookup in Hf. specialize (Hf _ _ Hx). unfold link_write, undone. rewrite Hf.
  cbn. by rewrite app_nil_r.
Qed.

(** The workers of a controller. *)
Definition workers (s : controller W) : list W := peer <$> slaves s.

(** The workers [w], the connection to the one at [k] with these faults. *)
Definition one_faulty k j w (wf rf : list bool) (m : SessionManager) i : controller W :=
  mkCtl ((clean <$> replicate k w) ++ mkLink w [] wf rf :: (clean <$> replicate j w)) i false false m.

(** The read from worker [k] fails: the workers up to [k] have been told to
    undo, the others have not. *)
Lemma attempt_read_failure k j c w m i : answers c w -> refused c m = false ->
  attempt c (one_faulty k j w [] [true] m i) =
    (Ret Halted,
     mkCtl ((undone <$> (clean <$> (exec1 c <$> replicate k w)) ++ [sent c w]) ++
            (sent c <$> replicate j w)) k false true m).
Proof.
  intros Ha Hr. unfold one_faulty, attempt. erewrite bind_Ret by reflexivity.
  cbn [sm]. fold (refused c m). rewrite Hr. cbn [rounds].
  unfold mbind at 1, prog_bind at 1. unfold mbind at 1, prog_bind at 1.
  assert (Hd : try_catch (distribute (act_exec c);; mret true) (fun _ => mret false)
      (mkCtl ((clean <$> replicate k w) ++ mkLink w [] [] [true] :: (clean <$> replicate j w)) i
         false false m)
    = (Ret true, mkCtl ((sent c <$> replicate k w) ++
         mkLink (exec1 c w) [reply1 c w] [] [true] :: (sent c <$> replicate j w))
         (k + S j) false false m)).
  { unfold try_catch, mbind, prog_bind, distribute. cbn [halting slaves].
    rewrite (dist_app _ _ _ _ (dist_exec c _)). cbn [dist_loop]. rewrite dist_exec.
    unfold link_write, act_exec. cbn [wr_faults faulty head default peer inbox app rd_faults tail].
    unfold exec1, reply1. destruct (w_exec c w). cbn. unfold set_slaves. cbn [readOnly halting sm].
    rewrite length_app, length_fmap. cbn [length]. by rewrite length_fmap, !length_replicate. }
  rewrite Hd. cbn [negb].
  assert (Hg : gatherResponses []
      (mkCtl ((sent c <$> replicate k w) ++
         mkLink (exec1 c w) [reply1 c w] [] [true] :: (sent c <$> replicate j w))
         (k + S j) false false m)
    = (Ret (reply1 c <$> replicate k w), mkCtl ((clean <$> (exec1 c <$> replicate k w)) ++
         mkLink (exec1 c w) [reply1 c w] [] [] :: (sent c <$> replicate j w)) k false true m)).
  { unfold gatherResponses. cbn [halting slaves].
    rewrite (gather_app _ _ _ _ (gather_replies c (replicate k w) (Forall_replicate _ _ _ (proj1 Ha)))). cbn [gather_loop].
    unfold link_read. cbn [rd_faults faulty head default peer inbox wr_faults tail fmap option_fmap option_map id].
    unfold set_halting, set_slaves. cbn [readOnly sm slaves iSlave app].
    by rewrite app_nil_r, length_fmap, length_replicate, Nat.add_0_r. }
  erewrite bind_Ret by exact Hg. erewrite bind_Ret by reflexivity. cbn [halting].
  pose proof (undo_prefix (clean <$> (exec1 c <$> replicate k w)) (sent c <$> replicate j w)
    (sent c w) false true m) as Hundo.
  rewrite !length_fmap, length_replicate in Hundo.
  erewrite bind_Ret by (apply Hundo; apply Forall_app; split; [|by repeat constructor];
    apply Forall_fmap, Forall_true; done).
  reflexivity.
Qed.

Lemma reconnect_clean (ls : list (link W)) : reconnect [] ls = clean <$> (peer <$> ls).
Proof. unfold reconnect. rewrite <- list_fmap_compose. induction ls as [|l ls IH]; cbn; [done|]. by f_equal. Qed.

(** Two workers with an unread answer each, one of them ahead: the command is
    sent, the old answers are taken for the new ones, and it is confirmed. *)
Lemma attempt_stale c w m i : refused c m = false -> head (reply1 c w) = Some 0 ->
  is_unconfirmed_cmd (cmd_code c) = false ->
  attempt c (mkCtl [mkLink w [reply1 c w] [] []; mkLink (exec1 c w) [reply1 c w] [] []] i false false m)
  = (Ret (Reply (reply1 c w)),
     mkCtl [mkLink (w_confirm (exec1 c w)) [reply1 c w] [] [];
            mkLink (w_confirm (exec1 c (exec1 c w))) [reply1 c (exec1 c w)] [] []] 2 false false m).
Proof.
  intros Hr Hc Huc. unfold attempt. erewrite bind_Ret by reflexivity. cbn [sm]. fold (refused c m).
  rewrite Hr. unfold exec1, reply1 in *.
  destruct (w_exec c w) as [[|b t] w1] eqn:E1; [done|]. injection Hc as ->.
  cbn [fst snd]. destruct (w_exec c w1) as [r2 w2] eqn:E2. cbn [fst snd].
  assert (Hround : rounds 2 c [] (mkCtl [mkLink w [0 :: t] [] []; mkLink w1 [0 :: t] [] []] i false false m)
    = (Ret (RDone 0 [0 :: t; 0 :: t]),
       mkCtl [mkLink w1 [0 :: t] [] []; mkLink w2 [r2] [] []] 2 false false m)).
  { cbn [rounds]. unfold try_catch, distribute, mbind, prog_bind. cbn [halting slaves dist_loop].
    unfold link_write, act_exec. cbn [wr_faults faulty head default peer]. rewrite E1, E2.
    cbn -[Z.eq_dec bool_decide]. rewrite bool_decide_eq_true_2 by done. done. }
  erewrite bind_Ret by exact Hround. cbv beta iota.
  assert (E0 : bool_decide (0 = 0) = true) by done. rewrite E0. cbn [negb].
  rewrite andb_false_r. erewrite bind_Ret by reflexivity. cbn [halting].
  rewrite decide_True by done. unfold finish. rewrite Huc. done.
Qed.

(** ** Properties *)

(** A command that cannot be sent to worker [k]: the workers that got it undo
    it, and the controller becomes read-only. *)
Lemma write_failure k j c events w m i : undoes c w -> refused c m = false ->
  exists s', process c events (one_faulty k j w [true] [] m i) = (Ret [ERR_NETWORK], s') /\
    workers s' = replicate (k + S j) w /\ readOnly s' = true /\ halting s' = false.
Proof.
  intros [Hu Hu0] Hr. unfold process, one_faulty. erewrite bind_Ret by reflexivity. cbn [halting].
  unfold try_once. erewrite bind_Ret by reflexivity. cbn [readOnly].
  unfold attempt. unfold mbind at 1, prog_bind at 1. unfold mbind at 1, prog_bind at 1.
  cbn [gets sm]. fold (refused c m). rewrite Hr.
  cbn [rounds]. unfold mbind at 1, prog_bind at 1. unfold mbind at 1, prog_bind at 1.
  assert (Hd : try_catch (distribute (act_exec c);; mret true) (fun _ => mret false)
      (mkCtl ((clean <$> replicate k w) ++ mkLink w [] [true] [] :: (clean <$> replicate j w)) i
         false false m)
    = (Ret false, mkCtl ((sent c <$> replicate k w) ++ clean w :: (clean <$> replicate j w))
         (length (sent c <$> replicate k w)) false false m)).
  { unfold try_catch, mbind, prog_bind, distribute. cbn [halting slaves].
    rewrite (dist_app _ _ _ _ (dist_exec c _)). cbn. by rewrite !length_fmap, Nat.add_0_r. }
  rewrite Hd. cbn [negb].
  pose proof (undo_prefix (sent c <$> replicate k w) (clean <$> replicate j w) (clean w) false false m)
    as Hundo.
  erewrite bind_Ret by (apply Hundo; apply Forall_app; split; [|by repeat constructor];
    apply Forall_fmap, Forall_true; done).
  erewrite bind_Ret by reflexivity.
  eexists. split; [reflexivity|]. split; [|done].
  unfold workers. cbn [slaves set_readOnly]. rewrite !fmap_app, <- !list_fmap_compose.
  rewrite !fmap_replicate. cbn [fmap list_fmap compose clean sent peer undone]. rewrite Hu, Hu0.
  rewrite <- app_assoc. cbn [app]. by rewrite replicate_add.
Qed.

Lemma try_once_single n c again w i m r w' ro : answers c w -> single c m w = (r, w', ro) ->
  exists i', try_once c again (ctl (replicate (S n) w) i false false m) =
    (Ret r, ctl (replicate (S n) w') i' ro false m).
Proof.
  intros Ha. unfold single. destruct (attempt_clean c w (replicate n w) i m (Forall_replicate _ (S n) _ Ha)) as [i' Hat].
  change (w :: replicate n w) with (replicate (S n) w) in Hat.
  rewrite !fmap_replicate, verdict_same in Hat.
  unfold try_once. erewrite bind_Ret by reflexivity. cbn [readOnly ctl].
  destruct (refused c m); intros [= <- <- <-]; erewrite bind_Ret by exact Hat; by eexists.
Qed.

(** C4: Over workers that hold the same state and answer, the controller is a
    single copy: a command answers what it answers on one worker, and all workers end
    in the state that worker has after its confirmation or its undo. *)
Theorem ctl_single_copy n c events w i m r w' ro : answers c w -> single c m w = (r, w', ro) ->
  exists i', process c events (ctl (replicate (S n) w) i false false m) =
    (Ret r, ctl (replicate (S n) w') i' ro false m).
Proof.
  intros Ha Hs. unfold process. erewrite bind_Ret by reflexivity. by apply try_once_single.
Qed.

(** A worker that does not answer, and the controller reconnects: the command
    is undone everywhere, sent again, and ends as if nothing had happened. *)
Lemma failover k j c events w m i r w' ro : answers c w -> undoes c w -> refused c m = false ->
  single c m w = (r, w', ro) ->
  exists i', process c (Reload [] :: events) (one_faulty k j w [] [true] m i) =
    (Ret r, ctl (replicate (k + S j) w') i' ro false m).
Proof.
  intros Ha [Hu Hu0] Hr Hs. unfold process. erewrite bind_Ret by reflexivity.
  cbn [halting one_faulty]. unfold try_once at 1. erewrite bind_Ret by reflexivity. cbn [readOnly one_faulty].
  erewrite bind_Ret by (by apply attempt_read_failure). cbn [halted_wait].
  set (out := undone <$> (clean <$> (exec1 c <$> replicate k w)) ++ [sent c w]).
  assert (Hpeers : (peer <$> out) = replicate (S k) (w_undo (exec1 c w))).
  { subst out. rewrite !fmap_app, <- !list_fmap_compose, !fmap_replicate.
    cbn [fmap list_fmap compose clean sent peer undone]. by rewrite <- replicate_S_end. }
  assert (Hev : run_event (Reload [])
      (mkCtl (out ++ (sent c <$> replicate j w)) k false true m)
    = (Ret tt, ctl (replicate (k + S j) w) (k + S j) false false m)).
  { assert (Hlen : length out = S k).
    { apply (f_equal length) in Hpeers. by rewrite length_fmap, length_replicate in Hpeers. }
    cbn [run_event]. unfold doReload. unfold mbind at 1, prog_bind at 1. unfold mbind at 1, prog_bind at 1.
    cbn [modify slaves]. unfold set_slaves. cbn [readOnly halting sm]. rewrite reconnect_clean.
    rewrite length_app, length_fmap, length_replicate, Hlen.
    replace (S k + j)%nat with (k + S j)%nat by lia.
    rewrite fmap_app, Hpeers, <- list_fmap_compose, fmap_replicate. cbn [compose sent peer].
    rewrite Hu.
    erewrite bind_Ret by (apply undo_all; rewrite length_app, !length_replicate; lia).
    rewrite fmap_app, !fmap_replicate, Hu, Hu0, <- replicate_add.
    replace (S k + j)%nat with (k + S j)%nat by lia. done. }
  erewrite bind_Ret by exact Hev.
  replace (k + S j)%nat with (S (k + j)) by lia. by apply try_once_single.
Qed.

(** After a worker did not answer, resuming without reconnecting leaves the
    replicas different: the second worker has done the command twice, the first once,
    both are confirmed, the client gets success and the controller stays writable. *)
Theorem ctl_resume_diverges c w m i : answers c w -> undoes c w -> refused c m = false ->
  head (reply1 c w) = Some 0 -> is_unconfirmed_cmd (cmd_code c) = false ->
  exists s', process c [Resume] (one_faulty 0 1 w [] [true] m i) = (Ret (reply1 c w), s') /\
    workers s' = [w_confirm (exec1 c w); w_confirm (exec1 c (exec1 c w))] /\
    readOnly s' = false /\ halting s' = false.
Proof.
  intros Ha [Hu Hu0] Hr Hc Huc. unfold process. erewrite bind_Ret by reflexivity.
  cbn [halting one_faulty]. unfold try_once at 1. erewrite bind_Ret by reflexivity. cbn [readOnly one_faulty].
  assert (Hat : attempt c (one_faulty 0 1 w [] [true] m i) = (Ret Halted,
    mkCtl [mkLink w [reply1 c w] [] []; mkLink (exec1 c w) [reply1 c w] [] []] 0 false true m)).
  { rewrite attempt_read_failure by done. unfold undone, sent. cbn. by rewrite Hu. }
  erewrite bind_Ret by exact Hat. cbn [halted_wait run_event].
  erewrite bind_Ret by reflexivity. unfold try_once. erewrite bind_Ret by reflexivity.
  cbn [readOnly set_halting slaves iSlave sm].
  erewrite bind_Ret by (by apply attempt_stale).
  eexists. split; [reflexivity|]. done.
Qed.

(** When the answers of the workers differ, the client gets
    ERR_SLAVE_INCONSISTENCY and the controller becomes read-only; the command has been
    done three times on every worker and undone at the end. *)
Theorem ctl_inconsistent c events w0 ws i m : Forall (answers c) (w0 :: ws) -> refused c m = false ->
  is_partition_cmd (cmd_code c) = false -> differ (reply1 c <$> w0 :: ws) = true ->
  exists i', process c events (ctl (w0 :: ws) i false false m) =
    (Ret [ERR_SLAVE_INCONSISTENCY],
     ctl ((fun w => w_undo (exec1 c (exec1 c (exec1 c w)))) <$> w0 :: ws) i' true false m).
Proof.
  intros Ha Hr Hp Hd. destruct (process_clean c events w0 ws i m Ha) as [i' H].
  rewrite Hr in H. exists i'. rewrite H.
  assert (verdict (reply1 c <$> w0 :: ws) = ERR_SLAVE_INCONSISTENCY) as ->
    by (unfold verdict; by rewrite Hd).
  unfold answer, settle, after_rounds. rewrite Hp. done.
Qed.

End Proofs.
