(* ===== verification/WorkerComm.v ===== *)
(** * The worker's command loop and its journal: src/versioning/BRM/slavecomm.{h,cpp}

    The first worker keeps the state of the BRM on disk: a snapshot, and a
    journal of the commands confirmed since.  The tables are those of the
    worker node; what the loop asks of them is the class [Store].  A crash is
    modelled by the sequence of changes to the disk that a message causes. *)
From Stdlib Require Import ZArith Lia.
From S2P Require Import Prelude Bytes Controller OidServer.

Local Open Scope Z_scope.

(** ** Messages *)

(** brmtypes.h *)
Definition VB_ROLLBACK1 : Z := 6.
Definition VB_ROLLBACK2 : Z := 7.
Definition VB_COMMIT : Z := 8.
Definition BRM_UNDO : Z := 9.
Definition CONFIRM : Z := 10.
Definition CREATE_COLUMN_EXTENT_DBROOT : Z := 36.
Definition CREATE_COLUMN_EXTENT_EXACT_FILE : Z := 42.
Definition CREATE_STRIPE_COLUMN_EXTENTS : Z := 44.

Definition msg_code (msg : list Z) : Z := default 0 (head msg).

(** What a command handler leaves for the confirmation: nothing, a record for
    the journal, or a snapshot. *)
Inductive mark := MarkNone | MarkDelta | MarkSnapshot.
#[export] Instance mark_eq_dec : EqDecision mark.
Proof. solve_decision. Defined.

(** An object id in the message, at an offset. *)
Definition oid_at (off : nat) (msg : list Z) : Z :=
  match get_s32 (drop off msg) with Some (oid, _) => oid | None => 0 end.
Definition count_at (off : nat) (msg : list Z) : Z :=
  match get_u64 (drop off msg) with Some (n, _) => n | None => 0 end.

(** Commands that set [doSaveDelta] whatever they are about. *)
Definition delta_codes : list Z :=
  [1; 3; 4; 5; 18; 19; 21; 24; 25; 26; 28; 29; 30; 32; 33; 34; 35; 37; 38; 39; 40; 41; 43; 90; 91; 100].

Definition mark_of (msg : list Z) : mark :=
  let cmd := msg_code msg in
  if decide (cmd ∈ [VB_ROLLBACK1; VB_ROLLBACK2; VB_COMMIT]) then MarkSnapshot
  else if decide (cmd ∈ [CREATE_COLUMN_EXTENT_DBROOT; CREATE_COLUMN_EXTENT_EXACT_FILE]) then
    if decide (oid_at 1 msg < USER_OBJECT_ID) then MarkSnapshot else MarkDelta
  else if decide (cmd = CREATE_STRIPE_COLUMN_EXTENTS) then
    if decide (0 < count_at 1 msg /\ oid_at 9 msg < USER_OBJECT_ID) then MarkSnapshot else MarkDelta
  else if decide (cmd ∈ delta_codes) then MarkDelta
  else MarkNone.

(** ** The tables *)

(** A command is carried out and answered; it throws when the message is too
    short.  [s_image] is [saveState]; [s_load] is [loadState] and a new node on the
    tables that were loaded. *)
Class Store (W : Type) := {
  s_exec : list Z -> W -> option (list Z) * W;
  s_undo : W -> W;
  s_confirm : W -> W;
  s_image : W -> list Z;
  s_load : list Z -> option W;
}.

Section WorkerComm.
Context {W : Type} `{!Store W}.
(** [DBRMSnapshotInterval] *)
Context (snapshotInterval : Z).

(** ** The disk *)

(** The two snapshots, which of them [_current] names ([true] for A), and the
    journal. *)
Record disk := mkDisk {
  fileA : list Z;
  fileB : list Z;
  current : option bool;
  journal : list Z;
}.

Inductive disk_write :=
  | Append (record : list Z)
  | WriteSnapshot (a : bool) (img : list Z)
  | SetCurrent (a : bool)
  | Truncate.

Definition disk_step (d : disk) (x : disk_write) : disk :=
  match x with
  | Append r => mkDisk (fileA d) (fileB d) (current d) (journal d ++ r)
  | WriteSnapshot true img => mkDisk img (fileB d) (current d) (journal d)
  | WriteSnapshot false img => mkDisk (fileA d) img (current d) (journal d)
  | SetCurrent a => mkDisk (fileA d) (fileB d) (Some a) (journal d)
  | Truncate => mkDisk (fileA d) (fileB d) (current d) []
  end.
Definition disk_run (d : disk) (xs : list disk_write) : disk := foldl disk_step d xs.

(** ** State *)

Record comm := mkComm {
  store : W;
  firstSlave : bool;
  delta : list Z;
  takeSnapshot : bool;
  doSaveDelta : bool;
  saveFileToggle : bool;
  journalCount : Z;
  writes : list disk_write;
}.
(** [writes] is what has been done to the disk, oldest first. *)

Definition set_store (w : W) (s : comm) : comm :=
  mkComm w (firstSlave s) (delta s) (takeSnapshot s) (doSaveDelta s) (saveFileToggle s)
    (journalCount s) (writes s).
Definition set_delta (d : list Z) (s : comm) : comm :=
  mkComm (store s) (firstSlave s) d (takeSnapshot s) (doSaveDelta s) (saveFileToggle s)
    (journalCount s) (writes s).
Definition set_marks (snap del : bool) (s : comm) : comm :=
  mkComm (store s) (firstSlave s) (delta s) snap del (saveFileToggle s) (journalCount s) (writes s).
Definition set_toggle (t : bool) (n : Z) (s : comm) : comm :=
  mkComm (store s) (firstSlave s) (delta s) (takeSnapshot s) (doSaveDelta s) t n (writes s).
Definition emit (x : disk_write) (s : comm) : comm :=
  mkComm (store s) (firstSlave s) (delta s) (takeSnapshot s) (doSaveDelta s) (saveFileToggle s)
    (journalCount s) (writes s ++ [x]).

(** [SlaveComm]: a worker that has its tables. *)
Definition SlaveComm (first : bool) (w : W) : comm := mkComm w first [] false false true 0 [].

(** ** Handlers *)

Definition record_of (msg : list Z) : list Z := le_bytes 4 (Z.of_nat (length msg)) ++ msg.

Definition saveDelta : prog comm unit :=
  modify (fun s => set_toggle (saveFileToggle s) (journalCount s + 1)
                     (emit (Append (record_of (delta s))) s)).

Definition do_undo : prog comm unit :=
  modify (fun s => set_marks false false (set_store (s_undo (store s)) s)).

(** The snapshot: [saved] is whether [saveState] succeeds, and what is in the
    file if it does not; its return code is not looked at. *)
Definition save_snapshot (saved : option (list Z)) : prog comm unit :=
  modify (fun s => emit (WriteSnapshot (saveFileToggle s) (default (s_image (store s)) saved)) s);;
  modify (fun s => emit (SetCurrent (saveFileToggle s)) s);;
  modify (fun s => set_toggle (negb (saveFileToggle s)) 0 (set_marks false false (emit Truncate s))).

(** [do_confirm]; [open_ok] says whether the file that names the current
    snapshot can be opened. *)
Definition do_confirm (open_ok : bool) (saved : option (list Z)) : prog comm unit :=
  s ← gets id;
  (if firstSlave s && doSaveDelta s &&
      (bool_decide (journalCount s < snapshotInterval) || bool_decide (snapshotInterval < 0))
   then modify (fun s => set_marks (takeSnapshot s) false s);; saveDelta
   else mret tt);;
  modify (fun s => set_store (s_confirm (store s)) s);;
  s ← gets id;
  if firstSlave s && (takeSnapshot s ||
      (bool_decide (snapshotInterval <= journalCount s) && bool_decide (0 <= snapshotInterval)))
  then if open_ok then save_snapshot saved else throw RuntimeError
  else mret tt.

(** [do_clear]: not confirmed, so it writes its record itself. *)
Definition do_clear (msg : list Z) : prog comm (option (list Z)) :=
  s ← gets id;
  match s_exec msg (store s) with
  | (None, w) => modify (set_store w);; throw RuntimeError
  | (Some r, w) =>
      modify (set_store w);;
      if decide (msg_code r = 0) then
        (if firstSlave s then saveDelta else mret tt);; mret (Some r)
      else throw RuntimeError
  end.

(** The other commands. *)
Definition do_command (msg : list Z) : prog comm (option (list Z)) :=
  s ← gets id;
  match s_exec msg (store s) with
  | (None, w) => modify (set_store w);; throw RuntimeError
  | (Some r, w) =>
      modify (set_store w);;
      modify (fun s => match mark_of msg with
                       | MarkNone => s
                       | MarkDelta => set_marks (takeSnapshot s) true s
                       | MarkSnapshot => set_marks true (doSaveDelta s) s
                       end);;
      mret (Some r)
  end.

(** [processCommand]: the answer, if there is one. *)
Definition processCommand (msg : list Z) (open_ok : bool) (saved : option (list Z)) :
    prog comm (option (list Z)) :=
  let cmd := msg_code msg in
  modify (fun s => if firstSlave s && negb (bool_decide (cmd = CONFIRM)) then set_delta msg s else s);;
  if decide (cmd = BRM_UNDO) then do_undo;; mret None
  else if decide (cmd = CONFIRM) then do_confirm open_ok saved;; mret None
  else if decide (cmd = TAKE_SNAPSHOT) then
    modify (fun s => set_marks true (doSaveDelta s) s);; do_confirm open_ok saved;; mret (Some [0])
  else if decide (cmd = BRM_CLEAR) then do_clear msg
  else do_command msg.

(** The body of [run]: an exception undoes the command and closes the
    connection ([None]). *)
Definition handle (msg : list Z) (open_ok : bool) (saved : option (list Z)) :
    prog comm (option (option (list Z))) :=
  try_catch (r ← processCommand msg open_ok saved; mret (Some r)) (fun _ => do_undo;; mret None).

(** ** Recovery *)

(** A record of the journal: does it run, and the tables after it.  load_brm has
    a worker of its own, which is not the first. *)
Definition replay_command (cmd : list Z) (w : W) : bool * W :=
  match processCommand cmd true None (SlaveComm false w) with
  | (Ret _, s) => (true, store s)
  | (_, s) => (false, store s)
  end.

(** [replayJournal].  When the journal ends inside a record, the buffer keeps
    what it held before behind the bytes that were read: [stale i] is its byte
    at [i].  [fuel] is the length of the journal; every record takes at least
    four bytes. *)
Context (stale : nat -> Z).

Fixpoint replay (fuel : nat) (bs : list Z) (w : W) : Z * W :=
  match fuel with
  | O => (0, w)
  | S fuel' =>
      match get_u32 bs with
      | None => (0, w)
      | Some (len, rest) =>
          let n := Z.to_nat len in
          let cmd := take n rest ++ (stale <$> seq (length rest) (n - length rest)) in
          match replay_command cmd w with
          | (false, w') => (-1, s_undo w')
          | (true, w') =>
              if decide (length rest < n)%nat then (1, s_confirm w')
              else
                let '(ret, w'') := replay fuel' (drop n rest) (s_confirm w') in
                (if decide (ret = -1) then ret else ret + 1, w'')
          end
      end
  end.

Definition replayJournal (bs : list Z) (w : W) : Z * W := replay (length bs) bs w.

(** Loading a snapshot and replaying the journal, brmTool/load_brm.cpp. *)
Definition recover (d : disk) : option W :=
  a ← current d;
  w ← s_load (if (a : bool) then fileA d else fileB d);
  Some (snd (replayJournal (journal d) w)).

End WorkerComm.

Arguments comm W : clear implicits.
Arguments mkComm {W} _ _ _ _ _ _ _ _.
