(* ===== verification/WorkerCommProofs.v ===== *)
(** * The journal: records, replaying, and what a confirmation writes

    What the handlers of WorkerComm.v do to the tables and to the disk, and what a disk
    leads a restarted worker to.  NodeJournal.v puts the worker node behind it. *)
From Stdlib Require Import ZArith Lia.
From S2P Require Import Prelude Bytes Controller OidServer WorkerComm.

Local Open Scope Z_scope.

(** ** Commands *)

Section Commands.
Context {W : Type} `{!Store W}.

(** A command that is confirmed, and one that is answered. *)
Definition done_ (m : list Z) (w : W) : W := s_confirm (snd (s_exec m w)).
Definition answered (m : list Z) (w : W) : Prop :=
  exists r, fst (s_exec m w) = Some r /\ (msg_code m = BRM_CLEAR -> msg_code r = 0).

(** A message that goes into the journal when it does; [BRM_CLEAR] goes there by
    itself, the others are confirmed or undone. *)
Definition recordable (m : list Z) : Prop :=
  ~ msg_code m ∈ [BRM_UNDO; CONFIRM; TAKE_SNAPSHOT] /\ Z.of_nat (length m) < 2 ^ 32.
Definition regular (m : list Z) : Prop := recordable m /\ msg_code m <> BRM_CLEAR.

End Commands.

Section Journal.
Context {W : Type} `{!Store W}.
Context (snapshotInterval : Z) (stale : nat -> Z).
Implicit Types (w : W) (m : list Z) (ms : list (list Z)).

(** ** Replaying *)

Definition done_all ms w : W := foldl (fun w m => done_ m w) w ms.

(** The commands of a journal are answered one after the other. *)
Fixpoint runs ms w : Prop :=
  match ms with
  | [] => True
  | m :: ms' => answered m w /\ recordable m /\ runs ms' (done_ m w)
  end.

Definition records ms : list Z := ms ≫= record_of.

Lemma runs_snoc ms m w : runs (ms ++ [m]) w <->
  runs ms w /\ answered m (done_all ms w) /\ recordable m.
Proof.
  revert w. induction ms as [|x ms IH]; intros w; cbn [runs app done_all foldl]; [tauto|].
  rewrite IH. unfold done_all. tauto.
Qed.

(** The loop of the journal carries a command out. *)
Lemma replay_command_run m w : recordable m -> answered m w ->
  replay_command snapshotInterval m w = (true, snd (s_exec m w)).
Proof.
  intros [Hc _] (r & Hr & H0). unfold replay_command, processCommand, SlaveComm.
  erewrite bind_Ret by reflexivity. cbn [firstSlave andb].
  rewrite !decide_False by (intros E; apply Hc; rewrite E; set_solver).
  unfold do_clear, do_command. destruct (s_exec m w) as [[r'|] w1] eqn:Ex; [|done].
  cbn in Hr. injection Hr as ->. case_decide as Hcl.
  - erewrite bind_Ret by reflexivity. cbn [id store]. rewrite Ex. erewrite bind_Ret by reflexivity.
    by rewrite decide_True by auto.
  - erewrite bind_Ret by reflexivity. cbn [id store]. rewrite Ex. erewrite !bind_Ret by reflexivity.
    by destruct (mark_of m).
Qed.

Lemma replay_records fuel ms w : (length (records ms) <= fuel)%nat -> runs ms w ->
  replay snapshotInterval stale fuel (records ms) w = (Z.of_nat (length ms), done_all ms w).
Proof.
  revert fuel w. induction ms as [|m ms IH]; intros fuel w Hf Hr.
  { unfold records. cbn. by destruct fuel. }
  destruct Hr as (Hr & Hl & Hrest). pose proof (proj2 Hl) as Hn.
  assert (Hlen : (length (records (m :: ms)) = 4 + length m + length (records ms))%nat).
  { unfold records. rewrite bind_cons. unfold record_of at 1.
    by rewrite !length_app, length_le_bytes. }
  destruct fuel as [|fuel]; [lia|]. cbn [replay].
  assert (E : records (m :: ms) = le_bytes 4 (Z.of_nat (length m)) ++ m ++ records ms)
    by (unfold records; rewrite bind_cons; unfold record_of at 1; by rewrite <- app_assoc).
  rewrite E, get_u32_le, u32_id by lia. cbv zeta. rewrite Nat2Z.id, take_app_length.
  replace (length m - length (m ++ records ms))%nat with 0%nat by (rewrite length_app; lia).
  cbn [seq fmap list_fmap]. rewrite app_nil_r, drop_app_length. rewrite replay_command_run by done.
  rewrite decide_False by (rewrite length_app; lia). fold (done_ m w).
  rewrite IH by (lia || done). rewrite decide_False by lia. cbn [length done_all foldl].
  f_equal. lia.
Qed.

Lemma replay_journal ms w : runs ms w ->
  replayJournal snapshotInterval stale (records ms) w = (Z.of_nat (length ms), done_all ms w).
Proof. intros H. by apply replay_records. Qed.

(** ** What is on the disk *)

(** The disk leads to [w]: the current snapshot, and the commands since. *)
Definition leads (d : disk) (w : W) (ms : list (list Z)) : Prop :=
  exists a w0, current d = Some a /\ s_load (if (a : bool) then fileA d else fileB d) = Some w0 /\
    journal d = records ms /\ runs ms w0 /\ done_all ms w0 = w.

Lemma leads_recover d w ms : leads d w ms -> recover snapshotInterval stale d = Some w.
Proof.
  intros (a & w0 & Ha & Hl & Hj & Hr & <-). unfold recover. rewrite Ha. cbn [mbind option_bind].
  rewrite Hl. cbn [mbind option_bind]. by rewrite Hj, replay_journal.
Qed.
Lemma records_snoc ms m : records (ms ++ [m]) = records ms ++ record_of m.
Proof. unfold records. by rewrite bind_app, bind_singleton. Qed.
Lemma leads_append d w ms m : leads d w ms -> answered m w -> recordable m ->
  leads (disk_step d (Append (record_of m))) (done_ m w) (ms ++ [m]).
Proof.
  intros (a & w0 & Ha & Hl & Hj & Hr & <-) Hm Hrec. exists a, w0. split; [done|]. split; [done|].
  split; [cbn [disk_step journal]; by rewrite Hj, records_snoc|]. split; [by apply runs_snoc|].
  unfold done_all. by rewrite foldl_app.
Qed.
(** A snapshot in the file that is not current. *)
Lemma leads_other d w ms a img : leads d w ms -> current d = Some (negb a) ->
  leads (disk_step d (WriteSnapshot a img)) w ms.
Proof.
  intros (b & w0 & Hb & Hl & H) Ha. exists b, w0. rewrite Hb in Ha. injection Ha as ->. by destruct a.
Qed.

(** ** Confirming *)

(** Is a record written, is a snapshot taken? *)
Definition appends (st : comm W) : bool :=
  doSaveDelta st &&
  (bool_decide (journalCount st < snapshotInterval) || bool_decide (snapshotInterval < 0)).
Definition snapshots (st : comm W) : bool :=
  let n := if appends st then journalCount st + 1 else journalCount st in
  takeSnapshot st || (bool_decide (snapshotInterval <= n) && bool_decide (0 <= snapshotInterval)).

(** What a confirmation does to the disk. *)
Definition confirm_writes (st : comm W) : list disk_write :=
  (if appends st then [Append (record_of (delta st))] else []) ++
  (if snapshots st
   then [WriteSnapshot (saveFileToggle st) (s_image (s_confirm (store st)));
         SetCurrent (saveFileToggle st); Truncate] else []).

(** The state after it. *)
Definition confirmed (st : comm W) : comm W :=
  mkComm (s_confirm (store st)) true (delta st) false false
    (if snapshots st then negb (saveFileToggle st) else saveFileToggle st)
    (if snapshots st then 0 else if appends st then journalCount st + 1 else journalCount st)
    (writes st ++ confirm_writes st).

Lemma save_snapshot_run st : save_snapshot None st =
  (Ret tt, mkComm (store st) (firstSlave st) (delta st) false false (negb (saveFileToggle st)) 0
     (writes st ++ [WriteSnapshot (saveFileToggle st) (s_image (store st));
                    SetCurrent (saveFileToggle st); Truncate])).
Proof.
  unfold save_snapshot. erewrite !bind_Ret by reflexivity. cbv [modify set_toggle set_marks emit].
  cbn. by rewrite <- !app_assoc.
Qed.

Lemma do_confirm_run st : firstSlave st = true ->
  do_confirm snapshotInterval true None st = (Ret tt, confirmed st).
Proof.
  intros Hf. destruct st as [w f dl ts sd tg jc wr]. cbn in Hf. subst f.
  unfold do_confirm. erewrite bind_Ret by reflexivity. cbn [id firstSlave doSaveDelta journalCount].
  unfold confirmed, confirm_writes, snapshots, appends.
  cbn [store delta takeSnapshot doSaveDelta saveFileToggle journalCount writes andb].
  set (app := sd && (bool_decide (jc < snapshotInterval) || bool_decide (snapshotInterval < 0))).
  assert (Happ : app = false -> sd = true ->
    bool_decide (snapshotInterval <= jc) && bool_decide (0 <= snapshotInterval) = true).
  { intros Ha ->. unfold app in Ha. cbn [andb] in Ha.
    apply orb_false_iff in Ha as [H1%bool_decide_eq_false H2%bool_decide_eq_false].
    rewrite !bool_decide_eq_true_2 by lia. done. }
  destruct app eqn:Eapp; rewrite ?Eapp.
  - unfold mbind, prog_bind, modify, gets, saveDelta, id.
    cbn [set_marks set_toggle set_store emit store firstSlave delta takeSnapshot doSaveDelta
         saveFileToggle journalCount writes andb].
    destruct (ts || _) eqn:Esn.
    + cbn. rewrite Esn, save_snapshot_run. cbn. by rewrite <- app_assoc.
    + cbn. rewrite Esn. apply orb_false_iff in Esn as [-> _]. done.
  - unfold mbind, prog_bind, modify, gets, id, mret, prog_ret.
    cbn [set_marks set_toggle set_store emit store firstSlave delta takeSnapshot doSaveDelta
         saveFileToggle journalCount writes andb].
    destruct (ts || _) eqn:Esn.
    + rewrite save_snapshot_run. done.
    + apply orb_false_iff in Esn as [-> Esn].
      destruct sd; [rewrite Happ in Esn by done; done|]. cbn. by rewrite app_nil_r.
Qed.

(** ** Messages *)

Lemma disk_run_app d xs ys : disk_run d (xs ++ ys) = disk_run (disk_run d xs) ys.
Proof. apply foldl_app. Qed.

(** The state after a command. *)
Definition commanded m (st : comm W) : comm W :=
  mkComm (snd (s_exec m (store st))) true m
    (bool_decide (mark_of m = MarkSnapshot)) (bool_decide (mark_of m = MarkDelta))
    (saveFileToggle st) (journalCount st) (writes st).

Lemma handle_ret m st r st' : processCommand snapshotInterval m true None st = (Ret r, st') ->
  handle snapshotInterval m true None st = (Ret (Some r), st').
Proof. intros H. unfold handle, try_catch. by erewrite bind_Ret by exact H. Qed.

Lemma command_answer st m r : firstSlave st = true -> takeSnapshot st = false -> doSaveDelta st = false ->
  regular m -> fst (s_exec m (store st)) = Some r ->
  handle snapshotInterval m true None st = (Ret (Some (Some r)), commanded m st).
Proof.
  intros Hf Hsn Hdl [[Hc _] Hcl] Hr.
  destruct st as [w0 f dl ts sd tg jc wr]. cbn in Hf, Hsn, Hdl, Hr. subst.
  apply handle_ret. unfold processCommand.
  assert (H10 : msg_code m <> CONFIRM) by (intros E; apply Hc; rewrite E; set_solver).
  rewrite (bool_decide_eq_false_2 _ H10). cbn [negb].
  erewrite bind_Ret by reflexivity. cbn [firstSlave andb set_delta].
  rewrite !decide_False by (done || intros E; apply Hc; rewrite E; set_solver).
  unfold do_command. erewrite bind_Ret by reflexivity. cbn [id store set_delta].
  destruct (s_exec m w0) as [[r'|] w1] eqn:Ex; [|done]. cbn in Hr. injection Hr as ->.
  erewrite !bind_Ret by reflexivity. cbn. unfold commanded. cbn. rewrite Ex.
  by destruct (mark_of m).
Qed.
Lemma confirm_message st : firstSlave st = true ->
  handle snapshotInterval [CONFIRM] true None st = (Ret (Some None), confirmed st).
Proof.
  intros Hf. apply handle_ret. unfold processCommand. cbn [msg_code head default].
  erewrite bind_Ret by reflexivity. rewrite Hf. cbn [andb].
  rewrite (bool_decide_eq_true_2 (CONFIRM = CONFIRM)) by done. cbn [negb].
  rewrite decide_False by done. rewrite decide_True by done.
  by erewrite bind_Ret by exact (do_confirm_run st Hf).
Qed.

(** A command that is recorded and starts a snapshot. *)
Lemma snapshot_writes st m : appends (commanded m st) = true -> snapshots (commanded m st) = true ->
  saveFileToggle st = true ->
  writes (confirmed (commanded m st)) = writes st ++ [Append (record_of m);
    WriteSnapshot true (s_image (store (confirmed (commanded m st))))] ++ [SetCurrent true; Truncate].
Proof.
  intros Ha Hs Ht. unfold confirmed. cbn [writes store]. unfold confirm_writes. rewrite Ha, Hs.
  cbn [commanded writes delta saveFileToggle store]. by rewrite Ht.
Qed.

(** An undone command. *)
Definition undone (st : comm W) : comm W :=
  mkComm (s_undo (store st)) (firstSlave st) (delta st) false false (saveFileToggle st)
    (journalCount st) (writes st).

Lemma undo_message st : firstSlave st = true ->
  handle snapshotInterval [BRM_UNDO] true None st = (Ret (Some None), undone (set_delta [BRM_UNDO] st)).
Proof.
  intros Hf. apply handle_ret. unfold processCommand. cbn [msg_code head default].
  erewrite bind_Ret by reflexivity. rewrite Hf. by destruct st.
Qed.

(** A command that throws is undone at once. *)
Lemma throw_run st m : firstSlave st = true -> regular m -> fst (s_exec m (store st)) = None ->
  handle snapshotInterval m true None st =
  (Ret None, undone (set_store (snd (s_exec m (store st))) (set_delta m st))).
Proof.
  intros Hf [[Hc _] Hcl] Hn. unfold handle, try_catch, processCommand.
  assert (H10 : msg_code m <> CONFIRM) by (intros E; apply Hc; rewrite E; set_solver).
  rewrite (bool_decide_eq_false_2 _ H10). cbn [negb]. rewrite prog_bind_assoc.
  erewrite bind_Ret by reflexivity. rewrite Hf. cbn [andb].
  rewrite !decide_False by (done || intros E; apply Hc; rewrite E; set_solver).
  unfold do_command. rewrite prog_bind_assoc. erewrite bind_Ret by reflexivity.
  destruct st as [w0 f dl ts sd tg jc wr]. cbn [id store set_delta] in *.
  destruct (s_exec m w0) as [[r'|] w1] eqn:Ex; [done|]. done.
Qed.

(** Messages one after the other. *)
Definition deliver (st : comm W) (m : list Z) : comm W := snd (handle snapshotInterval m true None st).
Definition deliver_all (st : comm W) (ms : list (list Z)) : comm W := foldl deliver st ms.

End Journal.

(** ** A store to run it on *)

(** One number, and the number before the command that is running: command 3
    adds its argument, [BRM_CLEAR] sets it to zero, a command without an
    argument is too short. *)
Module Counter.

Definition exec (m : list Z) (w : Z * Z) : option (list Z) * (Z * Z) :=
  let '(v, u) := w in
  if decide (msg_code m = BRM_CLEAR) then (Some [0], (0, 0))
  else if decide (msg_code m = 3) then
    match m with
    | [_; n] => (Some [0], (v + n, u))
    | _ => (None, (v, u))
    end
  else (Some [0], (v, u)).

#[export] Instance counter_store : Store (Z * Z) := {
  s_exec := exec;
  s_undo := fun w => (snd w, snd w);
  s_confirm := fun w => (fst w, fst w);
  s_image := fun w => [fst w];
  s_load := fun img => match img with [v] => Some (v, v) | _ => None end;
}.

(** The disk has the snapshot 5 in B. *)
Definition demo_disk : disk := mkDisk [] [5] (Some false) [].

End Counter.

Section CounterWitnesses.
Import Counter.

(** Between the switch of snapshots and the truncation of the journal a crash
    applies the journal to the snapshot that has it already: 5 + 7 + 7. *)
Theorem journal_replayed_twice stale :
  let st := deliver_all 1 (SlaveComm true (5, 5)) [[3; 7]; [CONFIRM]] in
  writes st = [Append (record_of [3; 7]); WriteSnapshot true [12]; SetCurrent true; Truncate] /\
  recover 1 stale (disk_run demo_disk (writes st)) = Some (12, 12) /\
  recover 1 stale (disk_run demo_disk (take 3 (writes st))) = Some (19, 19).
Proof. split; [|split]; reflexivity. Qed.

(** A record that is not complete runs all the same, with what the buffer held. *)
Theorem journal_torn_record stale n :
  recover 1 stale (disk_step demo_disk (Append (take 5 (record_of [3; n])))) =
  Some (5 + stale 1%nat, 5 + stale 1%nat).
Proof. reflexivity. Qed.

End CounterWitnesses.
