(* ===== verification/VSSProofs.v ===== *)
(** * The VSS implements a finite map

    The invariant of the VSS and its abstract value, a finite map from <LBID,
    version> to the two flags of the version; the refinement of insertion,
    growth and removal. *)
From Stdlib Require Import ZArith Lia.
From S2P Require Import Prelude Bytes Undoable Hasher HashChain BrmTypes VSS.

Local Open Scope Z_scope.

(** ** Abstract value and invariant *)

Definition vs_key (e : VSSEntry) : Z * Z := (vs_lbid e, vs_verID e).
(** The flags [vbFlag] and [locked]. *)
Definition vs_val (e : VSSEntry) : bool * bool := (vs_vbFlag e, vs_locked e).

Definition vss_map (m : vss_seg) : gmap (Z * Z) (bool * bool) :=
  contents vs_key vs_val (storage m).

Definition lbid_bucket (nb lbid : Z) : nat := Z.to_nat (hasher (le_bytes 8 lbid) mod u32 nb).
Definition vs_bucket (nb : Z) (e : VSSEntry) : nat := lbid_bucket nb (vs_lbid e).

#[global] Arguments lbid_bucket : simpl never.
#[global] Arguments vs_bucket : simpl never.

(** The number of locked entries. *)
Definition locked_entry (e : VSSEntry) : Prop := used e /\ vs_locked e = true.
#[global] Instance locked_entry_dec e : Decision (locked_entry e).
Proof. unfold locked_entry. apply _. Defined.
Definition locked_count (st : list VSSEntry) : nat := length (filter locked_entry st).

Record table_wf (m : vss_seg) : Prop := {
  tw_cap : capacity m = Z.of_nat (length (storage m));
  tw_nb : numHashBuckets m = Z.of_nat (length (hashBuckets m));
  tw_nb_pos : 0 < numHashBuckets m < 2 ^ 31;
  tw_lwm : 0 <= LWM m <= capacity m;
  tw_lwm_used i e : Z.of_nat i < LWM m -> storage m !! i = Some e -> used e;
  tw_table : exists cs, wf_table (vs_bucket (numHashBuckets m)) (hashBuckets m) (storage m) cs;
  tw_keys : unique_keys vs_key (storage m);
}.

Record vss_wf (m : vss_seg) : Prop := {
  vw_table : table_wf m;
  vw_size : currentSize m = Z.of_nat (used_count (storage m));
  vw_locked : lockedEntryCount m = Z.of_nat (locked_count (storage m));
}.

(** ** Hashing and searching *)

Lemma hash_lbid_eq lbid nb : 0 < nb < 2 ^ 31 ->
  hash_lbid lbid nb = Ret (Z.of_nat (lbid_bucket nb lbid)).
Proof.
  intros Hnb. unfold hash_lbid, lbid_bucket. rewrite u32_id by lia. rewrite decide_False by lia.
  rewrite Z2Nat.id; [done|]. apply Z.mod_pos_bound. lia.
Qed.

Lemma lbid_bucket_lt nb lbid : 0 < nb < 2 ^ 31 -> Z.of_nat (lbid_bucket nb lbid) < nb.
Proof.
  intros Hnb. unfold lbid_bucket. rewrite u32_id by lia.
  pose proof (Z.mod_pos_bound (hasher (le_bytes 8 lbid)) nb). lia.
Qed.

Lemma vs_bucket_lbid nb e : vs_bucket nb e = lbid_bucket nb (vs_lbid e).
Proof. reflexivity. Qed.

Lemma vs_bucket_next nb z e : vs_bucket nb (slot_set_next z e) = vs_bucket nb e.
Proof. by rewrite !vs_bucket_lbid. Qed.

Lemma vss_bucket_head m lbid : table_wf m ->
  exists h, hashBuckets m !! lbid_bucket (numHashBuckets m) lbid = Some h.
Proof.
  intros Hwf. apply lookup_lt_is_Some_2. pose proof (lbid_bucket_lt _ lbid (tw_nb_pos _ Hwf)).
  pose proof (tw_nb _ Hwf). lia.
Qed.

(** Every walk of the [const] members visits the list [c] of its bucket. *)
Lemma walk_chain {A R} m cs lbid (body : A -> Z -> VSSEntry -> A + R) acc : table_wf m ->
  wf_table (vs_bucket (numHashBuckets m)) (hashBuckets m) (storage m) cs ->
  exists c, cs !! lbid_bucket (numHashBuckets m) lbid = Some c /\
    walk m lbid body acc = Ret (walk_entries body (chain_entries (storage m) c) acc).
Proof.
  intros Hwf Hcs. destruct (vss_bucket_head m lbid Hwf) as [h Hh].
  destruct (lookup_lt_is_Some_2 cs (lbid_bucket (numHashBuckets m) lbid)) as [c Hc];
    [rewrite (wt_length _ _ _ _ Hcs); by eapply lookup_lt_Some|].
  exists c. split; [done|]. unfold walk. rewrite hash_lbid_eq by (by apply tw_nb_pos).
  rewrite ret_bind, (rd_nat _ _ _ Hh), ret_bind.
  assert (Hch := wt_chain _ _ _ _ Hcs _ _ _ Hh Hc).
  apply list_walk_chain; [done|]. pose proof (chain_length _ _ _ Hch). lia.
Qed.

(** The entries of the bucket of [lbid] include all entries of [lbid]. *)
Lemma bucket_complete m cs lbid c i e : 
  wf_table (vs_bucket (numHashBuckets m)) (hashBuckets m) (storage m) cs ->
  cs !! lbid_bucket (numHashBuckets m) lbid = Some c ->
  storage m !! i = Some e -> used e -> vs_lbid e = lbid ->
  (i, e) ∈ chain_entries (storage m) c.
Proof.
  intros Hcs Hc Hi Hu Hl. apply chain_entries_elem. split; [|done].
  destruct (wt_complete _ _ _ _ Hcs _ _ Hi Hu) as (c' & Hc' & Hin).
  rewrite vs_bucket_lbid, Hl in Hc'. by simplify_eq.
Qed.

Lemma bucket_sound m cs b c i e :
  wf_table (vs_bucket (numHashBuckets m)) (hashBuckets m) (storage m) cs ->
  cs !! b = Some c -> (i, e) ∈ chain_entries (storage m) c ->
  storage m !! i = Some e /\ used e.
Proof.
  intros Hcs Hc [Hi He]%chain_entries_elem. split; [done|].
  by apply (wt_sound _ _ _ _ Hcs _ _ i e Hc).
Qed.

Variant getIndex_outcome (m : vss_seg) (cs : list (list nat)) (lbid verID : Z) :
    Z * Z * Z -> Prop :=
  | GI_found l1 i l2 e :
      cs !! lbid_bucket (numHashBuckets m) lbid = Some (l1 ++ i :: l2) ->
      storage m !! i = Some e -> used e -> vs_key e = (lbid, verID) ->
      getIndex_outcome m cs lbid verID
        (Z.of_nat i, prev_of l1, Z.of_nat (lbid_bucket (numHashBuckets m) lbid))
  | GI_none prev b :
      vss_map m !! (lbid, verID) = None -> getIndex_outcome m cs lbid verID (-1, prev, b).

Lemma vss_getIndex_spec m cs lbid verID : table_wf m ->
  wf_table (vs_bucket (numHashBuckets m)) (hashBuckets m) (storage m) cs ->
  exists r, getIndex m lbid verID = Ret r /\ getIndex_outcome m cs lbid verID r.
Proof.
  intros Hwf Hcs. unfold getIndex. rewrite hash_lbid_eq by (by apply tw_nb_pos). rewrite ret_bind.
  destruct (vss_bucket_head m lbid Hwf) as [h Hh]. rewrite (rd_nat _ _ _ Hh), ret_bind.
  set (p := fun e => bool_decide (vs_lbid e = lbid) && bool_decide (vs_verID e = verID)).
  assert (Hp : forall e, p e = true <-> vs_key e = (lbid, verID)).
  { intros e. unfold p, vs_key. rewrite andb_true_iff, !bool_decide_eq_true.
    split; [by intros [-> ->]|by intros [= -> ->]]. }
  destruct (table_find (vs_bucket (numHashBuckets m)) _ _ cs p _ _ Hcs Hh) as (r & Hr & Hout).
  { intros e [= Hl _]%Hp. by rewrite vs_bucket_lbid, Hl. }
  rewrite Hr, ret_bind. destruct Hout as [l1 i l2 e Hc Hi Hu Hpe|z Hz].
  - eexists. split; [done|]. econstructor; eauto. by apply Hp.
  - eexists. split; [done|]. constructor. apply contents_None; [by apply tw_keys|].
    intros e He Hk%Hp. by rewrite Hz in Hk.
Qed.

Lemma vss_map_stored m e : table_wf m -> stored (storage m) e ->
  vss_map m !! vs_key e = Some (vs_val e).
Proof. intros Hwf Hs. apply contents_Some; [by apply tw_keys|]. by exists e. Qed.

Lemma vss_map_inv m k v : table_wf m -> vss_map m !! k = Some v ->
  exists i e, storage m !! i = Some e /\ used e /\ vs_key e = k /\ vs_val e = v.
Proof.
  intros Hwf H. apply contents_Some in H as (e & (i & Hi & Hu) & Hk & Hv); [|by apply tw_keys].
  by exists i, e.
Qed.

(** ** Insertion *)

Definition with_links (bs : list Z) (st : list VSSEntry) (m : vss_seg) : vss_seg :=
  set_arrays bs st m.

(** What an update of the hash table leaves alone. *)
Definition frame (m : vss_seg) :=
  (capacity m, currentSize m, numHashBuckets m, lockedEntryCount m, tableShmkey m,
   allocdSize m, fPVSSImpl m).

Lemma vss_frame_inv m m' : frame m = frame m' ->
  capacity m = capacity m' /\ currentSize m = currentSize m' /\
  numHashBuckets m = numHashBuckets m' /\ lockedEntryCount m = lockedEntryCount m' /\
  tableShmkey m = tableShmkey m' /\ allocdSize m = allocdSize m' /\ fPVSSImpl m = fPVSSImpl m'.
Proof. intros [=]. done. Qed.

Section ArrayRuns.
Context {A : Type}.
Implicit Types (m : vss_seg) (log : list (ImageDelta vs_delta)).

Lemma vss_bind_rdStorage i e (k : VSSEntry -> prog vss_obj A) m log :
  storage m !! i = Some e ->
  (rdStorage (Z.of_nat i) ≫= k) (mkUndoable m log) = k e (mkUndoable m log).
Proof. intros H. apply bind_reading. by apply rd_nat. Qed.

Lemma vss_bind_rdBucket b h (k : Z -> prog vss_obj A) m log :
  hashBuckets m !! b = Some h ->
  (rdBucket (Z.of_nat b) ≫= k) (mkUndoable m log) = k h (mkUndoable m log).
Proof. intros H. apply bind_reading. by apply rd_nat. Qed.

Lemma vss_bind_wrStorage i e0 e (q : prog vss_obj A) m log :
  storage m !! i = Some e0 ->
  (wrStorage (Z.of_nat i) e ≫= fun _ => q) (mkUndoable m log)
  = q (mkUndoable (with_links (hashBuckets m) (<[i := e]> (storage m)) m) log).
Proof.
  intros H. unfold wrStorage. rewrite prog_bind_assoc.
  unfold rdStorage. erewrite bind_reading by (by apply rd_nat).
  rewrite bind_store. simpl. by rewrite wr_nat.
Qed.

Lemma vss_bind_wrBucket b h0 h (q : prog vss_obj A) m log :
  hashBuckets m !! b = Some h0 ->
  (wrBucket (Z.of_nat b) h ≫= fun _ => q) (mkUndoable m log)
  = q (mkUndoable (with_links (<[b := h]> (hashBuckets m)) (storage m) m) log).
Proof.
  intros H. unfold wrBucket. rewrite prog_bind_assoc.
  unfold rdBucket. erewrite bind_reading by (by apply rd_nat).
  rewrite bind_store. simpl. by rewrite wr_nat.
Qed.
End ArrayRuns.

Lemma wrStorage_run i e0 e m log : storage m !! i = Some e0 ->
  wrStorage (Z.of_nat i) e (mkUndoable m log)
  = (Ret tt, mkUndoable (with_links (hashBuckets m) (<[i := e]> (storage m)) m) log).
Proof.
  intros H. unfold wrStorage, rdStorage. erewrite bind_reading by (by apply rd_nat).
  unfold store, modify, set_image. simpl. by rewrite wr_nat.
Qed.

Definition link_first (m : vss_seg) (e : VSSEntry) (i : nat) (h : Z) : vss_seg :=
  set_arrays (<[vs_bucket (numHashBuckets m) e := Z.of_nat i]> (hashBuckets m))
    (<[i := slot_set_next h e]> (storage m)) (set_field FLWM (Z.of_nat i + 1) m).

Lemma vss_insert_run e loading m log : table_wf m ->
  (used_count (storage m) < length (storage m))%nat ->
  exists i e0 h log', storage m !! i = Some e0 /\ ~ used e0 /\
    (forall j e', (j < i)%nat -> storage m !! j = Some e' -> used e') /\
    hashBuckets m !! vs_bucket (numHashBuckets m) e = Some h /\
    _insert e loading (mkUndoable m log) = (Ret tt, mkUndoable (link_first m e i h) log').
Proof.
  intros Hwf Hroom. pose proof (tw_lwm _ Hwf) as Hlwm.
  destruct (exists_free (storage m) (Z.to_nat (LWM m)) Hroom) as (i & e0 & Hi & Hf & Hb & Hki).
  { intros j e' Hj. apply (tw_lwm_used _ Hwf). lia. }
  destruct (vss_bucket_head m (vs_lbid e) Hwf) as [h Hh]. rewrite <- vs_bucket_lbid in Hh.
  exists i, e0, h.
  assert (Hfree : find_free (S (length (storage m))) (storage m) (LWM m) = Ret (Z.of_nat i)).
  { rewrite <- (Z2Nat.id (LWM m)) by lia. apply (find_free_spec _ _ _ _ e0); auto.
    apply lookup_lt_Some in Hi. lia. }
  assert (Hhash : hash_lbid (vs_lbid e) (numHashBuckets m)
                  = Ret (Z.of_nat (vs_bucket (numHashBuckets m) e))).
  { by rewrite hash_lbid_eq, vs_bucket_lbid by (by apply tw_nb_pos). }
  unfold link_first. cbv zeta. generalize dependent (vs_bucket (numHashBuckets m) e).
  intros b Hh Hhash.
  destruct m as [cap sz lwm nb lk bs st key sz' p]. simpl in *.
  enough (H : forall log', (head ← rdBucket (Z.of_nat b);
    wrStorage (Z.of_nat i) (slot_set_next head e);; wrBucket (Z.of_nat b) (Z.of_nat i))
    (mkUndoable (mkVss cap sz (Z.of_nat i + 1) nb lk bs st key sz' p) log') = (Ret tt, mkUndoable
      (mkVss cap sz (Z.of_nat i + 1) nb lk (<[b := Z.of_nat i]> bs)
         (<[i := slot_set_next h e]> st) key sz' p) log')).
  - destruct loading; eexists; (split_and!; [done..|]); unfold _insert;
      (erewrite bind_Ret by reflexivity); (erewrite bind_reading by exact Hhash);
      (erewrite bind_Ret by reflexivity); (erewrite bind_reading by exact Hfree);
      (erewrite bind_Ret by reflexivity); rewrite bind_store;
      (erewrite bind_Ret by reflexivity); apply H.
  - intros log'. erewrite vss_bind_rdBucket by done. erewrite vss_bind_wrStorage by done.
    unfold wrBucket, rdBucket. erewrite bind_reading by (simpl; by apply rd_nat).
    unfold store, modify, set_image. simpl. by rewrite !wr_nat.
Qed.

Lemma locked_count_insert st i e0 e : st !! i = Some e0 ->
  (locked_count (<[i := e]> st) + (if decide (locked_entry e0) then 1 else 0)
   = locked_count st + (if decide (locked_entry e) then 1 else 0))%nat.
Proof. apply count_insert. Qed.

(** [_insert] adds the entry to the map and keeps the table well formed. *)
Lemma vss_link_first_wf m e i e0 h : table_wf m -> storage m !! i = Some e0 -> ~ used e0 ->
  (forall j e', (j < i)%nat -> storage m !! j = Some e' -> used e') ->
  hashBuckets m !! vs_bucket (numHashBuckets m) e = Some h ->
  used e -> vss_map m !! vs_key e = None ->
  let m' := link_first m e i h in
  table_wf m' /\ frame m' = frame m /\ length (storage m') = length (storage m) /\
  used_count (storage m') = S (used_count (storage m)) /\
  locked_count (storage m') = (locked_count (storage m) + if vs_locked e then 1 else 0)%nat /\
  vss_map m' = <[vs_key e := vs_val e]> (vss_map m).
Proof.
  intros [Hcap Hnb Hpos Hlwm Hlwmu [cs Hcs] Hkeys] Hi Hf Hb Hh Hu Hnew. cbv zeta.
  assert (Hlt := lookup_lt_Some _ _ _ Hi).
  assert (Hu' : used (slot_set_next h e)) by done.
  destruct (lookup_lt_is_Some_2 cs (vs_bucket (numHashBuckets m) e)) as [c Hc].
  { rewrite (wt_length _ _ _ _ Hcs). by eapply lookup_lt_Some. }
  assert (Hmap := contents_insert vs_key vs_val _ _ _ (slot_set_next h e) Hkeys Hi Hf Hu' Hnew).
  assert (Huq := unique_insert vs_key vs_val _ _ _ (slot_set_next h e) Hkeys Hi Hf Hnew).
  pose proof (wf_insert_head (vs_bucket (numHashBuckets m)) _ _ _ (vs_bucket (numHashBuckets m) e)
    _ _ _ _ (slot_set_next h e) Hcs Hi Hf Hu' (vs_bucket_next _ h e) Hh Hc eq_refl)
    as Htab.
  pose proof (used_count_insert (storage m) i e0 (slot_set_next h e) Hi) as Hcount.
  unfold used_nat in Hcount. rewrite decide_False in Hcount by done.
  rewrite decide_True in Hcount by done.
  assert (Hlock : locked_count (<[i := slot_set_next h e]> (storage m))
    = (locked_count (storage m) + if vs_locked e then 1 else 0)%nat).
  { pose proof (locked_count_insert (storage m) i e0 (slot_set_next h e) Hi) as Hl.
    rewrite decide_False in Hl by (by intros [? _]). unfold locked_entry in Hl.
    destruct (vs_locked e) eqn:El.
    - rewrite decide_True in Hl by (by split). lia.
    - rewrite decide_False in Hl by (intros [_ Hx]; simpl in Hx; congruence). lia. }
  unfold link_first, vss_map in *. cbv zeta.
  generalize dependent (vs_bucket (numHashBuckets m) e). intros b Hh Hc Htab.
  destruct m as [cap sz lwm nb lk bs st key sz' p]. simpl in *.
  split_and!; [|done|by rewrite length_insert|lia|done|done].
  split; simpl; rewrite ?length_insert; try done; [lia| |by eexists].
  intros j e' Hj [(<- & <- & _)|[Hne Hj']]%list_lookup_insert_Some; [done|].
  apply (Hb j); [lia|done].
Qed.

(** ** Copying a table *)

Definition copy_entry (e : VSSEntry) : prog vss_obj unit :=
  if decide (vs_lbid e = -1) then mret tt else _insert e true.

Lemma vss_copy_entries l d log : table_wf d -> unique_keys vs_key l ->
  (used_count (storage d) + used_count l <= length (storage d))%nat ->
  (forall e, stored l e -> vss_map d !! vs_key e = None) ->
  exists d' log', for_each l copy_entry (mkUndoable d log) = (Ret tt, mkUndoable d' log') /\
    table_wf d' /\ frame d' = frame d /\ length (storage d') = length (storage d) /\
    used_count (storage d') = (used_count (storage d) + used_count l)%nat /\
    locked_count (storage d') = (locked_count (storage d) + locked_count l)%nat /\
    vss_map d' = contents vs_key vs_val l ∪ vss_map d.
Proof.
  revert d log. induction l as [|e l IH]; intros d log Hwf Huq Hroom Hnew.
  { exists d, log. split_and!; try done.
    change (contents vs_key vs_val []) with (∅ : gmap (Z * Z) (bool * bool)). by rewrite (left_id_L ∅ (∪)). }
  apply unique_keys_cons in Huq as [Huq Hne].
  cbn [for_each]. destruct (decide (vs_lbid e = -1)) as [Hfree|Hu].
  { assert (Hcount : used_count (e :: l) = used_count l).
    { unfold used_count. rewrite filter_cons, decide_False; [done|]. intros Hx. by apply Hx. }
    assert (Hlcount : locked_count (e :: l) = locked_count l).
    { unfold locked_count. rewrite filter_cons, decide_False; [done|]. intros [Hx _]. by apply Hx. }
    destruct (IH d log) as (d' & log' & Hrun & Hwf' & Hfr & Hlen & Hc & Hlk & Hmap); try done.
    { lia. }
    { intros e' He'. by apply Hnew, stored_cons. }
    exists d', log'. erewrite bind_Ret by (unfold copy_entry; by rewrite decide_True).
    split_and!; try done; [lia|lia|].
    rewrite Hmap. unfold contents. rewrite filter_cons, decide_False; [done|].
    intros Hx. by apply Hx. }
  assert (Hused : used e) by done.
  assert (Hcount : used_count (e :: l) = S (used_count l)).
  { unfold used_count. rewrite filter_cons, decide_True; [done|]. exact Hused. }
  assert (Hlcount : locked_count (e :: l) = ((if vs_locked e then 1 else 0) + locked_count l)%nat).
  { unfold locked_count. rewrite filter_cons. case_decide as Hle.
    - destruct Hle as [_ ->]. done.
    - destruct (vs_locked e) eqn:El; [|done]. by destruct Hle. }
  destruct (vss_insert_run e true d log Hwf) as (i & e0 & h & log1 & Hi & Hf & Hb & Hh & Hrun1).
  { lia. }
  destruct (vss_link_first_wf d e i e0 h Hwf Hi Hf Hb Hh Hused) as (Hwf1 & Hfr1 & Hlen1 & Hc1 & Hlk1 & Hmap1).
  { apply Hnew. by exists 0%nat. }
  destruct (IH (link_first d e i h) log1) as (d' & log' & Hrun & Hwf' & Hfr & Hlen & Hc & Hlk & Hmap);
    try done.
  { lia. }
  { intros e' He'. rewrite Hmap1, lookup_insert_ne; [by apply Hnew, stored_cons|].
    intros Hk. by eapply Hne. }
  exists d', log'. erewrite bind_Ret
    by (unfold copy_entry; rewrite decide_False by done; exact Hrun1).
  split_and!; [done|done|congruence|congruence|lia|lia|].
  rewrite Hmap, Hmap1, contents_cons by done. rewrite <- insert_union_l.
  symmetry. apply insert_union_r, contents_None; [done|]. by apply Hne.
Qed.

(** ** Growth *)

(** A table of free entries. *)
Definition emptied (d : vss_seg) : vss_seg :=
  set_arrays (replicate (Z.to_nat (numHashBuckets d)) (-1))
    (replicate (Z.to_nat (capacity d)) free_entry) d.

Lemma vss_replicate_free n e : e ∈ replicate n free_entry -> ~ used e.
Proof. intros [-> _]%elem_of_replicate Hu. by apply Hu. Qed.

Lemma free_locked_count (st : list VSSEntry) :
  (forall e, e ∈ st -> ~ used e) -> locked_count st = 0%nat.
Proof.
  intros H. unfold locked_count. replace (filter locked_entry st) with (@nil VSSEntry); [done|].
  symmetry. apply elem_of_nil_inv. intros e [[Hu _] Hin]%list_elem_of_filter. by apply (H e).
Qed.

Lemma vss_emptied_wf d : 0 < numHashBuckets d < 2 ^ 31 -> 0 <= capacity d -> LWM d = 0 ->
  table_wf (emptied d) /\ vss_map (emptied d) = ∅ /\
  used_count (storage (emptied d)) = 0%nat /\ locked_count (storage (emptied d)) = 0%nat.
Proof.
  destruct d as [cap sz lwm nb lk bs st key sz' p]. simpl. intros Hnb Hcap ->.
  split_and!.
  - split; simpl; rewrite ?length_replicate; try lia.
    + exists (replicate (length (replicate (Z.to_nat nb) (-1))) []).
      apply wf_table_empty; [by intros b h [-> _]%lookup_replicate|apply vss_replicate_free].
    + intros i j ei ej Hi%list_elem_of_lookup_2 _ Hu. by destruct (vss_replicate_free _ _ Hi).
  - apply contents_empty, vss_replicate_free.
  - apply used_count_zero. intros i e He%list_elem_of_lookup_2. by eapply vss_replicate_free.
  - apply free_locked_count, vss_replicate_free.
Qed.

(** A full table, the only one [insert] grows, is copied entry by entry. *)
Lemma copyVSS_full src d log : vss_wf src -> currentSize src = capacity src ->
  0 < numHashBuckets d < 2 ^ 31 -> capacity src <= capacity d -> LWM d = 0 ->
  exists d' log', copyVSS src (mkUndoable d log) = (Ret tt, mkUndoable d' log') /\
    table_wf d' /\
    frame d' = frame (set_field FlockedEntryCount (lockedEntryCount src)
                 (set_field FcurrentSize (currentSize src) d)) /\
    vss_map d' = vss_map src /\ used_count (storage d') = used_count (storage src) /\
    locked_count (storage d') = locked_count (storage src).
Proof.
  intros Hwf Hfull Hnb Hcap Hlwm. pose proof (vw_table _ Hwf) as Htw.
  set (d0 := emptied (set_field FlockedEntryCount (lockedEntryCount src)
                        (set_field FcurrentSize (currentSize src) d))).
  assert (Hd0 : table_wf d0 /\ vss_map d0 = ∅ /\ used_count (storage d0) = 0%nat /\
                locked_count (storage d0) = 0%nat).
  { apply vss_emptied_wf; destruct d; simpl in *; try done. pose proof (tw_lwm _ Htw). lia. }
  destruct Hd0 as (Hwf0 & Hmap0 & Hc0 & Hl0).
  destruct (vss_copy_entries (storage src) d0 log)
    as (d' & log' & Hrun & Hwf' & Hfr & Hlen & Hc & Hlk & Hmap); [done|by apply tw_keys|..].
  - rewrite Hc0. pose proof (used_count_le (storage src)). pose proof (tw_cap _ Hwf0).
    assert (capacity d0 = capacity d) by (unfold d0; by destruct d).
    rewrite (tw_cap _ Htw) in Hcap. lia.
  - intros e He. by rewrite Hmap0, lookup_empty.
  - exists d', log'. split_and!; try done.
    + transitivity (for_each (seqZ 0 (currentSize src))
        (fun i => reading (fun _ => rd (storage src) i) ≫= copy_entry)
        (mkUndoable d0 log)); [unfold d0; by destruct d|].
      rewrite <- Hrun, <- (for_each_array [] (storage src) []), app_nil_r.
      rewrite Hfull, (tw_cap _ Htw). done.
    + rewrite Hfr. unfold d0. by destruct d.
    + by rewrite Hmap, Hmap0, (right_id_L ∅ (∪)).
    + lia.
    + lia.
Qed.

Definition mapped (m : vss_seg) : Prop := fPVSSImpl m = true /\ VSS_INITIAL_SIZE <= allocdSize m.

Lemma growVSS_full m log : vss_wf m -> mapped m -> currentSize m = capacity m ->
  numHashBuckets m + 5000 < 2 ^ 31 ->
  exists m', growVSS (mkUndoable m log) = (Ret tt, mkUndoable m' log) /\
    vss_wf m' /\ mapped m' /\ vss_map m' = vss_map m /\
    currentSize m' = currentSize m /\ capacity m' = capacity m + VSSSTORAGE_INCREMENT_COUNT /\
    tableShmkey m' = chooseShmkey m.
Proof.
  intros Hwf [Hi Ha] Hfull Hnb. pose proof (tw_nb_pos _ (vw_table _ Hwf)).
  set (tmp := set_field Fcapacity (capacity m + VSSSTORAGE_INCREMENT / sizeof_VSSEntry)
                  (set_field FnumHashBuckets (numHashBuckets m + VSSTABLE_INCREMENT / 4)
                    (set_field FLWM 0 (blank m)))).
  destruct (copyVSS_full m tmp []) as (d' & log' & Hrun & Hwf' & Hfr & Hmap & Hc & Hlk); try done.
  { simpl. change (VSSTABLE_INCREMENT / 4) with 5000. lia. }
  { simpl. change (VSSSTORAGE_INCREMENT / sizeof_VSSEntry) with 20000. lia. }
  assert (Hsz : VSS_INITIAL_SIZE = 5000020 /\ VSS_INCREMENT = 500000) by done.
  exists (set_shminfo (chooseShmkey m) (allocdSize m + VSS_INCREMENT) d').
  split.
  - unfold growVSS. erewrite bind_Ret by reflexivity. cbv zeta. cbn [image].
    rewrite (decide_False (P := allocdSize m = 0)) by lia. rewrite Hi. cbn [orb].
    erewrite bind_Ret by reflexivity.
    erewrite bind_Ret with (s' := mkUndoable d' log) by (fold tmp; by rewrite Hrun).
    rewrite decide_False by lia. erewrite bind_Ret by reflexivity. done.
  - apply vss_frame_inv in Hfr as (F1 & F2 & F3 & F4 & F5 & F6 & F7).
    change (VSSTABLE_INCREMENT / 4) with 5000 in *.
    change (VSSSTORAGE_INCREMENT / sizeof_VSSEntry) with VSSSTORAGE_INCREMENT_COUNT in *.
    cbn in F1, F2, F3, F4, F5, F6, F7.
    pose proof (vw_size _ Hwf). pose proof (vw_locked _ Hwf).
    destruct Hwf' as [Wcap Wbs Wpos Wlwm Wlwmu Wtab Wkeys]. unfold vss_map, mapped in *.
    destruct d' as [cap sz lwm nb lk bs st key sz' p]. simpl in *. subst.
    split_and!; try done; [|lia]. split; simpl; [by split|lia|lia].
Qed.

(** ** [insert] *)

Lemma vss_insert_room m log lbid verID vbFlag locked loading : vss_wf m -> mapped m ->
  currentSize m < capacity m -> 0 <= lbid -> vss_map m !! (lbid, verID) = None ->
  exists m' log', insert lbid verID vbFlag locked loading (mkUndoable m log)
    = (Ret tt, mkUndoable m' log') /\ vss_wf m' /\ mapped m' /\
    vss_map m' = <[(lbid, verID) := (vbFlag, locked)]> (vss_map m) /\
    capacity m' = capacity m /\ currentSize m' = currentSize m + 1.
Proof.
  intros Hwf Hm Hroom Hl Hnew. set (e := mkVSSEntry lbid verID vbFlag locked (-1)).
  assert (He : used e) by (unfold used; simpl; lia).
  destruct (vss_insert_run e loading m log) as (i & e0 & h & log1 & Hi & Hf & Hb & Hh & Hrun);
    [apply Hwf| |].
  { rewrite (vw_size _ Hwf), (tw_cap _ (vw_table _ Hwf)) in Hroom. lia. }
  destruct (vss_link_first_wf m e i e0 h (vw_table _ Hwf) Hi Hf Hb Hh He Hnew)
    as (Hwf1 & Hfr1 & Hlen1 & Hc1 & Hlk1 & Hmap1).
  set (m1 := link_first m e i h) in *.
  apply vss_frame_inv in Hfr1 as (F1 & F2 & F3 & F4 & F5 & F6 & F7).
  set (m' := set_field FlockedEntryCount
    (lockedEntryCount m + if locked then 1 else 0) (set_field FcurrentSize (currentSize m + 1) m1)).
  assert (Hfin : exists log', insert lbid verID vbFlag locked loading (mkUndoable m log)
    = (Ret tt, mkUndoable m' log')).
  { unfold m'. rewrite <- F2, <- F4. clearbody m1. clear - Hrun Hroom.
    destruct m1 as [cap1 sz1 lwm1 nb1 lk1 bs1 st1 key1 al1 p1].
    destruct loading, locked; eexists; unfold insert;
      (erewrite bind_Ret by reflexivity); (erewrite bind_Ret by reflexivity);
      cbn [get_field image]; (rewrite decide_False by lia); (erewrite bind_Ret by reflexivity);
      (erewrite bind_Ret by exact Hrun); (erewrite bind_Ret by reflexivity);
      (erewrite bind_Ret by reflexivity); rewrite bind_store; simpl;
      rewrite ?Z.add_0_r; reflexivity. }
  destruct Hfin as [log' Hfin]. exists m', log'. split; [exact Hfin|]. clear Hfin Hrun Hh.
  pose proof (vw_size _ Hwf). pose proof (vw_locked _ Hwf). destruct Hm as [Hm1 Hm2].
  destruct Hwf1 as [Wcap Wbs Wpos Wlwm Wlwmu Wtab Wkeys]. unfold vss_map, m' in *.
  clearbody m1. clear m'. destruct m1, m. simpl in *. subst.
  split_and!; [|by split|done|done|done].
  split; simpl; [by split|lia|]. destruct locked; lia.
Qed.

Lemma vss_insert_spec m log lbid verID vbFlag locked loading : vss_wf m -> mapped m ->
  numHashBuckets m + 5000 < 2 ^ 31 -> 0 <= lbid -> vss_map m !! (lbid, verID) = None ->
  exists m' log', insert lbid verID vbFlag locked loading (mkUndoable m log)
    = (Ret tt, mkUndoable m' log') /\ vss_wf m' /\ mapped m' /\
    vss_map m' = <[(lbid, verID) := (vbFlag, locked)]> (vss_map m).
Proof.
  intros Hwf Hm Hnb Hl Hnew. destruct (decide (currentSize m = capacity m)) as [Hfull|Hroom].
  - destruct (growVSS_full m log) as (m1 & Hrun & Hwf1 & Hm1 & Hmap1 & Hs1 & Hc1 & _); try done.
    assert (Hroom1 : currentSize m1 < capacity m1)
      by (rewrite Hs1, Hc1; unfold VSSSTORAGE_INCREMENT_COUNT; lia).
    assert (Heq : insert lbid verID vbFlag locked loading (mkUndoable m log)
      = insert lbid verID vbFlag locked loading (mkUndoable m1 log)).
    { unfold insert at 1. do 2 (erewrite bind_Ret by reflexivity). cbn [get_field image].
      rewrite decide_True by done. erewrite bind_Ret by exact Hrun. symmetry. unfold insert.
      do 2 (erewrite bind_Ret by reflexivity). cbn [get_field image].
      rewrite decide_False by lia. by erewrite bind_Ret by reflexivity. }
    rewrite Heq, <- Hmap1. rewrite <- Hmap1 in Hnew.
    destruct (vss_insert_room m1 log lbid verID vbFlag locked loading)
      as (m' & log' & H1 & H2 & H3 & H4 & _); try done. by exists m', log'.
  - assert (currentSize m < capacity m).
    { rewrite (vw_size _ Hwf), (tw_cap _ (vw_table _ Hwf)) in *.
      pose proof (used_count_le (storage m)). lia. }
    destruct (vss_insert_room m log lbid verID vbFlag locked loading)
      as (m' & log' & H1 & H2 & H3 & H4 & _); try done. by exists m', log'.
Qed.

(** ** Removal *)

Definition freed (m : vss_seg) (i : nat) (e : VSSEntry) : vss_seg :=
  let m1 := set_field FcurrentSize (currentSize m - 1) m in
  let m2 := if vs_locked e && bool_decide (lockedEntryCount m > 0)
            then set_field FlockedEntryCount (lockedEntryCount m - 1) m1 else m1 in
  if decide (Z.of_nat i < LWM m) then set_field FLWM (Z.of_nat i) m2 else m2.

Definition removed (m : vss_seg) (b i : nat) (e : VSSEntry) (prev : Z) : vss_seg :=
  let '(bs, st) := unlinked (hashBuckets m) (storage m) b i e prev in
  freed (with_links bs st m) i e.

Lemma unlink_run {A} m log b i e prev (q : prog vss_obj A) :
  storage m !! i = Some e -> is_Some (hashBuckets m !! b) ->
  (prev = -1 \/ exists p : nat, prev = Z.of_nat p /\ p <> i /\ is_Some (storage m !! p)) ->
  exists log',
    (unlink (Z.of_nat b) prev (Z.of_nat i);; q) (mkUndoable m log)
    = q (mkUndoable
           (let '(bs, st) := unlinked (hashBuckets m) (storage m) b i e prev in
            with_links bs st m) log').
Proof.
  intros Hi [h Hh] Hp. assert (Hlt := lookup_lt_Some _ _ _ Hi). unfold unlink.
  rewrite prog_bind_assoc, bind_makeUndoRecord by done.
  rewrite prog_bind_assoc. erewrite vss_bind_rdStorage by done.
  rewrite prog_bind_assoc. erewrite vss_bind_wrStorage by done. unfold unlinked.
  destruct m as [cap sz lwm nb lk bs st key sz' pp]. unfold with_links. simpl in *.
  assert (Hi' : <[i := slot_set_lbid (-1) e]> st !! i = Some (slot_set_lbid (-1) e))
    by (by apply list_lookup_insert_eq).
  destruct Hp as [->|(p & -> & Hpi & [ep Hep])].
  - eexists. rewrite decide_False by lia. rewrite decide_True by done.
    rewrite prog_bind_assoc, bind_makeUndoRecord by done.
    rewrite prog_bind_assoc. erewrite vss_bind_rdStorage by done. by erewrite vss_bind_wrBucket by done.
  - eexists. rewrite decide_True by lia. rewrite decide_False by lia. rewrite Nat2Z.id, Hep.
    assert (Hep' : <[i := slot_set_lbid (-1) e]> st !! p = Some ep)
      by (by rewrite list_lookup_insert_ne).
    rewrite prog_bind_assoc, bind_makeUndoRecord by done.
    rewrite prog_bind_assoc. erewrite vss_bind_rdStorage by done.
    rewrite prog_bind_assoc. erewrite vss_bind_rdStorage by done.
    by erewrite vss_bind_wrStorage by done.
Qed.

Lemma account_run m log i e : storage m !! i = Some e ->
  account (Z.of_nat i) (mkUndoable m log) = (Ret tt, mkUndoable (freed m i e) log).
Proof.
  intros Hi. unfold account. erewrite bind_Ret by reflexivity. rewrite bind_store.
  destruct m as [cap sz lwm nb lk bs st key sz' pp]. simpl in *.
  erewrite vss_bind_rdStorage by done. erewrite bind_Ret by reflexivity. unfold freed. simpl.
  destruct (vs_locked e && bool_decide (lk > 0)); erewrite bind_Ret by reflexivity;
    erewrite bind_Ret by reflexivity; simpl; case_decide; done.
Qed.

(** The entry that [unlink] leaves at the freed slot, and what stays. *)
Lemma unlinked_facts m b i e prev : table_wf m -> storage m !! i = Some e -> used e ->
  (prev <> -1 -> Z.to_nat prev <> i) ->
  let st' := snd (unlinked (hashBuckets m) (storage m) b i e prev) in
  contents vs_key vs_val st' = delete (vs_key e) (vss_map m) /\
  unique_keys vs_key st' /\ length st' = length (storage m) /\
  S (used_count st') = used_count (storage m) /\
  (locked_count st' + (if vs_locked e then 1 else 0) = locked_count (storage m))%nat /\
  st' !! i = Some (slot_set_lbid (-1) e) /\
  (forall j ej, j <> i -> st' !! j = Some ej ->
     exists ej', storage m !! j = Some ej' /\ vs_lbid ej = vs_lbid ej').
Proof.
  intros Hwf Hi Hu Hpi. pose proof (tw_keys _ Hwf) as Hkeys.
  assert (Hlt := lookup_lt_Some _ _ _ Hi).
  assert (Hf : ~ used (slot_set_lbid (-1) e)) by (intros Hx; by apply Hx).
  set (st1 := <[i := slot_set_lbid (-1) e]> (storage m)).
  assert (H1 : contents vs_key vs_val st1 = delete (vs_key e) (vss_map m))
    by (by apply contents_free).
  assert (H2 : unique_keys vs_key st1) by (by apply unique_free).
  assert (H3 : S (used_count st1) = used_count (storage m)).
  { pose proof (used_count_insert _ _ _ (slot_set_lbid (-1) e) Hi) as Hcount.
    unfold used_nat in Hcount. rewrite decide_True, decide_False in Hcount by done.
    unfold st1. lia. }
  assert (H3l : (locked_count st1 + (if vs_locked e then 1 else 0) = locked_count (storage m))%nat).
  { pose proof (locked_count_insert _ _ _ (slot_set_lbid (-1) e) Hi) as Hcount.
    rewrite (decide_False (P := locked_entry (slot_set_lbid (-1) e))) in Hcount
      by (by intros [? _]).
    unfold st1. case_decide as Hle; [destruct Hle as [_ ->]; lia|].
    destruct (vs_locked e) eqn:El; [by destruct Hle|lia]. }
  assert (H4 : forall j ej, j <> i -> st1 !! j = Some ej ->
    exists ej', storage m !! j = Some ej' /\ vs_lbid ej = vs_lbid ej').
  { intros j ej Hj. unfold st1. rewrite list_lookup_insert_ne by done. eauto. }
  assert (H5 : st1 !! i = Some (slot_set_lbid (-1) e)) by (by apply list_lookup_insert_eq).
  unfold unlinked. fold st1. case_decide as Hp; cbn [snd].
  { split_and!; try done. unfold st1. by rewrite length_insert. }
  destruct (storage m !! Z.to_nat prev) as [ep|] eqn:Hep; cbn [snd].
  2: { split_and!; try done. unfold st1. by rewrite length_insert. }
  assert (Hep' : st1 !! Z.to_nat prev = Some ep).
  { unfold st1. rewrite list_lookup_insert_ne; [done|]. intros Hx. by apply Hpi. }
  split_and!.
  - by rewrite (contents_same vs_key vs_val _ _ ep).
  - by apply (unique_update vs_key _ _ ep).
  - unfold st1. by rewrite !length_insert.
  - pose proof (used_count_insert _ _ _ (slot_set_next (slot_next e) ep) Hep') as Hcount.
    assert (Hsame : used_nat (slot_set_next (slot_next e) ep) = used_nat ep) by done. lia.
  - pose proof (locked_count_insert _ _ _ (slot_set_next (slot_next e) ep) Hep') as Hcount.
    assert (Hiff : locked_entry (slot_set_next (slot_next e) ep) <-> locked_entry ep) by done.
    destruct (decide (locked_entry ep)) as [Hx|Hx].
    + rewrite decide_True in Hcount by (by apply Hiff). lia.
    + rewrite decide_False in Hcount by (by rewrite Hiff). lia.
  - rewrite list_lookup_insert_ne; [done|]. intros Hx. by apply Hpi.
  - intros j ej Hj [(<- & <- & _)|[_ Hst]]%list_lookup_insert_Some; [|by eapply H4].
    exists ep. done.
Qed.

Lemma vss_removed_wf m cs b l1 i l2 e : vss_wf m ->
  wf_table (vs_bucket (numHashBuckets m)) (hashBuckets m) (storage m) cs ->
  cs !! b = Some (l1 ++ i :: l2) -> storage m !! i = Some e -> used e ->
  let m' := removed m b i e (prev_of l1) in
  vss_wf m' /\ vss_map m' = delete (vs_key e) (vss_map m) /\ (mapped m -> mapped m') /\
  numHashBuckets m' = numHashBuckets m /\ capacity m' = capacity m /\
  storage m' !! i = Some (slot_set_lbid (-1) e) /\
  (forall j ej, j <> i -> storage m' !! j = Some ej ->
     exists ej', storage m !! j = Some ej' /\ vs_lbid ej = vs_lbid ej') /\
  wf_table (vs_bucket (numHashBuckets m')) (hashBuckets m') (storage m') (<[b := l1 ++ l2]> cs).
Proof.
  intros Hwf Hcs Hc Hi Hu. cbv zeta. pose proof (vw_table _ Hwf) as Htw.
  pose proof (prev_of_ne _ _ _ _ _ _ _ _ Hcs Hc) as Hpi.
  destruct (unlinked_facts m b i e (prev_of l1) Htw Hi Hu Hpi)
    as (H1 & H2 & H3 & H4 & H4l & H6 & H5).
  pose proof (wf_unlink (vs_bucket (numHashBuckets m)) (vs_bucket_next _)
    _ _ _ _ _ _ _ _ Hcs Hc Hi) as Hun.
  assert (Hbl : length (fst (unlinked (hashBuckets m) (storage m) b i e (prev_of l1)))
                = length (hashBuckets m)).
  { unfold unlinked. repeat case_match; simpl; by rewrite ?length_insert. }
  unfold removed, freed. destruct (unlinked _ _ _ _ _ _) as [bs st]. simpl in *.
  assert (Hlt := lookup_lt_Some _ _ _ Hi).
  pose proof (vw_size _ Hwf) as Hs. pose proof (vw_locked _ Hwf) as Hlk.
  destruct Htw as [Wcap Wbs Wpos Wlwm Wlwmu _ _]. unfold vss_map, mapped, with_links in *.
  destruct m as [cap sz lwm nb lk bs0 st0 key sz' p]. simpl in *.
  assert (Hbelow : forall j ej, Z.of_nat j < Z.min lwm (Z.of_nat i) -> st !! j = Some ej -> used ej).
  { intros j ej Hj Hej. destruct (H5 j ej) as (ej' & Hej' & Huj); [lia|done|].
    unfold used. simpl. rewrite Huj. apply (Wlwmu j); [lia|done]. }
  assert (Hlock : vs_locked e && bool_decide (lk > 0) = vs_locked e).
  { destruct (vs_locked e); [|done]. simpl. apply bool_decide_eq_true. lia. }
  rewrite Hlock.
  assert (Hcase : vs_locked e = true \/ vs_locked e = false) by (destruct (vs_locked e); auto).
  destruct Hcase as [El|El]; rewrite El in H4l; rewrite El in H6; rewrite El;
    destruct (decide (Z.of_nat i < lwm)) as [Hd|Hd]; (split_and!; [|done..]);
    split; simpl; try done; try lia;
    split; simpl; eauto; try lia; intros j ej Hj; apply Hbelow; lia.
Qed.

(** One removal as the loops perform it. *)
Lemma remove_step {A} m log cs b l1 i l2 e (q : prog vss_obj A) : vss_wf m ->
  wf_table (vs_bucket (numHashBuckets m)) (hashBuckets m) (storage m) cs ->
  cs !! b = Some (l1 ++ i :: l2) -> storage m !! i = Some e -> used e ->
  exists log',
    (unlink (Z.of_nat b) (prev_of l1) (Z.of_nat i);; account (Z.of_nat i);; q) (mkUndoable m log)
    = q (mkUndoable (removed m b i e (prev_of l1)) log').
Proof.
  intros Hwf Hcs Hc Hi Hu.
  pose proof (prev_of_ne _ _ _ _ _ _ _ _ Hcs Hc) as Hpi.
  destruct (unlink_run m log b i e (prev_of l1) (account (Z.of_nat i);; q)) as [log' Hrun]; [done|..].
  { apply lookup_lt_is_Some_2. rewrite <- (wt_length _ _ _ _ Hcs). by eapply lookup_lt_Some. }
  { by eapply prev_of_spec. }
  exists log'. rewrite Hrun. unfold removed.
  destruct (unlinked_facts m b i e (prev_of l1) (vw_table _ Hwf) Hi Hu Hpi)
    as (_ & _ & _ & _ & _ & H6 & _).
  destruct (unlinked _ _ _ _ _ _) as [bs st]. simpl in H6.
  erewrite bind_Ret by (apply account_run; destruct m; exact H6). done.
Qed.

(** No entry of [lbid] is left. *)
Definition forget (lbid : Z) (M : gmap (Z * Z) (bool * bool)) : gmap (Z * Z) (bool * bool) :=
  filter (fun kv => kv.1.1 <> lbid) M.

Lemma forget_delete lbid ver M : forget lbid (delete (lbid, ver) M) = forget lbid M.
Proof.
  unfold forget. rewrite map_filter_delete. apply delete_id.
  rewrite map_lookup_filter_None. right. intros x _ Hx. by apply Hx.
Qed.

Lemma forget_id lbid M : (forall ver, M !! (lbid, ver) = None) -> forget lbid M = M.
Proof.
  intros H. apply map_filter_id. intros [l v] x Hx. simpl. intros ->. by rewrite H in Hx.
Qed.

(** The loop frees exactly the entries of [lbid]: [l1] are the entries of the
    list already passed, none of them of [lbid], and [c] those ahead. *)
Record sweep_inv (m : vss_seg) (cs : list (list nat)) (lbid : Z) (b : nat) (l1 c : list nat)
    (index : Z) : Prop := {
  si_wf : vss_wf m;
  si_cs : wf_table (vs_bucket (numHashBuckets m)) (hashBuckets m) (storage m) cs;
  si_b : b = lbid_bucket (numHashBuckets m) lbid;
  si_c : cs !! b = Some (l1 ++ c);
  si_chain : chain (storage m) index c;
  si_l1 i e : i ∈ l1 -> storage m !! i = Some e -> vs_lbid e <> lbid;
}.

Lemma sweep_inv_used m cs lbid b l1 i c index e : sweep_inv m cs lbid b l1 (i :: c) index ->
  storage m !! i = Some e -> used e.
Proof.
  intros Hs He. apply (wt_sound _ _ _ _ (si_cs _ _ _ _ _ _ _ Hs) _ _ i e (si_c _ _ _ _ _ _ _ Hs));
    [set_solver|done].
Qed.

Lemma sweep_inv_done m cs lbid b l1 index ver : sweep_inv m cs lbid b l1 [] index ->
  vss_map m !! (lbid, ver) = None.
Proof.
  intros [Hwf Hcs Hb Hc _ Hl1]. rewrite app_nil_r in Hc.
  destruct (vss_map m !! (lbid, ver)) as [v|] eqn:Hv; [|done].
  apply vss_map_inv in Hv as (i & e & Hi & Hu & [= Hl _] & _); [|apply Hwf]. exfalso.
  destruct (wt_complete _ _ _ _ Hcs _ _ Hi Hu) as (c' & Hc' & Hin).
  rewrite vs_bucket_lbid, Hl, <- Hb in Hc'. simplify_eq. by eapply Hl1.
Qed.

Lemma sweep_inv_skip m cs lbid b l1 i c index e : sweep_inv m cs lbid b l1 (i :: c) index ->
  storage m !! i = Some e -> vs_lbid e <> lbid ->
  sweep_inv m cs lbid b (l1 ++ [i]) c (vs_next e).
Proof.
  intros [Hwf Hcs Hb Hc Hch Hl1] He Hne. split; try done.
  - by rewrite <- app_assoc.
  - apply chain_cons_inv in Hch as (_ & e' & He' & Hch). by simplify_eq.
  - intros j ej [Hj| ->%list_elem_of_singleton]%elem_of_app Hej; [by eapply Hl1|congruence].
Qed.

Lemma sweep_inv_remove m cs lbid b l1 i c index e : sweep_inv m cs lbid b l1 (i :: c) index ->
  storage m !! i = Some e ->
  sweep_inv (removed m b i e (prev_of l1)) (<[b := l1 ++ c]> cs) lbid b l1 c (vs_next e).
Proof.
  intros Hs He. assert (Hu := sweep_inv_used _ _ _ _ _ _ _ _ _ Hs He).
  destruct Hs as [Hwf Hcs Hb Hc Hch Hl1].
  destruct (vss_removed_wf m cs b l1 i c e Hwf Hcs Hc He Hu)
    as (Hwf1 & Hmap1 & Hm1 & Hnb1 & Hcap1 & Hi1 & Hkeep & Hcs1).
  assert (Hc1 : <[b := l1 ++ c]> cs !! b = Some (l1 ++ c))
    by (by eapply list_lookup_insert_eq, lookup_lt_Some).
  split; try done; [congruence|..].
  - destruct (lookup_lt_is_Some_2 (hashBuckets (removed m b i e (prev_of l1))) b) as [h1 Hh1];
      [rewrite <- (wt_length _ _ _ _ Hcs1); by eapply lookup_lt_Some|].
    apply chain_cons_inv in Hch as (_ & e' & He' & Hch). simplify_eq.
    eapply chain_suffix; [exact Hch|]. by eapply (wt_chain _ _ _ _ Hcs1).
  - intros j ej Hj Hej. destruct (Hkeep j ej) as (ej' & Hej' & ->); [|done|by eapply Hl1].
    intros ->. destruct (lookup_lt_is_Some_2 (hashBuckets m) b) as [h Hh];
      [rewrite <- (wt_length _ _ _ _ Hcs); by eapply lookup_lt_Some|].
    pose proof (chain_NoDup _ _ _ (wt_chain _ _ _ _ Hcs _ _ _ Hh Hc)) as Hnd.
    apply NoDup_app in Hnd as (_ & Hnd & _). apply (Hnd _ Hj). left.
Qed.

Lemma sweep_run fuel lbid m log cs b l1 c index : sweep_inv m cs lbid b l1 c index ->
  (length c < fuel)%nat ->
  exists m' log', sweep fuel lbid (Z.of_nat b) (prev_of l1) index (mkUndoable m log)
      = (Ret tt, mkUndoable m' log') /\
    vss_wf m' /\ vss_map m' = forget lbid (vss_map m) /\ (mapped m -> mapped m') /\
    numHashBuckets m' = numHashBuckets m /\ capacity m' = capacity m.
Proof.
  revert m log cs l1 c index. induction fuel as [|fuel IH]; [intros; lia|].
  intros m log cs l1 c index Hs Hf. pose proof (si_chain _ _ _ _ _ _ _ Hs) as Hch.
  cbn [sweep]. destruct c as [|i c].
  { inversion Hch; subst. rewrite decide_True by done. exists m, log. split_and!; try done.
    - apply Hs.
    - symmetry. apply forget_id. intros ver. by eapply sweep_inv_done. }
  apply chain_cons_inv in Hch as (-> & e & Hi & Hch). rewrite decide_False by lia.
  erewrite vss_bind_rdStorage by done. cbn [length] in Hf.
  destruct (decide (vs_lbid e = lbid)) as [Hl|Hl].
  - assert (Hu := sweep_inv_used _ _ _ _ _ _ _ _ _ Hs Hi).
    destruct (remove_step m log cs b l1 i c e
      (e' ← rdStorage (Z.of_nat i); sweep fuel lbid (Z.of_nat b) (prev_of l1) (vs_next e'))
      (si_wf _ _ _ _ _ _ _ Hs) (si_cs _ _ _ _ _ _ _ Hs) (si_c _ _ _ _ _ _ _ Hs) Hi Hu)
      as [log1 ->].
    destruct (vss_removed_wf m cs b l1 i c e (si_wf _ _ _ _ _ _ _ Hs) (si_cs _ _ _ _ _ _ _ Hs)
      (si_c _ _ _ _ _ _ _ Hs) Hi Hu) as (Hwf1 & Hmap1 & Hm1 & Hnb1 & Hcap1 & Hi1 & _ & _).
    apply sweep_inv_remove with (e := e) in Hs; [|done].
    set (m1 := removed m b i e (prev_of l1)) in *. clearbody m1.
    erewrite vss_bind_rdStorage by done.
    destruct (IH m1 log1 _ _ _ _ Hs) as (m' & log' & Hrun & H1 & H2 & H3 & H4 & H5); [lia|].
    exists m', log'. split_and!; [exact Hrun|done| |by auto|congruence|congruence].
    rewrite H2, Hmap1. unfold vs_key. rewrite Hl. apply forget_delete.
  - apply sweep_inv_skip with (e := e) in Hs; [|done..].
    assert (Hp : prev_of (l1 ++ [i]) = Z.of_nat i) by (unfold prev_of; by rewrite last_snoc).
    rewrite <- Hp. apply IH with (1 := Hs). lia.
Qed.

(** Some version of [lbid] is in the version buffer or locked. *)
Definition still_needed (lbid : Z) (M : gmap (Z * Z) (bool * bool)) : Prop :=
  map_Exists (fun k f => k.1 = lbid /\ f.1 || f.2 = true) M.

(** What [removeEntry] does to the map, and what it appends to the flush list. *)
Definition vss_remove (lbid ver : Z) (M : gmap (Z * Z) (bool * bool)) :
    list Z * gmap (Z * Z) (bool * bool) :=
  match M !! (lbid, ver) with
  | None => ([], M)
  | Some _ =>
      let M1 := delete (lbid, ver) M in
      if decide (still_needed lbid M1) then ([], M1) else ([lbid], forget lbid M1)
  end.

Lemma vss_remove_sub lbid ver M k v : (vss_remove lbid ver M).2 !! k = Some v ->
  M !! k = Some v /\ (M !! (lbid, ver) <> None -> k <> (lbid, ver)).
Proof.
  unfold vss_remove. destruct (M !! (lbid, ver)) eqn:Hm; [|by intros; split].
  cbv zeta. case_decide; cbn [snd].
  - rewrite lookup_delete_Some. intros [??]. split; [done|]. by intros _ ->.
  - unfold forget. rewrite map_lookup_filter_Some, lookup_delete_Some.
    intros [[??] _]. split; [done|]. by intros _ ->.
Qed.

Lemma needed_spec m cs lbid : vss_wf m ->
  wf_table (vs_bucket (numHashBuckets m)) (hashBuckets m) (storage m) cs ->
  needed m lbid (Z.of_nat (lbid_bucket (numHashBuckets m) lbid))
  = Ret (bool_decide (still_needed lbid (vss_map m))).
Proof.
  intros Hwf Hcs. destruct (vss_bucket_head m lbid (vw_table _ Hwf)) as [h Hh].
  destruct (lookup_lt_is_Some_2 cs (lbid_bucket (numHashBuckets m) lbid)) as [c Hc];
    [rewrite (wt_length _ _ _ _ Hcs); by eapply lookup_lt_Some|].
  unfold needed. rewrite (rd_nat _ _ _ Hh), ret_bind.
  assert (Hch := wt_chain _ _ _ _ Hcs _ _ _ Hh Hc). clear Hh.
  rewrite (list_walk_chain _ _ _ c) by (done || (pose proof (chain_length _ _ _ Hch); lia)).
  rewrite ret_bind.
  pose proof (walk_first (fun e => bool_decide (vs_lbid e = lbid) && (vs_vbFlag e || vs_locked e))
    (fun _ => tt) (chain_entries (storage m) c)) as Hw. cbv beta in Hw.
  destruct (walk_entries _ _ _) as [u|u]; f_equal; symmetry.
  - apply bool_decide_eq_false. intros ([l v] & f & Hf & Hl & Hb). simpl in Hl. subst l.
    apply vss_map_inv in Hf as (i & e & Hi & Hu & [= Hl Hv] & <-); [|apply Hwf].
    specialize (Hw i e ltac:(by eapply bucket_complete)). cbn in Hb.
    rewrite Hb, bool_decide_eq_true_2 in Hw by done. done.
  - apply bool_decide_eq_true. destruct Hw as (i & e & Hin & [Hl Hb]%andb_true_iff & _).
    apply bool_decide_eq_true in Hl. destruct (bucket_sound _ _ _ _ _ _ Hcs Hc Hin) as [Hi Hu].
    exists (vs_key e), (vs_val e). split; [|done].
    apply vss_map_stored; [apply Hwf|by exists i].
Qed.

(** The first removal of [removeEntry] also saves the header. *)
Lemma remove_step_header {A} m log cs b l1 i l2 e (q : prog vss_obj A) : vss_wf m ->
  wf_table (vs_bucket (numHashBuckets m)) (hashBuckets m) (storage m) cs ->
  cs !! b = Some (l1 ++ i :: l2) -> storage m !! i = Some e -> used e ->
  exists log',
    (unlink (Z.of_nat b) (prev_of l1) (Z.of_nat i);; makeUndoRecord header_cells;;
     account (Z.of_nat i);; q) (mkUndoable m log)
    = q (mkUndoable (removed m b i e (prev_of l1)) log').
Proof.
  intros Hwf Hcs Hc Hi Hu.
  pose proof (prev_of_ne _ _ _ _ _ _ _ _ Hcs Hc) as Hpi.
  edestruct (unlink_run m log b i e (prev_of l1)
    (makeUndoRecord header_cells;; account (Z.of_nat i);; q)) as [log' Hrun]; [done|..].
  { apply lookup_lt_is_Some_2. rewrite <- (wt_length _ _ _ _ Hcs). by eapply lookup_lt_Some. }
  { by eapply prev_of_spec. }
  rewrite Hrun. clear Hrun. unfold removed.
  destruct (unlinked_facts m b i e (prev_of l1) (vw_table _ Hwf) Hi Hu Hpi)
    as (_ & _ & _ & _ & _ & H6 & _).
  destruct (unlinked _ _ _ _ _ _) as [bs st]. simpl in H6.
  eexists. rewrite bind_makeUndoRecord by done. erewrite bind_Ret by (apply account_run; destruct m; exact H6). done.
Qed.

(** The last loop of [removeEntry], from the head of the list. *)
Lemma sweep_bucket lbid m log cs b : vss_wf m ->
  wf_table (vs_bucket (numHashBuckets m)) (hashBuckets m) (storage m) cs ->
  b = lbid_bucket (numHashBuckets m) lbid ->
  exists m' log',
    (head ← rdBucket (Z.of_nat b);
     n ← gets (fun o => length (storage (image o)));
     sweep (S n) lbid (Z.of_nat b) (-1) head;;
     mret [lbid]) (mkUndoable m log) = (Ret [lbid], mkUndoable m' log') /\
    vss_wf m' /\ vss_map m' = forget lbid (vss_map m) /\ (mapped m -> mapped m') /\
    numHashBuckets m' = numHashBuckets m /\ capacity m' = capacity m.
Proof.
  intros Hwf Hcs Hb. destruct (vss_bucket_head m lbid (vw_table _ Hwf)) as [h Hh].
  rewrite <- Hb in Hh.
  destruct (lookup_lt_is_Some_2 cs b) as [c Hc];
    [rewrite (wt_length _ _ _ _ Hcs); by eapply lookup_lt_Some|].
  assert (Hch := wt_chain _ _ _ _ Hcs _ _ _ Hh Hc).
  destruct (sweep_run (S (length (storage m))) lbid m log cs b [] c h)
    as (m' & log' & Hrun & Hrest).
  { split; try done. by intros i e ?%elem_of_nil. }
  { pose proof (chain_length _ _ _ Hch). lia. }
  exists m', log'. split; [|exact Hrest]. erewrite vss_bind_rdBucket by done.
  erewrite bind_Ret by reflexivity. by erewrite bind_Ret by exact Hrun.
Qed.

Lemma removeEntry_spec m log lbid verID : vss_wf m ->
  exists m' log', removeEntry lbid verID (mkUndoable m log)
      = (Ret (vss_remove lbid verID (vss_map m)).1, mkUndoable m' log') /\
    vss_wf m' /\ vss_map m' = (vss_remove lbid verID (vss_map m)).2 /\ (mapped m -> mapped m') /\
    numHashBuckets m' = numHashBuckets m /\ capacity m' = capacity m.
Proof.
  intros Hwf. destruct (tw_table _ (vw_table _ Hwf)) as [cs Hcs].
  destruct (vss_getIndex_spec m cs lbid verID (vw_table _ Hwf) Hcs) as (r & Hr & Hout).
  unfold removeEntry. erewrite bind_reading by exact Hr. unfold vss_remove.
  destruct Hout as [l1 i l2 e Hc Hi Hu Hk|prev b Hn].
  2: { rewrite Hn. exists m, log. by split_and!. }
  cbv beta iota. rewrite decide_False by lia.
  assert (Hin : vss_map m !! (lbid, verID) = Some (vs_val e)).
  { rewrite <- Hk. apply vss_map_stored; [apply Hwf|by exists i]. }
  rewrite Hin. cbv zeta. remember (lbid_bucket (numHashBuckets m) lbid) as b eqn:Hb.
  edestruct (remove_step_header (A := list Z) m log cs b l1 i l2 e) as [log1 Hrun1]; [done..|].
  rewrite Hrun1. clear Hrun1.
  destruct (vss_removed_wf m cs b l1 i l2 e Hwf Hcs Hc Hi Hu)
    as (Hwf1 & Hmap1 & Hm1 & Hnb1 & Hcap1 & _ & _ & Hcs1).
  set (m1 := removed m b i e (prev_of l1)) in *. clearbody m1. rewrite Hk in Hmap1.
  assert (Hb1 : b = lbid_bucket (numHashBuckets m1) lbid) by (by rewrite Hnb1).
  erewrite bind_reading.
  2: { cbn [image]. rewrite Hb1. by eapply needed_spec. }
  rewrite Hmap1. case_bool_decide as Hneed.
  - rewrite decide_True by done. exists m1, log1. split_and!; auto.
  - rewrite decide_False by done.
    destruct (sweep_bucket lbid m1 log1 _ b Hwf1 Hcs1 Hb1) as (m' & log' & Hrun & H1 & H2 & H3 & H4 & H5).
    exists m', log'. split_and!; [exact Hrun|done| |auto|congruence|congruence].
    by rewrite H2, Hmap1.
Qed.

(** ** A small table

    Four entries and three buckets; [vsmall2] holds two versions of block 7,
    version 1 in the version buffer and version 5, which is being written. *)

Definition vsmall : vss_seg := emptied (mkVss 4 0 0 3 0 [] [] 0x10001 6000000 true).
Definition vsmall2 : vss_seg :=
  image (snd ((insert 7 1 true false false;; insert 7 5 false true false) (mkUndoable vsmall []))).

Lemma vsmall_wf : vss_wf vsmall /\ mapped vsmall /\ vss_map vsmall = ∅.
Proof.
  destruct (vss_emptied_wf (mkVss 4 0 0 3 0 [] [] 0x10001 6000000 true)) as (H1 & H2 & H3 & H4);
    [simpl; lia..|].
  split_and!; [|split; [done|vm_compute; done]|done].
  split; [exact H1| |]; unfold vsmall; [by rewrite H3|by rewrite H4].
Qed.

Lemma vsmall2_wf : vss_wf vsmall2 /\ mapped vsmall2 /\
  vss_map vsmall2 = {[ (7, 1) := (true, false); (7, 5) := (false, true) ]}.
Proof.
  destruct vsmall_wf as (H1 & H2 & H3).
  destruct (vss_insert_spec vsmall [] 7 1 true false false H1 H2)
    as (m1 & log1 & Hrun1 & Hwf1 & Hm1 & Hmap1); [simpl; lia|lia|by rewrite H3|].
  assert (Hnb : numHashBuckets m1 = 3).
  { assert (Hx : m1 = image (snd (insert 7 1 true false false (mkUndoable vsmall []))))
      by (rewrite Hrun1; reflexivity). rewrite Hx. vm_compute. reflexivity. }
  destruct (vss_insert_spec m1 log1 7 5 false true false Hwf1 Hm1)
    as (m2 & log2 & Hrun2 & Hwf2 & Hm2 & Hmap2); [rewrite Hnb; lia|lia|by rewrite Hmap1, H3|].
  assert (Heq : vsmall2 = m2).
  { unfold vsmall2. erewrite bind_Ret by exact Hrun1. rewrite Hrun2. reflexivity. }
  rewrite Heq, Hmap2, Hmap1, H3. split_and!; [exact Hwf2|exact Hm2|].
  apply insert_insert_ne. congruence.
Qed.

(** ** Properties *)

(** C38: [insert] of the VSS, growing the table when it is full, adds the
    version with its two flags to the abstract map and keeps the invariant,
    the count of locked entries included. *)
Theorem vss_insert_refines m log lbid verID vbFlag locked loading : vss_wf m -> mapped m ->
  numHashBuckets m + 5000 < 2 ^ 31 -> 0 <= lbid -> vss_map m !! (lbid, verID) = None ->
  exists m' log', insert lbid verID vbFlag locked loading (mkUndoable m log)
    = (Ret tt, mkUndoable m' log') /\ vss_wf m' /\ mapped m' /\
    vss_map m' = <[(lbid, verID) := (vbFlag, locked)]> (vss_map m).
Proof. apply vss_insert_spec. Qed.

Lemma vss_insert_refines_witness :
  exists m' log', insert 9 2 false true false (mkUndoable vsmall2 [])
    = (Ret tt, mkUndoable m' log') /\ vss_map m' !! (9, 2) = Some (false, true).
Proof.
  destruct vsmall2_wf as (Hwf & Hm & Hmap).
  destruct (vss_insert_refines vsmall2 [] 9 2 false true false Hwf Hm)
    as (m' & log' & Hrun & _ & _ & Hmap'); [vm_compute; done|lia|by rewrite Hmap|].
  exists m', log'. split; [exact Hrun|]. by rewrite Hmap', lookup_insert_eq.
Defined.

(** C40: [removeEntry] of the VSS deletes the version; when afterwards no version of the
    block is in the version buffer or locked, it forgets all versions of the block and
    reports the block for flushing. The invariant is kept. *)
Theorem vss_removeEntry_refines m log lbid verID : vss_wf m ->
  exists m' log', removeEntry lbid verID (mkUndoable m log)
      = (Ret (vss_remove lbid verID (vss_map m)).1, mkUndoable m' log') /\
    vss_wf m' /\ vss_map m' = (vss_remove lbid verID (vss_map m)).2.
Proof.
  intros Hwf. destruct (removeEntry_spec m log lbid verID Hwf) as (m' & log' & H1 & H2 & H3 & _).
  by exists m', log'.
Qed.

Lemma vss_removeEntry_refines_witness :
  exists m' log', removeEntry 7 5 (mkUndoable vsmall2 []) = (Ret [], mkUndoable m' log') /\
    vss_map m' = {[ (7, 1) := (true, false) ]}.
Proof.
  destruct vsmall2_wf as (Hwf & _ & Hmap).
  destruct (vss_removeEntry_refines vsmall2 [] 7 5 Hwf) as (m' & log' & Hrun & _ & Hm).
  rewrite Hmap in Hrun, Hm. exists m', log'. split; [rewrite Hrun|rewrite Hm]; vm_compute; reflexivity.
Defined.
