(* ===== verification/VSSQueries.v ===== *)
(** * Queries, flags, commit and undo of the VSS

    What the [const] members of the VSS answer, in terms of the abstract map;
    [setVBFlag] and [commit]; and which operations [undoChanges] reverts. *)
From Stdlib Require Import ZArith Lia.
From S2P Require Import Prelude Bytes Undoable Hasher HashChain BrmTypes VSS VSSProofs.

Local Open Scope Z_scope.

(** ** [setVBFlag] *)

(** Overwriting the flags of an entry. *)
Lemma payload_wf m i e e' : table_wf m -> storage m !! i = Some e ->
  vs_lbid e' = vs_lbid e -> vs_verID e' = vs_verID e -> vs_next e' = vs_next e ->
  let m' := with_links (hashBuckets m) (<[i := e']> (storage m)) m in
  table_wf m' /\ used_count (storage m') = used_count (storage m) /\
  (used e -> vss_map m' = <[vs_key e := vs_val e']> (vss_map m)).
Proof.
  intros Hwf Hi Hl Hv Hn. cbv zeta. assert (Hlt := lookup_lt_Some _ _ _ Hi).
  destruct Hwf as [Wcap Wbs Wpos Wlwm Wlwmu [cs Hcs] Wkeys].
  assert (Hk : vs_key e' = vs_key e) by (unfold vs_key; congruence).
  assert (Hu : used e' <-> used e) by (unfold used; simpl; by rewrite Hl).
  assert (Hmap : used e -> contents vs_key vs_val (<[i := e']> (storage m))
    = <[vs_key e := vs_val e']> (vss_map m)).
  { intros He. apply contents_update; try done. by apply Hu. }
  assert (Huq : unique_keys vs_key (<[i := e']> (storage m))).
  { by apply (unique_update vs_key _ _ e); [..|apply Hu|]. }
  assert (Hb : vs_bucket (numHashBuckets m) e' = vs_bucket (numHashBuckets m) e)
    by (by rewrite !vs_bucket_lbid, Hl).
  pose proof (wf_payload (vs_bucket (numHashBuckets m)) _ _ _ i e e' Hcs Hi Hl Hn Hb) as Htab.
  pose proof (used_count_insert (storage m) i e e' Hi) as Hc. unfold used_nat in Hc.
  clear Hb Hcs.
  destruct m as [cap sz lwm nb lk bs st key sz' p]. unfold vss_map, with_links in *. simpl in *.
  split_and!; [|repeat case_decide; tauto || lia|done].
  split; simpl; rewrite ?length_insert; try done; [|by exists cs].
  intros j ej Hj [(<- & <- & _)|[_ Hej]]%list_lookup_insert_Some; [|by eapply Wlwmu].
  apply Hu. by apply (Wlwmu i).
Qed.

Lemma setVBFlag_spec m log lbid verID f : vss_wf m ->
  match vss_map m !! (lbid, verID) with
  | None => setVBFlag lbid verID f (mkUndoable m log) = (Throw LogicError, mkUndoable m log)
  | Some (_, l) =>
      exists m' log', setVBFlag lbid verID f (mkUndoable m log) = (Ret tt, mkUndoable m' log') /\
        vss_wf m' /\ vss_map m' = <[(lbid, verID) := (f, l)]> (vss_map m) /\
        (mapped m -> mapped m') /\ numHashBuckets m' = numHashBuckets m /\
        capacity m' = capacity m /\ currentSize m' = currentSize m
  end.
Proof.
  intros Hwf. destruct (tw_table _ (vw_table _ Hwf)) as [cs Hcs].
  destruct (vss_getIndex_spec m cs lbid verID (vw_table _ Hwf) Hcs) as (r & Hr & Hout).
  unfold setVBFlag. erewrite bind_reading by exact Hr.
  destruct Hout as [l1 i l2 e Hc Hi Hu Hk|prev b Hn]; [|by rewrite Hn].
  cbv beta iota. rewrite decide_False by lia.
  rewrite <- Hk, (vss_map_stored m e (vw_table _ Hwf)) by (by exists i). unfold vs_val at 1.
  destruct (payload_wf m i e (set_vbFlag f e) (vw_table _ Hwf) Hi) as (Htw & Huc & Hmap); [done..|].
  eexists _, _. split.
  { rewrite bind_makeUndoRecord by done. erewrite vss_bind_rdStorage by done. by apply wrStorage_run with e. }
  assert (Hlk : locked_count (<[i := set_vbFlag f e]> (storage m)) = locked_count (storage m)).
  { pose proof (locked_count_insert _ _ _ (set_vbFlag f e) Hi) as Hx.
    destruct (decide (locked_entry e)) as [Hd|Hd].
    - rewrite decide_True in Hx by exact Hd. lia.
    - rewrite decide_False in Hx by exact Hd. lia. }
  pose proof (vw_size _ Hwf). pose proof (vw_locked _ Hwf). clear Hc Hcs Hr Hwf.
  destruct m as [cap sz lwm nb lk bs st key sz' p]. simpl in *.
  split_and!; try done; [|by apply Hmap]. split; simpl; [done|lia|lia].
Qed.

(** ** [commit] *)

(** The entries of [txn] as [commit] leaves them. *)
Definition committed (txn : Z) (e : VSSEntry) : VSSEntry :=
  if decide (used e /\ vs_verID e = txn) then set_locked false e else e.

Lemma commit_entry_run txn m log i e : storage m !! i = Some e -> 0 <= lockedEntryCount m ->
  exists log',
    commit_entry txn (Z.of_nat i) (mkUndoable m log)
    = (Ret tt, mkUndoable
        (set_field FlockedEntryCount
           (if decide (used e /\ vs_verID e = txn)
            then Z.max 0 (lockedEntryCount m - 1) else lockedEntryCount m)
           (with_links (hashBuckets m) (<[i := committed txn e]> (storage m)) m)) log').
Proof.
  intros Hi Hlk. unfold commit_entry, committed. erewrite vss_bind_rdStorage by done.
  destruct (decide (used e /\ vs_verID e = txn)) as [[Hu Hv]|Hn].
  - rewrite bool_decide_eq_false_2 by exact Hu. rewrite bool_decide_eq_true_2 by done. cbn [negb andb].
    destruct m as [cap sz lwm nb lk bs st key sz' p].
    eexists. rewrite bind_makeUndoRecord by done. erewrite vss_bind_wrStorage by done.
    erewrite bind_Ret by reflexivity. cbn in *. case_decide.
    + by rewrite Z.max_r by lia.
    + by replace (Z.max 0 (lk - 1)) with lk by lia.
  - replace (negb _ && _) with false.
    2: { symmetry. apply not_true_iff_false. intros [H1 H2]%andb_true_iff. apply Hn.
         apply negb_true_iff, bool_decide_eq_false in H1. by apply bool_decide_eq_true in H2. }
    exists log. rewrite list_insert_id by done. by destruct m.
Qed.

Definition of_txn (txn : Z) (e : VSSEntry) : Prop := used e /\ vs_verID e = txn.
#[global] Instance of_txn_dec txn e : Decision (of_txn txn e).
Proof. unfold of_txn. apply _. Defined.

Lemma table_wf_field m v : table_wf (set_field FlockedEntryCount v m) <-> table_wf m.
Proof. destruct m. split; intros []; by split. Qed.

Lemma commit_loop txn l m log pre : table_wf m -> storage m = pre ++ l -> 0 <= lockedEntryCount m ->
  exists m' log', for_each (seqZ (Z.of_nat (length pre)) (Z.of_nat (length l))) (commit_entry txn)
      (mkUndoable m log) = (Ret tt, mkUndoable m' log') /\
    table_wf m' /\ storage m' = pre ++ (committed txn <$> l) /\
    lockedEntryCount m' = Z.max 0 (lockedEntryCount m - Z.of_nat (length (filter (of_txn txn) l))) /\
    currentSize m' = currentSize m /\ capacity m' = capacity m /\ (mapped m -> mapped m') /\
    numHashBuckets m' = numHashBuckets m.
Proof.
  revert m log pre. induction l as [|e l IH]; intros m log pre Htw Hst Hlk.
  { exists m, log. split_and!; try done. simpl. lia. }
  assert (Hi : storage m !! length pre = Some e) by (rewrite Hst; by apply list_lookup_middle).
  destruct (commit_entry_run txn m log (length pre) e Hi Hlk) as [log1 Hrun1].
  assert (He : vs_lbid (committed txn e) = vs_lbid e /\ vs_verID (committed txn e) = vs_verID e /\
    vs_next (committed txn e) = vs_next e) by (unfold committed; by case_decide).
  destruct He as (He1 & He2 & He3).
  destruct (payload_wf m (length pre) e (committed txn e) Htw Hi He1 He2 He3) as (Htw1 & _ & _).
  rewrite <- table_wf_field in Htw1.
  match type of Hrun1 with _ = (_, mkUndoable ?x _) => set (m1 := x) in * end.
  edestruct (IH m1 log1 (pre ++ [committed txn e])) as (m' & log' & Hrun & H1 & H2 & H3 & H4 & H5 & H6 & H7).
  { unfold m1. exact Htw1. }
  { unfold m1. destruct m. simpl in *. rewrite Hst.
    rewrite insert_app_r_alt, Nat.sub_diag by lia. by rewrite <- app_assoc. }
  { unfold m1. destruct m. simpl in *. case_decide; lia. }
  exists m', log'. split_and!.
  - rewrite seqZ_cons by (simpl; lia). cbn [for_each]. erewrite bind_Ret by exact Hrun1.
    rewrite <- Hrun. do 2 f_equal; rewrite ?length_app; simpl; lia.
  - done.
  - rewrite H2, <- app_assoc. done.
  - rewrite H3, filter_cons. unfold m1. destruct m. simpl.
    destruct (decide (of_txn txn e)) as [Hd|Hd].
    + rewrite decide_True by exact Hd. simpl. lia.
    + by rewrite decide_False by exact Hd.
  - rewrite H4. unfold m1. by destruct m.
  - rewrite H5. unfold m1. by destruct m.
  - intros Hm. apply H6. unfold m1. by destruct m.
  - rewrite H7. unfold m1. by destruct m.
Qed.

Lemma committed_key txn e : vs_key (committed txn e) = vs_key e.
Proof. unfold committed. by case_decide. Qed.
Lemma committed_used txn e : used (committed txn e) <-> used e.
Proof. unfold committed. by case_decide. Qed.
Lemma committed_val txn e : used e ->
  vs_val (committed txn e) = (vs_vbFlag e, if decide (vs_verID e = txn) then false else vs_locked e).
Proof. intros Hu. unfold committed, vs_val. repeat case_decide; naive_solver. Qed.

(** Counting over the entries of one transaction. *)
Lemma committed_counts txn (l : list VSSEntry) :
  (forall e, e ∈ l -> of_txn txn e -> vs_locked e = true) ->
  used_count (committed txn <$> l) = used_count l /\
  (locked_count (committed txn <$> l) + length (filter (of_txn txn) l) = locked_count l)%nat.
Proof.
  unfold used_count, locked_count.
  induction l as [|e l IH]; intros Hl; [done|].
  destruct IH as [IH1 IH2]; [intros x Hx; apply Hl; by right|].
  rewrite fmap_cons, !filter_cons. split.
  - destruct (decide (used e)) as [Hu|Hu].
    + rewrite decide_True by (by apply committed_used). simpl. lia.
    + rewrite decide_False by (by rewrite committed_used). done.
  - destruct (decide (of_txn txn e)) as [Ht|Ht].
    + rewrite (decide_True (P := locked_entry e)) by (split; [apply Ht|by apply Hl; [left|]]).
      rewrite decide_False; [simpl; lia|]. intros [_ Hx]. unfold committed in Hx.
      rewrite decide_True in Hx by exact Ht. done.
    + replace (committed txn e) with e by (unfold committed; by rewrite decide_False).
      case_decide; simpl; lia.
Qed.

Lemma stored_fmap txn (l : list VSSEntry) e' :
  stored (committed txn <$> l) e' <-> exists e, stored l e /\ e' = committed txn e.
Proof.
  unfold stored. setoid_rewrite list_lookup_fmap_Some. split.
  - intros (i & (e & -> & He) & Hu). exists e. split; [|done]. exists i. split; [done|].
    by apply committed_used in Hu.
  - intros (e & (i & Hi & Hu) & ->). exists i. split; [by exists e|by apply committed_used].
Qed.

Lemma commit_spec txn m log : vss_wf m ->
  (forall l f, vss_map m !! (l, txn) = Some f -> f.2 = true) ->
  exists m' log', commit txn (mkUndoable m log) = (Ret tt, mkUndoable m' log') /\
    vss_wf m' /\ (mapped m -> mapped m') /\ numHashBuckets m' = numHashBuckets m /\
    (forall l v, vss_map m' !! (l, v)
       = (fun f => (f.1, if decide (v = txn) then false else f.2)) <$> vss_map m !! (l, v)).
Proof.
  intros Hwf Hlocked. pose proof (vw_table _ Hwf) as Htw.
  destruct (commit_loop txn (storage m) m log []) as (m' & log' & Hrun & Htw' & Hst & Hlk & Hsz & Hcap & Hm & Hnb);
    [done|done|rewrite (vw_locked _ Hwf); lia|].
  destruct (committed_counts txn (storage m)) as [Hc1 Hc2].
  { intros e [i Hi]%list_elem_of_lookup [Hu Hv].
    assert (H := vss_map_stored m e Htw ltac:(by exists i)).
    unfold vs_key in H. rewrite Hv in H. apply (Hlocked _ _ H). }
  simpl in Hst. exists m', log'. split_and!; try done.
  - unfold commit. erewrite bind_Ret by reflexivity. cbn [get_field image].
    rewrite (tw_cap _ Htw). exact Hrun.
  - pose proof (vw_size _ Hwf). pose proof (vw_locked _ Hwf).
    split; [done|rewrite Hst; lia|rewrite Hst; lia].
  - intros l v. apply option_eq. intros f. rewrite fmap_Some. unfold vss_map.
    rewrite contents_Some by (by apply tw_keys). rewrite Hst. setoid_rewrite stored_fmap. split.
    + intros (e' & (e & He & ->) & Hk & <-). rewrite committed_key in Hk.
      exists (vs_val e). split; [apply contents_Some; [by apply tw_keys|by exists e]|].
      injection Hk as _ Hv. destruct He as (i & Hi & Hu). rewrite committed_val by done.
      by rewrite Hv.
    + intros (f0 & Hf0 & ->). apply contents_Some in Hf0 as (e & He & Hk & <-); [|by apply tw_keys].
      exists (committed txn e). split; [by exists e|]. rewrite committed_key. split; [done|].
      destruct He as (i & Hi & Hu). rewrite committed_val by done. injection Hk as _ Hv. by rewrite Hv.
Qed.

(** ** Snapshot lookups *)

Section Lookup.
Context (lbid : Z) (q : QueryContext_vss) (txnID : Z) (vbOnly : bool).

(** A version of [lbid] the query may see: not written by another
    transaction that was open when the query started. *)
Definition candidate (M : gmap (Z * Z) (bool * bool)) (v : Z) (vbFlag : bool) : Prop :=
  (exists locked, M !! (lbid, v) = Some (vbFlag, locked)) /\
  (vbOnly = true -> vbFlag = true) /\ (v = txnID \/ v ∉ txns q).

(** What a snapshot read promises. *)
Variant lookup_answer (M : gmap (Z * Z) (bool * bool)) : Z * Z * bool -> Prop :=
  | Newest v f :
      candidate M v f -> v <= currentScn q ->
      (forall v' f', candidate M v' f' -> v' <= currentScn q -> v' <= v) ->
      lookup_answer M (0, v, f)
  | TooOld v f :
      candidate M v f -> (forall v' f', candidate M v' f' -> currentScn q < v') ->
      lookup_answer M (ERR_SNAPSHOT_TOO_OLD, 0, false)
  | NoVersion :
      (forall v f, ~ candidate M v f) -> lookup_answer M (-1, 0, false).

Definition seen (e : VSSEntry) : Prop :=
  vs_lbid e = lbid /\ (vbOnly = true -> vs_vbFlag e = true) /\
  (vs_verID e = txnID \/ vs_verID e ∉ txns q).

(** The accumulator after the entries [l]. *)
Record lookup_inv (l : list (nat * VSSEntry)) (mx : Z) (me : option bool) (mn : Z) : Prop := {
  li_exact i e : (i, e) ∈ l -> seen e -> vs_verID e <> currentScn q;
  li_none : me = None -> mx = -1 /\
    forall i e, (i, e) ∈ l -> seen e -> currentScn q < vs_verID e;
  li_some f : me = Some f -> exists i e, (i, e) ∈ l /\ seen e /\ vs_verID e = mx /\
    vs_vbFlag e = f /\ mx < currentScn q /\
    forall i' e', (i', e') ∈ l -> seen e' -> vs_verID e' < currentScn q -> vs_verID e' <= mx;
  li_min : (mn = -1 /\ forall i e, (i, e) ∈ l -> ~ seen e) \/
    (exists i e, (i, e) ∈ l /\ seen e /\ vs_verID e = mn);
}.

Lemma lookup_inv_nil : lookup_inv [] (-1) None (-1).
Proof.
  split; try done.
  - by intros i e ?%elem_of_nil.
  - intros _. split; [done|]. by intros i e ?%elem_of_nil.
  - left. split; [done|]. by intros i e ?%elem_of_nil.
Qed.

(** What one iteration decides about an entry. *)
Lemma lookup_body_seen acc z e :
  (lookup_body lbid q txnID vbOnly acc z e = inl acc /\ ~ seen e) \/
  (seen e /\ vs_verID e = currentScn q /\
   lookup_body lbid q txnID vbOnly acc z e = inr (vs_verID e, vs_vbFlag e)) \/
  (seen e /\ vs_verID e <> currentScn q /\
   let '(mx, me, mn) := acc in
   let mn' := if bool_decide (mn > vs_verID e) || bool_decide (mn = -1) then vs_verID e else mn in
   lookup_body lbid q txnID vbOnly acc z e =
     inl (if bool_decide (currentScn q > vs_verID e) && bool_decide (mx < vs_verID e)
          then (vs_verID e, Some (vs_vbFlag e), mn') else (mx, me, mn'))).
Proof.
  destruct acc as [[mx me] mn]. unfold lookup_body, seen.
  destruct (decide (vs_lbid e = lbid)) as [Hl|Hl].
  2: { left. rewrite bool_decide_eq_false_2 by done. split; [done|]. by intros [? _]. }
  rewrite (bool_decide_eq_true_2 (vs_lbid e = lbid)) by done. cbn [negb].
  destruct (vbOnly && negb (vs_vbFlag e)) eqn:Hvb.
  { left. split; [done|]. apply andb_true_iff in Hvb as [-> Hf%negb_true_iff].
    intros (_ & Hx & _). rewrite Hx in Hf; done. }
  assert (Hvb' : vbOnly = true -> vs_vbFlag e = true).
  { intros ->. simpl in Hvb. by apply negb_false_iff in Hvb. }
  destruct (bool_decide (txnID <> vs_verID e) && bool_decide (vs_verID e ∈ txns q)) eqn:Ht.
  { left. split; [done|]. apply andb_true_iff in Ht as [Ht1 Ht2].
    apply bool_decide_eq_true in Ht1, Ht2. intros (_ & _ & [Hx|Hx]); congruence || done. }
  assert (Ht' : vs_verID e = txnID \/ vs_verID e ∉ txns q).
  { apply andb_false_iff in Ht as [Ht|Ht]; apply bool_decide_eq_false in Ht; [left|by right].
    destruct (decide (vs_verID e = txnID)); [done|]. exfalso. by apply Ht. }
  right. destruct (decide (currentScn q = vs_verID e)) as [Hs|Hs]; [left|right];
    (split; [by split_and!|]).
  - by rewrite bool_decide_eq_true_2 by done.
  - split; [by apply not_eq_sym|]. rewrite bool_decide_eq_false_2 by done.
    by destruct (bool_decide (currentScn q > vs_verID e) && bool_decide (mx < vs_verID e)).
Qed.

Lemma elem_snoc {X} (l : list X) x y : y ∈ l ++ [x] <-> y ∈ l \/ y = x.
Proof. rewrite elem_of_app, list_elem_of_singleton. done. Qed.

Lemma lookup_inv_skip l i e mx me mn : lookup_inv l mx me mn -> ~ seen e ->
  lookup_inv (l ++ [(i, e)]) mx me mn.
Proof.
  intros [H1 H2 H3 H4] Hn. split.
  - intros j ej [Hin|[= -> ->]]%elem_snoc Hs; [by eapply H1|done].
  - intros Hm. destruct (H2 Hm) as [? H]. split; [done|].
    intros j ej [Hin|[= -> ->]]%elem_snoc Hs; [by eapply H|done].
  - intros f Hf. destruct (H3 f Hf) as (j & ej & Hin & Hs & Hv & Hfl & Hlt & Hmax).
    exists j, ej. split_and!; try done; [apply elem_snoc; by left|].
    intros j' ej' [Hin'|[= -> ->]]%elem_snoc Hs'; [by eapply Hmax|done].
  - destruct H4 as [[? H4]|(j & ej & Hin & Hs)].
    + left. split; [done|]. intros j ej [Hin|[= -> ->]]%elem_snoc; [by eapply H4|done].
    + right. exists j, ej. split; [apply elem_snoc; by left|done].
Qed.

Lemma lookup_inv_seen l i e mx me mn : lookup_inv l mx me mn -> seen e ->
  0 <= vs_verID e -> vs_verID e <> currentScn q ->
  let mn' := if bool_decide (mn > vs_verID e) || bool_decide (mn = -1) then vs_verID e else mn in
  lookup_inv (l ++ [(i, e)])
    (if bool_decide (currentScn q > vs_verID e) && bool_decide (mx < vs_verID e)
     then vs_verID e else mx)
    (if bool_decide (currentScn q > vs_verID e) && bool_decide (mx < vs_verID e)
     then Some (vs_vbFlag e) else me) mn'.
Proof.
  intros [H1 H2 H3 H4] Hse Hpos Hne mn'.
  assert (Hexact : forall j ej, (j, ej) ∈ l ++ [(i, e)] -> seen ej -> vs_verID ej <> currentScn q).
  { intros j ej [Hin|[= -> ->]]%elem_snoc Hs; [by eapply H1|done]. }
  assert (Hmin : (mn' = -1 /\ (forall j ej, (j, ej) ∈ l ++ [(i, e)] -> ~ seen ej)) \/
    exists j ej, (j, ej) ∈ l ++ [(i, e)] /\ seen ej /\ vs_verID ej = mn').
  { right. unfold mn'. destruct (bool_decide (mn > vs_verID e) || bool_decide (mn = -1)) eqn:Hmn.
    - exists i, e. split; [apply elem_snoc; by right|done].
    - apply orb_false_iff in Hmn as [_ Hmn%bool_decide_eq_false].
      destruct H4 as [[? _]|(j & ej & Hin & Hs)]; [done|].
      exists j, ej. split; [apply elem_snoc; by left|done]. }
  destruct (bool_decide (currentScn q > vs_verID e) && bool_decide (mx < vs_verID e)) eqn:Hb.
  - apply andb_true_iff in Hb as [Hb1 Hb2]. apply bool_decide_eq_true in Hb1, Hb2.
    split; try done. intros f [= <-]. exists i, e. split_and!; try done;
      [apply elem_snoc; by right|lia|].
    intros j ej [Hin|[= -> ->]]%elem_snoc Hs Hlt; [|lia].
    destruct me as [f|].
    + destruct (H3 f eq_refl) as (_ & _ & _ & _ & _ & _ & _ & Hmax).
      specialize (Hmax j ej Hin Hs Hlt). lia.
    + destruct (H2 eq_refl) as [_ Hno]. specialize (Hno j ej Hin Hs). lia.
  - apply andb_false_iff in Hb. rewrite !bool_decide_eq_false in Hb.
    split; try done.
    + intros Hm. destruct (H2 Hm) as [-> Hno]. split; [done|].
      intros j ej [Hin|[= -> ->]]%elem_snoc Hs; [by eapply Hno|]. lia.
    + intros f Hf. destruct (H3 f Hf) as (j & ej & Hin & Hs & Hv & Hfl & Hlt & Hmax).
      exists j, ej. split_and!; try done; [apply elem_snoc; by left|].
      intros j' ej' [Hin'|[= -> ->]]%elem_snoc Hs' Hlt'; [by eapply Hmax|]. lia.
Qed.

(** The loop: a hit on the exact version, or the invariant at the end. *)
Lemma lookup_walk l dn mx me mn : lookup_inv dn mx me mn ->
  (forall i e, (i, e) ∈ l -> seen e -> 0 <= vs_verID e) ->
  match walk_entries (lookup_body lbid q txnID vbOnly) l (mx, me, mn) with
  | inr (v, f) => exists i e, (i, e) ∈ l /\ seen e /\ vs_verID e = v /\ vs_vbFlag e = f /\
      v = currentScn q
  | inl (mx', me', mn') => lookup_inv (dn ++ l) mx' me' mn'
  end.
Proof.
  revert dn mx me mn. induction l as [|[i e] l IH]; intros dn mx me mn Hinv Hpos.
  { cbn [walk_entries]. by rewrite app_nil_r. }
  assert (Hpos' : forall i e, (i, e) ∈ l -> seen e -> 0 <= vs_verID e)
    by (intros; eapply Hpos; [right|]; done).
  assert (Happ : dn ++ (i, e) :: l = (dn ++ [(i, e)]) ++ l) by (by rewrite <- app_assoc).
  cbn [walk_entries].
  destruct (lookup_body_seen (mx, me, mn) (Z.of_nat i) e)
    as [[-> Hn]|[(Hs & Hv & ->)|(Hs & Hv & Heq)]].
  - specialize (IH (dn ++ [(i, e)]) mx me mn ltac:(by apply lookup_inv_skip) Hpos').
    rewrite Happ. destruct (walk_entries _ _ _) as [[[??]?]|[??]]; [done|].
    destruct IH as (j & ej & Hin & ?). exists j, ej. split; [by right|done].
  - exists i, e. split; [left|done].
  - pose proof (lookup_inv_seen dn i e mx me mn Hinv Hs ltac:(eapply Hpos; [left|done]) Hv) as Hinv'.
    cbv zeta in Heq, Hinv'. rewrite Heq, Happ.
    destruct (bool_decide (currentScn q > vs_verID e) && bool_decide (mx < vs_verID e)) eqn:Hb;
      specialize (IH _ _ _ _ Hinv' Hpos');
      (destruct (walk_entries _ _ _) as [[[??]?]|[??]]; [done|]);
      destruct IH as (j & ej & Hin & ?); exists j, ej; (split; [by right|done]).
Qed.

Lemma seen_candidate m e : table_wf m -> stored (storage m) e -> seen e ->
  candidate (vss_map m) (vs_verID e) (vs_vbFlag e).
Proof.
  intros Htw Hst (Hl & Hvb & Ht). split_and!; [|done|done]. exists (vs_locked e).
  rewrite <- Hl. by apply (vss_map_stored m e).
Qed.

Lemma candidate_seen m cs c v f : vss_wf m ->
  wf_table (vs_bucket (numHashBuckets m)) (hashBuckets m) (storage m) cs ->
  cs !! lbid_bucket (numHashBuckets m) lbid = Some c -> candidate (vss_map m) v f ->
  exists i e, (i, e) ∈ chain_entries (storage m) c /\ seen e /\ vs_verID e = v /\
    vs_vbFlag e = f.
Proof.
  intros Hwf Hcs Hc ([lk Hm] & Hvb & Ht).
  apply vss_map_inv in Hm as (i & e & Hi & Hu & [= Hl Hv] & [= Hf Hlk]); [|apply Hwf].
  exists i, e. split_and!; [by eapply bucket_complete| |done|done]. subst. by split_and!.
Qed.

Lemma lookup_spec m : vss_wf m -> 0 <= currentScn q ->
  (forall v f, vss_map m !! (lbid, v) = Some f -> 0 <= v) ->
  exists r, lookup m lbid q txnID vbOnly = Ret r /\ lookup_answer (vss_map m) r.
Proof.
  intros Hwf Hscn Hpos. destruct (tw_table _ (vw_table _ Hwf)) as [cs Hcs].
  destruct (walk_chain m cs lbid (lookup_body lbid q txnID vbOnly) (-1, None, -1)
    (vw_table _ Hwf) Hcs) as (c & Hc & Hw).
  assert (Hcand : forall i e, (i, e) ∈ chain_entries (storage m) c -> seen e ->
    candidate (vss_map m) (vs_verID e) (vs_vbFlag e)).
  { intros i e Hin Hs. destruct (bucket_sound _ _ _ _ _ _ Hcs Hc Hin) as [Hi Hu].
    apply seen_candidate; [apply Hwf|by exists i|done]. }
  assert (Hall := fun v f => candidate_seen m cs c v f Hwf Hcs Hc).
  pose proof (lookup_walk (chain_entries (storage m) c) [] (-1) None (-1) lookup_inv_nil) as Hl.
  unfold lookup. rewrite Hw, ret_bind. clear Hw.
  destruct (walk_entries _ _ _) as [[[mx me] mn]|[v f]].
  2: { destruct Hl as (i & e & Hin & Hs & <- & <- & Hv).
       { intros i e Hin Hs. destruct (Hcand i e Hin Hs) as [[lk Hm] _]. by eapply Hpos. }
       eexists. split; [done|]. constructor; [by eapply Hcand|lia|]. intros. lia. }
  destruct Hl as [H1 H2 H3 H4].
  { intros i e Hin Hs. destruct (Hcand i e Hin Hs) as [[lk Hm] _]. by eapply Hpos. }
  simpl in H1, H2, H3, H4. destruct me as [f|].
  { destruct (H3 f eq_refl) as (i & e & Hin & Hs & <- & <- & Hlt & Hmax).
    eexists. split; [done|]. constructor; [by eapply Hcand|lia|].
    intros v' f' Hc' Hle. destruct (Hall _ _ Hc') as (j & ej & Hin' & Hs' & <- & _).
    specialize (H1 _ _ Hin' Hs'). eapply Hmax; eauto. lia. }
  destruct (H2 eq_refl) as [_ Hlt]. destruct H4 as [[-> Hno]|(i & e & Hin & Hs & <-)].
  - rewrite decide_False by lia. eexists. split; [done|]. constructor.
    intros v f Hc'. destruct (Hall _ _ Hc') as (j & ej & Hin' & Hs' & _). by eapply Hno.
  - specialize (Hlt _ _ Hin Hs) as Hgt. rewrite decide_True by lia. eexists. split; [done|].
    econstructor; [by eapply Hcand|]. intros v' f' Hc'.
    destruct (Hall _ _ Hc') as (j & ej & Hin' & Hs' & <- & _). by eapply Hlt.
Qed.
End Lookup.

(** ** Versions needed for a rollback *)

Section Rollback.
Context (lbid : Z).
Implicit Types (M : gmap (Z * Z) (bool * bool)).

(** [ver] is the newest unlocked version of the block, 0 if there is none. *)
Definition rollback_version M (ver : Z) : Prop :=
  0 <= ver /\ (forall v f, M !! (lbid, v) = Some (f, false) -> v <= ver) /\
  (ver = 0 \/ exists f, M !! (lbid, ver) = Some (f, false)).

Definition entry_locked_body : bool * Z -> Z -> VSSEntry -> (bool * Z) + Empty_set :=
  fun '(hasALockedEntry, rollbackVersion) _ e =>
    if bool_decide (vs_lbid e = lbid) then
      (if vs_locked e then inl (true, rollbackVersion)
       else if bool_decide (rollbackVersion < vs_verID e)
       then inl (hasALockedEntry, vs_verID e) else inl (hasALockedEntry, rollbackVersion))
    else inl (hasALockedEntry, rollbackVersion).

(** What the accumulator says about the entries [l]. *)
Record locked_inv (l : list (nat * VSSEntry)) (h : bool) (r : Z) : Prop := {
  lk_has : h = true <-> exists i e, (i, e) ∈ l /\ vs_lbid e = lbid /\ vs_locked e = true;
  lk_pos : 0 <= r;
  lk_max i e : (i, e) ∈ l -> vs_lbid e = lbid -> vs_locked e = false -> vs_verID e <= r;
  lk_ex : r = 0 \/ exists i e, (i, e) ∈ l /\ vs_lbid e = lbid /\ vs_locked e = false /\
    vs_verID e = r;
}.

Lemma locked_inv_snoc l h r i e : locked_inv l h r ->
  locked_inv (l ++ [(i, e)])
    (h || bool_decide (vs_lbid e = lbid /\ vs_locked e = true))
    (if bool_decide (vs_lbid e = lbid /\ vs_locked e = false /\ r < vs_verID e)
     then vs_verID e else r).
Proof.
  intros [H1 H2 H3 H4]. split.
  - rewrite orb_true_iff, bool_decide_eq_true, H1. setoid_rewrite elem_snoc. split.
    + intros [(j & ej & Hin & ?)|?]; [exists j, ej|exists i, e]; auto.
    + intros (j & ej & [Hin|[= -> ->]] & ?); [left; by exists j, ej|by right].
  - case_bool_decide; lia.
  - intros j ej [Hin|[= -> ->]]%elem_snoc Hl Hk; case_bool_decide as Hb.
    + specialize (H3 j ej Hin Hl Hk). lia.
    + by eapply H3.
    + lia.
    + destruct (decide (vs_verID e <= r)); [done|]. destruct Hb. split_and!; [done|done|lia].
  - setoid_rewrite elem_snoc. case_bool_decide as Hb.
    + right. exists i, e. destruct Hb as (? & ? & _). auto.
    + destruct H4 as [?|(j & ej & Hin & ?)]; [by left|right]. exists j, ej. auto.
Qed.

Lemma entry_locked_walk l dn h r : locked_inv dn h r ->
  exists h' r', walk_entries entry_locked_body l (h, r) = inl (h', r') /\
    locked_inv (dn ++ l) h' r'.
Proof.
  revert dn h r. induction l as [|[i e] l IH]; intros dn h r Hinv.
  { exists h, r. by rewrite app_nil_r. }
  apply (locked_inv_snoc _ _ _ i e) in Hinv. apply IH in Hinv as (h' & r' & Hw & Hinv).
  rewrite <- app_assoc in Hinv. exists h', r'. split; [|done]. rewrite <- Hw.
  cbn [walk_entries]. unfold entry_locked_body at 1.
  destruct (decide (vs_lbid e = lbid)) as [Hl|Hl].
  - rewrite (bool_decide_eq_true_2 (vs_lbid e = lbid)) by done. destruct (vs_locked e) eqn:Hk.
    + rewrite (bool_decide_eq_true_2 (_ /\ _)) by done. rewrite orb_true_r.
      by rewrite bool_decide_eq_false_2 by naive_solver.
    + rewrite (bool_decide_eq_false_2 (_ /\ _ = true)) by naive_solver. rewrite orb_false_r.
      destruct (decide (r < vs_verID e)) as [Hr|Hr].
      * by rewrite !bool_decide_eq_true_2 by done.
      * by rewrite !bool_decide_eq_false_2 by naive_solver.
  - rewrite !bool_decide_eq_false_2 by naive_solver. by rewrite orb_false_r.
Qed.

Lemma isEntryLocked_spec m ver : vss_wf m -> lbid <> -1 ->
  exists b, isEntryLocked m lbid ver = Ret b /\
    (b = true <-> (exists v f, vss_map m !! (lbid, v) = Some (f, true)) /\
                  rollback_version (vss_map m) ver).
Proof.
  intros Hwf Hne. destruct (tw_table _ (vw_table _ Hwf)) as [cs Hcs].
  destruct (walk_chain m cs lbid entry_locked_body (false, 0) (vw_table _ Hwf) Hcs) as (c & Hc & Hw).
  destruct (entry_locked_walk (chain_entries (storage m) c) [] false 0)
    as (h & r & Hwalk & [Hh Hpos Hmax Hex]).
  { split; [|done| |by left]; [split; [done|by intros (? & ? & ?%elem_of_nil & _)]|].
    by intros i e ?%elem_of_nil. }
  rewrite Hwalk in Hw. simpl in Hh, Hmax, Hex.
  assert (Hto : forall i e, (i, e) ∈ chain_entries (storage m) c -> vs_lbid e = lbid ->
    vss_map m !! (lbid, vs_verID e) = Some (vs_vbFlag e, vs_locked e)).
  { intros i e Hin Hl. destruct (bucket_sound _ _ _ _ _ _ Hcs Hc Hin) as [Hi Hu].
    rewrite <- Hl. apply (vss_map_stored m e); [apply Hwf|by exists i]. }
  assert (Hfrom : forall v f k, vss_map m !! (lbid, v) = Some (f, k) ->
    exists i e, (i, e) ∈ chain_entries (storage m) c /\ vs_lbid e = lbid /\ vs_verID e = v /\
      vs_locked e = k /\ vs_vbFlag e = f).
  { intros v f k Hm.
    apply vss_map_inv in Hm as (i & e & Hi & Hu & [= Hl Hv] & [= Hf Hlk]); [|apply Hwf].
    exists i, e. split_and!; try done. by eapply bucket_complete. }
  exists (h && bool_decide (ver = r)). unfold isEntryLocked. rewrite decide_False by done.
  change (fun '(hasALockedEntry, rollbackVersion) _ e => _) with entry_locked_body.
  rewrite Hw, ret_bind. split; [done|]. rewrite andb_true_iff, bool_decide_eq_true, Hh.
  split.
  - intros [(i & e & Hin & Hl & Hk) ->]. split.
    + exists (vs_verID e), (vs_vbFlag e). rewrite <- Hk. by eapply Hto.
    + split_and!; [done| |].
      * intros v f (j & ej & Hin' & Hl' & <- & Hk' & _)%Hfrom. by eapply Hmax.
      * destruct Hex as [->|(j & ej & Hin' & Hl' & Hk' & <-)]; [by left|right].
        exists (vs_vbFlag ej). rewrite <- Hk'. by eapply Hto.
  - intros [(v & f & (i & e & Hin & Hl & _ & Hk & _)%Hfrom) (Hp & Hall & Hver)].
    split; [by exists i, e|].
    assert (Hle : r <= ver).
    { destruct Hex as [->|(j & ej & Hin' & Hl' & Hk' & <-)]; [done|].
      apply (Hall _ (vs_vbFlag ej)). rewrite <- Hk'. by eapply Hto. }
    assert (Hge : ver <= r); [|lia].
    destruct Hver as [->|(f' & (j & ej & Hin' & Hl' & <- & Hk' & _)%Hfrom)]; [done|].
    by eapply Hmax.
Qed.
End Rollback.

(** [isTooOld] starts its minimum at 0. *)
Lemma isTooOld_walk m lbid ver : vss_wf m -> 0 <= ver -> isTooOld m lbid ver = Ret false.
Proof.
  intros Hwf Hver. destruct (tw_table _ (vw_table _ Hwf)) as [cs Hcs]. unfold isTooOld.
  set (body := fun (minVer : Z) (_ : Z) (e : VSSEntry) => _).
  destruct (walk_chain (R := Empty_set) m cs lbid body 0 (vw_table _ Hwf) Hcs) as (c & _ & ->).
  assert (H : forall l r, r <= 0 ->
    exists r', walk_entries body l r = inl r' /\ r' <= 0).
  { induction l as [|[i e] l IH]; intros r Hr; [by exists r|]. cbn [walk_entries].
    unfold body at 1. destruct (_ && _) eqn:Hb; [|by apply IH]. apply IH.
    apply andb_true_iff in Hb as [_ Hb%bool_decide_eq_true]. lia. }
  destruct (H (chain_entries (storage m) c) 0) as (r & -> & Hr); [lia|].
  rewrite ret_bind. f_equal. apply bool_decide_eq_false. lia.
Qed.

(** ** Undoing *)

Lemma vss_undo_safe_wrStorage K i e : CStorage i ∈ K -> undo_safe K (wrStorage i e).
Proof. intros. unfold wrStorage, rdStorage. solve_undo. Qed.
Lemma vss_undo_safe_wrBucket K i v : CBucket i ∈ K -> undo_safe K (wrBucket i v).
Proof. intros. unfold wrBucket, rdBucket. solve_undo. Qed.

Ltac vss_undo := repeat first
  [ lazymatch goal with
    | |- undo_safe _ (wrStorage _ _) => apply vss_undo_safe_wrStorage; set_solver
    | |- undo_safe _ (wrBucket _ _) => apply vss_undo_safe_wrBucket; set_solver
    | |- undo_safe _ (field _) => apply undo_safe_gets
    | |- undo_safe _ (rdStorage _) => apply undo_safe_reading
    | |- undo_safe _ (rdBucket _) => apply undo_safe_reading
    end
  | undo_step ].

Lemma unlink_undo_safe K b p i : undo_safe K (unlink b p i).
Proof. unfold unlink. vss_undo. Qed.

(** The counters live in the header, which the caller has saved. *)
Lemma account_undo_safe K i : header_cells ⊆ K -> undo_safe K (account i).
Proof. intros HK. unfold account, header_cells in *. vss_undo. Qed.

Lemma sweep_undo_safe K fuel lbid b p i : header_cells ⊆ K -> undo_safe K (sweep fuel lbid b p i).
Proof.
  intros HK. revert p i. induction fuel as [|fuel IH]; intros p i; cbn [sweep]; vss_undo;
    auto using unlink_undo_safe, account_undo_safe.
Qed.

Lemma vss_removeEntry_undo_safe K lbid ver : undo_safe K (removeEntry lbid ver).
Proof.
  unfold removeEntry. apply undo_safe_bind; [apply undo_safe_reading|]. intros [[i p] b].
  destruct (decide (i = -1)); [apply undo_safe_ret|].
  apply undo_safe_bind; [apply unlink_undo_safe|]. intros _.
  apply undo_safe_makeUndoRecord.
  apply undo_safe_bind; [apply account_undo_safe; set_solver|]. intros _.
  apply undo_safe_bind; [apply undo_safe_reading|]. intros [].
  - apply undo_safe_ret.
  - vss_undo. apply sweep_undo_safe. set_solver.
Qed.

Lemma setVBFlag_undo_safe K lbid ver f : undo_safe K (setVBFlag lbid ver f).
Proof. unfold setVBFlag. vss_undo. Qed.

Lemma vss_insert_undo_safe K e : undo_safe K (_insert e false).
Proof. unfold _insert, header_cells. vss_undo. Qed.

(** [insert] into a table with room. *)
Lemma vss_insert_undoes_to lbid ver f lk o : currentSize (image o) <> capacity (image o) ->
  undoes_to o (snd (insert lbid ver f lk false o)).
Proof.
  intros Hroom. unfold insert. erewrite bind_Ret by reflexivity. cbn [get_field].
  erewrite bind_Ret by reflexivity. cbn [get_field]. rewrite decide_False by done.
  erewrite (bind_Ret _ _ o tt) by reflexivity.
  apply undo_safe_step. unfold _insert, header_cells. vss_undo.
Qed.

(** ** Properties *)

(** C2: a snapshot lookup returns the newest version of the block, not newer
    than the snapshot, that the query may see: its own transaction's, or one
    whose transaction was not open when the query started.  It fails with
    ERR_SNAPSHOT_TOO_OLD when only newer versions are visible, and with -1
    when none is. *)
Theorem vss_lookup_snapshot m lbid q txnID vbOnly : vss_wf m -> 0 <= currentScn q ->
  (forall v f, vss_map m !! (lbid, v) = Some f -> 0 <= v) ->
  exists r, lookup m lbid q txnID vbOnly = Ret r /\ lookup_answer lbid q txnID vbOnly (vss_map m) r.
Proof. apply lookup_spec. Qed.

Lemma vsmall2_nonneg lbid v f : vss_map vsmall2 !! (lbid, v) = Some f -> 0 <= v.
Proof.
  destruct vsmall2_wf as (_ & _ & ->).
  intros [[[= <- <-] _]|[_ H]]%lookup_insert_Some; [lia|].
  apply lookup_singleton_Some in H as [[= <- <-] _]. lia.
Qed.

Lemma vss_lookup_snapshot_witness :
  let q := QueryContext_vss_of (mkQC 6 [5]) in
  lookup vsmall2 7 q 8 false = Ret (0, 1, true) /\
  lookup_answer 7 q 8 false (vss_map vsmall2) (0, 1, true).
Proof.
  destruct vsmall2_wf as (Hwf & _ & _). cbv zeta.
  destruct (vss_lookup_snapshot vsmall2 7 (QueryContext_vss_of (mkQC 6 [5])) 8 false Hwf)
    as (r & Hr & Ha); [vm_compute; done|apply vsmall2_nonneg|].
  assert (Hc : lookup vsmall2 7 (QueryContext_vss_of (mkQC 6 [5])) 8 false = Ret (0, 1, true))
    by (vm_compute; reflexivity).
  rewrite Hc in Hr. split; [exact Hc|]. injection Hr as <-. exact Ha.
Defined.

(** [commit] unlocks exactly the versions of the transaction, keeps every
    other version and flag, and keeps the invariant, the count of locked
    entries included. *)
Theorem vss_commit_unlocks txn m log : vss_wf m ->
  (forall l f, vss_map m !! (l, txn) = Some f -> f.2 = true) ->
  exists m' log', commit txn (mkUndoable m log) = (Ret tt, mkUndoable m' log') /\
    vss_wf m' /\
    (forall l v, vss_map m' !! (l, v)
       = (fun f => (f.1, if decide (v = txn) then false else f.2)) <$> vss_map m !! (l, v)).
Proof.
  intros Hwf Hl. destruct (commit_spec txn m log Hwf Hl) as (m' & log' & H1 & H2 & _ & _ & H3).
  by exists m', log'.
Qed.

Lemma vss_commit_unlocks_witness :
  exists m' log', commit 5 (mkUndoable vsmall2 []) = (Ret tt, mkUndoable m' log') /\
    vss_map m' !! (7, 5) = Some (false, false) /\ vss_map m' !! (7, 1) = Some (true, false).
Proof.
  destruct vsmall2_wf as (Hwf & _ & Hmap).
  destruct (vss_commit_unlocks 5 vsmall2 [] Hwf) as (m' & log' & Hrun & _ & Hm).
  { rewrite Hmap. intros l f [[[= <-] _]|[_ H]]%lookup_insert_Some.
    apply lookup_singleton_Some in H as [_ <-]. reflexivity. }
  exists m', log'. split; [exact Hrun|]. rewrite !Hm, Hmap. split; vm_compute; reflexivity.
Defined.

(** [setVBFlag] changes the flag of one version and nothing else, and
    throws when the version is not in the table. *)
Theorem vss_setVBFlag_refines m log lbid verID f : vss_wf m ->
  match vss_map m !! (lbid, verID) with
  | None => setVBFlag lbid verID f (mkUndoable m log) = (Throw LogicError, mkUndoable m log)
  | Some (_, l) =>
      exists m' log', setVBFlag lbid verID f (mkUndoable m log) = (Ret tt, mkUndoable m' log') /\
        vss_wf m' /\ vss_map m' = <[(lbid, verID) := (f, l)]> (vss_map m)
  end.
Proof.
  intros Hwf. pose proof (setVBFlag_spec m log lbid verID f Hwf) as H.
  destruct (vss_map m !! (lbid, verID)) as [[? l]|]; [|exact H].
  destruct H as (m' & log' & H1 & H2 & H3 & _). by exists m', log'.
Qed.

Lemma vss_setVBFlag_refines_witness :
  setVBFlag 9 1 true (mkUndoable vsmall2 []) = (Throw LogicError, mkUndoable vsmall2 []) /\
  exists m' log', setVBFlag 7 5 true (mkUndoable vsmall2 []) = (Ret tt, mkUndoable m' log') /\
    vss_map m' !! (7, 5) = Some (true, true).
Proof.
  destruct vsmall2_wf as (Hwf & _ & Hmap). split.
  - pose proof (vss_setVBFlag_refines vsmall2 [] 9 1 true Hwf) as H. rewrite Hmap in H. exact H.
  - pose proof (vss_setVBFlag_refines vsmall2 [] 7 5 true Hwf) as H. rewrite Hmap in H.
    destruct H as (m' & log' & H1 & _ & H2). exists m', log'. split; [exact H1|].
    by rewrite H2, lookup_insert_eq.
Defined.

(** [isEntryLocked] holds for exactly the version a rollback of the
    block would restore: some version of the block is locked, and the asked
    one is the newest that is not. *)
Theorem vss_isEntryLocked_rollback lbid m ver : vss_wf m -> lbid <> -1 ->
  exists b, isEntryLocked m lbid ver = Ret b /\
    (b = true <-> (exists v f, vss_map m !! (lbid, v) = Some (f, true)) /\
                  rollback_version lbid (vss_map m) ver).
Proof. apply isEntryLocked_spec. Qed.

Lemma vss_isEntryLocked_rollback_witness :
  isEntryLocked vsmall2 7 1 = Ret true /\ rollback_version 7 (vss_map vsmall2) 1.
Proof.
  destruct vsmall2_wf as (Hwf & _ & _).
  destruct (vss_isEntryLocked_rollback 7 vsmall2 1 Hwf) as (b & Hb & Hiff); [lia|].
  assert (Hc : isEntryLocked vsmall2 7 1 = Ret true) by (vm_compute; reflexivity).
  split; [exact Hc|]. rewrite Hc in Hb. injection Hb as <-. by apply Hiff.
Defined.

(** [undoChanges] gives back the image of the VSS bit for bit, after any
    sequence of removals, flag changes and links of new entries. *)
Theorem vss_undo_reverts (ops : list (Z * Z + Z * Z * bool + VSSEntry)) m :
  undoChanges (snd (for_each ops (fun op =>
      match op with
      | inl (inl (lbid, verID)) => _ ← removeEntry lbid verID; mret tt
      | inl (inr (lbid, verID, f)) => setVBFlag lbid verID f
      | inr e => _insert e false
      end) (mkUndoable m []))) = (Ret tt, mkUndoable m []).
Proof.
  apply (undo_safe_reverts _ (mkUndoable m [])); [|done].
  apply undo_safe_for_each. intros [[[lbid verID]|[[lbid verID] f]]|e].
  - apply undo_safe_bind; [apply vss_removeEntry_undo_safe|intros ?; apply undo_safe_ret].
  - apply setVBFlag_undo_safe.
  - apply vss_insert_undo_safe.
Qed.

(** [isTooOld] never says yes: it takes the minimum of the versions
    starting from 0. *)
Theorem vss_isTooOld_never m lbid ver : vss_wf m -> 0 <= ver -> isTooOld m lbid ver = Ret false.
Proof. apply isTooOld_walk. Qed.

(** A table whose only version of block 7 is 5: version 2 is gone. *)
Definition vsmall3 : vss_seg :=
  image (snd (insert 7 5 false false false (mkUndoable vsmall []))).

Lemma vss_isTooOld_never_witness :
  vss_map vsmall3 = {[ (7, 5) := (false, false) ]} /\ isTooOld vsmall3 7 2 = Ret false.
Proof.
  destruct vsmall_wf as (H1 & H2 & H3).
  destruct (vss_insert_spec vsmall [] 7 5 false false false H1 H2)
    as (m1 & log1 & Hrun1 & Hwf1 & Hm1 & Hmap1); [simpl; lia|lia|by rewrite H3|].
  assert (Heq : vsmall3 = m1) by (unfold vsmall3; rewrite Hrun1; reflexivity).
  rewrite Heq. split; [by rewrite Hmap1, H3|]. apply (vss_isTooOld_never m1 7 2 Hwf1). lia.
Defined.

(** [commit] lowers the count of locked entries without an undo record:
    after a commit that is undone, version 5 is locked again and the count
    says that nothing is. *)
Theorem vss_commit_undo_count :
  lockedEntryCount vsmall2 = 1 /\ locked_count (storage vsmall2) = 1%nat /\
  (let m' := image (snd ((commit 5;; undoChanges) (mkUndoable vsmall2 []))) in
   storage m' = storage vsmall2 /\ lockedEntryCount m' = 0).
Proof. vm_compute. done. Qed.

(** [growVSS] replaces the segment and keeps the undo records: a change
    recorded before an insertion that grows the table can no longer be undone,
    the records point into the segment that is gone. *)
Theorem vss_grow_dangles :
  let full := set_field Fcapacity 2 (set_arrays (hashBuckets vsmall2)
                (take 2 (storage vsmall2)) vsmall2) in
  fst ((setVBFlag 7 5 true;; undoChanges) (mkUndoable full [])) = Ret tt /\
  fst ((setVBFlag 7 5 true;; insert 9 1 false true false) (mkUndoable full [])) = Ret tt /\
  fst ((setVBFlag 7 5 true;; insert 9 1 false true false;; undoChanges) (mkUndoable full []))
    = UB DanglingPointer.
Proof. vm_compute. done. Qed.
