(* ===== verification/Snapshot.v ===== *)
(** * Snapshot reads: the session manager and the VSS together

    A query asks the session manager for a context ([verID]: the last
    transaction id issued and the transactions open now) and passes it to the
    VSS with every block it reads.  The theorem says what the two promise a
    query together: the version of a block it sees is not one of a transaction
    that was open or had not started when the context was made, and it stays
    the same whatever such transactions do, as long as that version is kept. *)
From Stdlib Require Import ZArith Lia.
From S2P Require Import Prelude Undoable StdMap HashChain VSS SessionManager VSSProofs VSSQueries.

Local Open Scope Z_scope.

(** The VSS has version [v] of the block. *)
Definition has_ver (m : vss_seg) (lbid v : Z) : Prop := is_Some (vss_map m !! (lbid, v)).

(** ** Results *)

Section Newest.
Context (lbid : Z) (q : QueryContext_vss) (txnID : Z).

(** [v] is the newest version the query may see. *)
Definition visible (m : vss_seg) (v : Z) : Prop :=
  has_ver m lbid v /\ v <= currentScn q /\ (v = txnID \/ v ∉ txns q).
Definition newest (m : vss_seg) (v : Z) : Prop :=
  visible m v /\ forall v', visible m v' -> v' <= v.

Lemma visible_candidate m v :
  visible m v <-> v <= currentScn q /\ exists f, candidate lbid q txnID false (vss_map m) v f.
Proof.
  unfold visible, has_ver, candidate. split.
  - intros ([[f l] Hm] & Hv & Ht). split; [done|]. exists f. split; [by exists l|]. by split.
  - intros (Hv & f & [l Hm] & _ & Ht). split; [by eexists|done].
Qed.

Lemma answer_newest m r : lookup_answer lbid q txnID false (vss_map m) r ->
  forall v, (exists f, r = (0, v, f)) <-> newest m v.
Proof.
  intros Ha v. destruct Ha as [v0 f0 Hc Hle Hmax|v0 f0 Hc Hnone|Hnone].
  - assert (Hv0 : visible m v0) by (apply visible_candidate; eauto). split.
    + intros [f [= <- _]]. split; [done|]. intros v' (Hv' & f' & Hc')%visible_candidate. by eapply Hmax.
    + intros [Hv Hm]. exists f0. specialize (Hm _ Hv0).
      apply visible_candidate in Hv as (Hv & f' & Hc'). specialize (Hmax _ _ Hc' Hv).
      do 2 f_equal. lia.
  - split; [by intros [f [=]]|]. intros [(Hv & f' & Hc')%visible_candidate _].
    specialize (Hnone _ _ Hc'). lia.
  - split; [by intros [f [=]]|]. intros [(Hv & f' & Hc')%visible_candidate _]. by destruct (Hnone _ _ Hc').
Qed.

Lemma lookup_newest m : vss_wf m -> 0 <= currentScn q -> (forall v, has_ver m lbid v -> 0 <= v) ->
  forall v, (exists f, lookup m lbid q txnID false = Ret (0, v, f)) <-> newest m v.
Proof.
  intros Hwf Hscn Hpos v.
  destruct (lookup_spec lbid q txnID false m Hwf Hscn) as (r & Hr & Ha).
  { intros v' f Hm. apply Hpos. by exists f. }
  rewrite <- (answer_newest m r Ha v), Hr. naive_solver.
Qed.
End Newest.

Lemma verID_open s v :
  v ∈ txns (QueryContext_vss_of (verID s)) <-> exists sid, activeTxns s !! sid = Some v.
Proof.
  unfold QueryContext_vss_of, verID. cbn [txns qc_currentTxns]. rewrite elem_of_list_to_set, list_elem_of_fmap.
  split.
  - intros ([sid v'] & -> & Hin). exists sid. by apply elem_of_in_order.
  - intros [sid Ha]. exists (sid, v). split; [done|]. by apply elem_of_in_order.
Qed.

(** ** What other transactions do to the VSS *)

Section History.
Context (W : Z -> Prop).

(** One operation on the VSS.  A version that is inserted belongs to a transaction of
    [W], or it is version 0, which [writeVBEntry] adds for a block that had no entry.
    Versions may be removed: by a rollback, with the last version in the version
    buffer, or when their place in it is taken for new ones. *)
Inductive vss_did : vss_seg -> vss_seg -> Prop :=
  | did_insert m log l ver f k loading m' log' : W ver \/ ver = 0 ->
      0 <= l -> numHashBuckets m + 5000 < 2 ^ 31 -> vss_map m !! (l, ver) = None ->
      insert l ver f k loading (mkUndoable m log) = (Ret tt, mkUndoable m' log') -> vss_did m m'
  | did_setVBFlag m log l ver f r m' log' :
      setVBFlag l ver f (mkUndoable m log) = (r, mkUndoable m' log') -> vss_did m m'
  | did_commit m log txn m' log' : (forall l f, vss_map m !! (l, txn) = Some f -> f.2 = true) ->
      commit txn (mkUndoable m log) = (Ret tt, mkUndoable m' log') -> vss_did m m'
  | did_remove m log l ver r m' log' :
      removeEntry l ver (mkUndoable m log) = (r, mkUndoable m' log') -> vss_did m m'.

Definition grown (m m' : vss_seg) : Prop :=
  forall l v, has_ver m' l v -> has_ver m l v \/ W v \/ v = 0.

Lemma did_grown m m' : vss_did m m' -> vss_wf m -> mapped m -> vss_wf m' /\ mapped m' /\ grown m m'.
Proof.
  intros Hd Hwf Hm. unfold grown, has_ver.
  destruct Hd as [m log l ver f k loading m' log' HW Hl Hnb Hnew Hr|m log l ver f r m' log' Hr
    |m log txn m' log' Hlk Hr|m log l ver r m' log' Hr].
  - destruct (vss_insert_spec m log l ver f k loading Hwf Hm Hnb Hl Hnew) as (m1 & log1 & E & Hwf1 & Hm1 & Hmap).
    rewrite E in Hr. injection Hr as <- <-. split; [done|]. split; [done|]. intros l' v. rewrite Hmap.
    intros [x [[[= _ <-] _]|[_ Hx]]%lookup_insert_Some]; [by right|left; by exists x].
  - pose proof (setVBFlag_spec m log l ver f Hwf) as H. destruct (vss_map m !! (l, ver)) as [[f0 k0]|] eqn:Ev.
    + destruct H as (m1 & log1 & E & Hwf1 & Hmap & Hm1 & _). rewrite E in Hr. injection Hr as _ <- <-.
      split; [done|]. split; [auto|]. intros l' v. rewrite Hmap.
      intros [x [[[= <- <-] _]|[_ Hx]]%lookup_insert_Some]; left; [by rewrite Ev|by exists x].
    + rewrite H in Hr. injection Hr as _ <- <-. auto.
  - destruct (commit_spec txn m log Hwf Hlk) as (m1 & log1 & E & Hwf1 & Hm1 & _ & Hmap).
    rewrite E in Hr. injection Hr as <- <-. split; [done|]. split; [auto|]. intros l' v. rewrite Hmap.
    intros [x (y & Hy & _)%fmap_Some]. left. by exists y.
  - destruct (removeEntry_spec m log l ver Hwf) as (m1 & log1 & E & Hwf1 & Hmap & Hm1 & _).
    rewrite E in Hr. injection Hr as _ <- <-. split; [done|]. split; [auto|]. intros l' v. rewrite Hmap.
    intros [x [Hx _]%vss_remove_sub]. left. by exists x.
Qed.

Lemma dids_grown m m' : rtc vss_did m m' -> vss_wf m -> mapped m -> vss_wf m' /\ grown m m'.
Proof.
  induction 1 as [m|m m1 m2 H _ IH]; intros Hwf Hm; [split; [done|]; intros l v; auto|].
  destruct (did_grown _ _ H Hwf Hm) as (Hwf1 & Hm1 & Hg). destruct (IH Hwf1 Hm1) as [Hwf2 Hg2].
  split; [done|]. intros l v [Hv|Hv]%Hg2; [by apply Hg|by right].
Qed.
End History.

(** The transactions that can write while the server goes from [s] on and issues
    [ids]: those that are open in [s] and those that begin later, [txnID] apart. *)
Definition writer (s : SessionManager) (ids : list Z) (txnID v : Z) : Prop :=
  v ∈ ids \/ (v <> txnID /\ exists sid, activeTxns s !! sid = Some v).

(** C12: A query that takes its snapshot from the session manager sees the same
    version of a block before and after other transactions have inserted, flagged,
    committed and removed versions, as long as the version it sees has not been removed;
    a block without versions is seen in version 0, also when that has got an entry.  It
    sees no version of a transaction that began later and, its own apart, none of one
    that was open. *)
Theorem snapshot_repeatable c ids c' m m' lbid txnID :
  let s := sm c in
  sm_wf s -> 0 <= _verID s -> (forall sid id, activeTxns s !! sid = Some id -> 0 < id) ->
  sm_run any_write c ids c' -> vss_wf m -> mapped m -> (forall v, has_ver m lbid v -> 0 <= v) ->
  rtc (vss_did (writer s ids txnID)) m m' ->
  let q := QueryContext_vss_of (verID s) in
  (forall v f, lookup m lbid q txnID false = Ret (0, v, f) -> has_ver m' lbid v ->
     exists f', lookup m' lbid q txnID false = Ret (0, v, f')) /\
  (lookup m lbid q txnID false = Ret (-1, 0, false) -> has_ver m' lbid 0 ->
     exists f', lookup m' lbid q txnID false = Ret (0, 0, f')) /\
  (forall v f, lookup m' lbid q txnID false = Ret (0, v, f) ->
     (has_ver m lbid v \/ v = 0) /\ (v ∉ ids) /\ (v = txnID \/ forall sid, activeTxns s !! sid <> Some v)).
Proof.
  intros s Hs Hscn Hopen Hrun Hwf Hm Hpos Hdid q. destruct (dids_grown _ _ _ Hdid Hwf Hm) as [Hwf' Hg].
  assert (Hids : forall x, x ∈ ids -> _verID s < x).
  { destruct (sm_run_wf _ _ _ _ Hrun Hs) as (_ & _ & _ & _ & Hf). rewrite Forall_forall in Hf.
    intros x Hx. by destruct (Hf _ Hx). }
  assert (Hpos' : forall v, has_ver m' lbid v -> 0 <= v).
  { intros v [Hv|[[Hv|[_ [sid Hv]]]| ->]]%Hg; [auto| | |lia].
    - specialize (Hids _ Hv). lia.
    - specialize (Hopen _ _ Hv). lia. }
  assert (Hvis : forall x, visible lbid q txnID m' x -> visible lbid q txnID m x \/ x = 0).
  { intros x (Hh & Hle & Ht). destruct (Hg _ _ Hh) as [?|[[Hx|[Hne Ho]]|?]]; [by left| | |by right].
    - specialize (Hids _ Hx). cbn in Hle. lia.
    - destruct Ht as [?|Ht]; [done|]. by destruct Ht; apply verID_open. }
  assert (H0 : 0 ∉ txns q).
  { intros [sid Ha]%verID_open. specialize (Hopen _ _ Ha). lia. }
  split; [|split].
  - intros v f Hf Hh. apply lookup_newest; [done..|].
    assert (Hn : newest lbid q txnID m v) by (apply lookup_newest; eauto).
    destruct Hn as [(_ & Hle & Ht) Hmax]. split; [done|]. intros v' [Hv'| ->]%Hvis; [by apply Hmax|auto].
  - intros Hf Hh. apply lookup_newest; [done..|]. split; [by split; [|split; [|right]]|].
    intros v' [Hv'| ->]%Hvis; [|lia]. exfalso.
    destruct (lookup_spec lbid q txnID false m Hwf Hscn) as (r & Hr & Ha); [intros v f Hv; apply Hpos; by exists f|].
    rewrite Hf in Hr. injection Hr as <-. apply visible_candidate in Hv' as (_ & f & Hc).
    inversion Ha as [| |Hnone]. by apply (Hnone v' f).
  - intros v f Hf. assert (Hn : newest lbid q txnID m' v) by (apply lookup_newest; eauto).
    destruct Hn as [Hv _]. pose proof (Hvis _ Hv) as Hor. destruct Hv as (_ & Hle & Ht). cbn in Hle.
    split; [destruct Hor as [[? _]|?]; auto|]. split.
    + intros Hx. specialize (Hids _ Hx). lia.
    + destruct Ht as [?|Ht]; [by left|right]. intros sid Ha. apply Ht, verID_open. by exists sid.
Qed.

(** Block 7 before and after transaction 5, which starts after the query, has
    written it and has been rolled back; transaction 3 is open. *)
Definition demo_old : vss_seg :=
  image (snd (insert 7 1 true false false (mkUndoable vsmall []))).
Definition demo_new : vss_seg :=
  image (snd (insert 7 5 false true false (mkUndoable demo_old []))).
Definition demo_back : vss_seg := image (snd (removeEntry 7 5 (mkUndoable demo_new []))).
Definition demo_snap : SessionManager := mkSM 0 0 2 4 0 0 {[ 9 := 3 ]} 1 [].

Lemma demo_old_wf : vss_wf demo_old /\ mapped demo_old /\ vss_map demo_old = {[ (7, 1) := (true, false) ]}.
Proof.
  destruct vsmall_wf as (H1 & H2 & H3).
  destruct (vss_insert_spec vsmall [] 7 1 true false false H1 H2)
    as (m1 & log1 & Hrun1 & Hwf1 & Hm1 & Hmap1); [simpl; lia|lia|by rewrite H3|].
  assert (E : demo_old = m1) by (unfold demo_old; rewrite Hrun1; reflexivity).
  rewrite E. split; [done|]. split; [done|]. by rewrite Hmap1, H3.
Qed.

Lemma demo_snap_wf : sm_wf demo_snap.
Proof.
  split; [simpl; lia|vm_compute; congruence|simpl; lia| |]; cbn [activeTxns demo_snap].
  - intros sid id [_ <-]%lookup_singleton_Some. simpl. lia.
  - intros sid sid' id [<- _]%lookup_singleton_Some [<- _]%lookup_singleton_Some. done.
Qed.

Lemma snapshot_repeatable_witness :
  let q := QueryContext_vss_of (verID demo_snap) in
  lookup demo_old 7 q 0 false = Ret (0, 1, true) /\
  (exists f, lookup demo_new 7 q 0 false = Ret (0, 1, f)) /\
  (exists f, lookup demo_back 7 q 0 false = Ret (0, 1, f)).
Proof.
  cbv zeta. assert (H1 : lookup demo_old 7 (QueryContext_vss_of (verID demo_snap)) 0 false = Ret (0, 1, true))
    by (vm_compute; reflexivity).
  split; [exact H1|]. destruct demo_old_wf as (Hwf & Hm & Hmap).
  assert (Hrun : sm_run any_write (mkServer demo_snap [] 0) [5] (mkServer (demo_open 8 demo_snap) [] 0)).
  { eapply (run_new _ _ [] (mkServer demo_snap [] 0) 8 false (Wrote 8) (Ret (mkTxn 5 true)) _ (Some 5));
      [constructor|exact I|vm_compute; reflexivity|done|done|vm_compute; reflexivity|reflexivity]. }
  assert (Hins : vss_did (writer demo_snap [5] 0) demo_old demo_new).
  { eapply (did_insert _ demo_old [] 7 5 false true false).
    - left. left. apply list_elem_of_here.
    - lia.
    - vm_compute. reflexivity.
    - by rewrite Hmap.
    - vm_compute. reflexivity. }
  assert (Hrem : vss_did (writer demo_snap [5] 0) demo_new demo_back).
  { eapply (did_remove _ demo_new [] 7 5). vm_compute. reflexivity. }
  assert (H : forall m', rtc (vss_did (writer demo_snap [5] 0)) demo_old m' -> has_ver m' 7 1 ->
    exists f, lookup m' 7 (QueryContext_vss_of (verID demo_snap)) 0 false = Ret (0, 1, f)).
  { intros m' Hdid. destruct (snapshot_repeatable (mkServer demo_snap [] 0) [5] _ demo_old m' 7 0 demo_snap_wf
      ltac:(simpl; lia) ltac:(cbn; intros sid id [_ <-]%lookup_singleton_Some; lia) Hrun Hwf Hm
      ltac:(intros v; unfold has_ver; rewrite Hmap; intros [f [[= <-] _]%lookup_singleton_Some]; lia) Hdid) as (H & _).
    apply (H 1 true H1). }
  split; apply H.
  - by apply rtc_once.
  - vm_compute. by eexists.
  - eapply rtc_l; [exact Hins|]. by apply rtc_once.
  - vm_compute. by eexists.
Defined.
