(* ===== verification/VersionBuffer.v ===== *)
(** * The version buffer: code of vbbm.cpp and vss.cpp that uses both tables

    [VBBM::getBlocks] hands out blocks of the version buffer, ageing out the
    versions that lie there; [VSS::removeEntriesFromDB] forgets every version
    of a range of blocks; [VSS::checkConsistency] compares the two tables. *)
From Stdlib Require Import ZArith Lia.
From S2P Require Import Prelude Bytes Undoable Hasher HashChain BrmTypes VBBM VSS.

Local Open Scope Z_scope.

(** The two tables, as one [SlaveDBRMNode] holds them. *)
Record tables := mkTables { t_vss : vss_obj; t_vbbm : vbbm_obj }.

Definition on_vss {A} (p : prog vss_obj A) : prog tables A :=
  zoom t_vss (fun v t => mkTables v (t_vbbm t)) p.
Definition on_vbbm {A} (p : prog vbbm_obj A) : prog tables A :=
  zoom t_vbbm (fun v t => mkTables (t_vss t) v) p.

(** ** [VBBM::getBlocks] *)

(** One iteration of the loop that takes blocks from the file at index
    [fileIndex]: from [nextOffset] on, at most to the end of the file. *)
Definition take_range (fileIndex num blocksGathered : Z) : prog vbbm_obj VBRange :=
  f ← VBBM.rdFile fileIndex;
  let blocksLeftInFile := s32 (u32 (fm_fileSize f - fm_nextOffset f)) in
  let blocksLeft := num - blocksGathered in
  let size := u32 (if decide (blocksLeftInFile >= blocksLeft)
                   then blocksLeft else blocksLeftInFile) in
  makeUndoRecord [VBBM.CFile fileIndex];;
  VBBM.wrFile fileIndex
    (mkFile (fm_OID f) (fm_fileSize f)
       (if decide (size = u32 blocksLeftInFile) then 0 else u32 (fm_nextOffset f + size)));;
  mret (mkVBRange (fm_OID f) (fm_nextOffset f) size).

Fixpoint gather (fuel : nat) (fileIndex num blocksGathered : Z) (freeRg : list VBRange)
    : prog vbbm_obj (list VBRange) :=
  if decide (blocksGathered < num) then
    match fuel with
    | O => undefined Diverges
    | S fuel' =>
        r ← take_range fileIndex num blocksGathered;
        gather fuel' fileIndex num (s32 (blocksGathered + vr_size r)) (freeRg ++ [r])
    end
  else mret freeRg.

(** The blocks to age out for one range: whole chunks, except that the chunk
    the range starts in has been cleared before unless it starts there. *)
Definition age_window (fileSize : Z) (r : VBRange) : option (Z * Z) :=
  let firstFBO := vr_vbFBO r in
  let lastFBO := u32 (vr_vbFBO r + vr_size r - 1) in
  let firstChunk := firstFBO / VBBM_CHUNK_SIZE in
  let lastChunk := lastFBO / VBBM_CHUNK_SIZE in
  if bool_decide (firstFBO mod VBBM_CHUNK_SIZE <> 0) && bool_decide (firstChunk = lastChunk)
  then None
  else
    let firstFBO' := if decide (firstFBO mod VBBM_CHUNK_SIZE <> 0)
                     then u32 ((firstChunk + 1) * VBBM_CHUNK_SIZE) else firstFBO in
    let lastFBO' := u32 ((lastChunk + 1) * VBBM_CHUNK_SIZE - 1) in
    Some (firstFBO', if decide (lastFBO' > fileSize) then fileSize else lastFBO').

(** [for (oi = 0; oi < repSize; oi++) if (storage[i].vbOids[oi] == dbr) break;] *)
Fixpoint find_root (l : list Z) (vbOids : DBROOTS_struct) (dbr : Z) : res (option Z) :=
  match l with
  | [] => Ret None
  | oi :: l' =>
      r ← roots_get vbOids oi;
      if decide (r = dbr) then Ret (Some oi) else find_root l' vbOids dbr
  end.

Section GetBlocks.
Context (VersionBufferFileSize : option Z).
(** [OamCache::getRepSize()] *)
Context (repSize : Z).

(** The body of the loop over all of [storage]. *)
Definition age_entry (dbr firstFBO lastFBO i : Z) : prog tables (list Z) :=
  e ← on_vbbm (VBBM.rdStorage i);
  oi ← reading (fun _ => find_root (seqZ 0 repSize) (vb_vbOids e) dbr);
  match oi with
  | None => mret []
  | Some oi =>
      fbo ← reading (fun _ => fbo_get (vb_vbFbo e) oi);
      if negb (bool_decide (vb_lbid e = -1))
         && bool_decide (fbo >= firstFBO) && bool_decide (fbo <= lastFBO)
      then
        locked ← reading (fun t => VSS.isEntryLocked (image (t_vss t)) (vb_lbid e) (vb_verID e));
        if locked : bool then throw VBBMBufferOverFlow
        else
          fl ← on_vss (VSS.removeEntry (vb_lbid e) (vb_verID e));
          on_vbbm (VBBM.removeEntry (vb_lbid e) (vb_verID e));;
          mret fl
      else mret []
  end.

Fixpoint age_entries (l : list Z) (dbr firstFBO lastFBO : Z) : prog tables (list Z) :=
  match l with
  | [] => mret []
  | i :: l' =>
      fl ← age_entry dbr firstFBO lastFBO i;
      fl' ← age_entries l' dbr firstFBO lastFBO;
      mret (fl ++ fl')
  end.

Fixpoint age_ranges (fileIndex dbr : Z) (rs : list VBRange) : prog tables (list Z) :=
  match rs with
  | [] => mret []
  | r :: rs' =>
      f ← on_vbbm (VBBM.rdFile fileIndex);
      fl ← match age_window (fm_fileSize f) r with
           | None => mret []
           | Some (firstFBO, lastFBO) =>
               cap ← on_vbbm (VBBM.field FvbCapacity);
               age_entries (seqZ 0 cap) dbr firstFBO lastFBO
           end;
      fl' ← age_ranges fileIndex dbr rs';
      mret (fl ++ fl')
  end.

(** [getBlocks]: the free ranges and the LBIDs to flush from the caches. *)
Definition getBlocks (num : Z) (vbOID : DBROOTS_struct) (dbrIndex : Z)
    : prog tables (list VBRange * list Z) :=
  dbr ← reading (fun _ => roots_get vbOID dbrIndex);
  fileIndex ← on_vbbm (addVBFileIfNotExists VersionBufferFileSize dbr);
  f ← on_vbbm (VBBM.rdFile fileIndex);
  if decide (u32 num > fm_fileSize f) then throw VBBMBufferOverFlow
  else
    m ← gets (fun t => image (t_vbbm t));
    on_vbbm (while_loop (Z.to_nat (vbCurrentSize m + num - vbCapacity m))
      (fun o => bool_decide (vbCurrentSize (image o) + num > vbCapacity (image o)))
      (growVBBM VersionBufferFileSize 0));;
    freeRg ← on_vbbm (gather (Z.to_nat num + 1) fileIndex num 0 []);
    flushList ← age_ranges fileIndex dbr freeRg;
    mret (freeRg, flushList).
End GetBlocks.

(** ** [VSS::removeEntriesFromDB] *)

(** The loop over the list of one LBID. *)
Fixpoint sweep_both (fuel : nat) (use_vbbm : bool) (lbid bucket prev index : Z)
    : prog tables unit :=
  match fuel with
  | O => undefined Diverges
  | S fuel' =>
      if decide (index = -1) then mret tt
      else
        e ← on_vss (VSS.rdStorage index);
        if decide (vs_lbid e = lbid) then
          (if vs_vbFlag e && use_vbbm
           then on_vbbm (VBBM.removeEntry (vs_lbid e) (vs_verID e)) else mret tt);;
          on_vss (unlink bucket prev index);;
          on_vss (account index);;
          e' ← on_vss (VSS.rdStorage index);
          sweep_both fuel' use_vbbm lbid bucket prev (vs_next e')
        else sweep_both fuel' use_vbbm lbid bucket index (vs_next e)
  end.

Definition removeEntriesFromDB (range : LBIDRange) (use_vbbm : bool) : prog tables unit :=
  on_vss (makeUndoRecord VSS.header_cells);;
  for_each (seqZ (r_start range) (r_size range)) (fun lbid =>
    bucket ← reading (fun t => hash_lbid lbid (VSS.numHashBuckets (image (t_vss t))));
    head ← on_vss (VSS.rdBucket bucket);
    n ← gets (fun t => length (VSS.storage (image (t_vss t))));
    sweep_both (S n) use_vbbm lbid bucket (-1) head).

(** ** [VSS::checkConsistency] *)

(** Test 1: a version flagged as copied has a place in the version buffer. *)
Definition check_vbbm (m : vss_seg) (vb : vbbm_seg) : res unit :=
  for_res (seqZ 0 (capacity m)) (fun i =>
    e ← rd (VSS.storage m) i;
    if decide (vs_lbid e = -1) then Ret tt
    else if vs_vbFlag e then
      r ← VBBM.lookup vb (vs_lbid e) (vs_verID e);
      match r with Some _ => Ret tt | None => Throw LogicError end
    else Ret tt).

Definition vss_walk_check (m : vss_seg) (head : Z) (body : VSSEntry -> res unit) : res unit :=
  r ← list_walk (S (length (VSS.storage m)))
        (fun (_ : unit) (_ : Z) e => match body e with Ret _ => inl tt | r => inr r end)
        (VSS.storage m) head tt;
  match r with inl _ => Ret tt | inr r => r end.

Definition vss_for_buckets (m : vss_seg) (body : VSSEntry -> res unit) : res unit :=
  for_res (seqZ 0 (VSS.numHashBuckets m)) (fun i =>
    head ← rd (VSS.hashBuckets m) i;
    if decide (head = -1) then Ret tt else vss_walk_check m head body).

Definition VSS_checkConsistency (m : vss_seg) (vb : vbbm_seg) : res Z :=
  _ ← check_vbbm m vb;
  _ ← VSS.size m;
  _ ← vss_for_buckets m (fun e => if decide (vs_lbid e = -1) then Throw LogicError else Ret tt);
  _ ← for_res (seqZ 0 (LWM m)) (fun i =>
        e ← rd (VSS.storage m) i;
        if decide (vs_lbid e = -1) then Throw LogicError else Ret tt);
  _ ← vss_for_buckets m (fun ej => vss_walk_check m (vs_next ej) (fun ek =>
        if decide (vs_lbid ej = vs_lbid ek /\ vs_verID ej = vs_verID ek)
        then Throw LogicError else Ret tt));
  Ret 0.
