(* ===== verification/VersionBufferProofs.v ===== *)
(** * The version buffer hands out blocks nobody uses

    The ranges [getBlocks] returns lie in the file, have the requested total
    size and move the file's offset on; the versions that lay there are
    removed from both tables, and none of them was needed for a rollback. *)
From Stdlib Require Import ZArith Lia.
From S2P Require Import Prelude Bytes Undoable Hasher HashChain BrmTypes.
From S2P Require Import VSS VSSProofs VSSQueries VBBM VBBMProofs VersionBuffer.

Local Open Scope Z_scope.

(** ** Taking blocks from a file *)

Definition with_file (i : nat) (f : VBFileMetadata) (m : vbbm_seg) : vbbm_seg :=
  VBBM.set_arrays (<[i := f]> (files m)) (VBBM.hashBuckets m) (VBBM.storage m) m.

Definition move_to (f : VBFileMetadata) (off : Z) : VBFileMetadata :=
  mkFile (fm_OID f) (fm_fileSize f) off.

Lemma take_range_run {A} (k : VBRange -> prog vbbm_obj A) i f m log num g :
  files m !! i = Some f -> 0 <= fm_nextOffset f < fm_fileSize f -> fm_fileSize f < 2 ^ 31 ->
  0 <= g < num -> num < 2 ^ 31 ->
  let sz := Z.min (num - g) (fm_fileSize f - fm_nextOffset f) in
  exists log', (take_range (Z.of_nat i) num g ≫= k) (mkUndoable m log)
    = k (mkVBRange (fm_OID f) (fm_nextOffset f) sz)
        (mkUndoable (with_file i (move_to f ((fm_nextOffset f + sz) mod fm_fileSize f)) m) log').
Proof.
  intros Hf Hoff Hfs Hg Hnum sz. unfold take_range. rewrite prog_bind_assoc.
  unfold VBBM.rdFile at 1. erewrite bind_reading by (by apply rd_nat). cbv zeta.
  rewrite (u32_id (fm_fileSize f - fm_nextOffset f)) by lia.
  rewrite (s32_id (fm_fileSize f - _)) by lia.
  replace (if decide (fm_fileSize f - fm_nextOffset f >= num - g) then num - g
           else fm_fileSize f - fm_nextOffset f) with sz by (unfold sz; case_decide; lia).
  rewrite (u32_id sz) by (unfold sz; lia).
  rewrite (u32_id (fm_fileSize f - fm_nextOffset f)) by lia.
  eexists. rewrite prog_bind_assoc, bind_makeUndoRecord by done.
  rewrite prog_bind_assoc. unfold VBBM.wrFile, VBBM.rdFile. rewrite prog_bind_assoc.
  erewrite bind_reading by (by apply rd_nat). rewrite bind_store.
  erewrite bind_Ret by reflexivity. unfold with_file. cbn. rewrite wr_nat.
  do 5 f_equal. unfold move_to. f_equal. case_decide as Hd.
  - replace (fm_nextOffset f + sz) with (fm_fileSize f) by lia. by rewrite Z.mod_same by lia.
  - rewrite Z.mod_small by (unfold sz in *; lia). rewrite u32_id by (unfold sz in *; lia). done.
Qed.

(** The ranges taken for [num] blocks from offset [off] of a file of [fs]
    blocks: one, or two when the end of the file is in between. *)
Definition ranges_of (f : VBFileMetadata) (num : Z) : list VBRange :=
  let off := fm_nextOffset f in
  let fs := fm_fileSize f in
  if decide (num = 0) then []
  else if decide (off + num <= fs) then [mkVBRange (fm_OID f) off num]
  else [mkVBRange (fm_OID f) off (fs - off); mkVBRange (fm_OID f) 0 (off + num - fs)].

Lemma gather_run i f m log num : files m !! i = Some f ->
  0 <= fm_nextOffset f < fm_fileSize f -> fm_fileSize f < 2 ^ 31 -> 0 <= num <= fm_fileSize f ->
  exists log', gather (Z.to_nat num + 1) (Z.of_nat i) num 0 [] (mkUndoable m log)
    = (Ret (ranges_of f num),
       mkUndoable (with_file i (move_to f ((fm_nextOffset f + num) mod fm_fileSize f)) m) log').
Proof.
  intros Hf Hoff Hfs Hnum. assert (Hlt := lookup_lt_Some _ _ _ Hf).
  rewrite Nat.add_1_r. cbn [gather]. unfold ranges_of. case_decide as H0.
  2: { rewrite decide_True by lia. exists log. replace num with 0 by lia.
       rewrite Z.add_0_r, Z.mod_small by lia. unfold with_file.
       rewrite list_insert_id; [by destruct m|]. rewrite Hf. by destruct f. }
  rewrite decide_False by lia.
  edestruct (take_range_run (fun r => gather (Z.to_nat num) (Z.of_nat i) num
    (s32 (0 + vr_size r)) ([] ++ [r])) i f m log num 0) as [log1 Hrun]; [done|lia..|].
  rewrite Hrun. clear Hrun. rewrite Z.sub_0_r. cbn [vr_size app]. rewrite Z.add_0_l.
  case_decide as Hfit.
  - rewrite Z.min_l by lia. rewrite s32_id by lia. exists log1.
    replace (gather (Z.to_nat num)) with (gather (S (Z.to_nat (num - 1)))) by (f_equal; lia).
    cbn [gather]. by rewrite decide_False by lia.
  - rewrite Z.min_r by lia. rewrite s32_id by lia.
    replace (fm_nextOffset f + (fm_fileSize f - fm_nextOffset f)) with (fm_fileSize f) by lia.
    rewrite Z.mod_same by lia.
    replace (gather (Z.to_nat num)) with (gather (S (Z.to_nat (num - 1)))) by (f_equal; lia).
    cbn [gather]. rewrite decide_True by lia. set (m1 := with_file i (move_to f 0) m).
    assert (Hf1 : files m1 !! i = Some (move_to f 0)).
    { unfold m1, with_file. destruct m. by apply list_lookup_insert_eq. }
    edestruct (take_range_run (fun r => gather (Z.to_nat (num - 1)) (Z.of_nat i) num
      (s32 (fm_fileSize f - fm_nextOffset f + vr_size r))
      ([mkVBRange (fm_OID f) (fm_nextOffset f) (fm_fileSize f - fm_nextOffset f)] ++ [r]))
      i (move_to f 0) m1 log1 num (fm_fileSize f - fm_nextOffset f)) as [log2 Hrun];
      [done|cbn; lia..|].
    rewrite Hrun. clear Hrun. cbn [move_to fm_nextOffset fm_fileSize fm_OID vr_size].
    rewrite Z.min_l by lia. rewrite s32_id by lia. exists log2.
    replace (fm_fileSize f - fm_nextOffset f + (num - (fm_fileSize f - fm_nextOffset f)))
      with num by lia.
    assert (Hg : forall fuel l o, gather fuel (Z.of_nat i) num num l o = (Ret l, o)).
    { intros [|fuel] l o; cbn [gather]; by rewrite decide_False by lia. }
    rewrite Hg. cbn [app]. do 2 f_equal.
    + do 3 f_equal. lia.
    + assert (Hmod : (0 + (num - (fm_fileSize f - fm_nextOffset f))) mod fm_fileSize f
                     = (fm_nextOffset f + num) mod fm_fileSize f).
      { rewrite Z.mod_small by lia. apply Z.mod_unique with 1; lia. }
      rewrite Hmod. unfold m1, with_file. destruct m. cbn. by rewrite list_insert_insert_eq.
Qed.

(** ** Where a version lies on a DBRoot *)

Section Aging.
Context (repSize : Z).

(** The offset of a version's copy on DBRoot [dbr], if it has one there. *)
Definition fbo_on (dbr : Z) (v : DBROOTS_struct * FBO_struct) : option Z :=
  match list_find (fun r => r = dbr) (take (Z.to_nat repSize) (dbRoots v.1)) with
  | Some (oi, _) => fbos v.2 !! oi
  | None => None
  end.

Definition in_window (dbr lo hi : Z) (v : DBROOTS_struct * FBO_struct) : bool :=
  match fbo_on dbr v with
  | Some f => bool_decide (f >= lo) && bool_decide (f <= hi)
  | None => false
  end.

Definition shaped (e : VBBMEntry) : Prop :=
  roots_wf (vb_vbOids e) /\ fbo_wf (vb_vbFbo e).

Lemma find_root_loop l pre dbr :
  (forall x, x ∈ pre -> x <> dbr) ->
  find_root (seqZ (Z.of_nat (length pre)) (Z.of_nat (length l))) (mkRoots (pre ++ l)) dbr
  = Ret (match list_find (fun r => r = dbr) l with
         | Some (oi, _) => Some (Z.of_nat (length pre + oi)) | None => None end).
Proof.
  revert pre. induction l as [|x l IH]; intros pre Hpre; [done|].
  rewrite seqZ_cons by (simpl; lia). cbn [find_root]. unfold roots_get. cbn [dbRoots].
  rewrite (rd_nat _ _ x) by (by apply list_lookup_middle). rewrite ret_bind. cbn [list_find].
  destruct (decide (x = dbr)) as [->|Hne]; [by rewrite Nat.add_0_r|].
  replace (Z.succ (Z.of_nat (length pre))) with (Z.of_nat (length (pre ++ [x])))
    by (rewrite length_app; simpl; lia).
  replace (Z.pred (Z.of_nat (length (x :: l)))) with (Z.of_nat (length l)) by (simpl; lia).
  replace (pre ++ x :: l) with ((pre ++ [x]) ++ l) by (by rewrite <- app_assoc).
  rewrite IH.
  - destruct (list_find _ l) as [[oi y]|]; [|done]. simpl. rewrite length_app. simpl.
    do 2 f_equal. lia.
  - intros y [Hy| ->%list_elem_of_singleton]%elem_of_app; [by apply Hpre|done].
Qed.

Lemma find_root_prefix n k dbr l : (k <= n)%nat -> length l = n ->
  find_root (seqZ 0 (Z.of_nat k)) (mkRoots l) dbr
  = find_root (seqZ 0 (Z.of_nat k)) (mkRoots (take k l)) dbr.
Proof.
  intros Hk Hl.
  assert (H : forall il, (forall i, i ∈ il -> 0 <= i < Z.of_nat k) ->
    find_root il (mkRoots l) dbr = find_root il (mkRoots (take k l)) dbr).
  { induction il as [|i il IH]; intros Hi; [done|]. cbn [find_root]. unfold roots_get.
    cbn [dbRoots]. unfold rd. rewrite !decide_True by (apply Hi; left).
    rewrite lookup_take_lt by (specialize (Hi i ltac:(left)); lia).
    rewrite IH by (intros j Hj; apply Hi; by right). done. }
  apply H. intros i Hi%elem_of_seqZ. lia.
Qed.

Lemma find_root_spec e dbr : shaped e -> 0 <= repSize <= 4 ->
  exists r, find_root (seqZ 0 repSize) (vb_vbOids e) dbr = Ret r /\
    match r with
    | None => fbo_on dbr (vb_val e) = None
    | Some oi => exists f, fbo_get (vb_vbFbo e) oi = Ret f /\ fbo_on dbr (vb_val e) = Some f
    end.
Proof.
  intros [[Hrl _] [Hfl _]] Hrep. destruct e as [l [rs] [fs] v n]. unfold fbo_on, vb_val in *. cbn in *.
  rewrite <- (Z2Nat.id repSize) by lia. unfold MAX_DATA_REPLICATESIZE in *.
  rewrite (find_root_prefix 4) by lia.
  assert (Hlen : length (take (Z.to_nat repSize) rs) = Z.to_nat repSize) by (rewrite length_take; lia).
  pose proof (find_root_loop (take (Z.to_nat repSize) rs) [] dbr) as H. cbn [length app] in H.
  rewrite Hlen in H. change (Z.of_nat 0) with 0 in H. rewrite H by (by intros ? ?%elem_of_nil).
  rewrite Nat2Z.id. clear H.
  destruct (list_find _ _) as [[oi x]|] eqn:Hfind; [|by eexists].
  eexists. split; [done|]. cbn. apply list_find_Some in Hfind as (Hoi & _).
  apply lookup_lt_Some in Hoi. destruct (lookup_lt_is_Some_2 fs oi) as [f Hf]; [lia|].
  exists f. split; [|done]. by apply rd_nat.
Qed.

(** ** The two tables agree *)

Definition vss_of (t : tables) := vss_map (image (t_vss t)).
Definition vbbm_of (t : tables) := vbbm_map (image (t_vbbm t)).

Record tables_wf (t : tables) : Prop := {
  tb_vss : vss_wf (image (t_vss t));
  tb_vbbm : vbbm_wf (image (t_vbbm t));
  tb_shaped i e : VBBM.storage (image (t_vbbm t)) !! i = Some e -> shaped e;
  (** a version has a place in the buffer exactly when its flag says so *)
  tb_agree k : is_Some (vbbm_of t !! k) <-> exists l, vss_of t !! k = Some (true, l);
  (** a version in the buffer is not the one being written *)
  tb_unlocked k : vss_of t !! k <> Some (true, true);
  tb_versions k f : vss_of t !! k = Some f -> 0 <= k.1 /\ 0 <= k.2;
}.

(** The version a rollback of its block would restore. *)
Definition protected (t : tables) (k : Z * Z) : Prop :=
  (exists v f, vss_of t !! (k.1, v) = Some (f, true)) /\
  rollback_version k.1 (vss_of t) k.2.

Lemma vss_remove_other lbid ver M k l : k <> (lbid, ver) ->
  (vss_remove lbid ver M).2 !! k = Some (true, l) <-> M !! k = Some (true, l).
Proof.
  intros Hne. unfold vss_remove. destruct (M !! (lbid, ver)); [|done]. cbv zeta.
  case_decide as Hd; cbn [snd]; [by rewrite lookup_delete_ne|].
  unfold forget. rewrite map_lookup_filter_Some, lookup_delete_ne by done.
  split; [by intros [? _]|]. intros Hk. split; [done|]. intros Hl. apply Hd.
  exists k, (true, l). rewrite lookup_delete_ne by done. done.
Qed.

Lemma vss_remove_locked lbid ver M k f : M !! (lbid, ver) = Some (true, false) ->
  (vss_remove lbid ver M).2 !! k = Some (f, true) <-> M !! k = Some (f, true).
Proof.
  intros Hv. unfold vss_remove. rewrite Hv. cbv zeta.
  assert (Hne : M !! k = Some (f, true) -> k <> (lbid, ver)) by (intros ? ->; congruence).
  case_decide as Hd; cbn [snd].
  - rewrite lookup_delete_Some. naive_solver.
  - unfold forget. rewrite map_lookup_filter_Some, lookup_delete_Some.
    split; [naive_solver|]. intros Hk. split; [split; [by apply not_eq_sym, Hne|done]|].
    intros Hl. apply Hd. exists k, (f, true).
    rewrite lookup_delete_ne by (by apply not_eq_sym, Hne). split; [done|].
    split; [done|]. apply orb_true_r.
Qed.

(** What ageing leaves of the VBBM: its files, its size and, slot by slot,
    the entries that stay. *)
Record shrunk (t t' : tables) : Prop := {
  sh_files : files (image (t_vbbm t')) = files (image (t_vbbm t));
  sh_cap : vbCapacity (image (t_vbbm t')) = vbCapacity (image (t_vbbm t));
  sh_sub : vbbm_of t' ⊆ vbbm_of t;
  sh_slots j ej : VBBM.storage (image (t_vbbm t')) !! j = Some ej ->
    exists ej', VBBM.storage (image (t_vbbm t)) !! j = Some ej' /\
      vb_val ej = vb_val ej' /\ (used ej -> vb_key ej = vb_key ej');
  sh_mapped : VBBMProofs.mapped (image (t_vbbm t)) -> VBBMProofs.mapped (image (t_vbbm t'));
  sh_vss_sub : vss_of t' ⊆ vss_of t;
  sh_protected k : protected t k -> is_Some (vbbm_of t !! k) ->
    protected t' k /\ is_Some (vbbm_of t' !! k);
  sh_protected_back k : protected t' k -> protected t k;
}.

Lemma shrunk_refl t : shrunk t t.
Proof. split; try done. intros j ej Hj. by exists ej. Qed.

Lemma shrunk_trans t1 t2 t3 : shrunk t1 t2 -> shrunk t2 t3 -> shrunk t1 t3.
Proof.
  intros H1 H2. split.
  - by rewrite (sh_files _ _ H2), (sh_files _ _ H1).
  - by rewrite (sh_cap _ _ H2), (sh_cap _ _ H1).
  - etrans; [apply (sh_sub _ _ H2)|apply (sh_sub _ _ H1)].
  - intros j ej Hj. destruct (sh_slots _ _ H2 j ej Hj) as (e2 & Hj2 & Hv2 & Hk2).
    destruct (sh_slots _ _ H1 j e2 Hj2) as (e1 & Hj1 & Hv1 & Hk1).
    exists e1. split_and!; [done|congruence|]. intros Hu. rewrite (Hk2 Hu). apply Hk1.
    unfold used in *. injection (Hk2 Hu) as Hl _. simpl in *. congruence.
  - intros Hm. by apply (sh_mapped _ _ H2), (sh_mapped _ _ H1).
  - etrans; [apply (sh_vss_sub _ _ H2)|apply (sh_vss_sub _ _ H1)].
  - intros k Hp Hi. destruct (sh_protected _ _ H1 k Hp Hi) as [Hp' Hi'].
    by apply (sh_protected _ _ H2).
  - intros k Hp. by apply (sh_protected_back _ _ H1), (sh_protected_back _ _ H2).
Qed.

(** Removing an unprotected version keeps the protected ones protected. *)
Lemma remove_protected t t' lbid ver k :
  vss_of t !! (lbid, ver) = Some (true, false) ->
  vss_of t' = (vss_remove lbid ver (vss_of t)).2 ->
  ~ protected t (lbid, ver) -> protected t k ->
  (exists l, vss_of t !! k = Some (true, l)) -> protected t' k.
Proof.
  intros Hv Ht' Hnp [(v & f & Hlk) (Hpos & Hmax & Hex)] [l Hk].
  assert (Hlk' : vss_of t' !! (k.1, v) = Some (f, true)).
  { rewrite Ht'. by apply vss_remove_locked. }
  split; [by exists v, f|]. split_and!; [done| |].
  - intros v' f' Hv'. rewrite Ht' in Hv'. apply vss_remove_sub in Hv' as [Hv' _].
    by eapply Hmax.
  - destruct Hex as [?|[f' Hf']]; [by left|right]. exists true. rewrite Ht'.
    assert (Hkk : vss_of t !! k = Some (f', false)) by (destruct k; exact Hf').
    rewrite Hk in Hkk. injection Hkk as <- ->. replace (k.1, k.2) with k by (by destruct k).
    apply vss_remove_other; [|done]. intros ->. apply Hnp.
    split; [by exists v, f|]. split_and!; [done|done|]. right. by exists true.
Qed.

(** ... and makes no other version protected. *)
Lemma remove_protected_back t t' lbid ver k :
  vss_of t !! (lbid, ver) = Some (true, false) ->
  vss_of t' = (vss_remove lbid ver (vss_of t)).2 ->
  (forall l v f, vss_of t !! (l, v) = Some (f, false) -> 0 <= v) ->
  ~ protected t (lbid, ver) -> protected t' k -> protected t k.
Proof.
  intros Hv Ht' Hnn Hnp [(v & f & Hlk) (Hpos & Hmax & Hex)].
  rewrite Ht' in Hlk. apply vss_remove_locked in Hlk; [|done].
  assert (Hkeep : forall v' f', (k.1, v') <> (lbid, ver) ->
    vss_of t !! (k.1, v') = Some (f', false) -> vss_of t' !! (k.1, v') = Some (f', false)).
  { intros v' f' Hne Hm. rewrite Ht'. unfold vss_remove. rewrite Hv. cbv zeta.
    case_decide as Hd; cbn [snd]; [by rewrite lookup_delete_ne|].
    unfold forget. rewrite map_lookup_filter_Some, lookup_delete_ne by done.
    split; [done|]. cbn. intros Hl. apply Hd. exists (k.1, v), (f, true).
    rewrite lookup_delete_ne; [|intros Heq; rewrite <- Heq in Hlk; congruence].
    split; [done|]. split; [done|apply orb_true_r]. }
  split; [by exists v, f|]. split_and!; [done| |].
  - intros v' f' Hm. destruct (decide ((k.1, v') = (lbid, ver))) as [Heq|Hne].
    2: { by eapply Hmax, Hkeep. }
    injection Heq as <- ->.
    destruct (decide (ver <= k.2)) as [|Hgt]; [done|]. exfalso. apply Hnp. split; [by exists v, f|]. cbn. split_and!; [by eapply Hnn| |right; by exists f'].
    intros v2 f2 Hm2. destruct (decide ((k.1, v2) = (k.1, ver))) as [[= ->]|Hne]; [done|].
    specialize (Hmax _ _ (Hkeep _ _ Hne Hm2)). lia.
  - destruct Hex as [?|[f' Hf']]; [by left|right]. exists f'.
    rewrite Ht' in Hf'. by apply vss_remove_sub in Hf' as [Hf' _].
Qed.

Lemma remove_both_run t i e : tables_wf t ->
  VBBM.storage (image (t_vbbm t)) !! i = Some e -> used e ->
  ~ protected t (vb_key e) ->
  exists fl t', (fl ← on_vss (VSS.removeEntry (vb_lbid e) (vb_verID e));
      on_vbbm (VBBM.removeEntry (vb_lbid e) (vb_verID e));; mret fl) t = (Ret fl, t') /\
    tables_wf t' /\ shrunk t t' /\ vbbm_of t' = delete (vb_key e) (vbbm_of t).
Proof.
  intros Ht Hi Hu Hnp. destruct t as [[vm vlog] [bm blog]]. unfold vbbm_of, vss_of in *. cbn in *.
  destruct (removeEntry_spec vm vlog (vb_lbid e) (vb_verID e) (tb_vss _ Ht))
    as (vm' & vlog' & Hvrun & Hvwf & Hvmap & _ & _ & _).
  destruct (vbbm_removeEntry_spec bm blog (vb_lbid e) (vb_verID e) (tb_vbbm _ Ht))
    as (bm' & blog' & Hbrun & Hbwf & Hbmap & Hfiles & Hmap & Hcap & _ & _ & Hslots).
  assert (Hin : is_Some (vbbm_map bm !! vb_key e)).
  { eexists. eapply vbbm_map_found; [apply (vw_table _ (tb_vbbm _ Ht))|done|done]. }
  assert (Hkv : vss_map vm !! vb_key e = Some (true, false)).
  { destruct (proj1 (tb_agree _ Ht (vb_key e)) Hin) as [[] Hl]; [|done].
    by destruct (tb_unlocked _ Ht (vb_key e)). }
  eexists _, (mkTables (mkUndoable vm' vlog') (mkUndoable bm' blog')). split.
  { unfold on_vss, on_vbbm, zoom, mbind, prog_bind. cbn. rewrite Hvrun. cbn. by rewrite Hbrun. }
  assert (Hsub : vss_map vm' ⊆ vss_map vm).
  { apply map_subseteq_spec. intros k v. rewrite Hvmap. by intros [? _]%vss_remove_sub. }
  split_and!; [| |done].
  - split; cbn; unfold vbbm_of, vss_of; cbn; try done.
    + intros j ej Hj. destruct (Hslots j ej Hj) as (ej' & Hj' & [= H1 H2] & _).
      unfold shaped. rewrite H1, H2. by apply (tb_shaped _ Ht j).
    + intros k. rewrite Hbmap. destruct (decide (k = vb_key e)) as [->|Hne].
      * change (vb_lbid e, vb_verID e) with (vb_key e). rewrite lookup_delete_eq.
        split; [by intros [? ?]|]. intros [l Hl]. rewrite Hvmap in Hl.
        apply vss_remove_sub in Hl as [_ Hl]. destruct Hl; [|done].
        change (vb_lbid e, vb_verID e) with (vb_key e). congruence.
      * change (vb_lbid e, vb_verID e) with (vb_key e). rewrite lookup_delete_ne by done.
        etrans; [apply (tb_agree _ Ht k)|]. cbn. unfold vss_of. cbn.
        setoid_rewrite Hvmap. by setoid_rewrite vss_remove_other.
    + intros k Hk. eapply (tb_unlocked _ Ht k). by eapply lookup_weaken.
    + intros k f Hk. eapply (tb_versions _ Ht k). by eapply lookup_weaken.
  - split; cbn; unfold vbbm_of, vss_of; cbn; try done.
    + rewrite Hbmap. apply delete_subseteq.
    + intros k Hp Hk.
      assert (Hne : k <> vb_key e) by (by intros ->).
      split.
      * eapply (remove_protected (mkTables (mkUndoable vm vlog) (mkUndoable bm blog)) _
          (vb_lbid e) (vb_verID e));
          [exact Hkv|exact Hvmap|exact Hnp|exact Hp|]. by apply (tb_agree _ Ht).
      * rewrite Hbmap. change (vb_lbid e, vb_verID e) with (vb_key e).
        by rewrite lookup_delete_ne.
    + intros k Hp. eapply (remove_protected_back (mkTables (mkUndoable vm vlog) (mkUndoable bm blog))
        (mkTables (mkUndoable vm' vlog') (mkUndoable bm' blog')) (vb_lbid e) (vb_verID e));
        [exact Hkv|exact Hvmap| |exact Hnp|exact Hp].
      intros l v f Hm. by apply (tb_versions _ Ht (l, v) _ Hm).
Qed.

(** One slot of the VBBM. *)
Lemma age_entry_run t dbr lo hi i e : tables_wf t -> 0 <= repSize <= 4 ->
  VBBM.storage (image (t_vbbm t)) !! i = Some e ->
  (used e /\ in_window dbr lo hi (vb_val e) = true /\ protected t (vb_key e) /\
   age_entry repSize dbr lo hi (Z.of_nat i) t = (Throw VBBMBufferOverFlow, t)) \/
  (exists fl t', used e /\ in_window dbr lo hi (vb_val e) = true /\
   age_entry repSize dbr lo hi (Z.of_nat i) t = (Ret fl, t') /\
   tables_wf t' /\ shrunk t t' /\ vbbm_of t' = delete (vb_key e) (vbbm_of t)) \/
  (~ (used e /\ in_window dbr lo hi (vb_val e) = true) /\
   age_entry repSize dbr lo hi (Z.of_nat i) t = (Ret [], t)).
Proof.
  intros Ht Hrep Hi. pose proof (tb_shaped _ Ht _ _ Hi) as Hs. unfold age_entry.
  erewrite bind_Ret.
  2: { unfold on_vbbm, zoom, VBBM.rdStorage, reading. rewrite (rd_nat _ _ _ Hi). cbn.
       by destruct t as [? []]. }
  destruct (find_root_spec e dbr Hs Hrep) as (r & Hr & Hfbo).
  erewrite bind_reading by exact Hr. unfold in_window.
  destruct r as [oi|]; [|right; right; rewrite Hfbo; by split; [intros [_ ?]|]].
  destruct Hfbo as (f & Hget & ->). erewrite bind_reading by exact Hget.
  destruct (decide (vb_lbid e = -1)) as [Hfree|Hu].
  { right; right. split; [by intros [Hx _]|]. by rewrite (bool_decide_eq_true_2 (vb_lbid e = -1)) by done. }
  rewrite (bool_decide_eq_false_2 (vb_lbid e = -1)) by done. cbn [negb andb].
  destruct (bool_decide (f >= lo) && bool_decide (f <= hi)) eqn:Hwin.
  2: { right; right. by split; [intros [_ ?]|]. }
  destruct (isEntryLocked_spec (vb_lbid e) (image (t_vss t)) (vb_verID e) (tb_vss _ Ht) Hu)
    as (b & Hb & Hiff).
  erewrite bind_reading by exact Hb. destruct b.
  - left. split_and!; try done. by apply Hiff.
  - right; left. destruct (remove_both_run t i e Ht Hi Hu) as (fl & t' & Hrun & H1 & H2 & H3).
    { intros Hp. by apply Hiff in Hp. }
    exists fl, t'. by split_and!.
Qed.

(** All slots from [k] on: nothing in the window is left there, everything
    outside it stays. *)
Lemma age_entries_run dbr lo hi n k t : tables_wf t -> 0 <= repSize <= 4 ->
  (k + n <= length (VBBM.storage (image (t_vbbm t))))%nat ->
  (exists t', age_entries repSize (seqZ (Z.of_nat k) (Z.of_nat n)) dbr lo hi t
      = (Throw VBBMBufferOverFlow, t') /\
    exists key v, vbbm_of t !! key = Some v /\ in_window dbr lo hi v = true /\ protected t key) \/
  (exists fl t', age_entries repSize (seqZ (Z.of_nat k) (Z.of_nat n)) dbr lo hi t = (Ret fl, t') /\
    tables_wf t' /\ shrunk t t' /\
    (forall key v, vbbm_of t !! key = Some v -> in_window dbr lo hi v = false ->
       vbbm_of t' !! key = Some v) /\
    (forall j e, (k <= j < k + n)%nat -> VBBM.storage (image (t_vbbm t')) !! j = Some e ->
       used e -> in_window dbr lo hi (vb_val e) = false)).
Proof.
  revert k t. induction n as [|n IH]; intros k t Ht Hrep Hlen.
  { right. exists [], t. split_and!; try done; [apply shrunk_refl|]. intros. lia. }
  rewrite seqZ_cons by lia.
  replace (Z.succ (Z.of_nat k)) with (Z.of_nat (S k)) by lia.
  replace (Z.pred (Z.of_nat (S n))) with (Z.of_nat n) by lia. cbn [age_entries].
  destruct (lookup_lt_is_Some_2 (VBBM.storage (image (t_vbbm t))) k) as [e He]; [lia|].
  assert (Hkey : used e -> vbbm_of t !! vb_key e = Some (vb_val e)).
  { intros Hu. eapply vbbm_map_found; [apply (vw_table _ (tb_vbbm _ Ht))|done|done]. }
  assert (Hcapt := tw_cap _ (vw_table _ (tb_vbbm _ Ht))).
  destruct (age_entry_run t dbr lo hi k e Ht Hrep He)
    as [(Hu & Hw & Hp & Hrun)|[(fl & t1 & Hu & Hw & Hrun & Ht1 & Hsh & Hdel)|(Hn & Hrun)]].
  - left. exists t. unfold mbind, prog_bind. rewrite Hrun. split; [done|].
    exists (vb_key e), (vb_val e). auto.
  - assert (Hcapt1 := tw_cap _ (vw_table _ (tb_vbbm _ Ht1))).
    rewrite (sh_cap _ _ Hsh) in Hcapt1.
    destruct (IH (S k) t1 Ht1 Hrep) as [(t' & Hrun' & key & v & Hv & Hwin & Hp)|
      (fl' & t' & Hrun' & Ht' & Hsh' & Hkeep & Hclean)]; [lia|..].
    + left. exists t'. unfold mbind, prog_bind. rewrite Hrun, Hrun'. split; [done|].
      exists key, v. split_and!; [|done|by apply (sh_protected_back _ _ Hsh)].
      by eapply lookup_weaken, (sh_sub _ _ Hsh).
    + right. exists (fl ++ fl'), t'. unfold mbind, prog_bind. rewrite Hrun, Hrun'.
      split_and!; [done|done|by eapply shrunk_trans| |].
      * intros key v Hv Hwin. apply Hkeep; [|done]. rewrite Hdel, lookup_delete_ne; [done|].
        intros <-. rewrite (Hkey Hu) in Hv. congruence.
      * intros j ej Hj Hej Huj. destruct (decide (j = k)) as [->|Hne]; [|apply (Hclean j); [lia|done..]].
        exfalso. destruct (sh_slots _ _ Hsh' _ _ Hej) as (e1 & He1 & _ & Hk1).
        assert (Hu1 : used e1).
        { unfold used in *. injection (Hk1 Huj) as Hl _. simpl in *. congruence. }
        destruct (sh_slots _ _ Hsh _ _ He1) as (e0 & He0 & _ & Hk0).
        assert (e0 = e) as -> by congruence.
        assert (Hm1 := vbbm_map_found _ k e1 (vw_table _ (tb_vbbm _ Ht1)) He1 Hu1).
        unfold vbbm_of in Hdel. by rewrite (Hk0 Hu1), Hdel, lookup_delete_eq in Hm1.
  - destruct (IH (S k) t Ht Hrep) as [(t' & Hrun' & Hex)|
      (fl' & t' & Hrun' & Ht' & Hsh' & Hkeep & Hclean)]; [lia|..].
    + left. exists t'. unfold mbind, prog_bind. by rewrite Hrun, Hrun'.
    + right. exists fl', t'. unfold mbind, prog_bind. rewrite Hrun, Hrun'.
      split_and!; try done. intros j ej Hj Hej Huj.
      destruct (decide (j = k)) as [->|Hne]; [|apply (Hclean j); [lia|done..]].
      destruct (sh_slots _ _ Hsh' _ _ Hej) as (e0 & He0 & Hv & Hk).
      assert (e0 = e) as -> by congruence. rewrite Hv.
      destruct (in_window dbr lo hi (vb_val e)) eqn:Hw; [|done]. exfalso. apply Hn.
      split; [|done]. unfold used in *. injection (Hk Huj) as Hl _. simpl in *. congruence.
Qed.

(** Block [b] of DBRoot [dbr]'s file holds a version. *)
Definition occupied (t : tables) (dbr b : Z) : Prop :=
  exists key v, vbbm_of t !! key = Some v /\ fbo_on dbr v = Some b.

Lemma occupied_shrunk t t' dbr b : shrunk t t' -> occupied t' dbr b -> occupied t dbr b.
Proof.
  intros Hs (key & v & Hk & Hf). exists key, v. split; [|done].
  by eapply lookup_weaken, (sh_sub _ _ Hs).
Qed.

(** One window over the whole table. *)
Lemma age_window_run dbr lo hi t : tables_wf t -> 0 <= repSize <= 4 ->
  (exists t', age_entries repSize (seqZ 0 (vbCapacity (image (t_vbbm t)))) dbr lo hi t
      = (Throw VBBMBufferOverFlow, t') /\
    exists key v, vbbm_of t !! key = Some v /\ in_window dbr lo hi v = true /\ protected t key) \/
  (exists fl t', age_entries repSize (seqZ 0 (vbCapacity (image (t_vbbm t)))) dbr lo hi t
      = (Ret fl, t') /\ tables_wf t' /\ shrunk t t' /\
    vbbm_of t' = filter (fun kv => in_window dbr lo hi kv.2 = false) (vbbm_of t)).
Proof.
  intros Ht Hrep. rewrite (tw_cap _ (vw_table _ (tb_vbbm _ Ht))).
  destruct (age_entries_run dbr lo hi (length (VBBM.storage (image (t_vbbm t)))) 0 t Ht Hrep)
    as [?|(fl & t' & Hrun & Ht' & Hsh & Hkeep & Hclean)]; [lia|by left|].
  right. exists fl, t'. split_and!; try done. apply map_eq. intros key. apply option_eq. intros v.
  rewrite map_lookup_filter_Some. split.
  - intros Hv. split; [by eapply lookup_weaken, (sh_sub _ _ Hsh)|]. cbn.
    apply contents_Some in Hv as (e & (j & Hj & Hu) & <- & <-);
      [|apply (tw_keys _ (vw_table _ (tb_vbbm _ Ht')))].
    apply (Hclean j e); [|done..]. apply lookup_lt_Some in Hj.
    pose proof (tw_cap _ (vw_table _ (tb_vbbm _ Ht'))).
    pose proof (tw_cap _ (vw_table _ (tb_vbbm _ Ht))). pose proof (sh_cap _ _ Hsh). lia.
  - intros [Hv Hw]. by apply Hkeep.
Qed.

Lemma window_clear t t' dbr lo hi b : lo <= b <= hi ->
  vbbm_of t' = filter (fun kv => in_window dbr lo hi kv.2 = false) (vbbm_of t) ->
  ~ occupied t' dbr b.
Proof.
  intros Hb Hf (key & v & Hk & Hfbo). rewrite Hf, map_lookup_filter_Some in Hk.
  destruct Hk as [_ Hw]. cbn in Hw. unfold in_window in Hw. rewrite Hfbo in Hw.
  rewrite !bool_decide_eq_true_2 in Hw by lia. done.
Qed.

(** The rest of the chunk at offset [off] holds no version. *)
Definition chunk_clear (t : tables) (dbr fs off : Z) : Prop :=
  off mod VBBM_CHUNK_SIZE <> 0 ->
  forall b, off <= b < fs -> b / VBBM_CHUNK_SIZE = off / VBBM_CHUNK_SIZE -> ~ occupied t dbr b.

(** A version that stops [getBlocks]. *)
Definition blocked (t : tables) (dbr : Z) : Prop :=
  exists key v b, vbbm_of t !! key = Some v /\ fbo_on dbr v = Some b /\ protected t key.

Lemma blocked_shrunk t t' dbr : shrunk t t' -> blocked t' dbr -> blocked t dbr.
Proof.
  intros Hs (key & v & b & Hk & Hf & Hp). exists key, v, b.
  split_and!; [by eapply lookup_weaken, (sh_sub _ _ Hs)|done|by apply (sh_protected_back _ _ Hs)].
Qed.

(** One iteration of the loop over the ranges. *)
Lemma age_range_run t dbr fs r : tables_wf t -> 0 <= repSize <= 4 ->
  0 <= vr_vbFBO r -> 0 < vr_size r -> vr_vbFBO r + vr_size r <= fs -> fs < 2 ^ 31 ->
  chunk_clear t dbr fs (vr_vbFBO r) ->
  let run := match age_window fs r with
             | None => mret []
             | Some (lo, hi) =>
                 cap ← on_vbbm (VBBM.field FvbCapacity);
                 age_entries repSize (seqZ 0 cap) dbr lo hi
             end : prog tables (list Z) in
  (exists t', run t = (Throw VBBMBufferOverFlow, t') /\ blocked t dbr) \/
  (exists fl t', run t = (Ret fl, t') /\ tables_wf t' /\ shrunk t t' /\
    (forall b, vr_vbFBO r <= b < vr_vbFBO r + vr_size r -> ~ occupied t' dbr b) /\
    (vr_vbFBO r + vr_size r < fs -> chunk_clear t' dbr fs (vr_vbFBO r + vr_size r))).
Proof.
  intros Ht Hrep Ha Hs Hfit Hfs Hclear. destruct r as [oid a s]. cbn in *.
  unfold age_window. cbn [vr_vbFBO vr_size]. unfold chunk_clear, VBBM_CHUNK_SIZE in *.
  rewrite (u32_id (a + s - 1)) by lia.
  pose proof (Z.div_mod a 100 ltac:(lia)). pose proof (Z.mod_pos_bound a 100 ltac:(lia)).
  pose proof (Z.div_mod (a + s - 1) 100 ltac:(lia)). pose proof (Z.mod_pos_bound (a + s - 1) 100 ltac:(lia)).
  assert (Hle : a / 100 <= (a + s - 1) / 100) by (apply Z.div_le_mono; lia).
  destruct (decide (a mod 100 <> 0 /\ a / 100 = (a + s - 1) / 100)) as [[Hm Hc]|Hn].
  - rewrite !bool_decide_eq_true_2 by done. right. exists [], t.
    split_and!; [done|done|apply shrunk_refl| |].
    + intros b Hb. apply Hclear; [done|lia|].
      assert (a / 100 <= b / 100) by (apply Z.div_le_mono; lia).
      assert (b / 100 <= (a + s - 1) / 100) by (apply Z.div_le_mono; lia). lia.
    + intros Hlt Hm' b Hb Hcb. apply Hclear; [done|lia|]. rewrite Hcb.
      assert (a / 100 <= (a + s) / 100) by (apply Z.div_le_mono; lia).
      assert ((a + s) / 100 < (a + s - 1) / 100 + 1); [|lia].
      apply Z.div_lt_upper_bound; [lia|].
      pose proof (Z.div_mod (a + s) 100 ltac:(lia)). pose proof (Z.mod_pos_bound (a + s) 100 ltac:(lia)). nia.
  - replace (bool_decide (a mod 100 <> 0) && bool_decide (a / 100 = (a + s - 1) / 100)) with false.
    2: { symmetry. apply not_true_iff_false. rewrite andb_true_iff, !bool_decide_eq_true. tauto. }
    set (lo := if decide (a mod 100 <> 0) then u32 ((a / 100 + 1) * 100) else a).
    set (hi := if decide (u32 (((a + s - 1) / 100 + 1) * 100 - 1) > fs) then fs
               else u32 (((a + s - 1) / 100 + 1) * 100 - 1)).
    assert (Hlo : lo = if decide (a mod 100 <> 0) then (a / 100 + 1) * 100 else a).
    { unfold lo. case_decide; [|done]. apply u32_id. lia. }
    assert (Hhi : hi = Z.min fs (((a + s - 1) / 100 + 1) * 100 - 1)).
    { unfold hi. rewrite (u32_id (((a + s - 1) / 100 + 1) * 100 - 1)) by lia.
      destruct (decide (((a + s - 1) / 100 + 1) * 100 - 1 > fs)) as [Hd|Hd]; lia. }
    clearbody lo hi.
    assert (Hcap : forall k : Z -> prog tables (list Z),
      (on_vbbm (VBBM.field FvbCapacity) ≫= k) t = k (vbCapacity (image (t_vbbm t))) t).
    { intros k. unfold on_vbbm, zoom, mbind, prog_bind, VBBM.field, gets. cbn. by destruct t. }
    rewrite Hcap.
    destruct (age_window_run dbr lo hi t Ht Hrep)
      as [(t' & Hrun & key & v & Hk & Hw & Hp)|(fl & t' & Hrun & Ht' & Hsh & Hf)].
    + left. exists t'. split; [done|]. unfold in_window in Hw.
      destruct (fbo_on dbr v) as [b|] eqn:Hb; [|done]. by exists key, v, b.
    + right. exists fl, t'. split_and!; [done..| |].
      * intros b Hb Hocc. destruct (decide (lo <= b)) as [Hlob|Hlob].
        { eapply window_clear; [|exact Hf|exact Hocc]. split; [done|]. rewrite Hhi.
          assert (b / 100 <= (a + s - 1) / 100) by (apply Z.div_le_mono; lia).
          pose proof (Z.div_mod b 100 ltac:(lia)). pose proof (Z.mod_pos_bound b 100 ltac:(lia)). lia. }
        apply (occupied_shrunk _ _ _ _ Hsh) in Hocc. case_decide as Hm; [|lia].
        revert Hocc. apply Hclear; [done|lia|].
        assert (a / 100 <= b / 100) by (apply Z.div_le_mono; lia).
        assert (b / 100 < a / 100 + 1); [|lia]. apply Z.div_lt_upper_bound; lia.
      * intros Hlt Hm' b Hb Hcb. eapply window_clear; [|exact Hf].
        pose proof (Z.div_mod (a + s) 100 ltac:(lia)). pose proof (Z.mod_pos_bound (a + s) 100 ltac:(lia)).
        pose proof (Z.div_mod b 100 ltac:(lia)). pose proof (Z.mod_pos_bound b 100 ltac:(lia)).
        rewrite Hhi. case_decide as Hm; [|lia].
        assert (a / 100 < (a + s - 1) / 100) by lia. lia.
Qed.

Lemma chunk_clear_shrunk t t' dbr fs off : shrunk t t' ->
  chunk_clear t dbr fs off -> chunk_clear t' dbr fs off.
Proof. intros Hs Hc Hm b Hb Hcb Hocc. by eapply Hc, occupied_shrunk. Qed.

Definition range_ok (fs : Z) (r : VBRange) : Prop :=
  0 <= vr_vbFBO r /\ 0 < vr_size r /\ vr_vbFBO r + vr_size r <= fs.

Lemma age_ranges_run fi f dbr rs t : tables_wf t -> 0 <= repSize <= 4 ->
  files (image (t_vbbm t)) !! fi = Some f -> fm_fileSize f < 2 ^ 31 ->
  Forall (range_ok (fm_fileSize f)) rs ->
  (forall r, r ∈ rs -> chunk_clear t dbr (fm_fileSize f) (vr_vbFBO r)) ->
  (exists t', age_ranges repSize (Z.of_nat fi) dbr rs t = (Throw VBBMBufferOverFlow, t') /\
    blocked t dbr) \/
  (exists fl t', age_ranges repSize (Z.of_nat fi) dbr rs t = (Ret fl, t') /\ tables_wf t' /\
    shrunk t t' /\
    (forall r b, r ∈ rs -> vr_vbFBO r <= b < vr_vbFBO r + vr_size r -> ~ occupied t' dbr b) /\
    (forall r, r ∈ rs -> vr_vbFBO r + vr_size r < fm_fileSize f ->
       chunk_clear t' dbr (fm_fileSize f) (vr_vbFBO r + vr_size r))).
Proof.
  intros Ht Hrep Hfi Hfs Hok. revert t Ht Hfi.
  induction Hok as [|r rs (Ha & Hs & Hfit) Hok IH]; intros t Ht Hfi Hclear.
  { right. exists [], t. split_and!; [done|done|apply shrunk_refl|..];
      by intros ? ?%elem_of_nil || intros ? ? ?%elem_of_nil. }
  cbn [age_ranges].
  assert (Hrd : forall k : VBFileMetadata -> prog tables (list Z),
    (on_vbbm (VBBM.rdFile (Z.of_nat fi)) ≫= k) t = k f t).
  { intros k. unfold on_vbbm, zoom, mbind, prog_bind, VBBM.rdFile, reading. cbn.
    rewrite (rd_nat _ _ _ Hfi). by destruct t. }
  rewrite Hrd.
  destruct (age_range_run t dbr (fm_fileSize f) r Ht Hrep Ha Hs Hfit Hfs)
    as [(t1 & Hrun & Hb)|(fl & t1 & Hrun & Ht1 & Hsh & Hfree & Hnext)]; [apply Hclear; left|..].
  { left. exists t1. split; [|done]. unfold mbind at 1, prog_bind at 1. by rewrite Hrun. }
  destruct (IH t1 Ht1) as [(t' & Hrun' & Hb)|(fl' & t' & Hrun' & Ht' & Hsh' & Hfree' & Hnext')].
  - by rewrite (sh_files _ _ Hsh).
  - intros r' Hr'. eapply chunk_clear_shrunk; [done|]. apply Hclear. by right.
  - left. exists t'. split; [|by eapply blocked_shrunk]. unfold mbind, prog_bind in *.
    by rewrite Hrun, Hrun'.
  - right. exists (fl ++ fl'), t'. split_and!; [|done|by eapply shrunk_trans|..].
    + unfold mbind, prog_bind in *. by rewrite Hrun, Hrun'.
    + intros r' b [->|Hr']%elem_of_cons Hb; [|by eapply Hfree'].
      intros Hocc. by eapply Hfree, occupied_shrunk.
    + intros r' [->|Hr']%elem_of_cons Hlt; [|by eapply Hnext'].
      eapply chunk_clear_shrunk; [done|by apply Hnext].
Qed.

Lemma ranges_of_ok f num : 0 <= fm_nextOffset f < fm_fileSize f -> 0 <= num <= fm_fileSize f ->
  Forall (range_ok (fm_fileSize f)) (ranges_of f num).
Proof.
  intros Hoff Hnum. unfold ranges_of. repeat case_decide; repeat constructor; cbn; lia.
Qed.

(** The tables after the offset of file [fi] has moved. *)
Lemma with_file_wf t fi f f' log' : tables_wf t -> files (image (t_vbbm t)) !! fi = Some f ->
  let t' := mkTables (t_vss t) (mkUndoable (with_file fi f' (image (t_vbbm t))) log') in
  tables_wf t' /\ vbbm_of t' = vbbm_of t /\ vss_of t' = vss_of t /\
  files (image (t_vbbm t')) = <[fi := f']> (files (image (t_vbbm t))) /\
  vbCapacity (image (t_vbbm t')) = vbCapacity (image (t_vbbm t)).
Proof.
  intros [H1 [[W1 W2 W3 W4 W5 W6 W7] W8 W9] H3 H4 H5 H6] Hf.
  destruct t as [v [[nf cap sz lwm nb fs bs st key sz' p cfs] log]].
  unfold vbbm_of, vss_of, vbbm_map, with_file in *. cbn in *. split_and!; try done.
  split; try done. split; try done. cbn. by rewrite length_insert.
Qed.
End Aging.

(** ** [getBlocks] *)

Section GetBlocks.
Context (cfg : option Z) (repSize : Z) (Hrep : 0 <= repSize <= 4).

(** The file of DBRoot [dbr]: its record, and the space behind its offset. *)
Record file_ready (t : tables) (dbr : Z) (f : VBFileMetadata) : Prop := {
  fr_dbr : 1 <= dbr < 2 ^ 16;
  fr_file : files (image (t_vbbm t)) !! Z.to_nat (dbr - 1) = Some f;
  fr_OID : fm_OID f = dbr;
  fr_offset : 0 <= fm_nextOffset f < fm_fileSize f;
  fr_size : fm_fileSize f < 2 ^ 31;
  fr_clear : chunk_clear repSize t dbr (fm_fileSize f) (fm_nextOffset f);
}.

(** The code before the blocks are taken, when no table has to grow. *)
Lemma getBlocks_prefix t num roots idx dbr f : tables_wf t -> file_ready t dbr f ->
  roots_get roots idx = Ret dbr -> 0 <= num < 2 ^ 31 ->
  (num <= fm_fileSize f ->
   vbCurrentSize (image (t_vbbm t)) + num <= vbCapacity (image (t_vbbm t))) ->
  getBlocks cfg repSize num roots idx t =
  (if decide (num > fm_fileSize f) then throw VBBMBufferOverFlow
   else
     freeRg ← on_vbbm (gather (Z.to_nat num + 1) (Z.of_nat (Z.to_nat (dbr - 1))) num 0 []);
     flushList ← age_ranges repSize (Z.of_nat (Z.to_nat (dbr - 1))) dbr freeRg;
     mret (freeRg, flushList)) t.
Proof.
  intros Ht [Hd Hf HO Hoff Hfs Hcl] Hroot Hnum Hroom. unfold getBlocks.
  erewrite bind_reading by exact Hroot.
  assert (Hnf : dbr <= nFiles (image (t_vbbm t))).
  { rewrite (vw_files _ (tb_vbbm _ Ht)). apply lookup_lt_Some in Hf. lia. }
  erewrite bind_Ret.
  2: { unfold on_vbbm, zoom, addVBFileIfNotExists. erewrite bind_Ret by reflexivity.
       cbn [get_field]. rewrite decide_False by lia. cbn. rewrite u32_id by lia. reflexivity. }
  cbn [t_vss t_vbbm]. rewrite <- (Z2Nat.id (dbr - 1)) at 1 by lia.
  erewrite bind_Ret.
  2: { unfold on_vbbm, zoom, VBBM.rdFile, reading. cbn. rewrite (rd_nat _ _ _ Hf). reflexivity. }
  rewrite u32_id by lia.
  destruct (decide (num > fm_fileSize f)) as [Hbig|Hbig]; [by destruct t as [? []]|].
  specialize (Hroom ltac:(lia)).
  erewrite bind_Ret by reflexivity. cbn [t_vbbm image].
  erewrite bind_Ret.
  2: { unfold on_vbbm, zoom. cbn [t_vbbm].
       replace (Z.to_nat _) with 0%nat by lia. cbn [while_loop].
       rewrite bool_decide_eq_false_2 by lia. reflexivity. }
  cbn [t_vss t_vbbm]. rewrite Z2Nat.id by lia. by destruct t.
Qed.

(** The chunk of the new offset is clear whichever range ends there. *)
Lemma next_offset_clear t dbr f num : 0 <= fm_nextOffset f < fm_fileSize f ->
  0 <= num <= fm_fileSize f -> chunk_clear repSize t dbr (fm_fileSize f) (fm_nextOffset f) ->
  (forall r, r ∈ ranges_of f num -> vr_vbFBO r + vr_size r < fm_fileSize f ->
     chunk_clear repSize t dbr (fm_fileSize f) (vr_vbFBO r + vr_size r)) ->
  chunk_clear repSize t dbr (fm_fileSize f) ((fm_nextOffset f + num) mod fm_fileSize f).
Proof.
  intros Hoff Hnum Hcl Hnext. unfold ranges_of in Hnext.
  destruct (decide (num = 0)) as [->|H0]; [by rewrite Z.add_0_r, Z.mod_small by lia|].
  destruct (decide (fm_nextOffset f + num <= fm_fileSize f)) as [Hfit|Hfit].
  - destruct (decide (fm_nextOffset f + num = fm_fileSize f)) as [->|Hne].
    { rewrite Z.mod_same by lia. by intros Hx. }
    rewrite Z.mod_small by lia.
    apply (Hnext (mkVBRange (fm_OID f) (fm_nextOffset f) num)); [left|cbn; lia].
  - replace ((fm_nextOffset f + num) mod fm_fileSize f)
      with (0 + (fm_nextOffset f + num - fm_fileSize f)) by (apply Z.mod_unique with 1; lia).
    apply (Hnext (mkVBRange (fm_OID f) 0 (fm_nextOffset f + num - fm_fileSize f)));
      [right; left|cbn; lia].
Qed.

Lemma getBlocks_run t num roots idx dbr f : tables_wf t -> file_ready t dbr f ->
  roots_get roots idx = Ret dbr -> 0 <= num <= fm_fileSize f ->
  vbCurrentSize (image (t_vbbm t)) + num <= vbCapacity (image (t_vbbm t)) ->
  (exists t', getBlocks cfg repSize num roots idx t = (Throw VBBMBufferOverFlow, t') /\
     blocked repSize t dbr) \/
  (exists fl t' f', getBlocks cfg repSize num roots idx t = (Ret (ranges_of f num, fl), t') /\
     tables_wf t' /\ file_ready t' dbr f' /\
     f' = move_to f ((fm_nextOffset f + num) mod fm_fileSize f) /\
     files (image (t_vbbm t')) = <[Z.to_nat (dbr - 1) := f']> (files (image (t_vbbm t))) /\
     vbbm_of t' ⊆ vbbm_of t /\
     (forall r b, r ∈ ranges_of f num -> vr_vbFBO r <= b < vr_vbFBO r + vr_size r ->
        ~ occupied repSize t' dbr b) /\
     (forall k, protected t k -> is_Some (vbbm_of t !! k) -> is_Some (vbbm_of t' !! k))).
Proof.
  intros Ht Hr Hroot Hnum Hroom. pose proof Hr as [Hd Hf HO Hoff Hfs Hcl].
  rewrite (getBlocks_prefix t num roots idx dbr f) by (done || lia).
  rewrite decide_False by lia. set (fi := Z.to_nat (dbr - 1)) in *.
  destruct t as [v [m log]]. cbn [t_vss t_vbbm image] in *.
  destruct (gather_run fi f m log num Hf Hoff Hfs Hnum) as [log' Hg].
  set (f' := move_to f ((fm_nextOffset f + num) mod fm_fileSize f)) in *.
  erewrite bind_Ret by (unfold on_vbbm, zoom; cbn [t_vbbm]; rewrite Hg; reflexivity).
  cbn [t_vss].
  destruct (with_file_wf _ fi f f' log' Ht Hf) as (Ht1 & Hvb1 & Hvs1 & Hf1 & Hc1).
  cbn [t_vss t_vbbm image] in *. set (t1 := mkTables v (mkUndoable (with_file fi f' m) log')) in *.
  assert (Hlt := lookup_lt_Some _ _ _ Hf).
  assert (Hfi1 : files (image (t_vbbm t1)) !! fi = Some f').
  { change (files (image (t_vbbm t1))) with (files (with_file fi f' m)). rewrite Hf1.
    by apply list_lookup_insert_eq. }
  assert (Hocc1 : forall b, occupied repSize t1 dbr b -> occupied repSize (mkTables v (mkUndoable m log)) dbr b).
  { intros b (key & x & Hk & Hx). exists key, x. by rewrite <- Hvb1. }
  destruct (age_ranges_run repSize fi f' dbr (ranges_of f num) t1 Ht1 Hrep Hfi1)
    as [(t' & Hrun & key & x & b & Hk & Hx & Hp)|(fl & t' & Hrun & Ht' & Hsh & Hfree & Hnext)].
  { done. }
  { by apply (ranges_of_ok f num). }
  { intros r Hr'. cbn [f' move_to fm_fileSize].
    assert (Hcase : vr_vbFBO r = fm_nextOffset f \/ vr_vbFBO r = 0).
    { unfold ranges_of in Hr'. repeat case_decide; set_solver. }
    destruct Hcase as [-> | ->]; [|by intros Hx].
    intros Hm b Hb Hcb Ho. by eapply Hcl, Hocc1. }
  - left. exists t'. unfold mbind, prog_bind. rewrite Hrun. split; [done|].
    exists key, x, b. rewrite Hvb1 in Hk. split_and!; [done|done|].
    unfold protected in *. by rewrite Hvs1 in Hp.
  - right. exists fl, t', f'. unfold mbind, prog_bind. rewrite Hrun.
    assert (Hmod := Z.mod_pos_bound (fm_nextOffset f + num) (fm_fileSize f) ltac:(lia)).
    assert (Hnf : files (image (t_vbbm t')) = <[fi := f']> (files m)).
    { by rewrite (sh_files _ _ Hsh). }
    split_and!; [done|done| |done|done| |done|].
    + split; cbn [f' move_to fm_nextOffset fm_fileSize]; try done.
      { rewrite Hnf. by apply list_lookup_insert_eq. }
      assert (Hcl1 : chunk_clear repSize t' dbr (fm_fileSize f) (fm_nextOffset f)).
      { eapply chunk_clear_shrunk; [exact Hsh|]. intros Hm b Hb Hcb Ho. by eapply Hcl, Hocc1. }
      by apply next_offset_clear.
    + rewrite <- Hvb1. apply (sh_sub _ _ Hsh).
    + intros k Hp Hk. apply (sh_protected _ _ Hsh).
      * unfold protected in *. by rewrite Hvs1.
      * by rewrite Hvb1.
Qed.
End GetBlocks.

(** ** Properties *)

Definition total_size (rs : list VBRange) : Z := foldr (fun r n => vr_size r + n) 0 rs.

Lemma ranges_of_total f num : 0 <= fm_nextOffset f < fm_fileSize f -> 0 <= num <= fm_fileSize f ->
  total_size (ranges_of f num) = num.
Proof. intros Hoff Hnum. unfold ranges_of. repeat case_decide; cbn; lia. Qed.

(** C1: A request for at most as many blocks as the version buffer file has, when the
    table of the VBBM has room for their entries and need not grow, either is refused,
    because a version a rollback would need lies in that file, or gets ranges of the
    file of exactly that many blocks. Then no block of the ranges holds a version any
    more, every version needed for a rollback is where it was, nothing was added to the
    tables, the two tables agree, and the file is ready for the next request. (A larger
    request is refused, [getBlocks_too_many]; a table that grows can lose an entry,
    [vbbm_grow_loses_entry].) *)
Theorem getBlocks_free cfg repSize t num roots idx dbr f : 0 <= repSize <= 4 ->
  tables_wf t -> file_ready repSize t dbr f -> roots_get roots idx = Ret dbr ->
  0 <= num <= fm_fileSize f ->
  vbCurrentSize (image (t_vbbm t)) + num <= vbCapacity (image (t_vbbm t)) ->
  (exists t', getBlocks cfg repSize num roots idx t = (Throw VBBMBufferOverFlow, t') /\
     blocked repSize t dbr) \/
  (exists rs fl t' f', getBlocks cfg repSize num roots idx t = (Ret (rs, fl), t') /\
     Forall (range_ok (fm_fileSize f)) rs /\ total_size rs = num /\
     tables_wf t' /\ file_ready repSize t' dbr f' /\
     fm_nextOffset f' = (fm_nextOffset f + num) mod fm_fileSize f /\
     vbbm_of t' ⊆ vbbm_of t /\
     (forall r b, r ∈ rs -> vr_vbFBO r <= b < vr_vbFBO r + vr_size r ->
        ~ occupied repSize t' dbr b) /\
     (forall k, protected t k -> is_Some (vbbm_of t !! k) -> is_Some (vbbm_of t' !! k))).
Proof.
  intros Hrep Ht Hr Hroot Hnum Hroom.
  destruct (getBlocks_run cfg repSize Hrep t num roots idx dbr f Ht Hr Hroot Hnum Hroom)
    as [?|(fl & t' & f' & H1 & H2 & H3 & -> & _ & H5 & H6 & H7)]; [by left|right].
  destruct Hr as [_ _ _ Hoff _ _].
  exists (ranges_of f num), fl, t', (move_to f ((fm_nextOffset f + num) mod fm_fileSize f)).
  split_and!; try done; [by apply ranges_of_ok|by apply ranges_of_total].
Qed.

(** A request for more blocks than the file has is refused, and leaves
    both tables as they were. *)
Theorem getBlocks_too_many cfg repSize t num roots idx dbr f : tables_wf t ->
  file_ready repSize t dbr f -> roots_get roots idx = Ret dbr ->
  fm_fileSize f < num < 2 ^ 31 ->
  getBlocks cfg repSize num roots idx t = (Throw VBBMBufferOverFlow, t).
Proof.
  intros Ht Hr Hroot Hnum. pose proof (fr_offset _ _ _ _ Hr).
  rewrite (getBlocks_prefix cfg repSize t num roots idx dbr f Ht Hr Hroot) by lia.
  by rewrite decide_True by lia.
Qed.

(** The demonstration tables: version 1 of block 7 lies at offset 17 of file
    1, and version 5 is being written ([t_busy]) or committed ([t_idle]). *)
Definition t_busy : tables := mkTables (mkUndoable vsmall2 []) (mkUndoable small1 []).
Definition vdone : vss_seg := image (snd (commit 5 (mkUndoable vsmall2 []))).
Definition t_idle : tables := mkTables (mkUndoable vdone []) (mkUndoable small1 []).

Lemma vdone_wf : vss_wf vdone /\
  vss_map vdone = {[ (7, 1) := (true, false); (7, 5) := (false, false) ]}.
Proof.
  destruct vsmall2_wf as (Hwf & _ & Hmap).
  destruct (commit_spec 5 vsmall2 [] Hwf) as (m' & log' & Hrun & Hwf' & _ & _ & Hm).
  { rewrite Hmap. intros l f [[[= <-] _]|[_ H]]%lookup_insert_Some.
    apply lookup_singleton_Some in H as [_ <-]. reflexivity. }
  assert (Heq : vdone = m') by (unfold vdone; rewrite Hrun; reflexivity).
  rewrite Heq. split; [exact Hwf'|]. apply map_eq. intros [l v]. rewrite Hm, Hmap.
  destruct (decide ((l, v) = (7, 1))) as [[= -> ->]|H1]; [reflexivity|].
  rewrite !(lookup_insert_ne _ (7, 1)) by congruence.
  destruct (decide ((l, v) = (7, 5))) as [[= -> ->]|H5]; [reflexivity|].
  by rewrite !lookup_singleton_ne by congruence.
Qed.

Lemma small1_shaped i e : VBBM.storage small1 !! i = Some e -> shaped e.
Proof.
  rewrite small1_storage. intros Hi. apply list_elem_of_lookup_2 in Hi.
  repeat (apply elem_of_cons in Hi as [->|Hi]); [..|by apply elem_of_nil in Hi];
    (repeat split; repeat apply Forall_cons_2; try apply Forall_nil_2; done).
Qed.

Lemma demo_tables_wf vm b : vss_wf vm ->
  vss_map vm = {[ (7, 1) := (true, false); (7, 5) := (false, b) ]} ->
  tables_wf (mkTables (mkUndoable vm []) (mkUndoable small1 [])).
Proof.
  intros Hwf Hmap. destruct small1_wf as (Hbwf & _ & Hbmap).
  split; unfold vss_of, vbbm_of; cbn [t_vss t_vbbm image]; rewrite ?Hmap, ?Hbmap;
    [done|done|apply small1_shaped|..].
  - intros k. destruct (decide (k = (7, 1))) as [->|H1].
    { rewrite lookup_singleton_eq, lookup_insert_eq. split; [by exists false|by eexists]. }
    rewrite lookup_singleton_ne, lookup_insert_ne by congruence.
    split; [by intros []|]. intros [l [_ [=]]%lookup_singleton_Some].
  - intros k [[_ [=]]|[_ [_ [=]]%lookup_singleton_Some]]%lookup_insert_Some.
  - intros k f [[<- _]|[_ [<- _]%lookup_singleton_Some]]%lookup_insert_Some; cbn; lia.
Qed.

Lemma t_idle_wf : tables_wf t_idle.
Proof. destruct vdone_wf as [H1 H2]. by apply (demo_tables_wf vdone false). Qed.
Lemma t_busy_wf : tables_wf t_busy.
Proof. destruct vsmall2_wf as (H1 & _ & H2). by apply (demo_tables_wf vsmall2 true). Qed.

Lemma demo_file_ready vm : file_ready 2 (mkTables (mkUndoable vm []) (mkUndoable small1 [])) 1
  (mkFile 1 1000 0).
Proof. split; [lia|vm_compute; reflexivity|done|cbn; lia|cbn; lia|]. by intros Hx. Qed.

Lemma getBlocks_free_witness :
  (exists fl t', getBlocks None 2 3 small_roots 0 t_idle = (Ret ([mkVBRange 1 0 3], fl), t') /\
     ~ occupied 2 t' 1 2) /\
  (exists t', getBlocks None 2 3 small_roots 0 t_busy = (Throw VBBMBufferOverFlow, t')).
Proof.
  split.
  - destruct (getBlocks_free None 2 t_idle 3 small_roots 0 1 (mkFile 1 1000 0))
      as [(t' & H & _)|(rs & fl & t' & f' & H & _ & _ & _ & _ & _ & _ & Hfree & _)];
      [lia|apply t_idle_wf|apply demo_file_ready|reflexivity|cbn; lia|vm_compute; done| |].
    + assert (Hc : fst (getBlocks None 2 3 small_roots 0 t_idle) = Ret ([mkVBRange 1 0 3], [7]))
        by (vm_compute; reflexivity).
      rewrite H in Hc. discriminate Hc.
    + assert (Hc : fst (getBlocks None 2 3 small_roots 0 t_idle) = Ret ([mkVBRange 1 0 3], [7]))
        by (vm_compute; reflexivity).
      rewrite H in Hc. injection Hc as -> ->. exists [7], t'. split; [exact H|].
      apply (Hfree (mkVBRange 1 0 3)); [left|cbn; lia].
  - destruct (getBlocks_free None 2 t_busy 3 small_roots 0 1 (mkFile 1 1000 0))
      as [(t' & H & _)|(rs & fl & t' & f' & H & _)];
      [lia|apply t_busy_wf|apply demo_file_ready|reflexivity|cbn; lia|vm_compute; done| |].
    + exists t'. exact H.
    + assert (Hc : fst (getBlocks None 2 3 small_roots 0 t_busy) = Throw VBBMBufferOverFlow)
        by (vm_compute; reflexivity).
      rewrite H in Hc. discriminate Hc.
Defined.

Lemma getBlocks_too_many_witness :
  getBlocks None 2 1001 small_roots 0 t_busy = (Throw VBBMBufferOverFlow, t_busy).
Proof.
  apply (getBlocks_too_many None 2 t_busy 1001 small_roots 0 1 (mkFile 1 1000 0));
    [apply t_busy_wf|apply demo_file_ready|reflexivity|cbn; lia].
Defined.
