(* ===== verification/CopyLocks.v ===== *)
(** * Copy locks: src/versioning/BRM/copylocks.{h,cpp}

    While the blocks of a range are copied to the version buffer, a copy lock
    keeps readers away from them.  The locks are an unordered array in shared
    memory; an entry of size 0 is free.  The size of the array and the bytes
    in use are kept in the entry of the master segment table, [MSTEntry]. *)
From Stdlib Require Import ZArith Lia.
From S2P Require Import Prelude Bytes Undoable BrmTypes.

Local Open Scope Z_scope.

(** ** Data *)

Record CopyLockEntry := mkCL { cl_start : Z; cl_size : Z; cl_txnID : Z }.
Definition CopyLockEntry_new : CopyLockEntry := mkCL 0 0 0.

#[global] Instance CopyLockEntry_eq_dec : EqDecision CopyLockEntry.
Proof. solve_decision. Defined.

Record MSTEntry := mkMST { tableShmkey : Z; allocdSize : Z; currentSize : Z }.

(** The mapped segment (its key is [currentShmkey]) and its description. *)
Record cl_seg := mkClSeg {
  entries : list CopyLockEntry;
  shminfo : MSTEntry;
  currentShmkey : Z;
  fCopyLocksImpl : bool;
}.

Definition sizeof_CopyLockEntry : Z := 16.
Definition sizeof_MSTEntry : Z := 12.
Definition CL_INITIAL_SIZE : Z := 50 * sizeof_CopyLockEntry.
Definition CL_INCREMENT : Z := 50 * sizeof_CopyLockEntry.
Definition KEYRANGE_CL_BASE : Z := 0x50000.
Definition KEYRANGE_SIZE : Z := 0x10000.

Inductive cl_cell := CEntry (i : Z) | CMst.
Inductive cl_delta := DEntry (i : Z) (e : CopyLockEntry) | DMst (e : MSTEntry).

#[global] Instance cl_cell_eq_dec : EqDecision cl_cell.
Proof. solve_decision. Defined.

Definition with_entries (l : list CopyLockEntry) (m : cl_seg) : cl_seg :=
  mkClSeg l (shminfo m) (currentShmkey m) (fCopyLocksImpl m).
Definition with_mst (e : MSTEntry) (m : cl_seg) : cl_seg :=
  mkClSeg (entries m) e (currentShmkey m) (fCopyLocksImpl m).

#[global] Instance cl_image : DeltaImage cl_seg cl_delta cl_cell := {
  cell_of d := match d with DEntry i _ => CEntry i | DMst _ => CMst end;
  apply_delta d m :=
    match d with
    | DEntry i e => with_entries (wr (entries m) i e) m
    | DMst e => with_mst e m
    end;
  snapshot c m :=
    match c with
    | CEntry i => DEntry i (rd_or CopyLockEntry_new (entries m) i)
    | CMst => DMst (shminfo m)
    end;
  csize c := match c with CEntry _ => sizeof_CopyLockEntry | CMst => sizeof_MSTEntry end;
  seg_of c m := match c with CEntry _ => currentShmkey m | CMst => 0 end;
}.

#[global] Instance cl_image_laws : DeltaLaws cl_seg cl_delta cl_cell.
Proof.
  split.
  - by intros [] [].
  - intros [] []; cbn; unfold with_entries; cbn; rewrite ?wr_rd_or; done.
  - intros [] [] []; cbn; intros [=]; subst; unfold with_entries; cbn; rewrite ?wr_wr; done.
  - intros [] [] []; cbn; intros Hne; try done. unfold with_entries. cbn. f_equal.
    apply wr_comm. congruence.
  - by intros [] [] [].
Qed.

Abbreviation cl_obj := (undoable cl_seg cl_delta).

(** ** Growth *)

(** [shminfo->allocdSize / sizeof(CopyLockEntry)] *)
Definition numEntries (m : cl_seg) : Z := allocdSize (shminfo m) / sizeof_CopyLockEntry.

Definition chooseShmkey (m : cl_seg) : Z :=
  let key := tableShmkey (shminfo m) in
  if decide (key + 1 = KEYRANGE_CL_BASE + KEYRANGE_SIZE - 1 \/ u32 key < KEYRANGE_CL_BASE)
  then KEYRANGE_CL_BASE + 1
  else key + 1.

(** [growCL]: the new segment has the old entries and zeroes behind them. *)
Definition growCL : prog cl_obj unit :=
  m ← gets image;
  let allocSize := if decide (allocdSize (shminfo m) = 0) then CL_INITIAL_SIZE
                   else allocdSize (shminfo m) + CL_INCREMENT in
  let newshmkey := chooseShmkey m in
  if bool_decide (allocSize = CL_INITIAL_SIZE) || fCopyLocksImpl m then
    let old := if fCopyLocksImpl m then entries m else [] in
    modify (set_image (fun m => mkClSeg
      (old ++ replicate (Z.to_nat (allocSize / sizeof_CopyLockEntry) - length old)
                CopyLockEntry_new)
      (mkMST newshmkey allocSize (currentSize (shminfo m))) newshmkey true));;
    confirmChanges
  else throw (ERYDBExcept ERR_ASSERTION_FAILURE).

(** [lock]: maps the segment when its key has changed. *)
Definition lock : prog cl_obj unit :=
  m ← gets image;
  if decide (currentShmkey m <> tableShmkey (shminfo m)) then
    if decide (allocdSize (shminfo m) = 0) then growCL
    else modify (set_image (fun m =>
           mkClSeg (entries m) (shminfo m) (tableShmkey (shminfo m)) true))
  else mret tt.

(** ** Operations *)

Definition rdEntry (i : Z) : prog cl_obj CopyLockEntry := reading (fun o => rd (entries (image o)) i).
Definition wrEntry (i : Z) (e : CopyLockEntry) : prog cl_obj unit :=
  _ ← rdEntry i; store (DEntry i e).

(** [shminfo->currentSize += n] *)
Definition addSize (n : Z) : prog cl_obj unit :=
  i ← gets (fun o => shminfo (image o));
  store (DMst (mkMST (tableShmkey i) (allocdSize i) (currentSize i + n))).

Fixpoint lockRange_loop (is_ : list Z) (l : LBIDRange) (txnID : Z) : prog cl_obj unit :=
  match is_ with
  | [] => throw LogicError
  | i :: is' =>
      e ← rdEntry i;
      if decide (cl_size e = 0) then
        makeUndoRecord [CEntry i];;
        wrEntry i (mkCL (r_start l) (s32 (r_size l)) txnID);;
        makeUndoRecord [CMst];;
        addSize sizeof_CopyLockEntry
      else lockRange_loop is' l txnID
  end.

Definition lockRange (l : LBIDRange) (txnID : Z) : prog cl_obj unit :=
  m ← gets image;
  (if decide (currentSize (shminfo m) = allocdSize (shminfo m)) then growCL else mret tt);;
  n ← gets (fun o => numEntries (image o));
  lockRange_loop (seqZ 0 n) l txnID.

(** Do a range and a lock have a block in common? *)
Definition intersects (l : LBIDRange) (e : CopyLockEntry) : bool :=
  let lastBlock := r_start l + r_size l - 1 in
  let eLastBlock := cl_start e + cl_size e - 1 in
  bool_decide (r_start l <= eLastBlock) && bool_decide (lastBlock >= cl_start e).

(** The loops that free the entries of a kind. *)
Definition free_where (P : CopyLockEntry -> bool) : prog cl_obj unit :=
  n ← gets (fun o => numEntries (image o));
  for_each (seqZ 0 n) (fun i =>
    e ← rdEntry i;
    if negb (bool_decide (cl_size e = 0)) && P e then
      makeUndoRecord [CEntry i];;
      wrEntry i (mkCL (cl_start e) 0 (cl_txnID e));;
      makeUndoRecord [CMst];;
      addSize (- sizeof_CopyLockEntry)
    else mret tt).

Definition releaseRange (l : LBIDRange) : prog cl_obj unit := free_where (intersects l).
Definition forceRelease (l : LBIDRange) : prog cl_obj unit := free_where (intersects l).
Definition rollback (txnID : Z) : prog cl_obj unit :=
  free_where (fun e => bool_decide (cl_txnID e = txnID)).

Fixpoint isLocked_loop (is_ : list Z) (m : cl_seg) (l : LBIDRange) : res bool :=
  match is_ with
  | [] => Ret false
  | i :: is' =>
      e ← rd (entries m) i;
      if negb (bool_decide (cl_size e = 0)) && intersects l e then Ret true
      else isLocked_loop is' m l
  end.
Definition isLocked (m : cl_seg) (l : LBIDRange) : res bool :=
  isLocked_loop (seqZ 0 (numEntries m)) m l.

(** [getCurrentTxnIDs]: adds to the caller's set. *)
Definition getCurrentTxnIDs (m : cl_seg) (list : gset Z) : res (gset Z) :=
  ids ← collect (seqZ 0 (numEntries m)) (fun i =>
    e ← rd (entries m) i; Ret (if decide (cl_size e = 0) then [] else [cl_txnID e]));
  Ret (list_to_set ids ∪ list).

(** ** The locks held *)

Definition in_use (e : CopyLockEntry) : Prop := cl_size e <> 0.
#[global] Instance in_use_dec e : Decision (in_use e).
Proof. unfold in_use. apply _. Defined.

Definition locks (m : cl_seg) : list CopyLockEntry := filter in_use (entries m).

Record cl_wf (m : cl_seg) : Prop := {
  cw_alloc : allocdSize (shminfo m) = sizeof_CopyLockEntry * Z.of_nat (length (entries m));
  cw_size : currentSize (shminfo m) = sizeof_CopyLockEntry * Z.of_nat (length (locks m));
  cw_mapped : fCopyLocksImpl m = true \/ entries m = [];
}.

Lemma numEntries_wf m : cl_wf m -> numEntries m = Z.of_nat (length (entries m)).
Proof.
  intros [Ha _ _]. unfold numEntries. rewrite Ha. unfold sizeof_CopyLockEntry.
  rewrite Z.mul_comm. apply Z.div_mul. lia.
Qed.

Lemma bind_rdEntry {A} (k : CopyLockEntry -> prog cl_obj A) i e m log :
  entries m !! i = Some e -> (rdEntry (Z.of_nat i) ≫= k) (mkUndoable m log) = k e (mkUndoable m log).
Proof. intros Hi. unfold rdEntry. apply bind_reading. by apply rd_nat. Qed.

(** Overwriting entry [i] and adjusting the size, with their records. *)
Lemma change_run i e e' n m log : entries m !! i = Some e ->
  exists log',
    (makeUndoRecord [CEntry (Z.of_nat i)];; wrEntry (Z.of_nat i) e';;
     makeUndoRecord [CMst];; addSize n) (mkUndoable m log)
    = (Ret tt, mkUndoable
        (with_mst (mkMST (tableShmkey (shminfo m)) (allocdSize (shminfo m))
                     (currentSize (shminfo m) + n))
           (with_entries (<[i := e']> (entries m)) m)) log').
Proof.
  intros Hi. eexists. rewrite bind_makeUndoRecord by done. unfold wrEntry.
  rewrite prog_bind_assoc. erewrite bind_rdEntry by done. rewrite bind_store.
  rewrite bind_makeUndoRecord by done. unfold addSize. cbn.
  rewrite wr_nat. reflexivity.
Qed.

(** A full array has only entries in use, so the search for a free one in an
    array that is not full succeeds. *)
Lemma lockRange_loop_run l t m log : cl_wf m ->
  (length (locks m) < length (entries m))%nat -> r_size l < 2 ^ 31 -> 0 < r_size l ->
  exists m' log', lockRange_loop (seqZ 0 (Z.of_nat (length (entries m)))) l t (mkUndoable m log)
      = (Ret tt, mkUndoable m' log') /\
    cl_wf m' /\ locks m' ≡ₚ mkCL (r_start l) (r_size l) t :: locks m.
Proof.
  intros Hwf Hfree Hsz Hpos.
  assert (H : forall pre post, entries m = pre ++ post -> Forall in_use pre ->
    exists m' log', lockRange_loop (seqZ (Z.of_nat (length pre)) (Z.of_nat (length post))) l t
      (mkUndoable m log) = (Ret tt, mkUndoable m' log') /\
    cl_wf m' /\ locks m' ≡ₚ mkCL (r_start l) (r_size l) t :: locks m).
  { intros pre post. revert pre. induction post as [|e post IH]; intros pre He Hpre.
    { exfalso. rewrite app_nil_r in He. unfold locks in Hfree. rewrite He in Hfree.
      rewrite filter_all in Hfree by done. lia. }
    assert (Hi : entries m !! length pre = Some e) by (rewrite He; by apply list_lookup_middle).
    rewrite seqZ_cons by (simpl; lia). cbn [lockRange_loop]. erewrite bind_rdEntry by done.
    case_decide as Hd.
    - rewrite s32_id by lia. edestruct change_run as [log' Hrun]; [exact Hi|].
      rewrite Hrun. eexists _, log'. split; [done|].
      assert (Hp : locks (with_entries (<[length pre := mkCL (r_start l) (r_size l) t]> (entries m)) m)
        ≡ₚ mkCL (r_start l) (r_size l) t :: locks m).
      { unfold locks. cbn [entries with_entries]. rewrite He, insert_app_r_alt, Nat.sub_diag by lia.
        cbn. rewrite !filter_app, !filter_cons. rewrite decide_True by (unfold in_use; cbn; lia).
        rewrite decide_False by (by intros []). by rewrite Permutation_middle. }
      split; [|exact Hp]. destruct Hwf as [W1 W2 W3]. split; cbn.
      + by rewrite length_insert.
      + apply Permutation_length in Hp. unfold locks in Hp, W2 |- *.
        cbn [entries with_entries with_mst length] in Hp |- *. rewrite Hp, W2.
        unfold sizeof_CopyLockEntry. lia.
      + destruct W3 as [?|W3]; [by left|]. by rewrite W3 in Hi.
    - replace (Z.succ (Z.of_nat (length pre))) with (Z.of_nat (length (pre ++ [e])))
        by (rewrite length_app; simpl; lia).
      replace (Z.pred (Z.of_nat (length (e :: post)))) with (Z.of_nat (length post)) by (simpl; lia).
      apply IH; [by rewrite <- app_assoc|]. apply Forall_app. by repeat constructor. }
  apply (H [] (entries m)); [done|constructor].
Qed.

Lemma growCL_run m log : cl_wf m -> currentSize (shminfo m) = allocdSize (shminfo m) ->
  exists m', growCL (mkUndoable m log) = (Ret tt, mkUndoable m' []) /\
    cl_wf m' /\ locks m' = locks m /\ (length (locks m') < length (entries m'))%nat.
Proof.
  intros Hwf Hfull. pose proof Hwf as [Wa Wc Wm].
  set (old := if fCopyLocksImpl m then entries m else []).
  assert (Hold : old = entries m) by (unfold old; destruct Wm as [-> | ->]; [done|by destruct (fCopyLocksImpl m)]).
  assert (Hcond : bool_decide ((if decide (allocdSize (shminfo m) = 0) then CL_INITIAL_SIZE
    else allocdSize (shminfo m) + CL_INCREMENT) = CL_INITIAL_SIZE) || fCopyLocksImpl m = true).
  { destruct Wm as [-> | Wm]; [apply orb_true_r|]. rewrite Wa, Wm. done. }
  unfold growCL. erewrite bind_Ret by reflexivity. cbn [image]. cbv zeta. rewrite Hcond.
  fold old. rewrite Hold.
  eexists. split; [reflexivity|]. cbn [set_image image].
  set (alloc := if decide (allocdSize (shminfo m) = 0) then CL_INITIAL_SIZE
                else allocdSize (shminfo m) + CL_INCREMENT).
  assert (Halloc : alloc = sizeof_CopyLockEntry * (Z.of_nat (length (entries m)) + 50)).
  { unfold alloc. unfold CL_INITIAL_SIZE, CL_INCREMENT, sizeof_CopyLockEntry in *.
    case_decide; lia. }
  assert (Hnum : alloc / sizeof_CopyLockEntry = Z.of_nat (length (entries m)) + 50).
  { rewrite Halloc, Z.mul_comm. by apply Z.div_mul. }
  rewrite Hnum. replace (Z.to_nat _ - length (entries m))%nat with 50%nat by lia.
  assert (Hlocks : filter in_use (entries m ++ replicate 50 CopyLockEntry_new) = locks m).
  { rewrite filter_app. replace (filter in_use (replicate 50 CopyLockEntry_new))
      with ([] : list CopyLockEntry) by (vm_compute; reflexivity). apply app_nil_r. }
  split_and!.
  - split; unfold locks; cbn [entries shminfo allocdSize currentSize fCopyLocksImpl].
    + rewrite Halloc, length_app, length_replicate. lia.
    + by rewrite Hlocks.
    + by left.
  - exact Hlocks.
  - unfold locks. cbn [entries]. rewrite Hlocks, length_app, length_replicate.
    pose proof (length_filter in_use (entries m)). unfold locks. lia.
Qed.

Lemma lockRange_spec l t m log : cl_wf m -> 0 < r_size l < 2 ^ 31 ->
  exists m' log', lockRange l t (mkUndoable m log) = (Ret tt, mkUndoable m' log') /\
    cl_wf m' /\ locks m' ≡ₚ mkCL (r_start l) (r_size l) t :: locks m.
Proof.
  intros Hwf Hsz. unfold lockRange. erewrite bind_Ret by reflexivity. cbn [image].
  assert (H : exists m1 log1,
    (if decide (currentSize (shminfo m) = allocdSize (shminfo m)) then growCL else mret tt)
      (mkUndoable m log) = (Ret tt, mkUndoable m1 log1) /\
    cl_wf m1 /\ locks m1 = locks m /\ (length (locks m1) < length (entries m1))%nat).
  { case_decide as Hd.
    - destruct (growCL_run m log Hwf Hd) as (m1 & ?). by exists m1, [].
    - exists m, log. split_and!; try done. destruct Hwf as [Wa Wc _].
      pose proof (length_filter in_use (entries m)). unfold locks in *.
      unfold sizeof_CopyLockEntry in *. lia. }
  destruct H as (m1 & log1 & Hrun & Hwf1 & Hl1 & Hfree).
  erewrite bind_Ret by exact Hrun. erewrite bind_Ret by reflexivity. cbn [image].
  rewrite numEntries_wf by done.
  destruct (lockRange_loop_run l t m1 log1 Hwf1 Hfree) as (m' & log' & H1 & H2 & H3); [lia..|].
  exists m', log'. by rewrite <- Hl1.
Qed.

(** An entry as [free_where] leaves it. *)
Definition freed (P : CopyLockEntry -> bool) (e : CopyLockEntry) : CopyLockEntry :=
  if decide (in_use e /\ P e = true) then mkCL (cl_start e) 0 (cl_txnID e) else e.

Lemma freed_in_use P e : in_use (freed P e) <-> in_use e /\ P e = false.
Proof.
  unfold freed. destruct (decide (in_use e /\ P e = true)) as [[Hu HP]|Hn].
  - split; [by intros []|]. intros [_ ?]. congruence.
  - split; [|by intros []]. intros Hu. split; [done|]. apply not_true_iff_false. by intros ?; apply Hn.
Qed.

Lemma freed_same P e : P e = false -> freed P e = e.
Proof. intros HP. unfold freed. rewrite decide_False; [done|]. intros [_ ?]. congruence. Qed.

Lemma freed_locks P (l : list CopyLockEntry) :
  filter in_use (freed P <$> l) = filter (fun e => P e = false) (filter in_use l).
Proof.
  induction l as [|e l IH]; [done|]. rewrite fmap_cons, !filter_cons.
  pose proof (freed_in_use P e) as Hf.
  destruct (decide (in_use (freed P e))) as [Hu|Hu], (decide (in_use e)) as [Hu'|Hu'];
    rewrite ?filter_cons; [|naive_solver|..|done].
  - rewrite decide_True, IH, freed_same by (by apply Hf). done.
  - rewrite decide_False by naive_solver. done.
Qed.

Definition free_body (P : CopyLockEntry -> bool) (i : Z) : prog cl_obj unit :=
  e ← rdEntry i;
  if negb (bool_decide (cl_size e = 0)) && P e then
    makeUndoRecord [CEntry i];;
    wrEntry i (mkCL (cl_start e) 0 (cl_txnID e));;
    makeUndoRecord [CMst];;
    addSize (- sizeof_CopyLockEntry)
  else mret tt.

Lemma free_loop P post : forall pre m log, entries m = (freed P <$> pre) ++ post ->
  exists m' log', for_each (seqZ (Z.of_nat (length pre)) (Z.of_nat (length post))) (free_body P)
      (mkUndoable m log) = (Ret tt, mkUndoable m' log') /\
    entries m' = freed P <$> (pre ++ post) /\
    allocdSize (shminfo m') = allocdSize (shminfo m) /\
    currentSize (shminfo m') = currentSize (shminfo m)
      - sizeof_CopyLockEntry * (Z.of_nat (length (filter in_use post))
                                - Z.of_nat (length (filter in_use (freed P <$> post)))) /\
    fCopyLocksImpl m' = fCopyLocksImpl m.
Proof.
  induction post as [|e post IH]; intros pre m log He.
  { exists m, log. rewrite app_nil_r in *. split_and!; try done. cbn. lia. }
  assert (Hi : entries m !! length pre = Some e).
  { rewrite He. rewrite lookup_app_r by (by rewrite length_fmap). by rewrite length_fmap, Nat.sub_diag. }
  rewrite seqZ_cons by (simpl; lia). cbn [for_each].
  assert (Hstep : exists m1 log1, free_body P (Z.of_nat (length pre)) (mkUndoable m log)
      = (Ret tt, mkUndoable m1 log1) /\
    entries m1 = (freed P <$> (pre ++ [e])) ++ post /\
    allocdSize (shminfo m1) = allocdSize (shminfo m) /\
    currentSize (shminfo m1) = currentSize (shminfo m)
      - (if decide (in_use e /\ P e = true) then sizeof_CopyLockEntry else 0) /\
    fCopyLocksImpl m1 = fCopyLocksImpl m).
  { unfold free_body. erewrite bind_rdEntry by exact Hi. rewrite fmap_app, <- app_assoc. cbn [fmap list_fmap app].
    unfold freed at 2. destruct (decide (in_use e /\ P e = true)) as [[Hu HP]|Hn].
    - rewrite bool_decide_eq_false_2 by exact Hu. rewrite HP. cbn [negb andb].
      edestruct (change_run (length pre) e) as [log1 Hrun]; [exact Hi|]. rewrite Hrun.
      eexists _, log1. split; [done|]. cbn. split_and!; try done.
      rewrite He, insert_app_r_alt by (by rewrite length_fmap).
      by rewrite length_fmap, Nat.sub_diag.
    - replace (negb _ && _) with false.
      2: { symmetry. apply not_true_iff_false. intros [H1%negb_true_iff H2]%andb_true_iff.
           apply bool_decide_eq_false in H1. by apply Hn. }
      exists m, log. split_and!; try done. lia. }
  destruct Hstep as (m1 & log1 & Hrun1 & He1 & Ha1 & Hc1 & Hp1).
  erewrite bind_Ret by exact Hrun1.
  destruct (IH (pre ++ [e]) m1 log1 He1) as (m' & log' & Hrun & He' & Ha' & Hc' & Hp').
  exists m', log'. split_and!; [|by rewrite He', <- app_assoc|congruence| |congruence].
  - rewrite <- Hrun. do 2 f_equal; rewrite ?length_app; simpl; lia.
  - rewrite Hc', Hc1. cbn [fmap list_fmap]. rewrite !filter_cons.
    pose proof (freed_in_use P e) as Hf.
    destruct (decide (in_use e /\ P e = true)), (decide (in_use (freed P e))), (decide (in_use e)),
      (P e); cbn [length]; (lia || naive_solver).
Qed.

Lemma free_where_spec P m log : cl_wf m ->
  exists m' log', free_where P (mkUndoable m log) = (Ret tt, mkUndoable m' log') /\
    cl_wf m' /\ locks m' = filter (fun e => P e = false) (locks m).
Proof.
  intros Hwf. destruct (free_loop P (entries m) [] m log eq_refl)
    as (m' & log' & Hrun & He & Ha & Hc & Hp).
  exists m', log'. split_and!.
  - unfold free_where. erewrite bind_Ret by reflexivity. cbn [image]. rewrite numEntries_wf by done.
    exact Hrun.
  - destruct Hwf as [W1 W2 W3]. cbn [app] in *. split.
    + by rewrite Ha, W1, He, length_fmap.
    + rewrite Hc, W2. unfold locks. rewrite He. lia.
    + destruct W3 as [W3|W3]; [left; by rewrite Hp|right; by rewrite He, W3].
  - unfold locks. cbn [app] in He. rewrite He. apply freed_locks.
Qed.

Lemma isLocked_spec m l : cl_wf m -> isLocked m l = Ret (existsb (intersects l) (locks m)).
Proof.
  intros Hwf. unfold isLocked. rewrite numEntries_wf by done.
  assert (H : forall post pre, entries m = pre ++ post ->
    isLocked_loop (seqZ (Z.of_nat (length pre)) (Z.of_nat (length post))) m l
    = Ret (existsb (intersects l) (filter in_use post))).
  { induction post as [|e post IH]; intros pre He; [done|].
    rewrite seqZ_cons by (simpl; lia). cbn [isLocked_loop].
    rewrite (rd_nat _ _ e), ret_bind by (rewrite He; by apply list_lookup_middle).
    rewrite filter_cons.
    replace (Z.succ (Z.of_nat (length pre))) with (Z.of_nat (length (pre ++ [e])))
      by (rewrite length_app; simpl; lia).
    replace (Z.pred (Z.of_nat (length (e :: post)))) with (Z.of_nat (length post)) by (simpl; lia).
    rewrite IH by (by rewrite <- app_assoc).
    destruct (decide (in_use e)) as [Hu|Hu].
    - rewrite bool_decide_eq_false_2 by exact Hu. cbn. by destruct (intersects l e).
    - rewrite bool_decide_eq_true_2; [done|]. destruct (decide (cl_size e = 0)); [done|].
      by destruct Hu. }
  apply (H (entries m) []). done.
Qed.

(** ** Undoing *)

Ltac cl_undo := repeat first
  [ lazymatch goal with
    | |- undo_safe _ (rdEntry _) => apply undo_safe_reading
    | |- undo_safe _ (wrEntry _ _) => unfold wrEntry
    | |- undo_safe _ (addSize _) => unfold addSize
    end
  | undo_step ].

Lemma free_where_undo_safe K P : undo_safe K (free_where P).
Proof. unfold free_where. cl_undo. Qed.

Lemma lockRange_loop_undo_safe K is_ l t : undo_safe K (lockRange_loop is_ l t).
Proof. induction is_ as [|i is_ IH]; cbn [lockRange_loop]; [|rename IH into IH0]; cl_undo; done. Qed.

(** ** Properties *)

(** [lockRange] always finds an entry, growing the array when it is
    full, and adds exactly the asked lock. *)
Theorem copylocks_lockRange_adds l t m log : cl_wf m -> 0 < r_size l < 2 ^ 31 ->
  exists m' log', lockRange l t (mkUndoable m log) = (Ret tt, mkUndoable m' log') /\
    cl_wf m' /\ locks m' ≡ₚ mkCL (r_start l) (r_size l) t :: locks m.
Proof. apply lockRange_spec. Qed.

Definition cl_empty : cl_seg := mkClSeg [] (mkMST 0 0 0) 0 false.
Lemma cl_empty_wf : cl_wf cl_empty.
Proof. split; [done|done|by right]. Qed.

Lemma copylocks_lockRange_adds_witness :
  exists m' log', lockRange (mkRange 100 8) 3 (mkUndoable cl_empty []) = (Ret tt, mkUndoable m' log') /\
    locks m' ≡ₚ [mkCL 100 8 3].
Proof.
  destruct (copylocks_lockRange_adds (mkRange 100 8) 3 cl_empty [] cl_empty_wf)
    as (m' & log' & H1 & _ & H2); [cbn; lia|]. by exists m', log'.
Defined.

(** [releaseRange] frees exactly the locks that have a block in common
    with the range: afterwards the range is not locked, and the other locks
    are as they were. *)
Theorem copylocks_releaseRange_frees l m log : cl_wf m ->
  exists m' log', releaseRange l (mkUndoable m log) = (Ret tt, mkUndoable m' log') /\
    cl_wf m' /\ locks m' = filter (fun e => intersects l e = false) (locks m) /\
    isLocked m' l = Ret false.
Proof.
  intros Hwf. destruct (free_where_spec (intersects l) m log Hwf) as (m' & log' & H1 & H2 & H3).
  exists m', log'. split_and!; try done. rewrite isLocked_spec, H3 by done. f_equal.
  apply not_true_iff_false. rewrite existsb_exists. intros (e & Hin & He).
  apply list_elem_of_In, list_elem_of_filter in Hin as [Hf _]. congruence.
Qed.

Definition cl_two : cl_seg :=
  image (snd ((lockRange (mkRange 100 8) 3;; lockRange (mkRange 200 8) 4) (mkUndoable cl_empty []))).

Lemma cl_two_wf : cl_wf cl_two.
Proof.
  destruct (lockRange_spec (mkRange 100 8) 3 cl_empty [] cl_empty_wf)
    as (m1 & log1 & H1 & Hwf1 & _); [cbn; lia|].
  destruct (lockRange_spec (mkRange 200 8) 4 m1 log1 Hwf1) as (m2 & log2 & H2 & Hwf2 & _); [cbn; lia|].
  unfold cl_two. erewrite bind_Ret by exact H1. rewrite H2. exact Hwf2.
Qed.

Lemma copylocks_releaseRange_frees_witness :
  exists m' log', releaseRange (mkRange 104 1) (mkUndoable cl_two []) = (Ret tt, mkUndoable m' log') /\
    locks m' = [mkCL 200 8 4] /\ isLocked m' (mkRange 104 1) = Ret false.
Proof.
  destruct (copylocks_releaseRange_frees (mkRange 104 1) cl_two [] cl_two_wf)
    as (m' & log' & H1 & _ & H2 & H3).
  exists m', log'. split; [exact H1|]. split; [|exact H3]. rewrite H2. vm_compute. reflexivity.
Defined.

(** [rollback] frees exactly the locks of the transaction. *)
Theorem copylocks_rollback_frees t m log : cl_wf m ->
  exists m' log', rollback t (mkUndoable m log) = (Ret tt, mkUndoable m' log') /\
    cl_wf m' /\ locks m' = filter (fun e => cl_txnID e <> t) (locks m).
Proof.
  intros Hwf. destruct (free_where_spec (fun e => bool_decide (cl_txnID e = t)) m log Hwf)
    as (m' & log' & H1 & H2 & H3).
  exists m', log'. split_and!; try done. rewrite H3. apply list_filter_iff.
  intros e. apply bool_decide_eq_false.
Qed.

Lemma copylocks_rollback_frees_witness :
  exists m' log', rollback 3 (mkUndoable cl_two []) = (Ret tt, mkUndoable m' log') /\
    locks m' = [mkCL 200 8 4].
Proof.
  destruct (copylocks_rollback_frees 3 cl_two [] cl_two_wf) as (m' & log' & H1 & _ & H2).
  exists m', log'. split; [exact H1|]. rewrite H2. vm_compute. reflexivity.
Defined.
