(* ===== verification/ExtentMap.v ===== *)
(** * The extent map: src/versioning/BRM/extentmap.{h,cpp}

    The extent map says which extent (which run of blocks of which segment
    file) a logical block id belongs to.  It is an unordered array of
    [EMEntry] in shared memory, next to a second array, the free list, of the
    LBID ranges no extent has; an entry whose range has size 0 is unused.
    Sizes of ranges count units of 1024 blocks.

    The file models the two arrays, their growth, the queries, the casual
    partitioning data and the high water marks.  The operations that create
    and delete extents are in ExtentAlloc.v.  Queries are functions of the
    mapped image, which [grabEMEntryTable] provides. *)
From Stdlib Require Import ZArith Lia.
From S2P Require Import Prelude Bytes Undoable BrmTypes CopyLocks.

Local Open Scope Z_scope.

(** ** Data *)

Record InlineLBIDRange := mkInline { start : Z; size : Z }.

Record EMCasualPartition := mkCP { hi_val : Z; lo_val : Z; sequenceNum : Z; isValid : Z }.

Record EMEntry := mkEM {
  range : InlineLBIDRange;
  fileID : Z;
  blockOffset : Z;
  em_dbRoots : DBROOTS_struct;
  HWM : Z;
  partitionNum : Z;
  segmentNum : Z;
  colWid : Z;
  status : Z;
  cprange : EMCasualPartition;
}.

Definition EXTENTSTATUSMIN : Z := 0.
Definition EXTENTAVAILABLE : Z := 0.
Definition EXTENTUNAVAILABLE : Z := 1.
Definition EXTENTOUTOFSERVICE : Z := 2.
Definition EXTENTSTATUSMAX : Z := 2.

Definition CP_INVALID : Z := 0.
Definition CP_UPDATING : Z := 1.
Definition CP_VALID : Z := 2.

Definition EM_MAX_SEQNUM : Z := 2000000000.
Definition MAX_LBID_SIZE : Z := 0xFFFFFFFF.
Definition EM_MAGIC_V4 : Z := 0x76f78b1f.

(** Sizes in bytes on x86-64. *)
Definition sizeof_EMEntry : Z := 72.
Definition sizeof_Inline : Z := 16.
Definition EM_INCREMENT_ROWS : Z := 100.
Definition EM_INITIAL_SIZE : Z := EM_INCREMENT_ROWS * 10 * sizeof_EMEntry.
Definition EM_INCREMENT : Z := EM_INCREMENT_ROWS * sizeof_EMEntry.
Definition EM_FREELIST_INITIAL_SIZE : Z := 50 * sizeof_Inline.
Definition EM_FREELIST_INCREMENT : Z := 50 * sizeof_Inline.
Definition KEYRANGE_EXTENTMAP_BASE : Z := 0x20000.
Definition KEYRANGE_EMFREELIST_BASE : Z := 0x30000.

Definition int64_min : Z := - 2 ^ 63.
Definition int64_max : Z := 2 ^ 63 - 1.
Definition uint64_max : Z := 2 ^ 64 - 1.

(** Memory cleared by [memset]. *)
Definition free_range : InlineLBIDRange := mkInline 0 0.
Definition free_em : EMEntry := mkEM free_range 0 0 DBROOTS_zero 0 0 0 0 0 (mkCP 0 0 0 0).

#[global] Instance Inline_eq_dec : EqDecision InlineLBIDRange.
Proof. solve_decision. Defined.
#[global] Instance CP_eq_dec : EqDecision EMCasualPartition.
Proof. solve_decision. Defined.
#[global] Instance EMEntry_eq_dec : EqDecision EMEntry.
Proof. solve_decision. Defined.

(** Assignments to a member of an entry. *)
Definition set_range (r : InlineLBIDRange) (e : EMEntry) : EMEntry :=
  mkEM r (fileID e) (blockOffset e) (em_dbRoots e) (HWM e) (partitionNum e) (segmentNum e)
    (colWid e) (status e) (cprange e).
Definition set_size (n : Z) (e : EMEntry) : EMEntry :=
  set_range (mkInline (start (range e)) n) e.
Definition set_roots (d : DBROOTS_struct) (e : EMEntry) : EMEntry :=
  mkEM (range e) (fileID e) (blockOffset e) d (HWM e) (partitionNum e) (segmentNum e)
    (colWid e) (status e) (cprange e).
Definition set_HWM (h : Z) (e : EMEntry) : EMEntry :=
  mkEM (range e) (fileID e) (blockOffset e) (em_dbRoots e) h (partitionNum e) (segmentNum e)
    (colWid e) (status e) (cprange e).
Definition set_status (st : Z) (e : EMEntry) : EMEntry :=
  mkEM (range e) (fileID e) (blockOffset e) (em_dbRoots e) (HWM e) (partitionNum e)
    (segmentNum e) (colWid e) st (cprange e).
Definition set_cp (c : EMCasualPartition) (e : EMEntry) : EMEntry :=
  mkEM (range e) (fileID e) (blockOffset e) (em_dbRoots e) (HWM e) (partitionNum e)
    (segmentNum e) (colWid e) (status e) c.

(** ** The image: two segments and their entries of the master segment table

    [emShmkey] and [flShmkey] are the keys of the mapped segments;
    [fPExtMapImpl] and [fPFreeListImpl] say whether there is a mapping. *)
Record em_image := mkImage {
  fExtentMap : list EMEntry;
  fEMShminfo : MSTEntry;
  emShmkey : Z;
  fPExtMapImpl : bool;
  fFreeList : list InlineLBIDRange;
  fFLShminfo : MSTEntry;
  flShmkey : Z;
  fPFreeListImpl : bool;
}.

(** [CMembers] are the bytes of the object that a record of [&fEMShminfo] or
    [&fFLShminfo] (the pointers, not what they point to) covers.  The
    pointers lead into the master segment, which is never moved, so the
    saved bytes are those that are there when they are copied back. *)
Inductive em_cell := CEM (i : Z) | CFL (i : Z) | CEMInfo | CFLInfo | CMembers.
Inductive em_delta :=
  | DEM (i : Z) (e : EMEntry)
  | DFL (i : Z) (r : InlineLBIDRange)
  | DEMInfo (i : MSTEntry)
  | DFLInfo (i : MSTEntry)
  | DMembers.

#[global] Instance em_cell_eq_dec : EqDecision em_cell.
Proof. solve_decision. Defined.

Definition with_em (l : list EMEntry) (m : em_image) : em_image :=
  mkImage l (fEMShminfo m) (emShmkey m) (fPExtMapImpl m)
    (fFreeList m) (fFLShminfo m) (flShmkey m) (fPFreeListImpl m).
Definition with_fl (l : list InlineLBIDRange) (m : em_image) : em_image :=
  mkImage (fExtentMap m) (fEMShminfo m) (emShmkey m) (fPExtMapImpl m)
    l (fFLShminfo m) (flShmkey m) (fPFreeListImpl m).
Definition with_emInfo (i : MSTEntry) (m : em_image) : em_image :=
  mkImage (fExtentMap m) i (emShmkey m) (fPExtMapImpl m)
    (fFreeList m) (fFLShminfo m) (flShmkey m) (fPFreeListImpl m).
Definition with_flInfo (i : MSTEntry) (m : em_image) : em_image :=
  mkImage (fExtentMap m) (fEMShminfo m) (emShmkey m) (fPExtMapImpl m)
    (fFreeList m) i (flShmkey m) (fPFreeListImpl m).

#[global] Instance em_delta_image : DeltaImage em_image em_delta em_cell := {
  cell_of d :=
    match d with
    | DEM i _ => CEM i | DFL i _ => CFL i | DEMInfo _ => CEMInfo | DFLInfo _ => CFLInfo
    | DMembers => CMembers
    end;
  apply_delta d m :=
    match d with
    | DEM i e => with_em (wr (fExtentMap m) i e) m
    | DFL i r => with_fl (wr (fFreeList m) i r) m
    | DEMInfo i => with_emInfo i m
    | DFLInfo i => with_flInfo i m
    | DMembers => m
    end;
  snapshot c m :=
    match c with
    | CEM i => DEM i (rd_or free_em (fExtentMap m) i)
    | CFL i => DFL i (rd_or free_range (fFreeList m) i)
    | CEMInfo => DEMInfo (fEMShminfo m)
    | CFLInfo => DFLInfo (fFLShminfo m)
    | CMembers => DMembers
    end;
  csize c :=
    match c with
    | CEM _ => sizeof_EMEntry | CFL _ => sizeof_Inline
    | CEMInfo | CFLInfo | CMembers => sizeof_MSTEntry
    end;
  seg_of c m := match c with CEM _ => emShmkey m | CFL _ => flShmkey m | _ => 0 end;
}.

#[global] Instance em_delta_laws : DeltaLaws em_image em_delta em_cell.
Proof.
  split.
  - by intros [] [].
  - intros [] []; cbn; unfold with_em, with_fl; cbn; rewrite ?wr_rd_or; done.
  - intros [] [] []; cbn; intros [=]; subst; unfold with_em, with_fl; cbn;
      rewrite ?wr_wr; done.
  - intros [] [] []; cbn; intros Hne; try done; unfold with_em, with_fl; cbn; f_equal;
      apply wr_comm; congruence.
  - by intros [] [] [].
Qed.

Abbreviation em_obj := (undoable em_image em_delta).

(** [fEMShminfo->allocdSize/sizeof(struct EMEntry)] and the like. *)
Definition emEntries (m : em_image) : Z := allocdSize (fEMShminfo m) / sizeof_EMEntry.
Definition flEntries (m : em_image) : Z := allocdSize (fFLShminfo m) / sizeof_Inline.

Definition rdEM (i : Z) : prog em_obj EMEntry := reading (fun o => rd (fExtentMap (image o)) i).
Definition wrEM (i : Z) (e : EMEntry) : prog em_obj unit := _ ← rdEM i; store (DEM i e).
Definition rdFL (i : Z) : prog em_obj InlineLBIDRange :=
  reading (fun o => rd (fFreeList (image o)) i).
Definition wrFL (i : Z) (r : InlineLBIDRange) : prog em_obj unit := _ ← rdFL i; store (DFL i r).

Definition add_size (n : Z) (i : MSTEntry) : MSTEntry :=
  mkMST (tableShmkey i) (allocdSize i) (currentSize i + n).
(** [fEMShminfo->currentSize += n] *)
Definition addEMSize (n : Z) : prog em_obj unit :=
  i ← gets (fun o => fEMShminfo (image o)); store (DEMInfo (add_size n i)).
Definition addFLSize (n : Z) : prog em_obj unit :=
  i ← gets (fun o => fFLShminfo (image o)); store (DFLInfo (add_size n i)).

(** Changing entry [i] after a record of it. *)
Definition changeEM (i : Z) (f : EMEntry -> EMEntry) : prog em_obj unit :=
  makeUndoRecord [CEM i];; e ← rdEM i; wrEM i (f e).

(** A search of the whole array that stops at the first hit. *)
Definition find_em (P : EMEntry -> bool) (m : em_image) : res (option (Z * EMEntry)) :=
  find_index P (fExtentMap m) (seqZ 0 (emEntries m)).

(** ** Growth and locks *)

Definition chooseKey (base key : Z) : Z :=
  if decide (key + 1 = base + KEYRANGE_SIZE - 1 \/ u32 key < base) then base + 1 else key + 1.
Definition chooseEMShmkey (m : em_image) : Z :=
  chooseKey KEYRANGE_EXTENTMAP_BASE (tableShmkey (fEMShminfo m)).
Definition chooseFLShmkey (m : em_image) : Z :=
  chooseKey KEYRANGE_EMFREELIST_BASE (tableShmkey (fFLShminfo m)).

(** [BRMShmImpl::grow]: the old contents, then zeroes. *)
Definition grown {A} (d : A) (old : list A) (n : Z) : list A :=
  old ++ replicate (Z.to_nat n - length old) d.

(** [growEMShmseg(nrows)]; the undo records are kept. *)
Definition growEMShmseg (nrows : Z) : prog em_obj unit :=
  modify (set_image (fun m =>
    let allocSize := if decide (allocdSize (fEMShminfo m) = 0) then EM_INITIAL_SIZE
                     else allocdSize (fEMShminfo m) + EM_INCREMENT in
    let newshmkey := chooseEMShmkey m in
    let allocSize := Z.max allocSize (nrows * sizeof_EMEntry) in
    let old := if fPExtMapImpl m then fExtentMap m else [] in
    mkImage (grown free_em old (allocSize / sizeof_EMEntry))
      (mkMST newshmkey (s32 allocSize) (currentSize (fEMShminfo m))) newshmkey true
      (fFreeList m) (fFLShminfo m) (flShmkey m) (fPFreeListImpl m))).

Definition growFLShmseg : prog em_obj unit :=
  modify (set_image (fun m =>
    let initial := bool_decide (allocdSize (fFLShminfo m) = 0) in
    let allocSize := if initial then EM_FREELIST_INITIAL_SIZE
                     else allocdSize (fFLShminfo m) + EM_FREELIST_INCREMENT in
    let newshmkey := chooseFLShmkey m in
    let old := if fPFreeListImpl m then fFreeList m else [] in
    let fl := grown free_range old (allocSize / sizeof_Inline) in
    let fl := if initial then wr fl 0 (mkInline (start (rd_or free_range fl 0)) MAX_LBID_SIZE)
              else fl in
    let cur := if initial then sizeof_Inline else currentSize (fFLShminfo m) in
    mkImage (fExtentMap m) (fEMShminfo m) (emShmkey m) (fPExtMapImpl m)
      fl (mkMST newshmkey (s32 allocSize) cur) newshmkey true)).

(** The object: the undoable image and the write locks it holds. *)
Record extent_map := mkExtentMap { em_und : em_obj; emLocked : bool; flLocked : bool }.

Definition on_image {A} (p : prog em_obj A) : prog extent_map A :=
  zoom em_und (fun x s => mkExtentMap x (emLocked s) (flLocked s)) p.
Definition set_emLocked (b : bool) : prog extent_map unit :=
  modify (fun s => mkExtentMap (em_und s) b (flLocked s)).
Definition set_flLocked (b : bool) : prog extent_map unit :=
  modify (fun s => mkExtentMap (em_und s) (emLocked s) b).

Inductive OPS := READ | WRITE.

(** The lock itself, of the master segment table, blocks until it is free.
    A segment whose key has changed is mapped again; the model has one
    segment of each kind, the one the master segment table describes. *)
Definition grabEMEntryTable (op : OPS) : prog extent_map unit :=
  match op with READ => mret tt | WRITE => set_emLocked true end;;
  m ← gets (fun s => image (em_und s));
  if negb (fPExtMapImpl m) || bool_decide (emShmkey m <> tableShmkey (fEMShminfo m)) then
    if decide (allocdSize (fEMShminfo m) = 0) then
      on_image (growEMShmseg 0);;
      match op with READ => set_emLocked false | WRITE => mret tt end
    else on_image (modify (set_image (fun m =>
      mkImage (fExtentMap m) (fEMShminfo m) (tableShmkey (fEMShminfo m)) true
        (fFreeList m) (fFLShminfo m) (flShmkey m) (fPFreeListImpl m))))
  else mret tt.

Definition grabFreeList (op : OPS) : prog extent_map unit :=
  match op with READ => mret tt | WRITE => set_flLocked true end;;
  m ← gets (fun s => image (em_und s));
  if negb (fPFreeListImpl m) || bool_decide (flShmkey m <> tableShmkey (fFLShminfo m)) then
    if decide (allocdSize (fFLShminfo m) = 0) then
      on_image growFLShmseg;;
      match op with READ => set_flLocked false | WRITE => mret tt end
    else on_image (modify (set_image (fun m =>
      mkImage (fExtentMap m) (fEMShminfo m) (emShmkey m) (fPExtMapImpl m)
        (fFreeList m) (fFLShminfo m) (tableShmkey (fFLShminfo m)) true)))
  else mret tt.

Definition releaseEMEntryTable (op : OPS) : prog extent_map unit :=
  match op with READ => mret tt | WRITE => set_emLocked false end.
Definition releaseFreeList (op : OPS) : prog extent_map unit :=
  match op with READ => mret tt | WRITE => set_flLocked false end.

(** ** The end of a command *)

Definition finishChanges : prog extent_map unit :=
  fl ← gets flLocked;
  (if fl : bool then releaseFreeList WRITE else mret tt);;
  em ← gets emLocked;
  (if em : bool then releaseEMEntryTable WRITE else mret tt).
Definition em_undo : prog extent_map unit := on_image undoChanges;; finishChanges.
Definition em_confirm : prog extent_map unit := on_image confirmChanges;; finishChanges.

(** ** Looking up blocks *)

Definition in_use (e : EMEntry) : bool := negb (bool_decide (size (range e) = 0)).

(** [range.start + (static_cast<LBID_t>(range.size) * 1024) - 1] *)
Definition lastBlock (r : InlineLBIDRange) : Z := start r + size r * 1024 - 1.

(** The test of every search by LBID. *)
Definition has_lbid (lbid : Z) (e : EMEntry) : bool :=
  in_use e && bool_decide (lbid >= start (range e)) && bool_decide (lbid <= lastBlock (range e)).

(** What is returned of the entry found; nothing when none was. *)
Definition hit {A} (f : EMEntry -> A) (r : option (Z * EMEntry)) : option A :=
  match r with Some (_, e) => Some (f e) | None => None end.

(** [lookup(lbid, firstLbid, lastLbid)]; [None] is the return value -1. *)
Definition lookup_range (m : em_image) (lbid : Z) : res (option (Z * Z)) :=
  r ← find_em (has_lbid lbid) m;
  Ret (hit (fun e => (start (range e), lastBlock (range e))) r).

Record location := mkLoc {
  loc_OID : Z; loc_dbRoot : DBROOTS_struct; loc_partitionNum : Z; loc_segmentNum : Z;
  loc_fileBlockOffset : FBO_struct;
}.

(** [lookupLocal(lbid, ...)]: [int offset] is added to an [uint32_t]. *)
Definition lookupLocal (m : em_image) (lbid : Z) : res (option location) :=
  if decide (lbid < 0) then Throw InvalidArgument
  else
    r ← find_em (has_lbid lbid) m;
    Ret (hit (fun e =>
      let offset := s32 (lbid - start (range e)) in
      mkLoc (fileID e) (em_dbRoots e) (partitionNum e) (segmentNum e)
        (FBO_of (u32 (blockOffset e + offset)))) r).

(** The segment file of an entry. *)
Definition in_segfile (OID part seg : Z) (e : EMEntry) : bool :=
  in_use e && bool_decide (fileID e = OID) && bool_decide (partitionNum e = part)
  && bool_decide (segmentNum e = seg).

Definition has_fbo (fbo : Z) (e : EMEntry) : bool :=
  bool_decide (blockOffset e <= fbo)
  && bool_decide (fbo <= blockOffset e + size (range e) * 1024 - 1).

Definition lbid_of_fbo (fbo : Z) (e : EMEntry) : Z :=
  start (range e) + s32 (u32 (fbo - blockOffset e)).

(** [lookupLocal(OID, partitionNum, segmentNum, fileBlockOffset, LBID)] *)
Definition lookupLocal_fbo (m : em_image) (OID part seg fbo : Z) : res (option Z) :=
  if decide (OID < 0) then Throw InvalidArgument
  else
    r ← find_em (fun e => in_segfile OID part seg e && has_fbo fbo e) m;
    Ret (hit (fun e => lbid_of_fbo fbo e) r).

Definition lookupLocal_DBroot (m : em_image) (OID : Z) (dbRoot : DBROOTS_struct)
    (part seg fbo : Z) : res (option Z) :=
  if decide (OID < 0) then Throw InvalidArgument
  else
    r ← find_em (fun e => in_segfile OID part seg e
           && bool_decide (roots_master (em_dbRoots e) = roots_master dbRoot)
           && has_fbo fbo e) m;
    Ret (hit (fun e => lbid_of_fbo fbo e) r).

Definition lookupLocalStartLbid (m : em_image) (OID part seg fbo : Z) : res (option Z) :=
  if decide (OID < 0) then Throw InvalidArgument
  else
    r ← find_em (fun e => in_segfile OID part seg e && has_fbo fbo e) m;
    Ret (hit (fun e => start (range e)) r).

(** What a loop with [push_back] collects. *)
Definition collect_em {A} (f : EMEntry -> option A) (m : em_image) : res (list A) :=
  collect (seqZ 0 (emEntries m)) (fun i => e ← rd (fExtentMap m) i; Ret (option_list (f e))).

(** [lookup(OID, ranges)] *)
Definition lookup_ranges (m : em_image) (OID : Z) : res (list LBIDRange) :=
  if decide (OID < 0) then Throw InvalidArgument
  else collect_em (fun e =>
    if bool_decide (fileID e = OID) && in_use e
       && negb (bool_decide (status e = EXTENTOUTOFSERVICE))
    then Some (mkRange (start (range e)) (u32 (size (range e) * 1024))) else None) m.

(** [sort(entries.begin(), entries.end())] by [EMEntry::operator<]; the model
    sorts by insertion, which agrees with [std::sort] on entries with
    distinct starts. *)
Fixpoint insert_sorted (e : EMEntry) (l : list EMEntry) : list EMEntry :=
  match l with
  | [] => [e]
  | x :: l' => if start (range e) <? start (range x) then e :: l else x :: insert_sorted e l'
  end.
Definition sort_em (l : list EMEntry) : list EMEntry := foldr insert_sorted [] (rev l).

Definition getExtents (m : em_image) (OID : Z) (sorted incOutOfService : bool)
    : res (list EMEntry) :=
  if decide (OID < 0) then Throw InvalidArgument
  else
    l ← collect_em (fun e =>
      if bool_decide (fileID e = OID) && in_use e
         && (incOutOfService || negb (bool_decide (status e = EXTENTOUTOFSERVICE)))
      then Some e else None) m;
    Ret (if sorted then sort_em l else l).

Definition getExtents_dbroot (m : em_image) (OID dbr : Z) (all : bool) : res (list EMEntry) :=
  if decide (OID < 0) then Throw InvalidArgument
  else collect_em (fun e =>
    if bool_decide (fileID e = OID) && in_use e
       && (bool_decide (roots_master (em_dbRoots e) = dbr)
           || (all && bool_decide (getDbrIndex (em_dbRoots e) dbr >= 0)))
    then Some e else None) m.

Definition getExtentCount_dbroot (m : em_image) (OID dbr : Z) (incOutOfService : bool) : res Z :=
  if decide (OID < 0) then Throw InvalidArgument
  else scan (fun n _ e =>
    if bool_decide (fileID e = OID) && in_use e
       && bool_decide (roots_master (em_dbRoots e) = dbr)
       && (incOutOfService || negb (bool_decide (status e = EXTENTOUTOFSERVICE)))
    then n + 1 else n) (fExtentMap m) (seqZ 0 (emEntries m)) 0.

Definition getSysCatDBRoot (m : em_image) (oid : Z) : res DBROOTS_struct :=
  r ← find_em (fun e => in_use e && bool_decide (fileID e = oid)) m;
  match r with
  | Some (_, e) => Ret (em_dbRoots e)
  | None => Throw LogicError
  end.

Definition isDBRootEmpty (m : em_image) (dbr : Z) : res bool :=
  if decide (currentSize (fEMShminfo m) = 0) then Throw RuntimeError
  else
    r ← find_em (fun e => in_use e && bool_decide (roots_master (em_dbRoots e) = dbr)) m;
    Ret (match r with Some _ => false | None => true end).

Definition getFreeListEntries (m : em_image) : res (list InlineLBIDRange) :=
  collect (seqZ 0 (flEntries m)) (fun i => r ← rd (fFreeList m) i; Ret [r]).

(** ** Casual partitioning *)

(** The values of [ColDataType] the code distinguishes. *)
Inductive ColDataType :=
  | BIT | TINYINT | CHAR | SMALLINT | DECIMAL | MEDINT | INT | FLOAT | DATE | BIGINT | DOUBLE
  | DATETIME | VARCHAR | VARBINARY | CLOB | BLOB | UTINYINT | USMALLINT | UDECIMAL | UMEDINT
  | UINT | UFLOAT | UBIGINT | UDOUBLE | NUM_OF_COL_DATA_TYPE | LONGDOUBLE | STRINT.

Definition isCharType (t : ColDataType) : bool :=
  match t with VARCHAR | CHAR => true | _ => false end.
Definition isUnsigned (t : ColDataType) : bool :=
  match t with UTINYINT | USMALLINT | UMEDINT | UINT | UBIGINT => true | _ => false end.

Definition incSeqNum (seqNum : Z) : Z :=
  let seqNum := seqNum + 1 in
  if decide (seqNum > EM_MAX_SEQNUM) then 0 else seqNum.

(** The range that every value will widen: lowest above highest.  The members
    are [int64_t]; [numeric_limits<uint64_t>::max()] is stored as -1. *)
Definition empty_lo (t : ColDataType) : Z := if isUnsigned t then s64 uint64_max else int64_max.
Definition empty_hi (t : ColDataType) : Z := if isUnsigned t then 0 else int64_min.

Definition cp_invalidated (t : ColDataType) (c : EMCasualPartition) : EMCasualPartition :=
  mkCP (empty_hi t) (empty_lo t) (incSeqNum (sequenceNum c)) CP_UPDATING.
Definition cp_assigned (max min : Z) (valid : Z) (c : EMCasualPartition) : EMCasualPartition :=
  mkCP max min (incSeqNum (sequenceNum c)) valid.
Definition cp_reset (c : EMCasualPartition) : EMCasualPartition :=
  mkCP (hi_val c) (lo_val c) (incSeqNum (sequenceNum c)) CP_INVALID.

Definition changeCP (i : Z) (f : EMCasualPartition -> EMCasualPartition) : prog em_obj unit :=
  changeEM i (fun e => set_cp (f (cprange e)) e).

Definition _markInvalid (lbid : Z) (t : ColDataType) : prog em_obj unit :=
  r ← reading (fun o => find_em (has_lbid lbid) (image o));
  match r with
  | Some (i, _) => changeCP i (cp_invalidated t)
  | None => throw LogicError
  end.

Definition markInvalid (lbid : Z) (t : ColDataType) : prog extent_map unit :=
  grabEMEntryTable WRITE;; on_image (_markInvalid lbid t).

(** [catch (std::exception &e)] around each element. *)
Definition catch_all {S} (p : prog S unit) : prog S unit := fun s =>
  match p s with
  | (Throw _, s') => (Ret tt, s')
  | r => r
  end.

Definition markInvalid_all (lbids : list (Z * ColDataType)) : prog extent_map unit :=
  grabEMEntryTable WRITE;;
  on_image (for_each lbids (fun '(lbid, t) => catch_all (_markInvalid lbid t))).

(** The three cases of [setMaxMin] for the extent it found. *)
Definition setMaxMin_at (i : Z) (e : EMEntry) (max min seqNum : Z) : prog em_obj unit :=
  if decide (sequenceNum (cprange e) = seqNum) then changeCP i (cp_assigned max min CP_VALID)
  else if decide (seqNum = -1) then changeCP i cp_reset
  else mret tt.

Definition setMaxMin (lbid max min seqNum : Z) : prog extent_map unit :=
  grabEMEntryTable WRITE;;
  r ← reading (fun s => find_em (has_lbid lbid) (image (em_und s)));
  match r with
  | Some (i, e) => on_image (setMaxMin_at i e max min seqNum)
  | None => releaseEMEntryTable WRITE;; throw LogicError
  end.

Record CPMaxMin := mkMaxMin { mm_max : Z; mm_min : Z; mm_seqNum : Z }.

Definition setExtent_at (i : Z) (e : EMEntry) (v : CPMaxMin) : prog em_obj unit :=
  if decide (sequenceNum (cprange e) = mm_seqNum v /\ isValid (cprange e) = CP_INVALID) then
    changeCP i (cp_assigned (mm_max v) (mm_min v) CP_VALID)
  else if decide (mm_seqNum v = -1) then changeCP i cp_reset
  else if decide (mm_seqNum v = -2) then
    changeCP i (cp_assigned (mm_max v) (mm_min v) CP_INVALID)
  else mret tt.

(** The loop of [setExtentsMaxMin]; [todo] is [extentsToUpdate - extentsUpdated]. *)
Fixpoint setExtents_loop (is_ : list Z) (cpMap : gmap Z CPMaxMin) (todo : Z) : prog em_obj unit :=
  match is_ with
  | [] => throw LogicError
  | i :: is' =>
      e ← rdEM i;
      match (if in_use e then cpMap !! start (range e) else None) with
      | Some v =>
          setExtent_at i e v;;
          if decide (todo - 1 = 0) then mret tt else setExtents_loop is' cpMap (todo - 1)
      | None => setExtents_loop is' cpMap todo
      end
  end.

Definition setExtentsMaxMin (cpMap : gmap Z CPMaxMin) (useLock : bool) : prog extent_map unit :=
  (if useLock then grabEMEntryTable WRITE else mret tt);;
  n ← gets (fun s => emEntries (image (em_und s)));
  on_image (setExtents_loop (seqZ 0 n) cpMap (Z.of_nat (base.size cpMap))).

Definition isValidCPRange (max min : Z) (t : ColDataType) : bool :=
  if isUnsigned t then
    negb (bool_decide (u64 min >= uint64_max - 1) || bool_decide (u64 max >= uint64_max - 1))
  else negb (bool_decide (min <= int64_min + 1) || bool_decide (max <= int64_min + 1)).

(** [uint64ToStr]: the bytes in the opposite order (dataconvert.h). *)
Definition uint64ToStr (n : Z) : Z := of_le (rev (le_bytes 8 n)).

(** The order in which two values are compared. *)
Definition cp_key (t : ColDataType) (v : Z) : Z :=
  if isCharType t then s64 (uint64ToStr (u64 v)) else if isUnsigned t then u64 v else v.

Record CPMaxMinMerge := mkMerge {
  mg_max : Z; mg_min : Z; mg_seqNum : Z; mg_type : ColDataType; mg_newExtent : bool;
}.

Definition cp_merged (v : CPMaxMinMerge) (c : EMCasualPartition) : EMCasualPartition :=
  let key := cp_key (mg_type v) in
  let '(lo, hi) :=
    if isValidCPRange (hi_val c) (lo_val c) (mg_type v) then
      (if decide (key (mg_min v) < key (lo_val c)) then mg_min v else lo_val c,
       if decide (key (mg_max v) > key (hi_val c)) then mg_max v else hi_val c)
    else (mg_min v, mg_max v) in
  mkCP hi lo (incSeqNum (sequenceNum c)) (isValid c).

Definition cp_new (v : CPMaxMinMerge) (c : EMCasualPartition) : EMCasualPartition :=
  if mg_newExtent v then
    let '(lo, hi) := if isValidCPRange (mg_max v) (mg_min v) (mg_type v)
                     then (mg_min v, mg_max v) else (lo_val c, hi_val c) in
    mkCP hi lo (incSeqNum (sequenceNum c)) CP_VALID
  else mkCP (hi_val c) (lo_val c) (incSeqNum (sequenceNum c)) (isValid c).

Definition mergeExtent_at (i : Z) (e : EMEntry) (v : CPMaxMinMerge) : prog em_obj unit :=
  if decide (isValid (cprange e) = CP_VALID) then
    if isValidCPRange (mg_max v) (mg_min v) (mg_type v) then changeCP i (cp_merged v)
    else mret tt
  else if decide (isValid (cprange e) = CP_UPDATING) then
    changeCP i (fun c => mkCP (hi_val c) (lo_val c) (incSeqNum (sequenceNum c)) (isValid c))
  else changeCP i (cp_new v).

Fixpoint mergeExtents_loop (is_ : list Z) (cpMap : gmap Z CPMaxMinMerge) (todo : Z)
    : prog em_obj unit :=
  match is_ with
  | [] => throw LogicError
  | i :: is' =>
      e ← rdEM i;
      match (if in_use e then cpMap !! start (range e) else None) with
      | Some v =>
          mergeExtent_at i e v;;
          if decide (todo - 1 = 0) then mret tt
          else mergeExtents_loop is' (delete (start (range e)) cpMap) (todo - 1)
      | None => mergeExtents_loop is' cpMap todo
      end
  end.

Definition mergeExtentsMaxMin (cpMap : gmap Z CPMaxMinMerge) (useLock : bool)
    : prog extent_map unit :=
  (if useLock then grabEMEntryTable WRITE else mret tt);;
  n ← gets (fun s => emEntries (image (em_und s)));
  on_image (mergeExtents_loop (seqZ 0 n) cpMap (Z.of_nat (base.size cpMap))).

(** [getMaxMin]: the state, and [max], [min], [seqNum]. *)
Definition getMaxMin (m : em_image) (lbid : Z) : res (Z * Z * Z * Z) :=
  r ← find_em (has_lbid lbid) m;
  match r with
  | Some (_, e) =>
      let c := cprange e in Ret (isValid c, hi_val c, lo_val c, sequenceNum c)
  | None => Throw LogicError
  end.
