(* ===== verification/ExtentAlloc.v ===== *)
(** * Creating and deleting extents: src/versioning/BRM/extentmap.cpp

    The part of the extent map that moves LBID ranges between the free list
    and the extents: the creation of column and dictionary store extents, the
    deletion of extents and the roll backs made of it, the consistency check,
    and the image on disk.  [filesPerColumnPartition], [extentsPerSegmentFile]
    and [DbRootCount] come from the configuration. *)
From Stdlib Require Import ZArith Lia.
From S2P Require Import Prelude Bytes Undoable BrmTypes CopyLocks ExtentMap.

Local Open Scope Z_scope.

(** [BLOCK_SIZE] is 8192 bytes; [getExtentRows()] is fixed to 8M. *)
Definition EM_BLOCK_SIZE : Z := 8192.
Definition ExtentRows : Z := 0x800000.
Definition DICT_COL_WIDTH : Z := 8.

(** [(getExtentRows() * colWidth) / BLOCK_SIZE], in [unsigned]. *)
Definition EXTENT_SIZE (colWidth : Z) : Z := u32 (ExtentRows * colWidth) / EM_BLOCK_SIZE.

(** ** The free list *)

Definition getLBIDsFromFreeList (n : Z) : prog em_obj Z :=
  m ← gets image;
  r ← reading (fun _ => find_index (fun r => n <=? size r) (fFreeList m) (seqZ 0 (flEntries m)));
  match r with
  | Some (i, r) =>
      makeUndoRecord [CFL i];;
      let ret := start r in
      let r' := mkInline (start r + u32 (n * 1024)) (u32 (size r - n)) in
      wrFL i r';;
      (if decide (size r' = 0) then makeUndoRecord [CFLInfo];; addFLSize (- sizeof_Inline)
       else mret tt);;
      mret ret
  | None => throw RuntimeError
  end.

(** Taking a range out of the free list entry it lies in, at the front, the
    back or in the middle; [freeIndex] is the first unused entry seen. *)
Definition reserve_middle (i freeIndex : Z) (r : InlineLBIDRange) (st n : Z) : prog em_obj unit :=
  m ← gets image;
  freeIndex ←
    (if decide (freeIndex = -1) then
       if decide (currentSize (fFLShminfo m) = allocdSize (fFLShminfo m)) then
         growFLShmseg;; mret (flEntries m)
       else
         x ← reading (fun _ => find_index (fun r => size r =? 0) (fFreeList m)
                                 (seqZ (i + 1) (flEntries m - (i + 1))));
         mret (match x with Some (j, _) => j | None => flEntries m end)
     else mret freeIndex);
  let lastLBID := st + n * 1024 - 1 in
  makeUndoRecord [CFL i];; makeUndoRecord [CFL freeIndex];; makeUndoRecord [CFLInfo];;
  wrFL i (mkInline (start r) (u32 (Z.quot (st - start r) 1024)));;
  wrFL freeIndex (mkInline (st + n * 1024) (u32 (Z.quot (lastBlock r - lastLBID) 1024)));;
  addFLSize sizeof_Inline.

Fixpoint reserve_loop (is_ : list Z) (freeIndex st n : Z) : prog em_obj unit :=
  match is_ with
  | [] => mret tt
  | i :: is' =>
      r ← rdFL i;
      if decide (size r = 0) then
        reserve_loop is' (if decide (freeIndex = -1) then i else freeIndex) st n
      else
        let lastLBID := st + n * 1024 - 1 in
        let shrink r' :=
          makeUndoRecord [CFL i];; wrFL i r';;
          if decide (size r' = 0) then makeUndoRecord [CFLInfo];; addFLSize (- sizeof_Inline)
          else mret tt in
        if decide (st = start r) then
          shrink (mkInline (start r + n * 1024) (u32 (size r - n)))
        else if decide (lastBlock r = lastLBID) then
          shrink (mkInline (start r) (u32 (size r - n)))
        else if decide (start r < st /\ lastBlock r > lastLBID) then
          reserve_middle i freeIndex r st n
        else reserve_loop is' freeIndex st n
  end.

(** The size is an [uint8_t]. *)
Definition reserveLBIDRange (st n : Z) : prog em_obj unit :=
  fl ← gets (fun o => flEntries (image o));
  reserve_loop (seqZ 0 fl) (-1) st (u8 n).

(** Where a range fits into the free list: the last entries that precede and
    follow it, and the last unused one. *)
Record fl_place := mkPlace { preceeding : Z; succeeding : Z; freeFL : Z }.

Definition place_step (em : InlineLBIDRange) (p : fl_place) (i : Z) (r : InlineLBIDRange)
    : fl_place :=
  if decide (size r = 0) then mkPlace (preceeding p) (succeeding p) i
  else if decide (start em + size em * 1024 = start r) then mkPlace (preceeding p) i (freeFL p)
  else if decide (start r + size r * 1024 = start em) then mkPlace i (succeeding p) (freeFL p)
  else p.

(** Move entry [i] to the unused entry [f] when that is lower. *)
Definition migrate (i f : Z) : prog em_obj Z :=
  if decide (f < i /\ f <> -1) then
    makeUndoRecord [CFL f];;
    r ← rdFL i; wrFL f r;; wrFL i (mkInline (start r) 0);;
    mret f
  else mret i.

(** [fFreeList[i].size += n] *)
Definition grow_range (i n : Z) : prog em_obj unit :=
  r ← rdFL i; wrFL i (mkInline (start r) (u32 (size r + n))).

(** The two records of the last lines save the members [fFLShminfo] and
    [fEMShminfo] themselves: [makeUndoRecord(&fEMShminfo, sizeof(MSTEntry))]. *)
Definition deleteExtent (emIndex : Z) : prog em_obj unit :=
  m ← gets image;
  e ← rdEM emIndex;
  let em := range e in
  p ← reading (fun _ =>
        scan (place_step em) (fFreeList m) (seqZ 0 (flEntries m)) (mkPlace (-1) (-1) (-1)));
  (if decide (preceeding p <> -1 /\ succeeding p <> -1) then
     makeUndoRecord [CFL (preceeding p)];;
     i ← migrate (preceeding p) (freeFL p);
     s ← rdFL (succeeding p);
     grow_range i (u32 (size s + size em));;
     makeUndoRecord [CFL (succeeding p)];;
     wrFL (succeeding p) (mkInline (start s) 0);;
     makeUndoRecord [CFLInfo];; addFLSize (- sizeof_Inline)
   else if decide (succeeding p <> -1) then
     makeUndoRecord [CFL (succeeding p)];;
     i ← migrate (succeeding p) (freeFL p);
     r ← rdFL i; wrFL i (mkInline (start em) (size r));;
     grow_range i (size em)
   else if decide (preceeding p <> -1) then
     makeUndoRecord [CFL (preceeding p)];;
     i ← migrate (preceeding p) (freeFL p);
     grow_range i (size em)
   else
     f ← (if decide (currentSize (fFLShminfo m) = allocdSize (fFLShminfo m)) then
            growFLShmseg;; mret (flEntries m)
          else mret (freeFL p));
     makeUndoRecord [CFL f];;
     wrFL f em;;
     makeUndoRecord [CMembers];; addFLSize sizeof_Inline);;
  changeEM emIndex (set_size 0);;
  makeUndoRecord [CMembers];; addEMSize (- sizeof_EMEntry).

(** ** Creating extents *)

(** A segment file and its place in a new entry. *)
Record place := mkFilePlace { pl_part : Z; pl_seg : Z; pl_off : Z }.

(** The entry of a new extent. *)
Definition new_extent (lbid n OID colWidth : Z) (dbRoot : DBROOTS_struct) (p : place) (valid : Z)
    (t : ColDataType) : EMEntry :=
  mkEM (mkInline lbid n) OID (pl_off p) dbRoot 0 (pl_part p) (pl_seg p) (u16 colWidth)
    EXTENTUNAVAILABLE (mkCP (empty_hi t) (empty_lo t) 0 valid).

(** The first extent of a table is empty, so its range is known. *)
Definition first_valid (p : place) : Z :=
  if decide (pl_part p = 0 /\ pl_seg p = 0 /\ pl_off p = 0) then CP_VALID else CP_INVALID.

(** [makeUndoRecord(e); *e = ...; makeUndoRecord(fEMShminfo); currentSize += ...] *)
Definition add_extent (i : Z) (f : EMEntry -> EMEntry) : prog em_obj unit :=
  changeEM i f;; makeUndoRecord [CEMInfo];; addEMSize sizeof_EMEntry.

Section Create.
Context (FILES_PER_COL_PART EXTENTS_PER_SEGFILE DBROOT_COUNT : Z).

(** First step: the last extent of the OID on the DBRoot, the first unused
    entry, the highest segment of the asked partition. *)
Record scan1 := mkScan1 {
  emptyEMEntry : Z; lastExtentIndex : Z;
  highestPartNum : Z; highestOffset : Z; highestSegNum : Z;
  highEmptySegNum : Z; bHighEmptySegNumSet : bool;
}.

(** Is <partition, offset, segment> at or after another? *)
Definition not_before (part off seg part' off' seg' : Z) : bool :=
  bool_decide (part > part')
  || (bool_decide (part = part') && bool_decide (off > off'))
  || (bool_decide (part = part') && bool_decide (off = off') && bool_decide (seg >= seg')).

Definition scan1_step (OID : Z) (dbRoot : DBROOTS_struct) (part : Z) (a : scan1) (i : Z)
    (e : EMEntry) : scan1 :=
  if in_use e then
    if decide (fileID e = OID) then
      let a :=
        if roots_eqb (em_dbRoots e) dbRoot
           && not_before (partitionNum e) (blockOffset e) (segmentNum e)
                (highestPartNum a) (highestOffset a) (highestSegNum a)
        then mkScan1 (emptyEMEntry a) i (partitionNum e) (blockOffset e) (segmentNum e)
               (highEmptySegNum a) (bHighEmptySegNumSet a)
        else a in
      if bool_decide (lastExtentIndex a = -1) && bool_decide (partitionNum e = part)
         && (bool_decide (segmentNum e > highEmptySegNum a) || negb (bHighEmptySegNumSet a))
      then mkScan1 (emptyEMEntry a) (lastExtentIndex a) (highestPartNum a) (highestOffset a)
             (highestSegNum a) (segmentNum e) true
      else a
    else a
  else if decide (emptyEMEntry a < 0) then
    mkScan1 i (lastExtentIndex a) (highestPartNum a) (highestOffset a) (highestSegNum a)
      (highEmptySegNum a) (bHighEmptySegNumSet a)
  else a.

(** Second step: the segment files of the last partition on the DBRoot with
    their highest offsets, and the highest segments of it and the next. *)
Record scan2 := mkScan2 {
  bSegsOutOfService : bool; partHighSeg : Z; partHighSegNext : Z;
  targetDbRootSegs : gmap Z Z;
}.

Definition scan2_step (OID : Z) (dbRoot : DBROOTS_struct) (targetPart : Z) (a : scan2) (_ : Z)
    (e : EMEntry) : scan2 :=
  if in_use e && bool_decide (fileID e = OID) then
    if decide (partitionNum e = u32 (targetPart + 1)) then
      mkScan2 (bSegsOutOfService a) (partHighSeg a)
        (Z.max (segmentNum e) (partHighSegNext a)) (targetDbRootSegs a)
    else if decide (partitionNum e = targetPart) then
      let high := Z.max (segmentNum e) (partHighSeg a) in
      if roots_eqb (em_dbRoots e) dbRoot then
        let off := match targetDbRootSegs a !! segmentNum e with
                   | Some o => Z.max (blockOffset e) o
                   | None => blockOffset e
                   end in
        mkScan2 (bSegsOutOfService a || bool_decide (status e = EXTENTOUTOFSERVICE)) high
          (partHighSegNext a) (<[segmentNum e := off]> (targetDbRootSegs a))
      else mkScan2 (bSegsOutOfService a) high (partHighSegNext a) (targetDbRootSegs a)
    else a
  else a.

(** Third step: the first, last and next segment files of the target; the
    result does not depend on the order in which the map is walked. *)
Definition segs_step (seg : Z) (a : Z * Z * option Z) (targetSeg : Z) : Z * Z * option Z :=
  let '(first, last, next) := a in
  let '(first, last) :=
    if decide (targetSeg < first) then (targetSeg, last)
    else if decide (targetSeg > last) then (first, targetSeg) else (first, last) in
  let next :=
    if decide (targetSeg > seg) then
      match next with
      | None => Some targetSeg
      | Some n => if decide (targetSeg < n) then Some targetSeg else next
      end
    else next in
  (first, last, next).

(** [if (targetDbRootSegs.size() > 1)]: otherwise the only file is [seg]. *)
Definition target_segs (seg : Z) (segs : gmap Z Z) : Z * Z * Z :=
  if decide (1 < base.size segs)%nat then
    let '(first, last, next) :=
      foldl (segs_step seg) (seg, seg, None) (fst <$> map_to_list segs) in
    (first, last, default seg next)
  else (seg, seg, seg).

Definition next_place (colWidth : Z) (last : EMEntry) (b : scan2) : place :=
  let filesPerDBRootPerPartition := FILES_PER_COL_PART / DBROOT_COUNT in
  let segs := targetDbRootSegs b in
  let nsegs := Z.of_nat (base.size segs) in
  let '(firstTargetSeg, lastTargetSeg, nextTargetSeg) := target_segs (segmentNum last) segs in
  let startNewPartition :=
    if bSegsOutOfService b then true
    else bool_decide (nsegs < filesPerDBRootPerPartition)
         && existsb (fun o => 0 <? o) (snd <$> map_to_list segs) in
  (* the segment, a new partition, a new stripe *)
  let '(newSeg, newPart, newStripe) :=
    if startNewPartition : bool then (0, true, false)
    else if decide (nsegs >= filesPerDBRootPerPartition) then
      if decide (segmentNum last = lastTargetSeg) then
        if decide (blockOffset last
                   = u32 (u32 (EXTENTS_PER_SEGFILE - 1)
                          * (u32 (ExtentRows * colWidth) / EM_BLOCK_SIZE)))
        then (0, true, false)
        else (firstTargetSeg, false, true)
      else (nextTargetSeg, false, false)
    else (u16 (partHighSeg b + 1), false, false) in
  if newPart : bool then
    mkFilePlace (u32 (partitionNum last + 1))
      (if decide (partHighSegNext b = -1) then 0 else u16 (partHighSegNext b + 1)) 0
  else
    let off :=
      if decide (blockOffset last = 0 /\ newSeg > firstTargetSeg) then 0
      else if newStripe : bool then u32 (size (range last) * 1024 + blockOffset last)
      else blockOffset last in
    mkFilePlace (partitionNum last) newSeg off.

(** The new extent, with the partition and segment it got. *)
Definition _createColumnExtent_DBroot (n OID colWidth : Z) (dbRoot : DBROOTS_struct)
    (t : ColDataType) (part : Z) : prog em_obj (Z * place) :=
  m ← gets image;
  startLBID ← getLBIDsFromFreeList n;
  m ← gets image;
  a ← reading (fun _ =>
        scan (scan1_step OID dbRoot part) (fExtentMap m) (seqZ 0 (emEntries m))
          (mkScan1 (-1) (-1) 0 0 0 0 false));
  if decide (emptyEMEntry a = -1) then throw LogicError
  else
    p ← (if decide (lastExtentIndex a >= 0) then
           last ← rdEM (lastExtentIndex a);
           b ← reading (fun _ =>
                 scan (scan2_step OID dbRoot (partitionNum last)) (fExtentMap m)
                   (seqZ 0 (emEntries m))
                   (mkScan2 false (segmentNum last) (-1)
                      {[segmentNum last := blockOffset last]}));
           if decide (DBROOT_COUNT = 0) then undefined DivisionByZero
           else mret (next_place colWidth last b)
         else
           mret (mkFilePlace part
                   (if bHighEmptySegNumSet a then u16 (highEmptySegNum a + 1) else 0) 0));
    add_extent (emptyEMEntry a)
      (fun _ => new_extent startLBID n OID colWidth dbRoot p (first_valid p) t);;
    mret (startLBID, p).

(** Room for one more extent. *)
Definition make_room : prog em_obj unit :=
  m ← gets image;
  if decide (currentSize (fEMShminfo m) = allocdSize (fEMShminfo m)) then growEMShmseg 0
  else mret tt.

Definition create_DBroot (OID colWidth : Z) (dbRoot : DBROOTS_struct) (t : ColDataType)
    (part : Z) : prog em_obj (Z * Z * place) :=
  make_room;;
  '(lbid, p) ← _createColumnExtent_DBroot (EXTENT_SIZE colWidth / 1024) OID colWidth dbRoot t part;
  mret (lbid, EXTENT_SIZE colWidth, p).

(** [createColumnExtent_DBroot]: LBID, number of blocks, place. *)
Definition createColumnExtent_DBroot (OID colWidth : Z) (dbRoot : DBROOTS_struct)
    (t : ColDataType) (part : Z) (useLock : bool) : prog extent_map (Z * Z * place) :=
  (if useLock then grabEMEntryTable WRITE;; grabFreeList WRITE else mret tt);;
  on_image (create_DBroot OID colWidth dbRoot t part).

Record StripeArg := mkStripeArg { sa_oid : Z; sa_width : Z; sa_type : ColDataType }.

(** The loop of [createStripeColumnExtents]: every column must get the
    partition and segment of the first. *)
Fixpoint stripe_loop (cols : list StripeArg) (dbRoot : DBROOTS_struct) (part : Z)
    (base : option (Z * Z)) : prog extent_map (list (Z * Z * Z) * Z * Z) :=
  match cols with
  | [] => mret ([], part, default 0 (snd <$> base))
  | c :: cols' =>
      '(lbid, n, p) ←
        createColumnExtent_DBroot (sa_oid c) (sa_width c) dbRoot (sa_type c) part false;
      let base' := default (pl_part p, pl_seg p) base in
      if decide (pl_seg p <> base'.2 \/ pl_part p <> base'.1) then throw InvalidArgument
      else
        '(l, part', seg') ← stripe_loop cols' dbRoot (pl_part p) (Some base');
        mret ((lbid, n, pl_off p) :: l, part', seg')
  end.

Definition createStripeColumnExtents (cols : list StripeArg) (dbRoot : DBROOTS_struct)
    (part : Z) : prog extent_map (list (Z * Z * Z) * Z * Z) :=
  grabEMEntryTable WRITE;; grabFreeList WRITE;;
  stripe_loop cols dbRoot part None.

End Create.

(** The scan for the last extent of one segment file. *)
Record scan3 := mkScan3 { s3_empty : Z; s3_last : Z; s3_off : Z }.
Definition scan3_step (P : EMEntry -> bool) (a : scan3) (i : Z) (e : EMEntry) : scan3 :=
  if in_use e then
    if P e && bool_decide (blockOffset e >= s3_off a) then mkScan3 (s3_empty a) i (blockOffset e)
    else a
  else if decide (s3_empty a < 0) then mkScan3 i (s3_last a) (s3_off a) else a.

(** The offset after an extent. *)
Definition off_after (e : EMEntry) : Z := u32 (size (range e) * 1024 + blockOffset e).

Definition _createColumnExtentExactFile (n OID colWidth : Z) (dbRoot : DBROOTS_struct)
    (part seg : Z) (t : ColDataType) : prog em_obj (Z * Z) :=
  startLBID ← getLBIDsFromFreeList n;
  m ← gets image;
  a ← reading (fun _ => scan (scan3_step (fun e =>
          bool_decide (fileID e = OID)
          && bool_decide (roots_master (em_dbRoots e) = roots_master dbRoot)
          && bool_decide (partitionNum e = part) && bool_decide (segmentNum e = seg)))
        (fExtentMap m) (seqZ 0 (emEntries m)) (mkScan3 (-1) (-1) 0));
  if decide (s3_empty a = -1) then throw LogicError
  else
    off ← (if decide (s3_last a = -1) then mret 0
           else last ← rdEM (s3_last a); mret (off_after last));
    let p := mkFilePlace part seg off in
    add_extent (s3_empty a)
      (fun _ => new_extent startLBID n OID colWidth dbRoot p (first_valid p) t);;
    mret (startLBID, off).

Definition create_exact (OID colWidth : Z) (dbRoot : DBROOTS_struct) (part seg : Z)
    (t : ColDataType) : prog em_obj (Z * Z * Z) :=
  make_room;;
  '(lbid, off) ←
    _createColumnExtentExactFile (EXTENT_SIZE colWidth / 1024) OID colWidth dbRoot part seg t;
  mret (lbid, EXTENT_SIZE colWidth, off).

Definition createColumnExtentExactFile (OID colWidth : Z) (dbRoot : DBROOTS_struct)
    (part seg : Z) (t : ColDataType) : prog extent_map (Z * Z * Z) :=
  grabEMEntryTable WRITE;; grabFreeList WRITE;;
  on_image (create_exact OID colWidth dbRoot part seg t).

(** A dictionary extent that follows another takes over the first DBRoot
    only; the others stay as they are in the reused entry. *)
Definition new_dict_extent (lbid n OID : Z) (dbRoot : DBROOTS_struct) (part seg : Z)
    (last : option EMEntry) (old : EMEntry) : EMEntry :=
  let cp := mkCP int64_min int64_max 0 CP_INVALID in
  match last with
  | None => mkEM (mkInline lbid n) OID 0 dbRoot 0 part seg 0 EXTENTUNAVAILABLE cp
  | Some l =>
      let roots := mkRoots (<[0%nat := roots_master (em_dbRoots l)]> (dbRoots (em_dbRoots old))) in
      mkEM (mkInline lbid n) OID (off_after l) roots 0 (partitionNum l) (segmentNum l) (colWid l)
        EXTENTUNAVAILABLE cp
  end.

Definition _createDictStoreExtent (n OID : Z) (dbRoot : DBROOTS_struct) (part seg : Z)
    : prog em_obj Z :=
  startLBID ← getLBIDsFromFreeList n;
  m ← gets image;
  a ← reading (fun _ => scan (scan3_step (fun e =>
          bool_decide (fileID e = OID) && bool_decide (partitionNum e = part)
          && bool_decide (segmentNum e = seg)))
        (fExtentMap m) (seqZ 0 (emEntries m)) (mkScan3 (-1) (-1) 0));
  if decide (s3_empty a = -1) then throw LogicError
  else
    last ← (if decide (s3_last a = -1) then mret None
            else l ← rdEM (s3_last a); mret (Some l));
    add_extent (s3_empty a) (new_dict_extent startLBID n OID dbRoot part seg last);;
    mret startLBID.

Definition create_dict (OID : Z) (dbRoot : DBROOTS_struct) (part seg : Z) : prog em_obj (Z * Z) :=
  make_room;;
  lbid ← _createDictStoreExtent (EXTENT_SIZE DICT_COL_WIDTH / 1024) OID dbRoot part seg;
  mret (lbid, EXTENT_SIZE DICT_COL_WIDTH).

Definition createDictStoreExtent (OID : Z) (dbRoot : DBROOTS_struct) (part seg : Z)
    : prog extent_map (Z * Z) :=
  grabEMEntryTable WRITE;; grabFreeList WRITE;; on_image (create_dict OID dbRoot part seg).
