(* ===== verification/ExtentProofs.v ===== *)
(** * The extents and the free list partition the LBID space

    The invariant of the extent map: every logical block id belongs to
    exactly one range, an extent's or one of the free list ([em_wf]).  The
    file proves that creating and deleting extents keep it and change the
    extents as they should. *)
From Stdlib Require Import ZArith Lia.
From S2P Require Import Prelude Bytes Undoable BrmTypes CopyLocks ExtentMap ExtentAlloc.

Local Open Scope Z_scope.

(** ** The invariant *)

Definition covers (b : Z) (r : InlineLBIDRange) : Prop :=
  start r <= b < start r + size r * 1024.
#[global] Instance covers_dec b r : Decision (covers b r).
Proof. unfold covers. apply _. Defined.

(** 1 when the block is in the range; 1 when the range is in use. *)
Definition cov (b : Z) (r : InlineLBIDRange) : Z := if decide (covers b r) then 1 else 0.
Definition used (r : InlineLBIDRange) : Z := if decide (size r = 0) then 0 else 1.
Definition cov_em (b : Z) (e : EMEntry) : Z := cov b (range e).
Definition used_em (e : EMEntry) : Z := used (range e).

(** The LBID space, in blocks. *)
Definition SPACE : Z := MAX_LBID_SIZE * 1024.
Definition in_space (b : Z) : Z := if decide (0 <= b < SPACE) then 1 else 0.

(** A range has 32-bit size and, when it is in use, an aligned start. *)
Definition range_ok (r : InlineLBIDRange) : Prop :=
  0 <= size r < 2 ^ 32 /\ (size r <> 0 -> start r mod 1024 = 0).

(** An account of the two arrays: [D b] is how often the block [b] is missing,
    [df] and [de] are what the recorded sizes are off by. *)
Record em_acc (D : Z -> Z) (df de : Z) (m : em_image) : Prop := {
  ew_em_alloc : allocdSize (fEMShminfo m) = sizeof_EMEntry * Z.of_nat (length (fExtentMap m));
  ew_fl_alloc : allocdSize (fFLShminfo m) = sizeof_Inline * Z.of_nat (length (fFreeList m));
  ew_em_size : currentSize (fEMShminfo m) = sizeof_EMEntry * total used_em (fExtentMap m) + de;
  ew_fl_size : currentSize (fFLShminfo m) = sizeof_Inline * total used (fFreeList m) + df;
  ew_em_ranges : Forall (fun e => range_ok (range e)) (fExtentMap m);
  ew_fl_ranges : Forall range_ok (fFreeList m);
  ew_cover b : total (cov_em b) (fExtentMap m) + total (cov b) (fFreeList m) + D b = in_space b;
}.

(** The invariant: nothing is missing. *)
Definition em_wf (m : em_image) : Prop := em_acc (fun _ => 0) 0 0 m.

(** Both segments are mapped. *)
Record em_mapped (m : em_image) : Prop := {
  emp_em : fPExtMapImpl m = true;
  emp_fl : fPFreeListImpl m = true;
  emp_emkey : emShmkey m = tableShmkey (fEMShminfo m);
  emp_flkey : flShmkey m = tableShmkey (fFLShminfo m);
}.

(** Room for the segments to grow [k] times without overflow. *)
Definition em_room (k : Z) (m : em_image) : Prop :=
  sizeof_EMEntry * Z.of_nat (length (fExtentMap m)) + k * EM_INCREMENT < 2 ^ 31 /\
  sizeof_Inline * Z.of_nat (length (fFreeList m)) + k * EM_FREELIST_INCREMENT < 2 ^ 31 /\
  (0 < length (fExtentMap m))%nat /\ (0 < length (fFreeList m))%nat.

(** ** Arithmetic of ranges *)

Ltac cov_solve :=
  unfold cov_em, cov, used_em, used, covers in *; cbn [start size range] in *;
  repeat case_decide; lia.

Lemma cov_nonneg b r : 0 <= cov b r.
Proof. cov_solve. Qed.
Lemma cov_em_nonneg b e : 0 <= cov_em b e.
Proof. cov_solve. Qed.
Lemma used_bound r : 0 <= used r <= 1.
Proof. cov_solve. Qed.
Lemma used_em_bound e : 0 <= used_em e <= 1.
Proof. cov_solve. Qed.
Lemma cov_in b r : covers b r -> cov b r = 1.
Proof. intros H. unfold cov. by rewrite decide_True. Qed.
Lemma cov_unused b r : size r = 0 -> cov b r = 0.
Proof. cov_solve. Qed.
Lemma cov_free b : cov b free_range = 0.
Proof. by apply cov_unused. Qed.
Lemma in_space_bound b : 0 <= in_space b <= 1.
Proof. unfold in_space. case_decide; lia. Qed.

#[global] Arguments cov : simpl never.
#[global] Arguments used : simpl never.
#[global] Arguments in_space : simpl never.

Lemma emEntries_acc D df de m : em_acc D df de m -> emEntries m = Z.of_nat (length (fExtentMap m)).
Proof.
  intros Hwf. unfold emEntries. rewrite (ew_em_alloc _ _ _ _ Hwf), Z.mul_comm. by apply Z.div_mul.
Qed.
Lemma flEntries_acc D df de m : em_acc D df de m -> flEntries m = Z.of_nat (length (fFreeList m)).
Proof.
  intros Hwf. unfold flEntries. rewrite (ew_fl_alloc _ _ _ _ Hwf), Z.mul_comm. by apply Z.div_mul.
Qed.

(** How updates change the account. *)
Section Account.
Context (D : Z -> Z) (df de : Z) (m : em_image) (Hacc : em_acc D df de m).

Lemma acc_ext D' df' de' : (forall b, D b = D' b) -> df = df' -> de = de' -> em_acc D' df' de' m.
Proof.
  intros HD <- <-. destruct Hacc. split; try done. intros b. rewrite <- HD. done.
Qed.

Lemma acc_fl i r r' : fFreeList m !! i = Some r -> range_ok r' ->
  em_acc (fun b => D b + cov b r - cov b r') (df + sizeof_Inline * (used r - used r')) de
    (with_fl (<[i := r']> (fFreeList m)) m).
Proof.
  intros Hi Hr. destruct Hacc as [A1 A2 A3 A4 A5 A6 A7]. split; cbn; try done.
  - by rewrite length_insert.
  - rewrite (total_insert _ _ _ _ _ Hi). lia.
  - by apply Forall_insert.
  - intros b. rewrite (total_insert _ _ _ _ _ Hi). specialize (A7 b). lia.
Qed.

Lemma acc_em i e e' : fExtentMap m !! i = Some e -> range_ok (range e') ->
  em_acc (fun b => D b + cov b (range e) - cov b (range e')) df
    (de + sizeof_EMEntry * (used (range e) - used (range e')))
    (with_em (<[i := e']> (fExtentMap m)) m).
Proof.
  intros Hi Hr. destruct Hacc as [A1 A2 A3 A4 A5 A6 A7]. split; cbn; try done.
  - by rewrite length_insert.
  - rewrite (total_insert _ _ _ _ _ Hi). unfold used_em in *. lia.
  - by apply Forall_insert.
  - intros b. rewrite (total_insert _ _ _ _ _ Hi). specialize (A7 b). unfold cov_em in *. lia.
Qed.

Lemma acc_fl_info n : em_acc D (df + n) de (with_flInfo (add_size n (fFLShminfo m)) m).
Proof. destruct Hacc. split; cbn; try done. lia. Qed.
Lemma acc_em_info n : em_acc D df (de + n) (with_emInfo (add_size n (fEMShminfo m)) m).
Proof. destruct Hacc. split; cbn; try done. lia. Qed.
End Account.

Section Facts.
Context (m : em_image) (Hwf : em_wf m).

Lemma emEntries_wf : emEntries m = Z.of_nat (length (fExtentMap m)).
Proof. by eapply emEntries_acc. Qed.
Lemma flEntries_wf : flEntries m = Z.of_nat (length (fFreeList m)).
Proof. by eapply flEntries_acc. Qed.

Lemma find_em_wf P :
  find_em P m = Ret (prod_map Z.of_nat id <$> list_find (fun e => P e = true) (fExtentMap m)).
Proof. unfold find_em. apply find_index_all, emEntries_wf. Qed.

Lemma em_range_ok i e : fExtentMap m !! i = Some e -> range_ok (range e).
Proof. intros H. by apply (Forall_lookup_1 _ _ _ _ (ew_em_ranges _ _ _ _ Hwf) H). Qed.
Lemma fl_range_ok i r : fFreeList m !! i = Some r -> range_ok r.
Proof. intros H. by apply (Forall_lookup_1 _ _ _ _ (ew_fl_ranges _ _ _ _ Hwf) H). Qed.

Lemma wf_cover b :
  total (cov_em b) (fExtentMap m) + total (cov b) (fFreeList m) = in_space b.
Proof. pose proof (ew_cover _ _ _ _ Hwf b) as H. cbv beta in H. lia. Qed.

(** A block covered by an extent is in the space, and by nothing else. *)
Lemma cover_em_fl b i e : fExtentMap m !! i = Some e -> covers b (range e) ->
  0 <= b < SPACE /\ total (cov b) (fFreeList m) = 0.
Proof.
  intros Hi Hb. pose proof (wf_cover b) as Hc.
  pose proof (total_lookup (cov_em b) _ _ _ (cov_em_nonneg b) Hi) as H1.
  pose proof (total_nonneg (cov b) (fFreeList m) (cov_nonneg b)).
  rewrite (cov_in b (range e) Hb : cov_em b e = 1) in H1. unfold in_space in Hc. case_decide; lia.
Qed.

Lemma cover_fl_em b i r : fFreeList m !! i = Some r -> covers b r ->
  0 <= b < SPACE /\ total (cov_em b) (fExtentMap m) = 0.
Proof.
  intros Hi Hb. pose proof (wf_cover b) as Hc.
  pose proof (total_lookup (cov b) _ _ _ (cov_nonneg b) Hi) as H1.
  pose proof (total_nonneg (cov_em b) (fExtentMap m) (cov_em_nonneg b)).
  rewrite (cov_in b r Hb) in H1. unfold in_space in Hc. case_decide; lia.
Qed.

(** Two extents have no block in common. *)
Lemma extents_disjoint b i j e e' : i <> j -> fExtentMap m !! i = Some e ->
  fExtentMap m !! j = Some e' -> covers b (range e) -> covers b (range e') -> False.
Proof.
  intros Hne Hi Hj He He'. pose proof (wf_cover b) as Hc.
  pose proof (total_lookup2 (cov_em b) _ _ _ _ _ (cov_em_nonneg b) Hne Hi Hj) as H1.
  pose proof (total_nonneg (cov b) (fFreeList m) (cov_nonneg b)).
  rewrite (cov_in b (range e) He : cov_em b e = 1) in H1.
  rewrite (cov_in b (range e') He' : cov_em b e' = 1) in H1. pose proof (in_space_bound b). lia.
Qed.

Lemma free_disjoint b i j r r' : i <> j -> fFreeList m !! i = Some r ->
  fFreeList m !! j = Some r' -> covers b r -> covers b r' -> False.
Proof.
  intros Hne Hi Hj He He'. pose proof (wf_cover b) as Hc.
  pose proof (total_lookup2 (cov b) _ _ _ _ _ (cov_nonneg b) Hne Hi Hj) as H1.
  pose proof (total_nonneg (cov_em b) (fExtentMap m) (cov_em_nonneg b)).
  rewrite (cov_in b r He), (cov_in b r' He') in H1. pose proof (in_space_bound b). lia.
Qed.

(** A range of the free list lies in the space. *)
Lemma fl_in_space i r : fFreeList m !! i = Some r -> size r <> 0 ->
  0 <= start r /\ start r + size r * 1024 <= SPACE.
Proof.
  intros Hi Hn. pose proof (fl_range_ok _ _ Hi) as [Hs _].
  destruct (cover_fl_em (start r) _ _ Hi) as [H1 _]; [unfold covers; lia|].
  destruct (cover_fl_em (start r + size r * 1024 - 1) _ _ Hi) as [H2 _]; [unfold covers; lia|].
  lia.
Qed.
Lemma em_in_space i e : fExtentMap m !! i = Some e -> size (range e) <> 0 ->
  0 <= start (range e) /\ start (range e) + size (range e) * 1024 <= SPACE.
Proof.
  intros Hi Hn. pose proof (em_range_ok _ _ Hi) as [Hs _].
  destruct (cover_em_fl (start (range e)) _ _ Hi) as [H1 _]; [unfold covers; lia|].
  destruct (cover_em_fl (lastBlock (range e)) _ _ Hi) as [H2 _];
    [unfold covers, lastBlock; lia|].
  unfold lastBlock in *. lia.
Qed.
End Facts.

(** ** Runs

    [runs p m r m']: on the image [m], whatever is in the undo log, [p] has the
    outcome [r] and leaves the image [m']. *)

Definition runs {A} (p : prog em_obj A) (m : em_image) (r : res A) (m' : em_image) : Prop :=
  forall log, exists log', p (mkUndoable m log) = (r, mkUndoable m' log').

Lemma runs_ret {A} (a : A) m : runs (mret a) m (Ret a) m.
Proof. intros log. by exists log. Qed.
Lemma runs_throw {A} e m : runs (A := A) (throw e) m (Throw e) m.
Proof. intros log. by exists log. Qed.
Lemma runs_gets {A} (f : em_obj -> A) (g : em_image -> A) m :
  (forall log, f (mkUndoable m log) = g m) -> runs (gets f) m (Ret (g m)) m.
Proof. intros H log. exists log. unfold gets. by rewrite H. Qed.
Lemma runs_image m : runs (gets image) m (Ret m) m.
Proof. by apply (runs_gets _ id). Qed.
Lemma runs_reading {A} (f : em_obj -> res A) m r :
  (forall log, f (mkUndoable m log) = r) -> runs (reading f) m r m.
Proof. intros H log. exists log. unfold reading. by rewrite H. Qed.
Lemma runs_bind {A B} (p : prog em_obj A) (f : A -> prog em_obj B) m a m' r m'' :
  runs p m (Ret a) m' -> runs (f a) m' r m'' -> runs (p ≫= f) m r m''.
Proof.
  intros Hp Hf log. destruct (Hp log) as [log' Hl]. erewrite bind_Ret by exact Hl. apply Hf.
Qed.
Lemma runs_bind_throw {A B} (p : prog em_obj A) (f : A -> prog em_obj B) m e m' :
  runs p m (Throw e) m' -> runs (p ≫= f) m (Throw e) m'.
Proof.
  intros Hp log. destruct (Hp log) as [log' Hl]. exists log'.
  unfold mbind, prog_bind. by rewrite Hl.
Qed.
Lemma runs_record c m : runs (makeUndoRecord [c]) m (Ret tt) m.
Proof.
  intros log. eexists. unfold makeUndoRecord. rewrite decide_False by (by destruct c). reflexivity.
Qed.
Lemma runs_store d m : runs (store d) m (Ret tt) (apply_delta d m).
Proof. intros log. by exists log. Qed.
Lemma runs_modify f m : runs (modify (set_image f)) m (Ret tt) (f m).
Proof. intros log. by exists log. Qed.
Lemma runs_rdEM i e m : fExtentMap m !! i = Some e -> runs (rdEM (Z.of_nat i)) m (Ret e) m.
Proof. intros Hi. apply runs_reading. intros ?. by apply rd_nat. Qed.
Lemma runs_rdFL i r m : fFreeList m !! i = Some r -> runs (rdFL (Z.of_nat i)) m (Ret r) m.
Proof. intros Hi. apply runs_reading. intros ?. by apply rd_nat. Qed.
Lemma runs_wrEM i e m : (i < length (fExtentMap m))%nat ->
  runs (wrEM (Z.of_nat i) e) m (Ret tt) (with_em (<[i := e]> (fExtentMap m)) m).
Proof.
  intros [x Hx]%lookup_lt_is_Some. eapply runs_bind; [by apply runs_rdEM|].
  rewrite <- wr_nat. apply runs_store.
Qed.
Lemma runs_wrFL i r m : (i < length (fFreeList m))%nat ->
  runs (wrFL (Z.of_nat i) r) m (Ret tt) (with_fl (<[i := r]> (fFreeList m)) m).
Proof.
  intros [x Hx]%lookup_lt_is_Some. eapply runs_bind; [by apply runs_rdFL|].
  rewrite <- wr_nat. apply runs_store.
Qed.
Lemma runs_addEMSize n m :
  runs (addEMSize n) m (Ret tt) (with_emInfo (add_size n (fEMShminfo m)) m).
Proof. eapply runs_bind; [by apply (runs_gets _ fEMShminfo)|]. apply runs_store. Qed.
Lemma runs_addFLSize n m :
  runs (addFLSize n) m (Ret tt) (with_flInfo (add_size n (fFLShminfo m)) m).
Proof. eapply runs_bind; [by apply (runs_gets _ fFLShminfo)|]. apply runs_store. Qed.
Lemma runs_changeEM i e f m : fExtentMap m !! i = Some e ->
  runs (changeEM (Z.of_nat i) f) m (Ret tt) (with_em (<[i := f e]> (fExtentMap m)) m).
Proof.
  intros Hi. eapply runs_bind; [apply runs_record|]. eapply runs_bind; [by apply runs_rdEM|].
  apply runs_wrEM. by eapply lookup_lt_Some.
Qed.

Create HintDb runs discriminated.
#[export] Hint Resolve runs_ret runs_image runs_record runs_rdEM runs_rdFL runs_wrEM runs_wrFL
  runs_addEMSize runs_addFLSize runs_changeEM : runs.

(** One step of a run. *)
Ltac runs_step := eapply runs_bind; [solve [eauto with runs]|cbv beta].

(** Changing an extent but not its range. *)
Lemma acc_em_same D df de m i e e' : em_acc D df de m -> fExtentMap m !! i = Some e ->
  range e' = range e -> em_acc D df de (with_em (<[i := e']> (fExtentMap m)) m).
Proof.
  intros Hacc Hi Hr. eapply acc_ext.
  - apply (acc_em _ _ _ _ Hacc i e e' Hi). rewrite Hr.
    by apply (Forall_lookup_1 _ _ _ _ (ew_em_ranges _ _ _ _ Hacc) Hi).
  - intros b. cbv beta. rewrite Hr. lia.
  - done.
  - rewrite Hr. lia.
Qed.

(** ** Taking a range from the free list *)

(** [m'] differs from [m] in the free list only, and no segment has grown. *)
Record same_em (m m' : em_image) : Prop := {
  se_em : fExtentMap m' = fExtentMap m;
  se_info : fEMShminfo m' = fEMShminfo m;
  se_len : length (fFreeList m') = length (fFreeList m);
  se_mapped : em_mapped m -> em_mapped m';
}.

Lemma mapped_with_fl l m : em_mapped (with_fl l m) <-> em_mapped m.
Proof. split; intros []; split; done. Qed.
Lemma mapped_with_em l m : em_mapped (with_em l m) <-> em_mapped m.
Proof. split; intros []; split; done. Qed.
Lemma mapped_add_fl n m : em_mapped (with_flInfo (add_size n (fFLShminfo m)) m) <-> em_mapped m.
Proof. split; intros []; split; done. Qed.
Lemma mapped_add_em n m : em_mapped (with_emInfo (add_size n (fEMShminfo m)) m) <-> em_mapped m.
Proof. split; intros []; split; done. Qed.
Create Rewrite HintDb mapped.
#[export] Hint Rewrite mapped_with_fl mapped_with_em mapped_add_fl mapped_add_em : mapped.

Lemma same_em_fl i r m : same_em m (with_fl (<[i := r]> (fFreeList m)) m).
Proof. split; try done; [apply length_insert|by rewrite mapped_with_fl]. Qed.
Lemma same_em_info n m : same_em m (with_flInfo (add_size n (fFLShminfo m)) m).
Proof. split; try done. by rewrite mapped_add_fl. Qed.
#[global] Instance same_em_preorder : PreOrder same_em.
Proof.
  split; [by split|]. intros m1 m2 m3 [] []. split; [congruence..|]. auto.
Qed.

(** The size in the master segment table follows an entry that becomes unused. *)
Lemma runs_shrink (r' : InlineLBIDRange) (c : prog em_obj unit) m :
  runs c m (Ret tt) (with_flInfo (add_size (- sizeof_Inline) (fFLShminfo m)) m) ->
  exists m', runs (if decide (size r' = 0) then c else mret tt) m (Ret tt) m' /\ same_em m m' /\
    fFreeList m' = fFreeList m /\
    forall D df de, em_acc D df de m ->
      em_acc D (df - (1 - used r') * sizeof_Inline) de m'.
Proof.
  intros Hc. unfold used. destruct (decide (size r' = 0)) as [Hz|Hz].
  - eexists. split_and!; [exact Hc|apply same_em_info|done|]. intros D df de H.
    eapply acc_ext; [by apply acc_fl_info|done| |done]. unfold sizeof_Inline. lia.
  - exists m. split_and!; [apply runs_ret|done|done|]. intros D df de H.
    eapply acc_ext; [exact H|done| |done]. lia.
Qed.

Lemma getLBIDs_runs m n : em_wf m -> 0 < n < 2 ^ 22 ->
  (Forall (fun r => size r < n) (fFreeList m) /\
   runs (getLBIDsFromFreeList n) m (Throw RuntimeError) m) \/
  exists i r m', fFreeList m !! i = Some r /\ n <= size r /\
    runs (getLBIDsFromFreeList n) m (Ret (start r)) m' /\
    em_acc (fun b => cov b (mkInline (start r) n)) 0 0 m' /\ same_em m m'.
Proof.
  intros Hwf Hn. unfold getLBIDsFromFreeList.
  assert (Hfind : find_index (fun r => n <=? size r) (fFreeList m) (seqZ 0 (flEntries m)) =
            Ret (prod_map Z.of_nat id <$> list_find (fun r => (n <=? size r) = true) (fFreeList m)))
    by apply find_index_all, flEntries_wf, Hwf.
  destruct (list_find _ (fFreeList m)) as [[i r]|] eqn:Hf; cbn in Hfind.
  - right. apply list_find_Some in Hf as (Hi & Hr%Z.leb_le & _).
    destruct (fl_range_ok _ Hwf _ _ Hi) as [Hs Hal].
    set (r' := mkInline (start r + u32 (n * 1024)) (u32 (size r - n))).
    assert (Hr' : r' = mkInline (start r + n * 1024) (size r - n))
      by (unfold r'; rewrite !u32_id by lia; done).
    assert (Hok : range_ok r').
    { rewrite Hr'. split; cbn; [lia|]. intros _. rewrite Z.mod_add by lia. apply Hal. lia. }
    set (m1 := with_fl (<[i := r']> (fFreeList m)) m).
    destruct (runs_shrink r' (makeUndoRecord [CFLInfo];; addFLSize (- sizeof_Inline)) m1)
      as (m2 & Hrun & Hsame & _ & Hacc).
    { runs_step. apply runs_addFLSize. }
    exists i, r, m2. split_and!; [done|done| | |].
    + eapply runs_bind; [apply runs_image|cbv beta].
      eapply runs_bind; [by apply runs_reading|]. cbn [prod_map fst snd id].
      runs_step. eapply runs_bind; [apply runs_wrFL; by eapply lookup_lt_Some|].
      eapply runs_bind; [exact Hrun|]. apply runs_ret.
    + eapply acc_ext; [apply Hacc, (acc_fl _ _ _ _ Hwf _ _ _ Hi Hok)| | |done].
      * intros b. rewrite Hr'. cbv beta. clear -Hr Hn. cov_solve.
      * rewrite Hr'. clear -Hr Hn. unfold sizeof_Inline. cov_solve.
    + etrans; [apply same_em_fl|exact Hsame].
  - left. split.
    + apply list_find_None in Hf. eapply Forall_impl; [exact Hf|]. cbn. intros r. lia.
    + eapply runs_bind; [apply runs_image|cbv beta].
      eapply runs_bind; [by apply runs_reading|]. apply runs_throw.
Qed.

(** ** Adding an extent *)

Definition extents (m : em_image) : list EMEntry := filter (fun e => in_use e = true) (fExtentMap m).

Lemma in_use_true e : in_use e = true <-> size (range e) <> 0.
Proof. unfold in_use. rewrite negb_true_iff. case_bool_decide; naive_solver. Qed.
Lemma in_use_false e : in_use e = false <-> size (range e) = 0.
Proof. unfold in_use. rewrite negb_false_iff. case_bool_decide; naive_solver. Qed.
Lemma in_use_used e : used_em e = if in_use e then 1 else 0.
Proof. unfold used_em, used, in_use. by case_decide; case_bool_decide. Qed.
Lemma elem_of_extents e m : e ∈ extents m <-> in_use e = true /\ e ∈ fExtentMap m.
Proof. unfold extents. by rewrite list_elem_of_filter. Qed.

(** Every block is in at most one extent. *)
Lemma total_extents b m : total (cov_em b) (fExtentMap m) = total (cov_em b) (extents m).
Proof.
  unfold extents. induction (fExtentMap m) as [|e l IH]; [done|].
  rewrite total_cons, IH, filter_cons. destruct (in_use e) eqn:Hu.
  - by rewrite decide_True.
  - rewrite decide_False by done. apply in_use_false in Hu.
    unfold cov_em at 1. rewrite (cov_unused b _ Hu). lia.
Qed.

Lemma perm_disjoint m x l b e : em_wf m -> extents m ≡ₚ x :: l -> e ∈ l ->
  covers b (range x) -> covers b (range e) -> False.
Proof.
  intros Hwf Hp [i Hi]%list_elem_of_lookup Hx He. pose proof (wf_cover _ Hwf b) as Hc.
  rewrite total_extents, Hp, total_cons in Hc.
  pose proof (total_lookup (cov_em b) _ _ _ (cov_em_nonneg b) Hi) as H1.
  pose proof (total_nonneg (cov b) (fFreeList m) (cov_nonneg b)).
  rewrite (cov_in b (range e) He : cov_em b e = 1) in H1.
  rewrite (cov_in b (range x) Hx : cov_em b x = 1) in Hc. pose proof (in_space_bound b). lia.
Qed.

(** Entry [i] was unused and is now the extent [e]. *)
Definition extended (m : em_image) (i : nat) (e : EMEntry) (m' : em_image) : Prop :=
  fExtentMap m' = <[i := e]> (fExtentMap m) /\ fFreeList m' = fFreeList m /\
  extents m' ≡ₚ e :: extents m /\ (em_mapped m -> em_mapped m').

Lemma add_extent_runs m i e f lbid n :
  em_acc (fun b => cov b (mkInline lbid n)) 0 0 m -> fExtentMap m !! i = Some e ->
  in_use e = false -> range (f e) = mkInline lbid n -> 0 < n < 2 ^ 32 -> lbid mod 1024 = 0 ->
  exists m', runs (add_extent (Z.of_nat i) f) m (Ret tt) m' /\ em_wf m' /\ extended m i (f e) m'.
Proof.
  intros Hacc Hi Hu Hr Hn Hal. apply in_use_false in Hu.
  set (m1 := with_em (<[i := f e]> (fExtentMap m)) m).
  exists (with_emInfo (add_size sizeof_EMEntry (fEMShminfo m1)) m1). split_and!.
  - unfold add_extent. eapply runs_bind; [by apply runs_changeEM|]. runs_step. apply runs_addEMSize.
  - eapply acc_ext.
    + apply acc_em_info. apply (acc_em _ _ _ _ Hacc _ _ _ Hi). rewrite Hr. split; cbn; [lia|done].
    + intros b. cbv beta. rewrite Hr, (cov_unused b (range e) Hu). lia.
    + done.
    + unfold used. rewrite Hr. cbn [size]. rewrite (decide_True (P := size (range e) = 0)) by done.
      rewrite decide_False by lia. unfold sizeof_EMEntry. lia.
  - split_and!; [done|done| |].
    + apply (filter_insert_new (fun e => in_use e = true) _ _ _ _ Hi).
      * by intros ?%in_use_true.
      * apply in_use_true. rewrite Hr. cbn. lia.
    + unfold m1. autorewrite with mapped. done.
Qed.

(** ** Growing the extent map *)

Lemma total_grown {A} (f : A -> Z) d (l : list A) n : f d = 0 -> total f (grown d l n) = total f l.
Proof. intros H. unfold grown. rewrite total_app, total_replicate, H. lia. Qed.
Lemma length_grown {A} (d : A) l n :
  Z.of_nat (length l) <= n -> Z.of_nat (length (grown d l n)) = n.
Proof. intros H. unfold grown. rewrite length_app, length_replicate. lia. Qed.

Lemma range_ok_free : range_ok free_range.
Proof. by split. Qed.

(** There is an unused entry, and the extents are the same. *)
Definition roomy (m m' : em_image) : Prop :=
  em_wf m' /\ em_mapped m' /\ extents m' = extents m /\ fFreeList m' = fFreeList m /\
  total used_em (fExtentMap m') < Z.of_nat (length (fExtentMap m')) /\
  exists pad, fExtentMap m' = fExtentMap m ++ pad.

Lemma growEM_wf m : em_wf m -> em_mapped m -> em_room 1 m ->
  exists m', runs (growEMShmseg 0) m (Ret tt) m' /\ roomy m m'.
Proof.
  intros Hwf [Hm1 Hm2 Hm3 Hm4] (Hr & _ & Hl & _).
  destruct Hwf as [A1 A2 A3 A4 A5 A6 A7]. unfold EM_INCREMENT in *.
  unfold sizeof_EMEntry, EM_INCREMENT_ROWS in *.
  eexists. split; [apply runs_modify|].
  rewrite Hm1, A1, decide_False by (unfold sizeof_EMEntry; lia).
  unfold EM_INCREMENT, sizeof_EMEntry, EM_INCREMENT_ROWS. rewrite Z.max_l by lia.
  replace (72 * Z.of_nat (length (fExtentMap m)) + 100 * 72)
    with ((Z.of_nat (length (fExtentMap m)) + 100) * 72) by lia.
  rewrite Z.div_mul by lia. rewrite s32_id by lia.
  split_and!; [| |unfold extents; cbn [fExtentMap]| done| |].
  - split; cbn; try done.
    + rewrite length_grown by lia. unfold sizeof_EMEntry. lia.
    + rewrite total_grown by done. done.
    + apply Forall_app. split; [done|]. apply Forall_replicate, range_ok_free.
    + intros b. rewrite total_grown by apply cov_free. apply A7.
  - split; done.
  - unfold grown. rewrite filter_app, (filter_none _ (replicate _ _)), app_nil_r; [done|].
    by apply Forall_replicate.
  - cbn [fExtentMap]. rewrite total_grown, length_grown by (done || lia).
    pose proof (total_le used_em (fExtentMap m) (fun e => proj2 (used_em_bound e))). lia.
  - cbn [fExtentMap]. unfold grown. eauto.
Qed.

Lemma make_room_wf m : em_wf m -> em_mapped m -> em_room 1 m ->
  exists m', runs make_room m (Ret tt) m' /\ roomy m m'.
Proof.
  intros Hwf Hm Hr. unfold make_room.
  destruct (decide (currentSize (fEMShminfo m) = allocdSize (fEMShminfo m))) as [He|Hne].
  - destruct (growEM_wf m Hwf Hm Hr) as (m' & Hrun & Hroom). exists m'. split; [|done].
    eapply runs_bind; [apply runs_image|]. by rewrite decide_True.
  - exists m. split.
    + eapply runs_bind; [apply runs_image|]. rewrite decide_False by done. apply runs_ret.
    + split_and!; try done; [|exists []; by rewrite app_nil_r].
      rewrite (ew_em_size _ _ _ _ Hwf), (ew_em_alloc _ _ _ _ Hwf) in Hne.
      pose proof (total_le used_em (fExtentMap m) (fun e => proj2 (used_em_bound e))).
      unfold sizeof_EMEntry in *. lia.
Qed.

(** ** Locks and programs of the object *)

Lemma runs_on_image {A} (p : prog em_obj A) m r m' log a b : runs p m r m' -> exists log',
  on_image p (mkExtentMap (mkUndoable m log) a b) = (r, mkExtentMap (mkUndoable m' log') a b).
Proof.
  intros H. destruct (H log) as [log' Hl]. exists log'. unfold on_image, zoom. cbn [em_und].
  rewrite Hl. done.
Qed.

Lemma grabEM_mapped o a b : em_mapped (image o) ->
  grabEMEntryTable WRITE (mkExtentMap o a b) = (Ret tt, mkExtentMap o true b).
Proof.
  intros [M1 M2 M3 M4]. unfold grabEMEntryTable, mbind, prog_bind, set_emLocked, modify, gets. cbn.
  rewrite M1, M3. cbn. rewrite bool_decide_eq_false_2 by (intros H; by apply H). done.
Qed.
Lemma grabFL_mapped o a b : em_mapped (image o) ->
  grabFreeList WRITE (mkExtentMap o a b) = (Ret tt, mkExtentMap o a true).
Proof.
  intros [M1 M2 M3 M4]. unfold grabFreeList, mbind, prog_bind, set_flLocked, modify, gets. cbn.
  rewrite M2, M4. cbn. rewrite bool_decide_eq_false_2 by (intros H; by apply H). done.
Qed.

Lemma room_le k k' m : em_room k m -> k' <= k -> em_room k' m.
Proof.
  unfold em_room, EM_INCREMENT, EM_FREELIST_INCREMENT, sizeof_EMEntry, sizeof_Inline,
    EM_INCREMENT_ROWS. lia.
Qed.

(** ** An example

    Two extents of a column, in the first two units of 8, and the rest of the
    space in one entry of the free list. *)

Definition root1 : DBROOTS_struct := mkRoots [1; 0; 0; 0].
Definition demo_extent (st seg hwm : Z) : EMEntry :=
  mkEM (mkInline st 8) 3001 0 root1 hwm 0 seg 8 EXTENTAVAILABLE
    (mkCP int64_min int64_max 0 CP_VALID).
Definition demo_image : em_image :=
  mkImage [demo_extent 0 0 8191; demo_extent 8192 1 77; free_em; free_em]
    (mkMST 0x20001 (4 * 72) (2 * 72)) 0x20001 true
    [mkInline 16384 (MAX_LBID_SIZE - 16); free_range; free_range]
    (mkMST 0x30001 (3 * 16) 16) 0x30001 true.

Lemma demo_wf : em_wf demo_image.
Proof.
  split; try reflexivity.
  - cbv [demo_image fExtentMap fFreeList MAX_LBID_SIZE].
    repeat (apply Forall_cons_2; [split; [cbn; lia|done]|]). apply Forall_nil_2.
  - cbv [demo_image fExtentMap fFreeList MAX_LBID_SIZE].
    repeat (apply Forall_cons_2; [split; [cbn; lia|done]|]). apply Forall_nil_2.
  - intros b. unfold total, demo_image, cov_em, cov, in_space, covers, SPACE, MAX_LBID_SIZE.
    cbn [foldr fExtentMap fFreeList range start size demo_extent free_em free_range].
    repeat case_decide; lia.
Qed.
Lemma demo_mapped : em_mapped demo_image.
Proof. by split. Qed.
Lemma demo_room : em_room 10 demo_image.
Proof. split_and!; [done|done|cbn; lia|cbn; lia]. Qed.
Definition demo_map : extent_map := mkExtentMap (mkUndoable demo_image []) false false.
