(* ===== verification/ExtentPlace.v ===== *)
(** * Where a new column extent goes: extentmap.cpp

    [_createColumnExtent_DBroot] looks for the last extent of the column on
    the DBRoot and picks the partition, segment file and block offset of the
    new one.  The file characterises the scans of the array and proves that
    the new extent is put behind every extent of its segment file. *)
From Stdlib Require Import ZArith Lia.
From S2P Require Import Prelude Bytes Undoable BrmTypes CopyLocks ExtentMap ExtentAlloc ExtentProofs.

Local Open Scope Z_scope.

(** The order of extents: partition, then offset, then segment. *)
Definition before_eq (a b : Z * Z * Z) : Prop :=
  let '(p, o, s) := a in let '(p', o', s') := b in
  p < p' \/ (p = p' /\ (o < o' \/ (o = o' /\ s <= s'))).

Definition place_of (e : EMEntry) : Z * Z * Z := (partitionNum e, blockOffset e, segmentNum e).

Lemma not_before_spec p o s p' o' s' :
  not_before p o s p' o' s' = true <-> before_eq (p', o', s') (p, o, s).
Proof.
  unfold not_before, before_eq. rewrite !orb_true_iff, !andb_true_iff, !bool_decide_eq_true. lia.
Qed.

(** Fields within their types, away from the limits. *)
Record fields_ok (e : EMEntry) : Prop := {
  fo_part : 0 <= partitionNum e < 2 ^ 32 - 1;
  fo_seg : 0 <= segmentNum e < 2 ^ 16 - 1;
  fo_off : 0 <= blockOffset e;
  fo_size : 0 <= size (range e);
  fo_end : blockOffset e + size (range e) * 1024 < 2 ^ 32;
}.

(** Extents of one segment file. *)
Definition same_file (e e' : EMEntry) : Prop :=
  fileID e = fileID e' /\ partitionNum e = partitionNum e' /\ segmentNum e = segmentNum e'.

(** The files of the map: fields in range, and a file is on one DBRoot list. *)
Record files_ok (l : list EMEntry) : Prop := {
  fk_fields : forall e, e ∈ l -> in_use e = true -> fields_ok e;
  fk_roots : forall e e', e ∈ l -> e' ∈ l -> in_use e = true -> in_use e' = true ->
    same_file e e' -> em_dbRoots e = em_dbRoots e';
}.

Section Scans.
Context (OID : Z) (dbRoot : DBROOTS_struct) (part : Z).

(** The extents of the column; those on the DBRoot. *)
Definition column (e : EMEntry) : Prop := in_use e = true /\ fileID e = OID.
Definition mine (e : EMEntry) : Prop := column e /\ em_dbRoots e = dbRoot.

Lemma roots_eqb_true (a b : DBROOTS_struct) : roots_eqb a b = true <-> a = b.
Proof.
  unfold roots_eqb. rewrite bool_decide_eq_true. split; [|by intros ->].
  destruct a, b. cbn. by intros ->.
Qed.

(** ** The first scan *)

Record scan1_inv (pre : list EMEntry) (a : scan1) : Prop := {
  i1_empty :
    (emptyEMEntry a = -1 /\ Forall (fun e => in_use e = true) pre) \/
    exists k e, emptyEMEntry a = Z.of_nat k /\ pre !! k = Some e /\ in_use e = false;
  i1_last :
    (lastExtentIndex a = -1 /\ (forall e, e ∈ pre -> ~ mine e) /\
     (highestPartNum a, highestOffset a, highestSegNum a) = (0, 0, 0) /\
     forall e, e ∈ pre -> column e -> partitionNum e = part ->
       bHighEmptySegNumSet a = true /\ segmentNum e <= highEmptySegNum a) \/
    exists k e, lastExtentIndex a = Z.of_nat k /\ pre !! k = Some e /\ mine e /\
      (highestPartNum a, highestOffset a, highestSegNum a) = place_of e /\
      forall e', e' ∈ pre -> mine e' -> before_eq (place_of e') (place_of e);
}.

Lemma scan1_empty pre x a : scan1_inv pre a ->
  let a' := scan1_step OID dbRoot part a (Z.of_nat (length pre)) x in
  (emptyEMEntry a' = -1 /\ Forall (fun e => in_use e = true) (pre ++ [x])) \/
  exists k e, emptyEMEntry a' = Z.of_nat k /\ (pre ++ [x]) !! k = Some e /\ in_use e = false.
Proof.
  intros [H _]. cbv zeta. unfold scan1_step. destruct (in_use x) eqn:Hx.
  - assert (He : forall a', emptyEMEntry a' = emptyEMEntry a ->
      (emptyEMEntry a' = -1 /\ Forall (fun e => in_use e = true) (pre ++ [x])) \/
      exists k e, emptyEMEntry a' = Z.of_nat k /\ (pre ++ [x]) !! k = Some e /\ in_use e = false).
    { intros a' ->. destruct H as [[? ?]|(k & e & Hk & Hl & Hu)].
      - left. split; [done|]. apply Forall_app. auto.
      - right. exists k, e. split_and!; [done| |done]. by apply lookup_app_l_Some. }
    apply He. repeat case_match; done.
  - right. destruct H as [[H _]|(k & e & Hk & Hl & Hu)].
    + rewrite decide_True by lia. exists (length pre), x. cbn. split_and!; [done| |done].
      by apply list_lookup_middle.
    + rewrite decide_False by lia. exists k, e. split_and!; [done| |done].
      by apply lookup_app_l_Some.
Qed.

Lemma before_eq_trans a b c : before_eq a b -> before_eq b c -> before_eq a c.
Proof. destruct a as [[]], b as [[]], c as [[]]. unfold before_eq. lia. Qed.
Lemma before_eq_total a b : before_eq a b \/ before_eq b a.
Proof. destruct a as [[]], b as [[]]. unfold before_eq. lia. Qed.

Lemma elem_of_snoc (x e : EMEntry) pre : e ∈ pre ++ [x] <-> e ∈ pre \/ e = x.
Proof. rewrite elem_of_app, list_elem_of_singleton. done. Qed.

(** An entry that is not one of ours changes nothing but the highest segment. *)
Lemma scan1_skip pre x a : scan1_inv pre a -> ~ mine x ->
  let a' := scan1_step OID dbRoot part a (Z.of_nat (length pre)) x in
  (lastExtentIndex a' = -1 /\ (forall e, e ∈ pre ++ [x] -> ~ mine e) /\
   (highestPartNum a', highestOffset a', highestSegNum a') = (0, 0, 0) /\
   forall e, e ∈ pre ++ [x] -> column e -> partitionNum e = part ->
     bHighEmptySegNumSet a' = true /\ segmentNum e <= highEmptySegNum a') \/
  exists k e, lastExtentIndex a' = Z.of_nat k /\ (pre ++ [x]) !! k = Some e /\ mine e /\
    (highestPartNum a', highestOffset a', highestSegNum a') = place_of e /\
    forall e', e' ∈ pre ++ [x] -> mine e' -> before_eq (place_of e') (place_of e).
Proof.
  intros [_ H] Hx. cbv zeta.
  destruct H as [(Hl & Hno & Hhi & Hseg)|(k & e & Hl & Hk & He & Hhi & Hmax)].
  - left. unfold scan1_step.
    assert (Hnm : forall e, e ∈ pre ++ [x] -> ~ mine e)
      by (intros e [?| ->]%elem_of_snoc; [by apply Hno|done]).
    destruct (in_use x) eqn:Hu; [destruct (decide (fileID x = OID)) as [Hf|Hf]|].
    + assert (Hr : roots_eqb (em_dbRoots x) dbRoot = false).
      { apply not_true_iff_false. rewrite roots_eqb_true. intros ?. by apply Hx. }
      rewrite Hr. cbn [andb]. rewrite Hl, bool_decide_eq_true_2 by done. cbn [andb].
      destruct (decide (partitionNum x = part)) as [Hp|Hp];
        [rewrite (bool_decide_eq_true_2 _ Hp)|rewrite (bool_decide_eq_false_2 _ Hp)]; cbn [andb].
      * destruct (bool_decide (segmentNum x > highEmptySegNum a)
                  || negb (bHighEmptySegNumSet a)) eqn:Hb; cbn; split_and!; try done.
        -- intros e [Hin| ->]%elem_of_snoc Hc Hpe; [|split; [done|lia]].
           destruct (Hseg e Hin Hc Hpe) as [Hset Hle]. rewrite Hset, orb_false_r in Hb.
           apply bool_decide_eq_true in Hb. split; [done|lia].
        -- apply orb_false_iff in Hb as [Hb1%bool_decide_eq_false Hb2%negb_false_iff].
           intros e [Hin| ->]%elem_of_snoc Hc Hpe; [by apply Hseg|]. split; [done|lia].
      * split_and!; try done. intros e [Hin| ->]%elem_of_snoc Hc Hpe; [by apply Hseg|done].
    + split_and!; try done. intros e [Hin| ->]%elem_of_snoc Hc Hpe; [by apply Hseg|].
      by destruct Hc.
    + case_decide; cbn; (split_and!; try done;
        intros e [Hin| ->]%elem_of_snoc Hc Hpe; [by apply Hseg|]; by destruct Hc as [? _]; congruence).
  - right. exists k, e.
    assert (Hk' : (pre ++ [x]) !! k = Some e) by (by apply lookup_app_l_Some).
    assert (Hmax' : forall e', e' ∈ pre ++ [x] -> mine e' -> before_eq (place_of e') (place_of e))
      by (intros e' [?| ->]%elem_of_snoc ?; [by apply Hmax|done]).
    unfold scan1_step. destruct (in_use x) eqn:Hu; [destruct (decide (fileID x = OID)) as [Hf|Hf]|].
    + assert (Hr : roots_eqb (em_dbRoots x) dbRoot = false).
      { apply not_true_iff_false. rewrite roots_eqb_true. intros ?. by apply Hx. }
      rewrite Hr. cbn [andb]. rewrite Hl, bool_decide_eq_false_2 by lia. cbn [andb]. done.
    + done.
    + case_decide; done.
Qed.

Lemma scan1_take pre x a : scan1_inv pre a -> mine x -> fields_ok x ->
  let a' := scan1_step OID dbRoot part a (Z.of_nat (length pre)) x in
  exists k e, lastExtentIndex a' = Z.of_nat k /\ (pre ++ [x]) !! k = Some e /\ mine e /\
    (highestPartNum a', highestOffset a', highestSegNum a') = place_of e /\
    forall e', e' ∈ pre ++ [x] -> mine e' -> before_eq (place_of e') (place_of e).
Proof.
  intros [_ H] Hx Hok. cbv zeta. pose proof Hx as [[Hu Hf] Hr]. unfold scan1_step.
  rewrite Hu, decide_True by done. rewrite (proj2 (roots_eqb_true _ _) Hr). cbn [andb].
  destruct (not_before _ _ _ _ _ _) eqn:Hnb.
  - apply not_before_spec in Hnb. exists (length pre), x. cbn [lastExtentIndex].
    rewrite bool_decide_eq_false_2 by lia.
    cbn [lastExtentIndex highestPartNum highestOffset highestSegNum andb]. split_and!; try done.
    + by apply list_lookup_middle.
    + intros e' [Hin| ->]%elem_of_snoc Hm; [|unfold before_eq, place_of; lia].
      destruct H as [(_ & Hno & _)|(k & e & _ & _ & _ & Hhi & Hmax)]; [by destruct (Hno e')|].
      eapply before_eq_trans; [by apply Hmax|]. rewrite <- Hhi. exact Hnb.
  - apply not_true_iff_false in Hnb. rewrite not_before_spec in Hnb.
    destruct H as [(_ & _ & Hhi & _)|(k & e & Hl & Hk & He & Hhi & Hmax)].
    { exfalso. apply Hnb. rewrite Hhi. destruct Hok. unfold before_eq. lia. }
    exists k, e. rewrite Hl, bool_decide_eq_false_2 by lia. cbn [andb].
    split_and!; try done; [by apply lookup_app_l_Some|].
    intros e' [Hin| ->]%elem_of_snoc Hm; [by apply Hmax|].
    rewrite Hhi in Hnb. destruct (before_eq_total (place_of x) (place_of e)); done.
Qed.

Lemma scan1_all l : (forall e, e ∈ l -> in_use e = true -> fields_ok e) ->
  scan1_inv l (ifold (scan1_step OID dbRoot part) 0 l (mkScan1 (-1) (-1) 0 0 0 0 false)).
Proof.
  apply (ifold_ind _ (fun pre a => (forall e, e ∈ pre -> in_use e = true -> fields_ok e) ->
    scan1_inv pre a)).
  - intros _. split; left; [done|]. split_and!; try done; by intros e ?%elem_of_nil.
  - intros pre x a IH Hok.
    assert (Hinv : scan1_inv pre a)
      by (apply IH; intros e He; apply Hok; rewrite elem_of_snoc; by left).
    split; [by apply scan1_empty|].
    destruct (decide (in_use x = true /\ fileID x = OID /\ em_dbRoots x = dbRoot)) as [Hm|Hm].
    + right. apply scan1_take; [done|by split; [split|]; apply Hm|].
      apply Hok; [rewrite elem_of_snoc; by right|apply Hm].
    + apply scan1_skip; [done|]. intros [[? ?] ?]. by apply Hm.
Qed.

Lemma scan1_high l : (forall e, e ∈ l -> in_use e = true -> fields_ok e) ->
  0 <= highEmptySegNum
         (ifold (scan1_step OID dbRoot part) 0 l (mkScan1 (-1) (-1) 0 0 0 0 false)) < 2 ^ 16 - 1.
Proof.
  apply (ifold_ind _ (fun pre a => (forall e, e ∈ pre -> in_use e = true -> fields_ok e) ->
    0 <= highEmptySegNum a < 2 ^ 16 - 1)); [done|].
  intros pre x a IH Hok.
  assert (Ha : 0 <= highEmptySegNum a < 2 ^ 16 - 1)
    by (apply IH; intros e He; apply Hok; rewrite elem_of_snoc; by left).
  assert (Hx : in_use x = true -> 0 <= segmentNum x < 2 ^ 16 - 1).
  { intros Hu. apply Hok; [rewrite elem_of_snoc; by right|done]. }
  unfold scan1_step. destruct (in_use x) eqn:Hu; [specialize (Hx eq_refl)|];
    repeat case_match; done.
Qed.

(** ** The second scan *)

Record scan2_inv (last : EMEntry) (pre : list EMEntry) (b : scan2) : Prop := {
  i2_high : segmentNum last <= partHighSeg b /\
    forall e, e ∈ pre -> column e -> partitionNum e = partitionNum last ->
      segmentNum e <= partHighSeg b;
  i2_high_lt : partHighSeg b < 2 ^ 16 - 1;
  i2_next : -1 <= partHighSegNext b < 2 ^ 16 - 1 /\
    forall e, e ∈ pre -> column e -> partitionNum e = partitionNum last + 1 ->
      segmentNum e <= partHighSegNext b;
  i2_segs s o : targetDbRootSegs b !! s = Some o ->
    s = segmentNum last \/
    exists e, e ∈ pre /\ mine e /\ partitionNum e = partitionNum last /\ segmentNum e = s;
  i2_last : is_Some (targetDbRootSegs b !! segmentNum last);
}.

Lemma scan2_step_inv last pre x b : scan2_inv last pre b -> fields_ok last ->
  (in_use x = true -> fields_ok x) ->
  scan2_inv last (pre ++ [x]) (scan2_step OID dbRoot (partitionNum last) b (Z.of_nat (length pre)) x).
Proof.
  intros [[H1 H1'] H2 [H3 H3'] H4 H5] Hl Hok. unfold scan2_step.
  rewrite u32_id by (destruct Hl; lia).
  assert (H4' : forall s o, targetDbRootSegs b !! s = Some o -> s = segmentNum last \/
    exists e, e ∈ pre ++ [x] /\ mine e /\ partitionNum e = partitionNum last /\ segmentNum e = s).
  { intros s o Hs. destruct (H4 s o Hs) as [?|(e & ? & ?)]; [by left|right].
    exists e. split; [|done]. apply elem_of_snoc. by left. }
  destruct (in_use x && bool_decide (fileID x = OID)) eqn:Hc.
  - apply andb_true_iff in Hc as [Hu Hf%bool_decide_eq_true]. specialize (Hok Hu).
    destruct (decide (partitionNum x = partitionNum last + 1)) as [Hp|Hp];
      [|destruct (decide (partitionNum x = partitionNum last)) as [Hq|Hq]].
    + split; cbn; try done; [split; [done|]|split].
      * intros e [Hin| ->]%elem_of_snoc Hce Hpe; [by apply H1'|lia].
      * destruct Hok. lia.
      * intros e [Hin| ->]%elem_of_snoc Hce Hpe; [|lia]. pose proof (H3' e Hin Hce Hpe). lia.
    + assert (G1 : segmentNum last <= Z.max (segmentNum x) (partHighSeg b) /\
        forall e, e ∈ pre ++ [x] -> column e -> partitionNum e = partitionNum last ->
          segmentNum e <= Z.max (segmentNum x) (partHighSeg b)).
      { split; [lia|]. intros e [Hin| ->]%elem_of_snoc Hce Hpe; [|lia].
        pose proof (H1' e Hin Hce Hpe). lia. }
      assert (G2 : Z.max (segmentNum x) (partHighSeg b) < 2 ^ 16 - 1) by (destruct Hok; lia).
      assert (G3 : forall e, e ∈ pre ++ [x] -> column e -> partitionNum e = partitionNum last + 1 ->
          segmentNum e <= partHighSegNext b).
      { intros e [Hin| ->]%elem_of_snoc Hce Hpe; [by apply H3'|lia]. }
      destruct (roots_eqb (em_dbRoots x) dbRoot) eqn:Hr; split; cbn; try done.
      * intros s o. destruct (decide (s = segmentNum x)) as [->|Hne].
        -- intros _. right. exists x. split; [apply elem_of_snoc; by right|].
           split_and!; [|done|done]. split; [by split|]. by apply roots_eqb_true.
        -- rewrite lookup_insert_ne by done. apply H4'.
      * destruct (decide (segmentNum x = segmentNum last)) as [He|Hne].
        -- rewrite He, lookup_insert_eq. done.
        -- by rewrite lookup_insert_ne.
    + split; try done; [split; [done|]|split; [done|]].
      * intros e [Hin| ->]%elem_of_snoc Hce Hpe; [by apply H1'|done].
      * intros e [Hin| ->]%elem_of_snoc Hce Hpe; [by apply H3'|done].
  - assert (Hn : ~ column x).
    { intros [Hu Hf]. rewrite Hu, bool_decide_eq_true_2 in Hc by done. done. }
    split; try done; [split; [done|]|split; [done|]].
    + intros e [Hin| ->]%elem_of_snoc Hce Hpe; [by apply H1'|done].
    + intros e [Hin| ->]%elem_of_snoc Hce Hpe; [by apply H3'|done].
Qed.

Lemma scan2_all last l : fields_ok last -> (forall e, e ∈ l -> in_use e = true -> fields_ok e) ->
  scan2_inv last l (ifold (scan2_step OID dbRoot (partitionNum last)) 0 l
    (mkScan2 false (segmentNum last) (-1) {[segmentNum last := blockOffset last]})).
Proof.
  intros Hl. apply (ifold_ind _ (fun pre b => (forall e, e ∈ pre -> in_use e = true -> fields_ok e) ->
    scan2_inv last pre b)).
  - intros _. split; cbn; [split; [lia|]|destruct Hl; lia|split; [lia|]| |];
      try by intros e ?%elem_of_nil.
    + intros s o. destruct (decide (s = segmentNum last)) as [->|Hne]; [by left|].
      by rewrite lookup_singleton_ne.
    + rewrite lookup_singleton_eq. done.
  - intros pre x b IH Hok. apply scan2_step_inv; [|done|].
    + apply IH. intros e He. apply Hok, elem_of_snoc. by left.
    + apply Hok, elem_of_snoc. by right.
Qed.

(** ** The segment files of the target *)

(** [first] and [last] are among the files, [next] is one behind [seg]. *)
Definition segs_inv (seg : Z) (l : list Z) (a : Z * Z * option Z) : Prop :=
  let '(first, last, next) := a in
  (first = seg \/ first ∈ l) /\ first <= seg <= last /\
  (forall s, s ∈ l -> first <= s <= last) /\
  (forall s, s ∈ l -> seg < s -> is_Some next) /\ (last <> seg -> is_Some next) /\
  (forall n, next = Some n -> seg < n /\ n ∈ l).

Lemma segs_fold seg l : segs_inv seg l (foldl (segs_step seg) (seg, seg, None) l).
Proof.
  induction l as [|x l IH] using rev_ind.
  - cbn. split_and!; try done; try lia; try by intros ? ?%elem_of_nil.
  - rewrite foldl_app. cbn [foldl]. revert IH.
    destruct (foldl (segs_step seg) (seg, seg, None) l) as [[f z] n].
    intros (I1 & I2 & I3 & I4 & I5 & I6). unfold segs_step.
    assert (Hin : forall s, s ∈ l ++ [x] <-> s ∈ l \/ s = x)
      by (intros s; rewrite elem_of_app, list_elem_of_singleton; done).
    assert (Hn : is_Some (if decide (x > seg) then
                   match n with None => Some x
                   | Some n0 => if decide (x < n0) then Some x else n end else n)
                 <-> x > seg \/ is_Some n).
    { repeat case_decide; destruct n; repeat case_decide; split; intros; naive_solver eauto. }
    assert (Hm : forall n', (if decide (x > seg) then
                   match n with None => Some x
                   | Some n0 => if decide (x < n0) then Some x else n end else n) = Some n' ->
                 seg < n' /\ n' ∈ l ++ [x]).
    { intros n' Hn'. rewrite Hin.
      destruct (decide (x > seg)); [destruct n as [n0|]; [destruct (decide (x < n0))|]|];
        [| destruct (I6 n' Hn'); auto | | destruct (I6 n' Hn'); auto];
        (injection Hn' as <-; split; [lia|by right]). }
    destruct (decide (x < f)); [|destruct (decide (x > z))]; (split_and!;
      [ destruct I1 as [->|I1]; rewrite ?Hin; auto | lia | lia
      | intros s [Hs| ->]%Hin; [pose proof (I3 s Hs)|]; lia
      | intros s [Hs| ->]%Hin Hgt; apply Hn; [right; by apply (I4 s)|left; lia]
      | intros Hz; apply Hn; try (left; lia); right; apply I5; lia
      | exact Hm ]).
Qed.

Lemma target_segs_spec seg (segs : gmap Z Z) f z n : is_Some (segs !! seg) ->
  target_segs seg segs = (f, z, n) ->
  f <= seg <= z /\ (f = seg \/ is_Some (segs !! f)) /\
  (z <> seg -> seg < n /\ is_Some (segs !! n)).
Proof.
  intros Hseg. unfold target_segs. case_decide as Hsz.
  - pose proof (segs_fold seg (fst <$> map_to_list segs)) as H.
    destruct (foldl _ _ _) as [[f' z'] n']. intros [= <- <- <-].
    destruct H as (I1 & I2 & I3 & I4 & I5 & I6).
    assert (Hk : forall s, s ∈ fst <$> map_to_list segs -> is_Some (segs !! s)).
    { intros s. rewrite list_elem_of_fmap. intros ([k v] & -> & Hkv).
      apply elem_of_map_to_list in Hkv. cbn. by exists v. }
    split_and!; [lia|lia|destruct I1; auto|].
    intros Hz. destruct (I5 Hz) as [n0 ->]. cbn. destruct (I6 n0 eq_refl). auto.
  - intros [= <- <- <-]. split_and!; [lia|lia|by left|done].
Qed.
End Scans.

(** ** The place of the new extent *)

(** Behind every extent of the file it names, on the same DBRoots. *)
Definition appended (OID : Z) (dbRoot : DBROOTS_struct) (l : list EMEntry) (p : place) : Prop :=
  forall e, e ∈ l -> in_use e = true -> fileID e = OID -> partitionNum e = pl_part p ->
    segmentNum e = pl_seg p -> blockOffset e < pl_off p /\ em_dbRoots e = dbRoot.

Section Place.
Context (FILES EXTENTS ROOTS : Z) (OID : Z) (dbRoot : DBROOTS_struct).
Context (l : list EMEntry) (Hok : files_ok l).
Context (last : EMEntry) (Hin : last ∈ l) (Hmine : mine OID dbRoot last).
Context (Hmax : forall e', e' ∈ l -> mine OID dbRoot e' -> before_eq (place_of e') (place_of last)).
Context (b : scan2) (Hinv : scan2_inv OID dbRoot last l b).

Lemma last_fields : fields_ok last.
Proof. apply (fk_fields _ Hok); [done|apply Hmine]. Qed.

Lemma place_new_partition :
  appended OID dbRoot l (mkFilePlace (u32 (partitionNum last + 1))
    (if decide (partHighSegNext b = -1) then 0 else u16 (partHighSegNext b + 1)) 0).
Proof.
  intros e He Hu Ho Hp Hs. cbn in *. pose proof last_fields as [F1 _ _ _ _].
  rewrite u32_id in Hp by lia. destruct (i2_next _ _ _ _ _ Hinv) as [Hn Hle].
  pose proof (Hle e He (conj Hu Ho) Hp) as H. destruct (fk_fields _ Hok e He Hu) as [_ F2 _ _ _].
  case_decide; [lia|]. rewrite u16_id in Hs by lia. lia.
Qed.

Lemma place_new_file off :
  appended OID dbRoot l (mkFilePlace (partitionNum last) (u16 (partHighSeg b + 1)) off).
Proof.
  intros e He Hu Ho Hp Hs. cbn in *. pose proof last_fields as [_ F1 _ _ _].
  destruct (i2_high _ _ _ _ _ Hinv) as [H1 Hle]. pose proof (i2_high_lt _ _ _ _ _ Hinv).
  pose proof (Hle e He (conj Hu Ho) Hp) as H'. rewrite u16_id in Hs by lia. lia.
Qed.

(** The extents of a segment file of the target are ours. *)
Lemma target_mine s e : s = segmentNum last \/ is_Some (targetDbRootSegs b !! s) ->
  e ∈ l -> in_use e = true -> fileID e = OID -> partitionNum e = partitionNum last ->
  segmentNum e = s -> mine OID dbRoot e.
Proof.
  intros Hs He Hu Ho Hp Hse. split; [by split|].
  assert (Hx : exists x, x ∈ l /\ mine OID dbRoot x /\ partitionNum x = partitionNum last /\
                         segmentNum x = s).
  { destruct Hs as [->|[o Hs]]; [by exists last|].
    destruct (i2_segs _ _ _ _ _ Hinv _ _ Hs) as [->|(x & ? & ? & ? & ?)]; [by exists last|].
    by exists x. }
  destruct Hx as (x & Hx & [[Hux Hox] Hrx] & Hpx & Hsx).
  rewrite <- Hrx. apply (fk_roots _ Hok); try done. split_and!; congruence.
Qed.

Lemma place_next_file n off : segmentNum last < n -> is_Some (targetDbRootSegs b !! n) ->
  (off = blockOffset last \/ (off = 0 /\ blockOffset last = 0)) ->
  appended OID dbRoot l (mkFilePlace (partitionNum last) n off).
Proof.
  intros Hn Hs Hoff e He Hu Ho Hp Hse. cbn in *.
  pose proof (target_mine n e (or_intror Hs) He Hu Ho Hp Hse) as Hm.
  split; [|apply Hm]. pose proof (Hmax e He Hm) as H. unfold before_eq, place_of in H. lia.
Qed.

Lemma place_new_stripe f : in_use last = true ->
  f = segmentNum last \/ is_Some (targetDbRootSegs b !! f) ->
  appended OID dbRoot l
    (mkFilePlace (partitionNum last) f (u32 (size (range last) * 1024 + blockOffset last))).
Proof.
  intros Hul Hs e He Hu Ho Hp Hse. cbn in *. pose proof last_fields as [_ _ F1 F3 F2].
  pose proof (target_mine f e Hs He Hu Ho Hp Hse) as Hm.
  split; [|apply Hm]. pose proof (Hmax e He Hm) as H. unfold before_eq, place_of in H.
  apply in_use_true in Hul. rewrite u32_id by lia. lia.
Qed.

Lemma next_place_appended colWidth : in_use last = true ->
  appended OID dbRoot l (next_place FILES EXTENTS ROOTS colWidth last b).
Proof.
  intros Hul. unfold next_place.
  destruct (target_segs (segmentNum last) (targetDbRootSegs b)) as [[f z] n] eqn:Hts.
  destruct (target_segs_spec _ _ _ _ _ (i2_last _ _ _ _ _ Hinv) Hts) as (Hfz & Hf & Hn).
  set (new := if bSegsOutOfService b then true else _).
  destruct new; [apply place_new_partition|].
  case_decide; [|apply place_new_file].
  case_decide as Hz.
  - case_decide; [apply place_new_partition|]. cbn match.
    rewrite (decide_False (P := blockOffset last = 0 /\ f > f)) by lia. by apply place_new_stripe.
  - destruct (Hn ltac:(lia)) as [Hlt Hs]. cbn match. apply place_next_file; [done|done|].
    case_decide; [right; lia|by left].
Qed.
End Place.

(** The choice for a column with no extent on the DBRoot. *)
Lemma place_empty_root OID dbRoot l part a : files_ok l -> scan1_inv OID dbRoot part l a ->
  0 <= highEmptySegNum a < 2 ^ 16 - 1 -> lastExtentIndex a = -1 ->
  appended OID dbRoot l
    (mkFilePlace part (if bHighEmptySegNumSet a then u16 (highEmptySegNum a + 1) else 0) 0).
Proof.
  intros Hok [_ Hl] Hlt Hi e He Hu Ho Hp Hs. cbn in *.
  destruct Hl as [(_ & _ & _ & Hseg)|(k & ? & ? & _)]; [|lia].
  destruct (Hseg e He (conj Hu Ho) Hp) as [Hset Hle]. rewrite Hset in Hs.
  destruct (fk_fields _ Hok e He Hu) as [_ F _ _ _]. rewrite u16_id in Hs by lia. lia.
Qed.

(** ** Creating a column extent *)

(** Both depend on the extents only. *)
Lemma files_ok_extents m m' : extents m' = extents m ->
  files_ok (fExtentMap m) -> files_ok (fExtentMap m').
Proof.
  intros He [F R].
  assert (Hin : forall e, e ∈ fExtentMap m' -> in_use e = true -> e ∈ fExtentMap m).
  { intros e Hm Hu. eapply proj2, elem_of_extents. rewrite <- He. by apply elem_of_extents. }
  split; [intros e ??; auto|]. intros e e' H1 H2 U1 U2. by apply R; auto.
Qed.
Lemma appended_extents OID dbRoot m m' p : extents m' = extents m ->
  appended OID dbRoot (fExtentMap m') p -> appended OID dbRoot (fExtentMap m) p.
Proof.
  intros He H e Hin Hu. apply H; [|done]. eapply proj2, elem_of_extents.
  rewrite He. by apply elem_of_extents.
Qed.

(** A free entry is found when there is one. *)
Lemma scan1_found OID dbRoot part l a : scan1_inv OID dbRoot part l a ->
  total used_em l < Z.of_nat (length l) ->
  exists k e, emptyEMEntry a = Z.of_nat k /\ l !! k = Some e /\ in_use e = false.
Proof.
  intros [[[_ Hall]|H] _] Ht; [|done].
  destruct (total_lt used_em l (fun e => proj2 (used_em_bound e)) Ht) as (e & He & Hu).
  rewrite Forall_forall in Hall. rewrite in_use_used, (Hall e He) in Hu. lia.
Qed.

Lemma EXTENT_SIZE_bound w : 0 <= EXTENT_SIZE w / 1024 < 2 ^ 22.
Proof.
  unfold EXTENT_SIZE. pose proof (u32_range (ExtentRows * w)). unfold EM_BLOCK_SIZE.
  split; [apply Z.div_pos; [apply Z.div_pos|]; lia|].
  apply Z.div_lt_upper_bound; [lia|]. apply Z.div_lt_upper_bound; lia.
Qed.

Section CreateColumn.
Context (FILES EXTENTS ROOTS : Z) (HR : ROOTS <> 0).
Context (OID colWidth : Z) (dbRoot : DBROOTS_struct) (t : ColDataType) (part : Z).

(** The choice of the place, as the code makes it after its first scan. *)
Lemma choose_place m a : emEntries m = Z.of_nat (length (fExtentMap m)) ->
  files_ok (fExtentMap m) ->
  a = ifold (scan1_step OID dbRoot part) 0 (fExtentMap m) (mkScan1 (-1) (-1) 0 0 0 0 false) ->
  exists p, appended OID dbRoot (fExtentMap m) p /\
    runs (if decide (lastExtentIndex a >= 0) then
            last ← rdEM (lastExtentIndex a);
            b ← reading (fun _ =>
                  scan (scan2_step OID dbRoot (partitionNum last)) (fExtentMap m)
                    (seqZ 0 (emEntries m))
                    (mkScan2 false (segmentNum last) (-1) {[segmentNum last := blockOffset last]}));
            if decide (ROOTS = 0) then undefined DivisionByZero
            else mret (next_place FILES EXTENTS ROOTS colWidth last b)
          else
            mret (mkFilePlace part
                    (if bHighEmptySegNumSet a then u16 (highEmptySegNum a + 1) else 0) 0))
      m (Ret p) m.
Proof.
  intros Hn Hok Ha.
  pose proof (scan1_all OID dbRoot part _ (fk_fields _ Hok)) as Hinv. rewrite <- Ha in Hinv.
  pose proof (scan1_high OID dbRoot part _ (fk_fields _ Hok)) as Hhi. rewrite <- Ha in Hhi.
  pose proof (i1_last _ _ _ _ _ Hinv) as Hl.
  destruct (decide (lastExtentIndex a >= 0)) as [Hge|Hge].
  - destruct Hl as [(? & _)|(k & last & Hk & Hlk & Hm & _ & Hmax)]; [lia|].
    assert (Hin : last ∈ fExtentMap m) by (by eapply list_elem_of_lookup_2).
    pose proof (scan2_all OID dbRoot last _ (fk_fields _ Hok last Hin (proj1 (proj1 Hm)))
                  (fk_fields _ Hok)) as Hinv2.
    eexists. split.
    + apply (next_place_appended FILES EXTENTS ROOTS OID dbRoot _ Hok last Hin Hm Hmax _ Hinv2 colWidth).
      apply Hm.
    + rewrite Hk. eapply runs_bind; [by apply runs_rdEM|]. cbv beta.
      eapply runs_bind; [apply runs_reading; intros _; by apply scan_all|]. cbv beta.
      rewrite decide_False by done. apply runs_ret.
  - eexists. split; [|apply runs_ret]. apply place_empty_root; [done|done|done|].
    destruct Hl as [(? & _)|(k & ? & ? & _)]; lia.
Qed.

Lemma create_DBroot_runs m :
  let n := EXTENT_SIZE colWidth / 1024 in
  let create := create_DBroot FILES EXTENTS ROOTS OID colWidth dbRoot t part in
  em_wf m -> em_mapped m -> em_room 1 m -> files_ok (fExtentMap m) -> 0 < n ->
  (Forall (fun r => size r < n) (fFreeList m) /\
   exists m', runs create m (Throw RuntimeError) m' /\ em_wf m' /\ extents m' = extents m) \/
  exists lbid p m',
    runs create m (Ret (lbid, EXTENT_SIZE colWidth, p)) m' /\ em_wf m' /\ em_mapped m' /\
    extents m' ≡ₚ new_extent lbid n OID colWidth dbRoot p (first_valid p) t :: extents m /\
    appended OID dbRoot (fExtentMap m) p.
Proof.
  intros n create Hwf Hm Hroom Hok Hn. pose proof (EXTENT_SIZE_bound colWidth) as Hb.
  destruct (make_room_wf m Hwf Hm Hroom) as (m0 & Hr0 & Hwf0 & Hm0 & Hex0 & Hfl0 & Hlt & _).
  assert (Hok0 := files_ok_extents _ _ Hex0 Hok).
  destruct (getLBIDs_runs m0 n Hwf0 ltac:(lia))
    as [[Hno Hr1]|(i & r & m1 & Hi & Hsz & Hr1 & Hacc & Hsame)].
  { left. rewrite <- Hfl0. split; [done|]. exists m0. split; [|done].
    eapply runs_bind; [exact Hr0|]. apply runs_bind_throw. unfold _createColumnExtent_DBroot.
    eapply runs_bind; [apply runs_image|]. by apply runs_bind_throw. }
  right. destruct Hsame as [Hse Hsi _ Hsm].
  set (a := ifold (scan1_step OID dbRoot part) 0 (fExtentMap m1) (mkScan1 (-1) (-1) 0 0 0 0 false)).
  assert (Hn1 := emEntries_acc _ _ _ _ Hacc).
  assert (Hok1 : files_ok (fExtentMap m1)) by (by rewrite Hse).
  pose proof (scan1_all OID dbRoot part _ (fk_fields _ Hok1)) as Hinv. fold a in Hinv.
  rewrite <- Hse in Hlt. destruct (scan1_found _ _ _ _ _ Hinv Hlt) as (k & e & Hk & He & Hu).
  destruct (choose_place m1 a Hn1 Hok1 eq_refl) as (p & Hp & Hrp).
  destruct (fl_range_ok _ Hwf0 _ _ Hi) as [_ Hal].
  destruct (add_extent_runs m1 k e (fun _ => new_extent (start r) n OID colWidth dbRoot p
              (first_valid p) t) (start r) n Hacc He Hu eq_refl) as (m2 & Hr2 & Hwf2 & Hx);
    [lia|apply Hal; lia|].
  destruct Hx as (_ & _ & Hperm & Hmm). exists (start r), p, m2. split_and!.
  - eapply runs_bind; [exact Hr0|].
    eapply (runs_bind _ _ _ (start r, p)); [|apply runs_ret].
    unfold _createColumnExtent_DBroot. eapply runs_bind; [apply runs_image|].
    eapply runs_bind; [exact Hr1|]. eapply runs_bind; [apply runs_image|].
    eapply runs_bind; [apply runs_reading; intros _; by apply scan_all|]. fold a. cbv beta.
    rewrite Hk. rewrite decide_False by lia. eapply runs_bind; [exact Hrp|].
    eapply runs_bind; [exact Hr2|]. apply runs_ret.
  - done.
  - by apply Hmm, Hsm.
  - rewrite Hperm. unfold extents in *. rewrite Hse, Hex0. done.
  - rewrite Hse in Hp. by apply (appended_extents OID dbRoot m m0).
Qed.
End CreateColumn.

Lemma demo_files_ok : files_ok (fExtentMap demo_image).
Proof.
  split.
  - intros e He Hu. unfold demo_image in He. cbn [fExtentMap] in He.
    repeat (apply elem_of_cons in He as [->|He]); [| |done..|by apply elem_of_nil in He];
      split; cbn; lia.
  - intros e e' He He' Hu Hu' _. unfold demo_image in *. cbn [fExtentMap] in *.
    repeat (apply elem_of_cons in He as [->|He]); [| |done..|by apply elem_of_nil in He];
      (repeat (apply elem_of_cons in He' as [->|He']); [done|done|done..|by apply elem_of_nil in He']).
Qed.

(** C21: Creating a column extent on a DBRoot.  Let the extents and the free
    list partition the LBID space, and let every segment file lie on one list
    of DBRoots.  Either no range of the free list is long enough, and the call
    throws a [runtime_error] and leaves the extents as they were; or it returns
    with exactly one extent more, which has the LBID, partition, segment and
    offset that were returned, the asked number of blocks and an empty range
    of values; its blocks were free, the partition invariant still holds, and
    in its segment file it lies behind every other extent. *)
Theorem em_createColumnExtent_refines FILES EXTENTS ROOTS OID colWidth dbRoot t part m log :
  let n := EXTENT_SIZE colWidth / 1024 in
  em_wf m -> em_mapped m -> em_room 1 m -> files_ok (fExtentMap m) -> ROOTS <> 0 -> 0 < n ->
  exists r m' log',
    createColumnExtent_DBroot FILES EXTENTS ROOTS OID colWidth dbRoot t part true
      (mkExtentMap (mkUndoable m log) false false)
    = (r, mkExtentMap (mkUndoable m' log') true true) /\ em_wf m' /\
    ((r = Throw RuntimeError /\ extents m' = extents m /\
      Forall (fun f => size f < n) (fFreeList m)) \/
     exists lbid p, r = Ret (lbid, EXTENT_SIZE colWidth, p) /\
       extents m' ≡ₚ new_extent lbid n OID colWidth dbRoot p (first_valid p) t :: extents m /\
       (forall b, covers b (mkInline lbid n) ->
          0 <= b < SPACE /\ forall e, e ∈ extents m -> ~ covers b (range e)) /\
       appended OID dbRoot (fExtentMap m) p).
Proof.
  intros n Hwf Hm Hroom Hok HR Hn.
  assert (Hlock : createColumnExtent_DBroot FILES EXTENTS ROOTS OID colWidth dbRoot t part true
            (mkExtentMap (mkUndoable m log) false false)
          = on_image (create_DBroot FILES EXTENTS ROOTS OID colWidth dbRoot t part)
              (mkExtentMap (mkUndoable m log) true true)).
  { unfold createColumnExtent_DBroot. erewrite bind_Ret; [done|].
    erewrite bind_Ret by (by apply grabEM_mapped). by apply grabFL_mapped. }
  destruct (create_DBroot_runs FILES EXTENTS ROOTS HR OID colWidth dbRoot t part m
              Hwf Hm Hroom Hok Hn)
    as [(Hno & m' & Hr & Hwf' & Hex)|(lbid & p & m' & Hr & Hwf' & Hm' & Hex & Hp)];
    destruct (runs_on_image _ _ _ _ log true true Hr) as [log' Hrun];
    eexists _, m', log'; rewrite Hlock; (split; [exact Hrun|]; split; [done|]).
  - left. done.
  - right. exists lbid, p. split_and!; [done|done| |done]. intros b Hb.
    assert (Hnew : new_extent lbid n OID colWidth dbRoot p (first_valid p) t ∈ extents m')
      by (rewrite Hex; left).
    apply elem_of_extents in Hnew as [_ [i Hi]%list_elem_of_lookup].
    split; [by eapply cover_em_fl|]. intros e He Hcov.
    by apply (perm_disjoint m' _ (extents m) b e Hwf' Hex).
Qed.

Lemma em_createColumnExtent_refines_witness :
  exists r m' log',
    createColumnExtent_DBroot 4 2 1 3001 8 root1 BIGINT 0 true demo_map
    = (r, mkExtentMap (mkUndoable m' log') true true) /\ em_wf m' /\
    ((r = Throw RuntimeError /\ extents m' = extents demo_image /\
      Forall (fun f => size f < 8) (fFreeList demo_image)) \/
     exists lbid p, r = Ret (lbid, EXTENT_SIZE 8, p) /\
       extents m' ≡ₚ new_extent lbid 8 3001 8 root1 p (first_valid p) BIGINT :: extents demo_image /\
       (forall b, covers b (mkInline lbid 8) ->
          0 <= b < SPACE /\ forall e, e ∈ extents demo_image -> ~ covers b (range e)) /\
       appended 3001 root1 (fExtentMap demo_image) p).
Proof.
  exact (em_createColumnExtent_refines 4 2 1 3001 8 root1 BIGINT 0 demo_image []
    demo_wf demo_mapped (room_le 10 1 _ demo_room ltac:(lia)) demo_files_ok ltac:(lia) ltac:(done)).
Defined.

(** ** Dictionary store extents *)

(** A file on two DBRoots, and an unused entry that once was on DBRoot 5. *)
Definition dict_image : em_image :=
  mkImage [mkEM (mkInline 0 8) 3002 0 (mkRoots [1; 2; 0; 0]) 10 0 0 0 EXTENTAVAILABLE
             (mkCP int64_min int64_max 0 CP_INVALID);
           set_roots (mkRoots [1; 5; 0; 0]) free_em]
    (mkMST 0x20001 144 72) 0x20001 true
    [mkInline 8192 (MAX_LBID_SIZE - 8)] (mkMST 0x30001 16 16) 0x30001 true.

(** A further extent of a dictionary store file takes over the first DBRoot of
    the file only; the others are those of the entry it reuses.  The new
    extent of the file on DBRoots 1 and 2 is listed on DBRoots 1 and 5. *)
Theorem em_dict_stale_roots :
  exists r s, createDictStoreExtent 3002 (mkRoots [1; 2; 0; 0]) 0 0
                (mkExtentMap (mkUndoable dict_image []) false false) = (Ret r, s) /\
    map em_dbRoots (extents (image (em_und s))) = [mkRoots [1; 2; 0; 0]; mkRoots [1; 5; 0; 0]].
Proof. do 2 eexists. split; [vm_compute; reflexivity|]. vm_compute. done. Qed.
