(* ===== verification/ExtentFree.v ===== *)
(** * Giving a range back to the free list

    [deleteExtent] joins the range of the extent with its neighbours in the
    free list.  It keeps the invariant and removes exactly one extent. *)
From Stdlib Require Import ZArith Lia.
From S2P Require Import Prelude Bytes Undoable BrmTypes CopyLocks ExtentMap ExtentAlloc ExtentProofs.

Local Open Scope Z_scope.

(** ** The neighbours of a range *)

(** An index of the scan: -1, or an entry with a property. *)
Definition slot_with (P : InlineLBIDRange -> Prop) (l : list InlineLBIDRange) (i : Z) : Prop :=
  i = -1 \/ exists k r, i = Z.of_nat k /\ l !! k = Some r /\ P r.

Definition precedes (em r : InlineLBIDRange) : Prop :=
  size r <> 0 /\ start r + size r * 1024 = start em.
Definition succeeds (em r : InlineLBIDRange) : Prop :=
  size r <> 0 /\ start em + size em * 1024 = start r.

Record place_inv (em : InlineLBIDRange) (l : list InlineLBIDRange) (p : fl_place) : Prop := {
  pi_prec : slot_with (precedes em) l (preceeding p);
  pi_succ : slot_with (succeeds em) l (succeeding p);
  pi_free : slot_with (fun r => size r = 0) l (freeFL p);
  pi_full : freeFL p = -1 -> Forall (fun r => size r <> 0) l;
}.

Lemma slot_app P l x i : slot_with P l i -> slot_with P (l ++ [x]) i.
Proof.
  intros [->|(k & r & -> & Hk & Hr)]; [by left|]. right. exists k, r.
  split_and!; [done|by apply lookup_app_l_Some|done].
Qed.
Lemma slot_snoc P l (x : InlineLBIDRange) : P x -> slot_with P (l ++ [x]) (Z.of_nat (length l)).
Proof. intros Hx. right. exists (length l), x. split_and!; [done|by apply list_lookup_middle|done]. Qed.

Lemma place_all em l : place_inv em l (ifold (place_step em) 0 l (mkPlace (-1) (-1) (-1))).
Proof.
  apply (ifold_ind _ (place_inv em)); [by split; try left|].
  intros pre x p [H1 H2 H3 H4].
  assert (Hfull : size x <> 0 -> freeFL p = -1 -> Forall (fun r => size r <> 0) (pre ++ [x]))
    by (intros ??; apply Forall_app; auto).
  unfold place_step. case_decide as Hz; [|case_decide; [|case_decide]]; split; cbn;
    try (by apply slot_app); try (by apply slot_snoc); try (by apply Hfull). lia.
Qed.

(** ** Steps on the free list *)

Lemma with_fl_fl l m : fFreeList (with_fl l m) = l.
Proof. done. Qed.

Lemma runs_grow_range m i r n : fFreeList m !! i = Some r ->
  runs (grow_range (Z.of_nat i) n) m (Ret tt)
    (with_fl (<[i := mkInline (start r) (u32 (size r + n))]> (fFreeList m)) m).
Proof. intros Hi. unfold grow_range. runs_step. apply runs_wrFL. by eapply lookup_lt_Some. Qed.

(** Moving an entry to an unused one changes nothing but its place. *)
Lemma migrate_runs D df de m i f r : em_acc D df de m -> fFreeList m !! i = Some r -> size r <> 0 ->
  slot_with (fun x => size x = 0) (fFreeList m) f ->
  exists i' m', runs (migrate (Z.of_nat i) f) m (Ret (Z.of_nat i')) m' /\ em_acc D df de m' /\
    fFreeList m' !! i' = Some r /\ same_em m m' /\
    (forall j x, j <> i -> fFreeList m !! j = Some x -> size x <> 0 ->
       fFreeList m' !! j = Some x /\ j <> i').
Proof.
  intros Hacc Hi Hr Hf. unfold migrate.
  destruct (decide (f < Z.of_nat i /\ f <> -1)) as [[Hlt Hne]|Hno].
  2: { exists i, m. split_and!; [apply runs_ret|done|done|done|]. intros j x ? ? ?. done. }
  destruct Hf as [?|(k & x & -> & Hk & Hx)]; [done|].
  assert (Hki : k <> i) by lia. assert (Hkl := lookup_lt_Some _ _ _ Hk).
  assert (Hil := lookup_lt_Some _ _ _ Hi).
  pose proof (Forall_lookup_1 _ _ _ _ (ew_fl_ranges _ _ _ _ Hacc) Hi) as Hok.
  exists k. eexists. split_and!.
  - runs_step. runs_step. eapply runs_bind; [by apply runs_wrFL|].
    eapply runs_bind; [apply runs_wrFL; cbn; by rewrite length_insert|]. apply runs_ret.
  - eapply acc_ext.
    + apply (acc_fl _ _ _ _ (acc_fl _ _ _ _ Hacc k x r Hk Hok) i r (mkInline (start r) 0)).
      * cbn. by rewrite list_lookup_insert_ne.
      * by split.
    + intros b. cbv beta. rewrite (cov_unused b x Hx), (cov_unused b (mkInline (start r) 0)) by done.
      lia.
    + clear -Hx Hr. unfold sizeof_Inline. cov_solve.
    + done.
  - cbn. rewrite list_lookup_insert_ne by done. by rewrite list_lookup_insert_eq.
  - etrans; [apply same_em_fl|]. apply (same_em_fl i (mkInline (start r) 0) (with_fl _ m)).
  - intros j y Hji Hj Hy. assert (j <> k) by (intros ->; congruence).
    cbn. rewrite !list_lookup_insert_ne by done. done.
Qed.

(** The segment of the free list grows by 50 entries. *)
Lemma growFL_runs D df de m : em_acc D df de m -> em_mapped m -> em_room 1 m ->
  exists m', runs growFLShmseg m (Ret tt) m' /\ em_acc D df de m' /\ em_mapped m' /\
    fExtentMap m' = fExtentMap m /\ fFreeList m' = fFreeList m ++ replicate 50 free_range /\
    fEMShminfo m' = fEMShminfo m.
Proof.
  intros Hacc [M1 M2 M3 M4] (_ & Hr & _ & Hl). destruct Hacc as [A1 A2 A3 A4 A5 A6 A7].
  unfold EM_FREELIST_INCREMENT, sizeof_Inline in *.
  eexists. split; [apply runs_modify|].
  rewrite bool_decide_eq_false_2 by (unfold sizeof_Inline in *; lia). rewrite M2.
  unfold EM_FREELIST_INCREMENT, sizeof_Inline. rewrite A2.
  replace (16 * Z.of_nat (length (fFreeList m)) + 50 * 16)
    with ((Z.of_nat (length (fFreeList m)) + 50) * 16) by lia.
  rewrite Z.div_mul by lia. rewrite s32_id by lia.
  assert (Hg : grown free_range (fFreeList m) (Z.of_nat (length (fFreeList m)) + 50)
               = fFreeList m ++ replicate 50 free_range).
  { unfold grown. f_equal. f_equal. lia. }
  split_and!; [|by split|done|exact Hg|done].
  split; cbn; try done.
  - rewrite length_grown by lia. unfold sizeof_Inline. lia.
  - by rewrite total_grown by done.
  - rewrite Hg. apply Forall_app. split; [done|]. apply Forall_replicate, range_ok_free.
  - intros b. rewrite total_grown by apply cov_free. apply A7.
Qed.

(** ** The four cases *)

(** The free list has taken in the range [em]. *)
Definition taken_in (m : em_image) (em : InlineLBIDRange) (m' : em_image) : Prop :=
  em_acc (fun b => - cov b em) 0 0 m' /\ fExtentMap m' = fExtentMap m /\
  (em_mapped m -> em_mapped m') /\
  (length (fFreeList m) <= length (fFreeList m') <= length (fFreeList m) + 50)%nat.

Section Cases.
Context (m : em_image) (Hwf : em_wf m).
Context (j : nat) (e : EMEntry) (Hj : fExtentMap m !! j = Some e) (Hu : in_use e = true).
Let em := range e.
Context (f : Z) (Hf : slot_with (fun x => size x = 0) (fFreeList m) f).

Lemma em_ok : 0 < size em < 2 ^ 32 /\ start em mod 1024 = 0 /\
  0 <= start em /\ start em + size em * 1024 <= SPACE.
Proof.
  apply in_use_true in Hu. destruct (em_range_ok _ Hwf _ _ Hj) as [H1 H2].
  pose proof (em_in_space _ Hwf _ _ Hj Hu). specialize (H2 Hu). unfold em. lia.
Qed.

Lemma case_between ip is_ rp rs : fFreeList m !! ip = Some rp -> precedes em rp ->
  fFreeList m !! is_ = Some rs -> succeeds em rs ->
  exists m', taken_in m em m' /\
    runs (makeUndoRecord [CFL (Z.of_nat ip)];;
          i ← migrate (Z.of_nat ip) f;
          s ← rdFL (Z.of_nat is_);
          grow_range i (u32 (size s + size em));;
          makeUndoRecord [CFL (Z.of_nat is_)];;
          wrFL (Z.of_nat is_) (mkInline (start s) 0);;
          makeUndoRecord [CFLInfo];; addFLSize (- sizeof_Inline)) m (Ret tt) m'.
Proof.
  intros Hip [Hnp Hp] His [Hns Hs]. pose proof em_ok as (He1 & He2 & He3 & He4).
  destruct (fl_range_ok _ Hwf _ _ Hip) as [Hp1 Hp2], (fl_range_ok _ Hwf _ _ His) as [Hs1 Hs2].
  pose proof (fl_in_space _ Hwf _ _ Hip Hnp) as Hpi. pose proof (fl_in_space _ Hwf _ _ His Hns) as Hsi.
  destruct (migrate_runs _ _ _ m ip f rp Hwf Hip Hnp Hf) as (i' & m1 & Hr1 & Hacc1 & Hi' & Hsame & Hoth).
  destruct (Hoth is_ rs ltac:(intros ->; assert (rp = rs) by congruence; subst; lia) His Hns)
    as [His1 Hne].
  set (rp' := mkInline (start rp) (size rp + (size rs + size em))).
  assert (Hok : range_ok rp').
  { unfold rp', SPACE, MAX_LBID_SIZE in *. split; cbn; [lia|]. auto. }
  set (m2 := with_fl (<[i' := rp']> (fFreeList m1)) m1).
  set (m3 := with_fl (<[is_ := mkInline (start rs) 0]> (fFreeList m2)) m2).
  exists (with_flInfo (add_size (- sizeof_Inline) (fFLShminfo m3)) m3). split.
  - destruct Hsame as [E1 E2 E3 E4]. split; [|split; [done|split]].
    + assert (His2 : fFreeList m2 !! is_ = Some rs)
        by (unfold m2; cbn; by rewrite list_lookup_insert_ne).
      eapply acc_ext.
      * apply acc_fl_info, (acc_fl _ _ _ _ (acc_fl _ _ _ _ Hacc1 i' rp rp' Hi' Hok) is_ rs
          (mkInline (start rs) 0) His2). by split.
      * intros b. cbv beta. unfold rp'. clear -Hp Hs He1 Hnp Hns Hp1 Hs1. unfold em in *. cov_solve.
      * unfold rp'. clear -Hnp Hns He1 Hp1 Hs1. unfold em in *. unfold sizeof_Inline. cov_solve.
      * done.
    + intros ?. unfold m3, m2. autorewrite with mapped. auto.
    + unfold m3, m2. cbn. rewrite !length_insert. lia.
  - runs_step. eapply runs_bind; [exact Hr1|]. runs_step.
    eapply runs_bind; [by apply runs_grow_range|]. unfold SPACE, MAX_LBID_SIZE in *.
    rewrite (u32_id (size rs + size em)) by lia. rewrite u32_id by lia.
    runs_step. eapply runs_bind.
    { apply runs_wrFL. cbn. rewrite length_insert. by eapply lookup_lt_Some. }
    runs_step. apply runs_addFLSize.
Qed.

Lemma case_after is_ rs : fFreeList m !! is_ = Some rs -> succeeds em rs ->
  exists m', taken_in m em m' /\
    runs (makeUndoRecord [CFL (Z.of_nat is_)];;
          i ← migrate (Z.of_nat is_) f;
          r ← rdFL i; wrFL i (mkInline (start em) (size r));;
          grow_range i (size em)) m (Ret tt) m'.
Proof.
  intros His [Hns Hs]. pose proof em_ok as (He1 & He2 & He3 & He4).
  destruct (fl_range_ok _ Hwf _ _ His) as [Hs1 Hs2].
  pose proof (fl_in_space _ Hwf _ _ His Hns) as Hsi.
  destruct (migrate_runs _ _ _ m is_ f rs Hwf His Hns Hf) as (i' & m1 & Hr1 & Hacc1 & Hi' & Hsame & _).
  set (r1 := mkInline (start em) (size rs)).
  set (r2 := mkInline (start em) (size rs + size em)).
  assert (Hok : range_ok r2).
  { unfold r2, SPACE, MAX_LBID_SIZE in *. split; cbn; [lia|]. auto. }
  assert (Hlt := lookup_lt_Some _ _ _ Hi').
  exists (with_fl (<[i' := r2]> (<[i' := r1]> (fFreeList m1))) m1). split.
  - rewrite list_insert_insert_eq. destruct Hsame as [E1 E2 E3 E4]. split; [|split; [done|split]].
    + eapply acc_ext; [apply (acc_fl _ _ _ _ Hacc1 i' rs r2 Hi' Hok)| | |done].
      * intros b. cbv beta. unfold r2. clear -Hs He1 Hns Hs1. unfold em in *. cov_solve.
      * unfold r2. clear -Hns He1 Hs1. unfold em in *. unfold sizeof_Inline. cov_solve.
    + intros ?. autorewrite with mapped. auto.
    + cbn. rewrite !length_insert. lia.
  - runs_step. eapply runs_bind; [exact Hr1|]. runs_step.
    eapply runs_bind; [by apply runs_wrFL|].
    assert (Hi2 : fFreeList (with_fl (<[i' := r1]> (fFreeList m1)) m1) !! i' = Some r1)
      by (cbn; by rewrite list_lookup_insert_eq).
    pose proof (runs_grow_range _ _ _ (size em) Hi2) as Hg. cbn [r1 start size] in Hg.
    unfold SPACE, MAX_LBID_SIZE in *. rewrite u32_id in Hg by lia. exact Hg.
Qed.

Lemma case_before ip rp : fFreeList m !! ip = Some rp -> precedes em rp ->
  exists m', taken_in m em m' /\
    runs (makeUndoRecord [CFL (Z.of_nat ip)];;
          i ← migrate (Z.of_nat ip) f;
          grow_range i (size em)) m (Ret tt) m'.
Proof.
  intros Hip [Hnp Hp]. pose proof em_ok as (He1 & He2 & He3 & He4).
  destruct (fl_range_ok _ Hwf _ _ Hip) as [Hp1 Hp2].
  pose proof (fl_in_space _ Hwf _ _ Hip Hnp) as Hpi.
  destruct (migrate_runs _ _ _ m ip f rp Hwf Hip Hnp Hf) as (i' & m1 & Hr1 & Hacc1 & Hi' & Hsame & _).
  set (r2 := mkInline (start rp) (size rp + size em)).
  assert (Hok : range_ok r2).
  { unfold r2, SPACE, MAX_LBID_SIZE in *. split; cbn; [lia|]. auto. }
  exists (with_fl (<[i' := r2]> (fFreeList m1)) m1). split.
  - destruct Hsame as [E1 E2 E3 E4]. split; [|split; [done|split]].
    + eapply acc_ext; [apply (acc_fl _ _ _ _ Hacc1 i' rp r2 Hi' Hok)| | |done].
      * intros b. cbv beta. unfold r2. clear -Hp He1 Hnp Hp1. unfold em in *. cov_solve.
      * unfold r2. clear -Hnp He1 Hp1. unfold em in *. unfold sizeof_Inline. cov_solve.
    + intros ?. autorewrite with mapped. auto.
    + cbn. rewrite !length_insert. lia.
  - runs_step. eapply runs_bind; [exact Hr1|].
    pose proof (runs_grow_range _ _ _ (size em) Hi') as Hg.
    unfold SPACE, MAX_LBID_SIZE in *. rewrite u32_id in Hg by lia. exact Hg.
Qed.
End Cases.

(** No neighbours: the range gets an entry of its own. *)
Lemma case_alone m j e p : em_wf m -> em_mapped m -> em_room 1 m ->
  fExtentMap m !! j = Some e -> in_use e = true -> place_inv (range e) (fFreeList m) p ->
  exists m', taken_in m (range e) m' /\
    runs (f ← (if decide (currentSize (fFLShminfo m) = allocdSize (fFLShminfo m)) then
                 growFLShmseg;; mret (flEntries m)
               else mret (freeFL p));
          makeUndoRecord [CFL f];; wrFL f (range e);;
          makeUndoRecord [CMembers];; addFLSize sizeof_Inline) m (Ret tt) m'.
Proof.
  intros Hwf Hm Hroom Hj Hu Hp. pose proof Hu as Hu'. apply in_use_true in Hu'.
  pose proof (em_range_ok _ Hwf _ _ Hj) as Hok.
  assert (Hplace : exists k x m1,
    runs (if decide (currentSize (fFLShminfo m) = allocdSize (fFLShminfo m)) then
            growFLShmseg;; mret (flEntries m)
          else mret (freeFL p)) m (Ret (Z.of_nat k)) m1 /\
    em_wf m1 /\ em_mapped m1 /\ fExtentMap m1 = fExtentMap m /\ fFreeList m1 !! k = Some x /\
    size x = 0 /\
    (length (fFreeList m) <= length (fFreeList m1) <= length (fFreeList m) + 50)%nat).
  { destruct (decide (currentSize (fFLShminfo m) = allocdSize (fFLShminfo m))) as [Hfull|Hfull].
    - destruct (growFL_runs _ _ _ m Hwf Hm Hroom) as (m1 & Hr & Hwf1 & Hm1 & He & Hfl & _).
      exists (length (fFreeList m)), free_range, m1. split_and!; try done.
      + eapply runs_bind; [exact Hr|]. rewrite (flEntries_wf _ Hwf). apply runs_ret.
      + rewrite Hfl. by apply list_lookup_middle.
      + rewrite Hfl, length_app, length_replicate. lia.
      + rewrite Hfl, length_app, length_replicate. lia.
    - destruct (pi_free _ _ _ Hp) as [Hno|(k & x & -> & Hk & Hx)].
      + exfalso. apply Hfull. rewrite (ew_fl_size _ _ _ _ Hwf), (ew_fl_alloc _ _ _ _ Hwf).
        pose proof (pi_full _ _ _ Hp Hno) as Hall.
        enough (total used (fFreeList m) = Z.of_nat (length (fFreeList m))) by lia.
        clear -Hall. induction Hall as [|x l Hx _ IH]; [done|]. rewrite total_cons, IH.
        unfold used. rewrite decide_False by done. cbn [length]. lia.
      + exists k, x, m. split_and!; try done; [apply runs_ret|lia..]. }
  destruct Hplace as (k & x & m1 & Hr & Hwf1 & Hm1 & He & Hk & Hx & Hlen).
  set (m2 := with_fl (<[k := range e]> (fFreeList m1)) m1).
  exists (with_flInfo (add_size sizeof_Inline (fFLShminfo m2)) m2). split.
  - split; [|split; [done|split]].
    + eapply acc_ext; [apply acc_fl_info, (acc_fl _ _ _ _ Hwf1 k x (range e) Hk Hok)| | |done].
      * intros b. cbv beta. rewrite (cov_unused b x Hx). lia.
      * clear -Hx Hu'. unfold sizeof_Inline. cov_solve.
    + intros _. unfold m2. autorewrite with mapped. done.
    + unfold m2. cbn. by rewrite length_insert.
  - eapply runs_bind; [exact Hr|]. runs_step.
    eapply runs_bind; [apply runs_wrFL; by eapply lookup_lt_Some|]. runs_step. apply runs_addFLSize.
Qed.

(** ** deleteExtent *)

Lemma deleteExtent_runs m j e : em_wf m -> em_mapped m -> em_room 1 m ->
  fExtentMap m !! j = Some e -> in_use e = true ->
  exists m', runs (deleteExtent (Z.of_nat j)) m (Ret tt) m' /\ em_wf m' /\ em_mapped m' /\
    fExtentMap m' = <[j := set_size 0 e]> (fExtentMap m) /\
    (length (fFreeList m) <= length (fFreeList m') <= length (fFreeList m) + 50)%nat.
Proof.
  intros Hwf Hm Hroom Hj Hu.
  set (p := ifold (place_step (range e)) 0 (fFreeList m) (mkPlace (-1) (-1) (-1))).
  pose proof (place_all (range e) (fFreeList m)) as Hp. fold p in Hp.
  assert (Hstep : exists m1, taken_in m (range e) m1 /\
    runs (if decide (preceeding p <> -1 /\ succeeding p <> -1) then
            makeUndoRecord [CFL (preceeding p)];;
            i ← migrate (preceeding p) (freeFL p);
            s ← rdFL (succeeding p);
            grow_range i (u32 (size s + size (range e)));;
            makeUndoRecord [CFL (succeeding p)];;
            wrFL (succeeding p) (mkInline (start s) 0);;
            makeUndoRecord [CFLInfo];; addFLSize (- sizeof_Inline)
          else if decide (succeeding p <> -1) then
            makeUndoRecord [CFL (succeeding p)];;
            i ← migrate (succeeding p) (freeFL p);
            r ← rdFL i; wrFL i (mkInline (start (range e)) (size r));;
            grow_range i (size (range e))
          else if decide (preceeding p <> -1) then
            makeUndoRecord [CFL (preceeding p)];;
            i ← migrate (preceeding p) (freeFL p);
            grow_range i (size (range e))
          else
            f ← (if decide (currentSize (fFLShminfo m) = allocdSize (fFLShminfo m)) then
                   growFLShmseg;; mret (flEntries m)
                 else mret (freeFL p));
            makeUndoRecord [CFL f];; wrFL f (range e);;
            makeUndoRecord [CMembers];; addFLSize sizeof_Inline) m (Ret tt) m1).
  { pose proof (pi_free _ _ _ Hp) as Hfree.
    destruct (pi_prec _ _ _ Hp) as [E1|(ip & rp & E1 & Hip & Hrp)],
      (pi_succ _ _ _ Hp) as [E2|(is_ & rs & E2 & His & Hrs)]; rewrite E1, E2.
    - rewrite decide_False, decide_False, decide_False by lia. by apply (case_alone m j e p).
    - rewrite decide_False, decide_True by lia. by apply (case_after m Hwf j e Hj Hu _ Hfree is_ rs).
    - rewrite decide_False, decide_False, decide_True by lia.
      by apply (case_before m Hwf j e Hj Hu _ Hfree ip rp).
    - rewrite decide_True by lia.
      by apply (case_between m Hwf j e Hj Hu _ Hfree ip is_ rp rs). }
  destruct Hstep as (m1 & (Hacc & He & Hmm & Hlen) & Hrun).
  rewrite <- He in Hj. set (m2 := with_em (<[j := set_size 0 e]> (fExtentMap m1)) m1).
  exists (with_emInfo (add_size (- sizeof_EMEntry) (fEMShminfo m2)) m2). split_and!.
  - eapply runs_bind; [apply runs_image|]. rewrite He in Hj.
    eapply runs_bind; [by apply runs_rdEM|]. cbv beta zeta.
    eapply runs_bind; [apply runs_reading; intros _; apply scan_all, flEntries_wf, Hwf|]. fold p.
    cbv beta. eapply runs_bind; [exact Hrun|]. rewrite <- He in Hj.
    eapply runs_bind; [by apply runs_changeEM|]. runs_step. apply runs_addEMSize.
  - eapply acc_ext.
    + apply acc_em_info, (acc_em _ _ _ _ Hacc _ _ (set_size 0 e) Hj). by split.
    + intros b. cbv beta. rewrite (cov_unused b (range (set_size 0 e))) by done. lia.
    + done.
    + apply in_use_true in Hu. clear -Hu.
      change (range (set_size 0 e)) with (mkInline (start (range e)) 0).
      unfold sizeof_EMEntry. cov_solve.
  - unfold m2. autorewrite with mapped. auto.
  - cbn. by rewrite He.
  - apply Hlen.
  - apply Hlen.
Qed.

(** One extent less. *)
Lemma extents_delete m m' j e : fExtentMap m !! j = Some e -> in_use e = true ->
  fExtentMap m' = <[j := set_size 0 e]> (fExtentMap m) -> extents m ≡ₚ e :: extents m'.
Proof.
  intros Hj Hu He. unfold extents. rewrite He.
  apply (filter_insert_gone (fun e => in_use e = true)); [done|done|]. by intros ?%in_use_true.
Qed.

(** Room for one deletion less. *)
Lemma room_delete k m m' : em_room k m -> length (fExtentMap m') = length (fExtentMap m) ->
  (length (fFreeList m) <= length (fFreeList m') <= length (fFreeList m) + 50)%nat ->
  em_room (k - 1) m'.
Proof.
  unfold em_room, EM_INCREMENT, EM_FREELIST_INCREMENT, sizeof_EMEntry, sizeof_Inline,
    EM_INCREMENT_ROWS. lia.
Qed.
