(* ===== verification/ExtentDelete.v ===== *)
(** * Deleting extents in bulk: src/versioning/BRM/extentmap.cpp

    Everything that calls [deleteExtent]: the roll back of a bulk load
    ([rollbackColumnExtents_DBroot], [rollbackDictStoreExtents_DBroot],
    [deleteEmptyColExtents], [deleteEmptyDictStoreExtents]), dropping columns
    ([deleteOID], [deleteOIDs]), partitions and DBRoots; and the operations on
    partitions that only mark extents. *)
From Stdlib Require Import ZArith Lia.
From S2P Require Import Prelude Bytes Undoable BrmTypes CopyLocks ExtentMap ExtentAlloc.

Local Open Scope Z_scope.

(** Both tables are locked for writing. *)
Definition lock_both : prog extent_map unit := grabEMEntryTable WRITE;; grabFreeList WRITE.

(** ** Rolling back *)

(** What a roll back does with an extent. *)
Inductive action := Keep | Drop | Reset (hwm : Z).

#[global] Instance action_eq_dec : EqDecision action.
Proof. solve_decision. Defined.

Definition run_action (i : Z) (a : action) : prog em_obj unit :=
  match a with
  | Keep => mret tt
  | Drop => deleteExtent i
  | Reset h => changeEM i (fun e => set_status EXTENTAVAILABLE (set_HWM h e))
  end.

(** The stripe (the extents of the segment files with the same offset) that
    contains the HWM, and the start of the one before. *)
Record stripe := mkStripe { fboLo : Z; fboHi : Z; fboLoPreviousStripe : Z }.

(** Computed from the first extent considered ([fboHi == 0] before). *)
Definition find_stripe (hwm : Z) (st : stripe) (e : EMEntry) : res stripe :=
  if decide (fboHi st = 0) then
    let range := u32 (size (range e) * 1024) in
    if decide (range = 0) then UB DivisionByZero
    else
      let lo := u32 (hwm - hwm mod range) in
      Ret (mkStripe lo (u32 (lo + range - 1))
             (if decide (lo > 0) then u32 (lo - range) else fboLoPreviousStripe st))
  else Ret st.

(** [if (HWM != h) { HWM = h; status = EXTENTAVAILABLE; }] *)
Definition reset_to (h : Z) (e : EMEntry) : action := if decide (HWM e = h) then Keep else Reset h.

(** The cases 1 to 5 of column extents. *)
Definition column_action (part seg hwm : Z) (st : stripe) (e : EMEntry) : action :=
  if decide (partitionNum e > part) then Drop
  else if decide (partitionNum e = part) then
    if decide (blockOffset e > fboHi st) then Drop
    else if decide (blockOffset e < fboLo st) then
      if decide (blockOffset e >= fboLoPreviousStripe st /\ segmentNum e > seg)
      then reset_to (u32 (fboLo st - 1)) e
      else Keep
    else
      if decide (segmentNum e > seg) then Drop
      else if decide (segmentNum e < seg) then reset_to (fboHi st) e
      else reset_to hwm e
  else Keep.

Definition of_oid_on (oid : Z) (dbRoot : DBROOTS_struct) (e : EMEntry) : bool :=
  in_use e && bool_decide (fileID e = oid) && roots_eqb (em_dbRoots e) dbRoot.

Fixpoint rollback_loop (is_ : list Z) (oid : Z) (bDeleteAll : bool) (dbRoot : DBROOTS_struct)
    (part seg hwm : Z) (st : stripe) : prog em_obj unit :=
  match is_ with
  | [] => mret tt
  | i :: is' =>
      e ← rdEM i;
      if of_oid_on oid dbRoot e && negb (bool_decide (status e = EXTENTOUTOFSERVICE)) then
        if bDeleteAll then
          deleteExtent i;; rollback_loop is' oid bDeleteAll dbRoot part seg hwm st
        else
          st' ← reading (fun _ => find_stripe hwm st e);
          run_action i (column_action part seg hwm st' e);;
          rollback_loop is' oid bDeleteAll dbRoot part seg hwm st'
      else rollback_loop is' oid bDeleteAll dbRoot part seg hwm st
  end.

Definition rollbackColumnExtents_DBroot (oid : Z) (bDeleteAll : bool) (dbRoot : DBROOTS_struct)
    (part seg hwm : Z) : prog extent_map unit :=
  lock_both;;
  n ← gets (fun s => emEntries (image (em_und s)));
  on_image (rollback_loop (seqZ 0 n) oid bDeleteAll dbRoot part seg hwm (mkStripe 0 0 0)).

(** [segToHwmMap]: the HWM of a segment file and the offset of its extent. *)
Fixpoint seg_hwms (segNums hwms : list Z) (range : Z) (acc : gmap Z (Z * Z))
    : res (gmap Z (Z * Z)) :=
  match hwms with
  | [] => Ret acc
  | hwm :: hwms' =>
      if decide (range = 0) then UB DivisionByZero
      else match segNums with
           | [] => UB OutOfBounds
           | seg :: segNums' =>
               seg_hwms segNums' hwms' range (<[seg := (hwm, u32 (hwm - hwm mod range))]> acc)
           end
  end.

(** The cases 1 to 4 of dictionary store extents. *)
Definition dict_action (part : Z) (segToHwmMap : gmap Z (Z * Z)) (e : EMEntry) : action :=
  if decide (partitionNum e > part) then Drop
  else if decide (partitionNum e = part) then
    match segToHwmMap !! segmentNum e with
    | None => Drop
    | Some (hwm, lo) =>
        if decide (blockOffset e < lo) then Keep
        else if decide (blockOffset e = lo) then reset_to hwm e
        else Drop
    end
  else Keep.

Fixpoint rollback_dict_loop (is_ : list Z) (oid : Z) (dbRoot : DBROOTS_struct) (part : Z)
    (segNums hwms : list Z) (segToHwmMap : gmap Z (Z * Z)) : prog em_obj unit :=
  match is_ with
  | [] => mret tt
  | i :: is' =>
      e ← rdEM i;
      if of_oid_on oid dbRoot e && negb (bool_decide (status e = EXTENTOUTOFSERVICE)) then
        if decide (hwms = []) then
          deleteExtent i;; rollback_dict_loop is' oid dbRoot part segNums hwms segToHwmMap
        else
          mp ← (if decide (base.size segToHwmMap = 0%nat) then
                  reading (fun _ => seg_hwms segNums hwms (u32 (size (range e) * 1024)) ∅)
                else mret segToHwmMap);
          run_action i (dict_action part mp e);;
          rollback_dict_loop is' oid dbRoot part segNums hwms mp
      else rollback_dict_loop is' oid dbRoot part segNums hwms segToHwmMap
  end.

Definition rollbackDictStoreExtents_DBroot (oid : Z) (dbRoot : DBROOTS_struct) (part : Z)
    (segNums hwms : list Z) : prog extent_map unit :=
  lock_both;;
  n ← gets (fun s => emEntries (image (em_und s)));
  on_image (rollback_dict_loop (seqZ 0 n) oid dbRoot part segNums hwms ∅).

(** [ExtentsInfoMap_t] maps an OID to the last extent to keep; the list is in
    the order of the map. *)
Record ExtentInfo := mkInfo {
  xi_partitionNum : Z; xi_segmentNum : Z; xi_dbRoot : DBROOTS_struct; xi_hwm : Z;
  xi_newFile : bool;
}.
Definition ExtentsInfoMap := list (Z * ExtentInfo).

Fixpoint info_find (oid : Z) (l : ExtentsInfoMap) : option ExtentInfo :=
  match l with
  | [] => None
  | (k, x) :: l' => if decide (k = oid) then Some x else info_find oid l'
  end.

(** One stripe is used for all the columns: that of the first extent. *)
Fixpoint empty_col_loop (is_ : list Z) (infos : ExtentsInfoMap) (st : stripe)
    : prog em_obj unit :=
  match is_ with
  | [] => mret tt
  | i :: is' =>
      e ← rdEM i;
      match (if in_use e then info_find (fileID e) infos else None) with
      | Some x =>
          if decide (status e = EXTENTOUTOFSERVICE) then empty_col_loop is' infos st
          else
            st' ← reading (fun _ => find_stripe (xi_hwm x) st e);
            run_action i (column_action (xi_partitionNum x) (xi_segmentNum x) (xi_hwm x) st' e);;
            empty_col_loop is' infos st'
      | None => empty_col_loop is' infos st
      end
  end.

Definition deleteEmptyColExtents (infos : ExtentsInfoMap) : prog extent_map unit :=
  lock_both;;
  n ← gets (fun s => emEntries (image (em_und s)));
  on_image (empty_col_loop (seqZ 0 n) infos (mkStripe 0 0 0)).

(** The cases of an old dictionary store file. *)
Definition empty_dict_action (x : ExtentInfo) (st : stripe) (e : EMEntry) : action :=
  if decide (partitionNum e > xi_partitionNum x) then Drop
  else if decide (partitionNum e = xi_partitionNum x /\ segmentNum e = xi_segmentNum x) then
    if decide (blockOffset e < fboLo st) then Keep
    else if decide (blockOffset e = fboLo st) then reset_to (xi_hwm x) e
    else Drop
  else Keep.

Fixpoint empty_dict_loop (is_ : list Z) (infos : ExtentsInfoMap) (newFile : bool) (st : stripe)
    : prog em_obj unit :=
  match is_ with
  | [] => mret tt
  | i :: is' =>
      e ← rdEM i;
      match (if in_use e then info_find (fileID e) infos else None) with
      | Some x =>
          if newFile then
            (if bool_decide (partitionNum e = xi_partitionNum x)
                && bool_decide (segmentNum e = xi_segmentNum x)
                && roots_eqb (em_dbRoots e) (xi_dbRoot x)
             then deleteExtent i else mret tt);;
            empty_dict_loop is' infos newFile st
          else if decide (status e = EXTENTOUTOFSERVICE) then empty_dict_loop is' infos newFile st
          else
            st' ← reading (fun _ => find_stripe (xi_hwm x) st e);
            run_action i (empty_dict_action x st' e);;
            empty_dict_loop is' infos newFile st'
      | None => empty_dict_loop is' infos newFile st
      end
  end.

(** Whether the file is new is asked of the first element of the map. *)
Definition deleteEmptyDictStoreExtents (infos : ExtentsInfoMap) : prog extent_map unit :=
  lock_both;;
  n ← gets (fun s => emEntries (image (em_und s)));
  match infos with
  | [] => undefined DanglingPointer
  | (_, x) :: _ => on_image (empty_dict_loop (seqZ 0 n) infos (xi_newFile x) (mkStripe 0 0 0))
  end.

(** ** Dropping columns *)

(** Deletes the extents of a kind; says whether there was one. *)
Fixpoint delete_where (is_ : list Z) (P : EMEntry -> bool) (found : bool) : prog em_obj bool :=
  match is_ with
  | [] => mret found
  | i :: is' =>
      e ← rdEM i;
      if in_use e && P e then deleteExtent i;; delete_where is' P true
      else delete_where is' P found
  end.

Definition deleteOID (OID : Z) : prog extent_map unit :=
  lock_both;;
  n ← gets (fun s => emEntries (image (em_und s)));
  OIDExists ← on_image (delete_where (seqZ 0 n) (fun e => bool_decide (fileID e = OID)) false);
  if OIDExists : bool then mret tt else throw InvalidArgument.

Definition deleteOIDs (OIDs : gset Z) : prog extent_map unit :=
  lock_both;;
  n ← gets (fun s => emEntries (image (em_und s)));
  on_image (delete_where (seqZ 0 n) (fun e => bool_decide (fileID e ∈ OIDs)) false);;
  mret tt.

(** ** Partitions *)

(** A [std::set] of partitions, ordered by [LogicalPartition::operator<]. *)
Definition lp_equiv (a b : LogicalPartition) : bool := negb (lp_ltb a b) && negb (lp_ltb b a).
Definition lp_mem (a : LogicalPartition) (l : list LogicalPartition) : bool :=
  existsb (lp_equiv a) l.
Definition lp_insert (a : LogicalPartition) (l : list LogicalPartition) : list LogicalPartition :=
  if lp_mem a l then l else a :: l.

Definition lp_of (e : EMEntry) : LogicalPartition :=
  mkLP (em_dbRoots e) (partitionNum e) (segmentNum e).

(** The extents of some columns in some partitions: the indices, the
    partitions found, and whether one of the extents has a status. *)
Record found := mkFound {
  f_extents : list Z; f_partitions : list LogicalPartition; f_already : bool;
}.

Definition found_step (oids : gset Z) (parts : list LogicalPartition) (st : Z) (a : found)
    (i : Z) (e : EMEntry) : found :=
  if in_use e && lp_mem (lp_of e) parts && bool_decide (fileID e ∈ oids) then
    mkFound (f_extents a ++ [i]) (lp_insert (lp_of e) (f_partitions a))
      (f_already a || bool_decide (status e = st))
  else a.

Definition find_partitions (oids : gset Z) (parts : list LogicalPartition) (st : Z)
    (m : em_image) : res found :=
  scan (found_step oids parts st) (fExtentMap m) (seqZ 0 (emEntries m)) (mkFound [] [] false).

Definition ERR_PARTITION_ALREADY_DISABLED : Z := 4002.
Definition ERR_PARTITION_NOT_EXIST : Z := 4003.
Definition ERR_PARTITION_ALREADY_ENABLED : Z := 4004.
Definition WARN_NO_PARTITION_PERFORMED : Z := 2042.

Definition missing (f : found) (parts : list LogicalPartition) : bool :=
  negb (bool_decide (length (f_partitions f) = length parts)).
Definition none_found (f : found) : bool := bool_decide (f_partitions f = []).

(** Errors are warnings: they are thrown after the work. *)
Definition deletePartition (oids : gset Z) (parts : list LogicalPartition)
    : prog extent_map unit :=
  if decide (oids = ∅) then mret tt
  else
    lock_both;;
    f ← reading (fun s => find_partitions oids parts EXTENTOUTOFSERVICE (image (em_und s)));
    on_image (for_each (f_extents f) deleteExtent);;
    if none_found f then throw (ERYDBExcept WARN_NO_PARTITION_PERFORMED)
    else if missing f parts then throw (ERYDBExcept ERR_PARTITION_NOT_EXIST)
    else mret tt.

Definition mark_all (is_ : list Z) (st : Z) : prog em_obj unit :=
  for_each is_ (fun i => changeEM i (set_status st)).

Definition markPartitionForDeletion (oids : gset Z) (parts : list LogicalPartition)
    : prog extent_map unit :=
  if decide (oids = ∅) then mret tt
  else
    grabEMEntryTable WRITE;;
    f ← reading (fun s => find_partitions oids parts EXTENTOUTOFSERVICE (image (em_und s)));
    on_image (mark_all (f_extents f) EXTENTOUTOFSERVICE);;
    if none_found f then throw (ERYDBExcept WARN_NO_PARTITION_PERFORMED)
    else if f_already f then throw (ERYDBExcept ERR_PARTITION_ALREADY_DISABLED)
    else if missing f parts then throw (ERYDBExcept ERR_PARTITION_NOT_EXIST)
    else mret tt.

Definition markAllPartitionForDeletion (oids : gset Z) : prog extent_map unit :=
  if decide (oids = ∅) then mret tt
  else
    grabEMEntryTable WRITE;;
    n ← gets (fun s => emEntries (image (em_und s)));
    on_image (for_each (seqZ 0 n) (fun i =>
      e ← rdEM i;
      if in_use e && bool_decide (fileID e ∈ oids)
      then changeEM i (set_status EXTENTOUTOFSERVICE) else mret tt)).

Definition restorePartition (oids : gset Z) (parts : list LogicalPartition)
    : prog extent_map unit :=
  if decide (oids = ∅) then mret tt
  else
    grabEMEntryTable WRITE;;
    f ← reading (fun s => find_partitions oids parts EXTENTAVAILABLE (image (em_und s)));
    if missing f parts then throw (ERYDBExcept ERR_PARTITION_NOT_EXIST)
    else
      on_image (mark_all (f_extents f) EXTENTAVAILABLE);;
      if f_already f then throw (ERYDBExcept ERR_PARTITION_ALREADY_ENABLED) else mret tt.

Definition getOutOfServicePartitions (m : em_image) (oid : Z) : res (list LogicalPartition) :=
  if decide (oid < 0) then Throw InvalidArgument
  else scan (fun l _ e =>
    if in_use e && bool_decide (fileID e = oid) && bool_decide (status e = EXTENTOUTOFSERVICE)
    then lp_insert (lp_of e) l else l) (fExtentMap m) (seqZ 0 (emEntries m)) [].

(** ** DBRoots *)

(** The DBRoot is taken out of the entry without an undo record. *)
Definition deleteDBRoot (dbr : Z) : prog extent_map unit :=
  lock_both;;
  n ← gets (fun s => emEntries (image (em_und s)));
  on_image (for_each (seqZ 0 n) (fun i =>
    e ← rdEM i;
    if in_use e then
      dbr1 ← reading (fun _ => roots_get (em_dbRoots e) 1);
      if bool_decide (roots_master (em_dbRoots e) = dbr) && bool_decide (dbr1 = 0)
      then deleteExtent i
      else wrEM i (set_roots (fst (roots_remove (em_dbRoots e) dbr)) e)
    else mret tt)).

(** [bulkUpdateDBRoot]: no undo records; the first of equal keys counts. *)
Definition bulkUpdateDBRoot (args : list (Z * DBROOTS_struct)) : prog extent_map unit :=
  grabEMEntryTable WRITE;;
  n ← gets (fun s => emEntries (image (em_und s)));
  on_image (for_each (seqZ 0 n) (fun i =>
    e ← rdEM i;
    match list_find (fun a : Z * DBROOTS_struct => a.1 = start (range e)) args with
    | Some (_, (_, d)) => wrEM i (set_roots d e)
    | None => mret tt
    end)).
