(* ===== verification/ExtentDeleteProofs.v ===== *)
(** * Dropping columns and rolling back

    The loops over [deleteExtent] keep the invariant of the extent map and
    remove exactly the extents they should.  The roll back of a column is
    compared with a definition by the logical order of the extents. *)
From Stdlib Require Import ZArith Lia.
From S2P Require Import Prelude Bytes Undoable BrmTypes CopyLocks ExtentMap ExtentAlloc ExtentProofs.
From S2P Require Import ExtentPlace ExtentFree ExtentDelete.

Local Open Scope Z_scope.

(** ** Locks *)

Lemma lock_both_mapped o a b : em_mapped (image o) ->
  lock_both (mkExtentMap o a b) = (Ret tt, mkExtentMap o true true).
Proof.
  intros Hm. unfold lock_both. erewrite bind_Ret by (by apply grabEM_mapped). by apply grabFL_mapped.
Qed.

(** ** Loops that edit the array entry by entry *)

(** What becomes of an entry. *)
Definition edit (a : action) (e : EMEntry) : EMEntry :=
  match a with
  | Keep => e
  | Drop => set_size 0 e
  | Reset h => set_status EXTENTAVAILABLE (set_HWM h e)
  end.

(** The state of a loop over the array: well-formed, with room for [k] more
    deletions. *)
Record looping (k : Z) (m : em_image) : Prop := {
  lo_wf : em_wf m; lo_mapped : em_mapped m; lo_room : em_room k m;
}.

Lemma run_action_runs k m i e a : looping k m -> 1 <= k -> fExtentMap m !! i = Some e ->
  in_use e = true ->
  exists m', runs (run_action (Z.of_nat i) a) m (Ret tt) m' /\ looping (k - 1) m' /\
    fExtentMap m' = <[i := edit a e]> (fExtentMap m).
Proof.
  intros [Hwf Hm Hr] Hk Hi Hu. destruct a as [| |h]; cbn [run_action edit].
  - exists m. rewrite list_insert_id by done. split_and!; [apply runs_ret| |done].
    split; [done|done|]. apply (room_le k); [done|lia].
  - destruct (deleteExtent_runs m i e Hwf Hm (room_le k 1 m Hr Hk) Hi Hu)
      as (m' & Hrun & Hwf' & Hm' & He & Hlen).
    exists m'. split_and!; [done| |done]. split; [done|done|].
    eapply room_delete; [exact Hr| |exact Hlen]. by rewrite He, length_insert.
  - eexists. split_and!; [by apply runs_changeEM| |done]. split.
    + by eapply acc_em_same.
    + by rewrite mapped_with_em.
    + apply (room_le k); [|lia]. unfold em_room in *. cbn. by rewrite length_insert.
Qed.

(** Entries [l] behind [pre], the first of which is being visited. *)
Lemma looping_head k m pre x l : looping k m -> fExtentMap m = pre ++ x :: l ->
  fExtentMap m !! length pre = Some x.
Proof. intros _ ->. by apply list_lookup_middle. Qed.

Lemma insert_head (pre l : list EMEntry) x y : <[length pre := y]> (pre ++ x :: l) = (pre ++ [y]) ++ l.
Proof. rewrite insert_app_r_alt, Nat.sub_diag by lia. by rewrite <- app_assoc. Qed.

Lemma seqZ_next (pre : list EMEntry) (x y : EMEntry) (l : list EMEntry) :
  seqZ (Z.of_nat (length pre)) (Z.of_nat (length (x :: l))) =
  Z.of_nat (length pre) :: seqZ (Z.of_nat (length (pre ++ [y]))) (Z.of_nat (length l)).
Proof.
  rewrite seqZ_cons by (cbn; lia). f_equal. rewrite length_app. cbn. f_equal; lia.
Qed.

(** ** Dropping columns *)

Lemma delete_where_runs P l : forall pre m found,
  looping (Z.of_nat (length l)) m -> fExtentMap m = pre ++ l ->
  exists m', runs (delete_where (seqZ (Z.of_nat (length pre)) (Z.of_nat (length l))) P found) m
      (Ret (found || existsb (fun e => in_use e && P e) l)) m' /\ looping 0 m' /\
    fExtentMap m' = pre ++ map (fun e => if in_use e && P e then set_size 0 e else e) l.
Proof.
  induction l as [|x l IH]; intros pre m found Hl Hm.
  - exists m. cbn. rewrite orb_false_r. split_and!; [apply runs_ret|done|done].
  - assert (Hx := looping_head _ _ _ _ _ Hl Hm).
    set (y := if in_use x && P x then set_size 0 x else x).
    rewrite (seqZ_next pre x y l). cbn [delete_where existsb map].
    destruct (in_use x && P x) eqn:Hsel.
    + apply andb_true_iff in Hsel as [Hu HP].
      destruct (run_action_runs _ m (length pre) x Drop Hl ltac:(cbn; lia) Hx Hu)
        as (m1 & Hr1 & Hl1 & He1). cbn [run_action edit] in *.
      rewrite Hm, insert_head in He1.
      destruct (IH (pre ++ [y]) m1 true) as (m' & Hr' & Hl' & He');
        [by replace (Z.of_nat (length l)) with (Z.of_nat (length (x :: l)) - 1) by (cbn; lia)|done|].
      exists m'. split_and!; [|done|by rewrite He', <- app_assoc].
      eapply runs_bind; [by apply runs_rdEM|]. cbv beta. rewrite Hu, HP. cbn [andb].
      eapply runs_bind; [exact Hr1|]. cbv beta. by rewrite orb_true_r.
    + destruct (IH (pre ++ [y]) m found) as (m' & Hr' & Hl' & He').
      * destruct Hl as [? ? ?]. split; [done..|]. eapply room_le; [done|]. cbn [length]. lia.
      * rewrite Hm, <- app_assoc. done.
      * exists m'. split_and!; [|done|by rewrite He', <- app_assoc].
        eapply runs_bind; [by apply runs_rdEM|]. cbv beta. by rewrite Hsel.
Qed.

(** The extents that remain. *)
Lemma extents_map P l :
  filter (fun e => in_use e = true) (map (fun e => if in_use e && P e then set_size 0 e else e) l)
  = filter (fun e => P e = false) (filter (fun e => in_use e = true) l).
Proof.
  induction l as [|x l IH]; [done|]. cbn [map]. rewrite filter_cons.
  destruct (in_use x) eqn:Hu; cbn [andb].
  - rewrite (filter_cons_True _ x l) by done. destruct (P x) eqn:HP.
    + rewrite decide_False by (by intros ?%in_use_true). rewrite filter_cons_False by congruence. done.
    + rewrite decide_True by done. rewrite filter_cons_True by done. by rewrite IH.
  - rewrite decide_False by congruence. rewrite (filter_cons_False _ x l) by congruence. done.
Qed.

Lemma delete_all_runs P m : looping (Z.of_nat (length (fExtentMap m))) m ->
  exists m', runs (delete_where (seqZ 0 (emEntries m)) P false) m
      (Ret (existsb P (extents m))) m' /\ looping 0 m' /\
    extents m' = filter (fun e => P e = false) (extents m).
Proof.
  intros Hl. destruct (delete_where_runs P (fExtentMap m) [] m false Hl eq_refl)
    as (m' & Hr & Hl' & He). cbn [length app] in *.
  exists m'. split_and!; [|done|].
  - rewrite (emEntries_wf _ (lo_wf _ _ Hl)). cbn [orb] in Hr.
    replace (existsb P (extents m)) with (existsb (fun e => in_use e && P e) (fExtentMap m));
      [exact Hr|]. unfold extents. clear. induction (fExtentMap m) as [|x l IH]; [done|].
    cbn [existsb]. rewrite filter_cons. destruct (in_use x); cbn [andb orb].
    + rewrite decide_True by done. cbn [existsb]. by rewrite IH.
    + by rewrite decide_False.
  - unfold extents. by rewrite He, extents_map.
Qed.

(** ** Rolling back a column *)

(** The stripe of [hwm] when every extent has [n] units. *)
Definition stripe_of (hwm n : Z) : stripe :=
  let R := n * 1024 in
  let lo := hwm - hwm mod R in
  mkStripe lo (lo + R - 1) (if decide (lo > 0) then lo - R else 0).

Lemma find_stripe_first hwm n st e : 0 <= hwm -> 0 < n -> hwm + n * 1024 < 2 ^ 32 ->
  size (range e) = n -> st = mkStripe 0 0 0 \/ st = stripe_of hwm n ->
  find_stripe hwm st e = Ret (stripe_of hwm n).
Proof.
  intros Hh Hn Hb He Hst. pose proof (Z.mod_pos_bound hwm (n * 1024) ltac:(lia)).
  pose proof (Z.mod_le hwm (n * 1024) Hh ltac:(lia)).
  unfold find_stripe. destruct Hst as [->| ->].
  - cbn [fboHi fboLoPreviousStripe]. rewrite decide_True by done. rewrite He.
    rewrite (u32_id (n * 1024)) by lia. rewrite decide_False by lia.
    rewrite (u32_id (hwm - _)) by lia. rewrite (u32_id (_ + n * 1024 - 1)) by lia.
    unfold stripe_of. case_decide; [|done]. rewrite u32_id; [done|].
    pose proof (Z.div_mod hwm (n * 1024) ltac:(lia)) as Hdm.
    set (q := hwm / (n * 1024)) in *. set (R := n * 1024) in *.
    assert (1 <= q) by nia. assert (R * 1 <= R * q) by (apply Z.mul_le_mono_nonneg_l; lia). lia.
  - assert (Hhi : fboHi (stripe_of hwm n) <> 0).
    { change (fboHi _) with (hwm - hwm mod (n * 1024) + n * 1024 - 1). lia. }
    by rewrite decide_False.
Qed.

Section Rollback.
Context (oid : Z) (dbRoot : DBROOTS_struct) (part seg hwm n : Z).
Context (Hh : 0 <= hwm) (Hn : 0 < n) (Hb : hwm + n * 1024 < 2 ^ 32).

(** The extents the roll back looks at. *)
Definition rolls (e : EMEntry) : bool :=
  of_oid_on oid dbRoot e && negb (bool_decide (status e = EXTENTOUTOFSERVICE)).

Definition rolled (e : EMEntry) : EMEntry :=
  if rolls e then edit (column_action part seg hwm (stripe_of hwm n) e) e else e.

Lemma rollback_loop_runs l : forall pre m st,
  looping (Z.of_nat (length l)) m -> fExtentMap m = pre ++ l ->
  (forall e, e ∈ l -> rolls e = true -> size (range e) = n) ->
  st = mkStripe 0 0 0 \/ st = stripe_of hwm n ->
  exists m', runs (rollback_loop (seqZ (Z.of_nat (length pre)) (Z.of_nat (length l)))
                     oid false dbRoot part seg hwm st) m (Ret tt) m' /\
    looping 0 m' /\ fExtentMap m' = pre ++ map rolled l.
Proof.
  induction l as [|x l IH]; intros pre m st Hl Hm Hsz Hst.
  - exists m. split_and!; [apply runs_ret|done|done].
  - assert (Hx := looping_head _ _ _ _ _ Hl Hm).
    assert (Hsz' : forall e, e ∈ l -> rolls e = true -> size (range e) = n)
      by (intros; apply Hsz; [by right|done]).
    rewrite (seqZ_next pre x (rolled x) l). cbn [rollback_loop map].
    destruct (rolls x) eqn:Hsel.
    + assert (Hu : in_use x = true).
      { unfold rolls, of_oid_on in Hsel. by repeat (apply andb_true_iff in Hsel as [Hsel _]). }
      destruct (run_action_runs _ m (length pre) x (column_action part seg hwm (stripe_of hwm n) x)
                  Hl ltac:(cbn; lia) Hx Hu) as (m1 & Hr1 & Hl1 & He1).
      assert (Hrx : rolled x = edit (column_action part seg hwm (stripe_of hwm n) x) x)
        by (unfold rolled; by rewrite Hsel).
      rewrite Hm, insert_head, <- Hrx in He1.
      destruct (IH (pre ++ [rolled x]) m1 (stripe_of hwm n)) as (m' & Hr' & Hl' & He');
        [by replace (Z.of_nat (length l)) with (Z.of_nat (length (x :: l)) - 1) by (cbn; lia)
        |done|done|by right|].
      exists m'. split_and!; [|done|by rewrite He', <- app_assoc].
      eapply runs_bind; [by apply runs_rdEM|]. cbv beta. unfold rolls in Hsel. rewrite Hsel.
      eapply runs_bind; [apply runs_reading; intros _; apply find_stripe_first; try done|].
      { apply Hsz; [by left|done]. }
      cbv beta. eapply runs_bind; [exact Hr1|]. exact Hr'.
    + assert (Hrx : rolled x = x) by (unfold rolled; by rewrite Hsel).
      destruct (IH (pre ++ [rolled x]) m st) as (m' & Hr' & Hl' & He'); [| |done|done|].
      * destruct Hl as [? ? ?]. split; [done..|]. eapply room_le; [done|]. cbn [length]. lia.
      * rewrite Hm, Hrx, <- app_assoc. done.
      * exists m'. split_and!; [|done|by rewrite He', <- app_assoc].
        eapply runs_bind; [by apply runs_rdEM|]. cbv beta. unfold rolls in Hsel. by rewrite Hsel.
Qed.

(** ** The roll back by the order of the extents

    An extent stays when it is not behind the last one, <part, lo, seg>.  The
    last extent of each segment file that remains gets the last block of the
    file as its HWM: [hwm] in the file of the last extent, the end of the
    stripe in the files before it, the end of the stripe before in the files
    behind it. *)
Definition stripe_lo : Z := hwm - hwm mod (n * 1024).

#[global] Instance before_eq_dec a b : Decision (before_eq a b).
Proof. destruct a as [[]], b as [[]]. unfold before_eq. apply _. Defined.

Definition hwm_after (e : EMEntry) : Z :=
  if decide (partitionNum e = part /\ blockOffset e = stripe_lo) then
    if decide (segmentNum e < seg) then stripe_lo + n * 1024 - 1 else hwm
  else if decide (partitionNum e = part /\ blockOffset e = stripe_lo - n * 1024
                  /\ segmentNum e > seg) then stripe_lo - 1
  else HWM e.

Definition roll_spec (e : EMEntry) : option EMEntry :=
  if decide (before_eq (place_of e) (part, stripe_lo, seg)) then
    Some (if decide (HWM e = hwm_after e) then e
          else set_status EXTENTAVAILABLE (set_HWM (hwm_after e) e))
  else None.

(** Offsets are multiples of the size of an extent. *)
Lemma column_action_spec e : 0 <= blockOffset e -> blockOffset e mod (n * 1024) = 0 ->
  in_use e = true ->
  (if in_use (edit (column_action part seg hwm (stripe_of hwm n) e) e)
   then Some (edit (column_action part seg hwm (stripe_of hwm n) e) e) else None) = roll_spec e.
Proof.
  intros Ho Hal Hu. set (R := n * 1024) in *.
  assert (Hlo : exists q, stripe_lo = R * q /\ 0 <= q /\ R * q <= hwm).
  { exists (hwm / R). unfold stripe_lo. fold R. pose proof (Z.div_mod hwm R ltac:(lia)).
    pose proof (Z.mod_pos_bound hwm R ltac:(lia)). split_and!; [lia|apply Z.div_pos; lia|lia]. }
  assert (Hoff : exists k, blockOffset e = R * k /\ 0 <= k).
  { exists (blockOffset e / R). pose proof (Z.div_mod (blockOffset e) R ltac:(lia)).
    split; [lia|apply Z.div_pos; lia]. }
  destruct Hlo as (q & Hq & Hq0 & Hqh), Hoff as (k & Hk & Hk0).
  assert (Hdrop : in_use (edit Drop e) = false) by (by apply in_use_false).
  assert (Hres : forall h, in_use (edit (reset_to h e) e) = true /\
            edit (reset_to h e) e = if decide (HWM e = h) then e
                                    else set_status EXTENTAVAILABLE (set_HWM h e)).
  { intros h. unfold reset_to. case_decide; done. }
  assert (Hkeep : hwm_after e = HWM e -> before_eq (place_of e) (part, stripe_lo, seg) ->
            (if in_use (edit Keep e) then Some (edit Keep e) else None) = roll_spec e).
  { intros Hh' Hbe. unfold roll_spec. rewrite decide_True by done.
    rewrite Hh', decide_True by done. cbn. by rewrite Hu. }
  assert (Hset : forall h, hwm_after e = h -> before_eq (place_of e) (part, stripe_lo, seg) ->
            (if in_use (edit (reset_to h e) e) then Some (edit (reset_to h e) e) else None)
            = roll_spec e).
  { intros h <- Hbe. destruct (Hres (hwm_after e)) as [-> ->]. unfold roll_spec.
    by rewrite (decide_True _ _ Hbe). }
  assert (Hgone : ~ before_eq (place_of e) (part, stripe_lo, seg) ->
            (if in_use (edit Drop e) then Some (edit Drop e) else None) = roll_spec e).
  { intros Hbe. rewrite Hdrop. unfold roll_spec. by rewrite (decide_False _ _ Hbe). }
  unfold column_action. change (fboLo (stripe_of hwm n)) with stripe_lo.
  change (fboHi (stripe_of hwm n)) with (stripe_lo + R - 1).
  change (fboLoPreviousStripe (stripe_of hwm n))
    with (if decide (stripe_lo > 0) then stripe_lo - R else 0).
  unfold before_eq, place_of in *.
  destruct (decide (partitionNum e > part)); [apply Hgone; lia|].
  destruct (decide (partitionNum e = part)) as [Hp|Hp].
  2: { apply Hkeep; [|lia]. unfold hwm_after. rewrite !decide_False by lia. done. }
  destruct (decide (blockOffset e > stripe_lo + R - 1)); [apply Hgone; nia|].
  destruct (decide (blockOffset e < stripe_lo)) as [Hlt|Hlt].
  - rewrite (decide_True (P := stripe_lo > 0)) by nia.
    assert (Hne : ~ (partitionNum e = part /\ blockOffset e = stripe_lo)) by lia.
    assert (Hprev : blockOffset e >= stripe_lo - R <-> blockOffset e = stripe_lo - R).
    { rewrite Hq, Hk in *. split; [|lia]. intros. assert (k = q - 1) by nia. subst. lia. }
    destruct (decide (blockOffset e >= stripe_lo - R /\ segmentNum e > seg)) as [[H1 H2]|H1].
    + rewrite u32_id by nia. apply Hset; [|lia]. unfold hwm_after. fold R.
      rewrite (decide_False _ _ Hne), decide_True by tauto. done.
    + apply Hkeep; [|lia]. unfold hwm_after. fold R.
      rewrite (decide_False _ _ Hne), decide_False by tauto. done.
  - assert (He : blockOffset e = stripe_lo) by (rewrite Hq, Hk in *; assert (k = q) by nia; by subst).
    destruct (decide (segmentNum e > seg)); [apply Hgone; lia|].
    destruct (decide (segmentNum e < seg)) as [Hs|Hs].
    + apply Hset; [|lia]. unfold hwm_after. fold R. by rewrite !decide_True by done.
    + apply Hset; [|lia]. unfold hwm_after. fold R.
      by rewrite decide_True, decide_False by done.
Qed.
End Rollback.

(** ** The operations *)

(** A block that no extent has any more is free. *)
Lemma freed m m' (P : EMEntry -> bool) e b : em_wf m -> em_wf m' ->
  extents m' = filter (fun e => P e = false) (extents m) ->
  e ∈ extents m -> P e = true -> covers b (range e) ->
  exists f, f ∈ fFreeList m' /\ covers b f.
Proof.
  intros Hwf Hwf' Hex [Hu [i Hi]%list_elem_of_lookup]%elem_of_extents HP Hb.
  destruct (cover_em_fl _ Hwf b _ _ Hi Hb) as [Hsp _].
  pose proof (wf_cover _ Hwf' b) as Hc. unfold in_space in Hc. rewrite decide_True in Hc by done.
  assert (H0 : total (cov_em b) (extents m') = 0).
  { apply total_zero, Forall_forall. intros x Hx. rewrite Hex in Hx.
    apply list_elem_of_filter in Hx as [HPx [Hux [k Hk]%list_elem_of_lookup]%elem_of_extents].
    unfold cov_em, cov. case_decide as Hbx; [exfalso|done].
    apply (extents_disjoint _ Hwf b i k e x); try done. intros ->. congruence. }
  rewrite total_extents, H0 in Hc.
  destruct (total_pos (cov b) (fFreeList m') (cov_nonneg b) ltac:(lia)) as (k & f & Hk & Hf).
  exists f. split; [by eapply list_elem_of_lookup_2|]. unfold cov in Hf. case_decide; [done|lia].
Qed.

(** C22: Dropping a column.  [deleteOID] removes exactly the extents of the OID,
    gives all of their blocks back to the free list and keeps the partition
    invariant; it throws [invalid_argument] when the OID has no extents. *)
Theorem em_deleteOID_refines OID m log :
  em_wf m -> em_mapped m -> em_room (Z.of_nat (length (fExtentMap m))) m ->
  exists r m' log',
    deleteOID OID (mkExtentMap (mkUndoable m log) false false)
    = (r, mkExtentMap (mkUndoable m' log') true true) /\
    em_wf m' /\ extents m' = filter (fun e => bool_decide (fileID e = OID) = false) (extents m) /\
    (forall e b, e ∈ extents m -> fileID e = OID -> covers b (range e) ->
       exists f, f ∈ fFreeList m' /\ covers b f) /\
    r = (if existsb (fun e => bool_decide (fileID e = OID)) (extents m)
         then Ret tt else Throw InvalidArgument).
Proof.
  intros Hwf Hm Hroom.
  destruct (delete_all_runs (fun e => bool_decide (fileID e = OID)) m) as (m' & Hr & Hl & Hex);
    [by split|].
  destruct (runs_on_image _ _ _ _ log true true Hr) as [log' Hrun].
  exists (if existsb (fun e => bool_decide (fileID e = OID)) (extents m)
          then Ret tt else Throw InvalidArgument), m', log'. split_and!.
  - unfold deleteOID. erewrite bind_Ret by (by apply lock_both_mapped).
    erewrite bind_Ret by reflexivity. erewrite bind_Ret by exact Hrun. cbv beta.
    by case_match.
  - apply Hl.
  - done.
  - intros e b He Ho Hb. eapply (freed m m' (fun e => bool_decide (fileID e = OID)));
      [done|apply Hl|done|done|by apply bool_decide_eq_true_2|done].
  - done.
Qed.

Lemma em_deleteOID_refines_witness :
  exists r m' log',
    deleteOID 3001 demo_map = (r, mkExtentMap (mkUndoable m' log') true true) /\
    em_wf m' /\
    extents m' = filter (fun e => bool_decide (fileID e = 3001) = false) (extents demo_image) /\
    (forall e b, e ∈ extents demo_image -> fileID e = 3001 -> covers b (range e) ->
       exists f, f ∈ fFreeList m' /\ covers b f) /\
    r = (if existsb (fun e => bool_decide (fileID e = 3001)) (extents demo_image)
         then Ret tt else Throw InvalidArgument).
Proof.
  exact (em_deleteOID_refines 3001 demo_image [] demo_wf demo_mapped
           (room_le 10 4 _ demo_room ltac:(lia))).
Defined.

(** The extents after a roll back, one by one. *)
Lemma extents_rolled oid dbRoot part seg hwm n l :
  0 <= hwm -> 0 < n -> hwm + n * 1024 < 2 ^ 32 ->
  (forall e, e ∈ l -> rolls oid dbRoot e = true ->
     0 <= blockOffset e /\ blockOffset e mod (n * 1024) = 0) ->
  filter (fun e => in_use e = true) (map (rolled oid dbRoot part seg hwm n) l) =
  omap (fun e => if rolls oid dbRoot e then roll_spec part seg hwm n e else Some e)
    (filter (fun e => in_use e = true) l).
Proof.
  intros Hh Hn Hb. induction l as [|x l IH]; intros Hal; [done|].
  specialize (IH (fun e He => Hal e ltac:(by right))). cbn [map]. unfold rolled at 1.
  destruct (rolls oid dbRoot x) eqn:Hr.
  - assert (Hu : in_use x = true).
    { unfold rolls, of_oid_on in Hr. by repeat (apply andb_true_iff in Hr as [Hr _]). }
    destruct (Hal x ltac:(by left) Hr) as [Ho Hm].
    rewrite (filter_cons_True _ x l) by done. cbn [omap list_omap]. rewrite Hr.
    rewrite <- (column_action_spec part seg hwm n Hh Hn Hb x Ho Hm Hu), filter_cons.
    destruct (in_use (edit _ x)); [rewrite decide_True|rewrite decide_False]; try done; by rewrite IH.
  - rewrite !filter_cons. destruct (decide (in_use x = true)); [|done].
    cbn [omap list_omap]. rewrite Hr. by rewrite IH.
Qed.

(** Rolling back a bulk load of a column.  When the extents of the column
    on the DBRoot have the same size and start at multiples of it, the case
    analysis of [rollbackColumnExtents_DBroot] is equivalent to the definition
    by the logical order of the extents: those behind the last extent to keep
    are dropped, the last extent of every segment file gets the file's last
    block as its HWM, all others are as they were; extents that are out of
    service or of another column or DBRoot are not touched.  The partition
    invariant is kept. *)
Theorem em_rollbackColumn_equiv oid dbRoot part seg hwm n m log :
  em_wf m -> em_mapped m -> em_room (Z.of_nat (length (fExtentMap m))) m ->
  0 <= hwm -> 0 < n -> hwm + n * 1024 < 2 ^ 32 ->
  (forall e, e ∈ extents m -> rolls oid dbRoot e = true ->
     size (range e) = n /\ 0 <= blockOffset e /\ blockOffset e mod (n * 1024) = 0) ->
  exists m' log',
    rollbackColumnExtents_DBroot oid false dbRoot part seg hwm
      (mkExtentMap (mkUndoable m log) false false)
    = (Ret tt, mkExtentMap (mkUndoable m' log') true true) /\ em_wf m' /\
    extents m' =
      omap (fun e => if rolls oid dbRoot e then roll_spec part seg hwm n e else Some e) (extents m).
Proof.
  intros Hwf Hm Hroom Hh Hn Hb Hex.
  assert (Hex' : forall e, e ∈ fExtentMap m -> rolls oid dbRoot e = true ->
     size (range e) = n /\ 0 <= blockOffset e /\ blockOffset e mod (n * 1024) = 0).
  { intros e He Hr. apply Hex; [|done]. apply elem_of_extents. split; [|done].
    unfold rolls, of_oid_on in Hr. by repeat (apply andb_true_iff in Hr as [Hr _]). }
  destruct (rollback_loop_runs oid dbRoot part seg hwm n Hh Hn Hb (fExtentMap m) [] m
              (mkStripe 0 0 0)) as (m' & Hr & Hl & He);
    [by split|done|intros e H1 H2; by apply Hex'|by left|].
  destruct (runs_on_image _ _ _ _ log true true Hr) as [log' Hrun].
  exists m', log'. split_and!.
  - unfold rollbackColumnExtents_DBroot. erewrite bind_Ret by (by apply lock_both_mapped).
    erewrite bind_Ret by reflexivity. cbn [em_und image]. rewrite (emEntries_wf _ Hwf). exact Hrun.
  - apply Hl.
  - unfold extents. rewrite He. apply extents_rolled; [done..|]. intros e H1 H2.
    by apply Hex'.
Qed.

Lemma em_rollbackColumn_equiv_witness :
  exists m' log',
    rollbackColumnExtents_DBroot 3001 false root1 0 0 100 demo_map
    = (Ret tt, mkExtentMap (mkUndoable m' log') true true) /\ em_wf m' /\
    extents m' =
      omap (fun e => if rolls 3001 root1 e then roll_spec 0 0 100 8 e else Some e)
        (extents demo_image).
Proof.
  apply (em_rollbackColumn_equiv 3001 root1 0 0 100 8 demo_image []);
    [exact demo_wf|exact demo_mapped|exact (room_le 10 4 _ demo_room ltac:(lia))|lia|lia|lia|].
  intros e He _. cbn in He. repeat (apply elem_of_cons in He as [->|He]);
    [by cbn|by cbn|by apply elem_of_nil in He].
Defined.

(** The second extent is dropped, the first gets the HWM 100. *)
Example rollback_example :
  match rollbackColumnExtents_DBroot 3001 false root1 0 0 100 demo_map with
  | (Ret _, s) => extents (image (em_und s)) = [set_HWM 100 (demo_extent 0 0 8191)]
  | _ => False
  end.
Proof. vm_compute. reflexivity. Qed.
