(* ===== verification/ExtentHWM.v ===== *)
(** * High water marks: src/versioning/BRM/extentmap.cpp

    The high water mark (HWM) of a segment file is its last block in use.  It
    is kept in the last extent of the file; the other extents of the file
    carry 0. *)
From Stdlib Require Import ZArith Lia.
From S2P Require Import Prelude Bytes Undoable BrmTypes CopyLocks ExtentMap ExtentAlloc.

Local Open Scope Z_scope.

(** ** Queries *)

(** The last extent of an OID on a DBRoot, walking the array backwards. *)
Record last_scan := mkLast { ls_part : Z; ls_off : Z; ls_seg : Z; ls_entry : option EMEntry }.

Definition last_step (OID : Z) (dbRoot : DBROOTS_struct) (a : last_scan) (_ : Z) (e : EMEntry)
    : last_scan :=
  if in_use e && bool_decide (fileID e = OID) && roots_eqb (em_dbRoots e) dbRoot
     && (bool_decide (status e = EXTENTAVAILABLE) || bool_decide (status e = EXTENTOUTOFSERVICE))
     && not_before (partitionNum e) (blockOffset e) (segmentNum e) (ls_part a) (ls_off a) (ls_seg a)
  then mkLast (partitionNum e) (blockOffset e) (segmentNum e) (Some e)
  else a.

(** HWM, partition, segment and, when [bFound], the status. *)
Definition getLastHWM_DBroot (m : em_image) (OID : Z) (dbRoot : DBROOTS_struct)
    : res (Z * Z * Z * option Z) :=
  if decide (OID < 0) then Throw InvalidArgument
  else
    a ← scan (last_step OID dbRoot) (fExtentMap m) (rev (seqZ 0 (emEntries m))) (mkLast 0 0 0 None);
    Ret (match ls_entry a with
         | Some e => (HWM e, ls_part a, ls_seg a, Some (status e))
         | None => (0, ls_part a, ls_seg a, None)
         end).

Record EmDbRootHWMInfo := mkHWMInfo {
  hi_partitionNum : Z; hi_dbRoot : DBROOTS_struct; hi_segmentNum : Z; hi_localHWM : Z;
  hi_fbo : Z; hi_startLbid : Z; hi_totalBlocks : Z; hi_hwmExtentIndex : Z; hi_status : Z;
}.
Definition EmDbRootHWMInfo_new (root : Z) : EmDbRootHWMInfo :=
  mkHWMInfo 0 (mkRoots [root; 0; 0; 0]) 0 0 0 0 0 (-1) 0.

(** The conditions of the code: an extent in a partition not below the best
    one so far is taken, whatever its offset. *)
Definition hwm_info_step (OID : Z) (infos : gmap Z EmDbRootHWMInfo) (i : Z) (e : EMEntry)
    : gmap Z EmDbRootHWMInfo :=
  if in_use e && bool_decide (fileID e = OID) then
    match infos !! roots_master (em_dbRoots e) with
    | None => infos
    | Some x =>
        let total := if negb (bool_decide (status e = EXTENTOUTOFSERVICE))
                        && negb (bool_decide (HWM e = 0))
                     then hi_totalBlocks x + u32 (HWM e + 1) else hi_totalBlocks x in
        let x' :=
          if bool_decide (partitionNum e >= hi_partitionNum x)
             || (bool_decide (partitionNum e = hi_partitionNum x)
                 && bool_decide (blockOffset e >= hi_fbo x))
             || (bool_decide (partitionNum e = hi_partitionNum x)
                 && bool_decide (blockOffset e = hi_fbo x)
                 && bool_decide (segmentNum e >= hi_segmentNum x))
          then mkHWMInfo (partitionNum e) (em_dbRoots e) (segmentNum e) (HWM e) (blockOffset e)
                 (start (range e)) total i (status e)
          else mkHWMInfo (hi_partitionNum x) (hi_dbRoot x) (hi_segmentNum x) (hi_localHWM x)
                 (hi_fbo x) (hi_startLbid x) total (hi_hwmExtentIndex x) (hi_status x) in
        <[roots_master (em_dbRoots e) := x']> infos
    end
  else infos.

(** One block at offset 0 is a file with HWM 0. *)
Definition hwm_info_finish (x : EmDbRootHWMInfo) : EmDbRootHWMInfo :=
  if decide (hi_hwmExtentIndex x <> -1 /\ hi_localHWM x = 0 /\ hi_status x = EXTENTAVAILABLE)
  then mkHWMInfo (hi_partitionNum x) (hi_dbRoot x) (hi_segmentNum x) (hi_localHWM x) (hi_fbo x)
         (hi_startLbid x) (hi_totalBlocks x + 1) (hi_hwmExtentIndex x) (hi_status x)
  else x.

Definition initial_infos (dbRootList : list Z) : gmap Z EmDbRootHWMInfo :=
  list_to_map (map (fun r => (r, EmDbRootHWMInfo_new r)) dbRootList).

Definition finish_infos (infos : gmap Z EmDbRootHWMInfo) : res (gmap Z EmDbRootHWMInfo) :=
  if existsb (fun x => negb (bool_decide (hi_hwmExtentIndex x = -1))
                       && bool_decide (hi_status x = EXTENTUNAVAILABLE))
       (map snd (map_to_list infos))
  then Throw RuntimeError
  else Ret (fmap (M := gmap Z) hwm_info_finish infos).

(** [dbRootList] are the DBRoots of the PM, [getPmDbRoots].  The result is
    the map whose values the code copies to its output vector. *)
Definition getDbRootHWMInfo (m : em_image) (OID : Z) (dbRootList : list Z)
    : res (gmap Z EmDbRootHWMInfo) :=
  if decide (OID < 0 \/ dbRootList = []) then Throw InvalidArgument
  else
    scan (hwm_info_step OID) (fExtentMap m) (rev (seqZ 0 (emEntries m)))
      (initial_infos dbRootList) ≫= finish_infos.

(** [getExtentState]: [bFound] and [status]. *)
Definition getExtentState (m : em_image) (OID part seg : Z) : res (bool * Z) :=
  if decide (OID < 0) then Throw InvalidArgument
  else
    r ← find_em (in_segfile OID part seg) m;
    Ret (match r with Some (_, e) => (true, status e) | None => (false, EXTENTAVAILABLE) end).

(** The loop of [getLocalHWM]: it stops at the first HWM that is not 0; the
    second component is the status of the last extent seen. *)
Fixpoint localHWM_loop (is_ : list Z) (m : em_image) (OID part seg : Z) (st : option Z)
    : res (option (Z * Z)) :=
  match is_ with
  | [] => Ret (option_map (fun s => (0, s)) st)
  | i :: is' =>
      e ← rd (fExtentMap m) i;
      if in_segfile OID part seg e then
        if decide (HWM e <> 0) then Ret (Some (HWM e, status e))
        else localHWM_loop is' m OID part seg (Some (status e))
      else localHWM_loop is' m OID part seg st
  end.

(** The HWM and [status]. *)
Definition getLocalHWM (m : em_image) (OID part seg : Z) : res (Z * Z) :=
  if decide (OID < 0) then Throw InvalidArgument
  else
    r ← localHWM_loop (seqZ 0 (emEntries m)) m OID part seg None;
    match r with Some x => Ret x | None => Throw InvalidArgument end.

(** ** Setting the HWM *)

Record hwm_scan := mkHwmScan { hs_last : Z; hs_old : Z; hs_off : Z }.
Definition hwm_step (OID part seg : Z) (a : hwm_scan) (i : Z) (e : EMEntry) : hwm_scan :=
  if in_segfile OID part seg e then
    let a := if decide (blockOffset e >= hs_off a) then mkHwmScan i (hs_old a) (blockOffset e)
             else a in
    if decide (HWM e <> 0) then mkHwmScan (hs_last a) i (hs_off a) else a
  else a.

Definition set_local (OID part seg newHWM : Z) : prog em_obj unit :=
  m ← gets image;
  a ← reading (fun _ =>
        scan (hwm_step OID part seg) (fExtentMap m) (seqZ 0 (emEntries m)) (mkHwmScan (-1) (-1) 0));
  if decide (hs_last a = -1) then throw InvalidArgument
  else
    last ← rdEM (hs_last a);
    if decide (newHWM >= u32 (blockOffset last + size (range last) * 1024))
    then throw InvalidArgument
    else
      changeEM (hs_last a) (fun e => set_status EXTENTAVAILABLE (set_HWM newHWM e));;
      if decide (hs_old a <> -1 /\ hs_old a <> hs_last a) then changeEM (hs_old a) (set_HWM 0)
      else mret tt.

Definition setLocalHWM (OID part seg newHWM : Z) (uselock : bool) : prog extent_map unit :=
  (if uselock then grabEMEntryTable WRITE else mret tt);;
  on_image (set_local OID part seg newHWM).

Record BulkSetHWMArg := mkBulkHWM { bh_oid : Z; bh_partNum : Z; bh_segNum : Z; bh_hwm : Z }.

Definition bulkSetHWM (v : list BulkSetHWMArg) : prog extent_map unit :=
  grabEMEntryTable WRITE;;
  for_each v (fun a => setLocalHWM (bh_oid a) (bh_partNum a) (bh_segNum a) (bh_hwm a) false).
