(* ===== verification/ExtentQueries.v ===== *)
(** * Looking up blocks, high water marks and value ranges: proofs

    Theorems about the queries of the extent map and the operations that
    change one extent in place. *)
From Stdlib Require Import ZArith Lia.
From S2P Require Import Prelude Bytes Undoable BrmTypes CopyLocks ExtentMap ExtentAlloc ExtentProofs.
From S2P Require Import ExtentPlace ExtentHWM.

Local Open Scope Z_scope.

(** ** Searches *)

Lemma has_lbid_spec lbid e : has_lbid lbid e = true <-> in_use e = true /\ covers lbid (range e).
Proof.
  unfold has_lbid, covers, lastBlock. rewrite !andb_true_iff, !bool_decide_eq_true.
  split; [intros [[? ?] ?]; split; [done|lia]|intros [? ?]; split_and!; [done|lia|lia]].
Qed.

(** The extent with a block is found, and it is the only one. *)
Lemma find_lbid m lbid i e : em_wf m -> fExtentMap m !! i = Some e -> covers lbid (range e) ->
  find_em (has_lbid lbid) m = Ret (Some (Z.of_nat i, e)).
Proof.
  intros Hwf Hi Hc. rewrite (find_em_wf _ Hwf).
  assert (Hu : in_use e = true) by (apply in_use_true; unfold covers in Hc; lia).
  destruct (list_find _ (fExtentMap m)) as [[j x]|] eqn:Hf.
  - apply list_find_Some in Hf as (Hj & Hx%has_lbid_spec & _).
    destruct (decide (i = j)) as [->|Hne]; [by simplify_eq|].
    by destruct (extents_disjoint _ Hwf lbid i j e x Hne Hi Hj Hc); apply Hx.
  - apply list_find_None in Hf. rewrite Forall_forall in Hf.
    destruct (Hf e); [by eapply list_elem_of_lookup_2|]. by apply has_lbid_spec.
Qed.

Lemma find_lbid_none m lbid : em_wf m -> (forall e, e ∈ extents m -> ~ covers lbid (range e)) ->
  find_em (has_lbid lbid) m = Ret None.
Proof.
  intros Hwf Hno. rewrite (find_em_wf _ Hwf).
  destruct (list_find _ (fExtentMap m)) as [[j x]|] eqn:Hf; [exfalso|done].
  apply list_find_Some in Hf as (Hj & [Hu Hc]%has_lbid_spec & _).
  apply (Hno x); [|done]. apply elem_of_extents. split; [done|]. by eapply list_elem_of_lookup_2.
Qed.

(** ** Blocks and file offsets *)

(** No two extents of a file share an offset; extents are below 2^31 blocks. *)
Record offsets_ok (l : list EMEntry) : Prop := {
  ok_disjoint i j e e' f : i <> j -> l !! i = Some e -> l !! j = Some e' ->
    in_use e = true -> in_use e' = true -> same_file e e' ->
    has_fbo f e = true -> has_fbo f e' = true -> False;
  ok_size e : e ∈ l -> in_use e = true ->
    0 <= fileID e /\ size (range e) < 2 ^ 21 /\ fields_ok e;
}.

Lemma in_segfile_spec OID part seg e : in_segfile OID part seg e = true <->
  in_use e = true /\ fileID e = OID /\ partitionNum e = part /\ segmentNum e = seg.
Proof. unfold in_segfile. rewrite !andb_true_iff, !bool_decide_eq_true. tauto. Qed.

Lemma has_fbo_spec f e : has_fbo f e = true <->
  blockOffset e <= f < blockOffset e + size (range e) * 1024.
Proof. unfold has_fbo. rewrite andb_true_iff, !bool_decide_eq_true. lia. Qed.

Lemma find_fbo m i e f : em_wf m -> offsets_ok (fExtentMap m) -> fExtentMap m !! i = Some e ->
  in_use e = true -> has_fbo f e = true ->
  find_em (fun x => in_segfile (fileID e) (partitionNum e) (segmentNum e) x && has_fbo f x) m
  = Ret (Some (Z.of_nat i, e)).
Proof.
  intros Hwf Hok Hi Hu Hf. rewrite (find_em_wf _ Hwf).
  destruct (list_find _ (fExtentMap m)) as [[j x]|] eqn:Hl.
  - apply list_find_Some in Hl as (Hj & [Hx Hfx]%andb_true_iff & _).
    apply in_segfile_spec in Hx as (Hux & ? & ? & ?).
    destruct (decide (i = j)) as [->|Hne]; [by simplify_eq|].
    exfalso. by apply (ok_disjoint _ Hok i j e x f).
  - apply list_find_None in Hl. rewrite Forall_forall in Hl.
    destruct (Hl e); [by eapply list_elem_of_lookup_2|].
    rewrite Hf, andb_true_r. by apply in_segfile_spec.
Qed.

(** C34: Block ids and file offsets.  In a map whose extents and free list
    partition the LBID space and whose files have no overlapping extents, a
    block id is found exactly when an extent has it; the location
    [lookupLocal] returns leads back to the same block id, and to the first
    one of its extent, through the searches by file offset. *)
Theorem em_lookup_roundtrip m lbid :
  em_wf m -> offsets_ok (fExtentMap m) -> 0 <= lbid ->
  (lookupLocal m lbid = Ret None /\ forall e, e ∈ extents m -> ~ covers lbid (range e)) \/
  exists e loc fbo, e ∈ extents m /\ covers lbid (range e) /\
    lookupLocal m lbid = Ret (Some loc) /\ fbo_get (loc_fileBlockOffset loc) 0 = Ret fbo /\
    lookup_range m lbid = Ret (Some (start (range e), lastBlock (range e))) /\
    lookupLocal_fbo m (loc_OID loc) (loc_partitionNum loc) (loc_segmentNum loc) fbo
      = Ret (Some lbid) /\
    lookupLocalStartLbid m (loc_OID loc) (loc_partitionNum loc) (loc_segmentNum loc) fbo
      = Ret (Some (start (range e))).
Proof.
  intros Hwf Hok Hl. unfold lookupLocal, lookup_range. rewrite decide_False by lia.
  destruct (decide (Exists (fun e => covers lbid (range e)) (extents m)))
    as [(e & He & Hc)%Exists_exists|Hno].
  - right. pose proof He as [Hu [i Hi]%list_elem_of_lookup]%elem_of_extents.
    destruct (ok_size _ Hok e ltac:(by eapply list_elem_of_lookup_2) Hu) as (Ho & Hs & [_ _ F1 F2 F3]).
    rewrite (find_lbid m lbid i e Hwf Hi Hc), !ret_bind. cbn [hit].
    assert (Hoff : u32 (blockOffset e + s32 (lbid - start (range e)))
                   = blockOffset e + (lbid - start (range e))).
    { unfold covers in Hc. rewrite s32_id by lia. apply u32_id. lia. }
    eexists e, _, _. split_and!; [done|done|reflexivity|reflexivity|done|..];
      cbn [loc_OID loc_partitionNum loc_segmentNum]; rewrite Hoff, (u32_id (blockOffset e + _))
        by (unfold covers in Hc; lia).
    + unfold lookupLocal_fbo. rewrite decide_False by lia.
      rewrite (find_fbo m i e); try done; [|apply has_fbo_spec; unfold covers in Hc; lia].
      rewrite ret_bind. cbn [hit]. unfold lbid_of_fbo, covers in *.
      rewrite u32_id, s32_id by lia. do 2 f_equal. lia.
    + unfold lookupLocalStartLbid. rewrite decide_False by lia.
      rewrite (find_fbo m i e); try done. apply has_fbo_spec. unfold covers in Hc. lia.
  - left. assert (Hn : forall e, e ∈ extents m -> ~ covers lbid (range e)) by (intros e He Hc; apply Hno, Exists_exists; eauto).
    split; [|done]. by rewrite (find_lbid_none m lbid Hwf Hn).
Qed.

Lemma demo_offsets_ok : offsets_ok (fExtentMap demo_image).
Proof.
  split.
  - intros i j e e' f Hne Hi Hj Hu Hu' (_ & _ & Hs).
    assert (Hk : forall k x, fExtentMap demo_image !! k = Some x -> in_use x = true ->
              (k = 0%nat /\ segmentNum x = 0) \/ (k = 1%nat /\ segmentNum x = 1)).
    { intros [|[|[|[|k]]]] x Hx Hux; cbn in Hx; simplify_eq; auto; done. }
    destruct (Hk i e Hi Hu) as [[-> ?]|[-> ?]], (Hk j e' Hj Hu') as [[-> ?]|[-> ?]]; lia.
  - intros e He Hu. split_and!; [..|by apply (fk_fields _ demo_files_ok)];
      unfold demo_image in He; cbn [fExtentMap] in He;
      (repeat (apply elem_of_cons in He as [->|He]); [by cbn|by cbn|done..|by apply elem_of_nil in He]).
Qed.

Lemma em_lookup_roundtrip_witness :
  (lookupLocal demo_image 8200 = Ret None /\
     forall e, e ∈ extents demo_image -> ~ covers 8200 (range e)) \/
  exists e loc fbo, e ∈ extents demo_image /\ covers 8200 (range e) /\
    lookupLocal demo_image 8200 = Ret (Some loc) /\
    fbo_get (loc_fileBlockOffset loc) 0 = Ret fbo /\
    lookup_range demo_image 8200 = Ret (Some (start (range e), lastBlock (range e))) /\
    lookupLocal_fbo demo_image (loc_OID loc) (loc_partitionNum loc) (loc_segmentNum loc) fbo
      = Ret (Some 8200) /\
    lookupLocalStartLbid demo_image (loc_OID loc) (loc_partitionNum loc) (loc_segmentNum loc) fbo
      = Ret (Some (start (range e))).
Proof. exact (em_lookup_roundtrip demo_image 8200 demo_wf demo_offsets_ok ltac:(lia)). Defined.

(** ** High water marks *)

Section HWM.
Context (OID part seg : Z).
Abbreviation infile := (fun e => in_segfile OID part seg e = true).

(** At most one extent of the file carries the HWM. *)
Definition one_hwm (l : list EMEntry) : Prop :=
  forall i j e e', l !! i = Some e -> l !! j = Some e' -> infile e -> infile e' ->
    HWM e <> 0 -> HWM e' <> 0 -> i = j.

Record hwm_inv (pre : list EMEntry) (a : hwm_scan) : Prop := {
  hi_last :
    (hs_last a = -1 /\ hs_off a = 0 /\ forall e, e ∈ pre -> ~ infile e) \/
    exists k e, hs_last a = Z.of_nat k /\ pre !! k = Some e /\ infile e /\
      hs_off a = blockOffset e /\ forall e', e' ∈ pre -> infile e' -> blockOffset e' <= blockOffset e;
  hi_old :
    (hs_old a = -1 /\ forall e, e ∈ pre -> infile e -> HWM e = 0) \/
    exists k e, hs_old a = Z.of_nat k /\ pre !! k = Some e /\ infile e /\ HWM e <> 0;
}.

Lemma hwm_step_last pre x a : hwm_inv pre a -> (infile x -> 0 <= blockOffset x) ->
  let a' := hwm_step OID part seg a (Z.of_nat (length pre)) x in
  (hs_last a' = -1 /\ hs_off a' = 0 /\ forall e, e ∈ pre ++ [x] -> ~ infile e) \/
  exists k e, hs_last a' = Z.of_nat k /\ (pre ++ [x]) !! k = Some e /\ infile e /\
    hs_off a' = blockOffset e /\
    forall e', e' ∈ pre ++ [x] -> infile e' -> blockOffset e' <= blockOffset e.
Proof.
  intros [H _] Hx. cbv zeta.
  destruct (decide (infile x)) as [Hin|Hin].
  - specialize (Hx Hin). right.
    set (a1 := if decide (blockOffset x >= hs_off a)
               then mkHwmScan (Z.of_nat (length pre)) (hs_old a) (blockOffset x) else a).
    assert (Ha : hs_last (hwm_step OID part seg a (Z.of_nat (length pre)) x) = hs_last a1 /\
                 hs_off (hwm_step OID part seg a (Z.of_nat (length pre)) x) = hs_off a1).
    { unfold hwm_step. rewrite Hin. fold a1. by case_decide. }
    destruct Ha as [-> ->]. unfold a1. case_decide as Hge; cbn [hs_last hs_off].
    + exists (length pre), x. split_and!; [done|by apply list_lookup_middle|done|done|].
      intros e' [He| ->]%elem_of_snoc Hi; [|lia].
      destruct H as [(_ & _ & Hno)|(k & e & _ & _ & _ & Ho & Hmax)]; [by destruct (Hno e')|].
      pose proof (Hmax e' He Hi). lia.
    + destruct H as [(_ & Ho & _)|(k & e & Hk & Hl & Hi & Ho & Hmax)]; [lia|].
      exists k, e. split_and!; [done|by apply lookup_app_l_Some|done|done|].
      intros e' [He| ->]%elem_of_snoc Hi'; [by apply Hmax|lia].
  - assert (Ha : hwm_step OID part seg a (Z.of_nat (length pre)) x = a)
      by (unfold hwm_step; by destruct (in_segfile OID part seg x)).
    rewrite Ha. destruct H as [(Hl & Ho & Hno)|(k & e & Hk & Hl & Hi & Ho & Hmax)].
    + left. split_and!; [done|done|]. intros e [He| ->]%elem_of_snoc; auto.
    + right. exists k, e. split_and!; [done|by apply lookup_app_l_Some|done|done|].
      intros e' [He| ->]%elem_of_snoc Hi'; [by apply Hmax|done].
Qed.

Lemma hwm_step_old pre x a : hwm_inv pre a ->
  let a' := hwm_step OID part seg a (Z.of_nat (length pre)) x in
  (hs_old a' = -1 /\ forall e, e ∈ pre ++ [x] -> infile e -> HWM e = 0) \/
  exists k e, hs_old a' = Z.of_nat k /\ (pre ++ [x]) !! k = Some e /\ infile e /\ HWM e <> 0.
Proof.
  intros [_ H]. cbv zeta.
  assert (Hkeep : ~ (infile x /\ HWM x <> 0) -> forall a', hs_old a' = hs_old a ->
    (hs_old a' = -1 /\ forall e, e ∈ pre ++ [x] -> infile e -> HWM e = 0) \/
    exists k e, hs_old a' = Z.of_nat k /\ (pre ++ [x]) !! k = Some e /\ infile e /\ HWM e <> 0).
  { intros Hx a' ->. destruct H as [[Ho Hz]|(k & e & Hk & Hl & ?)].
    - left. split; [done|]. intros e [He| ->]%elem_of_snoc Hi; [auto|].
      destruct (decide (HWM x = 0)); [done|]. by destruct Hx.
    - right. exists k, e. split_and!; [done|by apply lookup_app_l_Some|apply H|apply H]. }
  unfold hwm_step. destruct (in_segfile OID part seg x) eqn:Hin.
  - destruct (decide (HWM x <> 0)) as [Hh|Hh].
    + right. exists (length pre), x. cbn. split_and!; [done|by apply list_lookup_middle|done|done].
    + apply Hkeep; [tauto|]. by case_decide.
  - apply Hkeep; [|done]. intros [Hc _]. cbv beta in Hc. congruence.
Qed.

Lemma hwm_all l : (forall e, e ∈ l -> infile e -> 0 <= blockOffset e) ->
  hwm_inv l (ifold (hwm_step OID part seg) 0 l (mkHwmScan (-1) (-1) 0)).
Proof.
  apply (ifold_ind _ (fun pre a => (forall e, e ∈ pre -> infile e -> 0 <= blockOffset e) ->
    hwm_inv pre a)).
  - intros _. split; left; split_and!; try done; by intros e ?%elem_of_nil.
  - intros pre x a IH Hok.
    assert (Hinv : hwm_inv pre a) by (apply IH; intros e He; apply Hok; rewrite elem_of_snoc; by left).
    split; [|by apply hwm_step_old]. apply hwm_step_last; [done|].
    apply Hok. rewrite elem_of_snoc. by right.
Qed.

(** The loop of [getLocalHWM] on a list. *)
Fixpoint local_hwm (l : list EMEntry) (st : option Z) : option (Z * Z) :=
  match l with
  | [] => option_map (fun s => (0, s)) st
  | e :: l' =>
      if in_segfile OID part seg e then
        if decide (HWM e <> 0) then Some (HWM e, status e) else local_hwm l' (Some (status e))
      else local_hwm l' st
  end.

Lemma localHWM_loop_list m pre l st : fExtentMap m = pre ++ l ->
  localHWM_loop (seqZ (Z.of_nat (length pre)) (Z.of_nat (length l))) m OID part seg st
  = Ret (local_hwm l st).
Proof.
  revert pre st. induction l as [|x l IH]; intros pre st Hm; [done|].
  rewrite (seqZ_cons _ (Z.of_nat (length (x :: l)))) by (cbn; lia). cbn [localHWM_loop local_hwm].
  rewrite (rd_nat _ (length pre) x) by (rewrite Hm; by apply list_lookup_middle).
  rewrite ret_bind. specialize (IH (pre ++ [x])). rewrite <- app_assoc in IH. cbn [app] in IH.
  replace (Z.succ (Z.of_nat (length pre))) with (Z.of_nat (length (pre ++ [x])))
    by (rewrite length_app; cbn; lia).
  replace (Z.pred (Z.of_nat (length (x :: l)))) with (Z.of_nat (length l)) by (cbn; lia).
  case_match; [case_decide|]; auto.
Qed.

Lemma getLocalHWM_list m : em_wf m -> 0 <= OID ->
  getLocalHWM m OID part seg
  = match local_hwm (fExtentMap m) None with Some x => Ret x | None => Throw InvalidArgument end.
Proof.
  intros Hwf Ho. unfold getLocalHWM. rewrite decide_False by lia.
  rewrite (emEntries_wf _ Hwf).
  pose proof (localHWM_loop_list m [] (fExtentMap m) None eq_refl) as H.
  change (Z.of_nat (length [])) with 0 in H. rewrite H, ret_bind. done.
Qed.

(** All extents of the file but one carry 0: that one is the answer. *)
Lemma local_hwm_one l st i e : l !! i = Some e -> infile e ->
  (forall j x, l !! j = Some x -> j <> i -> infile x -> HWM x = 0) ->
  exists s, local_hwm l st = Some (HWM e, s).
Proof.
  revert st i. induction l as [|x l IH]; intros st [|i] Hi He Hz; try done; cbn in Hi |- *.
  - injection Hi as ->. rewrite He. case_decide as Hh; [by eexists|].
    assert (Hall : forall x, x ∈ l -> infile x -> HWM x = 0).
    { intros y [j Hj]%list_elem_of_lookup Hy. by apply (Hz (S j)). }
    assert (H0 : HWM e = 0) by lia. rewrite H0. clear -Hall.
    assert (Hst : exists s, Some (status e) = Some s) by eauto. revert Hst.
    generalize (Some (status e)). induction l as [|y l IH]; intros o [s ->]; cbn; [by eexists|].
    destruct (in_segfile OID part seg y) eqn:Hy.
    + rewrite decide_False by (rewrite (Hall y) by (done || left); lia).
      apply IH; [|by eexists]. intros. apply Hall; [by right|done].
    + apply IH; [|by eexists]. intros. apply Hall; [by right|done].
  - assert (Hx : infile x -> HWM x = 0) by (intros; by apply (Hz 0%nat)).
    assert (Hz' : forall j y, l !! j = Some y -> j <> i -> infile y -> HWM y = 0)
      by (intros j y Hj Hne; apply (Hz (S j)); [done|congruence]).
    destruct (in_segfile OID part seg x) eqn:Hin.
    + rewrite decide_False by (rewrite Hx by done; lia). by apply (IH _ i).
    + by apply (IH _ i).
Qed.
End HWM.

(** Setting the HWM of a file whose extents satisfy the invariant. *)
Lemma set_local_runs OID part seg h m :
  em_wf m -> (forall e, e ∈ extents m -> in_segfile OID part seg e = true -> fields_ok e) ->
  one_hwm OID part seg (fExtentMap m) ->
  Exists (fun e => in_segfile OID part seg e = true) (extents m) ->
  exists k last, fExtentMap m !! k = Some last /\ in_segfile OID part seg last = true /\
    (forall e, e ∈ extents m -> in_segfile OID part seg e = true ->
       blockOffset e <= blockOffset last) /\
    if decide (h < blockOffset last + size (range last) * 1024) then
      exists m', runs (set_local OID part seg h) m (Ret tt) m' /\ em_wf m' /\
        (em_mapped m -> em_mapped m') /\
        fExtentMap m' !! k = Some (set_status EXTENTAVAILABLE (set_HWM h last)) /\
        (forall j x, fExtentMap m' !! j = Some x -> j <> k -> in_segfile OID part seg x = true ->
           HWM x = 0) /\
        (forall j x, fExtentMap m !! j = Some x -> in_segfile OID part seg x = false ->
           fExtentMap m' !! j = Some x)
    else runs (set_local OID part seg h) m (Throw InvalidArgument) m.
Proof.
  intros Hwf Hok Hone (e0 & He0 & Hin0)%Exists_exists.
  assert (Hex : forall e, e ∈ fExtentMap m -> in_segfile OID part seg e = true -> e ∈ extents m).
  { intros e He Hi. apply elem_of_extents. split; [|done]. by apply in_segfile_spec in Hi as [? _]. }
  set (a := ifold (hwm_step OID part seg) 0 (fExtentMap m) (mkHwmScan (-1) (-1) 0)).
  pose proof (hwm_all OID part seg (fExtentMap m)
    (fun e He Hi => fo_off _ (Hok e (Hex e He Hi) Hi))) as [Hl Ho]. fold a in Hl, Ho.
  destruct Hl as [(_ & _ & Hno)|(k & last & Hk & Hlk & Hil & _ & Hmax)].
  { apply elem_of_extents in He0 as [_ He0]. by destruct (Hno e0 He0). }
  assert (Hlast : fields_ok last) by (apply Hok; [apply Hex|]; [by eapply list_elem_of_lookup_2|..]; done).
  exists k, last. split; [done|]. split; [done|].
  split; [intros e [_ He]%elem_of_extents Hi; by apply Hmax|].
  assert (Hscan : scan (hwm_step OID part seg) (fExtentMap m) (seqZ 0 (emEntries m))
                    (mkHwmScan (-1) (-1) 0) = Ret a) by (apply scan_all, emEntries_wf, Hwf).
  assert (Hu : u32 (blockOffset last + size (range last) * 1024)
               = blockOffset last + size (range last) * 1024)
    by (destruct Hlast; apply u32_id; lia).
  assert (Hpre : forall r m', runs (if decide (h >= blockOffset last + size (range last) * 1024)
       then throw InvalidArgument
       else changeEM (Z.of_nat k) (fun e => set_status EXTENTAVAILABLE (set_HWM h e));;
            if decide (hs_old a <> -1 /\ hs_old a <> Z.of_nat k) then changeEM (hs_old a) (set_HWM 0)
            else mret tt) m r m' -> runs (set_local OID part seg h) m r m').
  { intros r m' H. unfold set_local. eapply runs_bind; [apply runs_image|].
    eapply runs_bind; [apply runs_reading; intros _; exact Hscan|]. cbv beta.
    rewrite Hk, decide_False by lia. eapply runs_bind; [by apply runs_rdEM|]. cbv beta.
    rewrite Hu. exact H. }
  destruct (decide (h < blockOffset last + size (range last) * 1024)) as [Hlt|Hge].
  2: { apply Hpre. rewrite decide_True by lia. apply runs_throw. }
  set (last' := set_status EXTENTAVAILABLE (set_HWM h last)).
  set (m1 := with_em (<[k := last']> (fExtentMap m)) m).
  assert (Hklt := lookup_lt_Some _ _ _ Hlk).
  assert (Hwf1 : em_wf m1) by (by eapply acc_em_same).
  assert (Hr1 : runs (changeEM (Z.of_nat k) (fun e => set_status EXTENTAVAILABLE (set_HWM h e)))
                  m (Ret tt) m1) by (by apply (runs_changeEM k last)).
  assert (Hk1 : fExtentMap m1 !! k = Some last') by (by apply list_lookup_insert_eq).
  assert (Hj1 : forall j, j <> k -> fExtentMap m1 !! j = fExtentMap m !! j)
    by (intros; by apply list_lookup_insert_ne).
  destruct (decide (hs_old a <> -1 /\ hs_old a <> Z.of_nat k)) as [[Hn1 Hn2]|Hsame].
  - destruct Ho as [[? _]|(q & x & Hq & Hlq & Hix & Hhx)]; [done|].
    assert (Hqk : q <> k) by (intros ->; congruence).
    assert (Hlq1 : fExtentMap m1 !! q = Some x) by (by rewrite Hj1).
    set (m2 := with_em (<[q := set_HWM 0 x]> (fExtentMap m1)) m1).
    assert (Hqlt := lookup_lt_Some _ _ _ Hlq1).
    exists m2. split_and!.
    + apply Hpre. rewrite decide_False by lia. eapply runs_bind; [exact Hr1|]. cbv beta.
      rewrite Hq. by apply (runs_changeEM q x).
    + by eapply acc_em_same.
    + unfold m2, m1. autorewrite with mapped. done.
    + unfold m2. cbn. by rewrite list_lookup_insert_ne.
    + intros j y Hj Hjk Hiy. unfold m2 in Hj. cbn [fExtentMap with_em] in Hj.
      destruct (decide (j = q)) as [->|Hjq].
      * rewrite list_lookup_insert_eq in Hj by done. by injection Hj as <-.
      * rewrite list_lookup_insert_ne, Hj1 in Hj by done.
        destruct (decide (HWM y = 0)) as [|Hy]; [done|].
        by destruct Hjq; apply (Hone j q y x).
    + intros j y Hj Hiy. unfold m2. cbn [fExtentMap with_em].
      rewrite list_lookup_insert_ne by congruence. rewrite Hj1; [done|congruence].
  - exists m1. split_and!; [|done| |done| |].
    + apply Hpre. rewrite decide_False by lia. eapply runs_bind; [exact Hr1|]. apply runs_ret.
    + unfold m1. autorewrite with mapped. done.
    + intros j y Hj Hjk Hiy. rewrite Hj1 in Hj by done.
      destruct (decide (HWM y = 0)) as [|Hy]; [done|].
      destruct Ho as [[_ Hz]|(q & x & Hq & Hlq & Hix & Hhx)].
      * apply Hz; [by eapply list_elem_of_lookup_2|done].
      * assert (q = k) as -> by lia. by destruct Hjk; apply (Hone j k y x).
    + intros j y Hj Hiy. rewrite Hj1; [done|congruence].
Qed.

(** The HWM of a segment file.  When at most one extent of the file
    carries a HWM, [setLocalHWM] refuses a value behind the end of the last
    extent and changes nothing; any other value is what [getLocalHWM] then
    returns, the last extent of the file is available and carries it, no
    other extent of the file carries one, and the extents of other files are
    as they were. *)
Theorem em_setLocalHWM_roundtrip OID part seg h m log :
  em_wf m -> em_mapped m -> 0 <= OID ->
  (forall e, e ∈ extents m -> in_segfile OID part seg e = true -> fields_ok e) ->
  one_hwm OID part seg (fExtentMap m) ->
  Exists (fun e => in_segfile OID part seg e = true) (extents m) ->
  exists last, last ∈ extents m /\ in_segfile OID part seg last = true /\
    (forall e, e ∈ extents m -> in_segfile OID part seg e = true ->
       blockOffset e <= blockOffset last) /\
    if decide (h < blockOffset last + size (range last) * 1024) then
      exists m' log' st,
        setLocalHWM OID part seg h true (mkExtentMap (mkUndoable m log) false false)
        = (Ret tt, mkExtentMap (mkUndoable m' log') true false) /\
        em_wf m' /\ one_hwm OID part seg (fExtentMap m') /\
        getLocalHWM m' OID part seg = Ret (h, st) /\
        set_status EXTENTAVAILABLE (set_HWM h last) ∈ extents m' /\
        forall e, e ∈ extents m -> in_segfile OID part seg e = false -> e ∈ extents m'
    else exists log',
      setLocalHWM OID part seg h true (mkExtentMap (mkUndoable m log) false false)
      = (Throw InvalidArgument, mkExtentMap (mkUndoable m log') true false).
Proof.
  intros Hwf Hm Ho Hok Hone Hex.
  destruct (set_local_runs OID part seg h m Hwf Hok Hone Hex) as (k & last & Hk & Hi & Hmax & Hrun).
  assert (Hul : in_use last = true) by (by apply in_segfile_spec in Hi as [? _]).
  exists last. split_and!; [|done|done|].
  { apply elem_of_extents. split; [done|]. by eapply list_elem_of_lookup_2. }
  assert (Hlock : setLocalHWM OID part seg h true (mkExtentMap (mkUndoable m log) false false)
            = on_image (set_local OID part seg h) (mkExtentMap (mkUndoable m log) true false)).
  { unfold setLocalHWM. by erewrite bind_Ret by (by apply grabEM_mapped). }
  case_decide as Hlt.
  - destruct Hrun as (m' & Hrun & Hwf' & _ & Hk' & Hz & Hoth).
    destruct (runs_on_image _ _ _ _ log true false Hrun) as [log' Hr].
    destruct (local_hwm_one OID part seg (fExtentMap m') None k _ Hk' Hi Hz) as [st Hst].
    exists m', log', st. rewrite Hlock. split_and!; [done|done| |..].
    + intros i j e e' He He' Hie Hie' Hh Hh'.
      destruct (decide (i = k)) as [->|Hik]; [|by destruct Hh; apply (Hz i)].
      destruct (decide (j = k)) as [->|Hjk]; [done|]. by destruct Hh'; apply (Hz j).
    + by rewrite (getLocalHWM_list OID part seg m' Hwf' Ho), Hst.
    + apply elem_of_extents. split; [done|]. by eapply list_elem_of_lookup_2.
    + intros e [Hu [j Hj]%list_elem_of_lookup]%elem_of_extents Hie. apply elem_of_extents.
      split; [done|]. eapply list_elem_of_lookup_2. by apply Hoth.
  - destruct (runs_on_image _ _ _ _ log true false Hrun) as [log' Hr]. exists log'.
    by rewrite Hlock.
Qed.

Lemma em_setLocalHWM_roundtrip_witness :
  exists last, last ∈ extents demo_image /\ in_segfile 3001 0 0 last = true /\
    (forall e, e ∈ extents demo_image -> in_segfile 3001 0 0 e = true ->
       blockOffset e <= blockOffset last) /\
    if decide (500 < blockOffset last + size (range last) * 1024) then
      exists m' log' st,
        setLocalHWM 3001 0 0 500 true demo_map
        = (Ret tt, mkExtentMap (mkUndoable m' log') true false) /\
        em_wf m' /\ one_hwm 3001 0 0 (fExtentMap m') /\ getLocalHWM m' 3001 0 0 = Ret (500, st) /\
        set_status EXTENTAVAILABLE (set_HWM 500 last) ∈ extents m' /\
        forall e, e ∈ extents demo_image -> in_segfile 3001 0 0 e = false -> e ∈ extents m'
    else exists log',
      setLocalHWM 3001 0 0 500 true demo_map
      = (Throw InvalidArgument, mkExtentMap (mkUndoable demo_image log') true false).
Proof.
  apply (em_setLocalHWM_roundtrip 3001 0 0 500 demo_image []);
    [exact demo_wf|exact demo_mapped|lia| | |].
  - intros e [Hu He]%elem_of_extents _. by apply (fk_fields _ demo_files_ok).
  - intros [|[|[|[|i]]]] [|[|[|[|j]]]] e e' Hi Hj He He' _ _; cbn in Hi, Hj; simplify_eq; done.
  - by apply Exists_cons_hd.
Defined.

(** ** The last extent of a DBRoot *)

(** Two extents of one segment file, in two stripes. *)
Definition two_stripes : em_image :=
  mkImage [mkEM (mkInline 0 8) 3001 0 root1 0 0 0 8 EXTENTAVAILABLE (mkCP 0 0 0 CP_INVALID);
           mkEM (mkInline 8192 8) 3001 8192 root1 9000 0 0 8 EXTENTAVAILABLE (mkCP 0 0 0 CP_INVALID)]
    (mkMST 0x20001 144 144) 0x20001 true
    [mkInline 16384 (MAX_LBID_SIZE - 16)] (mkMST 0x30001 16 16) 0x30001 true.

(** [getDbRootHWMInfo] is to report the last extent of a DBRoot, as
    [getLastHWM_DBroot] does; its test of the partition with >= takes any
    extent of the highest partition, so that the first entry of the map wins:
    here the HWM is said to be 0. *)
Theorem em_getDbRootHWMInfo_first :
  getLastHWM_DBroot two_stripes 3001 root1 = Ret (9000, 0, 0, Some EXTENTAVAILABLE) /\
  exists infos x, getDbRootHWMInfo two_stripes 3001 [1] = Ret infos /\ infos !! 1 = Some x /\
    hi_hwmExtentIndex x = 0 /\ hi_fbo x = 0 /\ hi_localHWM x = 0.
Proof.
  split; [vm_compute; reflexivity|]. do 2 eexists.
  split; [vm_compute; reflexivity|]. split; [vm_compute; reflexivity|]. done.
Qed.
