(* ===== verification/ExtentChoice.v ===== *)
(** * Where the copies of new data go

    [ExtentMap::getMinDataDBRoots] picks the DBRoots for a new table, one per
    copy, and [getSysDataDBRoots] those of the system catalog.  What the cluster
    looks like (the Performance Modules, the DBRoots on each) is the
    administration's to say: [cluster]. *)
From Stdlib Require Import ZArith Lia.
From S2P Require Import Prelude Undoable BrmTypes StdMap CopyLocks ExtentMap ExtentProofs.

Local Open Scope Z_scope.

Record cluster := mkCluster {
  pmToDbr : gmap Z (list Z);   (* getPMToDbrootsMap *)
  dbrToPm : gmap Z Z;          (* getDBRootToPMMap *)
  modIDs : list Z;             (* getModuleIds; their number is getPMCount *)
  dbrCount : Z;                (* getDBRootCount *)
  masterId : Z;                (* getOAMParentModuleId *)
}.

(** [checkReloadConfig]: what the numbers of the configuration file become. *)
Record em_config := mkConfig { filesPerColumnPartition : Z; extentsPerSegmentFile : Z; extentDBRreplicateSize : Z }.
Definition checkReloadConfig (files extents copies : Z) : em_config :=
  mkConfig (if decide (files = 0) then 4 else files) (if decide (extents = 0) then 2 else extents)
    (Z.min 4 (if decide (copies = 0) then 1 else copies)).

(** ** DBRoots for a table *)

(** One more extent on [dbr]. *)
Definition bump (m : gmap Z Z) (dbr : Z) : gmap Z Z := <[dbr := default 0 (m !! dbr) + 1]> m.
(** The number of extents whose first copy is on a DBRoot. *)
Definition count_extents (m : em_image) : res (gmap Z Z) :=
  roots ← collect_em (fun e => if in_use e then Some (roots_master (em_dbRoots e)) else None) m;
  Ret (foldl bump ∅ roots).

(** The DBRoots chosen so far and the keys of [pmExist]; [dbrExist] is never
    read. *)
Record choice := mkChoice { ch_roots : DBROOTS_struct; ch_index : Z; ch_pms : gset Z }.

Definition choose (dbr pm : Z) (c : choice) : res choice :=
  roots ← roots_set (ch_roots c) (ch_index c) dbr;
  Ret (mkChoice roots (ch_index c + 1) ({[pm]} ∪ ch_pms c)).

Section choosing.
Context (cl : cluster) (repSize : Z) (dbrnum : gmap Z Z) (mpmid : Z).

Definition complete (c : choice) : bool := bool_decide (ch_index c >= repSize) || bool_decide (ch_index c >= dbrCount cl).

(** The first DBRoot of a module without extents. *)
Definition unused_root (pmDbrs : list Z) : option Z := find (fun d => bool_decide (dbrnum !! d = None)) pmDbrs.

(** One module after the other: a DBRoot without extents, if it has one. *)
Fixpoint unused_loop (mods : list Z) (c : choice) : res choice :=
  match mods with
  | [] => Ret c
  | mit :: mods' =>
      if complete c then Ret c
      else match pmToDbr cl !! mit with
      | None => unused_loop mods' c
      | Some pmDbrs =>
          if bool_decide (pmDbrs = []) || bool_decide (mpmid = mit) then unused_loop mods' c
          else match unused_root pmDbrs with
               | Some d => c' ← choose d mit c; unused_loop mods' c'
               | None => unused_loop mods' c
               end
      end
  end.

(** The scan for the DBRoot with the fewest extents: the DBRoot, its number, and
    where [pmit] stands after the loop ([None]: at the end). *)
Fixpoint least_scan (dbrPm : gmap Z Z) (pms : gset Z) (l : list (Z * Z)) (best : Z * Z) (pmit : option Z)
    : (Z * Z) * option Z :=
  match l with
  | [] => (best, pmit)
  | (d, n) :: l' =>
      match dbrPm !! d with
      | None => (best, None)
      | Some pm =>
          if decide (pm ∈ pms) then least_scan dbrPm pms l' best (Some pm)
          else least_scan dbrPm pms l' (if decide (best.2 > n) then (d, n) else best) (Some pm)
      end
  end.

(** One turn of the second loop: the module noted is the one of the entry
    scanned last. *)
Definition least_step (dbrPm : gmap Z Z) (c : choice) : res choice :=
  let '((d, _), pmit) := least_scan dbrPm (ch_pms c) (in_order dbrnum) (0, 0x7FFFFFFF) None in
  if decide (d = 0) then Ret c
  else match pmit with
       | Some pm => choose d pm c
       | None => UB DanglingPointer
       end.

Fixpoint least_loop (fuel : nat) (dbrPm : gmap Z Z) (c : choice) : res choice :=
  if complete c then Ret c
  else match fuel with
       | O => UB Diverges
       | S fuel' => c' ← least_step dbrPm c; least_loop fuel' dbrPm c'
       end.
End choosing.

(** The turns of the second loop before it is said to diverge: at most four are
    useful.  The check behind the loop for an empty choice is never reached. *)
Definition choice_fuel : nat := 1000.

Definition getMinDataDBRoots (cl : cluster) (repSize : Z) (m : em_image) (dbroots : DBROOTS_struct) (mdbr : Z)
    : res DBROOTS_struct :=
  dbrnum ← count_extents m;
  let mpmid := if decide (mdbr = 0) then 0 else default 0 (dbrToPm cl !! mdbr) in
  (* operator[] of a missing key adds it *)
  let dbrPm := if decide (mdbr = 0) then dbrToPm cl else <[mdbr := mpmid]> (dbrToPm cl) in
  c ← (if decide (mdbr = 0) then Ret (mkChoice dbroots 0 ∅) else choose mdbr mpmid (mkChoice dbroots 0 ∅));
  c1 ← unused_loop cl repSize dbrnum mpmid (modIDs cl) c;
  if complete cl repSize c1 then Ret (ch_roots c1)
  else
    c2 ← least_loop cl repSize dbrnum choice_fuel dbrPm c1;
    Ret (ch_roots c2).

(** ** DBRoots of the system catalog *)

Definition OID_SYSTABLE_TABLENAME : Z := 10242.

Fixpoint sys_loop (cl : cluster) (repSize : Z) (mods : list Z) (index : Z) (roots : DBROOTS_struct) : res DBROOTS_struct :=
  match mods with
  | [] => Ret roots
  | mit :: mods' =>
      if decide (mit = masterId cl) then sys_loop cl repSize mods' index roots
      else if decide (index >= repSize \/ index >= dbrCount cl) then Ret roots
      else match pmToDbr cl !! mit with
      | Some (d :: _) => roots' ← roots_set roots index d; sys_loop cl repSize mods' (index + 1) roots'
      | _ => sys_loop cl repSize mods' index roots
      end
  end.

(** The code and the DBRoots. *)
Definition getSysDataDBRoots (cl : cluster) (repSize : Z) (m : em_image) (dbroots : DBROOTS_struct)
    : res (Z * DBROOTS_struct) :=
  if decide (emEntries m > 0 /\ currentSize (fEMShminfo m) > 0) then
    r ← find_em (fun e => in_use e && bool_decide (fileID e = OID_SYSTABLE_TABLENAME)) m;
    match r with
    | Some (_, e) => Ret (0, em_dbRoots e)
    | None => Throw LogicError
    end
  else match pmToDbr cl !! masterId cl with
  | Some (d :: _) =>
      roots ← roots_set dbroots 0 d;
      if decide (Z.of_nat (length (modIDs cl)) > 1)
      then roots' ← sys_loop cl repSize (modIDs cl) 1 roots; Ret (0, roots')
      else Ret (0, roots)
  | _ => Ret (-1, dbroots)
  end.
