(* ===== verification/ExtentChoiceProofs.v ===== *)
(** * Properties of the choice of DBRoots *)
From Stdlib Require Import ZArith Lia.
From S2P Require Import Prelude Undoable BrmTypes StdMap CopyLocks ExtentMap ExtentProofs ExtentChoice.

Local Open Scope Z_scope.

(** ** Counting *)

Lemma bump_Some (m : gmap Z Z) d x : is_Some (bump m d !! x) <-> x = d \/ is_Some (m !! x).
Proof. unfold bump. rewrite lookup_insert_is_Some. destruct (decide (d = x)); naive_solver. Qed.

Lemma bumps_Some ds : forall (m : gmap Z Z) x, is_Some (foldl bump m ds !! x) <-> x ∈ ds \/ is_Some (m !! x).
Proof.
  induction ds as [|d ds IH]; intros m x; cbn [foldl]; [set_solver|]. rewrite IH, bump_Some, elem_of_cons. tauto.
Qed.

(** No extent has its first copy on [d]. *)
Definition idle_root (m : em_image) (d : Z) : Prop :=
  forall e, e ∈ extents m -> roots_master (em_dbRoots e) <> d.

Lemma count_extents_spec m : em_wf m -> exists M, count_extents m = Ret M /\ forall d, M !! d = None <-> idle_root m d.
Proof.
  intros Hwf. unfold count_extents, collect_em. rewrite (collect_all (fun e => option_list
    (if in_use e then Some (roots_master (em_dbRoots e)) else None)) (fExtentMap m)) by (by apply emEntries_wf).
  cbn [mbind res_bind]. eexists. split; [reflexivity|]. intros d. rewrite eq_None_not_Some, bumps_Some, lookup_empty.
  rewrite list_elem_of_bind. unfold idle_root, extents. setoid_rewrite list_elem_of_filter. split.
  - intros H e [Hu He] <-. apply H. left. exists e. rewrite Hu. split; [by apply list_elem_of_here|done].
  - intros H [(e & Hd & He)|[? [=]]]. destruct (in_use e) eqn:Hu; [|by apply elem_of_nil in Hd].
    apply list_elem_of_singleton in Hd as ->. by apply (H e).
Qed.

(** ** The first loop *)

Section unused.
Context (cl : cluster) (repSize : Z) (dbrnum : gmap Z Z) (mpmid : Z) (orig : list Z).
Hypothesis Horig : length orig = 4%nat.
Hypothesis Hrep : repSize <= 4.
(** DBRoots are positive 16-bit numbers. *)
Hypothesis Hrange : forall pm l d, pmToDbr cl !! pm = Some l -> d ∈ l -> 0 < d < 2 ^ 16.

Definition limit : Z := Z.min repSize (dbrCount cl).
Definition pick (pm : Z) : option Z :=
  if decide (mpmid = pm) then None
  else match pmToDbr cl !! pm with Some l => unused_root dbrnum l | None => None end.
Definition picks (mods : list Z) : list Z := omap pick mods.

(** The choice has written [ch] over the caller's DBRoots. *)
Definition chose (ch : list Z) (c : choice) : Prop :=
  ch_roots c = mkRoots (ch ++ drop (length ch) orig) /\ ch_index c = Z.of_nat (length ch).

Lemma pick_spec pm d : pick pm = Some d ->
  mpmid <> pm /\ exists l, pmToDbr cl !! pm = Some l /\ d ∈ l /\ dbrnum !! d = None.
Proof.
  unfold pick. destruct (decide _) as [|Hne]; [done|]. destruct (pmToDbr cl !! pm) as [l|]; [|done].
  intros [Hd Hb%bool_decide_eq_true]%find_some. rewrite <- list_elem_of_In in Hd. eauto.
Qed.

Lemma chose_choose ch c d pm : chose ch c -> (length ch < 4)%nat -> 0 < d < 2 ^ 16 ->
  exists c', choose d pm c = Ret c' /\ chose (ch ++ [d]) c'.
Proof.
  intros [Hr Hi] Hl Hd. unfold choose, roots_set. rewrite Hr, Hi. cbn [dbRoots].
  destruct (lookup_lt_is_Some_2 orig (length ch)) as [x Hx]; [lia|].
  rewrite (drop_S _ x) by done.
  rewrite (rd_nat _ _ x) by (by apply list_lookup_middle). cbn [mbind res_bind]. eexists. split; [reflexivity|].
  split; cbn [ch_roots ch_index].
  - rewrite wr_nat, insert_app_r_alt, Nat.sub_diag by lia. cbn [insert list_insert].
    rewrite length_app, <- app_assoc. cbn [app length]. rewrite Nat.add_1_r. do 3 f_equal. unfold u16. apply Z.mod_small. lia.
  - rewrite length_app. cbn. lia.
Qed.

Lemma unused_loop_spec mods : forall ch c, chose ch c -> Z.of_nat (length ch) <= limit ->
  exists c', unused_loop cl repSize dbrnum mpmid mods c = Ret c' /\
    chose (ch ++ take (Z.to_nat limit - length ch) (picks mods)) c'.
Proof.
  induction mods as [|pm mods IH]; intros ch c Hc Hlim; cbn [unused_loop].
  { exists c. cbn [picks omap list_omap]. by rewrite take_nil, app_nil_r. }
  destruct (complete cl repSize c) eqn:Ec.
  { exists c. split; [done|]. replace (Z.to_nat limit - length ch)%nat with 0%nat; [by rewrite app_nil_r|].
    unfold complete, limit in *. rewrite (proj2 Hc) in Ec.
    apply orb_true_iff in Ec as [Ec%bool_decide_eq_true|Ec%bool_decide_eq_true]; lia. }
  apply orb_false_iff in Ec as [E1%bool_decide_eq_false E2%bool_decide_eq_false]. rewrite (proj2 Hc) in E1, E2.
  assert (Hroom : (length ch < Z.to_nat limit)%nat) by (unfold limit; lia).
  assert (Hskip : forall o, o = pick pm -> o = None ->
    exists c', unused_loop cl repSize dbrnum mpmid mods c = Ret c' /\
      chose (ch ++ take (Z.to_nat limit - length ch) (picks (pm :: mods))) c').
  { intros o -> Hn. unfold picks. cbn [omap list_omap]. rewrite Hn. by apply IH. }
  unfold pick in Hskip. destruct (pmToDbr cl !! pm) as [l|] eqn:El.
  2: { eapply Hskip; [reflexivity|by destruct (decide _)]. }
  destruct (bool_decide (l = [])) eqn:E3; [apply bool_decide_eq_true in E3 as ->; eapply Hskip; [reflexivity|by destruct (decide _)]|].
  destruct (decide (mpmid = pm)) as [Hm|Hm].
  { rewrite (bool_decide_true (mpmid = pm)) by done. eapply Hskip; reflexivity. }
  rewrite (bool_decide_false (mpmid = pm)) by done. cbn [orb].
  destruct (unused_root dbrnum l) as [d|] eqn:Ed; [|by eapply Hskip].
  assert (Hp : pick pm = Some d) by (unfold pick; rewrite decide_False, El by done; done).
  destruct (pick_spec pm d Hp) as (_ & l' & Hl' & Hd & _).
  destruct (chose_choose ch c d pm Hc) as (c1 & E & Hc1); [unfold limit in *; lia|by eapply Hrange|].
  rewrite E. cbn [mbind res_bind].
  destruct (IH (ch ++ [d]) c1 Hc1) as (c2 & E' & Hc2); [rewrite length_app; cbn; lia|].
  exists c2. split; [done|]. unfold picks. cbn [omap list_omap]. rewrite Hp.
  rewrite length_app in Hc2. cbn [length] in Hc2.
  replace (Z.to_nat limit - length ch)%nat with (S (Z.to_nat limit - (length ch + 1)))%nat by lia. cbn [take].
  rewrite <- app_assoc in Hc2. exact Hc2.
Qed.
End unused.

(** ** Copies on different modules *)

(** What the administration keeps true of its maps. *)
Record cluster_ok (cl : cluster) : Prop := {
  co_mods : NoDup (modIDs cl);
  co_range pm l d : pmToDbr cl !! pm = Some l -> d ∈ l -> 0 < d < 2 ^ 16;
  co_pm pm l d : pmToDbr cl !! pm = Some l -> d ∈ l -> dbrToPm cl !! d = Some pm;
}.

(** A module other than [pm0] with a DBRoot on which no extent has its first
    copy. *)
Definition spare_module (cl : cluster) (m : em_image) (pm0 pm : Z) : Prop :=
  pm <> pm0 /\ pm ∈ modIDs cl /\ exists l d, pmToDbr cl !! pm = Some l /\ d ∈ l /\ idle_root m d.

Lemma NoDup_take_list {A} n (l : list A) : NoDup l -> NoDup (take n l).
Proof. intros H. rewrite <- (take_drop n l) in H. by apply NoDup_app in H as [? _]. Qed.

Lemma picks_pms cl dbrnum mpmid mods : cluster_ok cl ->
  (dbrToPm cl !!.) <$> picks cl dbrnum mpmid mods = Some <$> filter (fun pm => is_Some (pick cl dbrnum mpmid pm)) mods.
Proof.
  intros Hok. induction mods as [|pm mods IH]; [done|]. unfold picks in *. cbn [omap list_omap].
  destruct (pick cl dbrnum mpmid pm) as [d|] eqn:E.
  - rewrite filter_cons_True by (rewrite E; eauto). cbn [fmap list_fmap]. rewrite <- IH. f_equal.
    apply pick_spec in E as (_ & l & Hl & Hd & _). by eapply co_pm.
  - rewrite filter_cons_False by (rewrite E; by intros [? [=]]). exact IH.
Qed.

Lemma spare_picked cl m dbrnum mpmid pm : (forall d, dbrnum !! d = None <-> idle_root m d) ->
  spare_module cl m mpmid pm -> is_Some (pick cl dbrnum mpmid pm).
Proof.
  intros Hn (Hne & _ & l & d & Hl & Hd & Hi). unfold pick. rewrite decide_False, Hl by done.
  unfold unused_root. destruct (find _ l) as [x|] eqn:E; [eauto|].
  eapply find_none in E; [|by apply list_elem_of_In]. rewrite bool_decide_true in E; [done|by apply Hn].
Qed.

(** The caller's DBRoot, if there is one. *)
Definition given (mdbr : Z) : list Z := if decide (mdbr = 0) then [] else [mdbr].

Lemma first_choice orig mdbr pm0 : length orig = 4%nat -> 0 <= mdbr < 2 ^ 16 ->
  exists c, (if decide (mdbr = 0) then Ret (mkChoice (mkRoots orig) 0 ∅)
      else choose mdbr pm0 (mkChoice (mkRoots orig) 0 ∅)) = Ret c /\ chose orig (given mdbr) c.
Proof.
  intros Ho Hm. assert (H0 : chose orig [] (mkChoice (mkRoots orig) 0 ∅)) by done. unfold given.
  destruct (decide (mdbr = 0)); [by eexists|].
  destruct (chose_choose orig Ho [] _ mdbr pm0 H0) as (c & E & Hc); [cbn; lia|lia|]. by exists c.
Qed.

Lemma enough_picks cl m dbrnum pm0 mods : cluster_ok cl -> (forall d, dbrnum !! d = None <-> idle_root m d) ->
  NoDup mods -> Forall (spare_module cl m pm0) mods -> (length mods <= length (picks cl dbrnum pm0 (modIDs cl)))%nat.
Proof.
  intros Hok HM Hnd Hsp. pose proof (f_equal length (picks_pms cl dbrnum pm0 (modIDs cl) Hok)) as Hp.
  rewrite !length_fmap in Hp. rewrite Hp. apply submseteq_length, NoDup_submseteq; [done|]. intros pm Hpm.
  rewrite Forall_forall in Hsp. specialize (Hsp pm Hpm). apply list_elem_of_filter.
  split; [by eapply spare_picked|apply Hsp].
Qed.

(** The modules of the DBRoots chosen are different. *)
Lemma chosen_pms cl dbrnum mdbr pm0 n : cluster_ok cl ->
  (mdbr = 0 \/ dbrToPm cl !! mdbr = Some pm0) ->
  NoDup ((dbrToPm cl !!.) <$> given mdbr ++ take n (picks cl dbrnum pm0 (modIDs cl))).
Proof.
  intros Hok Hmd. rewrite fmap_app, fmap_take, picks_pms, <- fmap_take by done. apply NoDup_app. split_and!.
  - unfold given. destruct (decide _); [constructor|apply NoDup_singleton].
  - unfold given. intros x Hx Hin. destruct (decide _) as [|Hm0]; [by apply elem_of_nil in Hx|].
    apply list_elem_of_singleton in Hx as ->. destruct Hmd as [|Hpm0]; [done|].
    apply list_elem_of_fmap in Hin as (pm & Heq & Hin). rewrite Hpm0 in Heq. injection Heq as <-.
    apply elem_of_take in Hin as (i & Hi & _). apply list_elem_of_lookup_2, list_elem_of_filter in Hi as [[d Hd] _].
    by apply pick_spec in Hd as [? _].
  - apply NoDup_fmap_2; [apply _|]. apply NoDup_take_list, NoDup_filter, Hok.
Qed.

(** C28: when enough modules have a DBRoot without extents, [getMinDataDBRoots]
    chooses as many DBRoots as copies are wanted, the caller's first, each on a
    module of its own and, the caller's apart, without extents. *)
Theorem getMinDataDBRoots_spread (cl : cluster) (repSize : Z) (m : em_image) (mdbr pm0 : Z) (orig mods : list Z) :
  em_wf m -> cluster_ok cl -> length orig = 4%nat -> 0 < repSize <= 4 -> 0 < dbrCount cl ->
  (mdbr = 0 /\ pm0 = 0 \/ 0 < mdbr < 2 ^ 16 /\ dbrToPm cl !! mdbr = Some pm0) ->
  NoDup mods -> Forall (spare_module cl m pm0) mods ->
  limit cl repSize <= Z.of_nat (length mods) + (if decide (mdbr = 0) then 0 else 1) ->
  exists chosen, getMinDataDBRoots cl repSize m (mkRoots orig) mdbr = Ret (mkRoots (chosen ++ drop (length chosen) orig)) /\
    Z.of_nat (length chosen) = limit cl repSize /\ (mdbr <> 0 -> head chosen = Some mdbr) /\
    NoDup ((dbrToPm cl !!.) <$> chosen) /\ forall d, d ∈ chosen -> d = mdbr \/ idle_root m d.
Proof.
  intros Hwf Hok Ho Hrep Hcnt Hmd Hnd Hsp Hlen. destruct (count_extents_spec m Hwf) as (M & EM & HM).
  unfold getMinDataDBRoots. rewrite EM. cbn [mbind res_bind]. clear EM.
  assert (Hmp : (if decide (mdbr = 0) then 0 else default 0 (dbrToPm cl !! mdbr)) = pm0).
  { destruct Hmd as [[-> ->]|[? ->]]; [done|]. by rewrite decide_False by lia. }
  rewrite Hmp. set (dbrPm := if decide (mdbr = 0) then _ else _). clearbody dbrPm.
  destruct (first_choice orig mdbr pm0 Ho) as (c & -> & Hc); [lia|]. cbn [mbind res_bind].
  assert (Hg : Z.of_nat (length (given mdbr)) = if decide (mdbr = 0) then 0 else 1) by (unfold given; by destruct (decide _)).
  assert (Hl0 : Z.of_nat (length (given mdbr)) <= limit cl repSize) by (rewrite Hg; unfold limit; destruct (decide _); lia).
  destruct (unused_loop_spec cl repSize M pm0 orig Ho (proj2 Hrep) (co_range _ Hok) (modIDs cl) _ c Hc Hl0)
    as (c1 & -> & Hc1). cbn [mbind res_bind]. pose proof (enough_picks cl m M pm0 mods Hok HM Hnd Hsp) as Hpl.
  set (new := take _ _) in Hc1. assert (Hnew : Z.of_nat (length (given mdbr ++ new)) = limit cl repSize).
  { rewrite length_app. subst new. rewrite length_take. lia. }
  assert (Hdone : complete cl repSize c1 = true).
  { unfold complete. rewrite (proj2 Hc1), Hnew. unfold limit.
    destruct (Z.min_spec repSize (dbrCount cl)) as [[_ ->]|[_ ->]]; [rewrite bool_decide_true by lia; done|].
    rewrite (bool_decide_true (dbrCount cl >= dbrCount cl)) by lia. apply orb_true_r. }
  rewrite Hdone, (proj1 Hc1). exists (given mdbr ++ new). split_and!; [done|done| | |].
  - intros Hm. unfold given. by rewrite decide_False.
  - apply chosen_pms; [done|]. destruct Hmd as [[-> _]|[_ ?]]; auto.
  - intros d [Hd|Hd]%elem_of_app.
    + unfold given in Hd. destruct (decide _); [by apply elem_of_nil in Hd|]. apply list_elem_of_singleton in Hd. by left.
    + right. subst new. apply elem_of_take in Hd as (i & Hi & _). apply list_elem_of_lookup_2, list_elem_of_omap in Hi as (pm & _ & Hp).
      apply pick_spec in Hp as (_ & l & _ & _ & Hn). by apply HM.
Qed.

(** Three modules with a DBRoot each; the extents are on the first. *)
Definition demo_cluster : cluster :=
  mkCluster {[1 := [1]; 2 := [2]; 3 := [3]]} {[1 := 1; 2 := 2; 3 := 3]} [1; 2; 3] 3 1.

Lemma demo_cluster_ok : cluster_ok demo_cluster.
Proof.
  split.
  - vm_compute. repeat constructor; set_solver.
  - intros pm l d. cbn [pmToDbr demo_cluster]. intros Hl Hd.
    repeat (apply lookup_insert_Some in Hl as [[<- <-]|[_ Hl]]; [apply list_elem_of_singleton in Hd as ->; lia|]).
    apply lookup_singleton_Some in Hl as [<- <-]. apply list_elem_of_singleton in Hd as ->. lia.
  - intros pm l d. cbn [pmToDbr demo_cluster]. intros Hl Hd.
    repeat (apply lookup_insert_Some in Hl as [[<- <-]|[_ Hl]]; [apply list_elem_of_singleton in Hd as ->; reflexivity|]).
    apply lookup_singleton_Some in Hl as [<- <-]. apply list_elem_of_singleton in Hd as ->. reflexivity.
Qed.

Lemma demo_idle d : d <> 1 -> idle_root demo_image d.
Proof.
  intros Hd e [Hu He]%list_elem_of_filter. unfold demo_image in He. cbn [fExtentMap] in He.
  repeat (apply elem_of_cons in He as [->|He]; [done || (cbn; congruence)|]). by apply elem_of_nil in He.
Qed.

Lemma getMinDataDBRoots_spread_witness :
  exists chosen, getMinDataDBRoots demo_cluster 3 demo_image (mkRoots [0; 0; 0; 0]) 1
      = Ret (mkRoots (chosen ++ drop (length chosen) [0; 0; 0; 0])) /\
    Z.of_nat (length chosen) = limit demo_cluster 3 /\ (1 <> 0 -> head chosen = Some 1) /\
    NoDup ((dbrToPm demo_cluster !!.) <$> chosen) /\ forall d, d ∈ chosen -> d = 1 \/ idle_root demo_image d.
Proof.
  apply (getMinDataDBRoots_spread demo_cluster 3 demo_image 1 1 [0; 0; 0; 0] [2; 3]);
    [apply demo_wf|apply demo_cluster_ok|done|lia|done|right; by split|repeat constructor; set_solver| |done].
  constructor; [|constructor; [|constructor]].
  - split; [done|]. split; [set_solver|]. exists [2], 2. split; [reflexivity|]. split; [set_solver|by apply demo_idle].
  - split; [done|]. split; [set_solver|]. exists [3], 3. split; [reflexivity|]. split; [set_solver|by apply demo_idle].
Defined.

(** ** What the second loop does *)

Lemma least_scan_none dbrPm pms l best : (forall d n, (d, n) ∈ l -> exists pm, dbrPm !! d = Some pm /\ pm ∈ pms) ->
  forall pmit, (least_scan dbrPm pms l best pmit).1 = best.
Proof.
  induction l as [|[d n] l IH]; intros H pmit; [done|]. cbn [least_scan].
  destruct (H d n) as (pm & -> & Hpm); [apply list_elem_of_here|]. rewrite decide_True by done.
  apply IH. intros d' n' Hin. apply (H d' n'). by apply list_elem_of_further.
Qed.

(** Once every DBRoot with extents is on a module already taken, the second loop
    of [getMinDataDBRoots] turns for ever. *)
Theorem least_loop_stuck cl repSize dbrnum dbrPm c fuel : complete cl repSize c = false ->
  (forall d n, dbrnum !! d = Some n -> exists pm, dbrPm !! d = Some pm /\ pm ∈ ch_pms c) ->
  least_loop cl repSize dbrnum fuel dbrPm c = UB Diverges.
Proof.
  intros Hc H. assert (Hs : least_step dbrnum dbrPm c = Ret c).
  { unfold least_step. pose proof (least_scan_none dbrPm (ch_pms c) (in_order dbrnum) (0, 0x7FFFFFFF)) as Hn.
    destruct (least_scan _ _ _ _ None) as [[d n] pmit] eqn:E. specialize (Hn ltac:(intros d' n' Hin%elem_of_in_order; by eapply H) None).
    rewrite E in Hn. cbn in Hn. by injection Hn as -> _. }
  induction fuel as [|fuel IH]; cbn [least_loop]; rewrite Hc; [done|]. rewrite Hs. exact IH.
Qed.

(** So it does on one module with two DBRoots and two copies. *)
Theorem one_module_two_copies :
  getMinDataDBRoots (mkCluster {[1 := [1; 2]]} {[1 := 1; 2 := 1]} [1] 2 1) 2 demo_image DBROOTS_zero 0 = UB Diverges.
Proof. vm_compute. reflexivity. Qed.

(** Three modules with one DBRoot each, all in use: the module noted is not the
    one chosen, and both copies go to the same DBRoot. *)
Definition used_image : em_image :=
  let on d st := mkEM (mkInline st 8) 3001 0 (mkRoots [d; 0; 0; 0]) 0 0 0 8 EXTENTAVAILABLE
    (mkCP int64_min int64_max 0 CP_VALID) in
  mkImage [on 1 0; on 1 8192; on 2 16384; on 3 24576; on 3 32768; free_em]
    (mkMST 0x20001 (6 * 72) (5 * 72)) 0x20001 true [mkInline 40960 (MAX_LBID_SIZE - 40)] (mkMST 0x30001 16 16) 0x30001 true.
Theorem both_copies_on_one_root :
  getMinDataDBRoots demo_cluster 2 used_image DBROOTS_zero 0 = Ret (mkRoots [2; 2; 0; 0]).
Proof. vm_compute. reflexivity. Qed.
