(* ===== verification/ExtentImage.v ===== *)
(** * The extent map on disk, and its consistency check: extentmap.cpp

    [save] writes the extents in use and the whole free list; [load] reads
    the extents back and rebuilds the free list from them.  The branch with
    C++ streams is modelled (not HDFS); padding bytes are written as 0. *)
From Stdlib Require Import ZArith Lia.
From S2P Require Import Prelude Bytes Undoable BrmTypes CopyLocks ExtentMap ExtentAlloc.

Local Open Scope Z_scope.

(** ** Layout of the structs *)

Definition inline_bytes (r : InlineLBIDRange) : list Z :=
  le_bytes 8 (start r) ++ le_bytes 4 (size r) ++ le_bytes 4 0.
Definition get_inline : reader InlineLBIDRange :=
  st ← get_s64; n ← get_u32; _ ← get_bytes 4; mret (mkInline st n).

(** [char isValid] is signed on x86-64. *)
Definition s8 (x : Z) : Z := (x + 2 ^ 7) mod 2 ^ 8 - 2 ^ 7.
Definition s16 (x : Z) : Z := (x + 2 ^ 15) mod 2 ^ 16 - 2 ^ 15.

Definition cp_bytes (c : EMCasualPartition) : list Z :=
  le_bytes 8 (hi_val c) ++ le_bytes 8 (lo_val c) ++ le_bytes 4 (sequenceNum c)
  ++ le_bytes 1 (isValid c) ++ le_bytes 3 0.
Definition get_cp : reader EMCasualPartition :=
  hi ← get_s64; lo ← get_s64; sq ← get_s32; v ← get_u 1; _ ← get_bytes 3;
  mret (mkCP hi lo sq (s8 v)).

Definition em_bytes (e : EMEntry) : list Z :=
  inline_bytes (range e) ++ le_bytes 4 (fileID e) ++ le_bytes 4 (blockOffset e)
  ++ roots_bytes (em_dbRoots e) ++ le_bytes 4 (HWM e) ++ le_bytes 4 (partitionNum e)
  ++ le_bytes 2 (segmentNum e) ++ le_bytes 2 (colWid e) ++ le_bytes 2 (status e)
  ++ le_bytes 2 0 ++ cp_bytes (cprange e).
Definition get_em : reader EMEntry :=
  r ← get_inline; oid ← get_s32; off ← get_u32; roots ← get_roots; hwm ← get_u32;
  part ← get_u32; seg ← get_u16; wid ← get_u16; st ← get_u16; _ ← get_bytes 2; cp ← get_cp;
  mret (mkEM r oid off roots hwm part seg wid (s16 st) cp).

(** ** Saving *)

Definition save (m : em_image) : res (list Z) :=
  if decide (currentSize (fEMShminfo m) = 0) then Throw RuntimeError
  else
    let header := le_bytes 4 EM_MAGIC_V4
      ++ le_bytes 4 (currentSize (fEMShminfo m) / sizeof_EMEntry)
      ++ le_bytes 4 (flEntries m) in
    es ← collect (seqZ 0 (emEntries m)) (fun i =>
           e ← rd (fExtentMap m) i; Ret (if in_use e then em_bytes e else []));
    fl ← collect (seqZ 0 (flEntries m)) (fun i =>
           r ← rd (fFreeList m) i; Ret (inline_bytes r));
    Ret (header ++ es ++ fl).

(** ** Loading *)

(** [in.exceptions(badbit | failbit)]: a short read throws. *)
Definition stream_read {S A} (r : reader A) : prog (S * list Z) A := fun '(s, bs) =>
  match r bs with
  | Some (a, rest) => (Ret a, (s, rest))
  | None => (Throw IosFailure, (s, bs))
  end.

(** Both arrays cleared; the free list has one entry for the whole space. *)
Definition cleared (m : em_image) : em_image :=
  mkImage (replicate (length (fExtentMap m)) free_em)
    (mkMST (tableShmkey (fEMShminfo m)) (allocdSize (fEMShminfo m)) 0) (emShmkey m) (fPExtMapImpl m)
    (wr (replicate (length (fFreeList m)) free_range) 0 (mkInline 0 MAX_LBID_SIZE))
    (mkMST (tableShmkey (fFLShminfo m)) (allocdSize (fFLShminfo m)) sizeof_Inline)
    (flShmkey m) (fPFreeListImpl m).

Definition round_rows (n : Z) : Z :=
  if decide (n mod EM_INCREMENT_ROWS = 0) then n
  else (n / EM_INCREMENT_ROWS + 1) * EM_INCREMENT_ROWS.

Definition fix_status (e : EMEntry) : EMEntry :=
  if decide (status e < EXTENTSTATUSMIN \/ status e > EXTENTSTATUSMAX)
  then set_status EXTENTAVAILABLE e else e.

(** One iteration: the entry is read into its place, its range is taken from
    the free list, its status is checked. *)
Definition load_extent (i : Z) : prog (em_obj * list Z) unit :=
  e ← stream_read get_em;
  on_obj (wrEM i e;; reserveLBIDRange (start (range e)) (size (range e));;
          e ← rdEM i; wrEM i (fix_status e)).

Definition loadVersion4 : prog (em_obj * list Z) unit :=
  emNumElements ← stream_read get_s32;
  flNumElements ← stream_read get_s32;
  if decide (emNumElements <= 0) then throw (ERYDBExcept ERR_ASSERTION_FAILURE)
  else
    on_obj (modify (set_image cleared));;
    n ← gets (fun '(o, _) => emEntries (image o));
    (if decide (n < emNumElements) then on_obj (growEMShmseg (round_rows emNumElements))
     else mret tt);;
    for_each (seqZ 0 emNumElements) load_extent;;
    on_obj (modify (set_image (fun m => with_emInfo
      (mkMST (tableShmkey (fEMShminfo m)) (allocdSize (fEMShminfo m))
             (emNumElements * sizeof_EMEntry)) m))).

Definition load_body : prog (em_obj * list Z) unit :=
  emVersion ← stream_read get_s32;
  if decide (emVersion = EM_MAGIC_V4) then loadVersion4 else throw RuntimeError.

(** [catch (...) { release; throw; }] and the release at the end. *)
Definition load_and_release : prog (extent_map * list Z) unit := fun '(s, bs) =>
  let '(r, (o, bs')) := load_body (em_und s, bs) in (r, (mkExtentMap o false false, bs')).

Definition load : prog (extent_map * list Z) unit :=
  on_obj (grabEMEntryTable WRITE);; on_obj (grabFreeList WRITE);; load_and_release.

(** ** The consistency check *)

(** Test 1a.  The product is computed in 32 bits. *)
Definition end32 (r : InlineLBIDRange) : Z := start r + u32 (size r * 1024) - 1.
Definition overlap (e : EMEntry) (r : InlineLBIDRange) : bool :=
  let emBegin := start (range e) in let emEnd := end32 (range e) in
  let flBegin := start r in let flEnd := end32 r in
  (bool_decide (emBegin <= flBegin) && bool_decide (emEnd >= flBegin))
  || (bool_decide (emBegin >= flBegin) && bool_decide (emEnd <= flEnd))
  || (bool_decide (emBegin <= flEnd) && bool_decide (emEnd >= flEnd)).

Definition test1a (m : em_image) : res unit :=
  for_res (seqZ 0 (emEntries m)) (fun i =>
    e ← rd (fExtentMap m) i;
    if in_use e then
      for_res (seqZ 0 (flEntries m)) (fun j =>
        r ← rd (fFreeList m) j;
        if negb (bool_decide (size r = 0)) && overlap e r then Throw LogicError else Ret tt)
    else Ret tt).

(** Test 1b.  [int lbid] walks over the ranges. *)
Fixpoint walk_ranges (rs : list InlineLBIDRange) (lbid : Z) : res Z :=
  match rs with
  | [] => Ret lbid
  | r :: rs' =>
      if decide (Z.rem (start r) 1024 <> 0) then Throw LogicError
      else walk_ranges rs' (if decide (Z.quot (start r) 1024 = lbid) then s32 (lbid + size r) else lbid)
  end.

(** Every iteration is determined by [lbid], which after the first one is the
    end of one of the ranges; so a loop that ends does so within one
    iteration per entry and two more. *)
Fixpoint cover_loop (fuel : nat) (rs : list InlineLBIDRange) (lbid : Z) : res unit :=
  if decide (lbid < 67108864) then
    match fuel with
    | O => UB Diverges
    | S fuel' =>
        lbid' ← walk_ranges rs lbid;
        if decide (lbid' = lbid) then Throw LogicError else cover_loop fuel' rs lbid'
    end
  else Ret tt.

Definition test1b (m : em_image) : res unit :=
  fl ← collect (seqZ 0 (flEntries m)) (fun i => r ← rd (fFreeList m) i; Ret [r]);
  es ← collect (seqZ 0 (emEntries m)) (fun i => e ← rd (fExtentMap m) i; Ret [range e]);
  let rs := fl ++ es in
  cover_loop (2 + length rs) rs 0.

Definition test1c (m : em_image) : res unit :=
  bad ← scan (fun b _ e => b || (in_use e && bool_decide (roots_master (em_dbRoots e) = 0)))
          (fExtentMap m) (seqZ 0 (emEntries m)) false;
  if bad : bool then Throw LogicError else Ret tt.

Definition test2 (m : em_image) : res unit :=
  for_res (seqZ 0 (flEntries m)) (fun i =>
    r ← rd (fFreeList m) i;
    if decide (size r = 0) then Ret tt
    else
      let flEnd := start r + u32 (size r * 1024) in
      for_res (seqZ (i + 1) (flEntries m - (i + 1))) (fun j =>
        r' ← rd (fFreeList m) j;
        if negb (bool_decide (size r' = 0)) && bool_decide (start r' = flEnd)
        then Throw LogicError else Ret tt)).

(** [usedEntries != currentSize/sizeof(...)], in [size_t]. *)
Definition test5 (m : em_image) : res unit :=
  n ← scan (fun n _ e => if in_use e then n + 1 else n) (fExtentMap m) (seqZ 0 (emEntries m)) 0;
  if decide (u32 n <> u64 (currentSize (fEMShminfo m)) / sizeof_EMEntry) then Throw LogicError
  else
    n ← scan (fun n _ r => if decide (size r = 0) then n else n + 1)
          (fFreeList m) (seqZ 0 (flEntries m)) 0;
    if decide (u32 n <> u64 (currentSize (fFLShminfo m)) / sizeof_Inline) then Throw LogicError
    else Ret tt.

Definition checkConsistency (m : em_image) : res unit :=
  _ ← test1a m; _ ← test1b m; _ ← test1c m; _ ← test2 m; test5 m.
