(* ===== verification/ExtentUndo.v ===== *)
(** * Undoing changes of the extent map

    Code of the extent map that records an entry before it writes it is taken
    back exactly by [undoChanges] ([undo_safe], Undoable.v).  That is all of
    it except what grows an array, what deletes extents and what changes
    DBRoots; the last theorems show what goes wrong there. *)
From Stdlib Require Import ZArith Lia.
From S2P Require Import Prelude Bytes Undoable BrmTypes CopyLocks ExtentMap ExtentAlloc.
From S2P Require Import ExtentProofs ExtentDelete ExtentHWM ExtentImage.

Local Open Scope Z_scope.

(** ** Code that works on the image *)

Lemma rdEM_undo_safe K i : undo_safe K (rdEM i).
Proof. apply undo_safe_reading. Qed.
Lemma rdFL_undo_safe K i : undo_safe K (rdFL i).
Proof. apply undo_safe_reading. Qed.
Lemma wrEM_undo_safe K i e : CEM i ∈ K -> undo_safe K (wrEM i e).
Proof. intros H. apply undo_safe_bind; [apply rdEM_undo_safe|intros _]. by apply undo_safe_store. Qed.
Lemma wrFL_undo_safe K i r : CFL i ∈ K -> undo_safe K (wrFL i r).
Proof. intros H. apply undo_safe_bind; [apply rdFL_undo_safe|intros _]. by apply undo_safe_store. Qed.
Lemma addEMSize_undo_safe K n : CEMInfo ∈ K -> undo_safe K (addEMSize n).
Proof. intros H. apply undo_safe_bind; [apply undo_safe_gets|intros i]. by apply undo_safe_store. Qed.
Lemma addFLSize_undo_safe K n : CFLInfo ∈ K -> undo_safe K (addFLSize n).
Proof. intros H. apply undo_safe_bind; [apply undo_safe_gets|intros i]. by apply undo_safe_store. Qed.

#[export] Hint Resolve rdEM_undo_safe rdFL_undo_safe : undo.
#[export] Hint Extern 1 (undo_safe _ (wrEM _ _)) => apply wrEM_undo_safe; set_solver : undo.
#[export] Hint Extern 1 (undo_safe _ (wrFL _ _)) => apply wrFL_undo_safe; set_solver : undo.
#[export] Hint Extern 1 (undo_safe _ (addEMSize _)) => apply addEMSize_undo_safe; set_solver : undo.
#[export] Hint Extern 1 (undo_safe _ (addFLSize _)) => apply addFLSize_undo_safe; set_solver : undo.

Lemma changeEM_undo_safe K i f : undo_safe K (changeEM i f).
Proof. unfold changeEM. solve_undo. Qed.
Lemma changeCP_undo_safe K i f : undo_safe K (changeCP i f).
Proof. apply changeEM_undo_safe. Qed.
Lemma add_extent_undo_safe K i f : undo_safe K (add_extent i f).
Proof. unfold add_extent. solve_undo; apply changeEM_undo_safe. Qed.
#[export] Hint Resolve changeEM_undo_safe changeCP_undo_safe add_extent_undo_safe : undo.

Lemma getLBIDs_undo_safe K n : undo_safe K (getLBIDsFromFreeList n).
Proof. unfold getLBIDsFromFreeList. solve_undo. Qed.
#[export] Hint Resolve getLBIDs_undo_safe : undo.

Lemma _markInvalid_undo_safe K lbid t : undo_safe K (_markInvalid lbid t).
Proof. unfold _markInvalid. solve_undo. Qed.
Lemma setMaxMin_at_undo_safe K i e max min s : undo_safe K (setMaxMin_at i e max min s).
Proof. unfold setMaxMin_at. solve_undo. Qed.
Lemma catch_all_undo_safe K (p : prog em_obj unit) : undo_safe K p -> undo_safe K (catch_all p).
Proof.
  intros Hp o HK. specialize (Hp o HK). unfold catch_all. cbv zeta in *.
  by destruct (p o) as [[a|e|u] o'].
Qed.

Lemma setExtents_loop_undo_safe K is_ cpMap todo : undo_safe K (setExtents_loop is_ cpMap todo).
Proof.
  revert cpMap todo. induction is_ as [|i is_ IH]; intros; [apply undo_safe_throw|].
  cbn [setExtents_loop]. unfold setExtent_at. solve_undo; try apply IH.
Qed.
Lemma mergeExtents_loop_undo_safe K is_ cpMap todo :
  undo_safe K (mergeExtents_loop is_ cpMap todo).
Proof.
  revert cpMap todo. induction is_ as [|i is_ IH]; intros; [apply undo_safe_throw|].
  cbn [mergeExtents_loop]. unfold mergeExtent_at. solve_undo; try apply IH.
Qed.
Lemma set_local_undo_safe K oid part seg h : undo_safe K (set_local oid part seg h).
Proof. unfold set_local. solve_undo. Qed.
Lemma mark_all_undo_safe K is_ st : undo_safe K (mark_all is_ st).
Proof. unfold mark_all. solve_undo. Qed.

Lemma _create_undo_safe F X R K n OID w d t part :
  undo_safe K (_createColumnExtent_DBroot F X R n OID w d t part).
Proof. unfold _createColumnExtent_DBroot. solve_undo. Qed.
Lemma _create_exact_undo_safe K n OID w d part seg t :
  undo_safe K (_createColumnExtentExactFile n OID w d part seg t).
Proof. unfold _createColumnExtentExactFile. solve_undo. Qed.
Lemma _create_dict_undo_safe K n OID d part seg :
  undo_safe K (_createDictStoreExtent n OID d part seg).
Proof. unfold _createDictStoreExtent. solve_undo. Qed.
#[export] Hint Resolve _markInvalid_undo_safe setMaxMin_at_undo_safe catch_all_undo_safe
  setExtents_loop_undo_safe mergeExtents_loop_undo_safe set_local_undo_safe mark_all_undo_safe
  _create_undo_safe _create_exact_undo_safe _create_dict_undo_safe : undo.

(** ** Code that works on the object

    [em_safe p m]: from the image [m], nothing recorded, [p] leads to an object
    whose records lead back to [m]. *)
Definition em_safe {A} (p : prog extent_map A) : Prop :=
  forall s, undoes_to (em_und s) (em_und (snd (p s))).

Lemma em_safe_bind {A B} (p : prog extent_map A) (f : A -> prog extent_map B) :
  em_safe p -> (forall a, em_safe (f a)) -> em_safe (p ≫= f).
Proof.
  intros Hp Hf s. specialize (Hp s). unfold mbind, prog_bind.
  destruct (p s) as [[a|e|u] s'] eqn:E; cbn in *; [|done..]. etrans; [exact Hp|apply Hf].
Qed.
Lemma em_safe_const {A} (p : prog extent_map A) :
  (forall s, em_und (snd (p s)) = em_und s) -> em_safe p.
Proof. intros Hp s. by rewrite Hp. Qed.
Lemma em_safe_image {A} (p : prog em_obj A) : undo_safe [] p -> em_safe (on_image p).
Proof.
  intros Hp s. pose proof (undo_safe_step p (em_und s) Hp) as H. unfold on_image, zoom.
  by destruct (p (em_und s)).
Qed.
Lemma em_safe_for_each {A} (l : list A) (f : A -> prog extent_map unit) :
  (forall a, em_safe (f a)) -> em_safe (for_each l f).
Proof.
  intros Hf. induction l as [|a l IH]; [by apply em_safe_const|]. by apply em_safe_bind.
Qed.

Ltac em_safe_step :=
  lazymatch goal with
  | |- em_safe (_ ≫= _) => apply em_safe_bind; [|intros ?]
  | |- em_safe (on_image _) => apply em_safe_image; solve_undo
  | |- em_safe (for_each _ _) => apply em_safe_for_each; intros ?
  | |- em_safe (match ?x with _ => _ end) => destruct x
  | |- em_safe _ => by apply em_safe_const
  end.
Ltac solve_em_safe := intros; repeat em_safe_step.

(** A command that starts by grabbing mapped tables. *)
Definition em_safe_at {A} (p : prog extent_map A) (m : em_image) : Prop :=
  forall log a b, undoes_to (mkUndoable m log) (em_und (snd (p (mkExtentMap (mkUndoable m log) a b)))).

Lemma em_safe_at_grab {A} (q : prog extent_map A) m : em_mapped m -> em_safe_at q m ->
  em_safe_at (grabEMEntryTable WRITE;; q) m.
Proof. intros Hm Hq log a b. erewrite bind_Ret by (by apply grabEM_mapped). apply Hq. Qed.
Lemma em_safe_at_grabFL {A} (q : prog extent_map A) m : em_mapped m -> em_safe_at q m ->
  em_safe_at (grabFreeList WRITE;; q) m.
Proof. intros Hm Hq log a b. erewrite bind_Ret by (by apply grabFL_mapped). apply Hq. Qed.
Lemma em_safe_safe_at {A} (p : prog extent_map A) m : em_safe p -> em_safe_at p m.
Proof. intros Hp log a b. apply (Hp (mkExtentMap (mkUndoable m log) a b)). Qed.

(** What undoing after such a command does. *)
Lemma em_undo_reverts {A} (p : prog extent_map A) m a b : em_safe_at p m ->
  em_undo (snd (p (mkExtentMap (mkUndoable m []) a b)))
  = (Ret tt, mkExtentMap (mkUndoable m []) false false).
Proof.
  intros Hp. specialize (Hp [] a b). destruct (snd (p _)) as [o a' b'] eqn:E. cbn in Hp.
  unfold em_undo. erewrite bind_Ret.
  2:{ unfold on_image, zoom. cbn [em_und]. by rewrite (undoes_to_reverts _ _ Hp). }
  by destruct a', b'.
Qed.

(** ** The commands that change entries in place *)

Inductive command :=
  | MarkInvalid (lbid : Z) (t : ColDataType)
  | MarkInvalids (lbids : list (Z * ColDataType))
  | SetMaxMin (lbid max min seqNum : Z)
  | SetExtentsMaxMin (cpMap : gmap Z CPMaxMin)
  | MergeExtentsMaxMin (cpMap : gmap Z CPMaxMinMerge)
  | SetLocalHWM (oid part seg hwm : Z)
  | BulkSetHWM (args : list BulkSetHWMArg)
  | MarkPartition (oids : gset Z) (parts : list LogicalPartition)
  | MarkAllPartition (oids : gset Z)
  | RestorePartition (oids : gset Z) (parts : list LogicalPartition)
  | CreateColumn (FILES EXTENTS ROOTS oid width : Z) (d : DBROOTS_struct) (t : ColDataType)
      (part : Z)
  | CreateExact (oid width : Z) (d : DBROOTS_struct) (part seg : Z) (t : ColDataType)
  | CreateDict (oid : Z) (d : DBROOTS_struct) (part seg : Z).

Definition run_command (c : command) : prog extent_map unit :=
  match c with
  | MarkInvalid lbid t => markInvalid lbid t
  | MarkInvalids lbids => markInvalid_all lbids
  | SetMaxMin lbid max min s => setMaxMin lbid max min s
  | SetExtentsMaxMin cpMap => setExtentsMaxMin cpMap true
  | MergeExtentsMaxMin cpMap => mergeExtentsMaxMin cpMap true
  | SetLocalHWM oid part seg hwm => setLocalHWM oid part seg hwm true
  | BulkSetHWM args => bulkSetHWM args
  | MarkPartition oids parts => markPartitionForDeletion oids parts
  | MarkAllPartition oids => markAllPartitionForDeletion oids
  | RestorePartition oids parts => restorePartition oids parts
  | CreateColumn F X R oid w d t part =>
      createColumnExtent_DBroot F X R oid w d t part true;; mret tt
  | CreateExact oid w d part seg t => createColumnExtentExactFile oid w d part seg t;; mret tt
  | CreateDict oid d part seg => createDictStoreExtent oid d part seg;; mret tt
  end.

(** An entry of the extent map is unused, so that nothing has to grow. *)
Definition not_full (m : em_image) : Prop :=
  currentSize (fEMShminfo m) <> allocdSize (fEMShminfo m).

Lemma create_safe_at {A B} (p : prog em_obj A) (f : A -> prog em_obj B) m : not_full m ->
  (forall K, undo_safe K p) -> (forall K a, undo_safe K (f a)) ->
  em_safe_at (on_image (make_room;; a ← p; f a)) m.
Proof.
  intros Hn Hp Hf log a b.
  assert (Hq : em_safe (on_image (a ← p; f a))) by (apply em_safe_image, undo_safe_bind; auto).
  assert (Hr : make_room (mkUndoable m log) = (Ret tt, mkUndoable m log)).
  { unfold make_room. erewrite bind_Ret by reflexivity. by rewrite decide_False. }
  specialize (Hq (mkExtentMap (mkUndoable m log) a b)). revert Hq.
  unfold on_image, zoom. cbn [em_und]. by rewrite (bind_Ret make_room _ _ _ _ Hr).
Qed.

(** The creating commands: both tables are grabbed, then an extent is added. *)
Lemma create_command_safe {A B} (c : prog extent_map B) (p : prog em_obj A)
    (f : A -> prog em_obj B) m :
  (forall o a b, em_mapped (image o) ->
     c (mkExtentMap o a b) = on_image (make_room;; x ← p; f x) (mkExtentMap o true true)) ->
  em_mapped m -> not_full m -> (forall K, undo_safe K p) -> (forall K a, undo_safe K (f a)) ->
  em_safe_at (c;; mret tt) m.
Proof.
  intros Hc Hm Hn Hp Hf log a b. pose proof (create_safe_at p f m Hn Hp Hf log true true) as H.
  rewrite <- (Hc (mkUndoable m log) a b Hm) in H. unfold mbind, prog_bind.
  by destruct (c _) as [[]].
Qed.

Lemma grab_both {A} (q : prog extent_map A) o a b : em_mapped (image o) ->
  (grabEMEntryTable WRITE;; grabFreeList WRITE;; q) (mkExtentMap o a b)
  = q (mkExtentMap o true true).
Proof.
  intros Hm. erewrite bind_Ret by (by apply grabEM_mapped).
  by erewrite bind_Ret by (by apply grabFL_mapped).
Qed.

Lemma run_command_safe c m : em_mapped m -> not_full m -> em_safe_at (run_command c) m.
Proof.
  intros Hm Hn. destruct c; cbn [run_command].
  all: try (unfold markPartitionForDeletion, markAllPartitionForDeletion, restorePartition;
            case_decide; [by apply em_safe_safe_at, em_safe_const|]).
  all: try (unfold markInvalid, markInvalid_all, setMaxMin, setExtentsMaxMin, mergeExtentsMaxMin,
              bulkSetHWM, setLocalHWM; (eapply em_safe_at_grab; [done|]);
            apply em_safe_safe_at; solve_em_safe; fail).
  - eapply create_command_safe.
    + intros o a b Ho. unfold createColumnExtent_DBroot. rewrite prog_bind_assoc.
      by apply grab_both.
    + done.
    + done.
    + solve_undo.
    + intros K []; solve_undo.
  - eapply create_command_safe;
      [by intros; apply grab_both|done|done|solve_undo|intros K []; solve_undo].
  - eapply create_command_safe; [by intros; apply grab_both|done|done|solve_undo|solve_undo].
Qed.

(** ** What is not taken back *)

(** The extents a file of [save] gives when it is loaded into a map. *)
Definition reloaded (m m0 : em_image) : option (list EMEntry) :=
  match save m with
  | Ret file =>
      match load (mkExtentMap (mkUndoable m0 []) false false, file) with
      | (Ret tt, (s, _)) => Some (extents (image (em_und s)))
      | _ => None
      end
  | _ => None
  end.

(** Undoing a deletion does not restore the recorded size of the extent
    map: [deleteExtent] saves the member [fEMShminfo], a pointer, and not what
    it points to.  The two extents of the example come back, but only one is
    counted; the image that is saved then says so, and the second extent is
    lost when it is loaded. *)
Theorem em_delete_undo_loses :
  exists s, em_undo (snd (rollbackColumnExtents_DBroot 3001 false root1 0 0 100 demo_map))
            = (Ret tt, s) /\
    extents (image (em_und s)) = extents demo_image /\
    currentSize (fEMShminfo (image (em_und s))) = sizeof_EMEntry /\
    reloaded demo_image demo_image = Some (extents demo_image) /\
    reloaded (image (em_und s)) demo_image = Some [demo_extent 0 0 8191].
Proof. eexists. split; [vm_compute; reflexivity|]. vm_compute. done. Qed.

(** One entry of the map is unused. *)
Definition tight_image : em_image :=
  mkImage [demo_extent 0 0 8191; free_em] (mkMST 0x20001 (2 * 72) 72) 0x20001 true
    [mkInline 8192 (MAX_LBID_SIZE - 8); free_range; free_range]
    (mkMST 0x30001 (3 * 16) 16) 0x30001 true.

(** Growing the extent map keeps the undo records of the segment that is
    gone.  When a stripe of two columns is created and the second extent makes
    the map grow, undoing writes through the records of the first one. *)
Theorem em_stripe_growth_dangles :
  exists r s, createStripeColumnExtents 4 2 1 [mkStripeArg 3002 8 BIGINT; mkStripeArg 3003 8 BIGINT]
                root1 0 (mkExtentMap (mkUndoable tight_image []) false false) = (Ret r, s) /\
    fst (em_undo s) = UB DanglingPointer.
Proof. do 2 eexists. split; [vm_compute; reflexivity|]. vm_compute. done. Qed.
