(* ===== verification/ExtentCP.v ===== *)
(** * Casual partitioning

    Every extent carries the range of its values, for queries to skip it.  A
    scan computes the range while DML may change the values; a sequence
    number in the extent says whether it did.  A bulk load merges the range
    of what it has added. *)
From Stdlib Require Import ZArith Lia.
From S2P Require Import Prelude Bytes Undoable BrmTypes CopyLocks ExtentMap ExtentAlloc.
From S2P Require Import ExtentProofs ExtentDelete ExtentFree ExtentDeleteProofs ExtentHWM ExtentQueries.

Local Open Scope Z_scope.

(** ** One extent *)

Lemma incSeqNum_moves s : 0 <= s <= EM_MAX_SEQNUM -> incSeqNum s <> s /\ 0 <= incSeqNum s <= EM_MAX_SEQNUM.
Proof. unfold incSeqNum, EM_MAX_SEQNUM. case_decide; lia. Qed.

Section OneExtent.
Context (m : em_image) (Hwf : em_wf m) (Hm : em_mapped m).
Context (lbid : Z) (i : nat) (e : EMEntry).
Context (Hi : fExtentMap m !! i = Some e) (Hc : covers lbid (range e)).

Lemma runs_changeCP f : runs (changeCP (Z.of_nat i) f) m (Ret tt)
  (with_em (<[i := set_cp (f (cprange e)) e]> (fExtentMap m)) m).
Proof. apply (runs_changeEM i e (fun x => set_cp (f (cprange x)) x) m Hi). Qed.

(** The map with another range of values for the extent. *)
Definition with_cp (c : EMCasualPartition) : em_image :=
  with_em (<[i := set_cp c e]> (fExtentMap m)) m.

Lemma with_cp_wf c : em_wf (with_cp c) /\ em_mapped (with_cp c) /\
  fExtentMap (with_cp c) !! i = Some (set_cp c e).
Proof.
  split_and!.
  - by apply (acc_em_same _ _ _ _ i e).
  - by apply mapped_with_em.
  - cbn. apply list_lookup_insert_eq. by eapply lookup_lt_Some.
Qed.

Lemma getMaxMin_at : getMaxMin m lbid
  = Ret (isValid (cprange e), hi_val (cprange e), lo_val (cprange e), sequenceNum (cprange e)).
Proof. unfold getMaxMin. by rewrite (find_lbid m lbid i e Hwf Hi Hc). Qed.

Lemma markInvalid_at t log a b : exists log',
  markInvalid lbid t (mkExtentMap (mkUndoable m log) a b)
  = (Ret tt, mkExtentMap (mkUndoable (with_cp (cp_invalidated t (cprange e))) log') true b).
Proof.
  unfold markInvalid. erewrite bind_Ret by (by apply grabEM_mapped).
  apply runs_on_image. unfold _markInvalid.
  eapply runs_bind; [apply runs_reading; intros ?; apply (find_lbid m lbid i e Hwf Hi Hc)|].
  apply runs_changeCP.
Qed.

Lemma setMaxMin_at_image max min s log a b : exists log',
  setMaxMin lbid max min s (mkExtentMap (mkUndoable m log) a b)
  = (Ret tt, mkExtentMap (mkUndoable
      (if decide (sequenceNum (cprange e) = s) then with_cp (cp_assigned max min CP_VALID (cprange e))
       else if decide (s = -1) then with_cp (cp_reset (cprange e)) else m) log') true b).
Proof.
  unfold setMaxMin. erewrite bind_Ret by (by apply grabEM_mapped).
  erewrite bind_reading by apply (find_lbid m lbid i e Hwf Hi Hc).
  apply runs_on_image. unfold setMaxMin_at.
  case_decide; [apply runs_changeCP|]. case_decide; [apply runs_changeCP|]. apply runs_ret.
Qed.
End OneExtent.

(** The sequence number protects the range of values of an extent.  After
    DML has marked the extent of a block invalid, a range that a scan computed
    with the sequence number from before is ignored; with the new number it
    is taken, and the extent is valid again.  Nothing else changes. *)
Theorem em_stale_range_ignored m lbid i e t max min log a b :
  em_wf m -> em_mapped m -> fExtentMap m !! i = Some e -> covers lbid (range e) ->
  0 <= sequenceNum (cprange e) <= EM_MAX_SEQNUM ->
  exists m1 log1 seq,
    markInvalid lbid t (mkExtentMap (mkUndoable m log) a b)
      = (Ret tt, mkExtentMap (mkUndoable m1 log1) true b) /\
    getMaxMin m1 lbid = Ret (CP_UPDATING, empty_hi t, empty_lo t, seq) /\
    (exists log2, setMaxMin lbid max min (sequenceNum (cprange e))
                    (mkExtentMap (mkUndoable m1 log1) true b)
      = (Ret tt, mkExtentMap (mkUndoable m1 log2) true b)) /\
    exists m2 log2, setMaxMin lbid max min seq (mkExtentMap (mkUndoable m1 log1) true b)
      = (Ret tt, mkExtentMap (mkUndoable m2 log2) true b) /\
      getMaxMin m2 lbid = Ret (CP_VALID, max, min, incSeqNum seq) /\ em_wf m2 /\
      fExtentMap m2 = <[i := set_cp (mkCP max min (incSeqNum seq) CP_VALID) e]> (fExtentMap m).
Proof.
  intros Hwf Hm Hi Hc Hseq. set (s := sequenceNum (cprange e)) in *.
  destruct (incSeqNum_moves s Hseq) as [Hne Hs].
  destruct (markInvalid_at m Hwf Hm lbid i e Hi Hc t log a b) as [log1 Hmark].
  set (c1 := cp_invalidated t (cprange e)) in *. set (m1 := with_cp m i e c1) in *.
  destruct (with_cp_wf m Hwf Hm i e Hi c1) as (Hwf1 & Hm1 & Hi1).
  exists m1, log1, (incSeqNum s). split_and!; [done|..].
  - by rewrite (getMaxMin_at m1 Hwf1 lbid i (set_cp c1 e) Hi1 Hc).
  - destruct (setMaxMin_at_image m1 Hwf1 Hm1 lbid i (set_cp c1 e) Hi1 Hc max min s log1 true b)
      as [log2 Hset]. exists log2. rewrite Hset.
    rewrite decide_False by (cbn; done). by rewrite decide_False by lia.
  - destruct (setMaxMin_at_image m1 Hwf1 Hm1 lbid i (set_cp c1 e) Hi1 Hc max min (incSeqNum s)
                log1 true b) as [log2 Hset].
    rewrite decide_True in Hset by done.
    destruct (with_cp_wf m1 Hwf1 Hm1 i (set_cp c1 e) Hi1 (cp_assigned max min CP_VALID c1))
      as (Hwf2 & _ & Hi2).
    eexists _, log2. split; [exact Hset|]. split_and!; [|done|].
    + exact (getMaxMin_at _ Hwf2 lbid i _ Hi2 Hc).
    + cbn. by rewrite list_insert_insert_eq.
Qed.

Lemma em_stale_range_ignored_witness :
  exists m1 log1, markInvalid 100 BIGINT demo_map
      = (Ret tt, mkExtentMap (mkUndoable m1 log1) true false) /\
    exists log2, setMaxMin 100 7 3 0 (mkExtentMap (mkUndoable m1 log1) true false)
      = (Ret tt, mkExtentMap (mkUndoable m1 log2) true false).
Proof.
  destruct (em_stale_range_ignored demo_image 100 0 (demo_extent 0 0 8191) BIGINT 7 3 [] false false
              demo_wf demo_mapped eq_refl) as (m1 & log1 & seq & Hmark & _ & Hstale & _).
  - unfold covers. cbn. lia.
  - cbn. unfold EM_MAX_SEQNUM. lia.
  - exists m1, log1. split; [exact Hmark|exact Hstale].
Defined.

(** ** Merging the ranges of a bulk load *)

(** What a merge does to an extent it is asked for. *)
Definition merged (v : CPMaxMinMerge) (e : EMEntry) : EMEntry :=
  let c := cprange e in
  if decide (isValid c = CP_VALID) then
    if isValidCPRange (mg_max v) (mg_min v) (mg_type v) then set_cp (cp_merged v c) e else e
  else if decide (isValid c = CP_UPDATING) then
    set_cp (mkCP (hi_val c) (lo_val c) (incSeqNum (sequenceNum c)) (isValid c)) e
  else set_cp (cp_new v c) e.
Definition merge_all (cpMap : gmap Z CPMaxMinMerge) (e : EMEntry) : EMEntry :=
  match (if in_use e then cpMap !! start (range e) else None) with
  | Some v => merged v e
  | None => e
  end.

Lemma merged_range v e : range (merged v e) = range e.
Proof. unfold merged. by repeat case_match. Qed.

Lemma mergeExtent_at_runs m i e v : fExtentMap m !! i = Some e ->
  runs (mergeExtent_at (Z.of_nat i) e v) m (Ret tt)
    (with_em (<[i := merged v e]> (fExtentMap m)) m).
Proof.
  intros Hi. unfold mergeExtent_at, merged.
  repeat case_decide; [case_match|..]; try by apply runs_changeCP.
  rewrite list_insert_id by done. destruct m. apply runs_ret.
Qed.

Lemma merge_all_empty l : map (merge_all ∅) l = l.
Proof.
  induction l as [|e l IH]; [done|]. cbn [map]. rewrite IH. f_equal.
  unfold merge_all. rewrite lookup_empty. by destruct (in_use e).
Qed.

(** Entries with different starts do not see a key that is gone. *)
Lemma merge_all_delete cpMap k (l : list EMEntry) :
  (forall e, e ∈ l -> in_use e = true -> start (range e) <> k) ->
  map (merge_all (delete k cpMap)) l = map (merge_all cpMap) l.
Proof.
  intros Hl. induction l as [|e l IH]; [done|]. cbn [map]. rewrite IH by (intros y Hy Huy; apply Hl; [by right|done]).
  f_equal. unfold merge_all. destruct (in_use e) eqn:Hu; [|done].
  rewrite lookup_delete_ne; [done|]. intros Heq. apply (Hl e); [left|done|done].
Qed.

(** Every key is the start of one of the extents, and no two have the same. *)
Definition keys_in (cpMap : gmap Z CPMaxMinMerge) (l : list EMEntry) : Prop :=
  forall k v, cpMap !! k = Some v -> exists e, e ∈ l /\ in_use e = true /\ start (range e) = k.
Definition starts_differ (l : list EMEntry) : Prop :=
  NoDup (map (fun e => start (range e)) (filter (fun e => in_use e = true) l)).

Lemma starts_differ_cons e l : starts_differ (e :: l) -> starts_differ l /\
  (in_use e = true -> forall x, x ∈ l -> in_use x = true -> start (range x) <> start (range e)).
Proof.
  unfold starts_differ. rewrite filter_cons. destruct (in_use e) eqn:Hu.
  - rewrite decide_True by done. cbn [map]. intros [Hni Hnd]%NoDup_cons. split; [done|].
    intros _ x Hx Hux Heq. apply Hni. apply list_elem_of_fmap. exists x. split; [done|].
    by apply list_elem_of_filter.
  - rewrite decide_False by done. done.
Qed.

Lemma merge_loop_runs l : forall pre m cpMap, fExtentMap m = pre ++ l -> cpMap <> ∅ ->
  keys_in cpMap l -> starts_differ l ->
  runs (mergeExtents_loop (seqZ (Z.of_nat (length pre)) (Z.of_nat (length l))) cpMap
          (Z.of_nat (base.size cpMap))) m (Ret tt)
    (with_em (pre ++ map (merge_all cpMap) l) m).
Proof.
  induction l as [|x l IH]; intros pre m cpMap Hm Hne Hkeys Hnd.
  { exfalso. apply map_choose in Hne as (k & v & Hk). destruct (Hkeys k v Hk) as (e & He & _).
    by apply elem_of_nil in He. }
  apply starts_differ_cons in Hnd as [Hnd Hdiff].
  assert (Hx : fExtentMap m !! length pre = Some x) by (rewrite Hm; by apply list_lookup_middle).
  rewrite (seqZ_next pre x (merge_all cpMap x) l). cbn [mergeExtents_loop map].
  eapply runs_bind; [by apply runs_rdEM|]. cbv beta.
  destruct (if in_use x then cpMap !! start (range x) else None) as [v|] eqn:Hv.
  - destruct (in_use x) eqn:Hu; [|done].
    assert (Hmx : merge_all cpMap x = merged v x) by (unfold merge_all; by rewrite Hu, Hv).
    assert (Hsize : base.size cpMap = S (base.size (delete (start (range x)) cpMap)))
      by (rewrite map_size_delete, Hv; pose proof (proj2 (map_size_non_empty_iff cpMap) Hne); lia).
    assert (Hrest : map (merge_all cpMap) l = map (merge_all (delete (start (range x)) cpMap)) l).
    { symmetry. apply merge_all_delete. intros e He Hue. by apply Hdiff. }
    eapply runs_bind; [by apply mergeExtent_at_runs|]. rewrite Hm, insert_head, <- Hmx.
    case_decide as Hz.
    + assert (Hempty : delete (start (range x)) cpMap = ∅) by (apply map_size_empty_inv; lia).
      rewrite Hrest, Hempty, merge_all_empty. replace (pre ++ merge_all cpMap x :: l)
        with ((pre ++ [merge_all cpMap x]) ++ l) by (by rewrite <- app_assoc). apply runs_ret.
    + rewrite Hrest. replace (Z.of_nat (base.size cpMap) - 1)
        with (Z.of_nat (base.size (delete (start (range x)) cpMap))) by lia.
      replace (pre ++ merge_all cpMap x :: map (merge_all (delete (start (range x)) cpMap)) l)
        with ((pre ++ [merge_all cpMap x]) ++ map (merge_all (delete (start (range x)) cpMap)) l)
        by (by rewrite <- app_assoc).
      apply (IH (pre ++ [merge_all cpMap x]) (with_em ((pre ++ [merge_all cpMap x]) ++ l) m)); try done.
      * intros Hempty. rewrite Hempty, map_size_empty in Hsize. lia.
      * intros k w [Hkne Hk]%lookup_delete_Some. destruct (Hkeys k w Hk) as (e & He & Hue & Hs).
        exists e. split; [|done]. apply elem_of_cons in He as [->|He]; [congruence|done].
  - assert (Hmx : merge_all cpMap x = x) by (unfold merge_all; by rewrite Hv).
    rewrite Hmx. replace (pre ++ x :: map (merge_all cpMap) l)
      with ((pre ++ [x]) ++ map (merge_all cpMap) l) by (by rewrite <- app_assoc).
    apply (IH (pre ++ [x]) m cpMap); [by rewrite <- app_assoc|done| |done].
    intros k w Hk. destruct (Hkeys k w Hk) as (e & He & Hue & Hs). exists e. split; [|done].
    apply elem_of_cons in He as [->|He]; [|done]. rewrite Hue, Hs in Hv. congruence.
Qed.

Lemma wf_starts_differ m : em_wf m -> starts_differ (fExtentMap m).
Proof.
  intros Hwf. assert (Hinj : forall i j x y, fExtentMap m !! i = Some x -> fExtentMap m !! j = Some y ->
    in_use x = true -> in_use y = true -> start (range x) = start (range y) -> i = j).
  { intros i j x y Hi Hj Hux%in_use_true Huy%in_use_true Heq.
    pose proof (em_range_ok _ Hwf _ _ Hi) as [? _]. pose proof (em_range_ok _ Hwf _ _ Hj) as [? _].
    destruct (decide (i = j)) as [|Hne]; [done|exfalso].
    apply (extents_disjoint _ Hwf (start (range x)) i j x y); try done; unfold covers; lia. }
  clear Hwf. induction (fExtentMap m) as [|x l IH]; [constructor|].
  unfold starts_differ. rewrite filter_cons.
  assert (Hl : starts_differ l).
  { apply IH. intros i j a b Hi Hj ? ? ?. by apply Nat.succ_inj, (Hinj (S i) (S j) a b). }
  case_decide as Hu; [|done]. cbn [map]. constructor; [|done].
  intros (y & Heq & [Huy [j Hj]%list_elem_of_lookup]%list_elem_of_filter)%list_elem_of_fmap.
  pose proof (Hinj 0%nat (S j) x y eq_refl Hj Hu Huy Heq). lia.
Qed.

(** Changing entries but not their ranges. *)
Lemma acc_em_map D df de m g : em_acc D df de m -> (forall e, range (g e) = range e) ->
  em_acc D df de (with_em (map g (fExtentMap m)) m).
Proof.
  intros [A1 A2 A3 A4 A5 A6 A7] Hg.
  assert (Ht : forall h : InlineLBIDRange -> Z,
    total (fun e => h (range e)) (map g (fExtentMap m)) = total (fun e => h (range e)) (fExtentMap m)).
  { intros h. clear -Hg. induction (fExtentMap m) as [|e l IH]; [done|].
    cbn [map]. by rewrite !total_cons, IH, Hg. }
  split; cbn [with_em fExtentMap fEMShminfo fFreeList fFLShminfo]; try done.
  - by rewrite length_map.
  - rewrite A3. f_equal. f_equal. symmetry. apply (Ht used).
  - apply Forall_map. eapply Forall_impl; [exact A5|]. cbn. intros e. by rewrite Hg.
  - intros b. rewrite <- (A7 b). f_equal. f_equal. apply (Ht (cov b)).
Qed.

Lemma merge_all_range cpMap e : range (merge_all cpMap e) = range e.
Proof. unfold merge_all. repeat case_match; try done; apply merged_range. Qed.

(** [mergeExtentsMaxMin] of a map whose keys are starts of extents
    returns, and changes exactly these extents, in their ranges of values
    only.  When the range of an extent and the one to be merged are both
    valid, the new range is the smallest that contains both, in the order in
    which values of the type are compared. *)
Theorem em_mergeExtentsMaxMin_hull cpMap m log a b : em_wf m -> em_mapped m -> cpMap <> ∅ ->
  keys_in cpMap (fExtentMap m) ->
  exists m' log',
    mergeExtentsMaxMin cpMap true (mkExtentMap (mkUndoable m log) a b)
    = (Ret tt, mkExtentMap (mkUndoable m' log') true b) /\ em_wf m' /\
    fExtentMap m' = map (merge_all cpMap) (fExtentMap m) /\
    forall e v, e ∈ extents m -> cpMap !! start (range e) = Some v ->
      isValid (cprange e) = CP_VALID ->
      isValidCPRange (mg_max v) (mg_min v) (mg_type v) = true ->
      isValidCPRange (hi_val (cprange e)) (lo_val (cprange e)) (mg_type v) = true ->
      let key := cp_key (mg_type v) in let c := cprange (merge_all cpMap e) in
      key (lo_val c) = Z.min (key (lo_val (cprange e))) (key (mg_min v)) /\
      key (hi_val c) = Z.max (key (hi_val (cprange e))) (key (mg_max v)) /\
      isValid c = CP_VALID /\ sequenceNum c = incSeqNum (sequenceNum (cprange e)).
Proof.
  intros Hwf Hm Hne Hkeys.
  pose proof (merge_loop_runs (fExtentMap m) [] m cpMap eq_refl Hne Hkeys (wf_starts_differ m Hwf))
    as Hr. cbn [length app] in Hr.
  destruct (runs_on_image _ _ _ _ log true b Hr) as [log' Hrun].
  exists (with_em (map (merge_all cpMap) (fExtentMap m)) m), log'. split_and!.
  - unfold mergeExtentsMaxMin. erewrite bind_Ret by (by apply grabEM_mapped).
    erewrite bind_Ret by reflexivity. cbn [em_und image]. rewrite (emEntries_wf _ Hwf). exact Hrun.
  - apply acc_em_map; [done|apply merge_all_range].
  - done.
  - intros e v [Hu _]%elem_of_extents Hv Hval Hnew Hold key c. unfold c, merge_all, merged.
    rewrite Hu, Hv, Hval, decide_True, Hnew by done. unfold cp_merged. rewrite Hold.
    cbn [cprange set_cp hi_val lo_val isValid sequenceNum]. fold key.
    split_and!; [| |done|done]; case_decide; lia.
Qed.

Lemma em_mergeExtentsMaxMin_hull_witness :
  exists m' log', mergeExtentsMaxMin {[ 8192 := mkMerge 90 10 0 BIGINT false ]} true demo_map
    = (Ret tt, mkExtentMap (mkUndoable m' log') true false) /\ em_wf m'.
Proof.
  destruct (em_mergeExtentsMaxMin_hull {[ 8192 := mkMerge 90 10 0 BIGINT false ]} demo_image [] false
              false demo_wf demo_mapped) as (m' & log' & Hrun & Hwf & _).
  - intros H. assert (E : ({[ 8192 := mkMerge 90 10 0 BIGINT false ]} : gmap Z CPMaxMinMerge) !! 8192
                      = None) by (rewrite H; apply lookup_empty).
    rewrite lookup_singleton_eq in E. discriminate E.
  - intros k v [<- _]%lookup_singleton_Some. exists (demo_extent 8192 1 77).
    split; [right; left|done].
  - exists m', log'. split; [exact Hrun|exact Hwf].
Defined.
