(* ===== verification/ExtentReload.v ===== *)
(** * Saving and loading the extent map

    Loading what [save] wrote gives the same extents, and a free list that is
    exactly what they leave of the LBID space: [load] starts with one free
    range for the whole space and takes the range of every extent out of it
    ([reserveLBIDRange]). *)
From Stdlib Require Import ZArith Lia.
From S2P Require Import Prelude Bytes Undoable BrmTypes CopyLocks ExtentMap ExtentAlloc.
From S2P Require Import ExtentProofs ExtentFree ExtentImage.

Local Open Scope Z_scope.

(** ** Taking a range out of the free list *)

Definition end_of (r : InlineLBIDRange) : Z := start r + size r * 1024.

(** No free range follows another one at once. *)
Definition separated (l : list InlineLBIDRange) : Prop :=
  forall f g, f ∈ l -> g ∈ l -> size f <> 0 -> size g <> 0 -> end_of f <> start g.

(** The first unused entry seen. *)
Definition first_free (l : list InlineLBIDRange) (i : Z) : Prop :=
  slot_with (fun r => size r = 0) l i /\ (i = -1 -> Forall (fun r => size r <> 0) l).

(** [g] is unused or has nothing in common with the range. *)
Definition apart (st n : Z) (g : InlineLBIDRange) : Prop :=
  size g <> 0 -> end_of g <= st \/ st + n * 1024 <= start g.

Lemma seqZ_length {A} (pre : list A) x l :
  seqZ (Z.of_nat (length pre)) (Z.of_nat (length (x :: l)))
  = Z.of_nat (length pre) :: seqZ (Z.of_nat (length (pre ++ [x]))) (Z.of_nat (length l)).
Proof.
  rewrite seqZ_cons by (cbn [length]; lia). rewrite length_app. cbn [length]. do 2 f_equal; lia.
Qed.

Lemma reserve_skip m st n g pre post fi : fFreeList m = pre ++ g :: post ->
  apart st n g -> 0 <= size g -> 0 < n -> first_free pre fi ->
  exists fi', first_free (pre ++ [g]) fi' /\ forall R m',
    runs (reserve_loop (seqZ (Z.of_nat (length (pre ++ [g]))) (Z.of_nat (length post))) fi' st n)
      m R m' ->
    runs (reserve_loop (seqZ (Z.of_nat (length pre)) (Z.of_nat (length (g :: post)))) fi st n) m R m'.
Proof.
  intros Hfl Hap Hg Hn [Hslot Hfull].
  exists (if decide (size g = 0) then if decide (fi = -1) then Z.of_nat (length pre) else fi else fi).
  split.
  - destruct (decide (size g = 0)) as [Hz|Hz].
    + case_decide as Hi; [split; [by apply slot_snoc|lia]|]. split; [by apply slot_app|done].
    + split; [by apply slot_app|]. intros Hi. apply Forall_app.
      split; [by apply Hfull|by apply Forall_singleton].
  - intros R m' Hk. rewrite seqZ_length. cbn [reserve_loop].
    eapply runs_bind; [apply runs_rdFL; rewrite Hfl; by apply list_lookup_middle|].
    destruct (decide (size g = 0)) as [Hz|Hz]; [exact Hk|].
    specialize (Hap Hz). unfold end_of in Hap. unfold lastBlock. cbv zeta.
    rewrite !decide_False by lia. exact Hk.
Qed.

(** The loop reaches the free range [f] that contains the range. *)
Lemma reserve_reach m st n f post : 0 < n -> forall rest pre fi,
  fFreeList m = pre ++ rest ++ f :: post -> Forall (fun g => apart st n g /\ 0 <= size g) rest ->
  first_free pre fi ->
  exists fi', first_free (pre ++ rest) fi' /\ forall R m',
    runs (reserve_loop (seqZ (Z.of_nat (length (pre ++ rest))) (Z.of_nat (length (f :: post))))
            fi' st n) m R m' ->
    runs (reserve_loop (seqZ (Z.of_nat (length pre)) (Z.of_nat (length (rest ++ f :: post)))) fi st n)
      m R m'.
Proof.
  intros Hn rest. induction rest as [|g rest IH]; intros pre fi Hfl Hall Hfi.
  - exists fi. rewrite app_nil_r. by split.
  - apply Forall_cons in Hall as [[Hap Hg] Hall].
    destruct (reserve_skip m st n g pre (rest ++ f :: post) fi) as (fi1 & Hfi1 & Hk1); try done.
    destruct (IH (pre ++ [g]) fi1) as (fi2 & Hfi2 & Hk2); [by rewrite <- app_assoc|done|done|].
    rewrite <- app_assoc in Hfi2, Hk2. cbn [app] in *. exists fi2. split; [done|].
    intros R m' H. by apply Hk1, Hk2.
Qed.

(** ** Free ranges stay separated *)

Section Separated.
Context (l : list InlineLBIDRange).
Context (Hok : Forall range_ok l) (Hdis : forall b, total (cov b) l <= 1).

(** Different free ranges have no block in common. *)
Lemma fl_disjoint_at i j f g b : l !! i = Some f -> l !! j = Some g ->
  covers b f -> covers b g -> i = j.
Proof.
  intros Hi Hj Hf Hg. destruct (decide (i = j)) as [|Hne]; [done|exfalso].
  pose proof (total_lookup2 (cov b) _ _ _ _ _ (cov_nonneg b) Hne Hi Hj) as H.
  rewrite (cov_in b f Hf), (cov_in b g Hg) in H. specialize (Hdis b). lia.
Qed.
Lemma fl_disjoint f g b : f ∈ l -> g ∈ l -> covers b f -> covers b g -> f = g.
Proof.
  intros [i Hi]%list_elem_of_lookup [j Hj]%list_elem_of_lookup Hf Hg.
  rewrite (fl_disjoint_at i j f g b) in Hi by done. congruence.
Qed.

Lemma fl_size f : f ∈ l -> 0 <= size f.
Proof. intros Hf. by apply (proj1 (Forall_forall _ _) Hok). Qed.

(** A part of a free range does not touch another one. *)
Lemma no_touch f g x : separated l -> f ∈ l -> g ∈ l -> f <> g -> size g <> 0 -> 0 < size x ->
  start f <= start x -> end_of x <= end_of f -> end_of x <> start g /\ end_of g <> start x.
Proof.
  intros Hsep Hf Hg Hne Hgz Hx H1 H2. pose proof (fl_size g Hg).
  assert (Hfz : size f <> 0) by (unfold end_of in *; lia). pose proof (fl_size f Hf).
  pose proof (Hsep f g Hf Hg Hfz Hgz) as S1. pose proof (Hsep g f Hg Hf Hgz Hfz) as S2.
  assert (Hb : forall b, covers b f -> covers b g -> False)
    by (intros b Bf Bg; apply Hne; by apply (fl_disjoint f g b)).
  unfold covers, end_of in *.
  pose proof (Hb (start g)). pose proof (Hb (start x)). pose proof (Hb (start f)).
  split; intros E; lia.
Qed.

Lemma separated_split f (news l' : list InlineLBIDRange) : separated l -> f ∈ l -> size f <> 0 ->
  (forall x, x ∈ l' -> size x <> 0 -> (x ∈ l /\ x <> f) \/ x ∈ news) ->
  (forall x, x ∈ news -> size x <> 0 -> 0 < size x /\ start f <= start x /\ end_of x <= end_of f) ->
  (forall x y, x ∈ news -> y ∈ news -> size x <> 0 -> size y <> 0 -> end_of x <> start y) ->
  separated l'.
Proof.
  intros Hsep Hf Hfz Hl' Hin Hnn x y Hx Hy Hxz Hyz.
  destruct (Hl' x Hx Hxz) as [[Hxl Hxf]|Hxn], (Hl' y Hy Hyz) as [[Hyl Hyf]|Hyn].
  - by apply Hsep.
  - destruct (Hin y Hyn Hyz) as (? & ? & ?). by apply (no_touch f x y).
  - destruct (Hin x Hxn Hxz) as (? & ? & ?). by apply (no_touch f y x).
  - by apply Hnn.
Qed.

(** What is in the list after one of its ranges was replaced. *)
Lemma elem_replaced i f f' x : l !! i = Some f -> 0 < size f -> x ∈ <[i := f']> l ->
  (x ∈ l /\ x <> f) \/ x = f'.
Proof.
  intros Hi Hf [j Hj]%list_elem_of_lookup.
  apply list_lookup_insert_Some in Hj as [(-> & -> & _)|[Hne Hj]]; [by right|left].
  split; [by eapply list_elem_of_lookup_2|]. intros ->. apply Hne.
  apply (fl_disjoint_at i j f f (start f)); try done; unfold covers; lia.
Qed.

(** A range all of whose blocks are free lies in one free range. *)
Lemma in_one_range r : separated l -> 0 < size r -> (forall b, covers b r -> total (cov b) l = 1) ->
  exists f, f ∈ l /\ start f <= start r /\ end_of r <= end_of f.
Proof.
  intros Hsep Hr Hall.
  assert (Hex : forall b, covers b r -> exists f, f ∈ l /\ covers b f).
  { intros b Hb. destruct (total_pos (cov b) l (cov_nonneg b)) as (i & f & Hi & Hp);
      [rewrite Hall by done; lia|]. exists f. split; [by eapply list_elem_of_lookup_2|].
    unfold cov in Hp. by case_decide; [|lia]. }
  destruct (Hex (start r)) as (f & Hf & Hc); [unfold covers; lia|]. exists f.
  split; [done|]. unfold covers in Hc. split; [lia|].
  destruct (decide (end_of r <= end_of f)) as [|Hlt]; [done|exfalso].
  destruct (Hex (end_of f)) as (g & Hg & Hcg); [unfold covers, end_of in *; lia|].
  pose proof (fl_size f Hf). pose proof (fl_size g Hg).
  assert (Hne : f <> g) by (intros ->; unfold covers, end_of in *; lia).
  apply (Hsep f g Hf Hg); [lia|unfold covers, end_of in *; lia|].
  destruct (decide (start g = end_of f)) as [->|Hs]; [done|exfalso]. apply Hne.
  apply (fl_disjoint f g (end_of f - 1)); unfold covers, end_of in *; try done; lia.
Qed.
End Separated.

(** ** The three cases *)

Lemma used_in_use r : size r <> 0 -> used r = 1.
Proof. intros H. unfold used. by rewrite decide_False. Qed.
Lemma total_full {A} (g : A -> Z) (l : list A) :
  Forall (fun a => g a = 1) l -> total g l = Z.of_nat (length l).
Proof. induction 1 as [|a l Ha _ IH]; [done|]. rewrite total_cons, IH, Ha. cbn [length]. lia. Qed.

(** The free list of [m'] has lost the range [r]. *)
Record reserved (D : Z -> Z) (de : Z) (m : em_image) (r : InlineLBIDRange) (m' : em_image)
    : Prop := {
  rv_acc : em_acc (fun b => D b + cov b r) 0 de m';
  rv_sep : separated (fFreeList m');
  rv_em : fExtentMap m' = fExtentMap m;
  rv_info : fEMShminfo m' = fEMShminfo m;
  rv_mapped : em_mapped m -> em_mapped m';
  rv_length : (length (fFreeList m) <= length (fFreeList m') <= length (fFreeList m) + 50)%nat;
}.

Section Reserve.
Context (D : Z -> Z) (de : Z) (m : em_image) (Hacc : em_acc D 0 de m).
Context (Hdis : forall b, total (cov b) (fFreeList m) <= 1) (Hsep : separated (fFreeList m)).
Context (i : nat) (f : InlineLBIDRange) (Hi : fFreeList m !! i = Some f).
Context (st n : Z) (Hn : 0 < n) (Hst : st mod 1024 = 0).
Context (Hlo : start f <= st) (Hhi : st + n * 1024 <= end_of f).

Lemma f_ok : 0 < size f < 2 ^ 32 /\ start f mod 1024 = 0.
Proof.
  pose proof (Forall_lookup_1 _ _ _ _ (ew_fl_ranges _ _ _ _ Hacc) Hi) as [H1 H2].
  unfold end_of in Hhi. split; [lia|]. apply H2. lia.
Qed.

(** At the front or the back: the range shrinks to [f']. *)
Lemma reserve_shrink f' : range_ok f' ->
  (0 < size f' -> start f <= start f' /\ end_of f' <= end_of f) ->
  (forall b, cov b f = cov b f' + cov b (mkInline st n)) ->
  exists m',
    runs (makeUndoRecord [CFL (Z.of_nat i)];; wrFL (Z.of_nat i) f';;
          if decide (size f' = 0) then makeUndoRecord [CFLInfo];; addFLSize (- sizeof_Inline)
          else mret tt) m (Ret tt) m' /\ reserved D de m (mkInline st n) m'.
Proof.
  intros Hok Hin Hcov. pose proof f_ok as [Hf _]. set (m1 := with_fl (<[i := f']> (fFreeList m)) m).
  destruct (runs_shrink f' (makeUndoRecord [CFLInfo];; addFLSize (- sizeof_Inline)) m1)
    as (m2 & Hrun & Hsame & Hfl2 & Hacc2).
  { runs_step. apply runs_addFLSize. }
  assert (Hs : same_em m m2) by (etrans; [apply same_em_fl|exact Hsame]).
  exists m2. split.
  - runs_step. eapply runs_bind; [apply runs_wrFL; by eapply lookup_lt_Some|]. exact Hrun.
  - destruct Hs as [S1 S2 S3 S4]. split; [|rewrite Hfl2|done|done|done|lia].
    + eapply acc_ext; [apply Hacc2, (acc_fl _ _ _ _ Hacc _ _ _ Hi Hok)| | |done].
      * intros b. cbv beta. rewrite Hcov. lia.
      * unfold used. rewrite (decide_False (P := size f = 0)) by lia.
        case_decide; unfold sizeof_Inline; lia.
    + eapply (separated_split _ (ew_fl_ranges _ _ _ _ Hacc) Hdis f [f']); [done| |lia|..].
      * by eapply list_elem_of_lookup_2.
      * intros x Hx Hz. rewrite list_elem_of_singleton.
        apply (elem_replaced _ Hdis i f f' x Hi); [lia|done].
      * intros x ->%list_elem_of_singleton Hz. destruct Hok. split; [lia|]. apply Hin. lia.
      * intros x y ->%list_elem_of_singleton ->%list_elem_of_singleton Hz _. unfold end_of. lia.
Qed.

(** In the middle: an unused entry is found or made, and takes the back. *)
Definition choose_free (fi : Z) : prog em_obj Z :=
  if decide (fi = -1) then
    if decide (currentSize (fFLShminfo m) = allocdSize (fFLShminfo m)) then
      growFLShmseg;; mret (flEntries m)
    else
      x ← reading (fun _ => find_index (fun r => size r =? 0) (fFreeList m)
                              (seqZ (Z.of_nat i + 1) (flEntries m - (Z.of_nat i + 1))));
      mret (match x with Some (j, _) => j | None => flEntries m end)
  else mret fi.

Lemma choose_free_runs fi : em_mapped m -> em_room 1 m -> first_free (take i (fFreeList m)) fi ->
  exists k x m1 pad, runs (choose_free fi) m (Ret (Z.of_nat k)) m1 /\ em_acc D 0 de m1 /\
    fFreeList m1 = fFreeList m ++ replicate pad free_range /\ (pad <= 50)%nat /\
    fFreeList m1 !! k = Some x /\ size x = 0 /\ fExtentMap m1 = fExtentMap m /\
    fEMShminfo m1 = fEMShminfo m /\ em_mapped m1.
Proof.
  intros Hm Hroom [Hslot Hall]. pose proof f_ok as [Hf _]. unfold choose_free.
  assert (Hhere : forall k x, fFreeList m !! k = Some x -> size x = 0 ->
    exists k' x' m1 pad, runs (mret (Z.of_nat k)) m (Ret (Z.of_nat k')) m1 /\ em_acc D 0 de m1 /\
    fFreeList m1 = fFreeList m ++ replicate pad free_range /\ (pad <= 50)%nat /\
    fFreeList m1 !! k' = Some x' /\ size x' = 0 /\ fExtentMap m1 = fExtentMap m /\
    fEMShminfo m1 = fEMShminfo m /\ em_mapped m1).
  { intros k x Hk Hx. exists k, x, m, 0%nat. rewrite app_nil_r.
    split_and!; try done; [apply runs_ret|lia]. }
  destruct (decide (fi = -1)) as [Hfi|Hfi].
  2:{ destruct Hslot as [?|(k & x & -> & Hk & Hx)]; [done|].
      apply (Hhere k x); [|done]. apply lookup_take_Some in Hk. tauto. }
  destruct (decide (currentSize (fFLShminfo m) = allocdSize (fFLShminfo m))) as [Hfull|Hfull].
  - destruct (growFL_runs _ _ _ m Hacc Hm Hroom) as (m1 & Hr & Hacc1 & Hm1 & He & Hfl & Hinfo).
    exists (length (fFreeList m)), free_range, m1, 50%nat. split_and!; try done.
    + eapply runs_bind; [exact Hr|]. rewrite (flEntries_acc _ _ _ _ Hacc). apply runs_ret.
    + rewrite Hfl. by apply list_lookup_middle.
  - assert (Hfind : find_index (fun r => size r =? 0) (fFreeList m)
              (seqZ (Z.of_nat i + 1) (flEntries m - (Z.of_nat i + 1)))
            = Ret (prod_map (fun j => Z.of_nat (S i + j)) id <$>
                   list_find (fun r => (size r =? 0) = true) (drop (S i) (fFreeList m)))).
    { pose proof (find_index_shift (fun r => size r =? 0) (take (S i) (fFreeList m))
                    (drop (S i) (fFreeList m)) []) as H.
      pose proof (lookup_lt_Some _ _ _ Hi).
      rewrite app_nil_r, take_drop, length_take_le, length_drop in H by lia.
      rewrite (flEntries_acc _ _ _ _ Hacc). rewrite <- H. f_equal. f_equal; lia. }
    destruct (list_find _ (drop (S i) (fFreeList m))) as [[j x]|] eqn:Hl; cbn in Hfind.
    + apply list_find_Some in Hl as (Hj & Hx & _). rewrite lookup_drop in Hj.
      destruct (Hhere (S i + j)%nat x Hj ltac:(lia)) as (k & x' & m1 & pad & Hr & Hrest).
      exists k, x', m1, pad. split; [|exact Hrest].
      eapply runs_bind; [apply runs_reading; intros _; exact Hfind|]. exact Hr.
    + exfalso. apply list_find_None in Hl. apply Hfull.
      rewrite (ew_fl_size _ _ _ _ Hacc), (ew_fl_alloc _ _ _ _ Hacc).
      enough (total used (fFreeList m) = Z.of_nat (length (fFreeList m))) by lia.
      apply total_full. rewrite <- (take_drop_middle _ _ _ Hi). apply Forall_app. split.
      * eapply Forall_impl; [exact (Hall Hfi)|]. cbn. intros r Hr. by apply used_in_use.
      * constructor; [apply used_in_use; lia|]. eapply Forall_impl; [exact Hl|].
        cbn. intros r Hr. apply used_in_use. lia.
Qed.

(** The two parts that are left. *)
Let f1 := mkInline (start f) (u32 (Z.quot (st - start f) 1024)).
Let f2 := mkInline (st + n * 1024) (u32 (Z.quot (lastBlock f - (st + n * 1024 - 1)) 1024)).

Lemma parts : start f < st -> st + n * 1024 < end_of f ->
  0 < size f1 < 2 ^ 32 /\ end_of f1 = st /\ 0 < size f2 < 2 ^ 32 /\ end_of f2 = end_of f.
Proof.
  intros H1 H2. pose proof f_ok as [Hf Ha]. unfold f1, f2, end_of, lastBlock in *. cbn [size start].
  apply Z.mod_divide in Ha as [a Ha]; [|lia]. apply Z.mod_divide in Hst as [s Hs]; [|lia].
  rewrite Ha, Hs in *. replace (s * 1024 - a * 1024) with ((s - a) * 1024) by lia.
  replace (a * 1024 + size f * 1024 - 1 - (s * 1024 + n * 1024 - 1))
    with ((a + size f - s - n) * 1024) by lia.
  rewrite !Z.quot_mul, !u32_id by lia. lia.
Qed.

Lemma separated_middle pad k x : start f < st -> st + n * 1024 < end_of f ->
  (fFreeList m ++ replicate pad free_range) !! k = Some x -> size x = 0 ->
  separated (<[k := f2]> (<[i := f1]> (fFreeList m ++ replicate pad free_range))).
Proof.
  intros H1 H2 Hk Hx. pose proof f_ok as [Hf _]. destruct (parts H1 H2) as (P1 & P2 & P3 & P4).
  assert (Hi' : (fFreeList m ++ replicate pad free_range) !! i = Some f)
    by (by apply lookup_app_l_Some).
  eapply (separated_split _ (ew_fl_ranges _ _ _ _ Hacc) Hdis f [f1; f2]); [done| |lia|..].
  - by eapply list_elem_of_lookup_2.
  - intros y Hy Hz. rewrite !elem_of_cons, elem_of_nil.
    apply list_elem_of_lookup in Hy as [j Hj].
    apply list_lookup_insert_Some in Hj as [(_ & -> & _)|[_ Hj]]; [tauto|].
    destruct (elem_replaced (fFreeList m ++ replicate pad free_range)) with i f f1 y
      as [[[Hy|[-> _]%elem_of_replicate]%elem_of_app Hne]| ->]; try tauto; try lia.
    + intros b. rewrite total_app, total_replicate, cov_free. specialize (Hdis b). lia.
    + by eapply list_elem_of_lookup_2.
  - intros y Hy Hz. rewrite !elem_of_cons, elem_of_nil in Hy.
    destruct Hy as [->|[->|[]]]; rewrite ?P2, ?P4; (split; [lia|]); unfold f1, f2; cbn [start]; lia.
  - intros y z Hy Hz' _ _. rewrite !elem_of_cons, elem_of_nil in Hy, Hz'.
    destruct Hy as [->|[->|[]]], Hz' as [->|[->|[]]]; rewrite ?P2, ?P4; unfold f1, f2;
      cbn [start]; lia.
Qed.

Lemma reserve_middle_runs fi : em_mapped m -> em_room 1 m ->
  first_free (take i (fFreeList m)) fi -> start f < st -> st + n * 1024 < end_of f ->
  exists m', runs (reserve_middle (Z.of_nat i) fi f st n) m (Ret tt) m' /\
    reserved D de m (mkInline st n) m'.
Proof.
  intros Hm Hroom Hfi H1 H2. pose proof f_ok as [Hf Ha].
  destruct (parts H1 H2) as (P1 & P2 & P3 & P4).
  destruct (choose_free_runs fi Hm Hroom Hfi)
    as (k & x & m1 & pad & Hr & Hacc1 & Hfl & Hpad & Hk & Hx & He & Hinfo & Hm1).
  assert (Hi1 : fFreeList m1 !! i = Some f) by (rewrite Hfl; by apply lookup_app_l_Some).
  assert (Hik : i <> k) by (intros ->; rewrite Hi1 in Hk; injection Hk as ->; lia).
  assert (Hok1 : range_ok f1) by (split; [lia|done]).
  assert (Hok2 : range_ok f2).
  { split; [lia|]. intros _. unfold f2. cbn [start]. by rewrite Z.mod_add by lia. }
  set (m2 := with_fl (<[i := f1]> (fFreeList m1)) m1).
  assert (Hk2 : fFreeList m2 !! k = Some x) by (cbn; by rewrite list_lookup_insert_ne).
  set (m3 := with_fl (<[k := f2]> (fFreeList m2)) m2).
  exists (with_flInfo (add_size sizeof_Inline (fFLShminfo m3)) m3). split.
  - unfold reserve_middle. eapply runs_bind; [apply runs_image|].
    eapply runs_bind; [exact Hr|]. cbv zeta. do 3 runs_step.
    eapply runs_bind; [apply runs_wrFL; by eapply lookup_lt_Some|].
    eapply runs_bind; [apply runs_wrFL; by eapply lookup_lt_Some|]. apply runs_addFLSize.
  - split; cbn [fFreeList with_flInfo fExtentMap fEMShminfo]; [| |done|done| |].
    + eapply acc_ext.
      * apply acc_fl_info, (acc_fl _ _ _ _ (acc_fl _ _ _ _ Hacc1 _ _ _ Hi1 Hok1) _ _ _ Hk2 Hok2).
      * intros b. cbv beta. rewrite (cov_unused b x Hx).
        unfold cov, covers, end_of in *. unfold f1, f2 in *. cbn [start size] in *.
        repeat case_decide; lia.
      * rewrite (used_in_use f) by lia. rewrite (used_in_use f1), (used_in_use f2) by lia.
        unfold used. rewrite decide_True by done. unfold sizeof_Inline. lia.
      * done.
    + unfold m3, m2. cbn. rewrite Hfl in *. by eapply separated_middle.
    + intros _. unfold m3, m2. by autorewrite with mapped.
    + unfold m3, m2. cbn. rewrite !length_insert, Hfl, length_app, length_replicate. lia.
Qed.

Lemma reserve_at fi is_ : em_mapped m -> em_room 1 m -> first_free (take i (fFreeList m)) fi ->
  exists m', runs (reserve_loop (Z.of_nat i :: is_) fi st n) m (Ret tt) m' /\
    reserved D de m (mkInline st n) m'.
Proof.
  intros Hm Hroom Hfi. pose proof f_ok as [Hf Ha]. unfold end_of in Hhi.
  assert (Hrun : forall R m', runs
    (if decide (st = start f) then
       makeUndoRecord [CFL (Z.of_nat i)];;
       wrFL (Z.of_nat i) (mkInline (start f + n * 1024) (u32 (size f - n)));;
       if decide (size (mkInline (start f + n * 1024) (u32 (size f - n))) = 0)
       then makeUndoRecord [CFLInfo];; addFLSize (- sizeof_Inline) else mret tt
     else if decide (lastBlock f = st + n * 1024 - 1) then
       makeUndoRecord [CFL (Z.of_nat i)];;
       wrFL (Z.of_nat i) (mkInline (start f) (u32 (size f - n)));;
       if decide (size (mkInline (start f) (u32 (size f - n))) = 0)
       then makeUndoRecord [CFLInfo];; addFLSize (- sizeof_Inline) else mret tt
     else if decide (start f < st /\ lastBlock f > st + n * 1024 - 1)
     then reserve_middle (Z.of_nat i) fi f st n
     else reserve_loop is_ fi st n) m R m' ->
    runs (reserve_loop (Z.of_nat i :: is_) fi st n) m R m').
  { intros R m' H. cbn [reserve_loop]. eapply runs_bind; [by apply runs_rdFL|].
    rewrite decide_False by lia. exact H. }
  assert (Hu : u32 (size f - n) = size f - n) by (apply u32_id; lia).
  destruct (decide (st = start f)) as [Hfront|Hfront];
    [|destruct (decide (lastBlock f = st + n * 1024 - 1)) as [Hback|Hback]].
  - destruct (reserve_shrink (mkInline (start f + n * 1024) (u32 (size f - n))))
      as (m' & Hr & Hres); rewrite ?Hu; unfold end_of; cbn [start size]; [|lia|..].
    + split; cbn [start size]; [lia|]. intros _. by rewrite Z.mod_add by lia.
    + intros b. clear -Hfront Hn Hhi. cov_solve.
    + exists m'. split; [|done]. apply Hrun. exact Hr.
  - unfold lastBlock in Hback.
    destruct (reserve_shrink (mkInline (start f) (u32 (size f - n)))) as (m' & Hr & Hres);
      rewrite ?Hu; unfold end_of; cbn [start size]; [|lia|..].
    + split; cbn [start size]; [lia|done].
    + intros b. clear -Hback Hn Hlo. cov_solve.
    + exists m'. split; [|done]. apply Hrun. exact Hr.
  - destruct (reserve_middle_runs fi Hm Hroom Hfi) as (m' & Hr & Hres);
      [lia|unfold end_of, lastBlock in *; lia|].
    exists m'. split; [|done]. apply Hrun. unfold lastBlock in *.
    by rewrite decide_True by lia.
Qed.
End Reserve.

(** [reserveLBIDRange] of free blocks. *)
Lemma reserve_runs D de m st n : em_acc D 0 de m -> em_mapped m -> em_room 1 m ->
  (forall b, total (cov b) (fFreeList m) <= 1) -> separated (fFreeList m) ->
  0 < n < 256 -> st mod 1024 = 0 ->
  (forall b, covers b (mkInline st n) -> total (cov b) (fFreeList m) = 1) ->
  exists m', runs (reserveLBIDRange st n) m (Ret tt) m' /\ reserved D de m (mkInline st n) m'.
Proof.
  intros Hacc Hm Hroom Hdis Hsep Hn Hst Hcov.
  destruct (in_one_range _ (ew_fl_ranges _ _ _ _ Hacc) Hdis (mkInline st n))
    as (f & [i Hi]%list_elem_of_lookup & Hlo & Hhi); [done|cbn; lia|done|].
  unfold end_of in Hhi. cbn [start size] in *.
  pose proof (f_ok D de m Hacc i f Hi st n ltac:(lia) Hlo Hhi) as [Hf _].
  pose proof (take_drop_middle _ _ _ Hi) as Hsplit.
  destruct (reserve_reach m st n f (drop (S i) (fFreeList m)) ltac:(lia)
              (take i (fFreeList m)) [] (-1)) as (fi & Hfi & Hreach).
  { by symmetry. }
  { apply Forall_forall. intros g [j Hj]%list_elem_of_lookup.
    apply lookup_take_Some in Hj as [Hj Hlt].
    pose proof (Forall_lookup_1 _ _ _ _ (ew_fl_ranges _ _ _ _ Hacc) Hj) as [Hg _]. split; [|lia].
    intros Hz. unfold end_of. destruct (decide (start g + size g * 1024 <= st)); [by left|right].
    destruct (decide (st + n * 1024 <= start g)); [done|exfalso].
    enough (i = j) by lia.
    apply (fl_disjoint_at _ Hdis i j f g (Z.max st (start g))); try done; unfold covers; lia. }
  { split; [by left|]. by intros _. }
  destruct (reserve_at D de m Hacc Hdis Hsep i f Hi st n ltac:(lia) Hst Hlo Hhi fi
    (seqZ (Z.of_nat (S i)) (Z.of_nat (length (drop (S i) (fFreeList m)))))) as (m' & Hr & Hres);
    [done|done|done|].
  exists m'. split; [|done]. unfold reserveLBIDRange.
  eapply runs_bind; [by apply (runs_gets _ flEntries)|].
  replace (u8 n) with n by (unfold u8; rewrite Z.mod_small; lia).
  rewrite (flEntries_acc _ _ _ _ Hacc).
  pose proof (lookup_lt_Some _ _ _ Hi) as Hlt.
  rewrite Hsplit in Hreach. cbn [length app] in Hreach.
  change (Z.of_nat 0) with 0 in Hreach. apply Hreach.
  rewrite length_take_le by lia. rewrite seqZ_cons by lia.
  replace (Z.succ (Z.of_nat i)) with (Z.of_nat (S i)) by lia.
  replace (Z.pred (Z.of_nat (S (length (drop (S i) (fFreeList m))))))
    with (Z.of_nat (length (drop (S i) (fFreeList m)))) by lia.
  exact Hr.
Qed.

(** ** The layout of an entry *)

Record em_fits (e : EMEntry) : Prop := {
  ft_start : - 2 ^ 63 <= start (range e) < 2 ^ 63;
  ft_size : 0 <= size (range e) < 2 ^ 32;
  ft_fileID : - 2 ^ 31 <= fileID e < 2 ^ 31;
  ft_blockOffset : 0 <= blockOffset e < 2 ^ 32;
  ft_roots : roots_wf (em_dbRoots e);
  ft_HWM : 0 <= HWM e < 2 ^ 32;
  ft_part : 0 <= partitionNum e < 2 ^ 32;
  ft_seg : 0 <= segmentNum e < 2 ^ 16;
  ft_wid : 0 <= colWid e < 2 ^ 16;
  ft_status : EXTENTSTATUSMIN <= status e <= EXTENTSTATUSMAX;
  ft_hi : - 2 ^ 63 <= hi_val (cprange e) < 2 ^ 63;
  ft_lo : - 2 ^ 63 <= lo_val (cprange e) < 2 ^ 63;
  ft_seq : - 2 ^ 31 <= sequenceNum (cprange e) < 2 ^ 31;
  ft_valid : - 2 ^ 7 <= isValid (cprange e) < 2 ^ 7;
}.

Lemma get_bytes_le n x rest : get_bytes n (le_bytes n x ++ rest) = Some (le_bytes n x, rest).
Proof. apply get_bytes_app, length_le_bytes. Qed.

Lemma inline_codec : codec inline_bytes get_inline
  (fun r => - 2 ^ 63 <= start r < 2 ^ 63 /\ 0 <= size r < 2 ^ 32).
Proof.
  intros [s n] rest [Hs Hn]. unfold get_inline, inline_bytes, mbind, reader_bind. cbn [start size] in *.
  rewrite <- !app_assoc. autorewrite with brm. rewrite get_bytes_le. by rewrite s64_id, u32_id.
Qed.

Lemma cp_codec : codec cp_bytes get_cp (fun c =>
  - 2 ^ 63 <= hi_val c < 2 ^ 63 /\ - 2 ^ 63 <= lo_val c < 2 ^ 63 /\
  - 2 ^ 31 <= sequenceNum c < 2 ^ 31 /\ - 2 ^ 7 <= isValid c < 2 ^ 7).
Proof.
  intros [h l q v] rest (Hh & Hl & Hq & Hv). unfold get_cp, cp_bytes, mbind, reader_bind.
  cbn [hi_val lo_val sequenceNum isValid] in *. rewrite <- !app_assoc. autorewrite with brm.
  rewrite get_u_le. change (2 ^ (8 * Z.of_nat 1)) with (2 ^ 8). rewrite get_bytes_le.
  rewrite !s64_id, s32_id by lia. unfold s8. rewrite Z.add_mod_idemp_l by lia.
  rewrite Z.mod_small by lia. replace (v + 2 ^ 7 - 2 ^ 7) with v by lia. done.
Qed.

Lemma em_codec : codec em_bytes get_em em_fits.
Proof.
  intros [r oid off d h p sg w stt c] rest [F1 F2 F3 F4 F5 F6 F7 F8 F9 F10 F11 F12 F13 F14].
  unfold get_em, em_bytes, mbind, reader_bind. cbn [range fileID blockOffset em_dbRoots HWM
    partitionNum segmentNum colWid status cprange] in *.
  rewrite <- !app_assoc, inline_codec by done. autorewrite with brm. rewrite roots_codec by done.
  autorewrite with brm. rewrite get_bytes_le, cp_codec by done.
  unfold EXTENTSTATUSMIN, EXTENTSTATUSMAX in *. rewrite s32_id, !u32_id, !u16_id by lia.
  unfold s16. rewrite Z.mod_small by lia. replace (stt + 2 ^ 15 - 2 ^ 15) with stt by lia. done.
Qed.

(** ** What [save] writes *)

Lemma count_extents m : em_wf m ->
  currentSize (fEMShminfo m) = sizeof_EMEntry * Z.of_nat (length (extents m)).
Proof.
  intros Hwf. rewrite (ew_em_size _ _ _ _ Hwf). unfold extents.
  enough (total used_em (fExtentMap m)
          = Z.of_nat (length (filter (fun e => in_use e = true) (fExtentMap m)))) by lia.
  induction (fExtentMap m) as [|e l IH]; [done|].
  rewrite total_cons, filter_cons, in_use_used, IH. destruct (in_use e).
  - rewrite decide_True by done. cbn [length]. lia.
  - rewrite decide_False by done. lia.
Qed.

Lemma save_em_bytes m : em_wf m -> extents m <> [] ->
  save m = Ret ((le_bytes 4 EM_MAGIC_V4 ++ le_bytes 4 (Z.of_nat (length (extents m)))
                 ++ le_bytes 4 (flEntries m))
                ++ (extents m ≫= em_bytes) ++ (fFreeList m ≫= inline_bytes)).
Proof.
  intros Hwf Hne. pose proof (count_extents m Hwf) as Hc. unfold save, sizeof_EMEntry in *.
  rewrite decide_False by (destruct (extents m); [done|cbn [length] in *; lia]).
  rewrite (collect_all (fun e => if in_use e then em_bytes e else [])) by apply (emEntries_wf _ Hwf).
  rewrite ret_bind, (collect_all inline_bytes) by apply (flEntries_wf _ Hwf). rewrite ret_bind.
  rewrite (bind_filter (fun e => in_use e = true) em_bytes);
    [|by intros e ->|by intros e ->%not_true_is_false].
  by rewrite Hc, Z.mul_comm, Z.div_mul by lia.
Qed.

(** ** The loop of [load] *)

(** The first extents are loaded. *)
Record loading (k : Z) (done : list EMEntry) (m : em_image) : Prop := {
  ld_acc : em_acc (fun _ => 0) 0 (- sizeof_EMEntry * Z.of_nat (length done)) m;
  ld_sep : separated (fFreeList m);
  ld_mapped : em_mapped m;
  ld_room : em_room k m;
  ld_em : exists pad, fExtentMap m = done ++ replicate pad free_em;
}.

(** An extent that can be loaded next. *)
Record loadable (done : list EMEntry) (e : EMEntry) : Prop := {
  la_fits : em_fits e;
  la_size : 0 < size (range e) < 256;
  la_start : start (range e) mod 1024 = 0;
  la_new : forall b, covers b (range e) -> 0 <= b < SPACE /\ total (cov_em b) done = 0;
}.

Lemma free_disjoint_acc de m b : em_acc (fun _ => 0) 0 de m -> total (cov b) (fFreeList m) <= 1.
Proof.
  intros Hacc. pose proof (ew_cover _ _ _ _ Hacc b) as H. cbv beta in H.
  pose proof (total_nonneg (cov_em b) (fExtentMap m) (cov_em_nonneg b)).
  pose proof (in_space_bound b). lia.
Qed.

Lemma load_step_runs k done e m : loading k done m -> loadable done e -> 1 <= k ->
  (length done < length (fExtentMap m))%nat ->
  exists m', runs (wrEM (Z.of_nat (length done)) e;;
                   reserveLBIDRange (start (range e)) (size (range e));;
                   x ← rdEM (Z.of_nat (length done)); wrEM (Z.of_nat (length done)) (fix_status x))
               m (Ret tt) m' /\
    loading (k - 1) (done ++ [e]) m' /\ length (fExtentMap m') = length (fExtentMap m).
Proof.
  intros [Hacc Hsep Hm Hroom (pad & Hem)] [Hfit Hsz Hal Hnew] Hk Hlen.
  assert (Hpad : exists pad', pad = S pad').
  { rewrite Hem, length_app, length_replicate in Hlen. exists (pad - 1)%nat. lia. }
  destruct Hpad as [pad' ->]. cbn [replicate] in Hem.
  set (i := length done).
  assert (Hi : fExtentMap m !! i = Some free_em) by (rewrite Hem; by apply list_lookup_middle).
  set (m1 := with_em (<[i := e]> (fExtentMap m)) m).
  assert (Hem1 : fExtentMap m1 = done ++ e :: replicate pad' free_em).
  { unfold m1, i. cbn. rewrite Hem. by rewrite insert_app_r_alt, Nat.sub_diag by lia. }
  assert (Hacc1 : em_acc (fun b => - cov b (range e)) 0
            (- sizeof_EMEntry * Z.of_nat (length (done ++ [e]))) m1).
  { eapply acc_ext; [apply (acc_em _ _ _ _ Hacc i _ e Hi)|..].
    - split; [lia|done].
    - intros b. cbv beta. rewrite (cov_unused b (range free_em)) by done. lia.
    - done.
    - rewrite (used_in_use (range e)) by lia. unfold used. rewrite decide_True by done.
      rewrite length_app. cbn [length]. unfold sizeof_EMEntry. lia. }
  destruct (reserve_runs _ _ m1 (start (range e)) (size (range e)) Hacc1) as (m2 & Hr & [R1 R2 R3 R4 R5 R6]);
    try done.
  { by apply mapped_with_em. }
  { unfold em_room, m1. cbn. rewrite length_insert. by apply (room_le k). }
  { intros b. apply (free_disjoint_acc _ m b Hacc). }
  { intros b Hb. destruct (Hnew b) as [Hs Ht]; [by destruct (range e)|].
    pose proof (ew_cover _ _ _ _ Hacc b) as Hc. cbv beta in Hc.
    rewrite Hem, total_app, Ht, total_cons, total_replicate in Hc.
    change (cov_em b free_em) with (cov b free_range) in Hc. rewrite cov_free in Hc.
    unfold in_space in Hc. rewrite decide_True in Hc by done. cbn. lia. }
  replace (mkInline (start (range e)) (size (range e))) with (range e) in R1 by (by destruct (range e)).
  assert (Hi2 : fExtentMap m2 !! i = Some e) by (rewrite R3, Hem1; by apply list_lookup_middle).
  assert (Hfix : fix_status e = e).
  { unfold fix_status. destruct Hfit. rewrite decide_False; [done|]. lia. }
  exists m2. split_and!.
  - eapply runs_bind; [apply runs_wrEM; by eapply lookup_lt_Some|].
    eapply runs_bind; [exact Hr|]. eapply runs_bind; [by apply runs_rdEM|]. rewrite Hfix.
    pose proof (runs_wrEM i e m2 (lookup_lt_Some _ _ _ Hi2)) as Hw.
    rewrite list_insert_id in Hw by done. by destruct m2.
  - split; [|done| | |].
    + eapply acc_ext; [exact R1|intros b; cbv beta; lia|done|done].
    + by apply R5, mapped_with_em.
    + apply (room_delete k m); [done| |exact R6].
      rewrite R3. unfold m1. cbn. by rewrite length_insert.
    + exists pad'. by rewrite R3, Hem1, <- app_assoc.
  - rewrite R3. unfold m1. cbn. by rewrite length_insert.
Qed.

Lemma load_loop_runs es : forall k done m log rest, loading k done m ->
  (forall pre e post, es = pre ++ e :: post -> loadable (done ++ pre) e) ->
  (length done + length es <= length (fExtentMap m))%nat -> Z.of_nat (length es) <= k ->
  exists m' log',
    for_each (seqZ (Z.of_nat (length done)) (Z.of_nat (length es))) load_extent
      (mkUndoable m log, (es ≫= em_bytes) ++ rest) = (Ret tt, (mkUndoable m' log', rest)) /\
    loading (k - Z.of_nat (length es)) (done ++ es) m'.
Proof.
  induction es as [|e es IH]; intros k done m log rest Hl Hes Hlen Hk.
  - exists m, log. split; [done|]. rewrite app_nil_r. cbn [length]. by rewrite Z.sub_0_r.
  - pose proof (Hes [] e es eq_refl) as He. rewrite app_nil_r in He. cbn [length] in Hlen, Hk.
    destruct (load_step_runs k done e m Hl He) as (m1 & Hr & Hl1 & Hlen1); [lia|lia|].
    destruct (Hr log) as [log1 Hrun1].
    destruct (IH (k - 1) (done ++ [e]) m1 log1 rest Hl1) as (m' & log' & Hrun & Hl').
    { intros pre x post ->. rewrite <- app_assoc. by apply (Hes (e :: pre) x post). }
    { rewrite Hlen1, length_app. cbn [length]. lia. }
    { lia. }
    exists m', log'. split.
    + rewrite seqZ_length. cbn [for_each]. rewrite bind_cons, <- app_assoc.
      erewrite bind_Ret; [exact Hrun|]. unfold load_extent, stream_read.
      unfold mbind at 1, prog_bind at 1. rewrite em_codec by apply He.
      unfold on_obj, zoom. cbn [fst snd]. by rewrite Hrun1.
    + rewrite <- app_assoc in Hl'. cbn [length]. cbn [app] in Hl'.
      replace (k - Z.of_nat (S (length es))) with (k - 1 - Z.of_nat (length es)) by lia. done.
Qed.

(** ** The empty map [load] starts from *)

(** The segments have the sizes the master segment table says. *)
Definition em_shape (m : em_image) : Prop :=
  allocdSize (fEMShminfo m) = sizeof_EMEntry * Z.of_nat (length (fExtentMap m)) /\
  allocdSize (fFLShminfo m) = sizeof_Inline * Z.of_nat (length (fFreeList m)).

Lemma cleared_loading k m : em_shape m -> em_mapped m -> em_room k m -> loading k [] (cleared m).
Proof.
  intros [S1 S2] [M1 M2 M3 M4] (R1 & R2 & R3 & R4).
  assert (Hfl : fFreeList (cleared m)
    = mkInline 0 MAX_LBID_SIZE :: replicate (length (fFreeList m) - 1) free_range).
  { unfold cleared. cbn. destruct (fFreeList m) as [|x l]; [cbn in R4; lia|]. cbn.
    by rewrite Nat.sub_0_r. }
  assert (Hem : fExtentMap (cleared m) = replicate (length (fExtentMap m)) free_em) by done.
  split.
  - split.
    + rewrite Hem, length_replicate. exact S1.
    + rewrite Hfl. cbn [length]. rewrite length_replicate. cbn. unfold sizeof_Inline in *. lia.
    + rewrite Hem, total_replicate. change (used_em free_em) with 0.
      change (currentSize (fEMShminfo (cleared m))) with 0. cbn [length]. lia.
    + rewrite Hfl, total_cons, total_replicate. change (used free_range) with 0.
      change (currentSize (fFLShminfo (cleared m))) with sizeof_Inline.
      change (used (mkInline 0 MAX_LBID_SIZE)) with 1. lia.
    + rewrite Hem. apply Forall_replicate, range_ok_free.
    + rewrite Hfl. constructor; [|apply Forall_replicate, range_ok_free]. by split.
    + intros b. rewrite Hem, Hfl, total_replicate, total_cons, total_replicate, cov_free.
      change (cov_em b free_em) with (cov b free_range). rewrite cov_free.
      unfold cov, in_space, covers, SPACE. cbn [start size]. repeat case_decide; lia.
  - intros f g Hf Hg Hfz Hgz. rewrite Hfl in Hf, Hg.
    apply elem_of_cons in Hf as [->|[-> _]%elem_of_replicate]; [|done].
    apply elem_of_cons in Hg as [->|[-> _]%elem_of_replicate]; [|done]. done.
  - by split.
  - unfold em_room. rewrite Hem, Hfl. cbn [length]. rewrite !length_replicate.
    by replace (S (length (fFreeList m) - 1)) with (length (fFreeList m)) by lia.
  - by exists (length (fExtentMap m)).
Qed.

Lemma round_rows_bounds n : 0 < n -> n <= round_rows n <= n + 100.
Proof.
  intros Hn. unfold round_rows, EM_INCREMENT_ROWS. pose proof (Z.div_mod n 100).
  pose proof (Z.mod_pos_bound n 100). case_decide; lia.
Qed.

Lemma grow_loading k n m : loading (k + 1) [] m -> 0 < n -> 0 <= k ->
  sizeof_EMEntry * (n + 100) + k * EM_INCREMENT < 2 ^ 31 ->
  exists m', runs (growEMShmseg (round_rows n)) m (Ret tt) m' /\ loading k [] m' /\
    n <= Z.of_nat (length (fExtentMap m')).
Proof.
  intros [[A1 A2 A3 A4 A5 A6 A7] Hsep [M1 M2 M3 M4] (R1 & R2 & R3 & R4) (pad & Hem)] Hn Hk Hb.
  pose proof (round_rows_bounds n Hn) as Hr.
  unfold EM_INCREMENT, EM_FREELIST_INCREMENT, sizeof_EMEntry, sizeof_Inline, EM_INCREMENT_ROWS in *.
  set (rows := Z.max (Z.of_nat (length (fExtentMap m)) + 100) (round_rows n)).
  assert (Hrows : Z.max (allocdSize (fEMShminfo m) + 100 * 72) (round_rows n * 72) = rows * 72)
    by (rewrite A1; unfold rows; lia).
  assert (Hs : s32 (rows * 72) = rows * 72) by (apply s32_id; unfold rows; lia).
  eexists. split; [apply runs_modify|].
  rewrite M1, decide_False by (rewrite A1; lia).
  unfold EM_INCREMENT, sizeof_EMEntry, EM_INCREMENT_ROWS. rewrite Hrows, Hs, Z.div_mul by lia.
  assert (Hlen : Z.of_nat (length (grown free_em (fExtentMap m) rows)) = rows)
    by (apply length_grown; unfold rows; lia).
  split; [|cbn [fExtentMap]; rewrite Hlen; unfold rows; lia]. split.
  - split; cbn [fExtentMap fEMShminfo fFreeList fFLShminfo allocdSize currentSize]; try done.
    + rewrite Hlen. unfold sizeof_EMEntry. lia.
    + by rewrite total_grown by done.
    + apply Forall_app. split; [done|]. apply Forall_replicate, range_ok_free.
    + intros b. rewrite total_grown by apply cov_free. apply A7.
  - done.
  - by split.
  - unfold em_room, EM_INCREMENT, EM_FREELIST_INCREMENT, sizeof_EMEntry, sizeof_Inline,
      EM_INCREMENT_ROWS. cbn [fExtentMap fFreeList].
    assert (0 < rows /\ 72 * rows + k * (100 * 72) < 2 ^ 31) by (unfold rows; lia). lia.
  - cbn [fExtentMap]. unfold grown. rewrite Hem. cbn [app]. rewrite <- replicate_add. eauto.
Qed.

(** ** Round trip *)

Lemma extents_loadable m : em_wf m -> Forall em_fits (extents m) ->
  Forall (fun e => size (range e) < 256) (extents m) ->
  forall pre e post, extents m = pre ++ e :: post -> loadable pre e.
Proof.
  intros Hwf Hfit Hsz pre e post Heq.
  assert (He : e ∈ extents m) by (rewrite Heq; set_solver).
  pose proof He as [Hu%in_use_true [i Hi]%list_elem_of_lookup]%elem_of_extents.
  pose proof (em_range_ok _ Hwf _ _ Hi) as [Hs Ha]. rewrite Forall_forall in Hfit, Hsz.
  pose proof (Hsz e He). split; [by apply Hfit|lia|by apply Ha|]. intros b Hb.
  pose proof (cover_em_fl _ Hwf b i e Hi Hb) as [Hsp _]. split; [done|].
  pose proof (wf_cover _ Hwf b) as Hc.
  rewrite total_extents, Heq, total_app, total_cons in Hc.
  rewrite (cov_in b (range e) Hb : cov_em b e = 1) in Hc. pose proof (in_space_bound b).
  pose proof (total_nonneg (cov_em b) pre (cov_em_nonneg b)).
  pose proof (total_nonneg (cov_em b) post (cov_em_nonneg b)).
  pose proof (total_nonneg (cov b) (fFreeList m) (cov_nonneg b)). lia.
Qed.

(** The end of [load]: all extents are counted. *)
Lemma loaded_wf k done m : loading k done m -> Forall (fun e => in_use e = true) done ->
  let m' := with_emInfo (mkMST (tableShmkey (fEMShminfo m)) (allocdSize (fEMShminfo m))
              (Z.of_nat (length done) * sizeof_EMEntry)) m in
  em_wf m' /\ extents m' = done.
Proof.
  intros [Hacc Hsep Hm Hroom (pad & Hem)] Hu m'. split.
  - destruct Hacc as [A1 A2 A3 A4 A5 A6 A7].
    split; cbn [m' with_emInfo fExtentMap fEMShminfo fFreeList fFLShminfo allocdSize currentSize];
      try done.
    rewrite Hem, total_app, total_replicate. change (used_em free_em) with 0.
    rewrite total_full; [lia|]. eapply Forall_impl; [exact Hu|]. cbn. intros e He.
    by rewrite in_use_used, He.
  - unfold extents. cbn [m' with_emInfo fExtentMap]. rewrite Hem, filter_app.
    rewrite (filter_all _ done) by done. rewrite filter_none, app_nil_r; [done|].
    by apply Forall_replicate.
Qed.

Lemma load_body_runs es rest fl m0 log : em_shape m0 -> em_mapped m0 ->
  em_room (Z.of_nat (length es) + 1) m0 ->
  sizeof_EMEntry * (Z.of_nat (length es) + 100) + Z.of_nat (length es) * EM_INCREMENT < 2 ^ 31 ->
  es <> [] -> Forall (fun e => in_use e = true) es ->
  (forall pre e post, es = pre ++ e :: post -> loadable pre e) ->
  exists m' log',
    load_body (mkUndoable m0 log,
      (le_bytes 4 EM_MAGIC_V4 ++ le_bytes 4 (Z.of_nat (length es)) ++ le_bytes 4 fl)
      ++ (es ≫= em_bytes) ++ rest) = (Ret tt, (mkUndoable m' log', rest)) /\
    em_wf m' /\ extents m' = es.
Proof.
  intros Hsh Hm Hroom Hb Hne Hu Hload. set (n := Z.of_nat (length es)) in *.
  assert (Hn : 0 < n < 2 ^ 31).
  { unfold n, sizeof_EMEntry, EM_INCREMENT, EM_INCREMENT_ROWS, sizeof_EMEntry in *.
    destruct es; [done|cbn [length] in *; lia]. }
  pose proof (cleared_loading _ m0 Hsh Hm Hroom) as Hcl.
  assert (Hgrow : exists m1 log1,
    (n_ ← gets (fun '(o, _) => emEntries (image o));
     if decide (n_ < n) then on_obj (growEMShmseg (round_rows n)) else mret tt)
      (mkUndoable (cleared m0) log, (es ≫= em_bytes) ++ rest)
    = (Ret tt, (mkUndoable m1 log1, (es ≫= em_bytes) ++ rest)) /\
    loading n [] m1 /\ n <= Z.of_nat (length (fExtentMap m1))).
  { erewrite bind_Ret by reflexivity. cbn [image].
    rewrite (emEntries_acc _ _ _ _ (ld_acc _ _ _ Hcl)). case_decide.
    - destruct (grow_loading n n (cleared m0) Hcl) as (m1 & Hr & Hl & Hlen); [lia|lia|done|].
      destruct (Hr log) as [log1 Hr1]. exists m1, log1. split_and!; try done.
      unfold on_obj, zoom. cbn [fst snd]. by rewrite Hr1.
    - exists (cleared m0), log. split_and!; [done| |lia].
      destruct Hcl as [C1 C2 C3 C4 C5]. split; try done. apply (room_le (n + 1)); [done|lia]. }
  destruct Hgrow as (m1 & log1 & Hg & Hl1 & Hlen1).
  destruct (load_loop_runs es n [] m1 log1 rest Hl1) as (m2 & log2 & Hloop & Hl2);
    [done|cbn [length]; lia|done|].
  destruct (loaded_wf _ _ _ Hl2 Hu) as [Hwf Hex]. cbn [app] in *.
  eexists _, log2. split; [|split; [exact Hwf|exact Hex]].
  unfold load_body, stream_read. rewrite <- !app_assoc. unfold mbind at 1, prog_bind at 1.
  rewrite get_s32_le. rewrite s32_id by done. rewrite decide_True by done.
  unfold loadVersion4, stream_read. unfold mbind at 1, prog_bind at 1. rewrite get_s32_le.
  unfold mbind at 1, prog_bind at 1. rewrite get_s32_le. rewrite s32_id by lia.
  rewrite decide_False by lia. erewrite bind_on_obj by reflexivity.
  rewrite <- prog_bind_assoc. erewrite bind_Ret by exact Hg.
  erewrite bind_Ret by exact Hloop. reflexivity.
Qed.

(** C35: Loading what [save] wrote.  Let the extents and the free list of [m]
    partition the LBID space, and let there be an extent.  Then [save] writes
    an image; loading it into an object with mapped segments, whatever they
    hold, gives the same extents in the same order, with a free list that
    partitions the rest of the space again.  The hypotheses bound the values
    by the widths of the members and the size of an extent, which
    [reserveLBIDRange] takes as a byte, by 255. *)
Theorem em_load_save m m0 log a b : em_wf m -> extents m <> [] -> Forall em_fits (extents m) ->
  Forall (fun e => size (range e) < 256) (extents m) ->
  let n := Z.of_nat (length (extents m)) in
  em_shape m0 -> em_mapped m0 -> em_room (n + 1) m0 ->
  sizeof_EMEntry * (n + 100) + n * EM_INCREMENT < 2 ^ 31 ->
  exists file m' log', save m = Ret file /\
    load (mkExtentMap (mkUndoable m0 log) a b, file)
    = (Ret tt, (mkExtentMap (mkUndoable m' log') false false, fFreeList m ≫= inline_bytes)) /\
    em_wf m' /\ extents m' = extents m.
Proof.
  intros Hwf Hne Hfit Hsz n Hsh Hm Hroom Hb.
  destruct (load_body_runs (extents m) (fFreeList m ≫= inline_bytes) (flEntries m) m0 log)
    as (m' & log' & Hrun & Hwf' & Hex); try done.
  { apply Forall_forall. intros e He. by apply elem_of_extents in He as [? _]. }
  { by apply extents_loadable. }
  eexists _, m', log'. split; [by apply save_em_bytes|]. split; [|done].
  unfold load. erewrite bind_on_obj by (by apply grabEM_mapped).
  erewrite bind_on_obj by (by apply grabFL_mapped).
  unfold load_and_release. cbn [em_und]. by rewrite Hrun.
Qed.

Lemma demo_extents : extents demo_image = [demo_extent 0 0 8191; demo_extent 8192 1 77].
Proof. reflexivity. Qed.

Lemma demo_fits st seg hwm : 0 <= st < 2 ^ 36 -> 0 <= seg < 2 -> 0 <= hwm < 8192 ->
  em_fits (demo_extent st seg hwm).
Proof.
  intros. split; cbn [demo_extent range start size fileID blockOffset em_dbRoots HWM partitionNum
    segmentNum colWid status cprange hi_val lo_val sequenceNum isValid];
    unfold EXTENTSTATUSMIN, EXTENTSTATUSMAX, EXTENTAVAILABLE, int64_min, int64_max, CP_VALID; try lia.
  split; [done|]. repeat (apply Forall_cons_2; [lia|]). apply Forall_nil_2.
Qed.

Lemma em_load_save_witness :
  exists file m' log', save demo_image = Ret file /\
    load (demo_map, file)
    = (Ret tt, (mkExtentMap (mkUndoable m' log') false false,
                fFreeList demo_image ≫= inline_bytes)) /\
    em_wf m' /\ extents m' = [demo_extent 0 0 8191; demo_extent 8192 1 77].
Proof.
  apply (em_load_save demo_image demo_image [] false false demo_wf).
  - rewrite demo_extents. done.
  - rewrite demo_extents. repeat (apply Forall_cons_2; [apply demo_fits; lia|]). apply Forall_nil_2.
  - rewrite demo_extents. repeat (apply Forall_cons_2; [cbn; lia|]). apply Forall_nil_2.
  - split; reflexivity.
  - exact demo_mapped.
  - rewrite demo_extents. apply (room_le 10); [exact demo_room|cbn; lia].
  - rewrite demo_extents. vm_compute. done.
Defined.
