(* ===== verification/ExtentCheck.v ===== *)
(** * What the consistency check of the extent map says

    Test 1b of [checkConsistency] walks over the LBID space with an [int], up
    to unit 2^26; the free list starts with a range of 2^32 - 1 units.  The
    file proves that the check therefore rejects the consistent maps. *)
From Stdlib Require Import ZArith Lia.
From S2P Require Import Prelude Bytes Undoable BrmTypes CopyLocks ExtentMap ExtentAlloc.
From S2P Require Import ExtentProofs ExtentImage ExtentReload.

Local Open Scope Z_scope.

(** The outcomes of a test. *)
Definition verdict (r : res unit) : Prop := r = Ret tt \/ r = Throw LogicError.

Lemma verdict_for_res {A} (l : list A) f : (forall a, a ∈ l -> verdict (f a)) ->
  verdict (for_res l f).
Proof.
  induction l as [|a l IH]; intros Hf; [by left|]. cbn [for_res].
  destruct (Hf a) as [->| ->]; [by left| |by right].
  rewrite ret_bind. apply IH. intros x Hx. apply Hf. by right.
Qed.

Lemma rd_seqZ {A} (l : list A) i : i ∈ seqZ 0 (Z.of_nat (length l)) -> exists a, rd l i = Ret a.
Proof. intros Hi%elem_of_seqZ. apply in_range_rd, in_range_true. lia. Qed.

Lemma verdict_test1a m : em_wf m -> verdict (test1a m).
Proof.
  intros Hwf. unfold test1a. rewrite (emEntries_wf _ Hwf), (flEntries_wf _ Hwf).
  apply verdict_for_res. intros i Hi. destruct (rd_seqZ _ _ Hi) as [e ->]. rewrite ret_bind.
  destruct (in_use e); [|by left]. apply verdict_for_res. intros j Hj.
  destruct (rd_seqZ _ _ Hj) as [r ->]. rewrite ret_bind. case_match; [by right|by left].
Qed.

(** ** The walk of test 1b *)

Section Walk.
Context (rs : list InlineLBIDRange) (f : InlineLBIDRange).
Context (Hok : Forall range_ok rs) (Hdis : forall b, total (cov b) rs <= 1).
Context (Hin : forall r, r ∈ rs -> size r <> 0 -> 0 <= start r /\ end_of r <= SPACE).
Context (Hf : f ∈ rs) (Hfz : size f <> 0) (Hend : end_of f = SPACE).
Context (Hlow : start f < 67108864 * 1024).

(** Where the walk can be: at a unit up to the start of the last range, or,
    after the overflow, at -1. *)
Definition at_unit (lbid : Z) : Prop := lbid = -1 \/ 0 <= lbid * 1024 <= start f.

Lemma ok_of r : r ∈ rs -> range_ok r.
Proof. intros Hr. by apply (proj1 (Forall_forall _ _) Hok). Qed.

Lemma walk_step r lbid : r ∈ rs -> at_unit lbid -> Z.quot (start r) 1024 = lbid ->
  Z.rem (start r) 1024 = 0 ->
  at_unit (s32 (lbid + size r)) /\
  (s32 (lbid + size r) = lbid \/
   size r <> 0 /\ start r = lbid * 1024 /\ (s32 (lbid + size r) = -1 \/ lbid < s32 (lbid + size r))).
Proof.
  intros Hr Hat Hq Hrem. pose proof (ok_of r Hr) as [Hsz _]. pose proof (ok_of f Hf) as [Hfs _].
  assert (Hs : start r = lbid * 1024) by (pose proof (Z.quot_rem' (start r) 1024); lia).
  unfold at_unit, SPACE, MAX_LBID_SIZE in *.
  destruct (decide (size r = 0)) as [Hz|Hz].
  { rewrite Hz, Z.add_0_r, s32_id by lia. by split; [|left]. }
  destruct (Hin r Hr Hz) as [H0 Hre]. destruct (Hin f Hf Hfz) as [H1 _].
  destruct (decide (end_of r <= start f)) as [Hle|Hgt].
  - unfold end_of in Hle. rewrite s32_id by lia. split; [lia|]. right. split_and!; [done|done|]. lia.
  - assert (r = f) as ->.
    { apply (fl_disjoint _ Hdis r f (start f)); try done; unfold covers, end_of in *; lia. }
    assert (Hn : lbid + size f = 2 ^ 32 - 1) by (unfold end_of in *; lia).
    rewrite Hn. change (s32 (2 ^ 32 - 1)) with (-1). split; [by left|].
    right. split_and!; [done|done|by left].
Qed.

(** A pass over the ranges: an error, or a place not before the start. *)
Lemma walk_pass l lbid : (forall r, r ∈ l -> r ∈ rs) -> at_unit lbid ->
  walk_ranges l lbid = Throw LogicError \/
  exists lbid', walk_ranges l lbid = Ret lbid' /\ at_unit lbid' /\
    (lbid' = lbid \/
     (exists r, r ∈ rs /\ size r <> 0 /\ start r = lbid * 1024) /\ (lbid' = -1 \/ lbid < lbid')).
Proof.
  revert lbid. induction l as [|r l IH]; intros lbid Hl Hat.
  { right. exists lbid. split_and!; [done|done|by left]. }
  cbn [walk_ranges]. destruct (decide (Z.rem (start r) 1024 <> 0)) as [|Hrem]; [by left|].
  assert (Hl' : forall x, x ∈ l -> x ∈ rs) by (intros x Hx; apply Hl; by right).
  destruct (decide (Z.quot (start r) 1024 = lbid)) as [Hq|Hq]; [|by apply IH].
  destruct (walk_step r lbid) as [Hat' Hmove]; [apply Hl; by left|done|done|lia|].
  destruct (IH (s32 (lbid + size r)) Hl' Hat') as [?|(lbid' & Hw & Hat2 & Hm2)]; [by left|].
  right. exists lbid'. split_and!; [done|done|].
  destruct Hmove as [Heq|(Hz & Hs & Hm)]; [by rewrite Heq in Hm2|]. right.
  split; [exists r; split_and!; [apply Hl; by left|done|done]|].
  destruct Hm2 as [->|[(r' & Hr' & Hz' & Hs') Hm2]]; [done|].
  pose proof (Hin r' Hr' Hz') as [? _]. lia.
Qed.

(** The ranges in use from a unit on. *)
Definition ahead (lbid : Z) (r : InlineLBIDRange) : Z :=
  if decide (size r <> 0 /\ lbid * 1024 <= start r) then 1 else 0.

Lemma cover_overflown fuel : cover_loop (S fuel) rs (-1) = Throw LogicError.
Proof.
  cbn [cover_loop]. rewrite decide_True by lia.
  destruct (walk_pass rs (-1)) as [->|(lbid' & -> & _ & Hm)]; [done|by left|done|].
  rewrite ret_bind. destruct Hm as [->|[(r & Hr & Hz & Hs) _]]; [by rewrite decide_True|].
  destruct (Hin r Hr Hz). lia.
Qed.

Lemma cover_loop_rejects fuel lbid : 0 <= lbid * 1024 <= start f ->
  2 + total (ahead lbid) rs <= Z.of_nat fuel -> cover_loop fuel rs lbid = Throw LogicError.
Proof.
  assert (Hnn : forall x, 0 <= total (ahead x) rs)
    by (intros x; apply total_nonneg; intros r; unfold ahead; case_decide; lia).
  revert lbid. induction fuel as [|fuel IH]; intros lbid Hat Hfuel; [specialize (Hnn lbid); lia|].
  cbn [cover_loop]. rewrite decide_True by lia.
  destruct (walk_pass rs lbid) as [->|(lbid' & -> & Hat' & Hm)]; [done|by right|done|].
  rewrite ret_bind. case_decide as Heq; [done|].
  destruct Hm as [?|[(r & Hr & Hz & Hs) Hm]]; [done|].
  destruct Hat' as [->|Hat'].
  { destruct fuel as [|fuel]; [specialize (Hnn lbid); lia|]. apply cover_overflown. }
  apply IH; [done|].
  enough (total (ahead lbid') rs < total (ahead lbid) rs) by lia.
  apply (total_lt_total _ _ r); [|done|].
  - intros x. unfold ahead. repeat case_decide; lia.
  - unfold ahead. rewrite decide_False by lia. rewrite decide_True by lia. lia.
Qed.
End Walk.

(** The walk over both arrays of a consistent map. *)
Lemma test1b_rejects m f : em_wf m -> f ∈ fFreeList m -> size f <> 0 -> end_of f = SPACE ->
  start f < 67108864 * 1024 -> test1b m = Throw LogicError.
Proof.
  intros Hwf Hf Hz Hend Hlow. unfold test1b.
  rewrite (collect_all (fun r => [r])) by apply (flEntries_wf _ Hwf). rewrite ret_bind.
  rewrite (collect_all (fun e => [range e])) by apply (emEntries_wf _ Hwf). rewrite ret_bind.
  rewrite (bind_map (fun r => r)), (bind_map range), map_id.
  set (rs := _ ++ _). assert (Hrs : rs = fFreeList m ++ map range (fExtentMap m)) by done.
  assert (Htot : forall b, total (cov b) rs
                 = total (cov b) (fFreeList m) + total (cov_em b) (fExtentMap m)).
  { intros b. rewrite Hrs, total_app. f_equal. clear.
    induction (fExtentMap m) as [|e l IH]; [done|]. cbn [map]. by rewrite !total_cons, IH. }
  apply (cover_loop_rejects rs f); try done.
  - rewrite Hrs. apply Forall_app. split; [apply Hwf|]. apply Forall_map, Hwf.
  - intros b. rewrite Htot. pose proof (wf_cover _ Hwf b). pose proof (in_space_bound b). lia.
  - intros r Hr Hrz. rewrite Hrs, elem_of_app in Hr.
    destruct Hr as [[i Hi]%list_elem_of_lookup|(e & -> & [i Hi]%list_elem_of_lookup)%list_elem_of_fmap].
    + by apply (fl_in_space _ Hwf i).
    + by apply (em_in_space _ Hwf i).
  - rewrite Hrs. apply elem_of_app. by left.
  - destruct (list_elem_of_lookup_1 _ _ Hf) as [i Hi]. destruct (fl_in_space _ Hwf i f Hi Hz). lia.
  - assert (total (ahead 0) rs <= Z.of_nat (length rs)); [|lia].
    apply total_le. intros r. unfold ahead. case_decide; lia.
Qed.

(** The consistency check rejects the consistent maps.  When the extents
    and the free list partition the LBID space and the free range at its end
    starts below block 2^36 (as in an empty database), [checkConsistency]
    throws: adding the 32-bit size of that range overflows the [int] of test
    1b, or a test before it fails. *)
Theorem em_checkConsistency_rejects m f : em_wf m -> f ∈ fFreeList m -> size f <> 0 ->
  end_of f = SPACE -> start f < 2 ^ 36 -> checkConsistency m = Throw LogicError.
Proof.
  intros Hwf Hf Hz Hend Hlow. unfold checkConsistency.
  destruct (verdict_test1a m Hwf) as [->| ->]; [rewrite ret_bind|done].
  by rewrite (test1b_rejects m f).
Qed.

Lemma em_checkConsistency_rejects_witness : checkConsistency demo_image = Throw LogicError.
Proof.
  apply (em_checkConsistency_rejects demo_image (mkInline 16384 (MAX_LBID_SIZE - 16)) demo_wf).
  - left.
  - done.
  - reflexivity.
  - done.
Defined.
