(* ===== verification/SlaveNode.v ===== *)
(** * The worker node: src/versioning/BRM/slavedbrmnode.{h,cpp}

    A worker node owns one copy of the BRM tables and carries out the
    controller's commands: it records the copies a transaction makes to the
    version buffer, commits and rolls back.  After every command the
    controller confirms or undoes the changes.  What these commands ask of the
    extent map is the interface [ExtentMapOps]; the commands on extents are in
    SlaveExtents.v. *)
From Stdlib Require Import ZArith Lia.
From S2P Require Import Prelude Bytes Undoable Hasher HashChain BrmTypes VSS VBBM VersionBuffer.
From S2P Require Import CopyLocks.

Local Open Scope Z_scope.

(** What the node asks of its extent map besides the extent commands. *)
Class ExtentMapOps (E : Type) := {
  em_confirmChanges : prog E unit;
  em_undoChanges : prog E unit;
  em_checkConsistency : prog E unit;
  em_save : prog E (list Z);
  em_load : prog (E * list Z) unit;
}.

(** The members of [SlaveDBRMNode]; [locked[i]] says which write locks the
    current command holds: VBBM, VSS, copy locks. *)
Record slave (E : Type) := mkSlave {
  em : E;
  tabs : tables;
  copylocks : cl_obj;
  locked0 : bool;
  locked1 : bool;
  locked2 : bool;
}.
Arguments mkSlave {E} _ _ _ _ _ _.
Arguments em {E} _.
Arguments tabs {E} _.
Arguments copylocks {E} _.
Arguments locked0 {E} _.
Arguments locked1 {E} _.
Arguments locked2 {E} _.

Definition ERR_VBBM_OVERFLOW : Z := 8.
Definition ERR_OLDTXN_OVERWRITING_NEWTXN : Z := 17.

Section SlaveNode.
Context {E : Type} `{!ExtentMapOps E}.
(** The [VersionBuffer/VersionBufferFileSize] of the configuration. *)
Context (VersionBufferFileSize : option Z).
(** [OamCache::getRepSize()] *)
Context (repSize : Z).
(** What other processes do to the shared tables while this one sleeps with
    its locks released, for the n-th time. *)
Context (others : nat -> vss_seg * vbbm_seg * cl_seg -> vss_seg * vbbm_seg * cl_seg).

Abbreviation node := (slave E).

Definition on_em {A} (p : prog E A) : prog node A :=
  zoom em (fun x s => mkSlave x (tabs s) (copylocks s) (locked0 s) (locked1 s) (locked2 s)) p.
Definition on_tabs {A} (p : prog tables A) : prog node A :=
  zoom tabs (fun x s => mkSlave (em s) x (copylocks s) (locked0 s) (locked1 s) (locked2 s)) p.
Definition on_cl {A} (p : prog cl_obj A) : prog node A :=
  zoom copylocks (fun x s => mkSlave (em s) (tabs s) x (locked0 s) (locked1 s) (locked2 s)) p.
Definition vbbm {A} (p : prog vbbm_obj A) : prog node A := on_tabs (on_vbbm p).
Definition vss {A} (p : prog vss_obj A) : prog node A := on_tabs (on_vss p).

Definition set_locked0 (b : bool) : prog node unit :=
  modify (fun s => mkSlave (em s) (tabs s) (copylocks s) b (locked1 s) (locked2 s)).
Definition set_locked1 (b : bool) : prog node unit :=
  modify (fun s => mkSlave (em s) (tabs s) (copylocks s) (locked0 s) b (locked2 s)).
Definition set_locked2 (b : bool) : prog node unit :=
  modify (fun s => mkSlave (em s) (tabs s) (copylocks s) (locked0 s) (locked1 s) b).

(** [vbbm.lock(VBBM::WRITE); locked[0] = true;] and so on. *)
Definition lock_vbbm : prog node unit :=
  vbbm (VBBM.lock VersionBufferFileSize);; set_locked0 true.
Definition lock_vss : prog node unit := vss VSS.lock;; set_locked1 true.
Definition lock_copylocks : prog node unit := on_cl CopyLocks.lock;; set_locked2 true.

(** The handler that returns -1. *)
Definition fail (_ : exn) : prog node Z := mret (-1).

(** ** Recording a copy *)

(** The entry [lookup] points to is changed in place. *)
Definition add_replica (lbid verID dbrIdx vbOID vbFBO : Z) : prog vbbm_obj unit :=
  vbe ← reading (fun o => VBBM.lookup_ptr (image o) lbid verID);
  match vbe with
  | None => undefined DanglingPointer
  | Some i =>
      e ← VBBM.rdStorage i;
      oids ← reading (fun _ => roots_set (vb_vbOids e) dbrIdx vbOID);
      VBBM.wrStorage i (mkVBBMEntry (vb_lbid e) oids (vb_vbFbo e) (vb_verID e) (vb_next e));;
      e ← VBBM.rdStorage i;
      fbo ← reading (fun _ => fbo_set (vb_vbFbo e) dbrIdx vbFBO);
      VBBM.wrStorage i (mkVBBMEntry (vb_lbid e) (vb_vbOids e) fbo (vb_verID e) (vb_next e))
  end.

Definition writeVBEntry_body (transID lbid dbrIdx vbOID vbFBO : Z) : prog tables Z :=
  '(oldVerID, _) ← reading (fun t => VSS.getCurrentVersion (image (t_vss t)) lbid);
  if decide (oldVerID = transID) then
    oldVerID ← reading (fun t => VSS.getHighestVerInVB (image (t_vss t)) lbid transID);
    on_vbbm (add_replica lbid oldVerID dbrIdx vbOID vbFBO);;
    mret 0
  else if decide (oldVerID > transID) then mret ERR_OLDTXN_OVERWRITING_NEWTXN
  else
    vbOids ← reading (fun _ => roots_set DBROOTS_zero dbrIdx vbOID);
    vbFbo ← reading (fun _ => fbo_set FBO_zero dbrIdx vbFBO);
    on_vbbm (VBBM.insert VersionBufferFileSize lbid oldVerID vbOids vbFbo false);;
    (if decide (oldVerID > 0) then on_vss (VSS.setVBFlag lbid oldVerID true)
     else on_vss (VSS.insert lbid oldVerID true false false));;
    on_vss (VSS.insert lbid transID false true false);;
    mret 0.

Definition writeVBEntry (transID lbid dbrIdx vbOID vbFBO : Z) : prog node Z :=
  try_catch
    (lock_vbbm;; lock_vss;;
     on_tabs (writeVBEntry_body transID lbid dbrIdx vbOID vbFBO))
    fail.

(** ** Locking ranges *)

(** The node with the local array [lockedRanges]. *)
Abbreviation frame := (node * list bool)%type.
Definition on_node {A} (p : prog node A) : prog frame A := zoom fst (fun n f => (n, snd f)) p.
Definition rdFlag (i : Z) : prog frame bool := reading (fun f => rd (snd f) i).
Definition wrFlag (i : Z) (b : bool) : prog frame unit :=
  modify (fun f => (fst f, wr (snd f) i b)).

Section Ranges.
Context (ranges : list LBIDRange) (transID : Z).

Abbreviation indices := (seqZ 0 (Z.of_nat (length ranges))).

(** One pass over the ranges: lock those that can be.  The result is
    [allLocked]. *)
Fixpoint grab (is_ : list Z) : prog frame bool :=
  match is_ with
  | [] => mret true
  | i :: is' =>
      b ← rdFlag i;
      r ← reading (fun _ => rd ranges i);
      ok ← (if b : bool then mret true
            else
              l ← reading (fun f => CopyLocks.isLocked (image (copylocks (fst f))) r);
              if l : bool then mret false
              else
                on_node (on_cl (lockRange r transID));;
                wrFlag i true;;
                mret true);
      rest ← grab is';
      mret (ok && rest)
  end.

Definition maxRetries : nat := 1200. (* (60 * 1000000) / 50000 *)

Definition sleep (retries : nat) : prog node unit := modify (fun s =>
  let '(v, b, c) := others retries
    (image (t_vss (tabs s)), image (t_vbbm (tabs s)), image (copylocks s)) in
  mkSlave (em s)
    (mkTables (mkUndoable v (undoRecords (t_vss (tabs s))))
              (mkUndoable b (undoRecords (t_vbbm (tabs s)))))
    (mkUndoable c (undoRecords (copylocks s))) (locked0 s) (locked1 s) (locked2 s)).

(** The [while] loop; [release] and [acquire] frame the sleep.  The result
    says whether the retries ran out. *)
Fixpoint grab_retry (fuel retries : nat) (release acquire : prog node unit)
    : prog frame bool :=
  match fuel with
  | O => mret true
  | S fuel' =>
      allLocked ← grab indices;
      if allLocked : bool then mret false
      else
        on_node (release;; sleep retries;; acquire);;
        grab_retry fuel' (S retries) release acquire
  end.

(** After the last retry: take the locks by force. *)
Definition grab_force : prog frame unit :=
  for_each indices (fun i =>
    b ← rdFlag i;
    r ← reading (fun _ => rd ranges i);
    if b : bool then mret tt
    else
      on_node (on_cl (forceRelease r));;
      on_node (on_cl (lockRange r transID));;
      wrFlag i true).

Definition grab_all (release acquire : prog node unit) : prog frame unit :=
  timeout ← grab_retry maxRetries 0 release acquire;
  if timeout : bool then grab_force else mret tt.

(** The handlers release what has been locked. *)
Definition release_flagged : prog frame unit :=
  for_each indices (fun i =>
    b ← rdFlag i;
    r ← reading (fun _ => rd ranges i);
    if b : bool then on_node (on_cl (releaseRange r)) else mret tt).

(** A frame for the duration of a call. *)
Definition with_frame {A} (p : prog frame A) : prog node A := fun n =>
  let '(r, (n', _)) := p (n, replicate (length ranges) false) in (r, n').

Fixpoint any_vss_locked (rs : list LBIDRange) (m : vss_seg) : res bool :=
  match rs with
  | [] => Ret false
  | r :: rs' => b ← VSS.isLocked m r transID; if b : bool then Ret true else any_vss_locked rs' m
  end.

(** [beginVBCopy]: the return code, [freeList] and the blocks to flush. *)
Definition beginVBCopy (vbOID : DBROOTS_struct) (dbrIndex : Z)
    : prog node (Z * list VBRange * list Z) :=
  let sum := foldr (fun r n => r_size r + n) 0 ranges in
  let copy : prog frame (Z * list VBRange * list Z) :=
    '(freeList, flushList) ← on_node (on_tabs
        (getBlocks VersionBufferFileSize repSize (s32 sum) vbOID dbrIndex));
    mret (0, freeList, flushList) in
  with_frame (try_catch
    (if decide (dbrIndex = 0) then
       on_node (lock_vbbm;; lock_vss);;
       busy ← reading (fun f => any_vss_locked ranges (image (t_vss (tabs (fst f)))));
       if busy : bool then mret (-1, [], [])
       else
         on_node lock_copylocks;;
         grab_all (set_locked2 false;; set_locked1 false;; set_locked0 false)
                  (lock_vbbm;; lock_vss;; lock_copylocks);;
         copy
     else copy)
    (fun e =>
       release_flagged;;
       mret (match e with VBBMBufferOverFlow => ERR_VBBM_OVERFLOW | _ => -1 end, [], []))).

Definition dmlLockLBIDRanges : prog node Z :=
  with_frame (try_catch
    (on_node lock_copylocks;;
     grab_all (set_locked2 false) lock_copylocks;;
     mret 0)
    (fun _ => release_flagged;; mret (-1))).
End Ranges.

Definition dmlReleaseLBIDRanges (ranges : list LBIDRange) : prog node Z :=
  try_catch (lock_copylocks;; for_each ranges (fun r => on_cl (releaseRange r));; mret 0) fail.

Definition endVBCopy (transID : Z) (ranges : list LBIDRange) : prog node Z :=
  try_catch (lock_copylocks;; for_each ranges (fun r => on_cl (releaseRange r));; mret 0) fail.

(** ** The end of a transaction *)

Definition vbCommit (transID : Z) : prog node Z :=
  try_catch (lock_vss;; vss (VSS.commit transID);; mret 0) fail.

(** One block of [vbRollback]; the result goes to [flushList]. *)
Definition rollback_block (transID lbid : Z) : prog tables (list Z) :=
  oldVerID ← reading (fun t => VSS.getHighestVerInVB (image (t_vss t)) lbid transID);
  (if decide (oldVerID <> -1) then
     on_vbbm (VBBM.removeEntry lbid oldVerID);;
     on_vss (VSS.setVBFlag lbid oldVerID false)
   else mret tt);;
  on_vss (VSS.removeEntry lbid transID).

Fixpoint rollback_blocks (transID : Z) (lbidList : list Z) : prog tables (list Z) :=
  match lbidList with
  | [] => mret []
  | lbid :: l' =>
      fl ← rollback_block transID lbid;
      fl' ← rollback_blocks transID l';
      mret (fl ++ fl')
  end.

(** [vbRollback] of single blocks: the return code and the blocks to flush. *)
Definition vbRollback (transID : Z) (lbidList : list Z) : prog node (Z * list Z) :=
  try_catch
    (lock_vbbm;; lock_vss;; lock_copylocks;;
     on_cl (CopyLocks.rollback transID);;
     fl ← on_tabs (rollback_blocks transID lbidList);
     mret (0, fl))
    (fun _ => mret (-1, [])).

(** [vbRollback] of ranges visits their blocks in order. *)
Definition vbRollback_ranges (transID : Z) (lbidList : list LBIDRange)
    : prog node (Z * list Z) :=
  vbRollback transID (lbidList ≫= fun r => seqZ (r_start r) (r_size r)).

(** The handler of these two swallows the exception. *)
Definition ignore (_ : exn) : prog node unit := mret tt.

Definition confirmChanges : prog node unit :=
  try_catch
    (on_em em_confirmChanges;;
     l0 ← gets locked0;
     (if l0 : bool then vbbm Undoable.confirmChanges;; set_locked0 false else mret tt);;
     l1 ← gets locked1;
     (if l1 : bool then vss Undoable.confirmChanges;; set_locked1 false else mret tt);;
     l2 ← gets locked2;
     if l2 : bool then on_cl Undoable.confirmChanges;; set_locked2 false else mret tt)
    ignore.

Definition undoChanges : prog node unit :=
  try_catch
    (on_em em_undoChanges;;
     l0 ← gets locked0;
     (if l0 : bool then vbbm Undoable.undoChanges;; set_locked0 false else mret tt);;
     l1 ← gets locked1;
     (if l1 : bool then vss Undoable.undoChanges;; set_locked1 false else mret tt);;
     l2 ← gets locked2;
     if l2 : bool then on_cl Undoable.undoChanges;; set_locked2 false else mret tt)
    ignore.

(** ** The whole state *)

(** These take their locks for the duration of the call only. *)
Definition clear : prog node Z :=
  try_catch
    (vbbm (VBBM.lock VersionBufferFileSize);; vss VSS.lock;;
     vbbm (VBBM.clear VersionBufferFileSize);; vss VSS.clear;; mret 0)
    fail.

Definition checkConsistency : prog node Z :=
  try_catch
    (on_em em_checkConsistency;;
     vbbm (VBBM.lock VersionBufferFileSize);; vss VSS.lock;;
     on_tabs (reading (fun t => VSS_checkConsistency (image (t_vss t)) (image (t_vbbm t))));;
     on_tabs (reading (fun t => VBBM.checkConsistency (image (t_vbbm t))));;
     mret 0)
    fail.

(** [saveState]: the return code and the three files. *)
Definition saveState : prog node (Z * (list Z * list Z * list Z)) :=
  try_catch
    (vbbm (VBBM.lock VersionBufferFileSize);; vss VSS.lock;;
     emF ← on_em em_save;
     vbbmF ← reading (fun s => VBBM.save (image (t_vbbm (tabs s))));
     vssF ← reading (fun s => VSS.save (image (t_vss (tabs s))));
     mret (0, (emF, vbbmF, vssF)))
    (fun _ => mret (-1, ([], [], []))).

(** A load reads one file into one object. *)
Definition from_file {A B} (file : list Z) (p : prog (A * list Z) B) : prog A B := fun a =>
  let '(r, (a', _)) := p (a, file) in (r, a').

Definition loadState (emF vbbmF vssF : list Z) : prog node Z :=
  try_catch
    (vbbm (VBBM.lock VersionBufferFileSize);; vss VSS.lock;;
     on_em (from_file emF em_load);;
     vbbm (from_file vbbmF (VBBM.load VersionBufferFileSize repSize));;
     vss (from_file vssF VSS.load);;
     mret 0)
    fail.
End SlaveNode.
