(* ===== verification/SlaveExtents.v ===== *)
(** * The worker node's commands on extents: src/versioning/BRM/slavedbrmnode.cpp

    The extent map of ExtentMap.v as the worker node's, and the commands that
    change it.  Dropping a column also forgets the versions of its blocks.
    Every command catches all exceptions and returns an error code. *)
From Stdlib Require Import ZArith Lia.
From S2P Require Import Prelude Bytes Undoable Hasher HashChain BrmTypes VSS VBBM VersionBuffer.
From S2P Require Import CopyLocks ExtentMap ExtentAlloc ExtentDelete ExtentHWM ExtentImage SlaveNode.

Local Open Scope Z_scope.

(** ** The extent map as the node uses it *)

(** A query: the table is mapped, read and released. *)
Definition em_query {A} (f : em_image -> res A) : prog extent_map A :=
  grabEMEntryTable READ;; reading (fun s => f (image (em_und s))).

(** A query of both arrays. *)
Definition em_query_both {A} (f : em_image -> res A) : prog extent_map A :=
  grabEMEntryTable READ;; grabFreeList READ;; reading (fun s => f (image (em_und s))).

#[global] Instance extent_map_ops : ExtentMapOps extent_map := {|
  em_confirmChanges := em_confirm;
  em_undoChanges := em_undo;
  em_checkConsistency := em_query_both ExtentImage.checkConsistency;
  em_save := em_query_both ExtentImage.save;
  em_load := ExtentImage.load;
|}.

Abbreviation enode := (slave extent_map).

(** ** Return codes, brmtypes.h *)

Definition ERR_INVALID_OP_LAST_PARTITION : Z := 10.
Definition ERR_PARTITION_DISABLED : Z := 11.
Definition ERR_NOT_EXIST_PARTITION : Z := 12.
Definition ERR_PARTITION_ENABLED : Z := 13.
Definition ERR_NO_PARTITION_PERFORMED : Z := 16.
Definition ERR_INVALID_LAST_PARTITION : Z := 4001.

(** A command that only forwards: 0 and its outputs, or -1. *)
Definition forward {A} (p : prog extent_map A) : prog enode (Z * option A) :=
  try_catch (a ← on_em p; mret (0, Some a)) (fun _ => mret (-1, None)).
Definition forward_ (p : prog extent_map unit) : prog enode Z :=
  try_catch (on_em p;; mret 0) (fun _ => mret (-1)).

(** The codes that [catch (ERYDBExcept& iex)] translates; all others are -1. *)
Definition translate (codes : list (Z * Z)) (e : exn) : prog enode Z :=
  mret (match e with
        | ERYDBExcept rc =>
            match list_find (fun c : Z * Z => c.1 = rc) codes with
            | Some (_, (_, err)) => err
            | None => -1
            end
        | _ => -1
        end).
Definition forward_codes (codes : list (Z * Z)) (p : prog extent_map unit) : prog enode Z :=
  try_catch (on_em p;; mret 0) (translate codes).

(** ** Creating extents *)

Section Create.
(** The configuration. *)
Context (FILES_PER_COL_PART EXTENTS_PER_SEGFILE DBROOT_COUNT : Z).

Definition node_createStripeColumnExtents (cols : list StripeArg) (dbRoot : DBROOTS_struct)
    (part : Z) : prog enode (Z * option (list (Z * Z * Z) * Z * Z)) :=
  forward (createStripeColumnExtents FILES_PER_COL_PART EXTENTS_PER_SEGFILE DBROOT_COUNT
             cols dbRoot part).

Definition node_createColumnExtent_DBroot (oid colWidth : Z) (dbRoot : DBROOTS_struct)
    (t : ColDataType) (part : Z) : prog enode (Z * option (Z * Z * place)) :=
  forward (createColumnExtent_DBroot FILES_PER_COL_PART EXTENTS_PER_SEGFILE DBROOT_COUNT
             oid colWidth dbRoot t part true).
End Create.

Definition node_createColumnExtentExactFile (oid colWidth : Z) (dbRoot : DBROOTS_struct)
    (part seg : Z) (t : ColDataType) : prog enode (Z * option (Z * Z * Z)) :=
  forward (createColumnExtentExactFile oid colWidth dbRoot part seg t).

Definition node_createDictStoreExtent (oid : Z) (dbRoot : DBROOTS_struct) (part seg : Z)
    : prog enode (Z * option (Z * Z)) :=
  forward (createDictStoreExtent oid dbRoot part seg).

(** ** Deleting extents *)

Definition node_rollbackColumnExtents_DBroot (oid : Z) (bDeleteAll : bool)
    (dbRoot : DBROOTS_struct) (part seg hwm : Z) : prog enode Z :=
  forward_ (rollbackColumnExtents_DBroot oid bDeleteAll dbRoot part seg hwm).

Definition node_rollbackDictStoreExtents_DBroot (oid : Z) (dbRoot : DBROOTS_struct) (part : Z)
    (segNums hwms : list Z) : prog enode Z :=
  forward_ (rollbackDictStoreExtents_DBroot oid dbRoot part segNums hwms).

Definition node_deleteEmptyColExtents (infos : ExtentsInfoMap) : prog enode Z :=
  forward_ (deleteEmptyColExtents infos).

Definition node_deleteEmptyDictStoreExtents (infos : ExtentsInfoMap) : prog enode Z :=
  forward_ (deleteEmptyDictStoreExtents infos).

(** [lookup]: the ranges of an OID; a negative OID is refused before the table
    is grabbed. *)
Definition em_lookup (oid : Z) : prog extent_map (list LBIDRange) :=
  if decide (oid < 0) then throw InvalidArgument
  else em_query (fun m => lookup_ranges m oid).
Definition node_lookup (oid : Z) : prog enode (Z * option (list LBIDRange)) :=
  forward (em_lookup oid).

Section Drop.
(** The [VersionBuffer/VersionBufferFileSize] of the configuration. *)
Context (VersionBufferFileSize : option Z).

(** [vss.removeEntriesFromDB] of every range. *)
Definition forget_ranges (lbids : list LBIDRange) : prog enode unit :=
  for_each lbids (fun r => on_tabs (removeEntriesFromDB r true)).

Definition node_deleteOID (oid : Z) : prog enode Z :=
  try_catch
    (lock_vbbm VersionBufferFileSize;; lock_vss;;
     '(err, lbids) ← node_lookup oid;
     match lbids with
     | Some ((_ :: _) as lbids) =>
         forget_ranges lbids;; on_em (deleteOID oid);; mret 0
     | _ => mret (-1)
     end)
    fail.

(** The loop of [deleteOIDs]: false when a lookup has failed. *)
Fixpoint forget_oids (oids : list Z) : prog enode bool :=
  match oids with
  | [] => mret true
  | oid :: oids' =>
      '(err, lbids) ← node_lookup oid;
      match lbids with
      | Some lbids => forget_ranges lbids;; forget_oids oids'
      | None => mret false
      end
  end.

(** [OidsMap_t] maps every OID to itself. *)
Definition node_deleteOIDs (oids : gset Z) : prog enode Z :=
  try_catch
    (lock_vbbm VersionBufferFileSize;; lock_vss;;
     ok ← forget_oids (elements oids);
     if ok : bool then on_em (deleteOIDs oids);; mret 0 else mret (-1))
    fail.
End Drop.

(** ** High water marks and casual partitioning *)

Definition node_setLocalHWM (oid part seg hwm : Z) : prog enode Z :=
  forward_ (setLocalHWM oid part seg hwm true).

(** [if (transID) vbCommit(transID);] the result is not looked at. *)
Definition commit_first (transID : Z) : prog enode unit :=
  if decide (transID = 0) then mret tt else vbCommit transID;; mret tt.

Definition node_bulkSetHWM (args : list BulkSetHWMArg) (transID : Z) : prog enode Z :=
  try_catch (commit_first transID;; on_em (bulkSetHWM args);; mret 0) fail.

Record CPInfo := mkCPInfo { ci_firstLbid : Z; ci_cp : CPMaxMin }.
Record CPInfoMerge := mkCPInfoMerge { cm_startLbid : Z; cm_cp : CPMaxMinMerge }.

(** [map[k] = v] for each element: a later one replaces an earlier one. *)
Definition cp_map {A} (l : list (Z * A)) : gmap Z A :=
  foldl (fun mp kv => <[kv.1 := kv.2]> mp) ∅ l.

(** The table is grabbed by the first call that is made. *)
Fixpoint set_hwms (args : list BulkSetHWMArg) (firstCall : bool) : prog enode bool :=
  match args with
  | [] => mret firstCall
  | a :: args' =>
      on_em (setLocalHWM (bh_oid a) (bh_partNum a) (bh_segNum a) (bh_hwm a) firstCall);;
      set_hwms args' false
  end.

Definition node_bulkSetHWMAndCP (hwmArgs : list BulkSetHWMArg) (setArgs : list CPInfo)
    (mergeArgs : list CPInfoMerge) (transID : Z) : prog enode Z :=
  try_catch
    (commit_first transID;;
     firstCall ← set_hwms hwmArgs true;
     firstCall ←
       (if decide (setArgs = []) then mret firstCall
        else on_em (setExtentsMaxMin (cp_map (map (fun a => (ci_firstLbid a, ci_cp a)) setArgs))
                      firstCall);; mret false);
     (if decide (mergeArgs = []) then mret tt
      else on_em (mergeExtentsMaxMin
                    (cp_map (map (fun a => (cm_startLbid a, cm_cp a)) mergeArgs)) firstCall));;
     mret 0)
    fail.

Definition node_bulkUpdateDBRoot (args : list (Z * DBROOTS_struct)) : prog enode Z :=
  forward_ (bulkUpdateDBRoot args).

Definition node_markExtentInvalid (lbid : Z) (t : ColDataType) : prog enode Z :=
  forward_ (markInvalid lbid t).
Definition node_markExtentsInvalid (lbids : list (Z * ColDataType)) : prog enode Z :=
  forward_ (markInvalid_all lbids).
Definition node_setExtentMaxMin (lbid max min seqNum : Z) : prog enode Z :=
  forward_ (setMaxMin lbid max min seqNum).
Definition node_setExtentsMaxMin (cpMap : gmap Z CPMaxMin) : prog enode Z :=
  forward_ (setExtentsMaxMin cpMap true).
Definition node_mergeExtentsMaxMin (cpMap : gmap Z CPMaxMinMerge) : prog enode Z :=
  forward_ (mergeExtentsMaxMin cpMap true).

(** ** Partitions and DBRoots *)

Definition node_deletePartition (oids : gset Z) (parts : list LogicalPartition) : prog enode Z :=
  forward_codes [(ERR_PARTITION_NOT_EXIST, ERR_NOT_EXIST_PARTITION);
                 (ERR_INVALID_LAST_PARTITION, ERR_INVALID_OP_LAST_PARTITION);
                 (WARN_NO_PARTITION_PERFORMED, ERR_NO_PARTITION_PERFORMED)]
    (deletePartition oids parts).

Definition node_markPartitionForDeletion (oids : gset Z) (parts : list LogicalPartition)
    : prog enode Z :=
  forward_codes [(ERR_PARTITION_ALREADY_DISABLED, ERR_PARTITION_DISABLED);
                 (ERR_PARTITION_NOT_EXIST, ERR_NOT_EXIST_PARTITION);
                 (ERR_INVALID_LAST_PARTITION, ERR_INVALID_OP_LAST_PARTITION);
                 (WARN_NO_PARTITION_PERFORMED, ERR_NO_PARTITION_PERFORMED)]
    (markPartitionForDeletion oids parts).

Definition node_markAllPartitionForDeletion (oids : gset Z) : prog enode Z :=
  forward_codes [(ERR_PARTITION_ALREADY_DISABLED, ERR_PARTITION_DISABLED);
                 (ERR_PARTITION_NOT_EXIST, ERR_NOT_EXIST_PARTITION);
                 (ERR_INVALID_LAST_PARTITION, ERR_INVALID_OP_LAST_PARTITION)]
    (markAllPartitionForDeletion oids).

Definition node_restorePartition (oids : gset Z) (parts : list LogicalPartition) : prog enode Z :=
  forward_codes [(ERR_PARTITION_NOT_EXIST, ERR_NOT_EXIST_PARTITION);
                 (ERR_PARTITION_ALREADY_ENABLED, ERR_PARTITION_ENABLED);
                 (ERR_INVALID_LAST_PARTITION, ERR_INVALID_OP_LAST_PARTITION)]
    (restorePartition oids parts).

Definition node_deleteDBRoot (dbr : Z) : prog enode Z := forward_ (deleteDBRoot dbr).

(** [loadExtentMap] and [saveExtentMap] do not catch. *)
Definition node_loadExtentMap (file : list Z) : prog enode unit := on_em (from_file file em_load).
Definition node_saveExtentMap : prog enode (list Z) := on_em em_save.
