(* ===== verification/SlaveNodeProofs.v ===== *)
(** * Commands of the worker node

    A transaction's write of a block ([writeVBEntry]) keeps the two tables in
    agreement, a rollback takes it back, and locking a list of ranges ends
    with all of them locked. *)
From Stdlib Require Import ZArith Lia.
From S2P Require Import Prelude Bytes Undoable Hasher HashChain BrmTypes CopyLocks.
From S2P Require Import VBBM VBBMProofs VSS VSSProofs VSSQueries VersionBuffer VersionBufferProofs.
From S2P Require Import SlaveNode.

Local Open Scope Z_scope.

(** ** What the VSS says about a block *)

Section Queries.
Context (m : vss_seg) (Hwf : vss_wf m) (lbid : Z).

(** The entries of the block's list are its versions. *)
Lemma versions_walk {A R} (body : A -> Z -> VSSEntry -> A + R) acc :
  exists l, walk m lbid body acc = Ret (walk_entries body l acc) /\
    (forall i e, (i, e) ∈ l -> vs_lbid e = lbid ->
       vss_map m !! (lbid, vs_verID e) = Some (vs_vbFlag e, vs_locked e)) /\
    (forall v f k, vss_map m !! (lbid, v) = Some (f, k) ->
       exists i e, (i, e) ∈ l /\ vs_lbid e = lbid /\ vs_verID e = v /\
         vs_vbFlag e = f /\ vs_locked e = k).
Proof.
  destruct (tw_table _ (vw_table _ Hwf)) as [cs Hcs].
  destruct (walk_chain m cs lbid body acc (vw_table _ Hwf) Hcs) as (c & Hc & Hw).
  exists (chain_entries (storage m) c). split_and!; [done|..].
  - intros i e Hin Hl. destruct (bucket_sound _ _ _ _ _ _ Hcs Hc Hin) as [Hi Hu].
    rewrite <- Hl. apply (vss_map_stored m e); [apply Hwf|by exists i].
  - intros v f k Hm.
    apply vss_map_inv in Hm as (i & e & Hi & Hu & [= Hl Hv] & [= Hf Hlk]); [|apply Hwf].
    exists i, e. split_and!; try done. by eapply bucket_complete.
Qed.

(** [getCurrentVersion]: a version that is not in the version buffer. *)
Lemma getCurrentVersion_spec :
  exists v l, getCurrentVersion m lbid = Ret (v, l) /\
    (vss_map m !! (lbid, v) = Some (false, l) \/
     (v = 0 /\ l = false /\ forall v' k, vss_map m !! (lbid, v') <> Some (false, k))).
Proof.
  destruct (versions_walk (fun (_ : unit) _ e =>
      if bool_decide (vs_lbid e = lbid) && negb (vs_vbFlag e)
      then inr (vs_verID e, vs_locked e) else inl tt) tt) as (l & Hw & Hto & Hfrom).
  unfold getCurrentVersion. rewrite Hw, ret_bind.
  pose proof (walk_first (fun e => bool_decide (vs_lbid e = lbid) && negb (vs_vbFlag e))
    (fun e => (vs_verID e, vs_locked e)) l) as H.
  destruct (walk_entries _ _ _) as [u|p].
  - exists 0, false. split; [done|]. right. split_and!; [done|done|].
    intros v' k Hm. destruct (Hfrom _ _ _ Hm) as (i & e & Hin & Hl & _ & Hf & _).
    specialize (H i e Hin). rewrite bool_decide_eq_true_2, Hf in H by done. done.
  - destruct H as (i & e & Hin & Hp & ->). apply andb_true_iff in Hp as [Hl Hf].
    apply bool_decide_eq_true in Hl. apply negb_true_iff in Hf.
    exists (vs_verID e), (vs_locked e). split; [done|]. left. rewrite <- Hf. by eapply Hto.
Qed.

(** [getHighestVerInVB]: the newest version in the buffer up to [mx]. *)
Lemma getHighestVerInVB_spec mx :
  exists v, getHighestVerInVB m lbid mx = Ret v /\
    (forall v' k, vss_map m !! (lbid, v') = Some (true, k) -> v' <= mx -> v' <= v) /\
    (v = -1 \/ (v <= mx /\ exists k, vss_map m !! (lbid, v) = Some (true, k))).
Proof.
  set (body := fun ret (_ : Z) e =>
    if bool_decide (vs_lbid e = lbid) && vs_vbFlag e
       && bool_decide (vs_verID e <= mx) && bool_decide (vs_verID e > ret)
    then inl (vs_verID e) else (inl ret : Z + Empty_set)).
  destruct (versions_walk body (-1)) as (l & Hw & Hto & Hfrom).
  assert (Hloop : forall l' r0, exists r, walk_entries body l' r0 = inl r /\ r0 <= r /\
    (forall i e, (i, e) ∈ l' -> vs_lbid e = lbid -> vs_vbFlag e = true -> vs_verID e <= mx ->
       vs_verID e <= r) /\
    (r = r0 \/ exists i e, (i, e) ∈ l' /\ vs_lbid e = lbid /\ vs_vbFlag e = true /\
       vs_verID e <= mx /\ vs_verID e = r)).
  { induction l' as [|[i e] l' IH]; intros r0.
    { exists r0. split_and!; [done|lia|by intros i e ?%elem_of_nil|by left]. }
    cbn [walk_entries]. unfold body at 1.
    destruct (bool_decide (vs_lbid e = lbid) && vs_vbFlag e
       && bool_decide (vs_verID e <= mx) && bool_decide (vs_verID e > r0)) eqn:Hb.
    - rewrite !andb_true_iff, !bool_decide_eq_true in Hb. destruct Hb as [[[Hl Hf] Hle] Hgt].
      destruct (IH (vs_verID e)) as (r & -> & Hr & Hmax & Hex). exists r. split_and!; [done|lia|..].
      + intros j ej [[= -> ->]|Hin]%elem_of_cons; [lia|by eapply Hmax].
      + right. destruct Hex as [->|(j & ej & Hin & ?)].
        * exists i, e. split; [left|done].
        * exists j, ej. split; [by right|done].
    - destruct (IH r0) as (r & -> & Hr & Hmax & Hex). exists r. split_and!; [done|lia|..].
      + intros j ej [[= -> ->]|Hin]%elem_of_cons Hl Hf Hle; [|by eapply Hmax].
        rewrite !andb_false_iff, !bool_decide_eq_false in Hb.
        destruct Hb as [[[?|?]|?]|?]; [done|congruence|lia|lia].
      + destruct Hex as [->|(j & ej & Hin & ?)]; [by left|right].
        exists j, ej. split; [by right|done]. }
  destruct (Hloop l (-1)) as (r & Hr & Hge & Hmax & Hex).
  exists r. unfold getHighestVerInVB. fold body. rewrite Hw, ret_bind, Hr. split_and!; [done|..].
  - intros v' k Hm Hle. destruct (Hfrom _ _ _ Hm) as (i & e & Hin & Hl & <- & Hf & _). eauto.
  - destruct Hex as [->|(i & e & Hin & Hl & Hf & Hle & <-)]; [by left|right].
    split; [done|]. exists (vs_locked e). rewrite <- Hf. by eapply Hto.
Qed.
End Queries.

(** ** The versions of a block *)

(** One version of every known block is the current one, the newest, and it
    is not in the version buffer; version 0 stands for "never written". *)
Record versions_wf (M : gmap (Z * Z) (bool * bool)) : Prop := {
  ve_one l v1 k1 v2 k2 : M !! (l, v1) = Some (false, k1) -> M !! (l, v2) = Some (false, k2) -> v1 = v2;
  ve_pos l v k : M !! (l, v) = Some (false, k) -> 0 < v;
  ve_newest l v f : M !! (l, v) = Some f -> exists v' k, M !! (l, v') = Some (false, k) /\ v <= v';
}.

(** The current version of a block: 0 when nothing is known about it. *)
Definition current (M : gmap (Z * Z) (bool * bool)) (l v : Z) (k : bool) : Prop :=
  M !! (l, v) = Some (false, k) \/ (v = 0 /\ k = false /\ forall v', M !! (l, v') = None).

Lemma current_unique M l v1 k1 v2 k2 : versions_wf M ->
  current M l v1 k1 -> current M l v2 k2 -> v1 = v2 /\ k1 = k2.
Proof.
  intros HM [H1|(-> & -> & H1)] [H2|(-> & -> & H2)]; [|congruence..|done].
  assert (v1 = v2) as -> by (by eapply ve_one). by simplify_eq.
Qed.

Lemma current_read m l v k : vss_wf m -> versions_wf (vss_map m) -> current (vss_map m) l v k ->
  getCurrentVersion m l = Ret (v, k).
Proof.
  intros Hwf HM Hc. destruct (getCurrentVersion_spec m Hwf l) as (v' & k' & -> & Hc').
  assert (H : current (vss_map m) l v' k').
  { destruct Hc' as [?|(-> & -> & Hn)]; [by left|right]. split_and!; [done|done|].
    intros v''. destruct (vss_map m !! (l, v'')) as [f|] eqn:Hf; [|done].
    destruct (ve_newest _ HM _ _ _ Hf) as (? & ? & ? & _). by eapply Hn in H. }
  by destruct (current_unique _ _ _ _ _ _ HM Hc H) as [-> ->].
Qed.

Lemma current_bounds M l v k : versions_wf M -> current M l v k ->
  0 <= v /\ forall v' f, M !! (l, v') = Some f -> v' <= v.
Proof.
  intros HM [Hc|(-> & -> & Hn)]; [|by split; [|intros v' f; rewrite Hn]].
  split; [pose proof (ve_pos _ HM _ _ _ Hc); lia|]. intros v' f Hf.
  destruct (ve_newest _ HM _ _ _ Hf) as (v'' & k' & Hc' & Hle).
  by rewrite (ve_one _ HM _ _ _ _ _ Hc Hc').
Qed.

(** What a write of block [l] by transaction [trans] does to the versions. *)
Definition vss_write (l old trans : Z) (M : gmap (Z * Z) (bool * bool)) :
    gmap (Z * Z) (bool * bool) :=
  <[(l, trans) := (false, true)]> (<[(l, old) := (true, false)]> M).

Lemma vss_write_lookup l old trans M l' v : old <> trans ->
  vss_write l old trans M !! (l', v) =
  if decide (l' = l) then
    if decide (v = trans) then Some (false, true)
    else if decide (v = old) then Some (true, false) else M !! (l', v)
  else M !! (l', v).
Proof.
  intros Hne. unfold vss_write. destruct (decide (l' = l)) as [->|Hl].
  - destruct (decide (v = trans)) as [->|Ht]; [by rewrite lookup_insert_eq|].
    rewrite lookup_insert_ne by congruence. destruct (decide (v = old)) as [->|Ho];
      [by rewrite lookup_insert_eq|]. by rewrite lookup_insert_ne by congruence.
  - by rewrite !lookup_insert_ne by congruence.
Qed.

Lemma vss_write_wf l old trans M : versions_wf M -> current M l old false -> old < trans ->
  versions_wf (vss_write l old trans M).
Proof.
  intros HM Hc Hlt. destruct (current_bounds M l old false HM Hc) as [Hpos Hmax].
  assert (Hun : forall v k, v <> trans -> v <> old -> M !! (l, v) <> Some (false, k)).
  { intros v k _ Hv Hm. destruct Hc as [Hc|(_ & _ & Hn)]; [|by rewrite Hn in Hm].
    by destruct (ve_one _ HM _ _ _ _ _ Hc Hm). }
  split.
  - intros l' v1 k1 v2 k2. rewrite !vss_write_lookup by lia.
    destruct (decide (l' = l)) as [->|]; [|apply (ve_one _ HM)].
    repeat case_decide; try congruence; intros Hx Hy;
      first [by apply Hun in Hx|by apply Hun in Hy].
  - intros l' v k. rewrite vss_write_lookup by lia.
    destruct (decide (l' = l)) as [->|]; [|apply (ve_pos _ HM)].
    repeat case_decide; intros Hx; [lia|congruence|by apply Hun in Hx].
  - intros l' v f. rewrite vss_write_lookup by lia. destruct (decide (l' = l)) as [->|Hl].
    + intros Hf. exists trans, true. rewrite vss_write_lookup, !decide_True by (done || lia).
      split; [done|]. repeat case_decide; [lia|lia|]. apply Hmax in Hf. lia.
    + intros Hf. destruct (ve_newest _ HM _ _ _ Hf) as (v' & k & Hm & Hle). exists v', k.
      by rewrite vss_write_lookup, decide_False by (done || lia).
Qed.

(** ** [writeVBEntry] *)

Lemma on_vss_run {A} (p : prog vss_obj A) v b r v' : p v = (r, v') ->
  on_vss p (mkTables v b) = (r, mkTables v' b).
Proof. intros H. unfold on_vss, zoom. cbn [t_vss]. by rewrite H. Qed.
Lemma on_vbbm_run {A} (p : prog vbbm_obj A) v b r b' : p b = (r, b') ->
  on_vbbm p (mkTables v b) = (r, mkTables v b').
Proof. intros H. unfold on_vbbm, zoom. cbn [t_vbbm]. by rewrite H. Qed.

(** The place of a copy on one DBRoot. *)
Definition place_at (idx oid fbo : Z) : DBROOTS_struct * FBO_struct :=
  (mkRoots (wr [0; 0; 0; 0] idx (u16 oid)), mkFbo (wr [0; 0; 0; 0] idx (u32 fbo))).

Lemma place_at_run idx oid fbo : 0 <= idx < 4 ->
  roots_set DBROOTS_zero idx oid = Ret (place_at idx oid fbo).1 /\
  fbo_set FBO_zero idx fbo = Ret (place_at idx oid fbo).2.
Proof.
  intros Hi. assert (Hr : forall l : list Z, length l = 4%nat -> exists x, rd l idx = Ret x).
  { intros l Hl. apply in_range_rd, in_range_true. lia. }
  destruct (Hr [0; 0; 0; 0] eq_refl) as [x Hx].
  unfold roots_set, fbo_set. cbn [dbRoots fbos DBROOTS_zero FBO_zero]. by rewrite Hx, !ret_bind.
Qed.

Lemma Forall_wr {A} (P : A -> Prop) l i x : Forall P l -> P x -> Forall P (wr l i x).
Proof. intros Hl Hx. unfold wr. case_decide; [by apply Forall_insert|done]. Qed.

Lemma place_at_shaped idx oid fbo l v n :
  shaped (mkVBBMEntry l (place_at idx oid fbo).1 (place_at idx oid fbo).2 v n).
Proof.
  split; (split; cbn; [by rewrite length_wr|]); apply Forall_wr;
    [by repeat constructor|apply u16_range|by repeat constructor|apply u32_range].
Qed.

(** The VSS part of a write: the old version is flagged, or added when the
    block has none, and the new one added. *)
Lemma vss_write_run m log l old trans : vss_wf m -> mapped m -> versions_wf (vss_map m) ->
  current (vss_map m) l old false -> old < trans -> 0 <= l ->
  currentSize m + 2 <= capacity m ->
  exists m' log',
    ((if decide (old > 0) then VSS.setVBFlag l old true else VSS.insert l old true false false);;
     VSS.insert l trans false true false) (mkUndoable m log) = (Ret tt, mkUndoable m' log') /\
    vss_wf m' /\ mapped m' /\ vss_map m' = vss_write l old trans (vss_map m) /\
    undoes_to (mkUndoable m log) (mkUndoable m' log').
Proof.
  intros Hwf Hm HM Hc Hlt Hl Hroom. destruct (current_bounds _ _ _ _ HM Hc) as [Hpos Hmax].
  assert (Hstep : exists m1 log1,
    (if decide (old > 0) then VSS.setVBFlag l old true else VSS.insert l old true false false)
      (mkUndoable m log) = (Ret tt, mkUndoable m1 log1) /\ vss_wf m1 /\ mapped m1 /\
    vss_map m1 = <[(l, old) := (true, false)]> (vss_map m) /\ currentSize m1 < capacity m1 /\
    undoes_to (mkUndoable m log) (mkUndoable m1 log1)).
  { case_decide as Hd.
    - destruct Hc as [Hc|(-> & _)]; [|lia].
      pose proof (setVBFlag_spec m log l old true Hwf) as H. rewrite Hc in H.
      destruct H as (m1 & log1 & H1 & H2 & H3 & H4 & _ & H6 & H7).
      exists m1, log1. split_and!; auto; [lia|].
      pose proof (undo_safe_step _ (mkUndoable m log) (setVBFlag_undo_safe [] l old true)) as Hu.
      by rewrite H1 in Hu.
    - destruct Hc as [Hc|(-> & _ & Hn)]; [apply (ve_pos _ HM) in Hc; lia|].
      destruct (vss_insert_room m log l 0 true false false Hwf Hm) as (m1 & log1 & H1 & H2 & H3 & H4 & H5 & H6);
        [lia|done|done|]. exists m1, log1. split_and!; auto; [lia|].
      pose proof (vss_insert_undoes_to l 0 true false (mkUndoable m log) ltac:(cbn; lia)) as Hu.
      by rewrite H1 in Hu. }
  destruct Hstep as (m1 & log1 & Hrun1 & Hwf1 & Hm1 & Hmap1 & Hroom1 & Hu1).
  destruct (vss_insert_room m1 log1 l trans false true false Hwf1 Hm1 Hroom1 Hl)
    as (m2 & log2 & Hrun2 & Hwf2 & Hm2 & Hmap2 & _).
  { rewrite Hmap1, lookup_insert_ne by (intros [=]; lia).
    destruct (vss_map m !! (l, trans)) as [f|] eqn:Hf; [|done]. apply Hmax in Hf. lia. }
  exists m2, log2. split_and!; try done.
  - by erewrite bind_Ret by exact Hrun1.
  - by rewrite Hmap2, Hmap1.
  - pose proof (vss_insert_undoes_to l trans false true (mkUndoable m1 log1) ltac:(cbn; lia)) as Hu.
    rewrite Hrun2 in Hu. by etrans.
Qed.

Section Write.
Context (cfg : option Z).

Definition vss_seg_of (t : tables) := image (t_vss t).
Definition vbbm_seg_of (t : tables) := image (t_vbbm t).

(** Both segments are mapped and need not grow for one more write. *)
Record has_room (t : tables) : Prop := {
  hr_vss : mapped (vss_seg_of t);
  hr_vbbm : VBBMProofs.mapped (vbbm_seg_of t);
  hr_vss_room : currentSize (vss_seg_of t) + 2 <= capacity (vss_seg_of t);
  hr_vbbm_room : vbCurrentSize (vbbm_seg_of t) < vbCapacity (vbbm_seg_of t);
}.

Lemma write_run t trans l idx oid fbo old : tables_wf t -> versions_wf (vss_of t) ->
  has_room t -> current (vss_of t) l old false -> old < trans -> 0 <= l -> 0 <= idx < 4 ->
  exists t', writeVBEntry_body cfg trans l idx oid fbo t = (Ret 0, t') /\
    tables_wf t' /\ versions_wf (vss_of t') /\
    VBBMProofs.mapped (vbbm_seg_of t') /\ mapped (vss_seg_of t') /\
    vss_of t' = vss_write l old trans (vss_of t) /\
    vbbm_of t' = <[(l, old) := place_at idx oid fbo]> (vbbm_of t) /\
    undoes_to (t_vss t) (t_vss t') /\ undoes_to (t_vbbm t) (t_vbbm t').
Proof.
  intros Ht HM [Hr1 Hr2 Hr3 Hr4] Hc Hlt Hl Hidx.
  destruct (current_bounds _ _ _ _ HM Hc) as [Hpos Hmax].
  destruct t as [[vm vlog] [bm blog]]. unfold vss_of, vbbm_of, vss_seg_of, vbbm_seg_of in *.
  cbn [t_vss t_vbbm image] in *. pose proof Ht as [T1 T2 T3 T4 T5 T6].
  unfold vss_of, vbbm_of in *. cbn [t_vss t_vbbm image] in *.
  assert (Hnew : vbbm_map bm !! (l, old) = None).
  { apply eq_None_not_Some. intros Hs. apply T4 in Hs as [k Hk].
    destruct Hc as [Hc|(_ & _ & Hn)]; [congruence|by rewrite Hn in Hk]. }
  destruct (insert_room cfg bm blog l old (place_at idx oid fbo).1 (place_at idx oid fbo).2 false
    T2 Hr2 Hr4 Hl Hnew) as (bm' & blog' & Hbrun & Hbwf & Hbm & Hbmap & _ & i & z & Hst).
  destruct (vss_write_run vm vlog l old trans T1 Hr1 HM Hc Hlt Hl Hr3)
    as (vm' & vlog' & Hvrun & Hvwf & Hvm & Hvmap & Hvu).
  exists (mkTables (mkUndoable vm' vlog') (mkUndoable bm' blog')). cbn [t_vss t_vbbm image].
  split_and!; [| | |done|done|done|by rewrite Hbmap|done|].
  4: { pose proof (insert_undoes_to cfg l old (place_at idx oid fbo).1 (place_at idx oid fbo).2
         (mkUndoable bm blog) ltac:(cbn; lia)) as Hu. by rewrite Hbrun in Hu. }
  - unfold writeVBEntry_body.
    erewrite bind_reading by (cbn [t_vss image]; by apply current_read). cbv beta iota.
    rewrite decide_False by lia. rewrite decide_False by lia.
    destruct (place_at_run idx oid fbo Hidx) as [Ho Hf].
    erewrite bind_reading by exact Ho. erewrite bind_reading by exact Hf.
    erewrite bind_Ret by (apply on_vbbm_run; exact Hbrun).
    apply bind_inv in Hvrun as ([] & v1 & Hs1 & Hs2).
    assert (Hs : (if decide (old > 0) then on_vss (VSS.setVBFlag l old true)
                  else on_vss (VSS.insert l old true false false))
      (mkTables (mkUndoable vm vlog) (mkUndoable bm' blog'))
      = (Ret tt, mkTables v1 (mkUndoable bm' blog'))).
    { destruct (decide (old > 0)); by apply on_vss_run. }
    erewrite bind_Ret by exact Hs.
    by erewrite bind_Ret by (apply on_vss_run; exact Hs2).
  - clear Hvrun Hbrun. split; unfold vss_of, vbbm_of; cbn [t_vss t_vbbm image]; try done.
    + intros j ej Hj. rewrite Hst in Hj. apply list_lookup_insert_Some in Hj as [(_ & <- & _)|[_ Hj]].
      * apply place_at_shaped.
      * by eapply T3.
    + intros [l' v]. rewrite Hbmap, Hvmap, vss_write_lookup by lia.
      destruct (decide (l' = l)) as [->|Hne].
      * destruct (decide (v = old)) as [->|Ho].
        { rewrite lookup_insert_eq, decide_False by lia. split; [by exists false|by eexists]. }
        rewrite lookup_insert_ne by congruence. case_decide as Hv; [|exact (T4 (l, v))].
        subst v. split; [|by intros [? [=]]]. intros Hs. apply T4 in Hs as [k Hk].
        apply Hmax in Hk. lia.
      * rewrite lookup_insert_ne by congruence. exact (T4 (l', v)).
    + intros [l' v]. rewrite Hvmap, vss_write_lookup by lia. repeat case_decide; try done; apply T5.
    + intros [l' v] f. rewrite Hvmap, vss_write_lookup by lia. cbn [fst snd].
      repeat case_decide; try (intros _; subst; lia); apply T6.
  - rewrite Hvmap. by apply vss_write_wf.
Qed.
End Write.

(** ** Rolling a block back *)

Section Rollback.
Implicit Types (M : gmap (Z * Z) (bool * bool)).

(** The version a rollback of [l] by [trans] restores; -1 if there is none. *)
Definition restored M (l trans old : Z) : Prop :=
  (old = -1 /\ forall v k, M !! (l, v) <> Some (true, k)) \/
  (0 <= old < trans /\ M !! (l, old) = Some (true, false) /\
   forall v k, M !! (l, v) = Some (true, k) -> v <= old).

(** The versions just before the transaction's own is removed ... *)
Definition unflag (l old : Z) M : gmap (Z * Z) (bool * bool) :=
  if decide (old = -1) then M else <[(l, old) := (false, false)]> M.
(** ... and after. *)
Definition vss_rollback (l trans old : Z) M := vss_remove l trans (unflag l old M).

Context M (l trans old : Z).
Context (HM : versions_wf M) (Hcur : M !! (l, trans) = Some (false, true)).
Context (Hres : restored M l trans old) (Hnn : forall k f, M !! k = Some f -> 0 <= k.2).

Lemma old_ne_trans : old <> trans.
Proof. destruct Hres as [[-> _]|[? _]]; [|lia]. pose proof (ve_pos _ HM _ _ _ Hcur). lia. Qed.

Lemma unflag_trans : unflag l old M !! (l, trans) = Some (false, true).
Proof.
  unfold unflag. case_decide; [done|]. rewrite lookup_insert_ne; [done|].
  pose proof old_ne_trans. congruence.
Qed.

(** The versions of [l] other than [old] and [trans] are in the buffer and
    older than [old]. *)
Lemma other_versions v f : v <> trans -> v <> old -> M !! (l, v) = Some f ->
  f.1 = true /\ 0 <= v < old.
Proof.
  intros Hv Ho Hm. destruct f as [[] k].
  - split; [done|]. specialize (Hnn _ _ Hm). cbn in Hnn.
    destruct Hres as [[-> Hn]|(Hb & _ & Hmax)]; [by destruct (Hn v k)|].
    specialize (Hmax _ _ Hm). lia.
  - by destruct (ve_one _ HM _ _ _ _ _ Hcur Hm).
Qed.

Lemma vss_rollback_lookup l' v :
  (vss_rollback l trans old M).2 !! (l', v) =
  if decide (l' = l) then
    if decide (v = trans) then None
    else if decide (still_needed l (delete (l, trans) (unflag l old M)))
         then unflag l old M !! (l, v) else None
  else M !! (l', v).
Proof.
  unfold vss_rollback, vss_remove. rewrite unflag_trans. cbv zeta.
  destruct (decide (l' = l)) as [->|Hl].
  - destruct (decide (v = trans)) as [->|Hv].
    + destruct (decide (still_needed _ _)); cbn [snd]; [by rewrite lookup_delete_eq|].
      unfold forget. apply map_lookup_filter_None. left. by rewrite lookup_delete_eq.
    + destruct (decide (still_needed _ _)); cbn [snd].
      * by rewrite lookup_delete_ne by congruence.
      * unfold forget. apply map_lookup_filter_None. right. by intros x _ Hx.
  - assert (Hsame : delete (l, trans) (unflag l old M) !! (l', v) = M !! (l', v)).
    { rewrite lookup_delete_ne by congruence. unfold unflag. case_decide; [done|].
      by rewrite lookup_insert_ne by congruence. }
    destruct (decide (still_needed _ _)); cbn [snd]; [done|].
    unfold forget. destruct (M !! (l', v)) as [f|] eqn:Hm.
    + apply map_lookup_filter_Some. by split; [rewrite Hsame|].
    + apply map_lookup_filter_None. left. by rewrite Hsame.
Qed.

Lemma needed_old : still_needed l (delete (l, trans) (unflag l old M)) -> 0 < old.
Proof.
  intros ([l' v] & f & Hf & Hl & Hb). cbn in Hl. subst l'.
  apply lookup_delete_Some in Hf as [Hne Hf].
  assert (Hv : v <> trans) by congruence. unfold unflag in Hf.
  destruct (decide (v = old)) as [->|Ho].
  - destruct (decide (old = -1)) as [->|Hn].
    + apply Hnn in Hf. cbn in Hf. lia.
    + rewrite lookup_insert_eq in Hf. by simplify_eq.
  - assert (Hm : M !! (l, v) = Some f).
    { case_decide; [done|]. by rewrite lookup_insert_ne in Hf by congruence. }
    apply other_versions in Hm as [_ ?]; [lia|done|done].
Qed.

Lemma vss_rollback_wf : versions_wf (vss_rollback l trans old M).2.
Proof.
  assert (Hlk : forall v f, (vss_rollback l trans old M).2 !! (l, v) = Some f ->
    0 < old /\ (v = old /\ f = (false, false) \/ v < old /\ f.1 = true) /\
    (vss_rollback l trans old M).2 !! (l, old) = Some (false, false)).
  { intros v f Hf. rewrite vss_rollback_lookup, decide_True in Hf by done.
    destruct (decide (v = trans)) as [|Hv]; [done|].
    destruct (decide (still_needed _ _)) as [Hneed|]; [|done].
    pose proof (needed_old Hneed) as Hpos. split_and!; [done| |].
    - unfold unflag in Hf. rewrite decide_False in Hf by lia.
      destruct (decide (v = old)) as [->|Ho].
      + rewrite lookup_insert_eq in Hf. left. by simplify_eq.
      + rewrite lookup_insert_ne in Hf by congruence.
        apply other_versions in Hf as [? ?]; [right; split; [lia|done]|done|done].
    - rewrite vss_rollback_lookup, decide_True by done.
      rewrite decide_False by apply old_ne_trans. rewrite decide_True by done.
      unfold unflag. rewrite decide_False by lia. apply lookup_insert_eq. }
  assert (Hother : forall l' v, l' <> l -> (vss_rollback l trans old M).2 !! (l', v) = M !! (l', v)).
  { intros l' v Hl. by rewrite vss_rollback_lookup, decide_False. }
  split.
  - intros l' v1 k1 v2 k2. destruct (decide (l' = l)) as [->|Hl].
    + intros H1%Hlk H2%Hlk. destruct H1 as (_ & [[-> _]|[_ ?]] & _); [|done].
      by destruct H2 as (_ & [[-> _]|[_ ?]] & _).
    + rewrite !Hother by done. apply (ve_one _ HM).
  - intros l' v k. destruct (decide (l' = l)) as [->|Hl].
    + intros H1%Hlk. by destruct H1 as (? & [[-> _]|[_ ?]] & _).
    + rewrite !Hother by done. apply (ve_pos _ HM).
  - intros l' v f. destruct (decide (l' = l)) as [->|Hl].
    + intros H1%Hlk. destruct H1 as (? & Hv & Hold). exists old, false. split; [done|].
      destruct Hv as [[-> _]|[? _]]; lia.
    + rewrite Hother by done. intros Hf.
      destruct (ve_newest _ HM _ _ _ Hf) as (v' & k & Hm & ?). exists v', k. by rewrite Hother.
Qed.
End Rollback.

Lemma restored_highest t l trans : tables_wf t -> versions_wf (vss_of t) ->
  vss_of t !! (l, trans) = Some (false, true) ->
  exists old, getHighestVerInVB (image (t_vss t)) l trans = Ret old /\ restored (vss_of t) l trans old.
Proof.
  intros Ht HM Hcur.
  destruct (getHighestVerInVB_spec _ (tb_vss _ Ht) l trans) as (old & Hr & Hmax & Hex).
  exists old. split; [done|].
  assert (Hle : forall v f, vss_of t !! (l, v) = Some f -> v <= trans).
  { intros v f Hf. destruct (ve_newest _ HM _ _ _ Hf) as (v' & k & Hm & ?).
    by rewrite (ve_one _ HM _ _ _ _ _ Hcur Hm). }
  destruct Hex as [->|(Hlt & k & Hk)]; [left|right].
  - split; [done|]. intros v k Hk. pose proof (Hle _ _ Hk).
    specialize (Hmax _ _ Hk ltac:(done)). apply (tb_versions _ Ht) in Hk as [_ Hk]. cbn in Hk. lia.
  - assert (old <> trans) by (intros ->; unfold vss_of in Hcur; congruence).
    pose proof (tb_versions _ Ht _ _ Hk) as [_ Hk0]. cbn in Hk0.
    split_and!; [lia|lia| |].
    + destruct k; [by destruct (tb_unlocked _ Ht _ Hk)|done].
    + intros v k' Hk'. eapply Hmax; [done|]. by eapply Hle.
Qed.

(** [rollback_block]: the restored version is the block's current one again,
    or the block is forgotten when no version of it is needed. *)
Lemma rollback_block_run t l trans : tables_wf t -> versions_wf (vss_of t) ->
  vss_of t !! (l, trans) = Some (false, true) ->
  exists old t', restored (vss_of t) l trans old /\
    rollback_block trans l t = (Ret (vss_rollback l trans old (vss_of t)).1, t') /\
    tables_wf t' /\ versions_wf (vss_of t') /\
    vss_of t' = (vss_rollback l trans old (vss_of t)).2 /\
    vbbm_of t' = delete (l, old) (vbbm_of t).
Proof.
  intros Ht HM Hcur. destruct (restored_highest t l trans Ht HM Hcur) as (old & Hr & Hres).
  exists old. pose proof (old_ne_trans _ _ _ _ HM Hcur Hres) as Hne.
  pose proof (fun k f H => proj2 (tb_versions _ Ht k f H)) as Hnn.
  pose proof (vss_rollback_wf _ _ _ _ HM Hcur Hres Hnn) as HM'.
  destruct t as [[vm vlog] [bm blog]]. pose proof Ht as [T1 T2 T3 T4 T5 T6].
  unfold vss_of, vbbm_of in *. cbn [t_vss t_vbbm image] in *.
  assert (Hmid : exists vm1 vlog1 bm1 blog1,
    (if decide (old <> -1) then
       on_vbbm (VBBM.removeEntry l old);; on_vss (VSS.setVBFlag l old false)
     else mret tt) (mkTables (mkUndoable vm vlog) (mkUndoable bm blog))
      = (Ret tt, mkTables (mkUndoable vm1 vlog1) (mkUndoable bm1 blog1)) /\
    vss_wf vm1 /\ vbbm_wf bm1 /\ vss_map vm1 = unflag l old (vss_map vm) /\
    vbbm_map bm1 = delete (l, old) (vbbm_map bm) /\
    (forall j ej, VBBM.storage bm1 !! j = Some ej -> shaped ej)).
  { unfold unflag. destruct (decide (old = -1)) as [->|Ho].
    - rewrite decide_False by auto. exists vm, vlog, bm, blog. split_and!; try done.
      symmetry. apply delete_id. apply eq_None_not_Some. intros Hs. apply T4 in Hs as [k Hk].
      apply Hnn in Hk. cbn in Hk. lia.
    - rewrite decide_True by done. destruct Hres as [[? _]|(_ & Hold & _)]; [done|].
      destruct (vbbm_removeEntry_spec bm blog l old T2)
        as (bm1 & blog1 & Hb1 & Hb2 & Hb3 & _ & _ & _ & _ & _ & Hslots).
      pose proof (setVBFlag_spec vm vlog l old false T1) as Hs. rewrite Hold in Hs.
      destruct Hs as (vm1 & vlog1 & Hv1 & Hv2 & Hv3 & _).
      exists vm1, vlog1, bm1, blog1. split_and!; try done.
      + erewrite bind_Ret by (apply on_vbbm_run; exact Hb1). by apply on_vss_run.
      + intros j ej Hj. destruct (Hslots j ej Hj) as (ej' & Hj' & [= E1 E2] & _).
        unfold shaped. rewrite E1, E2. by eapply T3. }
  destruct Hmid as (vm1 & vlog1 & bm1 & blog1 & Hrun1 & Hv1 & Hb1 & Hvm1 & Hbm1 & Hsh1).
  destruct (removeEntry_spec vm1 vlog1 l trans Hv1) as (vm2 & vlog2 & Hrun2 & Hv2 & Hvm2 & _).
  rewrite Hvm1 in Hrun2, Hvm2. fold (vss_rollback l trans old (vss_map vm)) in Hrun2, Hvm2.
  exists (mkTables (mkUndoable vm2 vlog2) (mkUndoable bm1 blog1)). cbn [t_vss t_vbbm image].
  rewrite Hvm2. split_and!; try done.
  - unfold rollback_block. erewrite bind_reading by exact Hr.
    erewrite bind_Ret by exact Hrun1. by apply on_vss_run.
  - assert (Hback : forall k f, (vss_rollback l trans old (vss_map vm)).2 !! k = Some f ->
      unflag l old (vss_map vm) !! k = Some f) by (by intros k f [? _]%vss_remove_sub).
    assert (Hkeep : forall k b, (vss_rollback l trans old (vss_map vm)).2 !! k = Some (true, b) <->
      k <> (l, old) /\ vss_map vm !! k = Some (true, b)).
    { intros k b. unfold vss_rollback. destruct (decide (k = (l, trans))) as [->|Hk].
      { split; [|intros [_ ?]; congruence]. intros [_ Hx]%vss_remove_sub. destruct Hx; [|done].
        rewrite (unflag_trans _ _ _ _ HM Hcur Hres). done. }
      rewrite vss_remove_other by done. unfold unflag. destruct (decide (old = -1)) as [->|Ho].
      - split; [|by intros [_ ?]]. intros Hx. split; [|done]. intros ->. apply Hnn in Hx. cbn in Hx. lia.
      - destruct (decide (k = (l, old))) as [->|Hk'].
        + rewrite lookup_insert_eq. split; [by intros [=]|by intros [? _]].
        + rewrite lookup_insert_ne by done. split; [done|by intros [_ ?]]. }
    clear Hrun1 Hrun2. split; unfold vss_of, vbbm_of; cbn [t_vss t_vbbm image]; rewrite ?Hvm2, ?Hbm1; try done.
    + intros k. destruct (decide (k = (l, old))) as [->|Hk].
      * rewrite lookup_delete_eq. split; [by intros []|]. intros [b [? _]%Hkeep]. done.
      * rewrite lookup_delete_ne by done. etrans; [exact (T4 k)|].
        split; intros [b Hb]; exists b; [by apply Hkeep|by apply Hkeep in Hb as [_ ?]].
    + intros k [_ Hk]%Hkeep. by apply (T5 k).
    + intros k f Hk%Hback. unfold unflag in Hk. case_decide; [by apply (T6 k f)|].
      apply lookup_insert_Some in Hk as [[<- _]|[_ Hk]]; [|by apply (T6 k f)].
      destruct Hres as [[? _]|(_ & Hold & _)]; [done|]. by apply (T6 _ _ Hold).
Qed.

(** A block that is written and rolled back. *)
Lemma write_rollback M l old trans : versions_wf M -> current M l old false -> old < trans ->
  (forall k f, M !! k = Some f -> 0 <= k.2) ->
  restored (vss_write l old trans M) l trans old /\
  (vss_rollback l trans old (vss_write l old trans M)).2
  = if decide (still_needed l M) then M else forget l M.
Proof.
  intros HM Hc Hlt Hnn. destruct (current_bounds _ _ _ _ HM Hc) as [Hpos Hmax].
  assert (Hw : forall v, vss_write l old trans M !! (l, v) = if decide (v = trans) then Some (false, true)
    else if decide (v = old) then Some (true, false) else M !! (l, v)).
  { intros v. by rewrite vss_write_lookup, decide_True by (done || lia). }
  split.
  { right. split_and!; [done|done| |].
    - by rewrite Hw, decide_False, decide_True by lia.
    - intros v k. rewrite Hw. repeat case_decide; try done; [lia|]. apply Hmax. }
  unfold vss_rollback, vss_remove, unflag. rewrite decide_False by lia.
  rewrite lookup_insert_ne by (intros [=]; lia). rewrite Hw, decide_True by done. cbv zeta.
  assert (Hd : delete (l, trans) (<[(l, old) := (false, false)]> (vss_write l old trans M))
    = <[(l, old) := (false, false)]> M).
  { apply map_eq. intros [l' v]. unfold vss_write.
    destruct (decide ((l', v) = (l, trans))) as [[= -> ->]|H1].
    { rewrite lookup_delete_eq, lookup_insert_ne by (intros [=]; lia). symmetry.
      destruct (M !! (l, trans)) as [f|] eqn:Hf; [|done]. apply Hmax in Hf. lia. }
    rewrite lookup_delete_ne by done.
    destruct (decide ((l', v) = (l, old))) as [[= -> ->]|H2]; [by rewrite !lookup_insert_eq|].
    by rewrite !lookup_insert_ne by done. }
  rewrite Hd. destruct Hc as [Hc|(-> & _ & Hn)].
  { rewrite insert_id by done. by destruct (decide (still_needed l M)). }
  rewrite !decide_False.
  - cbn [snd]. unfold forget. rewrite map_filter_insert_not; [done|]. intros x Hx. by apply Hx.
  - intros ([l' v] & f & Hf & Hl & _). cbn in Hl. subst l'. by rewrite Hn in Hf.
  - intros ([l' v] & f & Hf & Hl & Hb). cbn in Hl. subst l'.
    apply lookup_insert_Some in Hf as [[_ <-]|[_ Hf]]; [done|by rewrite Hn in Hf].
Qed.

(** ** The commands *)

Lemma try_catch_Ret {S A} (p : prog S A) h s a s' : p s = (Ret a, s') ->
  try_catch p h s = (Ret a, s').
Proof. intros H. unfold try_catch. by rewrite H. Qed.

(** What happens to a block depends on its own versions only. *)
Lemma still_needed_ext l M1 M2 : (forall v, M1 !! (l, v) = M2 !! (l, v)) ->
  still_needed l M1 <-> still_needed l M2.
Proof.
  intros Heq. unfold still_needed, map_Exists. split; intros ([l' v] & f & Hf & Hl & Hb); cbn in Hl; subst l';
    exists (l, v), f; [rewrite <- Heq|rewrite Heq]; done.
Qed.

Lemma restored_ext l trans old M1 M2 : (forall v, M1 !! (l, v) = M2 !! (l, v)) ->
  restored M1 l trans old -> restored M2 l trans old.
Proof. intros Heq. unfold restored. by setoid_rewrite Heq. Qed.

Lemma vss_rollback_ext l trans old M1 M2 v : (forall v, M1 !! (l, v) = M2 !! (l, v)) ->
  versions_wf M1 -> versions_wf M2 -> M1 !! (l, trans) = Some (false, true) ->
  restored M1 l trans old ->
  (vss_rollback l trans old M1).2 !! (l, v) = (vss_rollback l trans old M2).2 !! (l, v).
Proof.
  intros Heq H1 H2 Hc Hr.
  assert (Hu : forall v, unflag l old M1 !! (l, v) = unflag l old M2 !! (l, v)).
  { intros v'. unfold unflag. case_decide; [done|].
    destruct (decide (v' = old)) as [->|]; [by rewrite !lookup_insert_eq|].
    by rewrite !lookup_insert_ne by congruence. }
  rewrite (vss_rollback_lookup M1 l trans old H1 Hc Hr).
  rewrite (vss_rollback_lookup M2 l trans old H2) by
    (first [by rewrite <- Heq|by eapply restored_ext]).
  rewrite !(decide_True (P := l = l)) by done. case_decide; [done|]. rewrite Hu.
  assert (Hn : still_needed l (delete (l, trans) (unflag l old M1)) <->
               still_needed l (delete (l, trans) (unflag l old M2))).
  { apply still_needed_ext. intros v'. destruct (decide (v' = trans)) as [->|].
    - by rewrite !lookup_delete_eq.
    - by rewrite !lookup_delete_ne by congruence. }
  destruct (decide (still_needed l (delete (l, trans) (unflag l old M1)))),
    (decide (still_needed l (delete (l, trans) (unflag l old M2)))); tauto.
Qed.

Section Commands.
Context {E : Type} `{!ExtentMapOps E}.
Context (cfg : option Z).
Implicit Types (s : slave E).

Record node_wf s : Prop := {
  nw_tables : tables_wf (tabs s);
  nw_versions : versions_wf (vss_of (tabs s));
  nw_locks : cl_wf (image (copylocks s));
}.

Definition mapped_tabs s : Prop :=
  mapped (vss_seg_of (tabs s)) /\ VBBMProofs.mapped (vbbm_seg_of (tabs s)).

Lemma lock_vbbm_run s : VBBMProofs.mapped (vbbm_seg_of (tabs s)) ->
  lock_vbbm cfg s = (Ret tt, mkSlave (em s) (tabs s) (copylocks s) true (locked1 s) (locked2 s)).
Proof.
  intros [Hm _]. destruct s as [e [v [b log]] c l0 l1 l2]. unfold vbbm_seg_of in Hm. cbn in Hm.
  unfold lock_vbbm. erewrite bind_Ret; [reflexivity|].
  unfold vbbm, on_tabs, zoom. cbn [tabs].
  erewrite on_vbbm_run; [reflexivity|]. unfold VBBM.lock. erewrite bind_Ret by reflexivity.
  cbn [image]. by rewrite Hm.
Qed.

Lemma lock_vss_run s : mapped (vss_seg_of (tabs s)) ->
  lock_vss s = (Ret tt, mkSlave (em s) (tabs s) (copylocks s) (locked0 s) true (locked2 s)).
Proof.
  intros [Hm _]. destruct s as [e [[m log] b] c l0 l1 l2]. unfold vss_seg_of in Hm. cbn in Hm.
  unfold lock_vss. erewrite bind_Ret; [reflexivity|].
  unfold vss, on_tabs, zoom. cbn [tabs].
  erewrite on_vss_run; [reflexivity|]. unfold VSS.lock. erewrite bind_Ret by reflexivity.
  cbn [image]. by rewrite Hm.
Qed.

Lemma on_tabs_run {A} (p : prog tables A) s r t' : p (tabs s) = (r, t') ->
  on_tabs p s = (r, mkSlave (em s) t' (copylocks s) (locked0 s) (locked1 s) (locked2 s)).
Proof. intros H. unfold on_tabs, zoom. by rewrite H. Qed.
Lemma on_cl_run {A} (p : prog cl_obj A) s r c' : p (copylocks s) = (r, c') ->
  on_cl p s = (r, mkSlave (em s) (tabs s) c' (locked0 s) (locked1 s) (locked2 s)).
Proof. intros H. unfold on_cl, zoom. by rewrite H. Qed.

Lemma write_command s trans l idx oid fbo old : node_wf s -> has_room (tabs s) ->
  current (vss_of (tabs s)) l old false -> old < trans -> 0 <= l -> 0 <= idx < 4 ->
  exists t', writeVBEntry cfg trans l idx oid fbo s
      = (Ret 0, mkSlave (em s) t' (copylocks s) true true (locked2 s)) /\
    tables_wf t' /\ versions_wf (vss_of t') /\
    VBBMProofs.mapped (vbbm_seg_of t') /\ mapped (vss_seg_of t') /\
    vss_of t' = vss_write l old trans (vss_of (tabs s)) /\
    vbbm_of t' = <[(l, old) := place_at idx oid fbo]> (vbbm_of (tabs s)) /\
    undoes_to (t_vss (tabs s)) (t_vss t') /\ undoes_to (t_vbbm (tabs s)) (t_vbbm t').
Proof.
  intros [Ht HM _] Hr Hc Hlt Hl Hidx.
  destruct (write_run cfg (tabs s) trans l idx oid fbo old Ht HM Hr Hc Hlt Hl Hidx)
    as (t' & Hrun & Hrest).
  exists t'. split; [|exact Hrest]. apply try_catch_Ret.
  erewrite bind_Ret by (apply lock_vbbm_run, Hr). erewrite bind_Ret by (apply lock_vss_run, Hr).
  erewrite on_tabs_run by exact Hrun. reflexivity.
Qed.

(** ** Locking and releasing the copy locks *)

Lemma cl_lock_run m log : cl_wf m ->
  exists m' log', CopyLocks.lock (mkUndoable m log) = (Ret tt, mkUndoable m' log') /\
    cl_wf m' /\ locks m' = locks m.
Proof.
  intros Hwf. unfold CopyLocks.lock. erewrite bind_Ret by reflexivity. cbn [image].
  case_decide as Hk; [|by exists m, log]. case_decide as Ha.
  - assert (Hfull : CopyLocks.currentSize (shminfo m) = CopyLocks.allocdSize (shminfo m)).
    { pose proof Hwf as [W1 W2 _]. rewrite Ha in *. unfold sizeof_CopyLockEntry in *.
      unfold locks in W2. pose proof (length_filter in_use (entries m)). lia. }
    destruct (growCL_run m log Hwf Hfull) as (m' & H1 & H2 & H3 & _). by exists m', [].
  - eexists _, log. split; [reflexivity|]. destruct Hwf as [W1 W2 W3].
    split; [|done]. split; [done|done|by left].
Qed.

Lemma lock_copylocks_run s : cl_wf (image (copylocks s)) ->
  exists c', lock_copylocks s
      = (Ret tt, mkSlave (em s) (tabs s) c' (locked0 s) (locked1 s) true) /\
    cl_wf (image c') /\ locks (image c') = locks (image (copylocks s)).
Proof.
  intros Hwf. destruct s as [e t [m log] l0 l1 l2]. cbn in Hwf.
  destruct (cl_lock_run m log Hwf) as (m' & log' & Hrun & H1 & H2).
  exists (mkUndoable m' log'). split; [|done]. unfold lock_copylocks.
  erewrite bind_Ret by (apply on_cl_run; exact Hrun). reflexivity.
Qed.

(** ** [vbRollback] *)

(** The blocks of the list were written by [trans]; each is rolled back. *)
Lemma rollback_blocks_run trans ls t : tables_wf t -> versions_wf (vss_of t) -> NoDup ls ->
  (forall l, l ∈ ls -> vss_of t !! (l, trans) = Some (false, true)) ->
  exists fl t', rollback_blocks trans ls t = (Ret fl, t') /\
    tables_wf t' /\ versions_wf (vss_of t') /\
    (forall l, l ∈ ls -> vss_of t' !! (l, trans) = None) /\
    (forall l, l ∈ ls -> exists old, restored (vss_of t) l trans old /\
       forall v, vss_of t' !! (l, v) = (vss_rollback l trans old (vss_of t)).2 !! (l, v) /\
                 vbbm_of t' !! (l, v) = delete (l, old) (vbbm_of t) !! (l, v)) /\
    (forall l v, l ∉ ls -> vss_of t' !! (l, v) = vss_of t !! (l, v) /\
                           vbbm_of t' !! (l, v) = vbbm_of t !! (l, v)).
Proof.
  intros Ht HM Hnd Hall. revert t Ht HM Hall. induction Hnd as [|l ls Hni Hnd IH]; intros t Ht HM Hall.
  { exists [], t. split_and!; try done; by intros l ?%elem_of_nil. }
  destruct (rollback_block_run t l trans Ht HM) as (old & t1 & Hres & Hrun1 & Ht1 & HM1 & Hv1 & Hb1);
    [apply Hall; left|].
  pose proof (fun k f H => proj2 (tb_versions _ Ht k f H)) as Hnn.
  assert (Hlk := vss_rollback_lookup (vss_of t) l trans old HM ltac:(apply Hall; left) Hres).
  assert (Hsame : forall l' v, l' <> l -> vss_of t1 !! (l', v) = vss_of t !! (l', v) /\
    vbbm_of t1 !! (l', v) = vbbm_of t !! (l', v)).
  { intros l' v Hl'. rewrite Hv1, Hb1, Hlk, decide_False by done.
    by rewrite lookup_delete_ne by congruence. }
  destruct (IH t1 Ht1 HM1) as (fl & t' & Hrun & Ht' & HM' & Hgone & Hdone & Hrest).
  { intros l' Hl'. rewrite (proj1 (Hsame l' trans ltac:(set_solver))). apply Hall. by right. }
  eexists _, t'. split.
  { cbn [rollback_blocks]. erewrite bind_Ret by exact Hrun1. erewrite bind_Ret by exact Hrun.
    reflexivity. }
  split_and!; try done.
  - intros l' [->|Hl']%elem_of_cons; [|by apply Hgone].
    rewrite (proj1 (Hrest l trans Hni)), Hv1, Hlk, !decide_True by done. done.
  - intros l' [->|Hl']%elem_of_cons.
    + exists old. split; [done|]. intros v. destruct (Hrest l v Hni) as [-> ->]. by rewrite Hv1, Hb1.
    + destruct (Hdone l' Hl') as (old' & Hres' & Hd').
      assert (Hne : l' <> l) by set_solver.
      assert (Heq : forall v, vss_of t1 !! (l', v) = vss_of t !! (l', v)) by (intros; by apply Hsame).
      exists old'. split; [by eapply restored_ext|]. intros v. destruct (Hd' v) as [-> ->]. split.
      * apply vss_rollback_ext; try done. rewrite Heq. apply Hall. by right.
      * destruct (decide ((l', old') = (l', v))) as [Heq'|Hne']; [by rewrite Heq', !lookup_delete_eq|].
        rewrite !lookup_delete_ne by done. by apply Hsame.
  - intros l' v [Hne Hl']%not_elem_of_cons. destruct (Hrest l' v Hl') as [-> ->]. by apply Hsame.
Qed.

Lemma cl_rollback_run t m log : cl_wf m ->
  exists m' log', CopyLocks.rollback t (mkUndoable m log) = (Ret tt, mkUndoable m' log') /\
    cl_wf m' /\ locks m' = filter (fun e => cl_txnID e <> t) (locks m).
Proof.
  intros Hwf. destruct (free_where_spec (fun e => bool_decide (cl_txnID e = t)) m log Hwf)
    as (m' & log' & H1 & H2 & H3).
  exists m', log'. split_and!; try done. rewrite H3. apply list_filter_iff.
  intros e. apply bool_decide_eq_false.
Qed.

Lemma vbRollback_run s trans ls : node_wf s -> mapped_tabs s -> NoDup ls ->
  (forall l, l ∈ ls -> vss_of (tabs s) !! (l, trans) = Some (false, true)) ->
  exists fl t' c', vbRollback cfg trans ls s = (Ret (0, fl), mkSlave (em s) t' c' true true true) /\
    node_wf (mkSlave (em s) t' c' true true true) /\
    locks (image c') = filter (fun e => cl_txnID e <> trans) (locks (image (copylocks s))) /\
    rollback_blocks trans ls (tabs s) = (Ret fl, t').
Proof.
  intros [Ht HM Hcl] [Hm1 Hm2] Hnd Hall.
  destruct (lock_copylocks_run (mkSlave (em s) (tabs s) (copylocks s) true true (locked2 s)) Hcl)
    as (c1 & Hrun1 & Hc1 & Hl1).
  destruct c1 as [cm1 clog1]. cbn [em tabs copylocks locked0 locked1 image] in *.
  destruct (cl_rollback_run trans cm1 clog1 Hc1) as (cm2 & clog2 & Hrun2 & Hc2 & Hl2).
  destruct (rollback_blocks_run trans ls (tabs s) Ht HM Hnd Hall)
    as (fl & t' & Hrun3 & Ht' & HM' & _).
  exists fl, t', (mkUndoable cm2 clog2). split_and!; [|by split|cbn [image]; by rewrite Hl2, Hl1|done].
  apply try_catch_Ret. erewrite bind_Ret by (by apply lock_vbbm_run).
  erewrite bind_Ret by (by apply lock_vss_run). erewrite bind_Ret by exact Hrun1.
  erewrite bind_Ret by (apply on_cl_run; exact Hrun2).
  erewrite bind_Ret by (apply on_tabs_run; exact Hrun3). reflexivity.
Qed.
End Commands.

(** ** A node for demonstrations: the tables of [t_idle], no extent map *)

Definition no_em : ExtentMapOps unit := {|
  em_confirmChanges := mret tt; em_undoChanges := mret tt; em_checkConsistency := mret tt;
  em_save := mret []; em_load := mret tt |}.
#[local] Existing Instance no_em.

Definition node0 : slave unit := mkSlave tt t_idle (mkUndoable cl_empty []) false false false.

Lemma vdone_versions : versions_wf (vss_map vdone).
Proof.
  destruct vdone_wf as [_ ->].
  assert (H : forall l v f, ({[ (7, 1) := (true, false); (7, 5) := (false, false) ]} :
    gmap (Z * Z) (bool * bool)) !! (l, v) = Some f ->
    l = 7 /\ (v = 1 /\ f = (true, false) \/ v = 5 /\ f = (false, false))).
  { intros l v f [[[= <- <-] <-]|[_ Hx]]%lookup_insert_Some; [auto|].
    apply lookup_singleton_Some in Hx as [[= <- <-] <-]. auto. }
  split.
  - intros l v1 k1 v2 k2 H1%H H2%H.
    destruct H1 as (_ & [[_ [=]]|[-> _]]), H2 as (_ & [[_ [=]]|[-> _]]); done.
  - intros l v k H1%H. destruct H1 as (_ & [[_ [=]]|[-> _]]). lia.
  - intros l v f H1%H. exists 5, false. destruct H1 as (-> & [[-> _]|[-> _]]);
      (split; [reflexivity|lia]).
Qed.

Lemma node0_wf : node_wf node0.
Proof. split; [apply t_idle_wf|apply vdone_versions|apply cl_empty_wf]. Qed.

Lemma node0_room : has_room (tabs node0).
Proof. split; vm_compute; done. Qed.

Lemma node0_current : current (vss_of (tabs node0)) 7 5 false.
Proof. left. vm_compute. reflexivity. Qed.

Lemma node0_needed : still_needed 7 (vss_of (tabs node0)).
Proof.
  destruct vdone_wf as [_ Hmap]. change (still_needed 7 (vss_map vdone)). rewrite Hmap.
  exists (7, 1), (true, false). split; [apply lookup_insert_eq|split; reflexivity].
Qed.

(** ** Properties *)

(** C17: A write of a block whose current version is older than the transaction and not
    locked, when both tables have room, succeeds: the current version gets its place in
    the version buffer, the transaction's version becomes the current one and is locked.
    The tables still agree, and every block still has one current version, its newest. *)
Theorem slave_writeVBEntry_refines {E} `{!ExtentMapOps E} cfg (s : slave E)
    trans l idx oid fbo old : node_wf s -> has_room (tabs s) ->
  current (vss_of (tabs s)) l old false -> old < trans -> 0 <= l -> 0 <= idx < 4 ->
  exists s', writeVBEntry cfg trans l idx oid fbo s = (Ret 0, s') /\ node_wf s' /\
    vss_of (tabs s')
      = <[(l, trans) := (false, true)]> (<[(l, old) := (true, false)]> (vss_of (tabs s))) /\
    vbbm_of (tabs s') = <[(l, old) := place_at idx oid fbo]> (vbbm_of (tabs s)).
Proof.
  intros Hwf Hr Hc Hlt Hl Hidx.
  destruct (write_command cfg s trans l idx oid fbo old Hwf Hr Hc Hlt Hl Hidx)
    as (t' & Hrun & H1 & H2 & _ & _ & H3 & H4 & _).
  eexists. split; [exact Hrun|]. split; [|done]. split; [done|done|apply Hwf].
Qed.

Lemma slave_writeVBEntry_refines_witness :
  exists s', writeVBEntry None 9 7 0 1 30 node0 = (Ret 0, s') /\
    vss_of (tabs s') !! (7, 9) = Some (false, true) /\
    vss_of (tabs s') !! (7, 5) = Some (true, false).
Proof.
  destruct (slave_writeVBEntry_refines None node0 9 7 0 1 30 5 node0_wf node0_room node0_current)
    as (s' & H1 & _ & H2 & _); [lia|lia|lia|].
  exists s'. split; [exact H1|]. rewrite H2. split; [by rewrite lookup_insert_eq|].
  rewrite lookup_insert_ne by congruence. by rewrite lookup_insert_eq.
Defined.

(** C3: rolling back a transaction that wrote one block gives back the
    tables as they were before the write, except that the block is forgotten
    when no version of it was in the version buffer or locked; the
    transaction holds no copy lock any more. *)
Theorem slave_write_rollback {E} `{!ExtentMapOps E} cfg (s : slave E) trans l idx oid fbo old :
  node_wf s -> has_room (tabs s) -> current (vss_of (tabs s)) l old false ->
  old < trans -> 0 <= l -> 0 <= idx < 4 ->
  exists s1 s2 fl, writeVBEntry cfg trans l idx oid fbo s = (Ret 0, s1) /\
    vbRollback cfg trans [l] s1 = (Ret (0, fl), s2) /\ node_wf s2 /\
    vbbm_of (tabs s2) = vbbm_of (tabs s) /\
    vss_of (tabs s2) = (if decide (still_needed l (vss_of (tabs s))) then vss_of (tabs s)
                        else forget l (vss_of (tabs s))) /\
    locks (image (copylocks s2))
      = filter (fun e => cl_txnID e <> trans) (locks (image (copylocks s))).
Proof.
  intros Hwf Hr Hc Hlt Hl Hidx.
  destruct (write_command cfg s trans l idx oid fbo old Hwf Hr Hc Hlt Hl Hidx)
    as (t1 & Hrun1 & Ht1 & HM1 & Hm1 & Hm2 & Hv1 & Hb1 & _).
  assert (Hcur : vss_of t1 !! (l, trans) = Some (false, true)).
  { rewrite Hv1. unfold vss_write. apply lookup_insert_eq. }
  destruct (vbRollback_run cfg (mkSlave (em s) t1 (copylocks s) true true (locked2 s)) trans [l])
    as (fl & t2 & c2 & Hrun2 & Hwf2 & Hl2 & Hrb); cbn [tabs copylocks em] in *.
  { split; [done|done|apply Hwf]. }
  { by split. }
  { repeat constructor. by intros ?%elem_of_nil. }
  { by intros l' ->%list_elem_of_singleton. }
  eexists _, _, fl. split; [exact Hrun1|]. split; [exact Hrun2|]. cbn [tabs copylocks].
  destruct (rollback_block_run t1 l trans Ht1 HM1 Hcur) as (old' & t3 & Hres & Hrun3 & _ & _ & Hv3 & Hb3).
  assert (t3 = t2) as ->.
  { cbn [rollback_blocks] in Hrb. erewrite bind_Ret in Hrb by exact Hrun3.
    erewrite bind_Ret in Hrb by reflexivity. by injection Hrb. }
  pose proof Hwf as [Ht HM _].
  destruct (write_rollback (vss_of (tabs s)) l old trans HM Hc Hlt) as [Hres' Hv4];
    [intros k f Hk; by apply (tb_versions _ Ht) in Hk as []|].
  assert (old' = old) as ->.
  { rewrite Hv1 in Hres. destruct Hres as [[-> Hn]|(_ & H1 & H2)], Hres' as [[-> Hn']|(_ & H1' & H2')];
      [done|by destruct (Hn old false)|by destruct (Hn' old' false)|].
    specialize (H2 _ _ H1'). specialize (H2' _ _ H1). lia. }
  split_and!; [done| | |done].
  - rewrite Hb3, Hb1. apply delete_insert_id. apply eq_None_not_Some. intros Hs.
    apply (tb_agree _ Ht) in Hs as [k Hk].
    destruct Hc as [Hc|(_ & _ & Hn)]; [congruence|by rewrite Hn in Hk].
  - by rewrite Hv3, Hv1, Hv4.
Qed.

Lemma slave_write_rollback_witness :
  exists s1 s2 fl, writeVBEntry None 9 7 0 1 30 node0 = (Ret 0, s1) /\
    vbRollback None 9 [7] s1 = (Ret (0, fl), s2) /\ vss_of (tabs s2) = vss_of (tabs node0).
Proof.
  destruct (slave_write_rollback None node0 9 7 0 1 30 5 node0_wf node0_room node0_current)
    as (s1 & s2 & fl & H1 & H2 & _ & _ & H3 & _); [lia|lia|lia|].
  exists s1, s2, fl. split; [exact H1|]. split; [exact H2|]. rewrite H3.
  destruct (decide (still_needed 7 (vss_of (tabs node0)))) as [_|Hn]; [reflexivity|].
  by destruct (Hn node0_needed).
Defined.

(** A write that the controller then tells the node to undo leaves the
    tables and the copy locks exactly as they were. *)
Theorem slave_write_undo {E} `{!ExtentMapOps E} cfg (s : slave E) trans l idx oid fbo old e' :
  node_wf s -> has_room (tabs s) -> current (vss_of (tabs s)) l old false ->
  old < trans -> 0 <= l -> 0 <= idx < 4 ->
  undoRecords (t_vss (tabs s)) = [] -> undoRecords (t_vbbm (tabs s)) = [] ->
  undoRecords (copylocks s) = [] -> em_undoChanges (em s) = (Ret tt, e') ->
  exists s1, writeVBEntry cfg trans l idx oid fbo s = (Ret 0, s1) /\
    SlaveNode.undoChanges s1
      = (Ret tt, mkSlave e' (tabs s) (copylocks s) false false false).
Proof.
  intros Hwf Hr Hc Hlt Hl Hidx Hlv Hlb Hlc Hem.
  destruct (write_command cfg s trans l idx oid fbo old Hwf Hr Hc Hlt Hl Hidx)
    as (t1 & Hrun1 & _ & _ & _ & _ & _ & _ & Hu1 & Hu2).
  eexists. split; [exact Hrun1|].
  destruct s as [e [v b] c l0 l1 l2], t1 as [v1 b1]. cbn [tabs t_vss t_vbbm copylocks em] in *.
  apply (undoes_to_reverts _ _) in Hu1; [|done]. apply (undoes_to_reverts _ _) in Hu2; [|done].
  destruct v as [vi vl], b as [bi bl], c as [ci cl]. cbn in Hlv, Hlb, Hlc. subst.
  cbn [image] in *. apply try_catch_Ret.
  erewrite bind_Ret by (unfold on_em, zoom; cbn [em]; rewrite Hem; reflexivity).
  erewrite bind_Ret by reflexivity. cbn [locked0].
  erewrite bind_Ret.
  2: { erewrite bind_Ret; [reflexivity|]. unfold vbbm. erewrite on_tabs_run; [reflexivity|].
       apply on_vbbm_run. exact Hu2. }
  cbn [em tabs copylocks locked0 locked1 locked2].
  erewrite bind_Ret by reflexivity. cbn [locked1].
  erewrite bind_Ret.
  2: { erewrite bind_Ret; [reflexivity|]. unfold vss. erewrite on_tabs_run; [reflexivity|].
       apply on_vss_run. exact Hu1. }
  cbn [em tabs copylocks locked0 locked1 locked2].
  erewrite bind_Ret by reflexivity. cbn [locked2]. by destruct l2.
Qed.

Lemma slave_write_undo_witness :
  exists s1, writeVBEntry None 9 7 0 1 30 node0 = (Ret 0, s1) /\
    SlaveNode.undoChanges s1 = (Ret tt, node0).
Proof.
  destruct (slave_write_undo None node0 9 7 0 1 30 5 tt node0_wf node0_room node0_current)
    as (s1 & H1 & H2); [lia|lia|lia|reflexivity..|].
  exists s1. split; [exact H1|exact H2].
Defined.

(** The second write of a block by the same transaction changes the
    place of the copy without an undo record: after the command has been
    undone, the version buffer still lists the second DBRoot. *)
Theorem slave_second_write_not_undone :
  let s1 := snd ((_ ← writeVBEntry None 9 7 0 1 30; confirmChanges) node0) in
  let s2 := snd ((_ ← writeVBEntry None 9 7 1 2 40; SlaveNode.undoChanges) s1) in
  VBBM.lookup (vbbm_seg_of (tabs s1)) 7 5 = Ret (Some (mkRoots [1; 0; 0; 0], mkFbo [30; 0; 0; 0])) /\
  VBBM.lookup (vbbm_seg_of (tabs s2)) 7 5 = Ret (Some (mkRoots [1; 2; 0; 0], mkFbo [30; 40; 0; 0])).
Proof. vm_compute. done. Qed.

(** [beginVBCopy] for a further DBRoot ([dbrIndex] not 0) takes no
    locks, so that [confirmChanges] does not confirm its changes: the next
    command that is undone also takes back the blocks it has handed out. *)
Theorem slave_secondary_copy_not_confirmed :
  let others := fun (_ : nat) x => x in
  let begin := beginVBCopy None 1 others [mkRange 100 3] 9 (mkRoots [2; 1; 0; 0]) 1 in
  let s1 := snd ((_ ← begin; confirmChanges) node0) in
  let s2 := snd ((_ ← writeVBEntry None 9 100 0 1 30; SlaveNode.undoChanges) s1) in
  fst (begin node0) = Ret (0, [mkVBRange 1 0 3], [7]) /\
  fm_nextOffset <$> files (vbbm_seg_of (tabs s1)) = [3] /\
  fm_nextOffset <$> files (vbbm_seg_of (tabs s2)) = [0].
Proof. vm_compute. done. Qed.

(** ** Locking a list of ranges *)

Definition lock_of (trans : Z) (r : LBIDRange) : CopyLockEntry := mkCL (r_start r) (r_size r) trans.

Section GrabRanges.
Context {E : Type} `{!ExtentMapOps E}.
Context (others : nat -> vss_seg * vbbm_seg * cl_seg -> vss_seg * vbbm_seg * cl_seg).
Context (ranges : list LBIDRange) (trans : Z).
Context (Hsize : forall r, r ∈ ranges -> 0 < r_size r < 2 ^ 31).
(** No two ranges have a block in common. *)
Context (Hdisj : forall i j r r', i <> j -> ranges !! i = Some r -> ranges !! j = Some r' ->
  intersects r (lock_of trans r') = false).
(** Other processes keep the array consistent and this transaction's locks. *)
Context (Hothers : forall n v b c, cl_wf c -> let c' := (others n (v, b, c)).2 in
  cl_wf c' /\ forall e, e ∈ locks c -> cl_txnID e = trans -> e ∈ locks c').

Abbreviation frame := (slave E * list bool)%type.
Definition frame_locks (f : frame) : list CopyLockEntry := locks (image (copylocks f.1)).

(** The flags tell the truth. *)
Record flags_ok (f : frame) : Prop := {
  fo_wf : cl_wf (image (copylocks f.1));
  fo_len : length f.2 = length ranges;
  fo_held i r : ranges !! i = Some r -> f.2 !! i = Some true -> lock_of trans r ∈ frame_locks f;
}.

(** Running [lockRange] for range [i] and setting its flag. *)
Lemma take_lock_run f i r : flags_ok f -> ranges !! i = Some r ->
  exists f', (on_node (on_cl (lockRange r trans));; wrFlag (Z.of_nat i) true) f = (Ret tt, f') /\
    flags_ok f' /\ f'.2 = <[i := true]> f.2.
Proof.
  intros [Hwf Hlen Hheld] Hr. destruct f as [s fl]. unfold frame_locks in *. cbn [fst snd] in *.
  assert (Hlt := lookup_lt_Some _ _ _ Hr).
  destruct s as [e t [m log] l0 l1 l2]. cbn [copylocks image] in *.
  destruct (lockRange_spec r trans m log Hwf) as (m' & log' & Hrun & Hwf' & Hperm).
  { apply Hsize. by eapply list_elem_of_lookup_2. }
  exists (mkSlave e t (mkUndoable m' log') l0 l1 l2, <[i := true]> fl). split_and!; [|split|done].
  - erewrite bind_Ret.
    2: { unfold on_node, zoom. cbn [fst]. erewrite on_cl_run by exact Hrun. reflexivity. }
    cbn. unfold wrFlag, modify. cbn. by rewrite wr_nat.
  - done.
  - cbn [snd]. by rewrite length_insert.
  - unfold frame_locks. cbn [fst snd copylocks image]. intros j r' Hj Hfl. rewrite Hperm.
    apply list_lookup_insert_Some in Hfl as [(-> & _ & _)|[_ Hfl]].
    + assert (r' = r) as -> by congruence. left.
    + right. by eapply Hheld.
Qed.

(** Skipping range [i], or locking it. *)
Lemma grab_run is_ f : flags_ok f -> (forall i, i ∈ is_ -> 0 <= i < Z.of_nat (length ranges)) ->
  exists b f', grab ranges trans is_ f = (Ret b, f') /\ flags_ok f' /\
    (forall i, f.2 !! i = Some true -> f'.2 !! i = Some true) /\
    (b = true -> forall i, i ∈ is_ -> f'.2 !! Z.to_nat i = Some true).
Proof.
  revert f. induction is_ as [|z is_ IH]; intros f Hf His.
  { exists true, f. split_and!; try done. by intros _ i ?%elem_of_nil. }
  assert (Hz := His z ltac:(left)). set (i := Z.to_nat z). assert (Hzi : z = Z.of_nat i) by lia.
  destruct (lookup_lt_is_Some_2 ranges i) as [r Hr]; [lia|].
  destruct (lookup_lt_is_Some_2 f.2 i) as [b Hb]; [rewrite (fo_len _ Hf); lia|].
  cbn [grab]. unfold rdFlag. erewrite bind_reading by (rewrite Hzi; by apply rd_nat).
  erewrite bind_reading by (rewrite Hzi; by apply rd_nat).
  assert (Hstep : exists ok f1, (if b : bool then mret true
      else l ← reading (fun f => CopyLocks.isLocked (image (copylocks (fst f))) r);
           if l : bool then mret false
           else on_node (on_cl (lockRange r trans));; wrFlag z true;; mret true) f = (Ret ok, f1) /\
    flags_ok f1 /\ (forall j, f.2 !! j = Some true -> f1.2 !! j = Some true) /\
    (ok = true -> f1.2 !! i = Some true)).
  { destruct b; [by exists true, f|].
    erewrite bind_reading by (apply isLocked_spec, Hf).
    destruct (existsb _ _); [by exists false, f|].
    destruct (take_lock_run f i r Hf Hr) as (f1 & Hrun & Hf1 & Hfl).
    rewrite <- Hzi in Hrun. exists true, f1. split_and!; [| done | |].
    - apply bind_inv in Hrun as ([] & f0 & H1 & H2). erewrite bind_Ret by exact H1.
      erewrite bind_Ret by exact H2. reflexivity.
    - intros j Hj. rewrite Hfl. destruct (decide (i = j)) as [->|]; [|by rewrite list_lookup_insert_ne].
      rewrite list_lookup_insert_eq; [done|]. by eapply lookup_lt_Some.
    - intros _. rewrite Hfl, list_lookup_insert_eq; [done|]. by eapply lookup_lt_Some. }
  destruct Hstep as (ok & f1 & Hrun1 & Hf1 & Hmono1 & Hok).
  destruct (IH f1 Hf1) as (rest & f2 & Hrun2 & Hf2 & Hmono2 & Hall); [intros; apply His; by right|].
  exists (ok && rest), f2. split_and!; [|done|auto|].
  - erewrite bind_Ret by exact Hrun1. by erewrite bind_Ret by exact Hrun2.
  - intros [-> ->]%andb_true_iff j [->|Hj]%elem_of_cons; auto.
Qed.

(** The sleep keeps the locks this transaction has. *)
Lemma sleep_run n (s : slave E) : cl_wf (image (copylocks s)) ->
  exists s', sleep others n s = (Ret tt, s') /\ cl_wf (image (copylocks s')) /\
    (forall e, e ∈ locks (image (copylocks s)) -> cl_txnID e = trans ->
       e ∈ locks (image (copylocks s'))).
Proof.
  intros Hwf. unfold sleep, modify.
  pose proof (Hothers n (image (t_vss (tabs s))) (image (t_vbbm (tabs s))) _ Hwf) as H.
  destruct (others n _) as [[v b] c] eqn:Ho. eexists. split; [reflexivity|]. exact H.
Qed.

Lemma dml_wait_run n f : flags_ok f ->
  exists f', on_node (set_locked2 false;; sleep others n;; lock_copylocks) f = (Ret tt, f') /\
    flags_ok f' /\ f'.2 = f.2.
Proof.
  intros [Hwf Hlen Hheld]. destruct f as [s fl]. unfold frame_locks in *. cbn [fst snd] in *.
  destruct (sleep_run n (mkSlave (em s) (tabs s) (copylocks s) (locked0 s) (locked1 s) false) Hwf)
    as (s1 & Hrun1 & Hwf1 & Hkeep1).
  destruct (lock_copylocks_run s1 Hwf1) as (c2 & Hrun2 & Hwf2 & Hl2).
  eexists (_, fl). split_and!; [|split|done].
  - unfold on_node, zoom. cbn [fst snd].
    erewrite bind_Ret by reflexivity. erewrite bind_Ret by exact Hrun1. rewrite Hrun2. reflexivity.
  - done.
  - done.
  - unfold frame_locks. cbn [fst snd copylocks]. intros i r Hr Hfl. rewrite Hl2.
    apply Hkeep1; [by eapply Hheld|done].
Qed.

Lemma grab_retry_run fuel n f : flags_ok f ->
  exists b f', grab_retry others ranges trans fuel n (set_locked2 false) lock_copylocks f = (Ret b, f') /\
    flags_ok f' /\ (b = false -> forall i, (i < length ranges)%nat -> f'.2 !! i = Some true).
Proof.
  revert n f. induction fuel as [|fuel IH]; intros n f Hf; [by exists true, f|].
  cbn [grab_retry].
  destruct (grab_run (seqZ 0 (Z.of_nat (length ranges))) f Hf) as (b & f1 & Hrun & Hf1 & _ & Hall).
  { intros i Hi%elem_of_seqZ. lia. }
  erewrite bind_Ret by exact Hrun. destruct b.
  - exists false, f1. split_and!; try done. intros _ i Hi.
    rewrite <- (Nat2Z.id i). apply Hall; [done|]. apply elem_of_seqZ. lia.
  - destruct (dml_wait_run n f1 Hf1) as (f2 & Hrun2 & Hf2 & _).
    erewrite bind_Ret by exact Hrun2. by apply IH.
Qed.

(** Taking range [i] by force: the other ranges' locks stay. *)
Lemma force_run f i r : flags_ok f -> ranges !! i = Some r -> f.2 !! i = Some false ->
  exists f', (on_node (on_cl (forceRelease r));; on_node (on_cl (lockRange r trans));;
              wrFlag (Z.of_nat i) true) f = (Ret tt, f') /\
    flags_ok f' /\ f'.2 = <[i := true]> f.2.
Proof.
  intros [Hwf Hlen Hheld] Hr Hfi. destruct f as [[e t [m log] l0 l1 l2] fl].
  unfold frame_locks in *. cbn [fst snd copylocks image] in *.
  destruct (free_where_spec (intersects r) m log Hwf) as (m1 & log1 & Hrun1 & Hwf1 & Hl1).
  set (f1 := (mkSlave e t (mkUndoable m1 log1) l0 l1 l2, fl) : frame).
  assert (Hf1 : flags_ok f1).
  { split; [done|done|]. unfold frame_locks. cbn [f1 fst snd copylocks image]. intros j r' Hj Hfl.
    rewrite Hl1. apply list_elem_of_filter. split; [|by eapply Hheld].
    apply (Hdisj i j); [|done|done]. intros ->. congruence. }
  destruct (take_lock_run f1 i r Hf1 Hr) as (f2 & Hrun2 & Hf2 & Hfl2).
  exists f2. split_and!; [|done|done]. erewrite bind_Ret; [exact Hrun2|].
  unfold on_node, zoom. cbn [fst]. erewrite on_cl_run by exact Hrun1. reflexivity.
Qed.

Lemma grab_force_run f : flags_ok f ->
  exists f', grab_force ranges trans f = (Ret tt, f') /\ flags_ok f' /\
    (forall i, (i < length ranges)%nat -> f'.2 !! i = Some true).
Proof.
  intros Hf. unfold grab_force.
  assert (H : forall n k f, flags_ok f -> (k + n = length ranges)%nat ->
    (forall i, (i < k)%nat -> f.2 !! i = Some true) ->
    exists f', for_each (seqZ (Z.of_nat k) (Z.of_nat n)) (fun i =>
      b ← rdFlag i; r ← reading (fun _ => rd ranges i);
      if b : bool then mret tt
      else on_node (on_cl (forceRelease r));; on_node (on_cl (lockRange r trans));;
           wrFlag i true) f = (Ret tt, f') /\ flags_ok f' /\
      (forall i, (i < length ranges)%nat -> f'.2 !! i = Some true)).
  { induction n as [|n IH]; intros k f0 Hf0 Hk Hpre.
    { exists f0. split_and!; try done. intros i Hi. apply Hpre. lia. }
    rewrite seqZ_cons by lia. cbn [for_each].
    destruct (lookup_lt_is_Some_2 ranges k) as [r Hr]; [lia|].
    destruct (lookup_lt_is_Some_2 f0.2 k) as [b Hb]; [rewrite (fo_len _ Hf0); lia|].
    assert (Hstep : exists f1, (b ← rdFlag (Z.of_nat k); r ← reading (fun _ => rd ranges (Z.of_nat k));
      if b : bool then mret tt
      else on_node (on_cl (forceRelease r));; on_node (on_cl (lockRange r trans));;
           wrFlag (Z.of_nat k) true) f0 = (Ret tt, f1) /\ flags_ok f1 /\ f1.2 = <[k := true]> f0.2).
    { unfold rdFlag. erewrite bind_reading by (by apply rd_nat).
      erewrite bind_reading by (by apply rd_nat).
      destruct b; [|by apply force_run]. exists f0. split_and!; [done|done|].
      by rewrite list_insert_id. }
    destruct Hstep as (f1 & Hrun1 & Hf1 & Hfl1). erewrite bind_Ret by exact Hrun1.
    replace (Z.succ (Z.of_nat k)) with (Z.of_nat (S k)) by lia.
    replace (Z.pred (Z.of_nat (S n))) with (Z.of_nat n) by lia.
    apply IH; [done|lia|]. intros i Hi. rewrite Hfl1.
    destruct (decide (k = i)) as [->|]; [|rewrite list_lookup_insert_ne by done; apply Hpre; lia].
    apply list_lookup_insert_eq. by eapply lookup_lt_Some. }
  apply (H (length ranges) 0%nat f Hf); [lia|]. intros i Hi. lia.
Qed.

Lemma dml_lock_run (s : slave E) : cl_wf (image (copylocks s)) ->
  exists s', dmlLockLBIDRanges others ranges trans s = (Ret 0, s') /\
    cl_wf (image (copylocks s')) /\
    forall r, r ∈ ranges -> lock_of trans r ∈ locks (image (copylocks s')).
Proof.
  intros Hwf. destruct (lock_copylocks_run s Hwf) as (c & Hrun0 & Hwf0 & _).
  set (f0 := (mkSlave (em s) (tabs s) c (locked0 s) (locked1 s) true,
              replicate (length ranges) false) : frame).
  assert (Hf0 : flags_ok f0).
  { split; [done|by apply length_replicate|]. intros i r _ Hi.
    cbn in Hi. apply lookup_replicate in Hi as [? _]. done. }
  destruct (grab_retry_run maxRetries 0 f0 Hf0) as (b & f1 & Hrun1 & Hf1 & Hall).
  assert (Hend : exists f2, (if b : bool then grab_force ranges trans else mret tt) f1 = (Ret tt, f2) /\
    flags_ok f2 /\ (forall i, (i < length ranges)%nat -> f2.2 !! i = Some true)).
  { destruct b; [by apply grab_force_run|]. exists f1. split_and!; auto. }
  destruct Hend as (f2 & Hrun2 & Hf2 & Hall2). exists f2.1. split_and!.
  - unfold dmlLockLBIDRanges, with_frame.
    assert (Hbody : (on_node lock_copylocks;;
       grab_all others ranges trans (set_locked2 false) lock_copylocks;;
       mret 0) (s, replicate (length ranges) false) = (Ret 0, f2)).
    { erewrite bind_Ret by (unfold on_node, zoom; cbn [fst]; rewrite Hrun0; reflexivity).
      cbn [snd]. fold f0. erewrite bind_Ret; [reflexivity|]. unfold grab_all.
      by erewrite bind_Ret by exact Hrun1. }
    unfold try_catch. rewrite Hbody. by destruct f2.
  - apply Hf2.
  - intros r [i Hi]%list_elem_of_lookup. apply (fo_held _ Hf2 i r Hi).
    apply Hall2. by eapply lookup_lt_Some.
Qed.
End GrabRanges.

(** [dmlLockLBIDRanges] always returns with every range locked for the
    transaction, whatever locks others hold and take meanwhile: the passes
    and the sleeps between them are bounded, and what is still locked after
    the last one is taken by force. *)
Theorem slave_dmlLock_all {E} `{!ExtentMapOps E} others ranges trans (s : slave E) :
  (forall r, r ∈ ranges -> 0 < r_size r < 2 ^ 31) ->
  (forall i j r r', i <> j -> ranges !! i = Some r -> ranges !! j = Some r' ->
     intersects r (lock_of trans r') = false) ->
  (forall n v b c, cl_wf c -> let c' := (others n (v, b, c)).2 in
     cl_wf c' /\ forall e, e ∈ locks c -> cl_txnID e = trans -> e ∈ locks c') ->
  cl_wf (image (copylocks s)) ->
  exists s', dmlLockLBIDRanges others ranges trans s = (Ret 0, s') /\
    cl_wf (image (copylocks s')) /\
    forall r, r ∈ ranges -> lock_of trans r ∈ locks (image (copylocks s')).
Proof. intros H1 H2 H3. by apply dml_lock_run. Qed.

Lemma slave_dmlLock_all_witness :
  let s := mkSlave tt t_idle (mkUndoable cl_two []) false false false in
  exists s', dmlLockLBIDRanges (fun _ x => x) [mkRange 200 2; mkRange 300 5] 9 s = (Ret 0, s') /\
    mkCL 200 2 9 ∈ locks (image (copylocks s')).
Proof.
  cbv zeta.
  destruct (slave_dmlLock_all (fun _ x => x) [mkRange 200 2; mkRange 300 5] 9
    (mkSlave tt t_idle (mkUndoable cl_two []) false false false)) as (s' & H1 & _ & H2).
  - intros r [->|[->|Hr%elem_of_nil]%elem_of_cons]%elem_of_cons; [cbn; lia|cbn; lia|done].
  - intros [|[|i]] [|[|j]] r r' Hne Hi Hj; try discriminate Hi; try discriminate Hj;
      try (by destruct Hne); injection Hi as <-; injection Hj as <-; vm_compute; reflexivity.
  - intros n v b c Hc. split; [exact Hc|]. intros e He _. exact He.
  - exact cl_two_wf.
  - exists s'. split; [exact H1|]. apply (H2 (mkRange 200 2)). left.
Defined.
