(* ===== verification/SlaveExtentProofs.v ===== *)
(** * The worker node with its extent map

    The commands that change entries of the extent map in place, seen at the
    node: undone, they leave every table of the node as it was. *)
From Stdlib Require Import ZArith Lia.
From S2P Require Import Prelude Bytes Undoable Hasher HashChain BrmTypes VSS VBBM VersionBuffer.
From S2P Require Import CopyLocks ExtentMap ExtentAlloc ExtentProofs ExtentDelete ExtentHWM.
From S2P Require Import ExtentImage ExtentUndo SlaveNode SlaveExtents VersionBufferProofs.

Local Open Scope Z_scope.

(** The return code of a command with outputs. *)
Definition code {A} (p : prog enode (Z * option A)) : prog enode Z := '(err, _) ← p; mret err.

Definition node_command (c : command) : prog enode Z :=
  match c with
  | MarkInvalid lbid t => node_markExtentInvalid lbid t
  | MarkInvalids lbids => node_markExtentsInvalid lbids
  | SetMaxMin lbid max min s => node_setExtentMaxMin lbid max min s
  | SetExtentsMaxMin cpMap => node_setExtentsMaxMin cpMap
  | MergeExtentsMaxMin cpMap => node_mergeExtentsMaxMin cpMap
  | SetLocalHWM oid part seg hwm => node_setLocalHWM oid part seg hwm
  | BulkSetHWM args => node_bulkSetHWM args 0
  | MarkPartition oids parts => node_markPartitionForDeletion oids parts
  | MarkAllPartition oids => node_markAllPartitionForDeletion oids
  | RestorePartition oids parts => node_restorePartition oids parts
  | CreateColumn F X R oid w d t part => code (node_createColumnExtent_DBroot F X R oid w d t part)
  | CreateExact oid w d part seg t => code (node_createColumnExtentExactFile oid w d part seg t)
  | CreateDict oid d part seg => code (node_createDictStoreExtent oid d part seg)
  end.

(** The node with another extent map. *)
Definition with_map (s : enode) (e : extent_map) : enode :=
  mkSlave e (tabs s) (copylocks s) (locked0 s) (locked1 s) (locked2 s).

Lemma forward_codes_em codes p s : snd (forward_codes codes p s) = with_map s (snd (p (em s))).
Proof.
  unfold forward_codes, translate, try_catch, on_em, zoom, mbind, prog_bind.
  by destruct (p (em s)) as [[[]|x|u] e'].
Qed.
Lemma forward__em p s : snd (forward_ p s) = with_map s (snd (p (em s))).
Proof.
  unfold forward_, try_catch, on_em, zoom, mbind, prog_bind.
  by destruct (p (em s)) as [[[]|x|u] e'].
Qed.
Lemma forward_em {A} (p : prog extent_map A) s :
  snd (code (forward p) s) = with_map s (snd ((p;; mret tt) (em s))).
Proof.
  unfold code, forward, try_catch, on_em, zoom, mbind, prog_bind.
  by destruct (p (em s)) as [[a|x|u] e'].
Qed.

(** A command at the node is the command of its extent map. *)
Lemma node_command_em c s : snd (node_command c s) = with_map s (snd (run_command c (em s))).
Proof.
  destruct c; first [apply forward__em|apply forward_codes_em|apply forward_em].
Qed.

(** An idle node: no locks held, nothing to undo. *)
Definition idle (m : em_image) (t : tables) (c : cl_obj) : enode :=
  mkSlave (mkExtentMap (mkUndoable m []) false false) t c false false false.

Lemma node_command_undo c m t cl : em_mapped m -> not_full m ->
  SlaveNode.undoChanges (snd (node_command c (idle m t cl))) = (Ret tt, idle m t cl).
Proof.
  intros Hm Hn. rewrite node_command_em. unfold with_map. cbn [idle em tabs copylocks locked0 locked1 locked2].
  unfold SlaveNode.undoChanges, try_catch. unfold mbind at 1, prog_bind at 1, on_em, zoom at 1.
  cbn [em em_undoChanges extent_map_ops].
  by rewrite (em_undo_reverts (run_command c) m false false (run_command_safe c m Hm Hn)).
Qed.

(** C36: One of the thirteen commands of [node_command], which mark extents, set their
    ranges of values and high water marks, or create a single extent, leaves all tables
    of the node as they were, bit for bit, when the controller tells the node to undo
    it, whether the command succeeded or failed half way; provided that the segments are
    mapped and the map has an unused entry, so that it does not grow. (Deleting extents
    and creating stripes are not among them: [em_delete_undo_loses],
    [em_stripe_growth_dangles].) *)
Theorem slave_extent_undo c m t cl : em_mapped m -> not_full m ->
  SlaveNode.undoChanges (snd (node_command c (idle m t cl))) = (Ret tt, idle m t cl).
Proof. apply node_command_undo. Qed.

Lemma slave_extent_undo_witness :
  SlaveNode.undoChanges (snd (node_command (CreateColumn 4 2 1 3001 8 root1 BIGINT 0)
    (idle demo_image t_idle (mkUndoable cl_empty []))))
  = (Ret tt, idle demo_image t_idle (mkUndoable cl_empty [])).
Proof.
  apply (slave_extent_undo (CreateColumn 4 2 1 3001 8 root1 BIGINT 0) demo_image t_idle
           (mkUndoable cl_empty [])).
  - exact demo_mapped.
  - vm_compute. discriminate.
Defined.

(** Does the VSS have a version of a block? *)
Definition has_version (lbid : Z) (s : enode) : bool :=
  existsb (fun e => bool_decide (vs_lbid e = lbid)) (VSS.storage (image (t_vss (tabs s)))).

(** A map with one short extent, of 1024 blocks. *)
Definition short_image : em_image :=
  mkImage [mkEM (mkInline 0 1) 3001 0 root1 9 0 0 1 EXTENTAVAILABLE (mkCP 0 0 0 CP_INVALID)]
    (mkMST 0x20001 72 72) 0x20001 true
    [mkInline 1024 (MAX_LBID_SIZE - 1)] (mkMST 0x30001 16 16) 0x30001 true.

(** Dropping a column whose extents are out of service.  The lookup of
    its ranges skips such extents: [deleteOID] finds none, returns an error
    and drops nothing; [deleteOIDs] drops the extents and leaves the versions
    of their blocks, here of block 7, in the VSS, which it forgets when the
    extents are in service. *)
Theorem slave_delete_out_of_service :
  let s0 := idle short_image t_idle (mkUndoable cl_empty []) in
  let s := snd (node_markAllPartitionForDeletion {[ 3001 ]} s0) in
  let s1 := node_deleteOID None 3001 s in
  let s2 := node_deleteOIDs None {[ 3001 ]} s in
  let s3 := node_deleteOIDs None {[ 3001 ]} s0 in
  fst s1 = Ret (-1) /\ length (extents (image (em_und (em (snd s1))))) = 1%nat /\
  fst s2 = Ret 0 /\ extents (image (em_und (em (snd s2)))) = [] /\ has_version 7 (snd s2) = true /\
  fst s3 = Ret 0 /\ extents (image (em_und (em (snd s3)))) = [] /\ has_version 7 (snd s3) = false.
Proof. vm_compute. done. Qed.
