(* ===== verification/ControllerNodes.v ===== *)
(** * The controller and its worker nodes

    The worker node of SlaveNode.v and SlaveExtents.v behind a connection of
    the controller: the commands that change the extent map in place, and the
    answers slavecomm.cpp sends.  What the node's theorems say about undoing
    such a command makes the controller's protocol atomic. *)
From Stdlib Require Import ZArith Lia.
From S2P Require Import Prelude Bytes Undoable Hasher HashChain BrmTypes VSS VBBM VersionBuffer.
From S2P Require Import CopyLocks ExtentMap ExtentAlloc ExtentProofs ExtentDelete ExtentHWM.
From S2P Require Import ExtentImage ExtentUndo SlaveNode SlaveExtents VersionBufferProofs.
From S2P Require Import SlaveExtentProofs SessionManager Controller ControllerProofs.

Local Open Scope Z_scope.

(** The command codes, brmtypes.h *)
Definition command_code (c : command) : Z :=
  match c with
  | MarkInvalid _ _ => 18
  | MarkInvalids _ => 19
  | SetMaxMin _ _ _ _ => 21
  | SetExtentsMaxMin _ => 26
  | MergeExtentsMaxMin _ => 32
  | SetLocalHWM _ _ _ _ => 29
  | BulkSetHWM _ => 37
  | MarkPartition _ _ => MARK_PARTITION_FOR_DELETION
  | MarkAllPartition _ => 41
  | RestorePartition _ _ => RESTORE_PARTITION
  | CreateColumn _ _ _ _ _ _ _ _ => 36
  | CreateExact _ _ _ _ _ _ => 42
  | CreateDict _ _ _ _ => 28
  end.

Section Nodes.
(** The text a worker sends with the error of a partition command. *)
Context (emsg : command -> Z -> list Z).

(** An answer: the error code, and what follows it.  A node whose code has no
    defined behaviour does not answer. *)
Definition with_code {A} (r : res (Z * option A)) (out : A -> list Z) : list Z :=
  match r with
  | Ret (err, Some a) => le_bytes 1 err ++ (if decide (err = 0) then out a else [])
  | Ret (err, None) => le_bytes 1 err
  | _ => []
  end.
Definition code_only (r : res Z) (more : Z -> list Z) : list Z :=
  match r with Ret err => le_bytes 1 err ++ (if decide (err = 0) then [] else more err) | _ => [] end.

Definition node_reply (c : command) (s : enode) : list Z :=
  match c with
  | CreateColumn F X R oid w d t part =>
      with_code (fst (node_createColumnExtent_DBroot F X R oid w d t part s))
        (fun '(lbid, allocd, p) => le_bytes 4 (pl_part p) ++ le_bytes 2 (pl_seg p) ++ le_bytes 8 lbid ++
           le_bytes 4 allocd ++ le_bytes 4 (pl_off p))
  | CreateExact oid w d part seg t =>
      with_code (fst (node_createColumnExtentExactFile oid w d part seg t s))
        (fun '(lbid, allocd, off) => le_bytes 4 part ++ le_bytes 2 seg ++ le_bytes 8 lbid ++
           le_bytes 4 allocd ++ le_bytes 4 off)
  | CreateDict oid d part seg =>
      with_code (fst (node_createDictStoreExtent oid d part seg s))
        (fun '(lbid, allocd) => le_bytes 8 lbid ++ le_bytes 4 allocd)
  | MarkPartition _ _ | RestorePartition _ _ => code_only (fst (node_command c s)) (emsg c)
  | _ => code_only (fst (node_command c s)) (fun _ => [])
  end.

#[export] Instance node_worker : Worker command enode := {
  cmd_code := command_code;
  w_exec := fun c s => (node_reply c s, snd (node_command c s));
  w_undo := fun s => snd (SlaveNode.undoChanges s);
  w_confirm := fun s => snd (SlaveNode.confirmChanges s);
}.

(** ** Results *)

Lemma node_undoes c m t cl : em_mapped m -> not_full m -> undoes c (idle m t cl).
Proof.
  intros Hm Hn. split; [|reflexivity].
  change (snd (SlaveNode.undoChanges (snd (node_command c (idle m t cl)))) = idle m t cl).
  by rewrite node_command_undo.
Qed.

Lemma nodes_not_refused c m : refused c m = false.
Proof. unfold refused. by destruct c. Qed.

(** ** Properties *)

(** C30: When the connection to one worker breaks while one of the commands of
    [node_command] (mark extents, set ranges and high water marks, create single
    extents) is being sent to equal nodes whose segments are mapped and whose extent map
    has an unused entry, the client gets a network error, the controller becomes
    read-only, and the tables of all worker nodes are as before the command, whatever
    part of it some of them had done. *)
Theorem ctl_extent_atomic k j c events m t cl sm0 i : em_mapped m -> not_full m ->
  let node := idle m t cl in
  exists s', process c events (one_faulty k j node [true] [] sm0 i) = (Ret [ERR_NETWORK], s') /\
    workers s' = replicate (k + S j) node /\ readOnly s' = true /\ halting s' = false.
Proof.
  intros Hm Hn node. apply write_failure; [by apply node_undoes|apply nodes_not_refused].
Qed.

(** C29: When one worker does not answer one of the commands of [node_command] (mark
    extents, set ranges and high water marks, create single extents), sent to equal
    nodes whose segments are mapped and whose extent map has an unused entry, and the
    controller reconnects and tries again, the answer and the tables of all worker nodes
    are those of a single copy on which the command ran once. *)
Theorem ctl_extent_failover k j c events m t cl sm0 i : em_mapped m -> not_full m ->
  let node := idle m t cl in
  answers c node ->
  exists i', process c (Reload [] :: events) (one_faulty k j node [] [true] sm0 i) =
    (Ret (single c sm0 node).1.1,
     ctl (replicate (k + S j) (single c sm0 node).1.2) i' (single c sm0 node).2 false sm0).
Proof.
  intros Hm Hn node Ha. destruct (single c sm0 node) as [[r w'] ro] eqn:E.
  by apply failover; [|apply node_undoes|apply nodes_not_refused|].
Qed.

End Nodes.

(** ** Nodes and a new extent *)

Definition no_text (_ : command) (_ : Z) : list Z := [].
#[local] Instance demo_worker : Worker command enode := node_worker no_text.

Definition demo_cmd : command := CreateColumn 4 2 1 3001 8 root1 BIGINT 0.
Definition demo_node : enode := idle demo_image t_idle (mkUndoable cl_empty []).
(** A node that has fallen behind. *)
Definition stale_node : enode := idle tight_image t_idle (mkUndoable cl_empty []).
Definition extent_count (s : enode) : nat := length (extents (image (em_und (em s)))).

Lemma demo_answers : answers demo_cmd demo_node.
Proof. split; [|split]; intros E; vm_compute in E; discriminate. Qed.

Lemma ctl_extent_atomic_witness :
  exists s', process demo_cmd [] (one_faulty 1 1 demo_node [true] [] demo_sm 0) = (Ret [ERR_NETWORK], s') /\
    workers s' = [demo_node; demo_node; demo_node] /\ readOnly s' = true.
Proof.
  destruct (ctl_extent_atomic no_text 1 1 demo_cmd [] demo_image t_idle (mkUndoable cl_empty []) demo_sm 0)
    as (s' & H & Hw & Hr & _); [exact demo_mapped|vm_compute; discriminate|].
  exists s'. split; [exact H|]. split; [exact Hw|exact Hr].
Defined.

Lemma ctl_extent_failover_witness :
  exists s', process demo_cmd [Reload []] (one_faulty 1 1 demo_node [] [true] demo_sm 0)
      = (Ret (reply1 demo_cmd demo_node), s') /\
    extent_count <$> workers s' = [3; 3; 3]%nat /\ readOnly s' = false.
Proof.
  destruct (ctl_extent_failover no_text 1 1 demo_cmd [] demo_image t_idle (mkUndoable cl_empty [])
    demo_sm 0) as [i' H]; [exact demo_mapped|vm_compute; discriminate|exact demo_answers|].
  eexists. split; [exact H|]. vm_compute. split; reflexivity.
Defined.

Lemma ctl_single_copy_witness :
  exists w' i', extent_count w' = 3%nat /\
    process demo_cmd [] (ctl [demo_node; demo_node; demo_node] 0 false false demo_sm) =
    (Ret (reply1 demo_cmd demo_node), ctl [w'; w'; w'] i' false false demo_sm).
Proof.
  destruct (ctl_single_copy 2 demo_cmd [] demo_node 0 demo_sm (reply1 demo_cmd demo_node)
    (w_confirm (exec1 demo_cmd demo_node)) false demo_answers) as [i' H];
    [vm_compute; reflexivity|].
  eexists _, i'. split; [|exact H]. vm_compute. reflexivity.
Defined.

(** A node that is ahead by one extent answers differently; it has carried the
    command out three times before it is told to undo. *)
Lemma ctl_inconsistent_witness :
  exists s', process demo_cmd [] (ctl [demo_node; stale_node] 0 false false demo_sm) =
      (Ret [ERR_SLAVE_INCONSISTENCY], s') /\ readOnly s' = true.
Proof.
  destruct (ctl_inconsistent demo_cmd [] demo_node [stale_node] 0 demo_sm) as [i' H].
  - apply Forall_cons. split; [exact demo_answers|]. apply Forall_singleton.
    split; [|split]; intros E; vm_compute in E; discriminate.
  - reflexivity.
  - reflexivity.
  - vm_compute. reflexivity.
  - eexists. split; [exact H|]. reflexivity.
Defined.

(** After a resume the second node has one extent more, and nobody knows. *)
Lemma ctl_resume_diverges_witness :
  exists s', process demo_cmd [Resume] (one_faulty 0 1 demo_node [] [true] demo_sm 0) =
      (Ret (reply1 demo_cmd demo_node), s') /\
    extent_count <$> workers s' = [3; 4]%nat /\ readOnly s' = false.
Proof.
  destruct (ctl_resume_diverges demo_cmd demo_node demo_sm 0 demo_answers) as (s' & H & Hw & Hr & _).
  - apply (node_undoes no_text demo_cmd demo_image t_idle (mkUndoable cl_empty []));
      [exact demo_mapped|vm_compute; discriminate].
  - reflexivity.
  - vm_compute. reflexivity.
  - reflexivity.
  - exists s'. split; [exact H|]. split; [|exact Hr]. rewrite Hw. vm_compute. reflexivity.
Defined.
