(* ===== verification/Messages.v ===== *)
(** * The commands on the wire: src/versioning/BRM/dbrm.cpp and slavecomm.cpp

    A client packs a command for the workers into a message; every worker
    unpacks it, carries it out and packs its answer.  [pack] is the first half
    of the functions of [DBRM], [receive], [perform] and [reply] are the [do_*] functions of
    [SlaveComm]; [understand] is the second half of those of [DBRM]. *)
From Stdlib Require Import ZArith Lia.
From S2P Require Import Prelude Bytes Undoable BrmTypes VSS VBBM CopyLocks ExtentMap ExtentAlloc ExtentDelete ExtentHWM SlaveNode SlaveExtents TableLocks Controller Requests.

Local Open Scope Z_scope.

(** ** Column types *)

(** [ColDataType] as a number: the position in the enumeration. *)
Definition col_types : list ColDataType :=
  [BIT; TINYINT; CHAR; SMALLINT; DECIMAL; MEDINT; INT; FLOAT; DATE; BIGINT; DOUBLE; DATETIME; VARCHAR;
   VARBINARY; CLOB; BLOB; UTINYINT; USMALLINT; UDECIMAL; UMEDINT; UINT; UFLOAT; UBIGINT; UDOUBLE;
   NUM_OF_COL_DATA_TYPE; LONGDOUBLE; STRINT].
#[export] Instance ColDataType_eq_dec : EqDecision ColDataType.
Proof. solve_decision. Defined.
Definition type_code (t : ColDataType) : Z :=
  match list_find (eq t) col_types with Some (n, _) => Z.of_nat n | None => 0 end.
(** Other numbers are no type the code asks for. *)
Definition type_of (n : Z) : ColDataType :=
  default NUM_OF_COL_DATA_TYPE (col_types !! Z.to_nat n).

(** ** Commands *)

Inductive message :=
  | MCreateStripe (cols : list StripeArg) (d : DBROOTS_struct) (part : Z)
  | MCreateColumn (oid width : Z) (d : DBROOTS_struct) (part seg : Z) (t : ColDataType)
  | MCreateExact (oid width : Z) (d : DBROOTS_struct) (part seg : Z) (t : ColDataType)
  | MCreateDict (oid : Z) (d : DBROOTS_struct) (part seg : Z)
  | MRollbackColumn (oid : Z) (all : bool) (d : DBROOTS_struct) (part seg hwm : Z)
  | MRollbackDict (oid : Z) (d : DBROOTS_struct) (part : Z) (segs hwms : list Z)
  | MDeleteEmptyCol (infos : list (Z * ExtentInfo))
  | MDeleteEmptyDict (infos : list (Z * ExtentInfo))
  | MDeleteOID (oid : Z)
  | MDeleteOIDs (oids : list Z)
  | MSetLocalHWM (oid part seg hwm : Z)
  | MBulkSetHWM (args : list BulkSetHWMArg) (transID : Z)
  | MBulkSetHWMAndCP (args : list BulkSetHWMArg) (sets : list CPInfo) (merges : list CPInfoMerge)
      (transID : Z)
  | MBulkUpdateDBRoot (args : list (Z * DBROOTS_struct))
  | MMarkInvalid (lbid : Z) (t : ColDataType)
  | MMarkInvalids (lbids : list (Z * ColDataType))
  | MSetMaxMin (lbid max min seqNum : Z)
  | MSetExtentsMaxMin (cps : list CPInfo)
  | MMergeExtentsMaxMin (cps : list CPInfoMerge)
  | MDeletePartition (oids : list Z) (parts : list LogicalPartition)
  | MMarkPartition (oids : list Z) (parts : list LogicalPartition)
  | MMarkAllPartition (oids : list Z)
  | MRestorePartition (oids : list Z) (parts : list LogicalPartition)
  | MDeleteDBRoot (dbr : Z)
  | MWriteVBEntry (transID lbid dbrIdx vbOID vbFBO : Z)
  | MBeginVBCopy (transID : Z) (d : DBROOTS_struct) (dbrIndex : Z) (ranges : list LBIDRange)
  | MEndVBCopy (transID : Z) (ranges : list LBIDRange)
  | MVbRollback1 (transID : Z) (ranges : list LBIDRange)
  | MVbRollback2 (transID : Z) (lbids : list Z)
  | MVbCommit (transID : Z)
  | MLockRanges (ranges : list LBIDRange) (txnID : Z)
  | MReleaseRanges (ranges : list LBIDRange).

(** The command codes, brmtypes.h *)
Definition code_of (m : message) : Z :=
  match m with
  | MDeleteOID _ => 1
  | MWriteVBEntry _ _ _ _ _ => 3
  | MBeginVBCopy _ _ _ _ => 4
  | MEndVBCopy _ _ => 5
  | MVbRollback1 _ _ => 6
  | MVbRollback2 _ _ => 7
  | MVbCommit _ => 8
  | MMarkInvalid _ _ => 18
  | MMarkInvalids _ => 19
  | MSetMaxMin _ _ _ _ => 21
  | MDeleteEmptyCol _ => 24
  | MDeleteEmptyDict _ => 25
  | MSetExtentsMaxMin _ => 26
  | MCreateDict _ _ _ _ => 28
  | MSetLocalHWM _ _ _ _ => 29
  | MDeleteOIDs _ => 30
  | MMergeExtentsMaxMin _ => 32
  | MDeletePartition _ _ => 33
  | MMarkPartition _ _ => 34
  | MRestorePartition _ _ => 35
  | MCreateColumn _ _ _ _ _ _ => 36
  | MBulkSetHWM _ _ => 37
  | MRollbackColumn _ _ _ _ _ _ => 38
  | MRollbackDict _ _ _ _ _ => 39
  | MBulkSetHWMAndCP _ _ _ _ => 40
  | MMarkAllPartition _ => 41
  | MCreateExact _ _ _ _ _ _ => 42
  | MDeleteDBRoot _ => 43
  | MCreateStripe _ _ _ => 44
  | MLockRanges _ _ => 90
  | MReleaseRanges _ => 91
  | MBulkUpdateDBRoot _ => 100
  end.

(** ** Vectors *)

(** [serializeVector] and [serializeInlineVector]: the number of elements and
    the elements; an inline element is the memory of the struct.  Loops of the
    code have a 32-bit number in front. *)
Definition put_vector {A} (w : A -> list Z) (l : list A) : list Z :=
  le_bytes 8 (Z.of_nat (length l)) ++ (l ≫= w).
Definition get_vector {A} (r : reader A) : reader (list A) :=
  n ← get_u64; get_list (Z.to_nat n) r.
Definition put_counted {A} (w : A -> list Z) (l : list A) : list Z :=
  le_bytes 4 (Z.of_nat (length l)) ++ (l ≫= w).
Definition get_counted {A} (r : reader A) : reader (list A) :=
  n ← get_u32; get_list (Z.to_nat n) r.

Definition get_flag32 : reader bool := x ← get_u32; mret (negb (bool_decide (x = 0))).

(** Elements.  [pad] is what the padding of a struct holds. *)
Definition pad : Z := 0.

Definition put_stripe (a : StripeArg) : list Z :=
  le_bytes 4 (sa_oid a) ++ le_bytes 4 (sa_width a) ++ le_bytes 4 (type_code (sa_type a)).
Definition get_stripe : reader StripeArg :=
  o ← get_s32; w ← get_u32; t ← get_u32; mret (mkStripeArg o w (type_of t)).

Definition put_hwm_arg (a : BulkSetHWMArg) : list Z :=
  le_bytes 4 (bh_oid a) ++ le_bytes 4 (bh_partNum a) ++ le_bytes 2 (bh_segNum a) ++ le_bytes 2 pad ++
  le_bytes 4 (bh_hwm a).
Definition get_hwm_arg : reader BulkSetHWMArg :=
  o ← get_s32; p ← get_u32; s ← get_u16; get_u16;; h ← get_u32; mret (mkBulkHWM o p s h).

Definition put_cp_info (a : CPInfo) : list Z :=
  le_bytes 8 (ci_firstLbid a) ++ le_bytes 8 (mm_max (ci_cp a)) ++ le_bytes 8 (mm_min (ci_cp a)) ++
  le_bytes 4 (mm_seqNum (ci_cp a)).
Definition get_cp_info : reader CPInfo :=
  l ← get_s64; mx ← get_s64; mn ← get_s64; s ← get_s32; mret (mkCPInfo l (mkMaxMin mx mn s)).
Definition put_cp_info_inline (a : CPInfo) : list Z := put_cp_info a ++ le_bytes 4 pad.
Definition get_cp_info_inline : reader CPInfo := a ← get_cp_info; get_u32;; mret a.

Definition put_merge (a : CPInfoMerge) : list Z :=
  le_bytes 8 (cm_startLbid a) ++ le_bytes 8 (mg_max (cm_cp a)) ++ le_bytes 8 (mg_min (cm_cp a)) ++
  le_bytes 4 (mg_seqNum (cm_cp a)) ++ le_bytes 4 (type_code (mg_type (cm_cp a))) ++
  le_bytes 4 (if mg_newExtent (cm_cp a) then 1 else 0).
Definition get_merge : reader CPInfoMerge :=
  l ← get_s64; mx ← get_s64; mn ← get_s64; s ← get_s32; t ← get_u32; n ← get_flag32;
  mret (mkCPInfoMerge l (mkMerge mx mn s (type_of t) n)).
(** In memory the flag has one byte and seven of padding. *)
Definition put_merge_inline (a : CPInfoMerge) : list Z :=
  le_bytes 8 (cm_startLbid a) ++ le_bytes 8 (mg_max (cm_cp a)) ++ le_bytes 8 (mg_min (cm_cp a)) ++
  le_bytes 4 (mg_seqNum (cm_cp a)) ++ le_bytes 4 (type_code (mg_type (cm_cp a))) ++
  put_bool (mg_newExtent (cm_cp a)) ++ le_bytes 7 pad.
Definition get_merge_inline : reader CPInfoMerge :=
  l ← get_s64; mx ← get_s64; mn ← get_s64; s ← get_s32; t ← get_u32; n ← get_flag; get_u 7;;
  mret (mkCPInfoMerge l (mkMerge mx mn s (type_of t) n)).

Definition put_update (a : Z * DBROOTS_struct) : list Z := le_bytes 8 a.1 ++ roots_bytes a.2.
Definition get_update : reader (Z * DBROOTS_struct) := l ← get_s64; d ← get_roots; mret (l, d).

Definition put_mark (a : Z * ColDataType) : list Z := le_bytes 8 a.1 ++ le_bytes 4 (type_code a.2).
Definition get_mark : reader (Z * ColDataType) := l ← get_s64; t ← get_u32; mret (l, type_of t).

(** [newFile] goes only with dictionaries. *)
Definition put_info (dict : bool) (a : Z * ExtentInfo) : list Z :=
  le_bytes 4 a.1 ++ le_bytes 4 (xi_partitionNum a.2) ++ le_bytes 2 (xi_segmentNum a.2) ++
  roots_bytes (xi_dbRoot a.2) ++ le_bytes 4 (xi_hwm a.2) ++
  (if dict then put_bool (xi_newFile a.2) else []).
Definition get_info (dict : bool) : reader (Z * ExtentInfo) :=
  o ← get_s32; p ← get_u32; s ← get_u16; d ← get_roots; h ← get_u32;
  n ← (if dict then get_flag else mret false);
  mret (o, mkInfo p s d h n).

(** ** Packing, dbrm.cpp *)

Definition put_partitions (oids : list Z) (parts : list LogicalPartition) : list Z :=
  put_vector lp_bytes parts ++ put_counted (le_bytes 4) oids.

Definition args (m : message) : list Z :=
  match m with
  | MCreateStripe cols d part => put_vector put_stripe cols ++ roots_bytes d ++ le_bytes 4 part
  | MCreateColumn oid w d part seg t =>
      le_bytes 4 oid ++ le_bytes 4 w ++ roots_bytes d ++ le_bytes 4 part ++ le_bytes 2 seg ++
      le_bytes 4 (u8 (type_code t))
  | MCreateExact oid w d part seg t =>
      le_bytes 4 oid ++ le_bytes 4 w ++ roots_bytes d ++ le_bytes 4 part ++ le_bytes 2 seg ++
      le_bytes 1 (type_code t)
  | MCreateDict oid d part seg => le_bytes 4 oid ++ roots_bytes d ++ le_bytes 4 part ++ le_bytes 2 seg
  | MRollbackColumn oid all d part seg hwm =>
      le_bytes 4 oid ++ put_bool all ++ roots_bytes d ++ le_bytes 4 part ++ le_bytes 2 seg ++ le_bytes 4 hwm
  | MRollbackDict oid d part segs hwms =>
      le_bytes 4 oid ++ roots_bytes d ++ le_bytes 4 part ++ put_vector (le_bytes 2) segs ++
      put_vector (le_bytes 4) hwms
  | MDeleteEmptyCol infos => put_counted (put_info false) infos
  | MDeleteEmptyDict infos => put_counted (put_info true) infos
  | MDeleteOID oid => le_bytes 4 oid
  | MDeleteOIDs oids => put_counted (le_bytes 4) oids
  | MSetLocalHWM oid part seg hwm => le_bytes 4 oid ++ le_bytes 4 part ++ le_bytes 2 seg ++ le_bytes 4 hwm
  | MBulkSetHWM v transID => put_vector put_hwm_arg v ++ le_bytes 4 transID
  | MBulkSetHWMAndCP v sets merges transID =>
      put_vector put_hwm_arg v ++ put_vector put_cp_info_inline sets ++ put_vector put_merge_inline merges ++
      le_bytes 4 transID
  | MBulkUpdateDBRoot v => put_vector put_update v
  | MMarkInvalid lbid t => le_bytes 8 lbid ++ le_bytes 4 (type_code t)
  | MMarkInvalids l => put_counted put_mark l
  | MSetMaxMin lbid max min seqNum =>
      le_bytes 8 lbid ++ le_bytes 8 max ++ le_bytes 8 min ++ le_bytes 8 seqNum
  | MSetExtentsMaxMin l => put_counted put_cp_info l
  | MMergeExtentsMaxMin l => put_counted put_merge l
  | MDeletePartition oids parts | MMarkPartition oids parts | MRestorePartition oids parts =>
      put_partitions oids parts
  | MMarkAllPartition oids => put_counted (le_bytes 4) oids
  | MDeleteDBRoot dbr => roots_bytes (mkRoots [dbr; 0; 0; 0])
  | MWriteVBEntry transID lbid idx vbOID vbFBO =>
      le_bytes 4 transID ++ le_bytes 8 lbid ++ le_bytes 1 idx ++ le_bytes 4 vbOID ++ le_bytes 4 vbFBO
  | MBeginVBCopy transID d idx ranges =>
      le_bytes 4 transID ++ roots_bytes d ++ le_bytes 1 idx ++ put_vector LBIDRange_serialize ranges
  | MEndVBCopy transID ranges | MVbRollback1 transID ranges =>
      le_bytes 4 transID ++ put_vector LBIDRange_serialize ranges
  | MVbRollback2 transID lbids => le_bytes 4 transID ++ put_vector (le_bytes 8) lbids
  | MVbCommit transID => le_bytes 4 transID
  | MLockRanges ranges txnID => put_vector LBIDRange_serialize ranges ++ le_bytes 4 txnID
  | MReleaseRanges ranges => put_vector LBIDRange_serialize ranges
  end.

Definition pack (m : message) : list Z := le_bytes 1 (code_of m) ++ args m.

(** ** Unpacking, slavecomm.cpp *)

(** [int32_t updateCount]: a number above 2^31 - 1 is no element. *)
Definition get_counted_int {A} (r : reader A) : reader (list A) :=
  n ← get_s32; get_list (Z.to_nat n) r.

Definition get_type8 : reader ColDataType := t ← get_u 1; mret (type_of t).

Definition get_column (k : Z -> Z -> DBROOTS_struct -> Z -> Z -> ColDataType -> message) : reader message :=
  oid ← get_s32; w ← get_u32; d ← get_roots; part ← get_u32; seg ← get_u16; t ← get_type8;
  mret (k oid w d part seg t).

Definition get_partitions (k : list Z -> list LogicalPartition -> message) : reader message :=
  parts ← get_vector get_lp; oids ← get_counted get_s32; mret (k oids parts).

(** The arguments of a command, by its code; [None] for other codes. *)
Definition get_args (code : Z) : option (reader message) :=
  let ranges := get_vector LBIDRange_deserialize in
  match code with
  | 44 => Some (cols ← get_vector get_stripe; d ← get_roots; part ← get_u16; mret (MCreateStripe cols d part))
  | 36 => Some (get_column MCreateColumn)
  | 42 => Some (get_column MCreateExact)
  | 28 => Some (oid ← get_s32; d ← get_roots; part ← get_u32; seg ← get_u16; mret (MCreateDict oid d part seg))
  | 38 => Some (oid ← get_s32; all ← get_flag; d ← get_roots; part ← get_u32; seg ← get_u16; hwm ← get_u32;
          mret (MRollbackColumn oid all d part seg hwm))
  | 39 => Some (oid ← get_s32; d ← get_roots; part ← get_u32; segs ← get_vector get_u16;
          hwms ← get_vector get_u32; mret (MRollbackDict oid d part segs hwms))
  | 24 => Some (l ← get_counted (get_info false); mret (MDeleteEmptyCol l))
  | 25 => Some (l ← get_counted (get_info true); mret (MDeleteEmptyDict l))
  | 1 => Some (oid ← get_s32; mret (MDeleteOID oid))
  | 30 => Some (l ← get_counted get_s32; mret (MDeleteOIDs l))
  | 29 => Some (oid ← get_s32; part ← get_u32; seg ← get_u16; hwm ← get_u32;
          mret (MSetLocalHWM oid part seg hwm))
  | 37 => Some (v ← get_vector get_hwm_arg; t ← get_s32; mret (MBulkSetHWM v t))
  | 40 => Some (v ← get_vector get_hwm_arg; sets ← get_vector get_cp_info_inline;
          merges ← get_vector get_merge_inline; t ← get_s32; mret (MBulkSetHWMAndCP v sets merges t))
  | 100 => Some (v ← get_vector get_update; mret (MBulkUpdateDBRoot v))
  | 18 => Some (lbid ← get_s64; t ← get_u32; mret (MMarkInvalid lbid (type_of t)))
  | 19 => Some (l ← get_counted get_mark; mret (MMarkInvalids l))
  | 21 => Some (lbid ← get_s64; mx ← get_s64; mn ← get_s64; s ← get_s32; mret (MSetMaxMin lbid mx mn s))
  | 26 => Some (l ← get_counted_int get_cp_info; mret (MSetExtentsMaxMin l))
  | 32 => Some (l ← get_counted_int get_merge; mret (MMergeExtentsMaxMin l))
  | 33 => Some (get_partitions MDeletePartition)
  | 34 => Some (get_partitions MMarkPartition)
  | 41 => Some (l ← get_counted get_s32; mret (MMarkAllPartition l))
  | 35 => Some (get_partitions MRestorePartition)
  | 43 => Some (d ← get_roots; mret (MDeleteDBRoot (default 0 (head (dbRoots d)))))
  | 3 => Some (t ← get_s32; lbid ← get_s64; i ← get_u 1; o ← get_s32; f ← get_u32;
         mret (MWriteVBEntry t lbid i o f))
  | 4 => Some (t ← get_s32; d ← get_roots; i ← get_u 1; r ← ranges; mret (MBeginVBCopy t d i r))
  | 5 => Some (t ← get_s32; r ← ranges; mret (MEndVBCopy t r))
  | 6 => Some (t ← get_s32; r ← ranges; mret (MVbRollback1 t r))
  | 7 => Some (t ← get_s32; l ← get_vector get_s64; mret (MVbRollback2 t l))
  | 8 => Some (t ← get_s32; mret (MVbCommit t))
  | 90 => Some (r ← ranges; t ← get_s32; mret (MLockRanges r t))
  | 91 => Some (r ← ranges; mret (MReleaseRanges r))
  | _ => None
  end.

(** Bytes behind the arguments are not looked at.  [None] when the message is
    too short.  (A vector that is copied as memory is then read past the end.) *)
Definition receive (msg : list Z) : option message :=
  '(code, rest) ← get_u 1 msg; r ← get_args code; '(m, _) ← r rest; Some m.

(** ** Carrying out a command, slavecomm.cpp *)

(** What a command gives back beside its error code. *)
Inductive outputs :=
  | ONone
  | OStripe (extents : list (Z * Z * Z)) (part seg : Z)
  | OExtent (part seg lbid allocdSize startBlockOffset : Z)
  | ODict (lbid allocdSize : Z)
  | OFree (freeList : list VBRange)
  | OText (emsg : list Z).

Definition put_extent_out (a : Z * Z * Z) : list Z :=
  let '(lbid, size, off) := a in le_bytes 8 lbid ++ le_bytes 4 size ++ le_bytes 4 off.
Definition get_extent_out : reader (Z * Z * Z) :=
  lbid ← get_s64; size ← get_s32; off ← get_u32; mret (lbid, size, off).

(** The answer: [reply << (uint8_t) err], and what follows. *)
Definition reply (err : Z) (out : outputs) : list Z :=
  le_bytes 1 err ++
  match out with
  | ONone => []
  | OStripe exts part seg => le_bytes 4 part ++ le_bytes 2 seg ++ put_vector put_extent_out exts
  | OExtent part seg lbid size off =>
      le_bytes 4 part ++ le_bytes 2 seg ++ le_bytes 8 lbid ++ le_bytes 4 size ++ le_bytes 4 off
  | ODict lbid size => le_bytes 8 lbid ++ le_bytes 4 size
  | OFree l => put_vector VBRange_serialize l
  | OText text => put_string text
  end.

Section Run.
(** The configuration. *)
Context (FILES_PER_COL_PART EXTENTS_PER_SEGFILE DBROOT_COUNT : Z).
Context (VersionBufferFileSize : option Z) (repSize : Z).
(** What other processes do to the shared tables while a command sleeps. *)
Context (others : nat -> vss_seg * vbbm_seg * cl_seg -> vss_seg * vbbm_seg * cl_seg).
(** The text of the exception of a partition command. *)
Context (emsg : message -> Z -> list Z).
(** The order in which an [unordered_map] is iterated. *)
Context (info_order : gmap Z ExtentInfo -> ExtentsInfoMap).

(** The call of the node.  Only a success has outputs; a partition command that
    fails has a text. *)
Definition only_code (p : prog enode Z) : prog enode (Z * outputs) := err ← p; mret (err, ONone).
Definition with_outputs {A} (p : prog enode (Z * option A)) (f : A -> outputs) : prog enode (Z * outputs) :=
  '(err, a) ← p; mret (err, if decide (err = 0) then default ONone (f <$> a) else ONone).
Definition with_text (m : message) (p : prog enode Z) : prog enode (Z * outputs) :=
  err ← p; mret (err, if decide (err = 0) then ONone else OText (emsg m err)).

Definition part_set (l : list LogicalPartition) : list LogicalPartition := foldr lp_insert [] l.

Definition perform (m : message) : prog enode (Z * outputs) :=
  match m with
  | MCreateStripe cols d part =>
      with_outputs (node_createStripeColumnExtents FILES_PER_COL_PART EXTENTS_PER_SEGFILE DBROOT_COUNT cols d part)
        (fun '(exts, p, s) => OStripe exts p s)
  | MCreateColumn oid w d part _ t =>
      with_outputs (node_createColumnExtent_DBroot FILES_PER_COL_PART EXTENTS_PER_SEGFILE DBROOT_COUNT
                    oid w d t part)
        (fun '(lbid, allocd, p) => OExtent (pl_part p) (pl_seg p) lbid allocd (pl_off p))
  | MCreateExact oid w d part seg t =>
      with_outputs (node_createColumnExtentExactFile oid w d part seg t)
        (fun '(lbid, allocd, off) => OExtent part seg lbid allocd off)
  | MCreateDict oid d part seg =>
      with_outputs (node_createDictStoreExtent oid d part seg)
        (fun '(lbid, allocd) => ODict lbid allocd)
  | MRollbackColumn oid all d part seg hwm =>
      only_code (node_rollbackColumnExtents_DBroot oid all d part seg hwm)
  | MRollbackDict oid d part segs hwms => only_code (node_rollbackDictStoreExtents_DBroot oid d part segs hwms)
  | MDeleteEmptyCol infos => only_code (node_deleteEmptyColExtents (info_order (cp_map infos)))
  | MDeleteEmptyDict infos => only_code (node_deleteEmptyDictStoreExtents (info_order (cp_map infos)))
  | MDeleteOID oid => only_code (node_deleteOID VersionBufferFileSize oid)
  | MDeleteOIDs oids => only_code (node_deleteOIDs VersionBufferFileSize (list_to_set oids))
  | MSetLocalHWM oid part seg hwm => only_code (node_setLocalHWM oid part seg hwm)
  | MBulkSetHWM v transID => only_code (node_bulkSetHWM v transID)
  | MBulkSetHWMAndCP v sets merges transID => only_code (node_bulkSetHWMAndCP v sets merges transID)
  | MBulkUpdateDBRoot v => only_code (node_bulkUpdateDBRoot v)
  | MMarkInvalid lbid t => only_code (node_markExtentInvalid lbid t)
  | MMarkInvalids l => only_code (node_markExtentsInvalid l)
  | MSetMaxMin lbid max min seqNum => only_code (node_setExtentMaxMin lbid max min seqNum)
  | MSetExtentsMaxMin l =>
      only_code (node_setExtentsMaxMin (cp_map ((fun a => (ci_firstLbid a, ci_cp a)) <$> l)))
  | MMergeExtentsMaxMin l =>
      only_code (node_mergeExtentsMaxMin (cp_map ((fun a => (cm_startLbid a, cm_cp a)) <$> l)))
  | MDeletePartition oids parts =>
      with_text m (node_deletePartition (list_to_set oids) (part_set parts))
  | MMarkPartition oids parts =>
      with_text m (node_markPartitionForDeletion (list_to_set oids) (part_set parts))
  | MMarkAllPartition oids => only_code (node_markAllPartitionForDeletion (list_to_set oids))
  | MRestorePartition oids parts =>
      with_text m (node_restorePartition (list_to_set oids) (part_set parts))
  | MDeleteDBRoot dbr => only_code (node_deleteDBRoot dbr)
  | MWriteVBEntry transID lbid idx vbOID vbFBO =>
      only_code (writeVBEntry VersionBufferFileSize transID lbid idx vbOID vbFBO)
  | MBeginVBCopy transID d idx ranges =>
      with_outputs ('(err, l, _) ← beginVBCopy VersionBufferFileSize repSize others ranges transID d idx;
                    mret (err, Some l))
        OFree
  | MEndVBCopy transID ranges => only_code (endVBCopy transID ranges)
  | MVbRollback1 transID ranges =>
      only_code ('(err, _) ← vbRollback_ranges VersionBufferFileSize transID ranges; mret err)
  | MVbRollback2 transID lbids => only_code ('(err, _) ← vbRollback VersionBufferFileSize transID lbids; mret err)
  | MVbCommit transID => only_code (vbCommit transID)
  | MLockRanges ranges txnID => only_code (dmlLockLBIDRanges others ranges txnID)
  | MReleaseRanges ranges => only_code (dmlReleaseLBIDRanges ranges)
  end.

(** The part of [processCommand] for these commands, [BRM_CLEAR] and
    [FLUSH_INODE_CACHES]: the answer, [None] when it throws.  A command it does not
    know has no answer, nor has a node whose code has no defined behaviour. *)
Definition answer_of {A} (enc : A -> list Z) (x : res A * enode) : option (list Z) * enode :=
  match x with
  | (Ret a, s) => (Some (enc a), s)
  | (Throw _, s) => (None, s)
  | (UB _, s) => (Some [], s)
  end.
Definition exec_message (msg : list Z) (s : enode) : option (list Z) * enode :=
  match get_u 1 msg with
  | None => (None, s)
  | Some (code, rest) =>
      if decide (code = BRM_CLEAR) then answer_of (le_bytes 1) (clear VersionBufferFileSize s)
      else if decide (code = FLUSH_INODE_CACHES) then (Some [0], s)
      else match get_args code with
           | None => (Some [], s)
           | Some r =>
               match r rest with
               | None => (None, s)
               | Some (m, _) => answer_of (fun '(err, out) => reply err out) (perform m s)
               end
           end
  end.

End Run.

(** ** Reading the answer, dbrm.cpp *)

(** Stubs that take any answer but an empty one. *)
Definition any_length (m : message) : bool :=
  match m with
  | MMarkInvalid _ _ | MMarkInvalids _ | MSetMaxMin _ _ _ _ | MSetExtentsMaxMin _ | MMergeExtentsMaxMin _
  | MDeleteDBRoot _ => true
  | _ => false
  end.

Definition get_extent : reader outputs :=
  part ← get_u32; seg ← get_u16; lbid ← get_s64; size ← get_s32; off ← get_u32;
  mret (OExtent part seg lbid size off).
Definition get_stripe_out : reader outputs :=
  part ← get_u32; seg ← get_u16; exts ← get_vector get_extent_out; mret (OStripe exts part seg).
Definition get_dict : reader outputs := lbid ← get_s64; size ← get_s32; mret (ODict lbid size).
Definition get_free : reader outputs := l ← get_vector VBRange_deserialize; mret (OFree l).

(** The outputs of a success; [bad] is what the handler of exceptions returns. *)
Definition understand_outputs (bad : Z) (r : reader outputs) (response : list Z) : Z * outputs :=
  match response with
  | [] => (ERR_NETWORK, ONone)
  | err :: rest =>
      if decide (err = 0) then
        match r rest with Some (out, _) => (0, out) | None => (bad, ONone) end
      else (err, ONone)
  end.
(** A partition command; nothing catches what reading the text throws. *)
Definition understand_text (response : list Z) : res (Z * outputs) :=
  match response with
  | [] => Ret (ERR_NETWORK, ONone)
  | err :: rest =>
      if decide (err = 0) then Ret (0, ONone)
      else match get_string rest with Some (text, _) => Ret (err, OText text) | None => Throw RuntimeError end
  end.

(** The stubs, from the answer of [send_recv] on.  Those that drop columns then
    ask for their sequences to be deleted, a request of its own. *)
Definition understand (m : message) (response : list Z) : res (Z * outputs) :=
  match m with
  | MCreateStripe _ _ _ => Ret (understand_outputs ERR_FAILURE get_stripe_out response)
  | MCreateColumn _ _ _ _ _ _ | MCreateExact _ _ _ _ _ _ =>
      Ret (understand_outputs ERR_FAILURE get_extent response)
  | MCreateDict _ _ _ _ => Ret (understand_outputs ERR_FAILURE get_dict response)
  | MBeginVBCopy _ _ _ _ => Ret (understand_outputs ERR_NETWORK get_free response)
  | MDeletePartition _ _ | MMarkPartition _ _ | MRestorePartition _ _ => understand_text response
  | _ =>
      match response with
      | [err] => Ret (err, ONone)
      | err :: _ => Ret (if any_length m then err else ERR_NETWORK, ONone)
      | [] => Ret (ERR_NETWORK, ONone)
      end
  end.
