(* ===== verification/MessageProofs.v ===== *)
(** * What a client sends is what a worker carries out

    The bytes of a command mean the same to the client that packs them and to
    the worker that unpacks them, with the exceptions of [as_received]; a
    command that goes through the controller to a cluster of equal nodes acts
    like a call of one node. *)
From Stdlib Require Import ZArith Lia.
From S2P Require Import Prelude Bytes Undoable BrmTypes VSS VBBM CopyLocks ExtentMap ExtentAlloc ExtentDelete ExtentHWM SlaveNode SlaveExtents TableLocks SessionManager Controller ControllerProofs OidServer WorkerComm Requests DbrmProofs ExtentProofs ExtentImage ExtentUndo SlaveExtentProofs ControllerNodes Messages.

Local Open Scope Z_scope.

(** ** The values of the C++ types *)

Definition i32 (x : Z) : Prop := - 2 ^ 31 <= x < 2 ^ 31.
Definition i64 (x : Z) : Prop := - 2 ^ 63 <= x < 2 ^ 63.
Definition n8 (x : Z) : Prop := 0 <= x < 2 ^ 8.
Definition n16 (x : Z) : Prop := 0 <= x < 2 ^ 16.
Definition n32 (x : Z) : Prop := 0 <= x < 2 ^ 32.
Definition vec {A} (bits : Z) (P : A -> Prop) (l : list A) : Prop :=
  Forall P l /\ Z.of_nat (length l) < 2 ^ bits.

Definition stripe_ok (a : StripeArg) : Prop := i32 (sa_oid a) /\ n32 (sa_width a).
Definition hwm_arg_ok (a : BulkSetHWMArg) : Prop :=
  i32 (bh_oid a) /\ n32 (bh_partNum a) /\ n16 (bh_segNum a) /\ n32 (bh_hwm a).
Definition cp_info_ok (a : CPInfo) : Prop :=
  i64 (ci_firstLbid a) /\ i64 (mm_max (ci_cp a)) /\ i64 (mm_min (ci_cp a)) /\ i32 (mm_seqNum (ci_cp a)).
Definition merge_ok (a : CPInfoMerge) : Prop :=
  i64 (cm_startLbid a) /\ i64 (mg_max (cm_cp a)) /\ i64 (mg_min (cm_cp a)) /\ i32 (mg_seqNum (cm_cp a)).
Definition update_ok (a : Z * DBROOTS_struct) : Prop := i64 a.1 /\ roots_wf a.2.
Definition info_ok (a : Z * ExtentInfo) : Prop :=
  i32 a.1 /\ n32 (xi_partitionNum a.2) /\ n16 (xi_segmentNum a.2) /\ roots_wf (xi_dbRoot a.2) /\
  n32 (xi_hwm a.2).
Definition lp_ok (a : LogicalPartition) : Prop :=
  roots_wf (lp_dbRoot a) /\ n32 (lp_pp a) /\ n16 (lp_seg a).
Definition range_ok (r : LBIDRange) : Prop := i64 (r_start r) /\ n32 (r_size r).

(** The arguments have the types of the functions of [DBRM]. *)
Definition typed (m : message) : Prop :=
  match m with
  | MCreateStripe cols d part => vec 64 stripe_ok cols /\ roots_wf d /\ n32 part
  | MCreateColumn oid w d part seg _ | MCreateExact oid w d part seg _ =>
      i32 oid /\ n32 w /\ roots_wf d /\ n32 part /\ n16 seg
  | MCreateDict oid d part seg => i32 oid /\ roots_wf d /\ n32 part /\ n16 seg
  | MRollbackColumn oid _ d part seg hwm => i32 oid /\ roots_wf d /\ n32 part /\ n16 seg /\ n32 hwm
  | MRollbackDict oid d part segs hwms =>
      i32 oid /\ roots_wf d /\ n32 part /\ vec 64 n16 segs /\ vec 64 n32 hwms
  | MDeleteEmptyCol infos | MDeleteEmptyDict infos => vec 32 info_ok infos
  | MDeleteOID oid => i32 oid
  | MDeleteOIDs oids | MMarkAllPartition oids => vec 32 i32 oids
  | MSetLocalHWM oid part seg hwm => i32 oid /\ n32 part /\ n16 seg /\ n32 hwm
  | MBulkSetHWM v t => vec 64 hwm_arg_ok v /\ i32 t
  | MBulkSetHWMAndCP v sets merges t =>
      vec 64 hwm_arg_ok v /\ vec 64 cp_info_ok sets /\ vec 64 merge_ok merges /\ i32 t
  | MBulkUpdateDBRoot v => vec 64 update_ok v
  | MMarkInvalid lbid _ => i64 lbid
  | MMarkInvalids l => vec 32 (fun a => i64 a.1) l
  | MSetMaxMin lbid mx mn s => i64 lbid /\ i64 mx /\ i64 mn /\ i32 s
  | MSetExtentsMaxMin l => vec 31 cp_info_ok l
  | MMergeExtentsMaxMin l => vec 31 merge_ok l
  | MDeletePartition oids parts | MMarkPartition oids parts | MRestorePartition oids parts =>
      vec 32 i32 oids /\ vec 64 lp_ok parts
  | MDeleteDBRoot dbr => n16 dbr
  | MWriteVBEntry t lbid i o f => i32 t /\ i64 lbid /\ n8 i /\ i32 o /\ n32 f
  | MBeginVBCopy t d i ranges => i32 t /\ roots_wf d /\ n8 i /\ vec 64 range_ok ranges
  | MEndVBCopy t ranges | MVbRollback1 t ranges | MLockRanges ranges t => i32 t /\ vec 64 range_ok ranges
  | MVbRollback2 t lbids => i32 t /\ vec 64 i64 lbids
  | MVbCommit t => i32 t
  | MReleaseRanges ranges => vec 64 range_ok ranges
  end.

(** What a worker makes of a command: the partition of a stripe is cut to 16
    bits, and of a column it is not said whether its file is new. *)
Definition drop_newFile (a : Z * ExtentInfo) : Z * ExtentInfo :=
  (a.1, mkInfo (xi_partitionNum a.2) (xi_segmentNum a.2) (xi_dbRoot a.2) (xi_hwm a.2) false).
Definition as_received (m : message) : message :=
  match m with
  | MCreateStripe cols d part => MCreateStripe cols d (u16 part)
  | MDeleteEmptyCol infos => MDeleteEmptyCol (drop_newFile <$> infos)
  | _ => m
  end.

(** ** Codecs *)

Create HintDb wire.

Lemma bind_codec {A B} (w : A -> list Z) (r : reader A) P (k : A -> reader B) a rest out :
  codec w r P -> P a -> k a rest = out -> (r ≫= k) (w a ++ rest) = out.
Proof. intros Hc Ha <-. unfold mbind, reader_bind. by rewrite Hc. Qed.

Lemma codec_weaken {A} (w : A -> list Z) r (P Q : A -> Prop) :
  codec w r P -> (forall a, Q a -> P a) -> codec w r Q.
Proof. intros Hc H a rest Ha. apply Hc. auto. Qed.

Lemma wire_s32 : codec (le_bytes 4) get_s32 i32.
Proof. intros x rest H. rewrite get_s32_le. by rewrite s32_id. Qed.
Lemma wire_s64 : codec (le_bytes 8) get_s64 i64.
Proof.
  intros x rest H. rewrite get_s64_le. do 2 f_equal. unfold s64, i64 in *. rewrite Z.mod_small; lia.
Qed.
Lemma wire_u8 : codec (le_bytes 1) (get_u 1) n8.
Proof. intros x rest H. rewrite get_u_le. rewrite Z.mod_small; [done|]. exact H. Qed.
Lemma wire_u16 : codec (le_bytes 2) get_u16 n16.
Proof. exact codec_u16. Qed.
Lemma wire_u32 : codec (le_bytes 4) get_u32 n32.
Proof. exact codec_u32. Qed.
Lemma wire_bool : codec put_bool get_flag (fun _ => True).
Proof. intros b rest _. by destruct b. Qed.
Lemma wire_roots : codec roots_bytes get_roots roots_wf.
Proof. exact roots_codec. Qed.
Lemma wire_range : codec LBIDRange_serialize LBIDRange_deserialize range_ok.
Proof. exact LBIDRange_codec. Qed.
Lemma wire_lp : codec lp_bytes get_lp lp_ok.
Proof. exact lp_codec. Qed.

#[local] Hint Resolve wire_s32 wire_s64 wire_u8 wire_u16 wire_u32 wire_bool wire_roots wire_range wire_lp : wire.

Lemma type_code_range t : 0 <= type_code t < 27.
Proof. destruct t; vm_compute; split; congruence. Qed.
Lemma type_of_code t : type_of (type_code t) = t.
Proof. by destruct t. Qed.
Lemma n32_type t : n32 (type_code t).
Proof. pose proof (type_code_range t). unfold n32. lia. Qed.

(** One number or value after another. *)
Ltac wire1 :=
  rewrite <- ?app_assoc;
  eapply bind_codec; [solve [eauto with wire]|try solve [assumption|exact I|apply n32_type|by intuition|unfold n16, n32, pad; lia]|cbv beta].
Ltac wire_all := repeat wire1.

Lemma wire_vector {A} (w : A -> list Z) r P : codec w r P -> codec (put_vector w) (get_vector r) (vec 64 P).
Proof.
  intros Hc l rest [Hl Hn]. unfold get_vector, put_vector, mbind, reader_bind.
  rewrite <- app_assoc, get_u64_le. unfold u64. rewrite Z.mod_small, Nat2Z.id by lia.
  by apply (codec_list w r P).
Qed.
Lemma wire_counted {A} (w : A -> list Z) r P : codec w r P -> codec (put_counted w) (get_counted r) (vec 32 P).
Proof.
  intros Hc l rest [Hl Hn]. unfold get_counted, put_counted, mbind, reader_bind.
  rewrite <- app_assoc, get_u32_le. rewrite u32_id, Nat2Z.id by lia. by apply (codec_list w r P).
Qed.
Lemma wire_counted_int {A} (w : A -> list Z) r P :
  codec w r P -> codec (put_counted w) (get_counted_int r) (vec 31 P).
Proof.
  intros Hc l rest [Hl Hn]. unfold get_counted_int, put_counted, mbind, reader_bind.
  rewrite <- app_assoc, get_s32_le. rewrite s32_id, Nat2Z.id by lia. by apply (codec_list w r P).
Qed.
#[local] Hint Resolve wire_vector wire_counted wire_counted_int : wire.

Lemma wire_stripe : codec put_stripe get_stripe stripe_ok.
Proof.
  intros [o w t] rest [H1 H2]. unfold get_stripe, put_stripe. cbn [sa_oid sa_width sa_type] in *.
  wire_all. by rewrite type_of_code.
Qed.
Lemma wire_hwm_arg : codec put_hwm_arg get_hwm_arg hwm_arg_ok.
Proof.
  intros [o p s h] rest (H1 & H2 & H3 & H4). unfold get_hwm_arg, put_hwm_arg.
  cbn [bh_oid bh_partNum bh_segNum bh_hwm] in *.
  by wire_all.
Qed.
Lemma wire_cp_info : codec put_cp_info get_cp_info cp_info_ok.
Proof.
  intros [l [mx mn s]] rest (H1 & H2 & H3 & H4). unfold get_cp_info, put_cp_info.
  cbn [ci_firstLbid ci_cp mm_max mm_min mm_seqNum] in *. by wire_all.
Qed.
#[local] Hint Resolve wire_stripe wire_hwm_arg wire_cp_info : wire.
Lemma wire_cp_info_inline : codec put_cp_info_inline get_cp_info_inline cp_info_ok.
Proof.
  intros a rest H. unfold get_cp_info_inline, put_cp_info_inline. by wire_all.
Qed.
Lemma wire_merge : codec put_merge get_merge merge_ok.
Proof.
  intros [l [mx mn s t n]] rest (H1 & H2 & H3 & H4). unfold get_merge, put_merge.
  cbn [cm_startLbid cm_cp mg_max mg_min mg_seqNum mg_type mg_newExtent] in *.
  wire_all. rewrite type_of_code. by destruct n.
Qed.
Lemma wire_merge_inline : codec put_merge_inline get_merge_inline merge_ok.
Proof.
  intros [l [mx mn s t n]] rest (H1 & H2 & H3 & H4). unfold get_merge_inline, put_merge_inline.
  cbn [cm_startLbid cm_cp mg_max mg_min mg_seqNum mg_type mg_newExtent] in *.
  wire_all. rewrite type_of_code.
  unfold mbind, reader_bind. by rewrite get_u_le.
Qed.
Lemma wire_update : codec put_update get_update update_ok.
Proof. intros [l d] rest [H1 H2]. unfold get_update, put_update. cbn [fst snd] in *. by wire_all. Qed.
Lemma wire_mark : codec put_mark get_mark (fun a => i64 a.1).
Proof.
  intros [l t] rest H1. unfold get_mark, put_mark. cbn [fst snd] in *. wire_all. by rewrite type_of_code.
Qed.
Lemma wire_info : codec (put_info true) (get_info true) info_ok.
Proof.
  intros [o [p s d h n]] rest (H1 & H2 & H3 & H4 & H5). unfold get_info, put_info.
  cbn [fst snd xi_partitionNum xi_segmentNum xi_dbRoot xi_hwm xi_newFile] in *. by wire_all.
Qed.
#[local] Hint Resolve wire_cp_info_inline wire_merge wire_merge_inline wire_update wire_mark wire_info : wire.

(** The same bytes are read as if the flag were not set. *)
Lemma put_info_drop a : put_info false a = put_info false (drop_newFile a).
Proof. by destruct a as [o [p s d h n]]. Qed.
Lemma wire_info_col : codec (put_info false) (get_info false) (fun a => info_ok a /\ drop_newFile a = a).
Proof.
  intros [o [p s d h n]] rest [(H1 & H2 & H3 & H4 & H5) [= <-]]. unfold get_info, put_info.
  cbn [fst snd xi_partitionNum xi_segmentNum xi_dbRoot xi_hwm xi_newFile] in *. by wire_all.
Qed.
#[local] Hint Resolve wire_info_col : wire.

(** A field that is sent wider than it is read. *)
Lemma le_bytes_split n k x : le_bytes (n + k) x = le_bytes n x ++ le_bytes k (x / 2 ^ (8 * Z.of_nat n)).
Proof.
  revert x. induction n as [|n IH]; intros x; [by rewrite Z.div_1_r|].
  change (le_bytes (S n + k) x) with (x mod 256 :: le_bytes (n + k) (x / 256)).
  change (le_bytes (S n) x) with (x mod 256 :: le_bytes n (x / 256)).
  rewrite IH, Z.div_div by lia. cbn [app]. do 3 f_equal.
  replace (8 * Z.of_nat (S n)) with (8 + 8 * Z.of_nat n) by lia. by rewrite Z.pow_add_r by lia.
Qed.
Lemma bind_split {B} n k (r : reader Z) (f : Z -> reader B) x rest out :
  (r ≫= f) (le_bytes n x ++ (le_bytes k (x / 2 ^ (8 * Z.of_nat n)) ++ rest)) = out ->
  (r ≫= f) (le_bytes (n + k) x ++ rest) = out.
Proof. intros <-. by rewrite le_bytes_split, <- app_assoc. Qed.

Lemma get_type8_le t rest : get_type8 (le_bytes 1 (type_code t) ++ rest) = Some (t, rest).
Proof.
  pose proof (type_code_range t). unfold get_type8.
  eapply bind_codec; [apply wire_u8|unfold n8; lia|]. by rewrite type_of_code.
Qed.

(** What the reader of the command makes of the arguments, whatever follows. *)
Definition reads (m : message) : Prop :=
  forall tail, exists r tail', get_args (code_of m) = Some r /\ r (args m ++ tail) = Some (as_received m, tail').

Ltac reads := intros tail; do 2 eexists; split; [reflexivity|];
  unfold get_column, get_partitions, args, put_partitions; by wire_all.

Lemma reads_stripe cols d part : typed (MCreateStripe cols d part) -> reads (MCreateStripe cols d part).
Proof.
  intros (H1 & H2 & H3) tail. do 2 eexists. split; [reflexivity|]. cbn [args]. wire1. wire1.
  apply (bind_split 2 2). unfold mbind at 1, reader_bind at 1. by rewrite get_u16_le.
Qed.
Lemma reads_column oid w d part seg t : typed (MCreateColumn oid w d part seg t) ->
  reads (MCreateColumn oid w d part seg t) /\ reads (MCreateExact oid w d part seg t).
Proof.
  intros (H1 & H2 & H3 & H4 & H5); split; intros tail; do 2 eexists; (split; [reflexivity|]);
    unfold get_column; cbn [args]; do 5 wire1.
  - rewrite (le_bytes_split 1 3), <- app_assoc. unfold mbind at 1, reader_bind at 1.
    replace (u8 (type_code t)) with (type_code t); [by rewrite get_type8_le|].
    pose proof (type_code_range t). unfold u8. rewrite Z.mod_small; lia.
  - unfold mbind at 1, reader_bind at 1. by rewrite get_type8_le.
Qed.
Lemma reads_empty_col infos : typed (MDeleteEmptyCol infos) -> reads (MDeleteEmptyCol infos).
Proof.
  intros [H1 H2] tail. do 2 eexists. split; [reflexivity|]. cbn [args as_received].
  replace (put_counted (put_info false) infos) with (put_counted (put_info false) (drop_newFile <$> infos)).
  - wire1; [|reflexivity]. split; [|by rewrite length_fmap]. apply Forall_fmap.
    eapply Forall_impl; [exact H1|]. intros a Ha. by split.
  - unfold put_counted. rewrite length_fmap. f_equal. induction infos as [|a l IH]; [done|].
    rewrite fmap_cons, !bind_cons, <- put_info_drop. f_equal. apply IH; [by inv H1|]. cbn in H2. lia.
Qed.
Lemma reads_maxmin lbid mx mn s : typed (MSetMaxMin lbid mx mn s) -> reads (MSetMaxMin lbid mx mn s).
Proof.
  intros (H1 & H2 & H3 & H4) tail. do 2 eexists. split; [reflexivity|]. cbn [args]. do 3 wire1.
  apply (bind_split 4 4). by wire1.
Qed.
Lemma reads_dbroot dbr : typed (MDeleteDBRoot dbr) -> reads (MDeleteDBRoot dbr).
Proof.
  intros H tail. do 2 eexists. split; [reflexivity|]. cbn [args].
  wire1; [|reflexivity]. split; [done|]. cbn [dbRoots]. repeat constructor; try lia; apply H.
Qed.

Lemma typed_reads m : typed m -> reads m.
Proof.
  destruct m; intros H;
    try solve [by apply reads_stripe|by apply (reads_column _ _ _ _ _ _ H)|by apply reads_empty_col
              |by apply reads_maxmin|by apply reads_dbroot];
    cbn [typed] in H; destruct_and?; try solve [reads].
  intros tail. do 2 eexists. split; [reflexivity|]. cbn [args]. wire_all. by rewrite type_of_code.
Qed.

Lemma get_u_pack m tail : get_u 1 (pack m ++ tail) = Some (code_of m, args m ++ tail).
Proof.
  unfold pack. rewrite <- app_assoc, get_u_le. do 2 f_equal. rewrite Z.mod_small; [done|]. by destruct m.
Qed.

(** C20: What a worker makes of the bytes of a command is the command that the
    client packed, apart from the partition of a stripe, of which it reads 16 bits,
    and the newFile flag of deleteEmptyColExtents, which is not sent. *)
Theorem msg_roundtrip m tail : typed m -> receive (pack m ++ tail) = Some (as_received m).
Proof.
  intros H. destruct (typed_reads m H tail) as (r & tail' & Hr & Ha).
  unfold receive. rewrite get_u_pack. cbn. rewrite Hr. cbn. by rewrite Ha.
Qed.

(** ** Marks *)

(** What the handlers ask the confirmation to do with a command. *)
Definition intended_mark (m : message) : mark :=
  match m with
  | MVbRollback1 _ _ | MVbRollback2 _ _ | MVbCommit _ => MarkSnapshot
  | MCreateColumn oid _ _ _ _ _ | MCreateExact oid _ _ _ _ _ =>
      if decide (oid < USER_OBJECT_ID) then MarkSnapshot else MarkDelta
  | MCreateStripe (c :: _) _ _ => if decide (sa_oid c < USER_OBJECT_ID) then MarkSnapshot else MarkDelta
  | _ => MarkDelta
  end.

Lemma oid_at_column code oid rest : i32 oid -> oid_at 1 (le_bytes 1 code ++ (le_bytes 4 oid ++ rest)) = oid.
Proof.
  intros H. unfold oid_at. change (drop 1 (le_bytes 1 code ++ (le_bytes 4 oid ++ rest))) with (le_bytes 4 oid ++ rest).
  by rewrite (wire_s32 _ _ H).
Qed.
Lemma stripe_mark cols rest : vec 64 stripe_ok cols ->
  let msg := le_bytes 1 44 ++ (put_vector put_stripe cols ++ rest) in
  match cols with
  | [] => count_at 1 msg = 0
  | c :: _ => 0 < count_at 1 msg /\ oid_at 9 msg = sa_oid c
  end.
Proof.
  intros [Hc Hn]. unfold count_at, put_vector.
  change (drop 1 (le_bytes 1 44 ++ ?l)) with l. rewrite <- app_assoc, get_u64_le.
  unfold u64. rewrite Z.mod_small by lia. destruct cols as [|c cols]; [done|]. split; [cbn [length]; lia|].
  unfold oid_at. change (drop 9 _) with (((c :: cols) ≫= put_stripe) ++ rest).
  rewrite bind_cons. unfold put_stripe at 1. rewrite <- !app_assoc.
  rewrite (wire_s32 (sa_oid c)); [done|]. by apply Forall_cons in Hc as [[Hc _] _].
Qed.

Lemma mark_of_stripe msg : msg_code msg = 44 -> mark_of msg =
  if decide (0 < count_at 1 msg /\ oid_at 9 msg < USER_OBJECT_ID) then MarkSnapshot else MarkDelta.
Proof. intros H. unfold mark_of. rewrite H. reflexivity. Qed.

Lemma mark_pack m : typed m -> mark_of (pack m) = intended_mark m.
Proof.
  destruct m; intros H; try reflexivity.
  - rewrite mark_of_stripe by done. unfold pack. cbn [args code_of]. destruct H as [H _].
    pose proof (stripe_mark cols (roots_bytes d ++ le_bytes 4 part) H) as Hs. cbv zeta in Hs.
    destruct cols as [|c cols]; cbn [intended_mark].
    + rewrite decide_False; [done|]. lia.
    + destruct Hs as [H1 H2]. rewrite H2. destruct (decide (sa_oid c < _)); [by rewrite decide_True|].
      rewrite decide_False; [done|]. lia.
  - destruct H as [H _]. unfold mark_of, pack. cbn [args code_of]. rewrite oid_at_column by done. reflexivity.
  - destruct H as [H _]. unfold mark_of, pack. cbn [args code_of]. rewrite oid_at_column by done. reflexivity.
Qed.

(** ** Answers *)

Definition extent_out_ok (a : Z * Z * Z) : Prop := i64 a.1.1 /\ i32 a.1.2 /\ n32 a.2.
Definition vb_range_ok (v : VBRange) : Prop := i32 (vr_vbOID v) /\ n32 (vr_vbFBO v) /\ n32 (vr_size v).
(** The outputs have the types of the code. *)
Definition out_typed (out : outputs) : Prop :=
  match out with
  | ONone => True
  | OStripe exts part seg => vec 64 extent_out_ok exts /\ n32 part /\ n16 seg
  | OExtent part seg lbid size off => n32 part /\ n16 seg /\ i64 lbid /\ i32 size /\ n32 off
  | ODict lbid size => i64 lbid /\ i32 size
  | OFree l => vec 64 vb_range_ok l
  | OText text => Z.of_nat (length text) < 2 ^ 31
  end.

(** The outputs that go with a command. *)
Definition shape (m : message) (err : Z) (out : outputs) : Prop :=
  match m, out with
  | MCreateStripe _ _ _, OStripe _ _ _ => err = 0
  | (MCreateColumn _ _ _ _ _ _ | MCreateExact _ _ _ _ _ _), OExtent _ _ _ _ _ => err = 0
  | MCreateDict _ _ _ _, ODict _ _ => err = 0
  | MBeginVBCopy _ _ _ _, OFree _ => err = 0
  | (MDeletePartition _ _ | MMarkPartition _ _ | MRestorePartition _ _), OText _ => err <> 0
  | (MDeletePartition _ _ | MMarkPartition _ _ | MRestorePartition _ _), ONone => err = 0
  | (MCreateStripe _ _ _ | MCreateColumn _ _ _ _ _ _ | MCreateExact _ _ _ _ _ _ | MCreateDict _ _ _ _
    | MBeginVBCopy _ _ _ _), ONone => err <> 0
  | _, ONone => True
  | _, _ => False
  end.

Lemma wire_extent_out : codec put_extent_out get_extent_out extent_out_ok.
Proof. intros [[l s] o] rest (H1 & H2 & H3). unfold get_extent_out, put_extent_out. cbn [fst snd] in *. by wire_all. Qed.
Lemma wire_vb_range : codec VBRange_serialize VBRange_deserialize vb_range_ok.
Proof. exact VBRange_codec. Qed.
#[local] Hint Resolve wire_extent_out wire_vb_range : wire.

(** The bytes behind the error code. *)
Definition tail_of (out : outputs) : list Z := drop 1 (reply 0 out).
Lemma reply_cons err out : reply err out = u8 err :: tail_of out.
Proof. reflexivity. Qed.

Lemma get_outputs out : out_typed out ->
  match out with
  | OStripe _ _ _ => get_stripe_out (tail_of out) = Some (out, [])
  | OExtent _ _ _ _ _ => get_extent (tail_of out) = Some (out, [])
  | ODict _ _ => get_dict (tail_of out) = Some (out, [])
  | OFree _ => get_free (tail_of out) = Some (out, [])
  | OText text => get_string (tail_of out) = Some (text, [])
  | ONone => tail_of out = []
  end.
Proof.
  destruct out; intros H; cbn [out_typed] in H; destruct_and?; [done|..|].
  5: rewrite <- (app_nil_r (tail_of _)); by apply get_string_put.
  all: rewrite <- (app_nil_r (tail_of _)).
  - change (tail_of _) with (le_bytes 4 part ++ le_bytes 2 seg ++ put_vector put_extent_out extents).
    unfold get_stripe_out. by wire_all.
  - change (tail_of _) with (le_bytes 4 part ++ le_bytes 2 seg ++ le_bytes 8 lbid ++ le_bytes 4 allocdSize ++
      le_bytes 4 startBlockOffset). unfold get_extent. by wire_all.
  - change (tail_of _) with (le_bytes 8 lbid ++ le_bytes 4 allocdSize). unfold get_dict. by wire_all.
  - change (tail_of _) with (put_vector VBRange_serialize freeList). unfold get_free. by wire_all.
Qed.

(** What the controller passes on: the answer of a worker, or its error code. *)
Definition passed_on (m : message) (err : Z) (out : outputs) : list Z :=
  if is_partition_cmd (code_of m) then reply err out
  else if decide (u8 err = 0) then reply err out else [u8 err].

Lemma u8_nonzero err : - 256 < err < 256 -> err <> 0 -> u8 err <> 0.
Proof. unfold u8. intros Hr Hn H. apply Z.mod_divide in H as [k H]; lia. Qed.

Lemma passed_zero m out : passed_on m 0 out = 0 :: tail_of out.
Proof. unfold passed_on. rewrite reply_cons. by destruct (is_partition_cmd _). Qed.
Lemma understand_zero m out : shape m 0 out -> out_typed out ->
  understand m (0 :: tail_of out) = Ret (0, out).
Proof.
  intros Hs Ht. pose proof (get_outputs out Ht) as Hg.
  destruct m, out; cbn [shape] in Hs; try done; cbn [understand]; unfold understand_outputs, understand_text;
    change (decide (0 = 0)) with (@left (0 = 0) (0 <> 0) eq_refl); cbv iota; by rewrite Hg.
Qed.
Lemma understand_err m e out : shape m e out -> is_partition_cmd (code_of m) = false -> e <> 0 ->
  forall b, b <> 0 -> understand m [b] = Ret (b, out).
Proof.
  intros Hs Hp He b Hb.
  destruct m, out; cbn [shape] in Hs; try done; cbn [understand]; unfold understand_outputs;
    by destruct (decide (b = 0)).
Qed.

Lemma understand_passed m err out : shape m err out -> out_typed out -> - 256 < err < 256 ->
  understand m (passed_on m err out) = Ret (u8 err, out).
Proof.
  intros Hs Ht He. destruct (decide (err = 0)) as [->|Hne].
  { rewrite passed_zero. by apply understand_zero. }
  pose proof (u8_nonzero err He Hne) as Hu.
  unfold passed_on. destruct (is_partition_cmd (code_of m)) eqn:Ep.
  - rewrite reply_cons. pose proof (get_outputs out Ht) as Hg.
    destruct m; try (vm_compute in Ep; discriminate); destruct out; cbn [shape] in Hs; try done;
      cbn [understand]; unfold understand_text; (destruct (decide (u8 err = 0)); [done|]); by rewrite Hg.
  - destruct (decide (u8 err = 0)); [done|]. by eapply understand_err.
Qed.

(** ** A command through the cluster *)

Section Cluster.
Context (FILES_PER_COL_PART EXTENTS_PER_SEGFILE DBROOT_COUNT : Z).
Context (VersionBufferFileSize : option Z) (repSize : Z).
Context (others : nat -> vss_seg * vbbm_seg * cl_seg -> vss_seg * vbbm_seg * cl_seg).
Context (emsg : message -> Z -> list Z).
Context (info_order : gmap Z ExtentInfo -> ExtentsInfoMap).

Abbreviation do_ := (perform FILES_PER_COL_PART EXTENTS_PER_SEGFILE DBROOT_COUNT VersionBufferFileSize
  repSize others emsg info_order).
Abbreviation exec := (exec_message FILES_PER_COL_PART EXTENTS_PER_SEGFILE DBROOT_COUNT VersionBufferFileSize
  repSize others emsg info_order).

(** A worker behind its connection.  An exception undoes the command and closes
    the connection. *)
#[export] Instance message_worker : Worker (list Z) enode := {
  cmd_code := msg_code;
  w_exec := fun msg s => match exec msg s with
                         | (Some r, s') => (r, s')
                         | (None, s') => ([], snd (SlaveNode.undoChanges s'))
                         end;
  w_undo := fun s => snd (SlaveNode.undoChanges s);
  w_confirm := fun s => snd (SlaveNode.confirmChanges s);
}.

Lemma only_code_shape p s err out s' : only_code p s = (Ret (err, out), s') -> out = ONone.
Proof. unfold only_code, mbind, prog_bind. destruct (p s) as [[] ?]; by intros [= <- <- <-]. Qed.
Lemma with_text_shape m p s err out s' : with_text emsg m p s = (Ret (err, out), s') ->
  out = if decide (err = 0) then ONone else OText (emsg m err).
Proof. unfold with_text, mbind, prog_bind. destruct (p s) as [[] ?]; by intros [= <- <- <-]. Qed.
Lemma forward_shape {A} (p : prog extent_map A) s err a s' : forward p s = (Ret (err, a), s') ->
  if decide (err = 0) then is_Some a else True.
Proof.
  unfold forward, try_catch, mbind, prog_bind.
  destruct (on_em p s) as [[] ?]; intros [= <- <- <-]; by rewrite ?decide_True by done.
Qed.
Lemma with_outputs_shape {A} (p : prog enode (Z * option A)) f s err out s' :
  (forall s err a s', p s = (Ret (err, a), s') -> if decide (err = 0) then is_Some a else True) ->
  with_outputs p f s = (Ret (err, out), s') ->
  if decide (err = 0) then exists a, out = f a else out = ONone.
Proof.
  intros Hp. unfold with_outputs, mbind at 1, prog_bind at 1.
  destruct (p s) as [[[e a]| |] s1] eqn:E; intros [= -> <- ->].
  specialize (Hp _ _ _ _ E). destruct (decide (err = 0)); [|done]. destruct Hp as [x ->]. by exists x.
Qed.

Lemma begin_shape ranges transID d idx (s : enode) err a s' :
  ('(err, l, _) ← beginVBCopy VersionBufferFileSize repSize others ranges transID d idx; mret (err, Some l)) s
    = (Ret (err, a), s') -> if decide (err = 0) then is_Some a else True.
Proof.
  unfold mbind at 1, prog_bind at 1.
  destruct (beginVBCopy _ _ _ _ _ _ _ s) as [[[[e l] fl]| |] s1]; intros [= <- <- <-]. by destruct (decide _).
Qed.

Lemma perform_shape m s err out s' : do_ m s = (Ret (err, out), s') -> shape m err out.
Proof.
  destruct m; cbn [perform]; intros H;
    first [by apply only_code_shape in H as ->
          |by apply with_text_shape in H as ->; destruct (decide (err = 0))
          |apply with_outputs_shape in H; [|intros; first [by eapply forward_shape|by eapply begin_shape]];
           destruct (decide (err = 0)) as [->|]; [destruct H as [a ->]|by rewrite H]].
  - by destruct a as [[] ?].
  - by destruct a as [[] ?].
  - by destruct a as [[] ?].
  - by destruct a.
  - done.
Qed.

(** ** Error codes *)

(** What a worker's handlers return: the -1 of its exception handlers, and codes of
    brmtypes.h. *)
Definition worker_codes : list Z := [-1; 0; 8; 10; 11; 12; 13; 16; 17].

(** All commands return.  Only those that lock ranges can throw: they release
    ranges in their exception handlers. *)
Definition locks_ranges (m : message) : bool :=
  match m with MBeginVBCopy _ _ _ _ | MLockRanges _ _ => true | _ => false end.

(** The values that [p] can give, and whether it can throw. *)
Definition yields {S A} (P : A -> Prop) (T : Prop) (p : prog S A) : Prop :=
  forall s, match (p s).1 with Ret a => P a | Throw _ => T | UB _ => True end.
Definition is_code (err : Z) : Prop := err ∈ worker_codes.

Lemma yields_any {S A} (T : Prop) (p : prog S A) : T -> yields (fun _ => True) T p.
Proof. intros HT s. by destruct (p s).1. Qed.
Lemma yields_ret {S A} (P : A -> Prop) T a : P a -> yields P T (mret a : prog S A).
Proof. by intros ? s. Qed.
Lemma yields_bind {S A B} (P : A -> Prop) (Q : B -> Prop) T (p : prog S A) k :
  yields P T p -> (forall a, P a -> yields Q T (k a)) -> yields Q T (p ≫= k).
Proof.
  intros Hp Hk s. unfold mbind, prog_bind. specialize (Hp s).
  destruct (p s) as [[a| |] s1]; cbn in *; [by apply Hk|done..].
Qed.
Lemma yields_catch {S A} (P : A -> Prop) T (p : prog S A) h :
  yields P True p -> (forall e, yields P T (h e)) -> yields P T (try_catch p h).
Proof.
  intros Hp Hh s. unfold try_catch. specialize (Hp s). destruct (p s) as [[a| |] s1]; cbn in *; [done|apply Hh|done].
Qed.
Lemma yields_zoom {S U A} (P : A -> Prop) T (get : S -> U) set (p : prog U A) :
  yields P T p -> yields P T (zoom get set p).
Proof. intros Hp s. specialize (Hp (get s)). unfold zoom. by destruct (p (get s)). Qed.
Lemma yields_frame {A} (P : A -> Prop) T ranges (p : prog (enode * list bool) A) :
  yields P T p -> yields P T (with_frame ranges p).
Proof. intros Hp s. specialize (Hp (s, replicate (length ranges) false)). unfold with_frame. by destruct (p _) as [? []]. Qed.
(** Codes of a body that may throw. *)
Ltac code := apply yields_ret; unfold is_code, worker_codes; set_solver.
Ltac codes := repeat first
  [code | apply yields_catch; [|intros ?; try code] | apply yields_zoom | apply yields_frame
  |eapply yields_bind; [by apply yields_any|intros ? _]
  |match goal with |- yields _ _ (if ?b then _ else _) => destruct b
                 | |- yields _ _ (match ?x with _ => _ end) => destruct x end].

Lemma only_code_yields p T : yields is_code T p -> yields (fun eo => is_code eo.1) T (only_code p).
Proof. intros H. eapply yields_bind; [exact H|]. intros a Ha. by apply yields_ret. Qed.
Lemma with_text_yields m p T : yields is_code T p -> yields (fun eo => is_code eo.1) T (with_text emsg m p).
Proof. intros H. eapply yields_bind; [exact H|]. intros a Ha. by apply yields_ret. Qed.
Lemma with_outputs_yields {A} (p : prog enode (Z * option A)) f T :
  yields (fun ea => is_code ea.1) T p -> yields (fun eo => is_code eo.1) T (with_outputs p f).
Proof. intros H. eapply yields_bind; [exact H|]. intros [e a] Ha. by apply yields_ret. Qed.

Lemma forward_code p T : yields is_code T (forward_ p).
Proof. unfold forward_. codes. Qed.
Lemma forward_out {A} (p : prog extent_map A) T : yields (fun ea => is_code ea.1) T (forward p).
Proof. unfold forward. codes. Qed.

Lemma translate_code codes p T : Forall (fun c => is_code c.2) codes -> yields is_code T (forward_codes codes p).
Proof.
  intros Hc. apply yields_catch; [codes|]. intros e. apply yields_ret.
  assert (H1 : is_code (-1)) by (unfold is_code, worker_codes; set_solver).
  destruct e; try done. destruct (list_find _ codes) as [[k [x err]]|] eqn:E; [|done].
  apply list_find_Some in E as (E & _). by apply (Forall_lookup_1 _ _ _ _ Hc E).
Qed.
Ltac table := repeat (apply Forall_cons; split; [unfold is_code, worker_codes; set_solver|]); apply Forall_nil_2.

Lemma write_code transID lbid idx o f T :
  yields is_code T (writeVBEntry VersionBufferFileSize transID lbid idx o f : prog enode Z).
Proof.
  unfold writeVBEntry. apply yields_catch; [|intros; code].
  do 2 (eapply yields_bind; [by apply yields_any|intros ? _]). apply yields_zoom. unfold writeVBEntry_body.
  eapply yields_bind; [by apply yields_any|intros [old ?] _]. codes.
Qed.
Lemma rollback_code transID l T :
  yields is_code T ('(err, _) ← vbRollback VersionBufferFileSize transID l; mret err : prog enode Z).
Proof.
  eapply (yields_bind (fun ef => is_code ef.1)); [unfold vbRollback; codes|]. intros [err ?] H. by apply yields_ret.
Qed.
Lemma begin_code ranges transID d idx (T : Prop) : T ->
  yields (fun ea => is_code ea.1) T
    ('(err, l, _) ← beginVBCopy VersionBufferFileSize repSize others ranges transID d idx; mret (err, Some l) :
     prog enode (Z * option (list VBRange))).
Proof.
  intros HT. eapply (yields_bind (fun elf => is_code elf.1.1)); [|intros [[err ?] ?] H; by apply yields_ret].
  unfold beginVBCopy. apply yields_frame, yields_catch.
  - codes.
  - intros e. eapply yields_bind; [by apply yields_any|intros _ _]. by destruct e; codes.
Qed.

Lemma perform_yields m : yields (fun eo => is_code eo.1) (locks_ranges m = true) (do_ m).
Proof.
  destruct m; cbn [perform locks_ranges];
    first [apply only_code_yields|apply with_text_yields|apply with_outputs_yields];
    first [apply forward_code|apply forward_out|apply translate_code; table|apply write_code
          |apply rollback_code|by apply begin_code
          |unfold node_deleteOID, node_deleteOIDs, node_bulkSetHWM, node_bulkSetHWMAndCP, endVBCopy, vbCommit,
             dmlReleaseLBIDRanges, dmlLockLBIDRanges; codes].
Qed.

Lemma shape_received m err out : shape (as_received m) err out <-> shape m err out.
Proof. by destruct m. Qed.

(** The worker after the command has been confirmed or undone; the controller
    confirms what it has undone of a partition command. *)
Definition settled_node (m : message) (err : Z) (s : enode) : enode :=
  let confirmed s := snd (SlaveNode.confirmChanges s) in
  let undone s := snd (SlaveNode.undoChanges s) in
  if decide (err = 0) then confirmed s
  else if is_partition_cmd (code_of m) then confirmed (if is_partition_warning (u8 err) then s else undone s)
  else undone s.

Lemma exec_pack m s err out s' : typed m -> do_ (as_received m) s = (Ret (err, out), s') ->
  w_exec (pack m) s = (reply err out, s').
Proof.
  intros Ht Hd. destruct (typed_reads m Ht []) as (r & tail' & Hr & Ha). rewrite app_nil_r in Ha.
  cbn [w_exec message_worker]. unfold exec_message.
  pose proof (get_u_pack m []) as Hp. rewrite !app_nil_r in Hp. rewrite Hp.
  rewrite !decide_False by (by destruct m). by rewrite Hr, Ha, Hd.
Qed.

Lemma settle_node m err s : - 256 < err < 256 -> settle (pack m) (u8 err) s = settled_node m err s.
Proof.
  intros He. assert (Hc : cmd_code (pack m) = code_of m) by (by destruct m).
  assert (Hn : is_unconfirmed_cmd (code_of m) = false) by (by destruct m).
  unfold settle, settled_node. rewrite Hc, Hn.
  destruct (decide (err = 0)) as [->|Hne].
  - change (u8 0) with 0. by destruct (is_partition_cmd _).
  - pose proof (u8_nonzero err He Hne) as Hu.
    rewrite bool_decide_eq_false_2, decide_False by done. by destruct (is_partition_cmd _).
Qed.

Lemma code_range err : is_code err -> - 256 < err < 256 /\ u8 err <> ERR_SLAVE_INCONSISTENCY.
Proof.
  unfold is_code, worker_codes. rewrite !elem_of_cons, elem_of_nil.
  intros H. destruct_or? H; subst; by vm_compute.
Qed.

(** C8: On a cluster of equal nodes, what the caller of DBRM gets for a command is
    the error code and the outputs of the node, and all nodes end like one that
    carried the command out and then confirmed or undid it. *)
Theorem command_transparent n m events s i sm0 err out s' : typed m ->
  do_ (as_received m) s = (Ret (err, out), s') -> out_typed out ->
  exists i' r, process (pack m) events (ctl (replicate (S n) s) i false false sm0) =
    (Ret r, ctl (replicate (S n) (settled_node m err s')) i' false false sm0) /\
    understand m r = Ret (u8 err, out).
Proof.
  intros Ht Hd Ho. pose proof (exec_pack _ _ _ _ _ Ht Hd) as Hx.
  assert (is_code err) as [He Hi]%code_range by (pose proof (perform_yields (as_received m) s) as Hy; by rewrite Hd in Hy).
  assert (Hr : reply1 (pack m) s = u8 err :: tail_of out) by (unfold reply1; by rewrite Hx).
  assert (Hc : cmd_code (pack m) = code_of m) by (by destruct m).
  destruct (process_agree n (pack m) events s i sm0) as [i' H].
  - unfold replies. by rewrite Hr.
  - unfold refused. rewrite Hc. by destruct m.
  - by rewrite Hr.
  - exists i'. eexists. split.
    + rewrite H, Hr. change (default 0 (head (u8 err :: tail_of out))) with (u8 err).
      unfold exec1. rewrite Hx. cbn [snd]. by rewrite settle_node.
    + rewrite <- (understand_passed m err out); [|rewrite <- shape_received; by eapply perform_shape|done|done].
      unfold answer, passed_on. by rewrite Hc, reply_cons.
Qed.

(** A controller that is read-only answers with one byte; the stub of a
    partition command then reads a text that is not there, and what that throws leaves
    a function declared [throw()]. *)
Theorem partition_readonly_throws m events ws i sm0 : is_partition_cmd (code_of m) = true ->
  process (pack m) events (ctl ws i true false sm0) = (Ret [ERR_READONLY], ctl ws i true false sm0) /\
  understand m [ERR_READONLY] = Throw RuntimeError.
Proof. intros Hp. split; [done|]. by destruct m. Qed.

End Cluster.

(** ** A cluster of two nodes *)

Definition no_message (_ : message) (_ : Z) : list Z := [].
Definition still (_ : nat) (x : vss_seg * vbbm_seg * cl_seg) : vss_seg * vbbm_seg * cl_seg := x.
Definition any_order (m : gmap Z ExtentInfo) : ExtentsInfoMap := map_to_list m.
Definition demo_message : message := MCreateColumn 20001 8 root1 0 0 BIGINT.

Lemma root1_typed : roots_wf root1.
Proof. split; [reflexivity|]. repeat constructor; lia. Qed.
Lemma demo_typed : typed demo_message.
Proof. split_and!; try (unfold i32, n32, n16; lia). exact root1_typed. Qed.

(** A partition number that does not fit into 16 bits. *)
Lemma msg_roundtrip_witness :
  let m := MCreateStripe [mkStripeArg 3001 8 BIGINT] root1 65537 in
  receive (pack m) = Some (MCreateStripe [mkStripeArg 3001 8 BIGINT] root1 1).
Proof.
  intros m. rewrite <- (app_nil_r (pack m)). rewrite (msg_roundtrip m []); [reflexivity|].
  split; [split; [|cbn [length]; lia]|split; [exact root1_typed|unfold n32; lia]].
  apply Forall_singleton. unfold stripe_ok, i32, n32. cbn [sa_oid sa_width]. lia.
Defined.

Definition demo_do : res (Z * outputs) * enode :=
  perform 4 2 1 None 1 still no_message any_order demo_message demo_node.
Definition demo_out : outputs := OExtent 0 0 16384 8192 0.

Lemma command_transparent_witness :
  exists i' r s', @process _ _ (message_worker 4 2 1 None 1 still no_message any_order) (pack demo_message) []
      (ctl [demo_node; demo_node] 0 false false demo_sm) = (Ret r, ctl [s'; s'] i' false false demo_sm) /\
    understand demo_message r = Ret (0, demo_out) /\ extent_count s' = 3%nat.
Proof.
  assert (E : perform 4 2 1 None 1 still no_message any_order (as_received demo_message) demo_node =
    (Ret (0, demo_out), demo_do.2)) by (unfold demo_do; vm_compute; reflexivity).
  assert (Ho : out_typed demo_out) by (unfold out_typed, demo_out, n32, n16, i64, i32; lia).
  destruct (command_transparent 4 2 1 None 1 still no_message any_order 1 demo_message [] demo_node 0 demo_sm 0
    demo_out demo_do.2 demo_typed E Ho) as (i' & r & H & Hu).
  exists i', r, (settled_node demo_message 0 demo_do.2). split; [exact H|]. split; [exact Hu|].
  vm_compute. reflexivity.
Defined.
