(* ===== verification/NodeJournal.v ===== *)
(** * The worker node behind the command loop

    The tables of WorkerComm.v are those of the worker node, and its commands
    those of Messages.v: what the first worker writes into the journal is the
    message of the client, and replaying it does to a node what the command did. *)
From Stdlib Require Import ZArith Lia.
From S2P Require Import Prelude Bytes Undoable BrmTypes VSS VBBM VersionBuffer CopyLocks ExtentMap ExtentProofs ExtentDelete ExtentImage ExtentUndo SlaveNode SlaveExtents SlaveExtentProofs TableLocks SessionManager Controller ControllerNodes OidServer WorkerComm WorkerCommProofs Requests Messages MessageProofs.

Local Open Scope Z_scope.

(** The three files of a snapshot, as one. *)
Definition put_files (a b c : list Z) : list Z := put_vector (le_bytes 1) a ++ put_vector (le_bytes 1) b ++ c.
Definition get_files (bs : list Z) : option (list Z * list Z * list Z) :=
  '(a, bs) ← get_vector (get_u 1) bs; '(b, c) ← get_vector (get_u 1) bs; Some (a, b, c).

(** A new [SlaveDBRMNode] on the same tables: it has nothing to undo and holds no
    lock.  [BlockResolutionManager] loads the tables, and its [replayJournal] and every
    worker start with one. *)
Definition attach (s : enode) : enode :=
  idle (image (em_und (em s)))
    (mkTables (mkUndoable (image (t_vss (tabs s))) []) (mkUndoable (image (t_vbbm (tabs s))) []))
    (mkUndoable (image (copylocks s)) []).

Section Node.
Context (FILES_PER_COL_PART EXTENTS_PER_SEGFILE DBROOT_COUNT : Z).
Context (VersionBufferFileSize : option Z) (repSize : Z).
Context (others : nat -> vss_seg * vbbm_seg * cl_seg -> vss_seg * vbbm_seg * cl_seg).
Context (emsg : message -> Z -> list Z).
Context (info_order : gmap Z ExtentInfo -> ExtentsInfoMap).
(** The node that load_brm starts with. *)
Context (blank : enode).

Abbreviation do_ := (perform FILES_PER_COL_PART EXTENTS_PER_SEGFILE DBROOT_COUNT VersionBufferFileSize
  repSize others emsg info_order).

#[export] Instance node_store : Store enode := {
  s_exec := exec_message FILES_PER_COL_PART EXTENTS_PER_SEGFILE DBROOT_COUNT VersionBufferFileSize
              repSize others emsg info_order;
  s_undo := fun s => snd (SlaveNode.undoChanges s);
  s_confirm := fun s => snd (SlaveNode.confirmChanges s);
  s_image := fun s => match SlaveNode.saveState VersionBufferFileSize s with
                      | (Ret (_, (emF, vbbmF, vssF)), _) => put_files emF vbbmF vssF
                      | _ => []
                      end;
  s_load := fun bs => '(emF, vbbmF, vssF) ← get_files bs;
                      match SlaveNode.loadState VersionBufferFileSize repSize emF vbbmF vssF blank with
                      | (Ret 0, s) => Some (attach s)
                      | _ => None
                      end;
}.

Context (snapshotInterval : Z) (stale : nat -> Z).

Lemma code_pack m : msg_code (pack m) = code_of m.
Proof. by destruct m. Qed.
Lemma pack_regular m : Z.of_nat (length (pack m)) < 2 ^ 32 -> regular (pack m).
Proof.
  intros Hl. split; [split; [|done]|]; rewrite code_pack; [|by destruct m].
  unfold BRM_UNDO, CONFIRM, TAKE_SNAPSHOT. rewrite !elem_of_cons, elem_of_nil.
  intros [H|[H|[H|[]]]]; by destruct m.
Qed.
Lemma exec_answer m s err out s' : typed m -> do_ (as_received m) s = (Ret (err, out), s') ->
  s_exec (pack m) s = (Some (reply err out), s').
Proof.
  intros Ht Hd. pose proof (exec_pack _ _ _ _ _ _ _ _ _ _ _ _ _ Ht Hd) as H. cbn [w_exec message_worker] in H.
  cbn [s_exec node_store]. destruct (exec_message _ _ _ _ _ _ _ _ _ s) as [[r|] s1] eqn:E; [by simplify_eq|].
  exfalso. injection H as H _. by rewrite reply_cons in H.
Qed.

End Node.

Section Journal.
Context (FILES_PER_COL_PART EXTENTS_PER_SEGFILE DBROOT_COUNT : Z).
Context (VersionBufferFileSize : option Z) (repSize : Z).
Context (emsg : message -> Z -> list Z).
Context (info_order : gmap Z ExtentInfo -> ExtentsInfoMap).
Context (blank : enode) (snapshotInterval : Z) (stale : nat -> Z).
(** What other processes do to the tables while a command of the running worker waits. *)
Abbreviation meanwhile := (nat -> vss_seg * vbbm_seg * cl_seg -> vss_seg * vbbm_seg * cl_seg).
Context (others : meanwhile).

Definition performs (o : meanwhile) : message -> prog enode (Z * outputs) :=
  perform FILES_PER_COL_PART EXTENTS_PER_SEGFILE DBROOT_COUNT VersionBufferFileSize repSize o emsg info_order.
Definition node_with (o : meanwhile) : Store enode :=
  node_store FILES_PER_COL_PART EXTENTS_PER_SEGFILE DBROOT_COUNT VersionBufferFileSize repSize o emsg info_order blank.
#[local] Instance running : Store enode := node_with others.

(** ** Histories *)

(** What the controller makes of the first worker: a command that is confirmed, one
    that is undone, a message the worker cannot read. *)
Inductive node_event := NDone (m : message) | NBack (m : message) | NBad (msg : list Z).

Definition node_messages (e : node_event) : list (list Z) :=
  match e with
  | NDone m => [pack m; [CONFIRM]]
  | NBack m => [pack m; [BRM_UNDO]]
  | NBad msg => [msg]
  end.
(** What it means to the tables. *)
Definition node_done (m : message) (w : enode) : enode :=
  snd (SlaveNode.confirmChanges (snd (performs others (as_received m) w))).
Definition node_effect (w : enode) (e : node_event) : enode :=
  match e with NDone m => node_done m w | _ => w end.

(** The command returns, and does not wait for others. *)
Definition alone (m : message) (w : enode) : Prop :=
  exists err out, forall o, fst (performs o (as_received m) w) = Ret (err, out) /\
    snd (performs o (as_received m) w) = snd (performs others (as_received m) w).
Definition message_fits (m : message) : Prop := typed m /\ Z.of_nat (length (pack m)) < 2 ^ 32.

(** The commands of [node_command]. *)
Definition extent_command (m : message) : option command :=
  match m with
  | MMarkInvalid lbid t => Some (MarkInvalid lbid t)
  | MMarkInvalids l => Some (MarkInvalids l)
  | MSetMaxMin lbid max min seqNum => Some (SetMaxMin lbid max min seqNum)
  | MSetExtentsMaxMin l => Some (SetExtentsMaxMin (cp_map ((fun a => (ci_firstLbid a, ci_cp a)) <$> l)))
  | MMergeExtentsMaxMin l => Some (MergeExtentsMaxMin (cp_map ((fun a => (cm_startLbid a, cm_cp a)) <$> l)))
  | MSetLocalHWM oid part seg hwm => Some (SetLocalHWM oid part seg hwm)
  | MBulkSetHWM v 0 => Some (BulkSetHWM v)
  | MMarkPartition oids parts => Some (MarkPartition (list_to_set oids) (part_set parts))
  | MMarkAllPartition oids => Some (MarkAllPartition (list_to_set oids))
  | MRestorePartition oids parts => Some (RestorePartition (list_to_set oids) (part_set parts))
  | MCreateColumn oid w d part _ t =>
      Some (CreateColumn FILES_PER_COL_PART EXTENTS_PER_SEGFILE DBROOT_COUNT oid w d t part)
  | MCreateExact oid w d part seg t => Some (CreateExact oid w d part seg t)
  | MCreateDict oid d part seg => Some (CreateDict oid d part seg)
  | _ => None
  end.

Definition node_ok (e : node_event) (w : enode) : Prop :=
  match e with
  | NDone m => message_fits m /\ intended_mark m = MarkDelta /\ alone m w
  | NBack m => message_fits m /\ alone m w /\
      exists c i t cl, extent_command m = Some c /\ w = idle i t cl /\ em_mapped i /\ not_full i
  | NBad msg => regular msg /\ s_exec msg w = (None, w) /\ exists i t cl, w = idle i t cl
  end.
Fixpoint node_history (es : list node_event) (w : enode) : Prop :=
  match es with
  | [] => True
  | e :: es' => node_ok e w /\ node_history es' (node_effect w e)
  end.
(** The records of a history. *)
Definition recorded (es : list node_event) : list message :=
  es ≫= fun e => match e with NDone m => [m] | _ => [] end.

(** ** One event *)

Lemma as_received_extent m c : extent_command m = Some c -> as_received m = m.
Proof. by destruct m. Qed.
Lemma performs_command o m c s : extent_command m = Some c -> snd (performs o m s) = snd (node_command c s).
Proof.
  destruct m; try discriminate; cbn [extent_command];
    try (match goal with |- (match ?x with 0 => _ | _ => _ end) = _ -> _ => destruct x; try discriminate end);
    intros [= <-]; unfold performs; cbn [perform node_command];
    unfold only_code, with_text, with_outputs, code, mbind, prog_bind;
    match goal with |- context [match ?p s with _ => _ end] => destruct (p s) as [[[]| |] ?] end; done.
Qed.

Lemma fits_regular m : message_fits m -> regular (pack m).
Proof. intros [_ Hl]. by apply pack_regular. Qed.

(** A command of [alone], at the worker that runs and at one that replays. *)
Lemma alone_exec o m w : message_fits m -> alone m w -> exists r,
  @s_exec enode (node_with o) (pack m) w = (Some r, snd (performs others (as_received m) w)).
Proof.
  intros [Ht _] (err & out & H). destruct (H o) as [Hf Hs]. exists (reply err out). rewrite <- Hs.
  apply (exec_answer _ _ _ _ _ _ _ _ _ _ _ _ _ _ Ht). fold (performs o). rewrite <- Hf. by destruct (performs o _ w).
Qed.
Lemma alone_run m w : message_fits m -> alone m w ->
  exists r, s_exec (pack m) w = (Some r, snd (performs others (as_received m) w)).
Proof. apply (alone_exec others). Qed.
Lemma alone_answered o m w : message_fits m -> alone m w -> @answered enode (node_with o) (pack m) w.
Proof.
  intros Hs Ha. destruct (alone_exec o m w Hs Ha) as [r Hr]. exists r. rewrite Hr. split; [done|].
  intros Hc. by destruct (proj2 (fits_regular m Hs)).
Qed.
Lemma alone_done o m w : message_fits m -> alone m w -> @done_ enode (node_with o) (pack m) w = node_done m w.
Proof. intros Hs Ha. destruct (alone_exec o m w Hs Ha) as [r Hr]. unfold done_. by rewrite Hr. Qed.

(** The worker between two commands: its disk leads a restarted one to [w]; [l] are
    the commands whose records were written since it started. *)
Record journalled (d0 : disk) (st : comm enode) (w : enode) (l : list message) : Prop := {
  jn_first : firstSlave st = true;
  jn_snap : takeSnapshot st = false;
  jn_delta : doSaveDelta st = false;
  jn_store : store st = w;
  jn_count : journalCount st = Z.of_nat (length l);
  jn_writes : writes st = (fun m => Append (record_of (pack m))) <$> l;
  jn_toggle : saveFileToggle st = true;
  jn_current : current (disk_run d0 (writes st)) = current d0;
  jn_leads : exists ms, forall o, @leads enode (node_with o) (disk_run d0 (writes st)) w ms;
}.

(** There is room in the journal for [n] records before the next snapshot. *)
Definition interval_left (n : nat) : Prop := Z.of_nat n < snapshotInterval \/ snapshotInterval < 0.

Lemma done_writes st m n : takeSnapshot st = false -> journalCount st = Z.of_nat n -> message_fits m ->
  intended_mark m = MarkDelta -> interval_left (S n) ->
  snapshots snapshotInterval (commanded (pack m) st) = false /\
  appends snapshotInterval (commanded (pack m) st) = true.
Proof.
  intros Hs Hc [Ht _] Hm Hi. unfold snapshots, appends, interval_left in *.
  cbn [commanded doSaveDelta takeSnapshot journalCount]. rewrite Hc, mark_pack, Hm by done.
  rewrite (bool_decide_eq_true_2 (MarkDelta = MarkDelta)), (bool_decide_eq_false_2 (MarkDelta = MarkSnapshot)) by done. cbn [andb orb].
  destruct (bool_decide_reflect (Z.of_nat n < snapshotInterval)), (bool_decide_reflect (snapshotInterval < 0)); cbn [orb];
    try lia; (split; [|done]); apply andb_false_iff; rewrite !bool_decide_eq_false; lia.
Qed.

(** The state after a command that is confirmed. *)
Lemma done_deliver d0 st w l m : journalled d0 st w l -> message_fits m -> alone m w ->
  deliver_all snapshotInterval st (node_messages (NDone m)) = confirmed snapshotInterval (commanded (pack m) st) /\
  store (confirmed snapshotInterval (commanded (pack m) st)) = node_done m w.
Proof.
  intros [Hf Hsn Hdl <- _ _ _ _ _] Hfit Ha. destruct (alone_run m (store st) Hfit Ha) as [r Hr].
  unfold deliver_all, deliver. cbn [node_messages foldl].
  rewrite (command_answer _ st (pack m) r) by (done || by apply fits_regular || by rewrite Hr). cbn [snd].
  rewrite confirm_message by done. split; [done|]. cbn [confirmed store commanded]. unfold node_done. by rewrite Hr.
Qed.

Lemma done_journalled d0 st w l m : journalled d0 st w l -> message_fits m -> intended_mark m = MarkDelta ->
  alone m w -> interval_left (length (l ++ [m])) ->
  journalled d0 (deliver_all snapshotInterval st (node_messages (NDone m))) (node_done m w) (l ++ [m]).
Proof.
  intros Hj Hfit Hm Ha Hi. destruct (done_deliver _ _ _ _ _ Hj Hfit Ha) as [-> Hdone].
  destruct Hj as [Hf Hsn Hdl Hst Hjc Hwr Htg Hcur [ms Hl]].
  rewrite length_app, Nat.add_1_r in Hi.
  destruct (done_writes st m (length l) Hsn Hjc Hfit Hm Hi) as [Hs Happ].
  assert (Hw : writes (confirmed snapshotInterval (commanded (pack m) st)) = writes st ++ [Append (record_of (pack m))]).
  { cbn [confirmed writes commanded]. unfold confirm_writes. by rewrite Hs, Happ. }
  split; rewrite ?Hw, ?disk_run_app; try exact Hdone; unfold confirmed; rewrite ?Hs, ?Happ;
    cbn [firstSlave takeSnapshot doSaveDelta store saveFileToggle journalCount commanded disk_run foldl]; try done.
  - rewrite Hjc, length_app. cbn [length]. lia.
  - by rewrite Hwr, fmap_app.
  - exists (ms ++ [pack m]). intros o. rewrite <- (alone_done o m _ Hfit Ha). apply leads_append; [done| |].
    + by apply alone_answered.
    + apply fits_regular, Hfit.
Qed.

(** The last record before a snapshot. *)
Lemma snapshot_next d0 st w l m : journalled d0 st w l -> message_fits m -> alone m w ->
  intended_mark m = MarkDelta -> snapshotInterval = Z.of_nat (S (length l)) ->
  let st' := deliver_all snapshotInterval st (node_messages (NDone m)) in
  writes st' = writes st ++ [Append (record_of (pack m)); WriteSnapshot true (s_image (store st'))] ++
    [SetCurrent true; Truncate].
Proof.
  intros Hj Hfit Ha Hm Hi. destruct (done_deliver _ _ _ _ _ Hj Hfit Ha) as [-> _].
  destruct Hj as [_ _ _ _ Hc _ Ht _ _].
  assert (E : bool_decide (mark_of (pack m) = MarkDelta) = true) by (rewrite mark_pack, Hm by apply Hfit; reflexivity).
  assert (Happ : appends snapshotInterval (commanded (pack m) st) = true).
  { unfold appends. cbn [commanded doSaveDelta journalCount]. rewrite E, Hc, bool_decide_eq_true_2 by lia. done. }
  apply snapshot_writes; [done| |done]. unfold snapshots. rewrite Happ. cbn [commanded takeSnapshot journalCount].
  rewrite Hc, (bool_decide_eq_true_2 (snapshotInterval <= _)), (bool_decide_eq_true_2 (0 <= _)) by lia. apply orb_true_r.
Qed.

Lemma undone_journalled d0 st st' w l : journalled d0 st w l -> firstSlave st' = true -> s_undo (store st') = w ->
  writes st' = writes st -> saveFileToggle st' = saveFileToggle st -> journalCount st' = journalCount st ->
  journalled d0 (undone st') w l.
Proof.
  intros [] Hf Hs Hw Ht Hc. split; unfold undone; cbn [firstSlave takeSnapshot doSaveDelta store saveFileToggle journalCount writes];
    rewrite ?Hw, ?Ht, ?Hc; done.
Qed.

Lemma idle_undo i t cl : snd (SlaveNode.undoChanges (idle i t cl)) = idle i t cl.
Proof. reflexivity. Qed.

Lemma event_journalled d0 st w l e : journalled d0 st w l -> node_ok e w -> interval_left (length (l ++ recorded [e])) ->
  journalled d0 (deliver_all snapshotInterval st (node_messages e)) (node_effect w e) (l ++ recorded [e]).
Proof.
  intros Hj Hok Hi. pose proof Hj as [Hf Hsn Hdl Hst _ _ _ _ _]. destruct e as [m|m|msg]; cbn [node_effect].
  - destruct Hok as (Hfit & Hm & Ha). by apply done_journalled.
  - unfold recorded. cbn. rewrite app_nil_r. destruct Hok as (Hfit & Ha & c & i & t & cl & Hc & Hw & Hmap & Hfull).
    destruct (alone_run m w Hfit Ha) as [r Hr]. rewrite <- Hst in Hr.
    unfold deliver_all, deliver. cbn [node_messages foldl].
    rewrite (command_answer _ st (pack m) r) by (done || by apply fits_regular || by rewrite Hr). cbn [snd].
    rewrite undo_message by done. cbn [snd]. apply (undone_journalled d0 st); try done.
    cbn [store set_delta commanded]. rewrite Hr. cbn [snd]. rewrite Hst, (as_received_extent m c Hc).
    rewrite (performs_command _ m c _ Hc), Hw. cbn [s_undo running node_with node_store].
    by rewrite node_command_undo.
  - unfold recorded. cbn. rewrite app_nil_r. destruct Hok as (Hreg & Hx & i & t & cl & Hw). rewrite <- Hst in Hx.
    unfold deliver_all, deliver. cbn [node_messages foldl].
    rewrite (throw_run _ st msg) by (done || by rewrite Hx). cbn [snd]. apply (undone_journalled d0 st); try done.
    cbn [store set_store set_delta]. rewrite Hx. cbn [snd]. rewrite Hst, Hw. apply idle_undo.
Qed.

Lemma history_journalled d0 es st w l : journalled d0 st w l -> node_history es w ->
  interval_left (length (l ++ recorded es)) ->
  journalled d0 (deliver_all snapshotInterval st (es ≫= node_messages)) (foldl node_effect w es) (l ++ recorded es).
Proof.
  revert st w l. induction es as [|e es IH]; intros st w l Hj Hh Hi; [by rewrite app_nil_r|].
  destruct Hh as [He Hh]. assert (E : recorded (e :: es) = recorded [e] ++ recorded es)
    by (unfold recorded; rewrite bind_cons, bind_singleton; done).
  rewrite E, (assoc_L app) in *. rewrite bind_cons. unfold deliver_all at 1. rewrite foldl_app. cbn [foldl].
  apply IH; [|done|done]. apply event_journalled; [done..|]. unfold interval_left in *.
  rewrite !length_app in *. lia.
Qed.

(** The disk of a worker that starts with the tables [w]. *)
Definition on_disk (d0 : disk) (w : enode) : Prop := exists ms, forall o, @leads enode (node_with o) d0 w ms.
Lemma start_journalled d0 w : on_disk d0 w -> journalled d0 (SlaveComm true w) w [].
Proof. by split. Qed.

(** Loading does not wait. *)
Lemma load_with o o' bs : @s_load enode (node_with o) bs = @s_load enode (node_with o') bs.
Proof. reflexivity. Qed.

(** ** Properties *)

(** C7: The journal of the first worker.  It starts with the tables its disk leads
    to and is sent a sequence of commands, each of them confirmed, undone or too short to be
    read.  Its tables become those that the confirmed commands make, one after the other;
    it has appended their messages, as the client packed them, to its journal; and a
    worker that loads the snapshot and replays the journal gets these tables exactly.
    The confirmed commands are those that are recorded (all but commit, rollback and new
    extents of the system catalog, which call for a snapshot), and they do not have to wait
    for locked ranges; the undone ones are those of [slave_extent_undo].  No snapshot is
    taken in between: there are fewer records than [DBRMSnapshotInterval]. *)
Theorem node_journal d0 w es : on_disk d0 w -> node_history es w -> interval_left (length (recorded es)) ->
  let st := deliver_all snapshotInterval (SlaveComm true w) (es ≫= node_messages) in
  store st = foldl node_effect w es /\
  writes st = (fun m => Append (record_of (pack m))) <$> recorded es /\
  forall o, @recover enode (node_with o) snapshotInterval stale (disk_run d0 (writes st)) = Some (store st).
Proof.
  intros Hd Hh Hi st.
  destruct (history_journalled d0 es _ w [] (start_journalled _ _ Hd) Hh Hi) as [_ _ _ Hs _ Hw _ _ [ms Hl]].
  fold st in Hs, Hw, Hl. split; [done|]. split; [done|]. intros o. rewrite Hs. by eapply leads_recover.
Qed.

(** The disk after a part of a confirmation that does not reach the switch to a new
    snapshot. *)
Lemma confirm_part o d st w ms m xs zs : @leads enode (node_with o) d w ms -> message_fits m -> alone m w ->
  store st = w -> current d = Some (negb (saveFileToggle st)) ->
  confirm_writes snapshotInterval (commanded (pack m) st) = xs ++ zs -> Forall (fun x => forall a, x <> SetCurrent a) xs ->
  exists ms', @leads enode (node_with o) (disk_run d xs)
    (if appends snapshotInterval (commanded (pack m) st) && bool_decide (xs <> []) then node_done m w else w) ms'.
Proof.
  intros Hd Hfit Ha Hst Hcur Hcw Hxs.
  assert (Happ : @leads enode (node_with o) (disk_step d (Append (record_of (pack m)))) (node_done m w) (ms ++ [pack m])).
  { rewrite <- (alone_done o m w Hfit Ha). apply leads_append; [done|by apply alone_answered|apply fits_regular, Hfit]. }
  unfold confirm_writes in Hcw. cbn [commanded delta saveFileToggle] in Hcw.
  destruct xs as [|x xs].
  { rewrite bool_decide_eq_false_2, andb_false_r by (by intros []). by exists ms. }
  rewrite bool_decide_eq_true_2, andb_true_r by done.
  destruct (appends _ _), (snapshots _ _); cbn [app] in Hcw; try discriminate Hcw; injection Hcw as <- Hcw;
    destruct xs as [|x xs]; try (by destruct xs); try (injection Hcw as <- Hcw);
    try (destruct xs as [|x xs]; [|injection Hcw as <- Hcw; by destruct (Forall_inv (Forall_inv_tail (Forall_inv_tail Hxs)) (saveFileToggle st))]);
    try (by destruct (Forall_inv (Forall_inv_tail Hxs) (saveFileToggle st))); cbn [disk_run foldl]; eauto.
  - exists (ms ++ [pack m]). by apply leads_other.
  - exists ms. by apply leads_other.
Qed.

(** C16: A crash while the first worker confirms one more command, of any kind, between
    two of its writes to the disk and before it switches to a new snapshot: a restarted worker
    gets exactly the tables from before that command or those from after it.  (The snapshot
    that is current when the worker starts is B, so that the first one it writes, A, does not
    overwrite it.) *)
Theorem node_crash d0 w es m xs zs : on_disk d0 w -> current d0 = Some false ->
  node_history es w -> interval_left (length (recorded es)) ->
  message_fits m -> alone m (foldl node_effect w es) ->
  let st := deliver_all snapshotInterval (SlaveComm true w) (es ≫= node_messages) in
  let st' := deliver_all snapshotInterval st (node_messages (NDone m)) in
  writes st' = writes st ++ xs ++ zs -> Forall (fun x => forall a, x <> SetCurrent a) xs ->
  store st' = node_done m (store st) /\
  ((forall o, @recover enode (node_with o) snapshotInterval stale (disk_run d0 (writes st ++ xs)) = Some (store st)) \/
   (forall o, @recover enode (node_with o) snapshotInterval stale (disk_run d0 (writes st ++ xs)) = Some (store st'))).
Proof.
  intros Hd Hcur Hh Hi Hfit Ha st st' Hwr Hxs.
  pose proof (history_journalled d0 es _ w [] (start_journalled _ _ Hd) Hh Hi) as Hj. fold st in Hj.
  destruct (done_deliver _ _ _ _ _ Hj Hfit Ha) as [Hst' Hdone]. fold st' in Hst'. rewrite <- Hst' in Hdone.
  destruct Hj as [Hf Hsn Hdl Hs _ _ Htg Hcur' [ms Hl]]. rewrite <- Hs in Ha, Hl, Hdone.
  split; [done|]. rewrite Hst' in Hwr. cbn [confirmed writes commanded] in Hwr. apply app_inv_head in Hwr.
  assert (Hpart := fun o => confirm_part o _ st _ ms m xs zs (Hl o) Hfit Ha eq_refl). rewrite Hcur', Hcur, Htg in Hpart.
  specialize (fun o => Hpart o eq_refl Hwr Hxs). rewrite disk_run_app, Hdone.
  destruct (appends _ _ && _); [right|left]; intros o; destruct (Hpart o) as [ms' H]; by eapply leads_recover.
Qed.

End Journal.

(** ** A journal of one record *)

(** The disk has a snapshot of two extents, a version in the version buffer and two in
    the VSS; the worker is sent a command for a new extent, which is confirmed, one for
    another, which is undone, and the first byte of a command. *)
Definition demo_size : option Z := Some 8192000.
Definition demo_with (o : nat -> vss_seg * vbbm_seg * cl_seg -> vss_seg * vbbm_seg * cl_seg) : Store enode :=
  node_with 4 2 1 demo_size 1 no_message any_order demo_node o.
Definition demo_files : list Z := @s_image enode (demo_with still) demo_node.
Definition demo_start : enode := default demo_node (@s_load enode (demo_with still) demo_files).
Definition demo_stored : disk := mkDisk [] demo_files (Some false) [].
Definition demo_history : list node_event := [NDone demo_message; NBack demo_message; NBad [36]].

Lemma demo_loads : @s_load enode (demo_with still) demo_files = Some demo_start.
Proof.
  assert (H : (if @s_load enode (demo_with still) demo_files is Some _ then true else false) = true)
    by (vm_compute; reflexivity).
  unfold demo_start. by destruct (@s_load enode (demo_with still) demo_files).
Qed.
Lemma demo_on_disk : on_disk 4 2 1 demo_size 1 no_message any_order demo_node demo_stored demo_start.
Proof.
  exists []. intros o. exists false, demo_start. split; [reflexivity|]. split; [|done].
  cbn [demo_stored fileB]. rewrite (load_with _ _ _ _ _ _ _ _ o still). exact demo_loads.
Qed.

Lemma demo_message_fits : message_fits demo_message.
Proof. split; [exact demo_typed|vm_compute; reflexivity]. Qed.
(** A new extent does not wait for anybody. *)
Lemma demo_alone w err out :
  fst (performs 4 2 1 demo_size 1 no_message any_order still demo_message w) = Ret (err, out) ->
  alone 4 2 1 demo_size 1 no_message any_order still demo_message w.
Proof. intros H. exists err, out. intros o. split; [exact H|reflexivity]. Qed.

Definition at_rest (s : enode) : bool :=
  bool_decide (undoRecords (em_und (em s)) = []) && negb (emLocked (em s)) && negb (flLocked (em s)) &&
  negb (locked0 s) && negb (locked1 s) && negb (locked2 s).
Lemma at_rest_idle s : at_rest s = true -> s = idle (image (em_und (em s))) (tabs s) (copylocks s).
Proof.
  destruct s as [[[i log] a b] t cl [] [] []]; unfold at_rest; cbn; rewrite ?andb_false_r; try done.
  destruct a, b; rewrite ?andb_false_r; try done. rewrite !andb_true_r. by intros ->%bool_decide_eq_true.
Qed.
Definition demo_then : enode := node_done 4 2 1 demo_size 1 no_message any_order still demo_message demo_start.

Definition has_room (i : em_image) : bool :=
  fPExtMapImpl i && fPFreeListImpl i && bool_decide (emShmkey i = CopyLocks.tableShmkey (fEMShminfo i)) &&
  bool_decide (flShmkey i = CopyLocks.tableShmkey (fFLShminfo i)) &&
  negb (bool_decide (CopyLocks.currentSize (fEMShminfo i) = CopyLocks.allocdSize (fEMShminfo i))).
Lemma has_room_ok i : has_room i = true -> em_mapped i /\ not_full i.
Proof.
  unfold has_room. rewrite !andb_true_iff, negb_true_iff, !bool_decide_eq_true, bool_decide_eq_false.
  intros ((((H1 & H2) & H3) & H4) & H5). done.
Qed.

(** What the steps of the history need, computed. *)
Lemma demo_first : fst (performs 4 2 1 demo_size 1 no_message any_order still demo_message demo_start) = Ret (0, demo_out).
Proof. vm_compute. reflexivity. Qed.
Lemma demo_second : fst (performs 4 2 1 demo_size 1 no_message any_order still demo_message demo_then) =
  Ret (0, OExtent 0 1 24576 8192 0).
Proof. vm_compute. reflexivity. Qed.
Lemma demo_rests : at_rest demo_then && has_room (image (em_und (em demo_then))) = true.
Proof. vm_compute. reflexivity. Qed.
Lemma demo_then_extents : extent_count demo_then = 3%nat.
Proof. vm_compute. reflexivity. Qed.

#[local] Opaque demo_start.

Lemma demo_bad w : @s_exec enode (demo_with still) [36] w = (None, w).
Proof. reflexivity. Qed.
Lemma demo_bad_regular : regular [36].
Proof.
  split; [split; [|vm_compute; reflexivity]|discriminate]. unfold BRM_UNDO, CONFIRM, TAKE_SNAPSHOT.
  rewrite !elem_of_cons, elem_of_nil. intros [H|[H|[H|[]]]]; discriminate H.
Qed.
Lemma demo_history_ok :
  node_history 4 2 1 demo_size 1 no_message any_order demo_node still demo_history demo_start.
Proof.
  pose proof demo_rests as [Hr [Hm Hf]%has_room_ok]%andb_true_iff. apply at_rest_idle in Hr.
  cbn [demo_history node_history node_ok node_effect].
  change (node_done 4 2 1 demo_size 1 no_message any_order still demo_message demo_start) with demo_then. split_and!.
  - exact demo_message_fits.
  - reflexivity.
  - exact (demo_alone _ _ _ demo_first).
  - exact demo_message_fits.
  - exact (demo_alone _ _ _ demo_second).
  - eexists _, _, _, _. split; [reflexivity|]. split; [exact Hr|]. by split.
  - exact demo_bad_regular.
  - apply demo_bad.
  - eexists _, _, _. exact Hr.
  - exact I.
Qed.

Lemma node_journal_witness :
  let st := @deliver_all enode (demo_with still) 100 (SlaveComm true demo_start) (demo_history ≫= node_messages) in
  store st = demo_then /\ writes st = [Append (record_of (pack demo_message))] /\
  @recover enode (demo_with still) 100 (fun _ => 0) (disk_run demo_stored (writes st)) = Some demo_then.
Proof.
  intros st.
  destruct (node_journal 4 2 1 demo_size 1 no_message any_order demo_node 100 (fun _ => 0) still demo_stored demo_start
    demo_history demo_on_disk demo_history_ok) as (Hs & Hw & Hr); [left; vm_compute; reflexivity|].
  change (foldl _ _ _) with demo_then in Hs. split; [exact Hs|]. split; [exact Hw|].
  specialize (Hr still). rewrite Hs in Hr. exact Hr.
Defined.

(** The writes of the second command when there are two records to a snapshot. *)
Definition demo_st : comm enode :=
  @deliver_all enode (demo_with still) 2 (SlaveComm true demo_start) (demo_history ≫= node_messages).
Lemma demo_crash_writes :
  let st' := @deliver_all enode (demo_with still) 2 demo_st (node_messages (NDone demo_message)) in
  writes st' = writes demo_st ++ [Append (record_of (pack demo_message));
    WriteSnapshot true (@s_image enode (demo_with still) (store st'))] ++ [SetCurrent true; Truncate].
Proof.
  refine (snapshot_next 4 2 1 demo_size 1 no_message any_order demo_node 2 still demo_stored _ demo_then _ demo_message
    (history_journalled 4 2 1 demo_size 1 no_message any_order demo_node 2 still demo_stored demo_history _ _ []
      (start_journalled _ _ _ _ _ _ _ _ _ _ demo_on_disk) demo_history_ok _) demo_message_fits (demo_alone _ _ _ demo_second) eq_refl _).
  - left. reflexivity.
  - reflexivity.
Qed.

(** The second command starts a snapshot; the crash comes when the image has been
    written. *)
Lemma node_crash_witness :
  let st := @deliver_all enode (demo_with still) 2 (SlaveComm true demo_start) (demo_history ≫= node_messages) in
  let st' := @deliver_all enode (demo_with still) 2 st (node_messages (NDone demo_message)) in
  let img := @s_image enode (demo_with still) (store st') in
  let d := disk_run demo_stored (writes st ++ [Append (record_of (pack demo_message)); WriteSnapshot true img]) in
  (forall o, @recover enode (demo_with o) 2 (fun _ => 0) d = Some (store st)) \/
  (forall o, @recover enode (demo_with o) 2 (fun _ => 0) d = Some (store st')).
Proof.
  intros st st' img d.
  destruct (node_crash 4 2 1 demo_size 1 no_message any_order demo_node 2 (fun _ => 0) still demo_stored demo_start
    demo_history demo_message [Append (record_of (pack demo_message)); WriteSnapshot true img] [SetCurrent true; Truncate]
    demo_on_disk eq_refl demo_history_ok) as [_ H].
  - left. vm_compute. reflexivity.
  - exact demo_message_fits.
  - exact (demo_alone _ _ _ demo_second).
  - exact demo_crash_writes.
  - repeat constructor; discriminate.
  - exact H.
Defined.
