(* ===== verification/DbrmQueries.v ===== *)
(** * The client library's queries

    The part of dbrm.cpp that does not talk to the controller: every process
    maps the tables and reads them under their read locks.  A query is a
    function of the tables' contents; what it throws becomes a return code.
    Locking and releasing blocks writes the copy locks.  A call that goes on
    to the workers is an output. *)
From Stdlib Require Import ZArith Lia.
From stdpp Require Import sorting.
From S2P Require Import Prelude Bytes Undoable BrmTypes VBBM VSS VersionBuffer CopyLocks ExtentMap ExtentDelete ExtentHWM ExtentImage SlaveExtents.

Local Open Scope Z_scope.

(** The tables in shared memory. *)
Record shared := mkShared { sh_em : em_image; sh_vbbm : vbbm_seg; sh_vss : vss_seg; sh_cl : cl_seg }.

Definition ERR_OK : Z := 0.
Definition ERR_FAILURE : Z := 1.

(** [try { ... } catch (exception& e) { return bad; }] *)
Definition caught {A} (bad : A) (r : res A) : res A :=
  match r with Throw _ => Ret bad | _ => r end.
(** A query of the extent map: [ok] with its outputs, or [bad]. *)
Definition answered {A} (ok bad : Z) (r : res A) : res (Z * option A) :=
  caught (bad, None) (a ← r; Ret (ok, Some a)).
(** One whose result has the return code in it: [None] is -1. *)
Definition located {A} (r : res (option A)) : res (Z * option A) :=
  caught (-1, None) (a ← r; Ret (match a with Some _ => 0 | None => -1 end, a)).

Section queries.
Context (s : shared).

(** ** The extent map *)

Definition dbrm_lookup_ranges (oid : Z) : res (Z * option (list LBIDRange)) :=
  answered 0 (-1) (lookup_ranges (sh_em s) oid).
Definition dbrm_lookupLocal_fbo (oid part seg fbo : Z) : res (Z * option Z) :=
  located (lookupLocal_fbo (sh_em s) oid part seg fbo).
Definition dbrm_lookupLocal_DBroot (oid : Z) (dbRoot : DBROOTS_struct) (part seg fbo : Z) : res (Z * option Z) :=
  located (lookupLocal_DBroot (sh_em s) oid dbRoot part seg fbo).
Definition dbrm_lookupLocalStartLbid (oid part seg fbo : Z) : res (Z * option Z) :=
  located (lookupLocalStartLbid (sh_em s) oid part seg fbo).
(** The state of the range is the return code; a failure is [false]. *)
Definition dbrm_getExtentMaxMin (lbid : Z) : res (Z * option (Z * Z * Z)) :=
  caught (0, None) ('(v, mx, mn, seq) ← getMaxMin (sh_em s) lbid; Ret (v, Some (mx, mn, seq))).
Definition dbrm_getLastHWM_DBroot (oid : Z) (dbRoot : DBROOTS_struct) :=
  answered ERR_OK ERR_FAILURE (getLastHWM_DBroot (sh_em s) oid dbRoot).
Definition dbrm_getLocalHWM (oid part seg : Z) : res (Z * option (Z * Z)) :=
  answered ERR_OK ERR_FAILURE (getLocalHWM (sh_em s) oid part seg).
Definition dbrm_getDbRootHWMInfo (oid : Z) (dbRootList : list Z) :=
  answered ERR_OK ERR_FAILURE (getDbRootHWMInfo (sh_em s) oid dbRootList).
Definition dbrm_getExtentState (oid part seg : Z) : res (Z * option (bool * Z)) :=
  answered ERR_OK ERR_FAILURE (getExtentState (sh_em s) oid part seg).
Definition dbrm_getExtents (oid : Z) (sorted incOutOfService : bool) : res (Z * option (list EMEntry)) :=
  answered 0 (-1) (getExtents (sh_em s) oid sorted incOutOfService).
Definition dbrm_getExtents_dbroot (oid dbr : Z) (all : bool) : res (Z * option (list EMEntry)) :=
  answered 0 (-1) (getExtents_dbroot (sh_em s) oid dbr all).
Definition dbrm_getExtentCount_dbroot (oid dbr : Z) (incOutOfService : bool) : res (Z * option Z) :=
  answered 0 (-1) (getExtentCount_dbroot (sh_em s) oid dbr incOutOfService).
Definition dbrm_getSysCatDBRoot (oid : Z) : res (Z * option DBROOTS_struct) :=
  answered 0 (-1) (getSysCatDBRoot (sh_em s) oid).
Definition dbrm_getOutOfServicePartitions (oid : Z) : res (Z * option (list LogicalPartition)) :=
  answered ERR_OK (-1) (getOutOfServicePartitions (sh_em s) oid).
Definition dbrm_getEMFreeListEntries : res (list InlineLBIDRange) :=
  caught [] (getFreeListEntries (sh_em s)).

(** ** Versions *)

(** [vssLookup]: the code, the version and whether it is in the version buffer;
    an empty VSS is answered without its lock. *)
Definition dbrm_vssLookup (lbid : Z) (verInfo : QueryContext_vss) (txnID : Z) (vbOnly : bool)
    : res (option (Z * Z * bool)) :=
  if negb vbOnly && VSS.isEmpty (sh_vss s) then Ret (Some (-1, 0, false))
  else caught None (r ← VSS.lookup (sh_vss s) lbid verInfo txnID vbOnly; Ret (Some r)).

Fixpoint lookup_all (lbids : list Z) (verInfo : QueryContext_vss) (txnID : Z) : res (list (Z * Z * bool)) :=
  match lbids with
  | [] => Ret []
  | l :: lbids' =>
      d ← VSS.lookup (sh_vss s) l verInfo txnID false; ds ← lookup_all lbids' verInfo txnID; Ret (d :: ds)
  end.
Definition dbrm_bulkVSSLookup (lbids : list Z) (verInfo : QueryContext_vss) (txnID : Z)
    : res (Z * list (Z * Z * bool)) :=
  caught (-1, [])
    (if VSS.isEmpty (sh_vss s) then Ret (0, (fun _ => (-1, 0, false)) <$> lbids)
     else ds ← lookup_all lbids verInfo txnID; Ret (0, ds)).

(** These rethrow. *)
Definition dbrm_getCurrentVersion (lbid : Z) : res (Z * bool) := VSS.getCurrentVersion (sh_vss s) lbid.
Definition dbrm_getHighestVerInVB (lbid max : Z) : res Z := VSS.getHighestVerInVB (sh_vss s) lbid max.
Definition dbrm_isVersioned (lbid ver : Z) : res bool := VSS.isVersioned (sh_vss s) lbid ver.

Fixpoint versions_all (lbids : list Z) : res (list (Z * bool)) :=
  match lbids with
  | [] => Ret []
  | l :: lbids' => v ← VSS.getCurrentVersion (sh_vss s) l; vs ← versions_all lbids'; Ret (v :: vs)
  end.
Definition dbrm_bulkGetCurrentVersion (lbids : list Z) : res (Z * list (Z * bool)) :=
  caught (-1, []) (vs ← versions_all lbids; Ret (0, vs)).

Definition dbrm_getUncommittedLBIDs (transID : Z) : res (Z * option (list Z)) :=
  answered 0 (-1) (VSS.getUncommittedLBIDs (sh_vss s) transID).
Definition dbrm_getUnlockedLBIDs : res (Z * option (list (Z * Z))) :=
  answered 0 (-1) (VSS.getUnlockedLBIDs (sh_vss s)).
Definition dbrm_getCurrentTxnIDs : res (Z * option (gset Z)) :=
  answered 0 (-1) (l ← CopyLocks.getCurrentTxnIDs (sh_cl s) ∅; VSS.getCurrentTxnIDs (sh_vss s) l).

(** ** Where a block is *)

(** Which of the DBRoots [dbr] are on the module [pmid] (0: this one) is the
    configuration's to say. *)
Context (existDbroot : Z -> Z -> bool).

(** [getPmDbr]: the first DBRoot on the module, and its index. *)
Fixpoint pm_dbr_loop (pmid idx : Z) (l : list Z) : Z * Z :=
  match l with
  | [] => (0, -1)
  | dbr :: l' =>
      if decide (dbr = 0) then (0, -1)
      else if existDbroot dbr pmid then (dbr, idx) else pm_dbr_loop pmid (idx + 1) l'
  end.
Definition getPmDbr (d : DBROOTS_struct) (pmid : Z) : Z * Z := pm_dbr_loop pmid 0 (dbRoots d).

Inductive block_place :=
  | InFile (l : location)
  | InBuffer (oid : Z) (dbRoot : DBROOTS_struct) (fbo : FBO_struct).

(** [lookupLocal(lbid, verid, vbFlag, ...)]: a block of a file, or the copy of a
    version in the version buffer. *)
Definition dbrm_lookupLocal (lbid verid : Z) (vbFlag : bool) : res (Z * option block_place) :=
  if negb vbFlag then
    (r ← located (lookupLocal (sh_em s) lbid); Ret (r.1, option_map InFile r.2))
  else caught (-1, None)
    (r ← VBBM.lookup (sh_vbbm s) lbid verid;
     match r with
     | Some (d, f) => Ret (0, Some (InBuffer (getPmDbr d 0).1 d f))
     | None =>
         tooOld ← VSS.isTooOld (sh_vss s) lbid verid;
         Ret (if tooOld : bool then ERR_SNAPSHOT_TOO_OLD else -1, None)
     end).

(** ** Transactions *)

(** The extents a sorted list of blocks lies in: one look up per extent. *)
Fixpoint touched_loop (last : Z) (lbids : list Z) : res (option (list Z)) :=
  match lbids with
  | [] => Ret (Some [])
  | l :: lbids' =>
      if decide (l > last) then
        r ← lookup_range (sh_em s) l;
        match r with
        | None => Ret None
        | Some (first, last') =>
            rest ← touched_loop last' lbids';
            Ret (rest ← rest; Some (first :: rest))
        end
      else touched_loop last lbids'
  end.

(** [getUncommittedExtentLBIDs]: the first LBID of each extent the transaction
    has changed. *)
Definition dbrm_getUncommittedExtentLBIDs (transID : Z) : res (Z * list Z) :=
  caught (-1, [])
    (lbidList ← VSS.getUncommittedLBIDs (sh_vss s) transID;
     match merge_sort Z.le lbidList with
     | [] => Ret (0, [])
     | l :: rest =>
         r ← lookup_range (sh_em s) l;
         match r with
         | None => Ret (-1, l :: rest)
         | Some (first, last) =>
             starts ← touched_loop last rest;
             match starts with
             | None => Ret (-1, l :: rest)
             | Some starts => Ret (0, first :: starts)
             end
         end
     end).

(** [invalidateUncommittedExtentLBIDs]: the ranges of values it sends with
    [setExtentsMaxMin], or nothing.  The type of a column is the system
    catalog's to say. *)
Context (colType : Z -> ColDataType).

Definition invalid_range (unsigned : bool) : CPMaxMin :=
  if unsigned then mkMaxMin 0 (s64 uint64_max) (-2) else mkMaxMin int64_min int64_max (-2).
Fixpoint invalid_infos (lbids : list Z) : res (list CPInfo) :=
  match lbids with
  | [] => Ret []
  | l :: lbids' =>
      loc ← lookupLocal (sh_em s) l;
      let u := match loc with Some x => isUnsigned (colType (loc_OID x)) | None => false end in
      rest ← invalid_infos lbids';
      Ret (mkCPInfo l (invalid_range u) :: rest)
  end.
Definition dbrm_invalidateUncommitted (txnid : Z) (given : option (list Z)) : res (option (list CPInfo)) :=
  lbids ← match given with
          | Some l => Ret l
          | None => r ← dbrm_getUncommittedExtentLBIDs (s32 txnid); Ret r.2
          end;
  if decide (lbids = []) then Ret None else infos ← invalid_infos lbids; Ret (Some infos).

(** A [std::set] of blocks that compares 1024-block ranges, the last range
    first; of equal ones the first inserted stays. *)
Fixpoint prune (l : Z) (ls : list Z) : list Z :=
  match ls with
  | [] => [l]
  | x :: ls' =>
      if decide (Z.shiftr l 10 = Z.shiftr x 10) then ls
      else if decide (Z.shiftr x 10 < Z.shiftr l 10) then l :: ls else x :: prune l ls'
  end.

(** The DBRoots of one copy: added when they are in [dbrExists] already. *)
Fixpoint add_roots (roots : DBROOTS_struct) (is_ : list Z) (st : gset Z * list Z) : res (gset Z * list Z) :=
  match is_ with
  | [] => Ret st
  | i :: is' =>
      d ← rd (dbRoots roots) i;
      add_roots roots is'
        (if negb (bool_decide (d = 0)) && bool_decide (d ∈ st.1) then ({[d]} ∪ st.1, st.2 ++ [d]) else st)
  end.
Fixpoint rollback_roots (transID repSize : Z) (lbids : list Z) (st : gset Z * list Z) : res (gset Z * list Z) :=
  match lbids with
  | [] => Ret st
  | l :: lbids' =>
      r ← VBBM.lookup (sh_vbbm s) l transID;
      match r with
      | None => rollback_roots transID repSize lbids' st
      | Some (roots, _) =>
          st' ← add_roots roots (seqZ 0 repSize) st;
          rollback_roots transID repSize lbids' st'
      end
  end.
(** [getDBRootsForRollback] appends to the caller's vector. *)
Definition dbrm_getDBRootsForRollback (transID repSize : Z) : res (Z * list Z) :=
  caught (-1, [])
    (lbidList ← VSS.getUncommittedLBIDs (sh_vss s) transID;
     st ← rollback_roots transID repSize (foldl (fun ls l => prune l ls) [] lbidList) (∅, []);
     Ret (ERR_OK, st.2)).

(** ** The whole state *)

Definition dbrm_checkConsistency : res Z :=
  caught (-1)
    (ExtentImage.checkConsistency (sh_em s);;
     VSS_checkConsistency (sh_vss s) (sh_vbbm s);;
     VBBM.checkConsistency (sh_vbbm s);;
     Ret 0).
(** [saveState(filename)]: the three files. *)
Definition dbrm_saveState : res (Z * (list Z * list Z * list Z)) :=
  caught (-1, ([], [], []))
    (emF ← caught [] (ExtentImage.save (sh_em s));
     vbbmF ← VBBM.save (sh_vbbm s);
     vssF ← VSS.save (sh_vss s);
     Ret (0, (emF, vbbmF, vssF))).
End queries.

(** ** Locking blocks *)

Definition waitInterval : Z := 50000.
Definition lockRetries : nat := 600. (* 30000000 / waitInterval *)

(** The catch block while the write lock is held; nothing throws between
    [lockRange] and the end, so there is never a range to release in it. *)
Definition while_locked {A} (p : prog cl_obj A) : prog cl_obj A :=
  try_catch p (fun e => confirmChanges;; throw e).

(** The wait for a lock: [others] is what other processes do to the table while
    this one sleeps for the [retries]-th time. *)
Section waiting.
Context (others : nat -> cl_obj -> cl_obj).

Fixpoint wait_loop (fuel retries : nat) (range : LBIDRange) : prog cl_obj nat :=
  locked ← while_locked (reading (fun o => CopyLocks.isLocked (image o) range));
  match fuel with
  | S fuel' =>
      if locked : bool then
        modify (others retries);; CopyLocks.lock;; wait_loop fuel' (S retries) range
      else mret retries
  | O => mret retries
  end.

Definition dbrm_lockLBIDRange (start count : Z) : prog cl_obj unit :=
  let range := mkRange start count in
  CopyLocks.lock;;
  retries ← wait_loop lockRetries 0 range;
  while_locked
    ((if decide (lockRetries <= retries)%nat then CopyLocks.forceRelease range else mret tt);;
     CopyLocks.lockRange range (-1);;
     confirmChanges).
End waiting.

Definition dbrm_releaseLBIDRange (start count : Z) : prog cl_obj unit :=
  CopyLocks.lock;;
  while_locked (CopyLocks.releaseRange (mkRange start count);; confirmChanges).
