(* ===== verification/DbrmQueryProofs.v ===== *)
(** * Properties of the client library's queries *)
From Stdlib Require Import ZArith Lia Sorting.
From stdpp Require Import sorting.
From S2P Require Import Prelude Bytes Undoable BrmTypes HashChain VBBM VSS VSSProofs VSSQueries VersionBuffer CopyLocks ExtentMap ExtentProofs ExtentDelete ExtentHWM ExtentQueries ExtentImage SlaveExtents DbrmQueries.

Local Open Scope Z_scope.

(** ** The extents of a list of blocks *)

Lemma lookup_range_found m l e : em_wf m -> e ∈ extents m -> covers l (range e) ->
  lookup_range m l = Ret (Some (start (range e), lastBlock (range e))).
Proof.
  intros Hwf [_ He]%list_elem_of_filter Hc. apply list_elem_of_lookup in He as [i Hi].
  unfold lookup_range. by rewrite (find_lbid m l i e Hwf Hi Hc).
Qed.

Lemma lookup_range_missing m l : em_wf m -> (forall e, e ∈ extents m -> ~ covers l (range e)) ->
  lookup_range m l = Ret None.
Proof. intros Hwf Hn. unfold lookup_range. by rewrite (find_lbid_none m l Hwf Hn). Qed.

(** The extent [e] is touched by a block of the list. *)
Definition touched (m : em_image) (ls : list Z) (x : Z) : Prop :=
  exists l e, l ∈ ls /\ e ∈ extents m /\ covers l (range e) /\ x = start (range e).

Section touched.
Context (s : shared) (Hwf : em_wf (sh_em s)).

Lemma same_extent e e' l : e ∈ extents (sh_em s) -> e' ∈ extents (sh_em s) ->
  covers l (range e) -> covers l (range e') -> e = e'.
Proof.
  intros [_ He]%list_elem_of_filter [_ He']%list_elem_of_filter Hc Hc'.
  apply list_elem_of_lookup in He as [i Hi]. apply list_elem_of_lookup in He' as [j Hj].
  destruct (decide (i = j)) as [->|Hne]; [congruence|].
  by destruct (extents_disjoint _ Hwf l i j e e').
Qed.

(** Extents do not interleave: one that reaches beyond the end of another
    starts behind it. *)
Lemma extent_after e e' l : e ∈ extents (sh_em s) -> e' ∈ extents (sh_em s) ->
  covers l (range e') -> l > lastBlock (range e) -> lastBlock (range e) < start (range e').
Proof.
  intros He He' Hc Hl. destruct (decide (start (range e') <= lastBlock (range e))) as [Hs|]; [|lia].
  assert (Hu : size (range e) > 0).
  { apply list_elem_of_filter in He as [Hu Hin]. apply in_use_true in Hu.
    apply list_elem_of_lookup in Hin as [i Hi]. pose proof (em_range_ok _ Hwf _ _ Hi) as [? _]. lia. }
  unfold covers, lastBlock in *. 
  assert (e = e') as ->; [|lia].
  apply (same_extent e e' (lastBlock (range e))); try done; unfold covers, lastBlock; lia.
Qed.

Lemma touched_loop_spec ls : forall e, e ∈ extents (sh_em s) -> Sorted Z.le ls ->
  Forall (fun l => start (range e) <= l) ls ->
  Forall (fun l => exists e', e' ∈ extents (sh_em s) /\ covers l (range e')) ls ->
  exists starts, touched_loop s (lastBlock (range e)) ls = Ret (Some starts) /\
    Forall (fun x => lastBlock (range e) < x) starts /\ StronglySorted Z.lt starts /\
    forall x, x = start (range e) \/ x ∈ starts <-> x = start (range e) \/ touched (sh_em s) ls x.
Proof.
  induction ls as [|l ls IH]; intros e He Hs Hlo Hex.
  { exists []. split; [done|]. split; [constructor|]. split; [constructor|]. intros x. split; [|].
    - intros [->|[]%elem_of_nil]. by left.
    - intros [->|(l & e' & []%elem_of_nil & _)]. by left. }
  apply Sorted_StronglySorted in Hs as Hss; [|intros a b c; lia]. inversion Hss as [|? ? Hss' Hle]; subst.
  apply StronglySorted_Sorted in Hss'. apply Forall_cons in Hlo as [Hl Hlo].
  apply Forall_cons in Hex as [(e' & He' & Hc') Hex]. cbn [touched_loop].
  destruct (decide (l > lastBlock (range e))) as [Hgt|Hgt].
  - rewrite (lookup_range_found _ _ e' Hwf He' Hc'). cbn [mbind res_bind].
    destruct (IH e' He' Hss') as (starts & E & Hlast & Hsort & Hx).
    { eapply Forall_impl; [exact Hle|]. cbn. unfold covers in Hc'. lia. }
    { done. }
    rewrite E. exists (start (range e') :: starts). split; [done|].
    pose proof (extent_after e e' l He He' Hc' Hgt) as Hafter.
    assert (Hpos : start (range e') <= lastBlock (range e')) by (unfold covers, lastBlock in *; lia).
    split; [constructor; [done|]; eapply Forall_impl; [exact Hlast|cbn; lia]|].
    split; [constructor; [done|]; eapply Forall_impl; [exact Hlast|cbn; lia]|].
    intros x. rewrite elem_of_cons, Hx. unfold touched.
    split; intros [Hx1|Hx1]; try (by left); right.
    + destruct Hx1 as [->|(k & f & Hk & Hf)]; [exists l, e'|exists k, f]; set_solver.
    + destruct Hx1 as (k & f & [->|Hk]%elem_of_cons & Hf & Hcf & ->); [left; by rewrite (same_extent f e' l)|right].
      by exists k, f.
  - destruct (IH e He Hss' Hlo Hex) as (starts & E & Hlast & Hsort & Hx). exists starts.
    split; [done|]. split; [done|]. split; [done|]. intros x. rewrite Hx. unfold touched.
    split; intros [Hx1|Hx1]; try (by left).
    + destruct Hx1 as (k & f & Hk & Hf). right. exists k, f. set_solver.
    + destruct Hx1 as (k & f & [->|Hk]%elem_of_cons & Hf & Hcf & ->); [left|right; by exists k, f].
      f_equal. f_equal. apply (same_extent f e l); try done. unfold covers, lastBlock in *. lia.
Qed.

Lemma uncommitted_extents_spec transID lbids : VSS.getUncommittedLBIDs (sh_vss s) transID = Ret lbids ->
  Forall (fun l => exists e, e ∈ extents (sh_em s) /\ covers l (range e)) lbids ->
  exists starts, dbrm_getUncommittedExtentLBIDs s transID = Ret (0, starts) /\ StronglySorted Z.lt starts /\
    forall x, x ∈ starts <-> touched (sh_em s) lbids x.
Proof.
  intros Hl Hex. unfold dbrm_getUncommittedExtentLBIDs. rewrite Hl. cbn [mbind res_bind].
  pose proof (merge_sort_Permutation Z.le lbids) as Hp. pose proof (Sorted_merge_sort Z.le lbids) as Hs.
  rewrite <- Hp in Hex. assert (Ht : forall x, touched (sh_em s) lbids x <-> touched (sh_em s) (merge_sort Z.le lbids) x).
  { intros x. unfold touched. by setoid_rewrite Hp. }
  setoid_rewrite Ht. clear Ht Hp Hl. destruct (merge_sort Z.le lbids) as [|l rest].
  { exists []. split; [done|]. split; [constructor|]. intros x. split; [by intros []%elem_of_nil|].
    intros (l & e & []%elem_of_nil & _). }
  apply Sorted_StronglySorted in Hs as Hss; [|intros a b c; lia]. inversion Hss as [|? ? Hss' Hle]; subst.
  apply StronglySorted_Sorted in Hss'. apply Forall_cons in Hex as [(e & He & Hc) Hex].
  rewrite (lookup_range_found _ _ e Hwf He Hc). cbn [mbind res_bind].
  destruct (touched_loop_spec rest e He Hss') as (starts & E & Hlast & Hsort & Hx); [|done|].
  { eapply Forall_impl; [exact Hle|]. cbn. unfold covers in Hc. lia. }
  rewrite E. exists (start (range e) :: starts). split; [done|].
  assert (Hpos : start (range e) <= lastBlock (range e)) by (unfold covers, lastBlock in *; lia).
  split; [constructor; [done|]; eapply Forall_impl; [exact Hlast|cbn; lia]|].
  intros x. rewrite elem_of_cons, Hx. unfold touched. split.
  - intros [->|(k & f & Hk & Hf)]; [exists l, e|exists k, f]; set_solver.
  - intros (k & f & [->|Hk]%elem_of_cons & Hf & Hcf & ->); [left; by rewrite (same_extent f e l)|right].
    by exists k, f.
Qed.
End touched.

(** ** Versions *)

Lemma empty_no_candidate m lbid q txnID vbOnly v f : vss_wf m -> VSS.isEmpty m = true ->
  ~ candidate lbid q txnID vbOnly (vss_map m) v f.
Proof.
  intros Hwf He%bool_decide_eq_true ([lk Hm] & _). apply vss_map_inv in Hm as (i & e & Hi & Hu & _); [|apply Hwf].
  rewrite (vw_size _ Hwf) in He. unfold used_count in He.
  assert (Hin : e ∈ filter HashChain.used (storage m)) by (apply list_elem_of_filter; split; [done|by eapply list_elem_of_lookup_2]).
  destruct (filter HashChain.used (storage m)); [by apply elem_of_nil in Hin|cbn in He; lia].
Qed.

Section versions.
Context (s : shared) (q : QueryContext_vss) (txnID : Z).
Hypothesis Hwf : vss_wf (sh_vss s).
Hypothesis Hscn : 0 <= currentScn q.
Hypothesis Hpos : forall lbid v f, vss_map (sh_vss s) !! (lbid, v) = Some f -> 0 <= v.

Lemma vssLookup_answer lbid vbOnly : exists r, dbrm_vssLookup s lbid q txnID vbOnly = Ret (Some r) /\
  lookup_answer lbid q txnID vbOnly (vss_map (sh_vss s)) r.
Proof.
  unfold dbrm_vssLookup. destruct (negb vbOnly && VSS.isEmpty (sh_vss s)) eqn:E.
  - apply andb_true_iff in E as [_ E]. eexists. split; [done|]. constructor. intros v f.
    by apply empty_no_candidate.
  - destruct (lookup_spec lbid q txnID vbOnly _ Hwf Hscn (Hpos lbid)) as (r & -> & Ha). by exists r.
Qed.

Lemma bulkVSSLookup_answer lbids : exists rs, dbrm_bulkVSSLookup s lbids q txnID = Ret (0, rs) /\
  Forall2 (fun lbid r => lookup_answer lbid q txnID false (vss_map (sh_vss s)) r) lbids rs.
Proof.
  unfold dbrm_bulkVSSLookup. destruct (VSS.isEmpty (sh_vss s)) eqn:E.
  - eexists. split; [done|]. apply Forall2_fmap_r, Forall_Forall2_diag, Forall_forall. intros l _. constructor.
    intros v f. by apply empty_no_candidate.
  - assert (H : exists rs, lookup_all s lbids q txnID = Ret rs /\
      Forall2 (fun lbid r => lookup_answer lbid q txnID false (vss_map (sh_vss s)) r) lbids rs).
    { induction lbids as [|l lbids (rs & IH & Hrs)]; [by exists []|]. cbn [lookup_all].
      destruct (lookup_spec l q txnID false _ Hwf Hscn (Hpos l)) as (r & -> & Ha). cbn [mbind res_bind].
      rewrite IH. exists (r :: rs). by repeat constructor. }
    destruct H as (rs & -> & Hrs). by exists rs.
Qed.
End versions.

(** ** Locking blocks *)

Lemma cl_lock_spec m log : cl_wf m -> exists m' log', CopyLocks.lock (mkUndoable m log) = (Ret tt, mkUndoable m' log') /\
  cl_wf m' /\ locks m' = locks m.
Proof.
  intros Hwf. unfold CopyLocks.lock. erewrite bind_Ret by reflexivity. cbn [image].
  destruct (decide _) as [Hk|Hk]; [|by exists m, log]. destruct (decide _) as [Hz|Hz].
  - destruct (growCL_run m log Hwf) as (m' & E & Hwf' & Hl & _); [|by exists m', []].
    rewrite (cw_size _ Hwf). pose proof (cw_alloc _ Hwf) as Ha. rewrite Hz in *. unfold locks.
    destruct (entries m); [done|]. unfold sizeof_CopyLockEntry in Ha. cbn [length] in Ha. lia.
  - eexists _, log. split; [reflexivity|]. split; [|done]. destruct Hwf. split; try done. by left.
Qed.

(** A lock taken by [lockLBIDRange] is the only one on its blocks. *)
Definition sole_lock (m : cl_seg) (l : LBIDRange) (txn : Z) : Prop :=
  exists rest, locks m ≡ₚ mkCL (r_start l) (r_size l) txn :: rest /\ Forall (fun e => intersects l e = false) rest.

Lemma while_locked_ret {A} (p : prog cl_obj A) o a o' : p o = (Ret a, o') -> while_locked p o = (Ret a, o').
Proof. intros E. unfold while_locked, try_catch. by rewrite E. Qed.

Section waiting.
Context (others : nat -> cl_obj -> cl_obj).
(** Other processes keep the table well-formed. *)
Hypothesis others_wf : forall n o, cl_wf (image o) -> cl_wf (image (others n o)).

Lemma wait_loop_spec fuel : forall retries l m log, cl_wf m ->
  exists n m' log', wait_loop others fuel retries l (mkUndoable m log) = (Ret n, mkUndoable m' log') /\ cl_wf m' /\
    ((n = fuel + retries)%nat \/ existsb (intersects l) (locks m') = false).
Proof.
  assert (Hread : forall l m log, cl_wf m ->
    while_locked (reading (fun o => CopyLocks.isLocked (image o) l)) (mkUndoable m log)
    = (Ret (existsb (intersects l) (locks m)), mkUndoable m log)).
  { intros l m log Hwf. apply while_locked_ret. unfold reading. cbn [image]. by rewrite isLocked_spec. }
  induction fuel as [|fuel IH]; intros retries l m log Hwf; cbn [wait_loop];
    rewrite (bind_Ret _ _ _ _ _ (Hread l m log Hwf)).
  { exists retries, m, log. split; [done|]. split; [done|]. by left. }
  destruct (existsb (intersects l) (locks m)) eqn:E.
  - erewrite bind_Ret by reflexivity. pose proof (others_wf retries (mkUndoable m log) Hwf) as Hwf1.
    destruct (others retries (mkUndoable m log)) as [m1 log1]. cbn [image] in Hwf1.
    destruct (cl_lock_spec m1 log1 Hwf1) as (m2 & log2 & E2 & Hwf2 & _). rewrite (bind_Ret _ _ _ _ _ E2).
    destruct (IH (S retries) l m2 log2 Hwf2) as (n & m' & log' & E' & Hwf' & H).
    exists n, m', log'. split; [done|]. split; [done|]. destruct H as [->|H]; [left; lia|by right].
  - exists retries, m, log. split; [done|]. split; [done|]. by right.
Qed.
End waiting.

Lemma not_locked_rest l (es : list CopyLockEntry) : existsb (intersects l) es = false ->
  Forall (fun e => intersects l e = false) es.
Proof.
  intros H. apply Forall_forall. intros e He. apply not_true_iff_false. intros Hi.
  apply not_true_iff_false in H. apply H, existsb_exists. exists e. by rewrite <- list_elem_of_In.
Qed.

(** C25: [lockLBIDRange] always returns, whatever other processes do to a
    well-formed table while it sleeps (it waits at most 600 times and then takes
    the lock by force), and it leaves a lock of the caller on exactly the range
    asked for that no other lock of the table meets. *)
Theorem lockLBIDRange_sole (others : nat -> cl_obj -> cl_obj) (start count : Z) (m : cl_seg) log :
  (forall n o, cl_wf (image o) -> cl_wf (image (others n o))) -> cl_wf m -> 0 < count < 2 ^ 31 ->
  exists m', dbrm_lockLBIDRange others start count (mkUndoable m log) = (Ret tt, mkUndoable m' []) /\
    cl_wf m' /\ sole_lock m' (mkRange start count) (-1).
Proof.
  intros Ho Hwf Hc. unfold dbrm_lockLBIDRange. set (l := mkRange start count).
  destruct (cl_lock_spec m log Hwf) as (m1 & log1 & E1 & Hwf1 & _). rewrite (bind_Ret _ _ _ _ _ E1).
  destruct (wait_loop_spec others Ho lockRetries 0 l m1 log1 Hwf1) as (n & m2 & log2 & E2 & Hwf2 & Hn).
  rewrite (bind_Ret _ _ _ _ _ E2).
  assert (Hfree : exists m3 log3,
    (if decide (lockRetries <= n)%nat then CopyLocks.forceRelease l else mret tt) (mkUndoable m2 log2)
    = (Ret tt, mkUndoable m3 log3) /\ cl_wf m3 /\ Forall (fun e => intersects l e = false) (locks m3)).
  { destruct (decide _) as [Hr|Hr].
    - destruct (free_where_spec (intersects l) m2 log2 Hwf2) as (m3 & log3 & E3 & Hwf3 & Hl).
      exists m3, log3. split; [done|]. split; [done|]. rewrite Hl. apply Forall_forall.
      by intros e [? _]%list_elem_of_filter.
    - exists m2, log2. split; [done|]. split; [done|]. destruct Hn as [->|Hn]; [lia|]. by apply not_locked_rest. }
  destruct Hfree as (m3 & log3 & E3 & Hwf3 & Hf).
  destruct (lockRange_spec l (-1) m3 log3 Hwf3 Hc) as (m4 & log4 & E4 & Hwf4 & Hp).
  exists m4. split; [|split; [done|by exists (locks m3)]].
  apply while_locked_ret. rewrite (bind_Ret _ _ _ _ _ E3), (bind_Ret _ _ _ _ _ E4). done.
Qed.

(** Another process that holds a lock and never lets go. *)
Definition idle : nat -> cl_obj -> cl_obj := fun _ o => o.
Lemma lockLBIDRange_sole_witness : existsb (intersects (mkRange 104 2)) (locks cl_two) = true /\
  exists m', dbrm_lockLBIDRange idle 104 2 (mkUndoable cl_two []) = (Ret tt, mkUndoable m' []) /\
    cl_wf m' /\ sole_lock m' (mkRange 104 2) (-1).
Proof. split; [vm_compute; reflexivity|]. apply lockLBIDRange_sole; [done|apply cl_two_wf|lia]. Defined.

(** ** A transaction's extents *)

Lemma vss_scan_all {B} m (f : VSSEntry -> list B) : vss_wf m ->
  VSS.scan m f = Ret (storage m ≫= (fun e => if decide (vs_lbid e = -1) then [] else f e)).
Proof. intros Hwf. unfold VSS.scan. apply collect_all, Hwf. Qed.

(** A transaction's blocks are those it has a version of. *)
Lemma getUncommittedLBIDs_spec m transID : vss_wf m -> exists lbids,
  VSS.getUncommittedLBIDs m transID = Ret lbids /\ forall l, l ∈ lbids <-> is_Some (vss_map m !! (l, transID)).
Proof.
  intros Hwf. eexists. split; [by apply vss_scan_all|]. intros l. rewrite list_elem_of_bind. split.
  - intros (e & Hl & Hin). destruct (decide (vs_lbid e = -1)) as [|Hu]; [by apply elem_of_nil in Hl|].
    destruct (decide (vs_verID e = transID)) as [<-|]; [|by apply elem_of_nil in Hl].
    apply list_elem_of_singleton in Hl as ->. apply list_elem_of_lookup in Hin as [i Hi].
    exists (vs_val e). apply (vss_map_stored m e); [apply Hwf|]. by exists i.
  - intros [v Hv]. apply vss_map_inv in Hv as (i & e & Hi & Hu & [= <- <-] & _); [|apply Hwf].
    exists e. split; [|by eapply list_elem_of_lookup_2].
    rewrite (decide_False (P := vs_lbid e = -1)) by exact Hu. rewrite decide_True by done. by apply list_elem_of_here.
Qed.

(** [e] is an extent in which the transaction has written a block. *)
Definition written (s : shared) (transID : Z) (e : EMEntry) : Prop :=
  e ∈ extents (sh_em s) /\ exists l, covers l (range e) /\ is_Some (vss_map (sh_vss s) !! (l, transID)).

(** C26: [getUncommittedExtentLBIDs] looks an extent up once for each run of
    sorted blocks, and still returns exactly the first blocks of the extents in
    which the transaction has written, each once and in ascending order. *)
Theorem getUncommittedExtentLBIDs_exact (s : shared) (transID : Z) : em_wf (sh_em s) -> vss_wf (sh_vss s) ->
  (forall l f, vss_map (sh_vss s) !! (l, transID) = Some f -> exists e, e ∈ extents (sh_em s) /\ covers l (range e)) ->
  exists starts, dbrm_getUncommittedExtentLBIDs s transID = Ret (0, starts) /\ StronglySorted Z.lt starts /\
    forall x, x ∈ starts <-> exists e, written s transID e /\ x = start (range e).
Proof.
  intros Hem Hvss Hex. destruct (getUncommittedLBIDs_spec _ transID Hvss) as (lbids & El & Hl).
  destruct (uncommitted_extents_spec s Hem transID lbids El) as (starts & E & Hs & Hx).
  { apply Forall_forall. intros l [f Hf]%Hl. eauto. }
  exists starts. split; [done|]. split; [done|]. intros x. rewrite Hx. unfold touched, written. split.
  - intros (l & e & Hin & He & Hc & ->). exists e. split; [split; [done|exists l]|done]. by rewrite <- Hl.
  - intros (e & (He & l & Hc & Hv) & ->). exists l, e. by rewrite Hl.
Qed.

(** Two extents, two versions of block 7, and an empty version buffer. *)
Definition demo_shared : shared :=
  mkShared demo_image (mkVbbm 0 4 0 0 3 [] [-1; -1; -1] [] 0x40001 1000 true 8192000) vsmall2 cl_two.

Lemma getUncommittedExtentLBIDs_exact_witness : exists starts,
  dbrm_getUncommittedExtentLBIDs (demo_shared) 5 = Ret (0, starts) /\
  StronglySorted Z.lt starts /\
  forall x, x ∈ starts <-> exists e, written (demo_shared) 5 e /\ x = start (range e).
Proof.
  destruct vsmall2_wf as (Hv & _ & Hm).
  apply getUncommittedExtentLBIDs_exact; [apply demo_wf|exact Hv|]. unfold demo_shared. cbn [sh_vss sh_em]. intros l f. rewrite Hm.
  intros [[[=] _]|[_ H]]%lookup_insert_Some. apply lookup_singleton_Some in H as [[= <-] _].
  exists (demo_extent 0 0 8191). split; [apply list_elem_of_here|unfold covers; cbn; lia].
Defined.

(** C27: the versions the client library finds for a snapshot, one block at a
    time or for a list of blocks, are those the version table promises; that the
    table is not locked and not searched when it is empty changes no answer. *)
Theorem client_versions (s : shared) (q : QueryContext_vss) (txnID : Z) (lbids : list Z) : vss_wf (sh_vss s) ->
  0 <= currentScn q -> (forall lbid v f, vss_map (sh_vss s) !! (lbid, v) = Some f -> 0 <= v) ->
  (exists rs, dbrm_bulkVSSLookup s lbids q txnID = Ret (0, rs) /\
     Forall2 (fun lbid r => lookup_answer lbid q txnID false (vss_map (sh_vss s)) r) lbids rs) /\
  forall lbid vbOnly, exists r, dbrm_vssLookup s lbid q txnID vbOnly = Ret (Some r) /\
    lookup_answer lbid q txnID vbOnly (vss_map (sh_vss s)) r.
Proof.
  intros Hwf Hscn Hpos. split; [by apply bulkVSSLookup_answer|]. intros. by apply vssLookup_answer.
Qed.

Lemma client_versions_witness :
  let s := demo_shared in
  let q := QueryContext_vss_of (mkQC 6 [5]) in
  (exists rs, dbrm_bulkVSSLookup s [7; 8] q 8 = Ret (0, rs) /\
     Forall2 (fun lbid r => lookup_answer lbid q 8 false (vss_map (sh_vss s)) r) [7; 8] rs) /\
  forall lbid vbOnly, exists r, dbrm_vssLookup s lbid q 8 vbOnly = Ret (Some r) /\
    lookup_answer lbid q 8 vbOnly (vss_map (sh_vss s)) r.
Proof.
  cbv zeta. apply client_versions; [apply vsmall2_wf|vm_compute; done|apply vsmall2_nonneg].
Defined.

(** ** The DBRoots of a transaction *)

Lemma add_roots_none roots is_ : forall out st, add_roots roots is_ (∅, out) = Ret st -> st = (∅, out).
Proof.
  induction is_ as [|i is_ IH]; intros out st; cbn [add_roots]; [by intros [= <-]|].
  destruct (rd (dbRoots roots) i) as [d| |]; cbn [mbind res_bind]; [|done..].
  rewrite (bool_decide_eq_false_2 (d ∈ _)) by (by apply not_elem_of_empty).
  rewrite andb_false_r. apply IH.
Qed.

Lemma rollback_roots_none s transID repSize lbids : forall out st,
  rollback_roots s transID repSize lbids (∅, out) = Ret st -> st = (∅, out).
Proof.
  induction lbids as [|l lbids IH]; intros out st; cbn [rollback_roots]; [by intros [= <-]|].
  destruct (VBBM.lookup (sh_vbbm s) l transID) as [[[roots f]|]| |]; cbn [mbind res_bind]; [|apply IH|done..].
  destruct (add_roots roots _ (∅, out)) as [st'| |] eqn:E; cbn [mbind res_bind]; [|done..].
  apply add_roots_none in E as ->. apply IH.
Qed.

(** A DBRoot is pushed only when it is already among those pushed: whatever the
    transaction has written, [getDBRootsForRollback] returns none. *)
Theorem getDBRootsForRollback_none s transID repSize code roots :
  dbrm_getDBRootsForRollback s transID repSize = Ret (code, roots) -> roots = [].
Proof.
  unfold dbrm_getDBRootsForRollback. destruct (VSS.getUncommittedLBIDs _ _) as [l| |]; cbn [mbind res_bind caught];
    [|by intros [= _ <-]|done].
  destruct (rollback_roots _ _ _ _ _) as [st| |] eqn:E; cbn [mbind res_bind caught]; [|by intros [= _ <-]|done].
  apply rollback_roots_none in E as ->. by intros [= _ <-].
Qed.

(** A version that has been overwritten in the version buffer is reported as
    missing, never as ERR_SNAPSHOT_TOO_OLD. *)
Theorem lookupLocal_never_too_old s existDbroot lbid verid code place : vss_wf (sh_vss s) -> 0 <= verid ->
  dbrm_lookupLocal s existDbroot lbid verid true = Ret (code, place) -> code = 0 \/ code = -1.
Proof.
  intros Hwf Hv. unfold dbrm_lookupLocal. cbn [negb].
  destruct (VBBM.lookup _ _ _) as [[[d f]|]| |]; cbn [mbind res_bind caught].
  - intros [= <- _]. by left.
  - rewrite isTooOld_walk by done. cbn [mbind res_bind caught]. intros [= <- _]. by right.
  - intros [= <- _]. by right.
  - done.
Qed.
