(* ===== verification/BlockCache.v ===== *)
(** * The block cache

    The cache of disk blocks of the primitive processor
    (primitives/blockcache/filebuffermgr.cpp, filebuffer.cpp), the main reader
    of what the BRM knows: its keys are an LBID and a version, and it drops the
    blocks of the extents the extent map names.  A block lives in a slot of a
    pool; a hash set finds the slot of a key, a list keeps the order of use, and
    the slot points back to its node of the list. *)
From Stdlib Require Import ZArith Lia.
From S2P Require Import Prelude Bytes BrmTypes ExtentMap ExtentDelete.

Local Open Scope Z_scope.

(** An LBID and a version. *)
Definition bkey : Type := Z * Z.

#[global] Instance bkey_eq_dec : EqDecision bkey := _.
#[global] Instance bkey_countable : Countable bkey := _.
#[global] Typeclasses Transparent bkey.

Definition BLOCK_SIZE : Z := 8192.

Record FBData := mkFBD { fd_lbid : Z; fd_ver : Z; hits : Z }.
Definition key_of (d : FBData) : bkey := (fd_lbid d, fd_ver d).
Definition hit (d : FBData) : FBData := mkFBD (fd_lbid d) (fd_ver d) (u8 (hits d + 1)).

(** A slot.  [fListLoc] names a node of the list; [None] is [end()], and the
    value of an iterator that was not set. *)
Record FileBuffer := mkFB {
  fByteData : list Z; fDataLen : Z; fLbid : Z; fVerid : Z; fListLoc : option Z }.

(** Slots start with indeterminate bytes; [setData] copies [BLOCK_SIZE] of them,
    the whole array. *)
Definition FileBuffer_new (lbid ver : Z) : FileBuffer := mkFB [] 0 lbid ver None.
Definition FileBuffer_default : FileBuffer := mkFB [] 0 (-1) 0 None.
(** [operator=] with a block without data: the bytes stay. *)
Definition FileBuffer_assign (fb rhs : FileBuffer) : FileBuffer :=
  mkFB (fByteData fb) (fDataLen rhs) (fLbid rhs) (fVerid rhs) (fListLoc rhs).
Definition setData (d : list Z) (fb : FileBuffer) : res FileBuffer :=
  if decide (BLOCK_SIZE <= Z.of_nat (length d)) then
    Ret (mkFB (take (Z.to_nat BLOCK_SIZE) d) BLOCK_SIZE (fLbid fb) (fVerid fb) (fListLoc fb))
  else UB OutOfBounds.
Definition set_listLoc (n : option Z) (fb : FileBuffer) : FileBuffer :=
  mkFB (fByteData fb) (fDataLen fb) (fLbid fb) (fVerid fb) n.
Definition set_id (lbid ver : Z) (fb : FileBuffer) : FileBuffer :=
  mkFB (fByteData fb) (fDataLen fb) lbid ver (fListLoc fb).

(** ** The list of nodes

    A node of a [std::list] keeps its address while elements come and go; an
    iterator to a node that was erased must not be used. *)
Definition list_erase (n : option Z) (l : list (Z * FBData)) : res (list (Z * FBData)) :=
  match n with
  | Some n => if decide (n ∈ l.*1) then Ret (filter (fun x => x.1 <> n) l) else UB DanglingPointer
  | None => UB DanglingPointer
  end.
(** [it->hits++; splice(begin(), ..., it)] *)
Definition list_touch (n : option Z) (l : list (Z * FBData)) : res (list (Z * FBData)) :=
  match n with
  | Some n =>
      match filter (fun x => x.1 = n) l with
      | (_, d) :: _ => Ret ((n, hit d) :: filter (fun x => x.1 <> n) l)
      | [] => UB DanglingPointer
      end
  | None => UB DanglingPointer
  end.
(** [back()] of an empty list is undefined. *)
Definition list_back (l : list (Z * FBData)) : res (Z * FBData) :=
  match last l with Some x => Ret x | None => UB OutOfBounds end.
Definition pop_back (l : list (Z * FBData)) : list (Z * FBData) := take (length l - 1) l.
Definition list_begin (l : list (Z * FBData)) : option Z := fst <$> head l.

(** ** The cache *)

(** [nextNode]: the address of the next node to be allocated. *)
Record FileBufferMgr := mkCache {
  fMaxNumBlocks : Z;
  fDeleteBlocks : Z;
  fbSet : gmap bkey Z;
  fbList : list (Z * FBData);
  fCacheSize : Z;
  fFBPool : list FileBuffer;
  fEmptyPoolSlots : list Z;
  fBlksLoaded : Z;
  fBlksNotUsed : Z;
  nextNode : Z;
}.

Definition with_set (f : gmap bkey Z -> gmap bkey Z) (c : FileBufferMgr) : FileBufferMgr :=
  mkCache (fMaxNumBlocks c) (fDeleteBlocks c) (f (fbSet c)) (fbList c) (fCacheSize c) (fFBPool c)
    (fEmptyPoolSlots c) (fBlksLoaded c) (fBlksNotUsed c) (nextNode c).
Definition with_list (l : list (Z * FBData)) (c : FileBufferMgr) : FileBufferMgr :=
  mkCache (fMaxNumBlocks c) (fDeleteBlocks c) (fbSet c) l (fCacheSize c) (fFBPool c)
    (fEmptyPoolSlots c) (fBlksLoaded c) (fBlksNotUsed c) (nextNode c).
Definition with_size (f : Z -> Z) (c : FileBufferMgr) : FileBufferMgr :=
  mkCache (fMaxNumBlocks c) (fDeleteBlocks c) (fbSet c) (fbList c) (u32 (f (fCacheSize c))) (fFBPool c)
    (fEmptyPoolSlots c) (fBlksLoaded c) (fBlksNotUsed c) (nextNode c).
Definition with_pool (p : list FileBuffer) (c : FileBufferMgr) : FileBufferMgr :=
  mkCache (fMaxNumBlocks c) (fDeleteBlocks c) (fbSet c) (fbList c) (fCacheSize c) p
    (fEmptyPoolSlots c) (fBlksLoaded c) (fBlksNotUsed c) (nextNode c).
Definition with_slots (l : list Z) (c : FileBufferMgr) : FileBufferMgr :=
  mkCache (fMaxNumBlocks c) (fDeleteBlocks c) (fbSet c) (fbList c) (fCacheSize c) (fFBPool c)
    l (fBlksLoaded c) (fBlksNotUsed c) (nextNode c).
Definition count_loaded (c : FileBufferMgr) : FileBufferMgr :=
  mkCache (fMaxNumBlocks c) (fDeleteBlocks c) (fbSet c) (fbList c) (fCacheSize c) (fFBPool c)
    (fEmptyPoolSlots c) (u64 (fBlksLoaded c + 1)) (fBlksNotUsed c) (nextNode c).
(** [if (hits == 0) fBlksNotUsed++] *)
Definition count_unused (d : FBData) (c : FileBufferMgr) : FileBufferMgr :=
  if decide (hits d = 0) then
    mkCache (fMaxNumBlocks c) (fDeleteBlocks c) (fbSet c) (fbList c) (fCacheSize c) (fFBPool c)
      (fEmptyPoolSlots c) (fBlksLoaded c) (u64 (fBlksNotUsed c + 1)) (nextNode c)
  else c.
(** [push_front] of a new node *)
Definition push_front (d : FBData) (c : FileBufferMgr) : FileBufferMgr :=
  mkCache (fMaxNumBlocks c) (fDeleteBlocks c) (fbSet c) ((nextNode c, d) :: fbList c) (fCacheSize c)
    (fFBPool c) (fEmptyPoolSlots c) (fBlksLoaded c) (fBlksNotUsed c) (nextNode c + 1).

(** The constructor; the two counters are not initialized. *)
Definition FileBufferMgr_new (numBlcks deleteBlocks loaded notUsed : Z) : FileBufferMgr :=
  mkCache numBlcks deleteBlocks ∅ [] 0 [] [] loaded notUsed 0.


Definition erydbassert (b : bool) : prog FileBufferMgr unit :=
  if b then mret tt else throw (ERYDBExcept ERR_ASSERTION_FAILURE).

Definition pool_at (idx : Z) : prog FileBufferMgr FileBuffer := reading (fun c => rd (fFBPool c) idx).
Definition pool_set (idx : Z) (fb : FileBuffer) : prog FileBufferMgr unit :=
  pool_at idx;; modify (fun c => with_pool (wr (fFBPool c) idx fb) c).
(** [fFBPool[idx].setData(data)] *)
Definition pool_setData (idx : Z) (data : list Z) : prog FileBufferMgr unit :=
  fb ← pool_at idx; fb' ← reading (fun _ => setData data fb); pool_set idx fb'.
(** [fFBPool[idx].listLoc(fbList.begin())] *)
Definition pool_link (idx : Z) : prog FileBufferMgr unit :=
  fb ← pool_at idx; l ← gets fbList; pool_set idx (set_listLoc (list_begin l) fb).

(** ** Flushing *)

Definition flushCache : prog FileBufferMgr unit :=
  modify (fun c => mkCache (fMaxNumBlocks c) (fDeleteBlocks c) ∅ [] 0 [] [] (fBlksLoaded c)
    (fBlksNotUsed c) (nextNode c)).

(** What every kind of flush does to an element of the set. *)
Definition drop_entry (k : bkey) (idx : Z) : prog FileBufferMgr unit :=
  fb ← pool_at idx;
  l ← reading (fun c => list_erase (fListLoc fb) (fbList c));
  modify (with_list l);;
  modify (fun c => with_slots (fEmptyPoolSlots c ++ [idx]) c);;
  modify (with_set (delete k));;
  modify (with_size (fun n => n - 1)).

Definition flushOne (lbid ver : Z) : prog FileBufferMgr unit :=
  s ← gets fbSet;
  match s !! (lbid, ver) with
  | Some idx => drop_entry (lbid, ver) idx
  | None => mret tt
  end.

Definition flushMany (l : list bkey) : prog FileBufferMgr unit :=
  for_each l (fun k =>
    s ← gets fbSet;
    match s !! k with
    | Some idx => drop_entry k idx
    | None => mret tt
    end).

Section unordered.
(** The order in which an [unordered_set] is walked, and the elements of an
    [unordered_multimap] with a given key, are not specified. *)
Context (iteration : gmap bkey Z -> list (bkey * Z)).
Context (equal_range : list bkey -> Z -> list bkey).

Definition flushManyAllversion (lbids : list Z) : prog FileBufferMgr unit :=
  n ← gets fCacheSize;
  if decide (n = 0 \/ lbids = []) then mret tt
  else
    s ← gets fbSet;
    for_each (iteration s) (fun '(k, idx) =>
      if decide (k.1 ∈ lbids) then drop_entry k idx else mret tt).

(** The blocks of an extent, by an index of the cache that holds iterators;
    one to an element that has been erased must not be followed. *)
Definition flush_block (byLBID : list bkey) (lbid : Z) : prog FileBufferMgr unit :=
  for_each (equal_range byLBID lbid) (fun k =>
    s ← gets fbSet;
    match s !! k with
    | Some idx => drop_entry k idx
    | None => undefined DanglingPointer
    end).

Definition extent_lbids (e : EMEntry) : list Z :=
  seqZ (start (range e)) (u32 (size (range e) * 1024)).

Definition flush_extent (byLBID : list bkey) (e : EMEntry) : prog FileBufferMgr unit :=
  for_each (extent_lbids e) (flush_block byLBID).

Definition clearThreshold : Z := 50000.

(** [dbrm.getExtents(oid, extents, true, true, true)]: 0 and the extents, or -1. *)
Context (getExtents : Z -> Z * list EMEntry).

(** The loop over the OIDs, which ends early when the whole cache is flushed. *)
Fixpoint flush_oids (byLBID : list bkey) (count i : Z) (oids : list Z) : prog FileBufferMgr unit :=
  match oids with
  | [] => mret tt
  | oid :: oids' =>
      let '(err, extents) := getExtents oid in
      if decide (err < 0 \/ (i = 0 /\ u64 (Z.of_nat (length extents) * count) > clearThreshold))
      then flushCache
      else for_each extents (flush_extent byLBID);; flush_oids byLBID count (u32 (i + 1)) oids'
  end.

Definition flushOIDs (oids : list Z) : prog FileBufferMgr unit :=
  n ← gets fCacheSize;
  if decide (n = 0 \/ oids = []) then mret tt
  else
    s ← gets fbSet;
    flush_oids (iteration s).*1 (Z.of_nat (length oids)) 0 oids.

Fixpoint flush_partitions (byLBID : list bkey) (parts : list LogicalPartition) (oids : list Z)
    : prog FileBufferMgr unit :=
  match oids with
  | [] => mret tt
  | oid :: oids' =>
      let '(err, extents) := getExtents oid in
      if decide (err < 0) then flushCache
      else
        for_each extents (fun e => if lp_mem (lp_of e) parts then flush_extent byLBID e else mret tt);;
        flush_partitions byLBID parts oids'
  end.

Definition flushPartition (oids : list Z) (parts : list LogicalPartition) : prog FileBufferMgr unit :=
  n ← gets fCacheSize;
  if decide (n = 0 \/ oids = [] \/ parts = []) then mret tt
  else
    s ← gets fbSet;
    flush_partitions (iteration s).*1 parts oids.
End unordered.

(** ** Lookups *)

(** The part under the lock: find the slot and move its node to the front. *)
Definition touch (k : bkey) : prog FileBufferMgr (option Z) :=
  s ← gets fbSet;
  match s !! k with
  | Some idx =>
      fb ← pool_at idx;
      l ← reading (fun c => list_touch (fListLoc fb) (fbList c));
      modify (with_list l);;
      mret (Some idx)
  | None => mret None
  end.

Definition cache_exists (k : bkey) : prog FileBufferMgr bool :=
  r ← touch k; mret (bool_decide (is_Some r)).

(** A pointer into the pool. *)
Definition findPtr (k : bkey) : prog FileBufferMgr (option Z) := touch k.

(** [find] with a [FileBuffer&]: the copy is made under the lock. *)
Definition find_fb (k : bkey) : prog FileBufferMgr (option FileBuffer) :=
  r ← touch k;
  match r with
  | Some idx => fb ← pool_at idx; mret (Some fb)
  | None => mret None
  end.

(** [find] with a pointer to the caller's buffer: the copy is made after the
    lock was released. *)
Definition copy_out (idx : Z) : prog FileBufferMgr (list Z) := fb ← pool_at idx; mret (fByteData fb).
Definition cache_find (k : bkey) : prog FileBufferMgr (option (list Z)) :=
  r ← touch k;
  match r with
  | Some idx => d ← copy_out idx; mret (Some d)
  | None => mret None
  end.

Fixpoint touch_all (ks : list bkey) : prog FileBufferMgr (list (option Z)) :=
  match ks with
  | [] => mret []
  | k :: ks' => r ← touch k; rs ← touch_all ks'; mret (r :: rs)
  end.
Fixpoint copy_all (is_ : list (option Z)) : prog FileBufferMgr (list (option (list Z))) :=
  match is_ with
  | [] => mret []
  | None :: is' => ds ← copy_all is'; mret (None :: ds)
  | Some idx :: is' => d ← copy_out idx; ds ← copy_all is'; mret (Some d :: ds)
  end.
(** The buffers and how many were found. *)
Definition bulkFind (ks : list bkey) : prog FileBufferMgr (list (option (list Z)) * Z) :=
  is_ ← touch_all ks;
  ds ← copy_all is_;
  mret (ds, Z.of_nat (length (filter is_Some ds))).

(** ** Insertion *)

(** An iteration of [depleteCache]: the least recently used block goes. *)
Definition deplete_one : prog FileBufferMgr unit :=
  x ← reading (fun c => list_back (fbList c));
  s ← gets fbSet;
  match s !! key_of x.2 with
  | None => throw (ERYDBExcept ERR_ASSERTION_FAILURE)
  | Some idx =>
      n ← gets (fun c => Z.of_nat (length (fFBPool c)));
      erydbassert (bool_decide (idx < n));;
      modify (fun c => with_slots (fEmptyPoolSlots c ++ [idx]) c);;
      modify (with_set (delete (key_of x.2)));;
      modify (count_unused x.2);;
      modify (fun c => with_list (pop_back (fbList c)) c);;
      modify (with_size (fun n => n - 1))
  end.

Fixpoint deplete (n : nat) : prog FileBufferMgr unit :=
  match n with
  | O => mret tt
  | S n' =>
      l ← gets fbList;
      if decide (l = []) then mret tt else deplete_one;; deplete n'
  end.
Definition depleteCache : prog FileBufferMgr unit := n ← gets fDeleteBlocks; deplete (Z.to_nat n).

(** The slot for a new block when the cache is full: that of the last block. *)
Definition insert_full (k : bkey) (data : list Z) : prog FileBufferMgr Z :=
  x ← reading (fun c => list_back (fbList c));
  s ← gets fbSet;
  match s !! key_of x.2 with
  | None => throw (ERYDBExcept ERR_ASSERTION_FAILURE)
  | Some pi =>
      max ← gets fMaxNumBlocks;
      erydbassert (bool_decide (pi < max));;
      n ← gets (fun c => Z.of_nat (length (fFBPool c)));
      erydbassert (bool_decide (pi < n));;
      modify (with_set (fun s => <[k := pi]> s));;
      fb ← pool_at pi;
      pool_set pi (FileBuffer_assign fb (FileBuffer_new k.1 k.2));;
      pool_setData pi data;;
      modify (with_set (delete (key_of x.2)));;
      modify (count_unused x.2);;
      modify (fun c => with_list (pop_back (fbList c)) c);;
      modify (with_size (fun n => n - 1));;
      depleteCache;;
      mret pi
  end.

(** The slot for a new block when there is room: a free one, or a new one. *)
Definition insert_room (k : bkey) (data : list Z) : prog FileBufferMgr Z :=
  slots ← gets fEmptyPoolSlots;
  pi ← match slots with
       | pi :: slots' =>
           modify (with_slots slots');;
           fb ← pool_at pi;
           pool_set pi (FileBuffer_assign fb (FileBuffer_new k.1 k.2));;
           pool_setData pi data;;
           mret pi
       | [] =>
           n ← gets (fun c => Z.of_nat (length (fFBPool c)));
           modify (fun c => with_pool (fFBPool c ++ [FileBuffer_new k.1 k.2]) c);;
           pool_setData (u32 n) data;;
           mret (u32 n)
       end;
  modify (with_set (fun s => <[k := pi]> s));;
  mret pi.

Definition cache_insert (k : bkey) (data : list Z) : prog FileBufferMgr Z :=
  s ← gets fbSet;
  match s !! k with
  | Some _ => mret 0
  | None =>
      modify (with_set (fun s => <[k := 0]> s));;
      modify (with_size (fun n => n + 1));;
      modify (push_front (mkFBD k.1 k.2 0));;
      modify count_loaded;;
      n ← gets fCacheSize;
      max ← gets fMaxNumBlocks;
      pi ← (if decide (n > max) then insert_full k data else insert_room k data);
      len ← gets (fun c => Z.of_nat (length (fFBPool c)));
      erydbassert (bool_decide (pi < len));;
      pool_link pi;;
      n ← gets fCacheSize;
      erydbassert (bool_decide (n <= max));;
      mret 1
  end.

(** ** Insertion in bulk *)

(** In a full cache the node of the last block is reused for the new one. *)
Definition updateLRU (f : FBData) : prog FileBufferMgr unit :=
  n ← gets fCacheSize;
  max ← gets fMaxNumBlocks;
  if decide (n > max) then
    x ← reading (fun c => list_back (fbList c));
    s ← gets fbSet;
    match s !! key_of x.2 with
    | None => undefined DanglingPointer
    | Some idx =>
        modify (fun c => with_slots (fEmptyPoolSlots c ++ [idx]) c);;
        modify (count_unused x.2);;
        modify (with_set (delete (key_of x.2)));;
        modify (fun c => with_list ((x.1, f) :: pop_back (fbList c)) c);;
        modify (with_size (fun n => n - 1))
    end
  else modify (push_front f).

Definition doBlockCopy (k : bkey) (data : list Z) : prog FileBufferMgr Z :=
  slots ← gets fEmptyPoolSlots;
  idx ← match slots with
        | idx :: slots' => modify (with_slots slots');; mret idx
        | [] =>
            n ← gets (fun c => Z.of_nat (length (fFBPool c)));
            modify (fun c => with_pool (fFBPool c ++ [FileBuffer_default]) c);;
            mret (u32 n)
        end;
  fb ← pool_at idx;
  pool_set idx (set_id k.1 k.2 fb);;
  pool_setData idx data;;
  mret idx.

(** An element of [bulkInsert]: whether the block was new. *)
Definition bulk_one (k : bkey) (data : list Z) : prog FileBufferMgr bool :=
  s ← gets fbSet;
  match s !! k with
  | Some _ => mret false
  | None =>
      modify (with_set (fun s => <[k := 0]> s));;
      modify (with_size (fun n => n + 1));;
      modify count_loaded;;
      updateLRU (mkFBD k.1 k.2 0);;
      idx ← doBlockCopy k data;
      let pi := s32 idx in
      modify (with_set (fun s => <[k := u32 pi]> s));;
      pool_link pi;;
      mret true
  end.

Fixpoint bulk_ops (ops : list (bkey * list Z)) : prog FileBufferMgr Z :=
  match ops with
  | [] => mret 0
  | (k, data) :: ops' =>
      b ← bulk_one k data;
      n ← bulk_ops ops';
      mret (if b : bool then n + 1 else n)
  end.

Definition bulkInsert (ops : list (bkey * list Z)) : prog FileBufferMgr Z :=
  ret ← bulk_ops ops;
  n ← gets fCacheSize;
  max ← gets fMaxNumBlocks;
  erydbassert (bool_decide (n <= max));;
  mret ret.
