(* ===== verification/BlockCacheProofs.v ===== *)
(** * The block cache is a list of blocks in the order of their use

    [repr c es]: the cache [c] holds the entries [es], most recent first.  Each
    operation of BlockCache.v is an operation on the blocks of [es], and never
    follows a stale iterator or leaves the pool. *)
From Stdlib Require Import ZArith Lia.
From S2P Require Import Prelude Bytes BrmTypes ExtentMap ExtentDelete BlockCache.

Local Open Scope Z_scope.

(** ** Entries *)

Record entry := mkEnt { e_node : Z; e_data : FBData; e_idx : Z; e_fb : FileBuffer }.
Definition ekey (e : entry) : bkey := key_of (e_data e).
Definition enode (e : entry) : Z * FBData := (e_node e, e_data e).
Definition eslot (e : entry) : bkey * Z := (ekey e, e_idx e).
Definition linked (e : entry) : Prop := fListLoc (e_fb e) = Some (e_node e).

(** All but the links from the slots to the nodes, which a new block gets last. *)
Record repr0 (c : FileBufferMgr) (es : list entry) : Prop := {
  r_list : fbList c = enode <$> es;
  r_set : fbSet c = list_to_map (eslot <$> es);
  r_size : fCacheSize c = Z.of_nat (length es);
  r_room : Z.of_nat (length es) <= fMaxNumBlocks c;
  r_max : 0 < fMaxNumBlocks c < 2 ^ 31;
  r_keys : NoDup (ekey <$> es);
  r_nodes : NoDup (e_node <$> es);
  r_next : Forall (fun e => e_node e < nextNode c) es;
  r_pool : Forall (fun e => fFBPool c !! Z.to_nat (e_idx e) = Some (e_fb e)) es;
  r_slots : fEmptyPoolSlots c ++ (e_idx <$> es) ≡ₚ seqZ 0 (Z.of_nat (length (fFBPool c)));
  r_cap : Z.of_nat (length (fFBPool c)) <= fMaxNumBlocks c;
}.

Definition repr (c : FileBufferMgr) (es : list entry) : Prop := repr0 c es /\ Forall linked es.

Lemma repr_new max del a b : 0 < max < 2 ^ 31 -> repr (FileBufferMgr_new max del a b) [].
Proof. intros H. split; [|done]. split; cbn; try done; lia || constructor. Qed.

Section entries.
Context (c : FileBufferMgr) (es : list entry).
Hypothesis R : repr0 c es.

Lemma r_idx e : e ∈ es -> 0 <= e_idx e < Z.of_nat (length (fFBPool c)).
Proof.
  intros He. apply (list_elem_of_fmap_2 e_idx) in He.
  assert (H : e_idx e ∈ fEmptyPoolSlots c ++ (e_idx <$> es)) by (apply elem_of_app; by right).
  rewrite (r_slots _ _ R) in H. apply elem_of_seqZ in H. lia.
Qed.

Lemma r_idx_NoDup : NoDup (fEmptyPoolSlots c ++ (e_idx <$> es)).
Proof. rewrite (r_slots _ _ R). apply NoDup_seqZ. Qed.

Lemma r_rd e : e ∈ es -> rd (fFBPool c) (e_idx e) = Ret (e_fb e).
Proof.
  intros He. apply rd_Ret. split; [by apply r_idx|].
  pose proof (r_pool _ _ R) as H. rewrite Forall_forall in H. by apply H.
Qed.

Lemma r_lookup e : e ∈ es -> fbSet c !! ekey e = Some (e_idx e).
Proof.
  intros He. rewrite (r_set _ _ R). apply elem_of_list_to_map_1.
  - rewrite <- list_fmap_compose. apply (r_keys _ _ R).
  - by apply (list_elem_of_fmap_2 eslot).
Qed.

Lemma r_lookup_None k : fbSet c !! k = None <-> k ∉ ekey <$> es.
Proof.
  rewrite (r_set _ _ R), <- not_elem_of_list_to_map, <- list_fmap_compose. done.
Qed.

Lemma r_lookup_cases k :
  (exists l1 e l2, es = l1 ++ e :: l2 /\ ekey e = k /\ fbSet c !! k = Some (e_idx e)) \/
  (k ∉ ekey <$> es /\ fbSet c !! k = None).
Proof.
  destruct (decide (k ∈ ekey <$> es)) as [Hk|Hk]; [left|right].
  - apply list_elem_of_fmap in Hk as (e & -> & He).
    destruct (list_elem_of_split _ _ He) as (l1 & l2 & E). exists l1, e, l2.
    split; [done|]. split; [done|]. by apply r_lookup.
  - split; [done|]. by apply r_lookup_None.
Qed.
End entries.

(** The map of the slots does not depend on the order. *)
Lemma slots_perm (es es' : list entry) : NoDup (ekey <$> es) -> es ≡ₚ es' ->
  (list_to_map (eslot <$> es) : gmap bkey Z) = list_to_map (eslot <$> es').
Proof.
  intros H Hp. apply list_to_map_proper.
  - by rewrite <- list_fmap_compose.
  - by rewrite Hp.
Qed.

(** Dropping an entry. *)
Lemma repr0_drop c c' l1 e l2 : repr0 c (l1 ++ e :: l2) ->
  fbSet c' = delete (ekey e) (fbSet c) -> fbList c' = enode <$> (l1 ++ l2) ->
  fCacheSize c' = u32 (fCacheSize c - 1) -> fFBPool c' = fFBPool c ->
  fEmptyPoolSlots c' = fEmptyPoolSlots c ++ [e_idx e] -> fMaxNumBlocks c' = fMaxNumBlocks c ->
  nextNode c' = nextNode c -> repr0 c' (l1 ++ l2).
Proof.
  intros R Es El Ec Ep Ee Em En. pose proof (Permutation_middle l1 l2 e) as Hp.
  pose proof (r_keys _ _ R) as HK. rewrite <- Hp in HK. apply NoDup_cons in HK as [Hk HK].
  pose proof (r_size _ _ R) as HS. pose proof (r_room _ _ R) as HR. pose proof (r_max _ _ R) as HM.
  rewrite <- Hp in HS, HR. cbn [length] in HS, HR.
  split; rewrite ?Em, ?En, ?Ep; try done.
  - rewrite Es, (r_set _ _ R), <- (slots_perm (e :: l1 ++ l2)).
    + cbn. apply delete_insert_id. by rewrite <- not_elem_of_list_to_map, <- list_fmap_compose.
    + by constructor.
    + done.
  - rewrite Ec, HS, u32_id; lia.
  - lia.
  - pose proof (r_nodes _ _ R) as H. rewrite <- Hp in H. by apply NoDup_cons in H as [_ H].
  - pose proof (r_next _ _ R) as H. rewrite <- Hp in H. by inversion H.
  - pose proof (r_pool _ _ R) as H. rewrite <- Hp in H. by inversion H.
  - rewrite Ee, <- (r_slots _ _ R), <- Hp, <- app_assoc. done.
  - apply (r_cap _ _ R).
Qed.

(** Adding an entry at the front. *)
Lemma repr0_add c c' es e : repr0 c es -> ekey e ∉ ekey <$> es ->
  Z.of_nat (length es) < fMaxNumBlocks c -> e_node e ∉ e_node <$> es -> e_node e < nextNode c' ->
  nextNode c <= nextNode c' ->
  fbSet c' = <[ekey e := e_idx e]> (fbSet c) -> fbList c' = enode e :: fbList c ->
  fCacheSize c' = Z.of_nat (S (length es)) -> fMaxNumBlocks c' = fMaxNumBlocks c ->
  fFBPool c' !! Z.to_nat (e_idx e) = Some (e_fb e) ->
  Forall (fun x => fFBPool c' !! Z.to_nat (e_idx x) = fFBPool c !! Z.to_nat (e_idx x)) es ->
  fEmptyPoolSlots c' ++ e_idx e :: (e_idx <$> es) ≡ₚ seqZ 0 (Z.of_nat (length (fFBPool c'))) ->
  Z.of_nat (length (fFBPool c')) <= fMaxNumBlocks c -> repr0 c' (e :: es).
Proof.
  intros R Hk Hr Hn Hn' Hnext Es El Ec Em Hp Hps Hsl Hcap. destruct R.
  split; rewrite ?Em; try done.
  - cbn. by rewrite El, r_list0.
  - cbn. by rewrite Es, r_set0.
  - cbn [length]. lia.
  - by constructor.
  - by constructor.
  - constructor; [done|]. eapply Forall_impl; [exact r_next0|]. cbn. lia.
  - constructor; [done|]. rewrite Forall_forall in *. intros x Hx. rewrite Hps by done. auto.
Qed.

(** Moving an entry to the front and counting the hit. *)
Definition ehit (e : entry) : entry := mkEnt (e_node e) (hit (e_data e)) (e_idx e) (e_fb e).

Lemma repr_touch c l1 e l2 : repr c (l1 ++ e :: l2) ->
  repr (with_list (enode <$> ehit e :: l1 ++ l2) c) (ehit e :: l1 ++ l2).
Proof.
  intros [R HL]. pose proof (Permutation_middle l1 l2 e) as Hp.
  assert (Hm : forall {B} (f : entry -> B), f (ehit e) = f e ->
    f <$> ehit e :: l1 ++ l2 = f <$> e :: l1 ++ l2) by (intros B f Hf; cbn; by rewrite Hf).
  split; [|rewrite <- Hp in HL; by inversion HL; constructor].
  destruct R. rewrite <- Hp in *. cbn [length] in *.
  split; cbn [fbList fbSet fCacheSize fMaxNumBlocks fFBPool fEmptyPoolSlots nextNode with_list length];
    rewrite ?Hm by done; try done.
  - rewrite r_set0. apply slots_perm; [|done]. by rewrite <- Hp.
  - by inversion r_next0; constructor.
  - by inversion r_pool0; constructor.
Qed.

(** ** Nodes of the list *)

Section nodes.
Context (l1 : list entry) (e : entry) (l2 : list entry).
Hypothesis N : NoDup (e_node <$> (l1 ++ e :: l2)).

Lemma other_nodes l : (l = l1 \/ l = l2) -> Forall (fun x => x.1 <> e_node e) (enode <$> l).
Proof.
  intros Hl. rewrite fmap_app, fmap_cons in N. apply NoDup_app in N as (_ & Hd & N2).
  apply NoDup_cons in N2 as [Hn _]. apply Forall_fmap, Forall_forall. intros x Hx E. cbn in E.
  destruct Hl as [->| ->].
  - apply (Hd (e_node x)); [by apply list_elem_of_fmap_2|]. rewrite E. apply list_elem_of_here.
  - apply Hn. rewrite <- E. by apply list_elem_of_fmap_2.
Qed.

Lemma filter_others : filter (fun x => x.1 <> e_node e) (enode <$> (l1 ++ e :: l2)) = enode <$> (l1 ++ l2).
Proof.
  rewrite fmap_app, fmap_cons, filter_app, filter_cons_False by (cbn; tauto).
  rewrite !filter_all by (apply other_nodes; auto). by rewrite fmap_app.
Qed.

Lemma filter_node : filter (fun x => x.1 = e_node e) (enode <$> (l1 ++ e :: l2)) = [enode e].
Proof.
  rewrite fmap_app, fmap_cons, filter_app, filter_cons_True by done.
  rewrite !filter_none by (apply other_nodes; auto). done.
Qed.

Lemma erase_node : list_erase (Some (e_node e)) (enode <$> (l1 ++ e :: l2)) = Ret (enode <$> (l1 ++ l2)).
Proof.
  cbn [list_erase]. rewrite decide_True; [by rewrite filter_others|].
  rewrite <- list_fmap_compose, fmap_app. apply elem_of_app. right. apply list_elem_of_here.
Qed.

Lemma touch_node :
  list_touch (Some (e_node e)) (enode <$> (l1 ++ e :: l2)) = Ret (enode <$> ehit e :: l1 ++ l2).
Proof. cbn [list_touch]. by rewrite filter_node, filter_others. Qed.
End nodes.

(** ** Lookups and flushes *)

Lemma touch_found c l1 e l2 : repr c (l1 ++ e :: l2) ->
  touch (ekey e) c = (Ret (Some (e_idx e)), with_list (enode <$> ehit e :: l1 ++ l2) c).
Proof.
  intros [R HL]. assert (He : e ∈ l1 ++ e :: l2) by (apply elem_of_app; right; apply list_elem_of_here).
  unfold touch. erewrite bind_Ret by reflexivity. rewrite (r_lookup _ _ R _ He).
  unfold pool_at. rewrite (bind_reading _ _ _ (e_fb e)) by (by apply (r_rd _ _ R)).
  rewrite (bind_reading _ _ _ (enode <$> ehit e :: l1 ++ l2)); [done|].
  rewrite Forall_forall in HL. rewrite (HL _ He), (r_list _ _ R). apply touch_node, R.
Qed.

Lemma touch_missing c es k : repr c es -> k ∉ ekey <$> es -> touch k c = (Ret None, c).
Proof.
  intros [R _] Hk. unfold touch. erewrite bind_Ret by reflexivity.
  by rewrite (proj2 (r_lookup_None _ _ R k) Hk).
Qed.

Lemma drop_found c l1 e l2 : repr c (l1 ++ e :: l2) ->
  exists c', drop_entry (ekey e) (e_idx e) c = (Ret tt, c') /\ repr c' (l1 ++ l2) /\
    (fMaxNumBlocks c' = fMaxNumBlocks c /\ fDeleteBlocks c' = fDeleteBlocks c) /\
    fbSet c' = delete (ekey e) (fbSet c).
Proof.
  intros [R HL]. assert (He : e ∈ l1 ++ e :: l2) by (apply elem_of_app; right; apply list_elem_of_here).
  unfold drop_entry, pool_at. rewrite (bind_reading _ _ _ (e_fb e)) by (by apply (r_rd _ _ R)).
  rewrite (bind_reading _ _ _ (enode <$> (l1 ++ l2))).
  2:{ rewrite Forall_forall in HL. rewrite (HL _ He), (r_list _ _ R). apply erase_node, R. }
  eexists. split; [reflexivity|]. split; [|done].
  split; [by eapply (repr0_drop c)|].
  rewrite <- Permutation_middle in HL. by inversion HL.
Qed.

(** ** The pool *)

Lemma lookup_wr_eq {A} (l : list A) i a b : rd l i = Ret b -> wr l i a !! Z.to_nat i = Some a.
Proof.
  intros [Hi Hl]%rd_Ret. unfold wr. rewrite decide_True by done.
  apply list_lookup_insert_eq. by eapply lookup_lt_Some.
Qed.
Lemma rd_wr_eq {A} (l : list A) i a b : rd l i = Ret b -> rd (wr l i a) i = Ret a.
Proof. intros H. apply rd_Ret. split; [by apply rd_Ret in H as []|by eapply lookup_wr_eq]. Qed.
Lemma lookup_wr_ne {A} (l : list A) i a j : j <> Z.to_nat i -> wr l i a !! j = l !! j.
Proof. intros H. unfold wr. case_decide; [|done]. by apply list_lookup_insert_ne. Qed.

Definition filled (data : list Z) (fb : FileBuffer) : FileBuffer :=
  mkFB (take (Z.to_nat BLOCK_SIZE) data) BLOCK_SIZE (fLbid fb) (fVerid fb) (fListLoc fb).

Lemma pool_set_run c i fb fb0 : rd (fFBPool c) i = Ret fb0 ->
  pool_set i fb c = (Ret tt, with_pool (wr (fFBPool c) i fb) c).
Proof. intros H. unfold pool_set, pool_at. by rewrite (bind_reading _ _ _ fb0). Qed.

Lemma pool_setData_run c i data fb : rd (fFBPool c) i = Ret fb -> BLOCK_SIZE <= Z.of_nat (length data) ->
  pool_setData i data c = (Ret tt, with_pool (wr (fFBPool c) i (filled data fb)) c).
Proof.
  intros H Hd. unfold pool_setData, pool_at. rewrite (bind_reading _ _ _ fb) by done.
  rewrite (bind_reading _ _ _ (filled data fb)).
  - by apply (pool_set_run _ _ _ fb).
  - unfold setData. by rewrite decide_True.
Qed.

Lemma pool_link_run c i fb : rd (fFBPool c) i = Ret fb ->
  pool_link i c = (Ret tt, with_pool (wr (fFBPool c) i (set_listLoc (list_begin (fbList c)) fb)) c).
Proof.
  intros H. unfold pool_link, pool_at. rewrite (bind_reading _ _ _ fb) by done.
  erewrite bind_Ret by reflexivity. by apply (pool_set_run _ _ _ fb).
Qed.

(** A slot was taken for a block: the pool and the free slots after it. *)
Record took (c : FileBufferMgr) (data : list Z) (pi : Z) (pool' : list FileBuffer) (slots' : list Z)
    (fb : FileBuffer) : Prop := {
  t_fb : rd pool' pi = Ret fb;
  t_data : fByteData fb = take (Z.to_nat BLOCK_SIZE) data;
  t_other : forall j, (j < length (fFBPool c))%nat -> j <> Z.to_nat pi -> pool' !! j = fFBPool c !! j;
  t_slots : forall is_, fEmptyPoolSlots c ++ is_ ≡ₚ seqZ 0 (Z.of_nat (length (fFBPool c))) ->
    slots' ++ pi :: is_ ≡ₚ seqZ 0 (Z.of_nat (length pool'));
  t_cap : length pool' = length (fFBPool c) \/
    (fEmptyPoolSlots c = [] /\ length pool' = S (length (fFBPool c)));
}.

Lemma took_slot c data pi slots pre fb0 pool' fb : fEmptyPoolSlots c = slots -> rd (fFBPool c) pi = Ret fb0 ->
  pool' = wr (fFBPool c) pi fb -> fByteData fb = take (Z.to_nat BLOCK_SIZE) data ->
  slots ≡ₚ pi :: pre -> took c data pi pool' pre fb.
Proof.
  intros Hs Hr -> Hd Hp. split; try done.
  - by eapply rd_wr_eq.
  - intros j _ Hj. by apply lookup_wr_ne.
  - intros is_ H. rewrite length_wr, <- H, Hs, Hp. by rewrite <- Permutation_middle.
  - left. apply length_wr.
Qed.

Lemma took_new c data pool' fb : fEmptyPoolSlots c = [] -> pool' = fFBPool c ++ [fb] ->
  fByteData fb = take (Z.to_nat BLOCK_SIZE) data ->
  took c data (Z.of_nat (length (fFBPool c))) pool' [] fb.
Proof.
  intros Hs -> Hd. split; try done.
  - apply rd_nat. by rewrite lookup_app_r, Nat.sub_diag by lia.
  - intros j Hj _. by apply lookup_app_l.
  - intros is_ H. rewrite Hs in H. cbn in H |- *. rewrite H, length_app. cbn.
    rewrite Nat2Z.inj_add, seqZ_app by lia. rewrite Permutation_app_comm. cbn. by rewrite Z.add_0_l.
  - right. rewrite length_app. cbn. split; [done|lia].
Qed.

Lemma slots_range c es pi pre : repr0 c es -> fEmptyPoolSlots c = pi :: pre ->
  0 <= pi < Z.of_nat (length (fFBPool c)).
Proof.
  intros R Hs. assert (H : pi ∈ fEmptyPoolSlots c ++ (e_idx <$> es)) by (rewrite Hs; apply list_elem_of_here).
  rewrite (r_slots _ _ R) in H. apply elem_of_seqZ in H. lia.
Qed.

(** ** Placing a block *)

(** The state with a new block in its slot, at the front of the list, not yet
    linked. *)
Lemma repr_place c c' es k data pi pool' slots' fb n :
  repr0 c es -> k ∉ ekey <$> es -> Z.of_nat (length es) < fMaxNumBlocks c ->
  took c data pi pool' slots' fb -> n ∉ e_node <$> es -> n < nextNode c' -> nextNode c <= nextNode c' ->
  fbSet c' = <[k := pi]> (fbSet c) -> fbList c' = (n, mkFBD k.1 k.2 0) :: fbList c ->
  fCacheSize c' = Z.of_nat (S (length es)) -> fMaxNumBlocks c' = fMaxNumBlocks c ->
  fFBPool c' = pool' -> fEmptyPoolSlots c' = slots' ->
  repr0 c' (mkEnt n (mkFBD k.1 k.2 0) pi fb :: es).
Proof.
  intros R Hk Hr [] Hn Hn1 Hn2 Es El Ec Em Ep Esl. destruct k as [lbid ver].
  pose proof (t_slots0 _ (r_slots _ _ R)) as Hsl.
  eapply (repr0_add c); rewrite ?Ep, ?Esl; try done.
  - by apply rd_Ret in t_fb0 as [].
  - apply Forall_forall. intros x Hx. pose proof (r_idx _ _ R _ Hx).
    apply t_other0; [lia|]. cbn [e_idx]. intros E.
    assert (HN : NoDup (slots' ++ pi :: (e_idx <$> es))) by (rewrite Hsl; apply NoDup_seqZ).
    apply NoDup_app in HN as (_ & _ & HN). apply NoDup_cons in HN as [HN _]. apply HN.
    apply rd_Ret in t_fb0 as [Hpi _]. replace pi with (e_idx x) by lia. by apply list_elem_of_fmap_2.
  - pose proof (r_cap _ _ R). destruct t_cap0 as [->|[He ->]]; [done|].
    pose proof (r_slots _ _ R) as H1. rewrite He in H1. apply Permutation_length in H1. cbn in H1.
    rewrite length_fmap, length_seqZ in H1. lia.
Qed.

(** Linking the first entry. *)
Definition elink (e : entry) : entry :=
  mkEnt (e_node e) (e_data e) (e_idx e) (set_listLoc (Some (e_node e)) (e_fb e)).

Lemma link_front c e es : repr0 c (e :: es) -> Forall linked es ->
  exists c', pool_link (e_idx e) c = (Ret tt, c') /\ repr c' (elink e :: es) /\
    c' = with_pool (fFBPool c') c.
Proof.
  intros R HL. pose proof (r_rd _ _ R e (list_elem_of_here _ _)) as Hr.
  rewrite (pool_link_run _ _ _ Hr), (r_list _ _ R). eexists. split; [reflexivity|]. split; [|done].
  split; [|by constructor]. pose proof (r_idx_NoDup _ _ R) as HN.
  pose proof (fun x => r_idx _ _ R x) as HI. destruct R.
  split; cbn [fbList fbSet fCacheSize fMaxNumBlocks fFBPool fEmptyPoolSlots nextNode with_pool length];
    rewrite ?length_wr; try done.
  - by inversion r_next0; constructor.
  - inversion r_pool0 as [|? ? H1 H2]; subst. constructor; [by eapply lookup_wr_eq|].
    apply Forall_forall. intros x Hx. rewrite lookup_wr_ne.
    + rewrite Forall_forall in H2. by apply H2.
    + intros E. apply NoDup_app in HN as (_ & _ & HN). apply NoDup_cons in HN as [HN _]. apply HN.
      specialize (HI x ltac:(by apply list_elem_of_further)) as H3.
      specialize (HI e (list_elem_of_here _ _)) as H4.
      replace (e_idx e) with (e_idx x) by lia. by apply list_elem_of_fmap_2.
Qed.

(** Nothing changed but the entries at the end. *)
Definition kept (c c' : FileBufferMgr) : Prop :=
  fMaxNumBlocks c' = fMaxNumBlocks c /\ fDeleteBlocks c' = fDeleteBlocks c /\
  fFBPool c' = fFBPool c /\ nextNode c' = nextNode c.

Lemma list_back_snoc es e : list_back (enode <$> (es ++ [e])) = Ret (enode e).
Proof. unfold list_back. rewrite fmap_app. cbn [fmap list_fmap]. by rewrite last_snoc. Qed.
Lemma pop_back_snoc es e : pop_back (enode <$> (es ++ [e])) = enode <$> es.
Proof.
  unfold pop_back. rewrite fmap_app, length_app, Nat.add_sub. by apply take_app_length'.
Qed.

Lemma count_unused_fields d c : exists n,
  count_unused d c = mkCache (fMaxNumBlocks c) (fDeleteBlocks c) (fbSet c) (fbList c) (fCacheSize c)
    (fFBPool c) (fEmptyPoolSlots c) (fBlksLoaded c) n (nextNode c).
Proof. unfold count_unused. case_decide; [by eexists|]. exists (fBlksNotUsed c). by destruct c. Qed.

Lemma deplete_one_run c es e : repr0 c (es ++ [e]) ->
  exists c', deplete_one c = (Ret tt, c') /\ repr0 c' es /\ kept c c'.
Proof.
  intros R. assert (He : e ∈ es ++ [e]) by (apply elem_of_app; right; apply list_elem_of_here).
  unfold deplete_one. rewrite (bind_reading _ _ _ (enode e)) by (rewrite (r_list _ _ R); apply list_back_snoc).
  erewrite bind_Ret by reflexivity. cbn [enode snd]. change (key_of (e_data e)) with (ekey e).
  rewrite (r_lookup _ _ R _ He). erewrite bind_Ret by reflexivity.
  pose proof (r_idx _ _ R _ He). rewrite bool_decide_eq_true_2 by lia.
  erewrite bind_Ret by reflexivity. do 2 erewrite bind_Ret by reflexivity.
  erewrite bind_Ret by reflexivity.
  destruct (count_unused_fields (e_data e)
    (with_set (delete (ekey e)) (with_slots (fEmptyPoolSlots c ++ [e_idx e]) c))) as [n ->].
  eexists. split; [reflexivity|]. split; [|done].
  rewrite <- (app_nil_r es). eapply (repr0_drop c _ es e []); try done.
  change (pop_back (fbList c) = enode <$> (es ++ [])). rewrite (r_list _ _ R), pop_back_snoc. by rewrite app_nil_r.
Qed.

Lemma kept_trans c1 c2 c3 : kept c1 c2 -> kept c2 c3 -> kept c1 c3.
Proof. unfold kept. intros (?&?&?&?) (?&?&?&?). repeat split; congruence. Qed.

Lemma deplete_run n : forall c es, repr0 c es ->
  exists c', deplete n c = (Ret tt, c') /\ repr0 c' (take (length es - n) es) /\ kept c c'.
Proof.
  induction n as [|n IH]; intros c es R.
  { exists c. rewrite Nat.sub_0_r, take_ge by lia. done. }
  cbn [deplete]. erewrite bind_Ret by reflexivity. rewrite (r_list _ _ R).
  destruct es as [|e es _] using rev_ind; [by exists c|].
  rewrite decide_False by (rewrite fmap_app; by destruct (enode <$> es)).
  destruct (deplete_one_run _ _ _ R) as (c1 & E & R1 & K1). rewrite (bind_Ret _ _ _ _ _ E).
  destruct (IH _ _ R1) as (c2 & E2 & R2 & K2). exists c2. split; [done|].
  split; [|by eapply kept_trans]. rewrite length_app. cbn [length].
  rewrite take_app_le by lia. by replace (length es + 1 - S n)%nat with (length es - n)%nat by lia.
Qed.

(** ** Insertion *)

Lemma insert_room_run c k data es : repr0 c es -> Z.of_nat (length (fFBPool c)) < 2 ^ 32 ->
  BLOCK_SIZE <= Z.of_nat (length data) -> forall c1, fFBPool c1 = fFBPool c ->
  fEmptyPoolSlots c1 = fEmptyPoolSlots c ->
  exists pi pool' slots' fb, took c data pi pool' slots' fb /\
    insert_room k data c1 = (Ret pi, with_set (fun s => <[k := pi]> s) (with_pool pool' (with_slots slots' c1))).
Proof.
  intros R Hlen Hd c1 Ep Es. unfold insert_room. erewrite bind_Ret by reflexivity. rewrite Es.
  destruct (fEmptyPoolSlots c) as [|pi slots'] eqn:Hs.
  - exists (Z.of_nat (length (fFBPool c))), (fFBPool c ++ [filled data (FileBuffer_new k.1 k.2)]), [],
      (filled data (FileBuffer_new k.1 k.2)).
    split; [by apply took_new|]. rewrite prog_bind_assoc. erewrite bind_Ret by reflexivity.
    rewrite prog_bind_assoc. erewrite bind_Ret by reflexivity. rewrite Ep, u32_id by lia.
    rewrite prog_bind_assoc. erewrite bind_Ret.
    2:{ apply (pool_setData_run _ _ _ (FileBuffer_new k.1 k.2)); [|done].
        cbn. rewrite ?Ep. apply rd_nat. by rewrite lookup_app_r, Nat.sub_diag by lia. }
    erewrite bind_Ret by reflexivity. cbn [fFBPool with_pool]. rewrite ?Ep, wr_nat.
    rewrite insert_app_r_alt, Nat.sub_diag by lia. destruct c1; cbn in *. by rewrite Es.
  - pose proof (slots_range _ _ _ _ R Hs) as Hpi.
    destruct (in_range_rd (fFBPool c) pi) as [fb0 Hr]; [by apply in_range_true|].
    set (fb1 := FileBuffer_assign fb0 (FileBuffer_new k.1 k.2)).
    exists pi, (wr (fFBPool c) pi (filled data fb1)), slots', (filled data fb1).
    split; [by eapply took_slot|]. rewrite prog_bind_assoc. erewrite bind_Ret by reflexivity.
    unfold pool_at. rewrite prog_bind_assoc, (bind_reading _ _ _ fb0) by (cbn; by rewrite Ep).
    rewrite prog_bind_assoc. erewrite bind_Ret by (apply (pool_set_run _ _ _ fb0); cbn; by rewrite Ep).
    rewrite prog_bind_assoc. erewrite bind_Ret.
    2:{ apply (pool_setData_run _ _ _ fb1); [|done]. cbn. rewrite ?Ep. by eapply rd_wr_eq. }
    erewrite bind_Ret by reflexivity. cbn [fFBPool with_pool]. rewrite wr_wr, <- Ep. reflexivity.
Qed.

(** The state of an insertion before it has a slot for the block. *)
Definition announced (k : bkey) (c : FileBufferMgr) : FileBufferMgr :=
  count_loaded (push_front (mkFBD k.1 k.2 0) (with_size (fun n => n + 1)
    (with_set (fun s => <[k := 0]> s) c))).

Lemma next_fresh c es : repr0 c es -> nextNode c ∉ e_node <$> es.
Proof.
  intros R (e & E & He)%list_elem_of_fmap. pose proof (r_next _ _ R) as H.
  rewrite Forall_forall in H. specialize (H _ He). cbn in H. lia.
Qed.

(** A full cache: the last entry makes room. *)
Section full.
Context (c : FileBufferMgr) (k : bkey) (data : list Z) (es : list entry) (e : entry).
Hypothesis R : repr0 c (es ++ [e]).
Hypothesis Hk : k ∉ ekey <$> (es ++ [e]).
Hypothesis Hfull : Z.of_nat (length (es ++ [e])) = fMaxNumBlocks c.
Hypothesis Hd : BLOCK_SIZE <= Z.of_nat (length data).

Let fb := filled data (FileBuffer_assign (e_fb e) (FileBuffer_new k.1 k.2)).
Let d := mkFBD k.1 k.2 0.
(** The state before [depleteCache]. *)
Let replaced (n : Z) : FileBufferMgr :=
  mkCache (fMaxNumBlocks c) (fDeleteBlocks c) (<[k := e_idx e]> (delete (ekey e) (fbSet c)))
    ((nextNode c, d) :: (enode <$> es)) (fCacheSize c) (wr (fFBPool c) (e_idx e) fb)
    (fEmptyPoolSlots c) (u64 (fBlksLoaded c + 1)) n (nextNode c + 1).

Lemma last_in : e ∈ es ++ [e].
Proof. apply elem_of_app. right. apply list_elem_of_here. Qed.

Lemma last_key : k <> ekey e.
Proof. intros ->. apply Hk, list_elem_of_fmap_2, last_in. Qed.

Lemma announced_back : list_back (fbList (announced k c)) = Ret (enode e) /\
  pop_back (fbList (announced k c)) = (nextNode c, d) :: (enode <$> es).
Proof.
  change (fbList (announced k c)) with ([(nextNode c, d)] ++ fbList c).
  rewrite (r_list _ _ R), fmap_app, (assoc_L app). cbn [fmap list_fmap]. split.
  - unfold list_back. by rewrite last_snoc.
  - unfold pop_back. rewrite length_app, Nat.add_sub. by apply take_app_length'.
Qed.

Lemma full_size : u32 (u32 (fCacheSize c + 1) - 1) = fCacheSize c.
Proof.
  rewrite (r_size _ _ R). pose proof (r_max _ _ R). rewrite (u32_id (_ + 1)), u32_id; lia.
Qed.

Lemma insert_full_replaces : exists n,
  insert_full k data (announced k c) = (depleteCache ≫= fun _ => mret (e_idx e)) (replaced n).
Proof.
  pose proof (r_idx _ _ R _ last_in) as Hi. pose proof (r_cap _ _ R) as Hcap.
  pose proof (r_rd _ _ R _ last_in) as Hr. destruct announced_back as [Hb Hp].
  unfold insert_full. rewrite (bind_reading _ _ _ (enode e)) by done.
  erewrite bind_Ret by reflexivity. cbn [enode snd]. change (key_of (e_data e)) with (ekey e).
  change (fbSet (announced k c)) with (<[k := 0]> (fbSet c)).
  rewrite lookup_insert_ne by apply last_key. rewrite (r_lookup _ _ R _ last_in).
  erewrite bind_Ret by reflexivity. change (fMaxNumBlocks (announced k c)) with (fMaxNumBlocks c).
  rewrite bool_decide_eq_true_2 by lia. erewrite bind_Ret by reflexivity.
  erewrite bind_Ret by reflexivity. change (fFBPool (announced k c)) with (fFBPool c).
  rewrite bool_decide_eq_true_2 by lia. do 2 erewrite bind_Ret by reflexivity.
  unfold pool_at. rewrite (bind_reading _ _ _ (e_fb e)) by done.
  erewrite bind_Ret by (apply (pool_set_run _ _ _ (e_fb e)); exact Hr).
  erewrite bind_Ret by (apply (pool_setData_run _ _ _ (FileBuffer_assign (e_fb e) (FileBuffer_new k.1 k.2)));
    [by eapply rd_wr_eq|done]).
  do 2 erewrite bind_Ret by reflexivity.
  match goal with |- context [count_unused _ ?st] => destruct (count_unused_fields (e_data e) st) as [n ->] end.
  exists n. do 2 erewrite bind_Ret by reflexivity.
  unfold replaced. rewrite <- Hp, <- delete_insert_ne by apply not_eq_sym, last_key.
  rewrite <- (insert_insert_eq (fbSet c) k (e_idx e) 0).
  rewrite <- (wr_wr (fFBPool c) (e_idx e) fb (FileBuffer_assign (e_fb e) (FileBuffer_new k.1 k.2))).
  rewrite <- full_size. reflexivity.
Qed.

Lemma replaced_repr n : repr0 (replaced n) (mkEnt (nextNode c) d (e_idx e) fb :: es).
Proof.
  set (c0 := with_slots (fEmptyPoolSlots c ++ [e_idx e]) (with_set (delete (ekey e))
    (with_list (enode <$> es) (with_size (fun n => n - 1) c)))).
  assert (R0 : repr0 c0 es).
  { rewrite <- (app_nil_r es). eapply (repr0_drop c _ es e []); try done. cbn. by rewrite app_nil_r. }
  assert (Hsub : forall {B} (f : entry -> B) x, x ∈ f <$> es -> x ∈ f <$> (es ++ [e])).
  { intros B f x H. rewrite fmap_app. apply elem_of_app. by left. }
  eapply (repr_place c0 _ es k data _ _ (fEmptyPoolSlots c)); try done.
  - intros H. by apply Hk, Hsub.
  - cbn. rewrite length_app in Hfull. cbn in Hfull. lia.
  - eapply took_slot; [done|exact (r_rd _ _ R _ last_in)|reflexivity|done|]. apply Permutation_app_comm.
  - intros H. apply (next_fresh _ _ R), Hsub, H.
  - cbn. lia.
  - cbn. lia.
  - cbn. rewrite (r_size _ _ R), length_app. cbn. lia.
Qed.

Lemma insert_full_run : exists c', insert_full k data (announced k c) = (Ret (e_idx e), c') /\
    repr0 c' (take (S (length es) - Z.to_nat (fDeleteBlocks c)) (mkEnt (nextNode c) d (e_idx e) fb :: es)) /\
    rd (fFBPool c') (e_idx e) = Ret fb /\
    fMaxNumBlocks c' = fMaxNumBlocks c /\ fDeleteBlocks c' = fDeleteBlocks c.
Proof.
  destruct insert_full_replaces as [n ->]. pose proof (replaced_repr n) as R1.
  unfold depleteCache. rewrite prog_bind_assoc. erewrite bind_Ret by reflexivity.
  destruct (deplete_run (Z.to_nat (fDeleteBlocks c)) _ _ R1) as (c2 & E2 & R2 & (K1 & K2 & K3 & K4)).
  change (fDeleteBlocks (replaced n)) with (fDeleteBlocks c). rewrite (bind_Ret _ _ _ _ _ E2).
  exists c2. split; [done|]. split; [exact R2|]. rewrite K3, K1, K2. split; [|done].
  cbn. eapply rd_wr_eq, (r_rd _ _ R _ last_in).
Qed.
End full.

Lemma link_any c m e es fb : repr0 c (take m (e :: es)) -> Forall linked es ->
  rd (fFBPool c) (e_idx e) = Ret fb ->
  exists c', pool_link (e_idx e) c = (Ret tt, c') /\ repr c' (take m (elink e :: es)) /\
    c' = with_pool (fFBPool c') c.
Proof.
  intros R HL Hr. destruct m as [|m].
  - rewrite (pool_link_run _ _ _ Hr). eexists. split; [done|]. split; [|done]. split; [|constructor].
    destruct R. split; cbn in *; rewrite ?length_wr; done.
  - apply link_front; [done|]. by apply Forall_take.
Qed.

(** ** The contract *)

(** What a client sees of the cache: its blocks, most recently used first. *)
Definition block (e : entry) : bkey * list Z := (ekey e, fByteData (e_fb e)).

Definition spec_insert (max del : Z) (k : bkey) (data : list Z) (b : list (bkey * list Z)) : list (bkey * list Z) :=
  if decide (k ∈ b.*1) then b
  else if decide (Z.of_nat (length b) < max) then (k, take (Z.to_nat BLOCK_SIZE) data) :: b
  else take (length b - Z.to_nat del) ((k, take (Z.to_nat BLOCK_SIZE) data) :: b).

Lemma block_keys es : (block <$> es).*1 = ekey <$> es.
Proof. by rewrite <- list_fmap_compose. Qed.

Lemma insert_present c es k data : repr c es -> k ∈ ekey <$> es -> cache_insert k data c = (Ret 0, c).
Proof.
  intros [R _] (e & -> & He)%list_elem_of_fmap. unfold cache_insert. erewrite bind_Ret by reflexivity.
  by rewrite (r_lookup _ _ R _ He).
Qed.

(** The end of an insertion: the block has a slot. *)
Lemma insert_finish c c1 k data pi m e es es1 fb : repr c es -> k ∉ ekey <$> es -> Forall linked es1 ->
  (if decide (fCacheSize (announced k c) > fMaxNumBlocks c) then insert_full k data else insert_room k data)
    (announced k c) = (Ret pi, c1) ->
  repr0 c1 (take m (e :: es1)) -> e_idx e = pi -> rd (fFBPool c1) pi = Ret fb ->
  fMaxNumBlocks c1 = fMaxNumBlocks c ->
  exists c', cache_insert k data c = (Ret 1, c') /\ repr c' (take m (elink e :: es1)) /\
    fMaxNumBlocks c' = fMaxNumBlocks c1 /\ fDeleteBlocks c' = fDeleteBlocks c1.
Proof.
  intros [R _] Hk HL E R1 Hpi Hr Hm. unfold cache_insert. erewrite bind_Ret by reflexivity.
  rewrite (proj2 (r_lookup_None _ _ R k) Hk). do 6 erewrite bind_Ret by reflexivity.
  change (count_loaded _) with (announced k c).
  change (fMaxNumBlocks (announced k c)) with (fMaxNumBlocks c).
  destruct (decide _); erewrite bind_Ret by exact E; erewrite bind_Ret by reflexivity;
    pose proof Hr as [H0 Hlt%lookup_lt_Some]%rd_Ret; rewrite bool_decide_eq_true_2 by lia;
    erewrite bind_Ret by reflexivity; rewrite <- Hpi in Hr |- *;
    destruct (link_any _ _ _ _ _ R1 HL Hr) as (c2 & E2 & R2 & E3); rewrite (bind_Ret _ _ _ _ _ E2);
    erewrite bind_Ret by reflexivity; rewrite E3 in *; cbn [fCacheSize with_pool];
    rewrite (r_size _ _ R1), bool_decide_eq_true_2 by (rewrite <- Hm; apply (r_room _ _ R1));
    eexists; (split; [reflexivity|]); done.
Qed.

(** The size of the cache and how many blocks it drops at once stay. *)
Definition same_config (c c' : FileBufferMgr) : Prop :=
  fMaxNumBlocks c' = fMaxNumBlocks c /\ fDeleteBlocks c' = fDeleteBlocks c.

Lemma announced_size c es k : repr0 c es ->
  fCacheSize (announced k c) = Z.of_nat (S (length es)).
Proof.
  intros R. change (fCacheSize (announced k c)) with (u32 (fCacheSize c + 1)).
  pose proof (r_room _ _ R). pose proof (r_max _ _ R). rewrite (r_size _ _ R), u32_id; lia.
Qed.

Lemma insert_absent_room c es k data : repr c es -> k ∉ ekey <$> es ->
  Z.of_nat (length es) < fMaxNumBlocks c -> BLOCK_SIZE <= Z.of_nat (length data) ->
  exists c' e, cache_insert k data c = (Ret 1, c') /\ repr c' (e :: es) /\
    block e = (k, take (Z.to_nat BLOCK_SIZE) data) /\ same_config c c'.
Proof.
  intros R Hk Hr Hd. pose proof (r_cap _ _ (proj1 R)). pose proof (r_max _ _ (proj1 R)).
  destruct (insert_room_run c k data es (proj1 R) ltac:(lia) Hd (announced k c) eq_refl eq_refl)
    as (pi & pool' & slots' & fb & T & E).
  pose proof (announced_size c es k (proj1 R)) as Hs.
  match type of E with _ = (_, ?st) => set (c1 := st) in E end.
  assert (R1 : repr0 c1 (mkEnt (nextNode c) (mkFBD k.1 k.2 0) pi fb :: es)).
  { eapply (repr_place c c1 es k data); try done; [apply R|apply next_fresh, R|..]; try (cbn; lia).
    cbn. by rewrite insert_insert_eq. }
  destruct (insert_finish c c1 k data pi (S (length es)) (mkEnt (nextNode c) (mkFBD k.1 k.2 0) pi fb) es es fb)
    as (c' & E' & R' & Hm & Hdl); try done.
  - apply R.
  - rewrite decide_False by (rewrite Hs; lia). done.
  - by rewrite take_ge by (cbn; lia).
  - apply T.
  - exists c', (elink (mkEnt (nextNode c) (mkFBD k.1 k.2 0) pi fb)). split; [done|].
    rewrite take_ge in R' by (cbn; lia). split; [done|]. split; [|split; [by rewrite Hm|by rewrite Hdl]].
    unfold block, ekey, key_of. cbn. rewrite (t_data _ _ _ _ _ _ T). by destruct k.
Qed.

Lemma insert_absent_full c es k data : repr c es -> k ∉ ekey <$> es ->
  fMaxNumBlocks c <= Z.of_nat (length es) -> BLOCK_SIZE <= Z.of_nat (length data) ->
  exists c' e, cache_insert k data c = (Ret 1, c') /\
    repr c' (take (length es - Z.to_nat (fDeleteBlocks c)) (e :: es)) /\
    block e = (k, take (Z.to_nat BLOCK_SIZE) data) /\ same_config c c'.
Proof.
  intros R Hk Hr Hd. pose proof (r_room _ _ (proj1 R)). pose proof (r_max _ _ (proj1 R)).
  pose proof (announced_size c es k (proj1 R)) as Hs.
  destruct es as [|e0 es _] using rev_ind; [cbn in *; lia|].
  destruct (insert_full_run c k data es e0 (proj1 R) Hk ltac:(lia) Hd) as (c1 & E & R1 & Hrd & Hm1 & Hd1).
  eapply insert_finish in R1 as (c' & E' & R' & Hm & Hdl); [|exact R|exact Hk|..|exact Hrd|done].
  - eexists c', _. split; [done|]. split.
    + rewrite app_comm_cons, take_app_le by (rewrite length_app; cbn; lia).
      rewrite length_app, Nat.add_1_r. exact R'.
    + split; [|split; congruence]. unfold block, ekey, key_of. cbn. by destruct k.
  - pose proof (proj2 R) as HL. by apply Forall_app in HL as [HL _].
  - rewrite decide_True by (rewrite Hs; lia). exact E.
  - done.
Qed.

Lemma cache_insert_spec c es k data : repr c es -> BLOCK_SIZE <= Z.of_nat (length data) ->
  exists c' es' r, cache_insert k data c = (Ret r, c') /\ repr c' es' /\ same_config c c' /\
    block <$> es' = spec_insert (fMaxNumBlocks c) (fDeleteBlocks c) k data (block <$> es) /\
    r = (if decide (k ∈ ekey <$> es) then 0 else 1).
Proof.
  intros R Hd. unfold spec_insert. rewrite block_keys, length_fmap.
  destruct (decide (k ∈ ekey <$> es)) as [Hk|Hk].
  { exists c, es, 0. split; [by eapply insert_present|]. done. }
  destruct (decide (Z.of_nat (length es) < fMaxNumBlocks c)) as [Hr|Hr].
  - destruct (insert_absent_room c es k data R Hk Hr Hd) as (c' & e & E & R' & Hb & Hc).
    exists c', (e :: es), 1. rewrite fmap_cons, Hb. done.
  - destruct (insert_absent_full c es k data R Hk ltac:(lia) Hd) as (c' & e & E & R' & Hb & Hc).
    eexists c', _, 1. split; [done|]. split; [exact R'|].
    rewrite fmap_take, fmap_cons, Hb. done.
Qed.

(** ** Insertion in bulk *)

Lemma doBlockCopy_run c k data es : repr0 c es -> BLOCK_SIZE <= Z.of_nat (length data) ->
  forall c1, fFBPool c1 = fFBPool c -> fEmptyPoolSlots c1 = fEmptyPoolSlots c ->
  exists pi pool' slots' fb, took c data pi pool' slots' fb /\
    doBlockCopy k data c1 = (Ret pi, with_pool pool' (with_slots slots' c1)).
Proof.
  intros R Hd c1 Ep Es. pose proof (r_cap _ _ R). pose proof (r_max _ _ R).
  unfold doBlockCopy. erewrite bind_Ret by reflexivity. rewrite Es.
  destruct (fEmptyPoolSlots c) as [|pi slots'] eqn:Hs.
  - set (fb1 := set_id k.1 k.2 FileBuffer_default).
    exists (Z.of_nat (length (fFBPool c))), (fFBPool c ++ [filled data fb1]), [], (filled data fb1).
    split; [by apply took_new|]. rewrite prog_bind_assoc. erewrite bind_Ret by reflexivity.
    rewrite prog_bind_assoc. erewrite bind_Ret by reflexivity. rewrite Ep, u32_id by lia.
    assert (Hr : forall fb, rd (fFBPool c ++ [fb]) (Z.of_nat (length (fFBPool c))) = Ret fb).
    { intros fb. apply rd_nat. by rewrite lookup_app_r, Nat.sub_diag by lia. }
    assert (Hw : forall fb fb', wr (fFBPool c ++ [fb]) (Z.of_nat (length (fFBPool c))) fb' = fFBPool c ++ [fb']).
    { intros fb fb'. rewrite wr_nat, insert_app_r_alt, Nat.sub_diag by lia. done. }
    erewrite bind_Ret by reflexivity. unfold pool_at. rewrite (bind_reading _ _ _ FileBuffer_default) by apply Hr.
    erewrite bind_Ret by (apply (pool_set_run _ _ _ FileBuffer_default); apply Hr).
    erewrite bind_Ret by (apply (pool_setData_run _ _ _ fb1); [cbn; rewrite Hw; apply Hr|done]).
    cbn [fFBPool with_pool]. rewrite !Hw. destruct c1; cbn in *. by rewrite Es.
  - pose proof (slots_range _ _ _ _ R Hs) as Hpi.
    destruct (in_range_rd (fFBPool c) pi) as [fb0 Hr]; [by apply in_range_true|].
    set (fb1 := set_id k.1 k.2 fb0).
    exists pi, (wr (fFBPool c) pi (filled data fb1)), slots', (filled data fb1).
    split; [by eapply took_slot|]. rewrite prog_bind_assoc. erewrite bind_Ret by reflexivity.
    erewrite bind_Ret by reflexivity. unfold pool_at.
    rewrite (bind_reading _ _ _ fb0) by (cbn; by rewrite Ep).
    erewrite bind_Ret by (apply (pool_set_run _ _ _ fb0); cbn; by rewrite Ep).
    erewrite bind_Ret.
    2:{ apply (pool_setData_run _ _ _ fb1); [|done]. cbn. rewrite ?Ep. by eapply rd_wr_eq. }
    cbn [fFBPool with_pool]. rewrite wr_wr, <- Ep. reflexivity.
Qed.

Definition announced_bulk (k : bkey) (c : FileBufferMgr) : FileBufferMgr :=
  count_loaded (with_size (fun n => n + 1) (with_set (fun s => <[k := 0]> s) c)).

(** After [updateLRU] the new node [n] is at the front of a cache [c0] with room
    for the block. *)
Record made_room (c c0 c2 : FileBufferMgr) (k : bkey) (es0 : list entry) (n : Z) : Prop := {
  m_repr : repr c0 es0;
  m_room : Z.of_nat (length es0) < fMaxNumBlocks c;
  m_node : n ∉ e_node <$> es0;
  m_next : n < nextNode c2 /\ nextNode c0 <= nextNode c2;
  m_set : fbSet c2 = <[k := 0]> (fbSet c0);
  m_list : fbList c2 = (n, mkFBD k.1 k.2 0) :: fbList c0;
  m_size : fCacheSize c2 = Z.of_nat (S (length es0));
  m_pool : fFBPool c2 = fFBPool c0;
  m_slots : fEmptyPoolSlots c2 = fEmptyPoolSlots c0;
  m_max : fMaxNumBlocks c2 = fMaxNumBlocks c /\ fMaxNumBlocks c0 = fMaxNumBlocks c;
  m_del : fDeleteBlocks c2 = fDeleteBlocks c;
}.

Lemma updateLRU_room c es k : repr c es -> Z.of_nat (length es) < fMaxNumBlocks c ->
  exists c2, updateLRU (mkFBD k.1 k.2 0) (announced_bulk k c) = (Ret tt, c2) /\
    made_room c c c2 k es (nextNode c).
Proof.
  intros R Hr. pose proof (r_max _ _ (proj1 R)). unfold updateLRU. do 2 erewrite bind_Ret by reflexivity.
  assert (Hs : fCacheSize (announced_bulk k c) = Z.of_nat (S (length es))) by exact (announced_size _ _ k (proj1 R)).
  rewrite decide_False by (rewrite Hs; cbn; lia).
  eexists. split; [reflexivity|]. split; try done; [apply next_fresh, R|cbn; lia].
Qed.

Lemma updateLRU_full c es e k : repr c (es ++ [e]) -> k ∉ ekey <$> (es ++ [e]) ->
  Z.of_nat (length (es ++ [e])) = fMaxNumBlocks c ->
  exists c0 c2, updateLRU (mkFBD k.1 k.2 0) (announced_bulk k c) = (Ret tt, c2) /\
    made_room c c0 c2 k es (e_node e).
Proof.
  intros [R HL] Hk Hfull. pose proof (r_max _ _ R) as HM. pose proof (r_size _ _ R) as HS.
  assert (He : e ∈ es ++ [e]) by (apply elem_of_app; right; apply list_elem_of_here).
  assert (Hne : k <> ekey e) by (intros ->; by apply Hk, list_elem_of_fmap_2).
  assert (Hs : fCacheSize (announced_bulk k c) = Z.of_nat (S (length (es ++ [e]))))
    by exact (announced_size _ _ k R).
  unfold updateLRU. do 2 erewrite bind_Ret by reflexivity. rewrite decide_True by (rewrite Hs; cbn; lia).
  rewrite (bind_reading _ _ _ (enode e)) by (cbn; rewrite (r_list _ _ R); apply list_back_snoc).
  erewrite bind_Ret by reflexivity. cbn [enode fst snd]. change (key_of (e_data e)) with (ekey e).
  change (fbSet (announced_bulk k c)) with (<[k := 0]> (fbSet c)).
  rewrite lookup_insert_ne by done. rewrite (r_lookup _ _ R _ He). do 2 erewrite bind_Ret by reflexivity.
  match goal with |- context [count_unused _ ?st] => destruct (count_unused_fields (e_data e) st) as [n ->] end.
  set (c0 := with_slots (fEmptyPoolSlots c ++ [e_idx e]) (with_set (delete (ekey e))
    (with_list (enode <$> es) (with_size (fun n => n - 1) c)))).
  exists c0. eexists. split; [reflexivity|]. split; try done; cbn -[pop_back].
  - split; [|by apply Forall_app in HL as [HL _]].
    rewrite <- (app_nil_r es). eapply (repr0_drop c _ es e []); try done. cbn. by rewrite app_nil_r.
  - rewrite length_app in Hfull. cbn in Hfull. lia.
  - pose proof (r_nodes _ _ R) as HN. rewrite fmap_app in HN. apply NoDup_app in HN as (_ & HN & _).
    intros H. apply (HN _ H), list_elem_of_here.
  - pose proof (r_next _ _ R) as HN. rewrite Forall_forall in HN. specialize (HN _ He). cbn in HN. lia.
  - by rewrite delete_insert_ne.
  - by rewrite (r_list _ _ R), pop_back_snoc.
  - rewrite HS, (u32_id (_ + 1)), u32_id, length_app by lia. cbn. lia.
Qed.

Lemma bulk_finish c c0 c2 k data es0 n : made_room c c0 c2 k es0 n -> k ∉ ekey <$> es0 ->
  updateLRU (mkFBD k.1 k.2 0) (announced_bulk k c) = (Ret tt, c2) -> fbSet c !! k = None ->
  BLOCK_SIZE <= Z.of_nat (length data) ->
  exists c' e, bulk_one k data c = (Ret true, c') /\ repr c' (e :: es0) /\
    block e = (k, take (Z.to_nat BLOCK_SIZE) data) /\ same_config c c'.
Proof.
  intros M Hk E Hn Hd. destruct M as [R Hroom Hnode [Hnx1 Hnx2] Hset Hlist Hsize Hpool Hslots [Hm1 Hm2] Hdel].
  unfold bulk_one. erewrite bind_Ret by reflexivity. rewrite Hn. do 3 erewrite bind_Ret by reflexivity.
  rewrite (bind_Ret _ _ _ _ _ E).
  destruct (doBlockCopy_run c0 k data es0 (proj1 R) Hd c2 Hpool Hslots) as (pi & pool' & slots' & fb & T & E3).
  rewrite (bind_Ret _ _ _ _ _ E3). erewrite bind_Ret by reflexivity.
  pose proof (t_fb _ _ _ _ _ _ T) as [Hpi Hlt%lookup_lt_Some]%rd_Ret.
  pose proof (r_max _ _ (proj1 R)) as HM. pose proof (r_cap _ _ (proj1 R)) as HC.
  set (e := mkEnt n (mkFBD k.1 k.2 0) pi fb).
  match goal with |- context [(pool_link _ ≫= _) ?st] => set (c3 := st) end.
  assert (R3 : repr0 c3 (e :: es0)).
  { assert (Hub : pi < 2 ^ 31).
    { destruct (t_cap _ _ _ _ _ _ T) as [HL|[He HL]]; [lia|].
      pose proof (r_slots _ _ (proj1 R)) as HP. rewrite He in HP. apply Permutation_length in HP.
      cbn in HP. rewrite length_fmap, length_seqZ in HP. lia. }
    eapply (repr_place c0 c3 es0 k data); try done; [apply R|lia|..].
    - cbn. rewrite Hset, insert_insert_eq, s32_id, u32_id by lia. done.
    - cbn. congruence. }
  assert (Hs32 : s32 pi = pi).
  { pose proof (r_idx _ _ R3 e (list_elem_of_here _ _)) as HI. pose proof (r_cap _ _ R3) as HC3.
    pose proof (r_max _ _ R3). apply s32_id. cbn [e_idx e] in HI. lia. }
  rewrite Hs32. destruct (link_front c3 e es0 R3 (proj2 R)) as (c4 & E4 & R4 & E5).
  rewrite (bind_Ret _ _ _ _ _ E4). exists c4, (elink e). split; [done|]. split; [done|].
  split; [|split; rewrite E5; cbn; done].
  unfold block, ekey, key_of. cbn. rewrite (t_data _ _ _ _ _ _ T). by destruct k.
Qed.

Lemma bulk_one_spec c es k data : repr c es -> BLOCK_SIZE <= Z.of_nat (length data) ->
  exists c' es', bulk_one k data c = (Ret (negb (bool_decide (k ∈ ekey <$> es))), c') /\ repr c' es' /\
    same_config c c' /\ block <$> es' = spec_insert (fMaxNumBlocks c) 0 k data (block <$> es).
Proof.
  intros R Hd. unfold spec_insert. rewrite block_keys, length_fmap.
  destruct (decide (k ∈ ekey <$> es)) as [Hk|Hk].
  { exists c, es. rewrite bool_decide_eq_true_2 by done. split; [|done].
    apply list_elem_of_fmap in Hk as (e & -> & He). unfold bulk_one. erewrite bind_Ret by reflexivity.
    by rewrite (r_lookup _ _ (proj1 R) _ He). }
  rewrite bool_decide_eq_false_2 by done. pose proof (proj2 (r_lookup_None _ _ (proj1 R) k) Hk) as Hn.
  destruct (decide (Z.of_nat (length es) < fMaxNumBlocks c)) as [Hr|Hr].
  - destruct (updateLRU_room c es k R Hr) as (c2 & E & M).
    destruct (bulk_finish _ _ _ _ _ _ _ M Hk E Hn Hd) as (c' & e & E' & R' & Hb & Hc).
    exists c', (e :: es). rewrite fmap_cons, Hb. done.
  - pose proof (r_room _ _ (proj1 R)). pose proof (r_max _ _ (proj1 R)).
    destruct es as [|e0 es _] using rev_ind; [cbn in *; lia|].
    destruct (updateLRU_full c es e0 k R Hk ltac:(lia)) as (c0 & c2 & E & M).
    destruct (bulk_finish _ _ _ _ data _ _ M) as (c' & e & E' & R' & Hb & Hc); try done.
    { intros H1. apply Hk. rewrite fmap_app. apply elem_of_app. by left. }
    exists c', (e :: es). split; [done|]. split; [done|]. split; [done|].
    rewrite fmap_cons, Hb, length_app, fmap_app, app_comm_cons, take_app_length'; [done|].
    cbn. rewrite length_fmap. lia.
Qed.

(** Inserting a list of blocks. *)
Definition spec_bulk (max : Z) (ops : list (bkey * list Z)) (b : list (bkey * list Z)) : list (bkey * list Z) :=
  foldl (fun b op => spec_insert max 0 op.1 op.2 b) b ops.

(** How many of them are new. *)
Fixpoint spec_count (max : Z) (ops : list (bkey * list Z)) (b : list (bkey * list Z)) : Z :=
  match ops with
  | [] => 0
  | op :: ops' =>
      let n := spec_count max ops' (spec_insert max 0 op.1 op.2 b) in
      if decide (op.1 ∈ b.*1) then n else n + 1
  end.

Lemma bulk_ops_spec ops : forall c es, repr c es ->
  Forall (fun op => BLOCK_SIZE <= Z.of_nat (length op.2)) ops ->
  exists c' es', bulk_ops ops c = (Ret (spec_count (fMaxNumBlocks c) ops (block <$> es)), c') /\ repr c' es' /\ same_config c c' /\
    block <$> es' = spec_bulk (fMaxNumBlocks c) ops (block <$> es).
Proof.
  induction ops as [|[k data] ops IH]; intros c es R Hops.
  { exists c, es. done. }
  apply Forall_cons in Hops as [Hd Hops]. cbn [bulk_ops].
  destruct (bulk_one_spec c es k data R Hd) as (c1 & es1 & E1 & R1 & [Hm1 Hd1] & Hb1).
  destruct (IH c1 es1 R1 Hops) as (c2 & es2 & E2 & R2 & [Hm2 Hd2] & Hb2).
  rewrite (bind_Ret _ _ _ _ _ E1), (bind_Ret _ _ _ _ _ E2). exists c2, es2. split.
  { cbn [spec_count fst snd]. rewrite block_keys, Hm1, Hb1. by destruct (decide _), (bool_decide_reflect (k ∈ ekey <$> es)). }
  split; [done|]. split; [split; congruence|]. cbn. by rewrite Hb2, Hm1, Hb1.
Qed.

Lemma bulkInsert_spec c es ops : repr c es ->
  Forall (fun op => BLOCK_SIZE <= Z.of_nat (length op.2)) ops ->
  exists c' es', bulkInsert ops c = (Ret (spec_count (fMaxNumBlocks c) ops (block <$> es)), c') /\ repr c' es' /\ same_config c c' /\
    block <$> es' = spec_bulk (fMaxNumBlocks c) ops (block <$> es).
Proof.
  intros R Hops. destruct (bulk_ops_spec ops c es R Hops) as (c' & es' & E & R' & H).
  exists c', es'. split; [|done]. unfold bulkInsert. rewrite (bind_Ret _ _ _ _ _ E).
  do 2 erewrite bind_Ret by reflexivity. rewrite (r_size _ _ (proj1 R')).
  rewrite bool_decide_eq_true_2 by apply (r_room _ _ (proj1 R')). done.
Qed.

(** ** Lookups *)

Definition spec_find (k : bkey) (b : list (bkey * list Z)) : option (list Z) := (list_to_map b : gmap bkey (list Z)) !! k.
Definition spec_touch (k : bkey) (b : list (bkey * list Z)) : list (bkey * list Z) :=
  match spec_find k b with
  | Some d => (k, d) :: filter (fun x => x.1 <> k) b
  | None => b
  end.

Lemma spec_find_at l1 e l2 : NoDup (ekey <$> (l1 ++ e :: l2)) ->
  spec_find (ekey e) (block <$> (l1 ++ e :: l2)) = Some (fByteData (e_fb e)).
Proof.
  intros H. apply elem_of_list_to_map_1; [by rewrite block_keys|].
  apply (list_elem_of_fmap_2 block). apply elem_of_app. right. apply list_elem_of_here.
Qed.
Lemma spec_find_None k es : k ∉ ekey <$> es -> spec_find k (block <$> es) = None.
Proof. intros H. apply not_elem_of_list_to_map_1. by rewrite block_keys. Qed.

Lemma filter_at (l1 : list (bkey * list Z)) x l2 : NoDup (l1 ++ x :: l2).*1 ->
  filter (fun y => y.1 <> x.1) (l1 ++ x :: l2) = l1 ++ l2.
Proof.
  intros H. rewrite fmap_app, fmap_cons in H. apply NoDup_app in H as (_ & H1 & H2).
  apply NoDup_cons in H2 as [H2 _]. rewrite filter_app, filter_cons_False by (cbn; tauto).
  rewrite !filter_all; [done|..]; apply Forall_forall; intros y Hy E.
  - apply H2. rewrite <- E. by apply list_elem_of_fmap_2.
  - apply (H1 y.1); [by apply list_elem_of_fmap_2|]. rewrite E. apply list_elem_of_here.
Qed.

Lemma filter_keys l1 e l2 : NoDup (ekey <$> (l1 ++ e :: l2)) ->
  filter (fun x => x.1 <> ekey e) (block <$> (l1 ++ e :: l2)) = block <$> (l1 ++ l2).
Proof.
  intros H. rewrite !fmap_app, fmap_cons. apply (filter_at _ (block e)).
  by rewrite <- fmap_cons, <- fmap_app, block_keys.
Qed.

Lemma spec_find_in k b d : spec_find k b = Some d -> (k, d) ∈ b.
Proof. intros H. by apply elem_of_list_to_map_2. Qed.

(** Moving to the front does not change what is found. *)
Lemma spec_touch_perm k b : NoDup b.*1 -> spec_touch k b ≡ₚ b.
Proof.
  intros H. unfold spec_touch. destruct (spec_find k b) as [d|] eqn:E; [|done].
  apply spec_find_in in E. destruct (list_elem_of_split _ _ E) as (l1 & l2 & ->).
  pose proof (filter_at l1 (k, d) l2 H) as HF. cbn [fst] in HF. rewrite HF. apply Permutation_middle.
Qed.
Lemma spec_find_perm k b b' : NoDup b.*1 -> b ≡ₚ b' -> spec_find k b = spec_find k b'.
Proof. intros H Hp. unfold spec_find. by rewrite (list_to_map_proper b b' H Hp). Qed.
Lemma spec_find_is_Some k b : is_Some (spec_find k b) <-> k ∈ b.*1.
Proof.
  destruct (spec_find k b) as [d|] eqn:E.
  - apply spec_find_in in E. split; [|done]. intros _. by apply (list_elem_of_fmap_2 fst b (k, d)).
  - apply (proj2 (not_elem_of_list_to_map b k)) in E. split; [by intros [? ?]|done].
Qed.

Lemma touch_spec c es k : repr c es ->
  exists r es', touch k c = (Ret r, with_list (enode <$> es') c) /\ repr (with_list (enode <$> es') c) es' /\
    block <$> es' = spec_touch k (block <$> es) /\
    match r with
    | Some idx => exists fb, rd (fFBPool c) idx = Ret fb /\ spec_find k (block <$> es) = Some (fByteData fb)
    | None => spec_find k (block <$> es) = None
    end.
Proof.
  intros R. unfold spec_touch.
  destruct (r_lookup_cases _ _ (proj1 R) k) as [(l1 & e & l2 & -> & <- & _)|[Hk _]].
  - pose proof (r_keys _ _ (proj1 R)) as HK. rewrite spec_find_at, filter_keys by done.
    exists (Some (e_idx e)), (ehit e :: l1 ++ l2). split; [by apply touch_found|].
    split; [by apply repr_touch|]. split; [done|]. exists (e_fb e). split; [|done].
    apply (r_rd _ _ (proj1 R)). apply elem_of_app. right. apply list_elem_of_here.
  - rewrite spec_find_None by done. exists None, es. split.
    + rewrite (touch_missing _ _ _ R Hk), <- (r_list _ _ (proj1 R)). by destruct c.
    + split; [|done]. rewrite <- (r_list _ _ (proj1 R)). by destruct c.
Qed.

(** ** Flushes *)

Definition spec_drop (P : bkey -> Prop) `{!forall k, Decision (P k)} (b : list (bkey * list Z)) : list (bkey * list Z) :=
  filter (fun x => ~ P x.1) b.

Lemma spec_drop_none (P : bkey -> Prop) `{!forall k, Decision (P k)} b :
  (forall x, x ∈ b -> ~ P x.1) -> spec_drop P b = b.
Proof. intros Hb. apply filter_all, Forall_forall. auto. Qed.
Lemma spec_drop_nil {B} (f : bkey -> B) `{!EqDecision B} b : spec_drop (fun k => f k ∈ []) b = b.
Proof. apply spec_drop_none. intros x _ H%elem_of_nil. done. Qed.

Lemma drop_spec c es k idx : repr c es -> fbSet c !! k = Some idx ->
  exists c' es', drop_entry k idx c = (Ret tt, c') /\ repr c' es' /\ same_config c c' /\
    block <$> es' = filter (fun x => x.1 <> k) (block <$> es) /\ fbSet c' = delete k (fbSet c).
Proof.
  intros R Hi. destruct (r_lookup_cases _ _ (proj1 R) k) as [(l1 & e & l2 & -> & <- & He)|[_ He]].
  - rewrite He in Hi. injection Hi as <-. destruct (drop_found _ _ _ _ R) as (c' & E & R' & Hc & Hs).
    exists c', (l1 ++ l2). rewrite filter_keys by apply (r_keys _ _ (proj1 R)). done.
  - by rewrite He in Hi.
Qed.

Lemma drop_all_spec ps : forall c es, repr c es -> NoDup ps.*1 ->
  (forall k idx, (k, idx) ∈ ps -> fbSet c !! k = Some idx) ->
  exists c' es', for_each ps (fun '(k, idx) => drop_entry k idx) c = (Ret tt, c') /\ repr c' es' /\
    same_config c c' /\ block <$> es' = spec_drop (fun k => k ∈ ps.*1) (block <$> es).
Proof.
  induction ps as [|[k idx] ps IH]; intros c es R HN HL.
  { exists c, es. by rewrite (spec_drop_nil id). }
  apply NoDup_cons in HN as [Hk HN].
  destruct (drop_spec c es k idx R (HL k idx (list_elem_of_here _ _))) as (c1 & es1 & E1 & R1 & [Hm1 Hd1] & Hb1 & Hs1).
  destruct (IH c1 es1 R1 HN) as (c2 & es2 & E2 & R2 & [Hm2 Hd2] & Hb2).
  { intros k' idx' H. rewrite Hs1, lookup_delete_ne; [by apply HL, list_elem_of_further|].
    intros <-. apply Hk. by apply (list_elem_of_fmap_2 fst ps (k, idx')). }
  exists c2, es2. cbn [for_each]. rewrite (bind_Ret _ _ _ _ _ E1). split; [done|]. split; [done|].
  split; [split; congruence|]. rewrite Hb2, Hb1. unfold spec_drop. rewrite list_filter_filter.
  apply list_filter_iff. intros x. cbn. rewrite elem_of_cons. tauto.
Qed.

Lemma for_each_if {A} (P : A -> Prop) `{!forall a, Decision (P a)} (f : A -> prog FileBufferMgr unit) l c :
  for_each l (fun a => if decide (P a) then f a else mret tt) c = for_each (filter P l) f c.
Proof.
  revert c. induction l as [|a l IH]; intros c; [done|]. cbn [for_each].
  destruct (decide (P a)) as [Ha|Ha].
  - rewrite filter_cons_True by done. cbn [for_each]. unfold mbind, prog_bind.
    destruct (f a c) as [[]?]; auto.
  - rewrite filter_cons_False by done. by erewrite bind_Ret by reflexivity.
Qed.

Lemma flushOne_spec c es k : repr c es ->
  exists c' es', flushOne k.1 k.2 c = (Ret tt, c') /\ repr c' es' /\ same_config c c' /\
    block <$> es' = spec_drop (fun x => x = k) (block <$> es).
Proof.
  intros R. unfold flushOne. erewrite bind_Ret by reflexivity. rewrite <- surjective_pairing.
  destruct (fbSet c !! k) as [idx|] eqn:E.
  - destruct (drop_spec c es k idx R E) as (c' & es' & E' & R' & Hc & Hb & _). by exists c', es'.
  - exists c, es. split; [done|]. split; [done|]. split; [done|]. symmetry. apply spec_drop_none.
    intros x (e & -> & He)%list_elem_of_fmap Hk. apply (r_lookup_None _ _ (proj1 R)) in E. apply E.
    rewrite <- Hk. by apply (list_elem_of_fmap_2 ekey).
Qed.

Lemma flushMany_spec l : forall c es, repr c es ->
  exists c' es', flushMany l c = (Ret tt, c') /\ repr c' es' /\ same_config c c' /\
    block <$> es' = spec_drop (fun k => k ∈ l) (block <$> es).
Proof.
  induction l as [|k l IH]; intros c es R.
  { exists c, es. by rewrite (spec_drop_nil id). }
  destruct (flushOne_spec c es k R) as (c1 & es1 & E1 & R1 & [Hm1 Hd1] & Hb1).
  destruct (IH c1 es1 R1) as (c2 & es2 & E2 & R2 & [Hm2 Hd2] & Hb2).
  exists c2, es2. split.
  { unfold flushMany. cbn [for_each]. erewrite bind_Ret; [exact E2|].
    rewrite <- E1. unfold flushOne. by rewrite <- surjective_pairing. }
  split; [done|]. split; [split; congruence|]. rewrite Hb2, Hb1. unfold spec_drop.
  rewrite list_filter_filter. apply list_filter_iff. intros x. cbn. rewrite elem_of_cons. tauto.
Qed.
