(* ===== verification/BlockCacheContract.v ===== *)
(** * What the block cache promises

    Runs of the cache as runs of a list of blocks; the blocks that flushing
    extents of the extent map removes; what is lost when the bytes are copied
    after the lock was released. *)
From Stdlib Require Import ZArith Lia.
From S2P Require Import Prelude Bytes BrmTypes ExtentMap ExtentDelete ExtentProofs BlockCache BlockCacheProofs.

Local Open Scope Z_scope.

(** ** Flushing by LBID *)

Section unordered.
Context (iteration : gmap bkey Z -> list (bkey * Z)).
Context (equal_range : list bkey -> Z -> list bkey).
(** A walk over an unordered set meets every element once; an equal range
    holds the elements with the key. *)
Hypothesis iteration_perm : forall s, iteration s ≡ₚ map_to_list s.
Hypothesis equal_range_perm : forall ks lbid, equal_range ks lbid ≡ₚ filter (fun k => k.1 = lbid) ks.

Lemma iteration_keys c es : repr c es -> (iteration (fbSet c)).*1 ≡ₚ ekey <$> es.
Proof.
  intros [R _]. rewrite iteration_perm, (r_set _ _ R), map_to_list_to_map.
  - by rewrite <- list_fmap_compose.
  - rewrite <- list_fmap_compose. apply R.
Qed.

Lemma cache_empty c es : repr c es -> fCacheSize c = 0 -> es = [].
Proof. intros [R _] H. rewrite (r_size _ _ R) in H. destruct es; [done|cbn in H; lia]. Qed.

Lemma flushManyAllversion_spec c es lbids : repr c es ->
  exists c' es', flushManyAllversion iteration lbids c = (Ret tt, c') /\ repr c' es' /\ same_config c c' /\
    block <$> es' = spec_drop (fun k => k.1 ∈ lbids) (block <$> es).
Proof.
  intros R. unfold flushManyAllversion. erewrite bind_Ret by reflexivity.
  destruct (decide (fCacheSize c = 0 \/ lbids = [])) as [Hz|Hz].
  { exists c, es. split; [done|]. split; [done|]. split; [done|]. destruct Hz as [Hz| ->].
    - by rewrite (cache_empty _ _ R Hz).
    - by rewrite (spec_drop_nil fst). }
  erewrite bind_Ret by reflexivity.
  destruct (drop_all_spec (filter (fun x => x.1.1 ∈ lbids) (iteration (fbSet c))) c es R)
    as (c' & es' & E & R' & Hc & Hb).
  - apply (sublist_NoDup _ (iteration (fbSet c)).*1); [|by apply fmap_sublist, sublist_filter].
    rewrite (iteration_keys _ _ R). apply (r_keys _ _ (proj1 R)).
  - intros k idx [_ H]%list_elem_of_filter. rewrite iteration_perm in H. by apply elem_of_map_to_list in H.
  - exists c', es'. split.
    { rewrite <- E, <- for_each_if. apply for_each_ext. by intros [k idx] ?. }
    split; [done|]. split; [done|]. rewrite Hb. apply filter_ext_in.
    intros x Hx. assert (Hk : x.1 ∈ (iteration (fbSet c)).*1).
    { rewrite (iteration_keys _ _ R), <- block_keys. by apply list_elem_of_fmap_2. }
    rewrite !list_elem_of_fmap. split; intros H1 H2; apply H1.
    + apply list_elem_of_fmap in Hk as (y & Ey & Hy). exists y. rewrite list_elem_of_filter.
      by rewrite Ey in H2.
    + destruct H2 as (y & Ey & [Hy _]%list_elem_of_filter). by rewrite Ey.
Qed.

(** *** Flushing extents *)

Section flush.
(** The blocks when the flush starts, and the index made of them. *)
Context (b0 : list (bkey * list Z)) (index : list bkey) (c0 : FileBufferMgr).
Hypothesis index_perm : index ≡ₚ b0.*1.
Hypothesis b0_NoDup : NoDup b0.*1.

(** The blocks with LBIDs in [seen] are gone. *)
Definition flushed (seen : list Z) (c : FileBufferMgr) : Prop :=
  exists es, repr c es /\ same_config c0 c /\ block <$> es = spec_drop (fun k => k.1 ∈ seen) b0.

Lemma flush_keys ks : forall c es, repr c es -> NoDup ks -> (forall k, k ∈ ks -> k ∈ ekey <$> es) ->
  exists c' es', for_each ks (fun k =>
      s ← gets fbSet;
      match s !! k with
      | Some idx => drop_entry k idx
      | None => undefined DanglingPointer
      end) c = (Ret tt, c') /\ repr c' es' /\ same_config c c' /\
    block <$> es' = spec_drop (fun k => k ∈ ks) (block <$> es).
Proof.
  induction ks as [|k ks IH]; intros c es R HN Hks.
  { exists c, es. by rewrite (spec_drop_nil id). }
  apply NoDup_cons in HN as [Hk HN].
  destruct (r_lookup_cases _ _ (proj1 R) k) as [(l1 & e & l2 & El & Ek & Hi)|[Hn _]].
  2:{ by destruct Hn; apply Hks, list_elem_of_here. }
  destruct (drop_spec c es k (e_idx e) R Hi) as (c1 & es1 & E1 & R1 & [Hm1 Hd1] & Hb1 & _).
  destruct (IH c1 es1 R1 HN) as (c2 & es2 & E2 & R2 & [Hm2 Hd2] & Hb2).
  { intros k' Hk'. rewrite <- block_keys, Hb1. specialize (Hks k' ltac:(by apply list_elem_of_further)).
    rewrite <- block_keys in Hks. apply list_elem_of_fmap in Hks as (x & -> & Hx).
    apply list_elem_of_fmap_2, list_elem_of_filter. split; [|done]. intros E. by rewrite E in Hk'. }
  exists c2, es2. cbn [for_each]. erewrite bind_Ret.
  2:{ erewrite bind_Ret by reflexivity. rewrite Hi. exact E1. }
  split; [exact E2|]. split; [done|]. split; [split; congruence|]. rewrite Hb2, Hb1. unfold spec_drop.
  rewrite list_filter_filter. apply list_filter_iff. intros x. cbn. rewrite elem_of_cons. tauto.
Qed.

Lemma flush_block_spec seen lbid c : flushed seen c -> lbid ∉ seen ->
  exists c', flush_block equal_range index lbid c = (Ret tt, c') /\ flushed (seen ++ [lbid]) c'.
Proof.
  intros (es & R & [Hm Hd] & Hb) Hl. unfold flush_block.
  destruct (flush_keys (equal_range index lbid) c es R) as (c' & es' & E & R' & [Hm' Hd'] & Hb').
  - rewrite equal_range_perm, index_perm. by apply NoDup_filter.
  - intros k Hk. rewrite equal_range_perm, index_perm in Hk. apply list_elem_of_filter in Hk as [Hk Hin].
    apply list_elem_of_fmap in Hin as (x & -> & Hx). rewrite <- block_keys, Hb.
    apply list_elem_of_fmap_2, list_elem_of_filter. split; [|done]. by rewrite Hk.
  - exists c'. split; [done|]. exists es'. split; [done|]. split; [split; congruence|].
    rewrite Hb', Hb. unfold spec_drop. rewrite list_filter_filter. apply filter_ext_in. intros x Hx. cbn.
    rewrite equal_range_perm, index_perm, list_elem_of_filter, elem_of_app, list_elem_of_singleton.
    assert (x.1 ∈ b0.*1) by (by apply list_elem_of_fmap_2). tauto.
Qed.

Lemma flush_lbids_spec ls : forall seen c, flushed seen c -> NoDup ls -> (forall x, x ∈ ls -> x ∉ seen) ->
  exists c', for_each ls (flush_block equal_range index) c = (Ret tt, c') /\ flushed (seen ++ ls) c'.
Proof.
  induction ls as [|l ls IH]; intros seen c Hf HN Hs; [rewrite app_nil_r; by exists c|].
  apply NoDup_cons in HN as [Hl HN].
  destruct (flush_block_spec seen l c Hf) as (c1 & E1 & Hf1); [apply Hs, list_elem_of_here|].
  destruct (IH _ _ Hf1 HN) as (c2 & E2 & Hf2).
  { intros x Hx. rewrite elem_of_app, list_elem_of_singleton. intros [H| ->]; [|done].
    eapply Hs; [|exact H]. by apply list_elem_of_further. }
  exists c2. cbn [for_each]. rewrite (bind_Ret _ _ _ _ _ E1). split; [done|]. by rewrite <- app_assoc in Hf2.
Qed.

(** The extents of a list, in turn. *)
Lemma flush_extents_spec el : forall seen c, flushed seen c -> NoDup (seen ++ (el ≫= extent_lbids)) ->
  exists c', for_each el (flush_extent equal_range index) c = (Ret tt, c') /\
    flushed (seen ++ (el ≫= extent_lbids)) c'.
Proof.
  induction el as [|e el IH]; intros seen c Hf HN; [cbn; rewrite app_nil_r; by exists c|].
  rewrite bind_cons in HN |- *. rewrite (assoc_L app) in HN |- *. pose proof HN as HN'.
  apply NoDup_app in HN' as (HN' & _ & _). apply NoDup_app in HN' as (_ & Hd & HN1).
  destruct (flush_lbids_spec (extent_lbids e) seen c Hf HN1) as (c1 & E1 & Hf1).
  { intros x Hx Hs. by apply (Hd x). }
  destruct (IH _ _ Hf1 HN) as (c2 & E2 & Hf2). exists c2. cbn [for_each].
  by rewrite (bind_Ret _ _ _ _ _ (E1 : flush_extent equal_range index e c = _)).
Qed.

Lemma for_each_skip {A} (P : A -> bool) (f : A -> prog FileBufferMgr unit) l c :
  for_each l (fun a => if P a then f a else mret tt) c = for_each (filter (fun a => P a = true) l) f c.
Proof.
  rewrite <- for_each_if. apply for_each_ext. intros a s. by destruct (decide (P a = true)), (P a).
Qed.

Section oids.
Context (getExtents : Z -> Z * list EMEntry).

(** The blocks a flush visits. *)
Definition reaches (oids : list Z) : list Z := oids ≫= fun o => (getExtents o).2 ≫= extent_lbids.
Definition in_parts (parts : list LogicalPartition) (e : EMEntry) : Prop := lp_mem (lp_of e) parts = true.
#[local] Instance in_parts_dec parts e : Decision (in_parts parts e).
Proof. unfold in_parts. apply _. Defined.
Definition reaches_parts (parts : list LogicalPartition) (oids : list Z) : list Z :=
  oids ≫= fun o => filter (in_parts parts) (getExtents o).2 ≫= extent_lbids.

(** Whether the whole cache is flushed instead. *)
Definition clears (count i oid : Z) : Prop :=
  (getExtents oid).1 < 0 \/ (i = 0 /\ u64 (Z.of_nat (length (getExtents oid).2) * count) > clearThreshold).
#[local] Instance clears_dec count i oid : Decision (clears count i oid).
Proof. unfold clears. apply _. Defined.
Fixpoint spec_clears (count i : Z) (oids : list Z) : bool :=
  match oids with
  | [] => false
  | o :: oids' => bool_decide (clears count i o) || spec_clears count (u32 (i + 1)) oids'
  end.

(** What is left of the blocks. *)
Definition left_over (clear : bool) (seen : list Z) : list (bkey * list Z) :=
  if clear then [] else spec_drop (fun k => k.1 ∈ seen) b0.

Lemma flushCache_repr c es : repr c es -> exists c', flushCache c = (Ret tt, c') /\ repr c' [] /\ same_config c c'.
Proof.
  intros [R _]. eexists. split; [reflexivity|]. split; [|done]. split; [|done].
  pose proof (r_max _ _ R). split; cbn; try done; lia || constructor.
Qed.

Lemma flushed_clear seen c : flushed seen c ->
  exists c' es', flushCache c = (Ret tt, c') /\ repr c' es' /\ same_config c0 c' /\ block <$> es' = [].
Proof.
  intros (es & R & [Hm Hd] & _). destruct (flushCache_repr c es R) as (c' & E & R' & [Hm' Hd']).
  exists c', []. split; [done|]. split; [done|]. split; [split; congruence|done].
Qed.

Lemma flush_oids_spec count oids : forall i seen c, flushed seen c -> NoDup (seen ++ reaches oids) ->
  exists c' es', flush_oids equal_range getExtents index count i oids c = (Ret tt, c') /\ repr c' es' /\
    same_config c0 c' /\ block <$> es' = left_over (spec_clears count i oids) (seen ++ reaches oids).
Proof.
  induction oids as [|o oids IH]; intros i seen c Hf HN.
  { destruct Hf as (es & R & Hc & Hb). exists c, es. cbn. by rewrite app_nil_r. }
  cbn [flush_oids spec_clears]. destruct (getExtents o) as [err el] eqn:Eg.
  destruct (decide _) as [Hd|Hd].
  - rewrite bool_decide_eq_true_2 by (unfold clears; by rewrite Eg). by eapply flushed_clear.
  - rewrite bool_decide_eq_false_2 by (unfold clears; by rewrite Eg). cbn [orb].
    unfold reaches in HN |- *. rewrite bind_cons, Eg in HN |- *. cbn [snd] in *. rewrite (assoc_L app) in HN |- *.
    destruct (flush_extents_spec el seen c Hf) as (c1 & E1 & Hf1); [by apply NoDup_app in HN as (? & _)|].
    rewrite (bind_Ret _ _ _ _ _ E1). by apply IH.
Qed.

Lemma flush_partitions_spec parts oids : forall seen c, flushed seen c -> NoDup (seen ++ reaches_parts parts oids) ->
  exists c' es', flush_partitions equal_range getExtents index parts oids c = (Ret tt, c') /\ repr c' es' /\
    same_config c0 c' /\ block <$> es' =
      left_over (existsb (fun o => bool_decide ((getExtents o).1 < 0)) oids) (seen ++ reaches_parts parts oids).
Proof.
  induction oids as [|o oids IH]; intros seen c Hf HN.
  { destruct Hf as (es & R & Hc & Hb). exists c, es. cbn. by rewrite app_nil_r. }
  cbn [flush_partitions existsb]. destruct (getExtents o) as [err el] eqn:Eg. cbn [fst].
  destruct (decide (err < 0)) as [Hd|Hd].
  - rewrite bool_decide_eq_true_2 by done. by eapply flushed_clear.
  - rewrite bool_decide_eq_false_2 by done. cbn [orb].
    unfold reaches_parts in HN |- *. rewrite bind_cons, Eg in HN |- *. cbn [snd] in *.
    rewrite (assoc_L app) in HN |- *.
    destruct (flush_extents_spec (filter (in_parts parts) el) seen c Hf) as (c1 & E1 & Hf1);
      [by apply NoDup_app in HN as (? & _)|].
    erewrite bind_Ret by (rewrite for_each_skip; exact E1). by apply IH.
Qed.
End oids.
End flush.

(** The whole calls. *)
Section calls.
Context (getExtents : Z -> Z * list EMEntry) (c : FileBufferMgr) (es : list entry).
Hypothesis R : repr c es.

Lemma flush_begins : flushed (block <$> es) c [] c.
Proof.
  exists es. by rewrite (spec_drop_nil fst). 
Qed.

Lemma flushOIDs_spec oids : NoDup (reaches getExtents oids) ->
  exists c' es', flushOIDs iteration equal_range getExtents oids c = (Ret tt, c') /\ repr c' es' /\
    same_config c c' /\ block <$> es' = left_over (block <$> es)
      (spec_clears getExtents (Z.of_nat (length oids)) 0 oids) (reaches getExtents oids).
Proof.
  intros HN. unfold flushOIDs. erewrite bind_Ret by reflexivity.
  destruct (decide (fCacheSize c = 0 \/ oids = [])) as [[Hz| ->]|Hz].
  - exists c, es. rewrite (cache_empty _ _ R Hz). split; [done|]. split; [by rewrite <- (cache_empty _ _ R Hz)|].
    split; [done|]. unfold left_over. by destruct (spec_clears _ _ _ _).
  - exists c, es. split; [done|]. split; [done|]. split; [done|].
    cbn. by rewrite (spec_drop_nil fst).
  - erewrite bind_Ret by reflexivity. eapply (flush_oids_spec _ _ c _ _ getExtents _ _ 0 []); [|done].
    apply flush_begins.
    Unshelve.
    + rewrite block_keys. by apply iteration_keys.
    + rewrite block_keys. apply (r_keys _ _ (proj1 R)).
Qed.

Lemma flushPartition_spec oids parts : NoDup (reaches_parts getExtents parts oids) ->
  exists c' es', flushPartition iteration equal_range getExtents oids parts c = (Ret tt, c') /\ repr c' es' /\
    same_config c c' /\ block <$> es' =
      if decide (parts = []) then block <$> es
      else left_over (block <$> es) (existsb (fun o => bool_decide ((getExtents o).1 < 0)) oids)
        (reaches_parts getExtents parts oids).
Proof.
  intros HN. unfold flushPartition. erewrite bind_Ret by reflexivity.
  destruct (decide (fCacheSize c = 0 \/ oids = [] \/ parts = [])) as [[Hz|[->| ->]]|Hz].
  - exists c, es. rewrite (cache_empty _ _ R Hz). split; [done|]. split; [by rewrite <- (cache_empty _ _ R Hz)|].
    split; [done|]. unfold left_over. destruct (decide (parts = [])); [done|]. by destruct (existsb _ _).
  - exists c, es. split; [done|]. split; [done|]. split; [done|]. destruct (decide (parts = [])); [done|].
    cbn. by rewrite (spec_drop_nil fst).
  - exists c, es. by rewrite decide_True.
  - rewrite decide_False by tauto. erewrite bind_Ret by reflexivity.
    eapply (flush_partitions_spec _ _ c _ _ getExtents _ _ []); [|done]. apply flush_begins.
    Unshelve.
    + rewrite block_keys. by apply iteration_keys.
    + rewrite block_keys. apply (r_keys _ _ (proj1 R)).
Qed.
End calls.

(** ** Runs *)

(** The calls of the cache; those that ask the BRM carry its answers. *)
Inductive cache_op :=
  | CExists (k : bkey)
  | CFind (k : bkey)
  | CFindFb (k : bkey)
  | CBulkFind (ks : list bkey)
  | CInsert (k : bkey) (data : list Z)
  | CBulkInsert (ops : list (bkey * list Z))
  | CFlushCache
  | CFlushOne (k : bkey)
  | CFlushMany (ks : list bkey)
  | CFlushManyAllversion (lbids : list Z)
  | CFlushOIDs (getExtents : Z -> Z * list EMEntry) (oids : list Z)
  | CFlushPartition (getExtents : Z -> Z * list EMEntry) (oids : list Z) (parts : list LogicalPartition).

Inductive cache_ret :=
  | RUnit
  | RBool (b : bool)
  | RBlock (d : option (list Z))
  | RBlocks (ds : list (option (list Z))) (n : Z)
  | RCount (n : Z).

Definition cache_exec (op : cache_op) : prog FileBufferMgr cache_ret :=
  match op with
  | CExists k => b ← cache_exists k; mret (RBool b)
  | CFind k => d ← cache_find k; mret (RBlock d)
  | CFindFb k => d ← find_fb k; mret (RBlock (fByteData <$> d))
  | CBulkFind ks => r ← bulkFind ks; mret (RBlocks r.1 r.2)
  | CInsert k data => n ← cache_insert k data; mret (RCount n)
  | CBulkInsert ops => n ← bulkInsert ops; mret (RCount n)
  | CFlushCache => flushCache;; mret RUnit
  | CFlushOne k => flushOne k.1 k.2;; mret RUnit
  | CFlushMany ks => flushMany ks;; mret RUnit
  | CFlushManyAllversion lbids => flushManyAllversion iteration lbids;; mret RUnit
  | CFlushOIDs g oids => flushOIDs iteration equal_range g oids;; mret RUnit
  | CFlushPartition g oids parts => flushPartition iteration equal_range g oids parts;; mret RUnit
  end.

(** The same calls on a list of blocks. *)
Definition spec_exec (max del : Z) (op : cache_op) (b : list (bkey * list Z))
    : cache_ret * list (bkey * list Z) :=
  match op with
  | CExists k => (RBool (bool_decide (k ∈ b.*1)), spec_touch k b)
  | CFind k | CFindFb k => (RBlock (spec_find k b), spec_touch k b)
  | CBulkFind ks =>
      (RBlocks ((fun k => spec_find k b) <$> ks)
         (Z.of_nat (length (filter is_Some ((fun k => spec_find k b) <$> ks)))),
       foldl (fun b k => spec_touch k b) b ks)
  | CInsert k data => (RCount (if decide (k ∈ b.*1) then 0 else 1), spec_insert max del k data b)
  | CBulkInsert ops => (RCount (spec_count max ops b), spec_bulk max ops b)
  | CFlushCache => (RUnit, [])
  | CFlushOne k => (RUnit, spec_drop (fun x => x = k) b)
  | CFlushMany ks => (RUnit, spec_drop (fun k => k ∈ ks) b)
  | CFlushManyAllversion lbids => (RUnit, spec_drop (fun k => k.1 ∈ lbids) b)
  | CFlushOIDs g oids =>
      (RUnit, left_over b (spec_clears g (Z.of_nat (length oids)) 0 oids) (reaches g oids))
  | CFlushPartition g oids parts =>
      (RUnit, if decide (parts = []) then b
              else left_over b (existsb (fun o => bool_decide ((g o).1 < 0)) oids) (reaches_parts g parts oids))
  end.

(** What callers have to provide: whole blocks, and extents that are disjoint. *)
Definition op_ok (op : cache_op) : Prop :=
  match op with
  | CInsert _ data => BLOCK_SIZE <= Z.of_nat (length data)
  | CBulkInsert ops => Forall (fun op => BLOCK_SIZE <= Z.of_nat (length op.2)) ops
  | CFlushOIDs g oids => NoDup (reaches g oids)
  | CFlushPartition g oids parts => NoDup (reaches_parts g parts oids)
  | _ => True
  end.

Fixpoint cache_run (ops : list cache_op) : prog FileBufferMgr (list cache_ret) :=
  match ops with
  | [] => mret []
  | op :: ops' => r ← cache_exec op; rs ← cache_run ops'; mret (r :: rs)
  end.
Fixpoint spec_run (max del : Z) (ops : list cache_op) (b : list (bkey * list Z))
    : list cache_ret * list (bkey * list Z) :=
  match ops with
  | [] => ([], b)
  | op :: ops' =>
      let '(r, b1) := spec_exec max del op b in
      let '(rs, b2) := spec_run max del ops' b1 in (r :: rs, b2)
  end.

(** *** Every call follows the specification *)

Definition follows (c : FileBufferMgr) (es : list entry) (op : cache_op) : Prop :=
  exists c' es', cache_exec op c = (Ret (spec_exec (fMaxNumBlocks c) (fDeleteBlocks c) op (block <$> es)).1, c') /\
    repr c' es' /\ same_config c c' /\
    block <$> es' = (spec_exec (fMaxNumBlocks c) (fDeleteBlocks c) op (block <$> es)).2.

Section step.
Context (c : FileBufferMgr) (es : list entry) (R : repr c es).

Lemma exists_follows k : follows c es (CExists k).
Proof.
  destruct (touch_spec c es k R) as (r & es' & E & R' & Hb & Hr).
  exists (with_list (enode <$> es') c), es'. split; [|done].
  cbn [cache_exec spec_exec fst]. unfold cache_exists. rewrite prog_bind_assoc, (bind_Ret _ _ _ _ _ E).
  erewrite bind_Ret by reflexivity. unfold mret, prog_ret. do 3 f_equal. apply bool_decide_ext.
  rewrite <- spec_find_is_Some. destruct r as [idx|]; [destruct Hr as (fb & _ & ->)|rewrite Hr]; naive_solver.
Qed.

Lemma find_follows k : follows c es (CFind k).
Proof.
  destruct (touch_spec c es k R) as (r & es' & E & R' & Hb & Hr).
  exists (with_list (enode <$> es') c), es'. split; [|done].
  cbn [cache_exec spec_exec fst]. unfold cache_find. rewrite prog_bind_assoc, (bind_Ret _ _ _ _ _ E).
  destruct r as [idx|]; [|by rewrite Hr].
  destruct Hr as (fb & Hfb & ->). unfold copy_out, pool_at. rewrite !prog_bind_assoc.
  by rewrite (bind_reading _ _ _ fb).
Qed.

Lemma findFb_follows k : follows c es (CFindFb k).
Proof.
  destruct (touch_spec c es k R) as (r & es' & E & R' & Hb & Hr).
  exists (with_list (enode <$> es') c), es'. split; [|done].
  cbn [cache_exec spec_exec fst]. unfold find_fb. rewrite prog_bind_assoc, (bind_Ret _ _ _ _ _ E).
  destruct r as [idx|]; [|by rewrite Hr].
  destruct Hr as (fb & Hfb & ->). unfold pool_at. rewrite prog_bind_assoc. by rewrite (bind_reading _ _ _ fb).
Qed.
End step.

(** The slots found for a list of keys. *)
Definition slot_found (c : FileBufferMgr) (b : list (bkey * list Z)) (k : bkey) (r : option Z) : Prop :=
  match r with
  | Some idx => exists fb, rd (fFBPool c) idx = Ret fb /\ spec_find k b = Some (fByteData fb)
  | None => spec_find k b = None
  end.

Lemma touch_all_spec ks : forall c es, repr c es ->
  exists rs es', touch_all ks c = (Ret rs, with_list (enode <$> es') c) /\
    repr (with_list (enode <$> es') c) es' /\
    block <$> es' = foldl (fun b k => spec_touch k b) (block <$> es) ks /\
    Forall2 (slot_found c (block <$> es)) ks rs.
Proof.
  induction ks as [|k ks IH]; intros c es R.
  { exists [], es. rewrite <- (r_list _ _ (proj1 R)). by destruct c. }
  destruct (touch_spec c es k R) as (r & es1 & E1 & R1 & Hb1 & Hr).
  destruct (IH _ es1 R1) as (rs & es2 & E2 & R2 & Hb2 & Hrs). exists (r :: rs), es2. cbn [touch_all].
  rewrite (bind_Ret _ _ _ _ _ E1), (bind_Ret _ _ _ _ _ E2). split; [done|]. split; [done|].
  split; [cbn; by rewrite Hb2, Hb1|]. constructor; [done|].
  assert (HN : NoDup (block <$> es).*1) by (rewrite block_keys; apply (r_keys _ _ (proj1 R))).
  eapply Forall2_impl; [exact Hrs|]. intros k' r'. unfold slot_found. rewrite Hb1.
  rewrite (spec_find_perm k' (spec_touch k (block <$> es)) (block <$> es)); [done| |by apply spec_touch_perm].
  by rewrite spec_touch_perm.
Qed.

Lemma copy_all_spec c b ks rs : Forall2 (slot_found c b) ks rs ->
  copy_all rs c = (Ret ((fun k => spec_find k b) <$> ks), c).
Proof.
  induction 1 as [|k r ks rs Hr _ IH]; [done|]. cbn [copy_all fmap list_fmap]. unfold slot_found in Hr.
  destruct r as [idx|].
  - destruct Hr as (fb & Hfb & ->). unfold copy_out, pool_at. rewrite prog_bind_assoc, (bind_reading _ _ _ fb) by done.
    erewrite bind_Ret by reflexivity. by rewrite (bind_Ret _ _ _ _ _ IH).
  - rewrite Hr. by rewrite (bind_Ret _ _ _ _ _ IH).
Qed.

Lemma bulkFind_follows c es ks : repr c es -> follows c es (CBulkFind ks).
Proof.
  intros R. destruct (touch_all_spec ks c es R) as (rs & es' & E & R' & Hb & Hrs).
  exists (with_list (enode <$> es') c), es'. split; [|done]. cbn [cache_exec spec_exec fst]. unfold bulkFind.
  rewrite prog_bind_assoc, (bind_Ret _ _ _ _ _ E), prog_bind_assoc.
  by rewrite (bind_Ret _ _ _ _ _ (copy_all_spec (with_list (enode <$> es') c) _ _ _ Hrs)).
Qed.

Lemma exec_follows c es op : repr c es -> op_ok op -> follows c es op.
Proof.
  intros R Hok. unfold follows.
  destruct op as [k|k|k|ks|k data|ops| |k|ks|lbids|g oids|g oids parts]; cbn [op_ok] in Hok.
  - by apply exists_follows.
  - by apply find_follows.
  - by apply findFb_follows.
  - by apply bulkFind_follows.
  - destruct (cache_insert_spec c es k data R Hok) as (c' & es' & r & E & R' & Hc & Hb & Hr).
    exists c', es'. cbn. rewrite (bind_Ret _ _ _ _ _ E), Hr, block_keys. done.
  - destruct (bulkInsert_spec c es ops R Hok) as (c' & es' & E & H). exists c', es'. cbn.
    by rewrite (bind_Ret _ _ _ _ _ E).
  - destruct (flushCache_repr c es R) as (c' & E & R' & Hc). exists c', []. cbn. by rewrite (bind_Ret _ _ _ _ _ E).
  - destruct (flushOne_spec c es k R) as (c' & es' & E & H). exists c', es'. cbn. by rewrite (bind_Ret _ _ _ _ _ E).
  - destruct (flushMany_spec ks c es R) as (c' & es' & E & H). exists c', es'. cbn. by rewrite (bind_Ret _ _ _ _ _ E).
  - destruct (flushManyAllversion_spec c es lbids R) as (c' & es' & E & H). exists c', es'. cbn.
    by rewrite (bind_Ret _ _ _ _ _ E).
  - destruct (flushOIDs_spec g c es R oids Hok) as (c' & es' & E & H). exists c', es'. cbn.
    by rewrite (bind_Ret _ _ _ _ _ E).
  - destruct (flushPartition_spec g c es R oids parts Hok) as (c' & es' & E & H). exists c', es'. cbn.
    by rewrite (bind_Ret _ _ _ _ _ E).
Qed.

Lemma run_follows ops : forall c es, repr c es -> Forall op_ok ops ->
  exists c' es', cache_run ops c = (Ret (spec_run (fMaxNumBlocks c) (fDeleteBlocks c) ops (block <$> es)).1, c') /\
    repr c' es' /\ same_config c c' /\
    block <$> es' = (spec_run (fMaxNumBlocks c) (fDeleteBlocks c) ops (block <$> es)).2.
Proof.
  induction ops as [|op ops IH]; intros c es R Hok; [by exists c, es|].
  apply Forall_cons in Hok as [Ho Hok]. cbn [cache_run spec_run].
  destruct (exec_follows c es op R Ho) as (c1 & es1 & E1 & R1 & [Hm Hd] & Hb1).
  destruct (spec_exec _ _ op _) as [r b1]. cbn [fst snd] in E1, Hb1. rewrite (bind_Ret _ _ _ _ _ E1).
  destruct (IH c1 es1 R1 Hok) as (c2 & es2 & E2 & R2 & [Hm2 Hd2] & Hb2).
  rewrite Hm, Hd, Hb1 in E2, Hb2. rewrite (bind_Ret _ _ _ _ _ E2). exists c2, es2.
  destruct (spec_run _ _ ops b1). split; [done|]. split; [done|]. split; [split; congruence|done].
Qed.

(** ** Stale blocks *)

(** The calls after which a key is not in the cache. *)
Definition flushes (k : bkey) (op : cache_op) : Prop :=
  match op with
  | CFlushCache => True
  | CFlushOne k' => k' = k
  | CFlushMany ks => k ∈ ks
  | CFlushManyAllversion lbids => k.1 ∈ lbids
  | CFlushOIDs g oids => k.1 ∈ reaches g oids
  | CFlushPartition g oids parts => k.1 ∈ reaches_parts g parts oids
  | _ => False
  end.

(** Every block inserted under the key has these bytes. *)
Definition inserts_only (k : bkey) (d : list Z) (op : cache_op) : Prop :=
  match op with
  | CInsert k' data => k' = k -> take (Z.to_nat BLOCK_SIZE) data = d
  | CBulkInsert ops => Forall (fun x => x.1 = k -> take (Z.to_nat BLOCK_SIZE) x.2 = d) ops
  | _ => True
  end.

Definition holds_only (k : bkey) (d : list Z) (b : list (bkey * list Z)) : Prop :=
  Forall (fun x => x.1 = k -> x.2 = d) b.

Lemma left_over_incl b clear seen x : x ∈ left_over b clear seen -> x ∈ b /\ (x.1.1 ∉ seen).
Proof.
  unfold left_over. destruct clear; [by intros ?%elem_of_nil|]. intros [H1 H2]%list_elem_of_filter. done.
Qed.

Lemma flushes_spec max del k op b : flushes k op -> k ∉ (spec_exec max del op b).2.*1.
Proof.
  intros Hf (x & -> & Hx)%list_elem_of_fmap. destruct op; cbn in Hf, Hx; try done.
  - by apply elem_of_nil in Hx.
  - by apply list_elem_of_filter in Hx as [Hx _].
  - by apply list_elem_of_filter in Hx as [Hx _].
  - by apply list_elem_of_filter in Hx as [Hx _].
  - by apply left_over_incl in Hx as [_ Hx].
  - case_decide as Hp; [|by apply left_over_incl in Hx as [_ Hx]].
    subst parts. unfold reaches_parts in Hf. apply list_elem_of_bind in Hf as (o & Hf & _).
    rewrite filter_none in Hf by (apply Forall_forall; intros e _ H; by unfold in_parts in H).
    by apply elem_of_nil in Hf.
Qed.

Lemma spec_insert_holds max del k d k' data b : holds_only k d b ->
  (k' = k -> take (Z.to_nat BLOCK_SIZE) data = d) -> holds_only k d (spec_insert max del k' data b).
Proof.
  intros H Hk. unfold spec_insert. repeat case_decide; [done|by constructor|]. apply Forall_take. by constructor.
Qed.

Lemma holds_sub k d b b' : holds_only k d b -> (forall x, x ∈ b' -> x ∈ b) -> holds_only k d b'.
Proof. unfold holds_only. rewrite !Forall_forall. auto. Qed.
Lemma holds_filter k d P `{!forall x : bkey * list Z, Decision (P x)} b :
  holds_only k d b -> holds_only k d (filter P b).
Proof. intros Hb. eapply holds_sub; [exact Hb|]. by intros x [_ ?]%list_elem_of_filter. Qed.

Lemma spec_touch_holds k d k' b : holds_only k d b -> holds_only k d (spec_touch k' b).
Proof.
  intros H. unfold spec_touch. destruct (spec_find k' b) as [d'|] eqn:E; [|done]. constructor.
  - intros <-. apply spec_find_in in E. unfold holds_only in H. rewrite Forall_forall in H. by apply (H _ E).
  - by apply holds_filter.
Qed.

Lemma spec_exec_holds max del k d op b : holds_only k d b -> inserts_only k d op ->
  holds_only k d (spec_exec max del op b).2.
Proof.
  intros H Hi.
  assert (HL : forall cl seen, holds_only k d (left_over b cl seen)).
  { intros cl seen. eapply holds_sub; [exact H|]. by intros x [? _]%left_over_incl. }
  destruct op as [k'|k'|k'|ks|k' data|ops| |k'|ks|lbids|g oids|g oids parts]; cbn [spec_exec snd inserts_only] in *;
    try (by apply spec_touch_holds); try (by apply holds_filter); try done.
  - clear HL. revert b H. induction ks as [|k' ks IH]; intros b H; [done|]. cbn.
    apply IH. by apply spec_touch_holds.
  - by apply spec_insert_holds.
  - clear HL. unfold spec_bulk. revert b H. induction Hi as [|x ops Hx _ IH]; intros b H; [done|]. cbn.
    apply IH. by apply spec_insert_holds.
  - constructor.
  - by case_decide.
Qed.

Lemma spec_run_app max del ops1 ops2 b :
  spec_run max del (ops1 ++ ops2) b =
  ((spec_run max del ops1 b).1 ++ (spec_run max del ops2 (spec_run max del ops1 b).2).1,
   (spec_run max del ops2 (spec_run max del ops1 b).2).2).
Proof.
  revert b. induction ops1 as [|op ops1 IH]; intros b; cbn.
  { by destruct (spec_run max del ops2 b). }
  destruct (spec_exec max del op b) as [r b1]. rewrite IH. by destruct (spec_run max del ops1 b1).
Qed.

Lemma spec_run_holds max del k d ops : forall b, holds_only k d b -> Forall (inserts_only k d) ops ->
  holds_only k d (spec_run max del ops b).2.
Proof.
  induction ops as [|op ops IH]; intros b H Hi; [done|]. apply Forall_cons in Hi as [Ho Hi]. cbn.
  pose proof (spec_exec_holds max del k d op b H Ho) as H1. destruct (spec_exec max del op b) as [r b1].
  specialize (IH b1 H1 Hi). by destruct (spec_run max del ops b1).
Qed.

(** ** Recently used blocks *)

Definition mentions (op : cache_op) : list bkey :=
  match op with
  | CExists k | CFind k | CFindFb k | CInsert k _ => [k]
  | CBulkFind ks => ks
  | CBulkInsert ops => ops.*1
  | _ => []
  end.
Definition is_flush (op : cache_op) : bool :=
  match op with
  | CExists _ | CFind _ | CFindFb _ | CBulkFind _ | CInsert _ _ | CBulkInsert _ => false
  | _ => true
  end.

(** The block [k] is cached, and only blocks in [S] were used after it. *)
Definition behind (max : Z) (k : bkey) (d : list Z) (S : gset bkey) (b : list (bkey * list Z)) : Prop :=
  NoDup b.*1 /\ exists l1 l2, b = l1 ++ (k, d) :: l2 /\ Forall (fun x => x.1 ∈ S) l1.

Lemma behind_touch max k d S k' b : behind max k d S b -> behind max k d ({[k']} ∪ S) (spec_touch k' b).
Proof.
  intros (HN & l1 & l2 & Eb & HS). split; [by rewrite spec_touch_perm|]. unfold spec_touch.
  destruct (spec_find k' b) as [d'|] eqn:E; [|exists l1, l2; split; [done|]; eapply Forall_impl; [exact HS|set_solver]].
  destruct (decide (k' = k)) as [->|Hne].
  - apply spec_find_in in E. exists [], (filter (fun x => x.1 <> k) b). split; [|constructor].
    assert (Hk : spec_find k b = Some d) by (apply elem_of_list_to_map_1; [done|subst b; set_solver]).
    assert (Hk' : spec_find k b = Some d') by (by apply elem_of_list_to_map_1).
    assert (d' = d) as -> by congruence. done.
  - exists ((k', d') :: filter (fun x => x.1 <> k') l1), (filter (fun x => x.1 <> k') l2).
    rewrite Eb, filter_app, filter_cons_True by (cbn; auto). split; [done|]. constructor; [set_solver|].
    apply Forall_forall. intros x [_ Hx]%list_elem_of_filter. rewrite Forall_forall in HS. set_solver.
Qed.

Lemma behind_insert max del k d S k' data b : 0 <= del -> behind max k d S b ->
  Z.of_nat (base.size (({[k']} ∪ S) ∖ {[k]})) < max - del ->
  behind max k d ({[k']} ∪ S) (spec_insert max del k' data b).
Proof.
  intros Hdel (HN & l1 & l2 & Eb & HS) Hsz. unfold spec_insert.
  destruct (decide (k' ∈ b.*1)) as [Hin|Hin].
  { split; [done|]. exists l1, l2. split; [done|]. eapply Forall_impl; [exact HS|set_solver]. }
  set (x := (k', take (Z.to_nat BLOCK_SIZE) data)).
  assert (HN' : NoDup (x :: b).*1) by (by constructor).
  assert (HS' : Forall (fun y => y.1 ∈ {[k']} ∪ S) (x :: l1)).
  { constructor; [set_solver|]. eapply Forall_impl; [exact HS|set_solver]. }
  destruct (decide (Z.of_nat (length b) < max)) as [Hr|Hr].
  { split; [done|]. exists (x :: l1), l2. by rewrite Eb. }
  assert (Hlen : (length (x :: l1) < length b - Z.to_nat del)%nat).
  { rewrite Eb, app_comm_cons, fmap_app in HN'. apply NoDup_app in HN' as (HN1 & HN2 & _).
    assert (H1 : (length (x :: l1).*1 <= base.size (({[k']} ∪ S) ∖ {[k]}))%nat).
    { rewrite <- (size_list_to_set (C := gset bkey)) by done.
      apply subseteq_size. intros y Hy%elem_of_list_to_set. specialize (HN2 y Hy).
      apply list_elem_of_fmap in Hy as (y' & -> & Hy). rewrite Forall_forall in HS'. specialize (HS' _ Hy).
      cbn in HN2. set_solver. }
    rewrite length_fmap in H1. lia. }
  rewrite Eb, app_comm_cons. rewrite take_app_ge by (rewrite <- Eb; lia).
  rewrite <- Eb. destruct (length b - Z.to_nat del - length (x :: l1))%nat as [|n] eqn:En; [lia|]. cbn [take]. split.
  - eapply sublist_NoDup; [exact HN'|]. rewrite Eb, app_comm_cons. apply fmap_sublist, sublist_app; [done|].
    apply sublist_skip, sublist_take.
  - by exists (x :: l1), (take n l2).
Qed.

Lemma others_bound (max : Z) (k : bkey) (S T : gset bkey) : S ⊆ T ->
  Z.of_nat (base.size (T ∖ {[k]})) < max -> Z.of_nat (base.size (S ∖ {[k]})) < max.
Proof.
  intros Hs H. assert ((base.size (S ∖ {[k]}) <= base.size (T ∖ {[k]}))%nat) by (apply subseteq_size; set_solver).
  lia.
Qed.

Lemma behind_exec max del k d S op b : 0 <= del -> is_flush op = false -> behind max k d S b ->
  Z.of_nat (base.size ((list_to_set (mentions op) ∪ S) ∖ {[k]})) < max - del ->
  behind max k d (list_to_set (mentions op) ∪ S) (spec_exec max del op b).2.
Proof.
  intros Hdel Hf Hb Hs. destruct op as [k'|k'|k'|ks|k' data|ops| | | | | |]; try done; cbn in *;
    rewrite ?union_empty_r_L in *; try by apply behind_touch.
  - clear Hs. revert b S Hb. induction ks as [|k' ks IH]; intros b S Hb; cbn; [by rewrite union_empty_l_L|].
    replace ({[k']} ∪ list_to_set ks ∪ S) with (list_to_set ks ∪ ({[k']} ∪ S)) by set_solver.
    by apply IH, behind_touch.
  - by apply behind_insert.
  - unfold spec_bulk. revert b S Hb Hs. induction ops as [|[k' data] ops IH]; intros b S Hb Hs; cbn;
      [by rewrite union_empty_l_L|].
    cbn in Hs.
    replace ({[k']} ∪ list_to_set ops.*1 ∪ S) with (list_to_set ops.*1 ∪ ({[k']} ∪ S)) in * by set_solver.
    apply IH; [|done]. apply behind_insert; [lia|done|]. rewrite Z.sub_0_r.
    apply (others_bound _ _ _ (list_to_set ops.*1 ∪ ({[k']} ∪ S))); [set_solver|lia].
Qed.

Lemma behind_run max del k d ops : 0 <= del -> forall S b, Forall (fun op => is_flush op = false) ops -> behind max k d S b ->
  Z.of_nat (base.size ((list_to_set (ops ≫= mentions) ∪ S) ∖ {[k]})) < max - del ->
  exists S', behind max k d S' (spec_run max del ops b).2.
Proof.
  intros Hdel. induction ops as [|op ops IH]; intros S b Hf Hb Hs; [by exists S|].
  apply Forall_cons in Hf as [Ho Hf]. rewrite bind_cons, list_to_set_app_L in Hs. cbn [spec_run].
  assert (H1 : behind max k d (list_to_set (mentions op) ∪ S) (spec_exec max del op b).2).
  { apply behind_exec; [done..|]. eapply others_bound; [|exact Hs]. set_solver. }
  destruct (spec_exec max del op b) as [r b1]. destruct (IH _ b1 Hf H1) as [S' H2].
  { eapply others_bound; [|exact Hs]. set_solver. }
  exists S'. by destruct (spec_run max del ops b1).
Qed.

Lemma new_follows max del a b ops : 0 < max < 2 ^ 31 -> Forall op_ok ops ->
  exists c' es', cache_run ops (FileBufferMgr_new max del a b) = (Ret (spec_run max del ops []).1, c') /\
    repr c' es' /\ fMaxNumBlocks c' = max /\ block <$> es' = (spec_run max del ops []).2.
Proof.
  intros Hm Hok.
  destruct (run_follows ops _ [] (repr_new max del a b Hm) Hok) as (c & es & E & R & [Hc _] & Hb).
  by exists c, es.
Qed.

Lemma spec_run_find max del ops k :
  (spec_run max del (ops ++ [CFind k]) []).1 =
  (spec_run max del ops []).1 ++ [RBlock (spec_find k (spec_run max del ops []).2)].
Proof. by rewrite spec_run_app. Qed.

(** ** Properties *)

(** C5: The block cache is a list of blocks in the order of their last use:
    a sequence of lookups, insertions (single and in bulk) and flushes gives
    the results of the same sequence on such a list, where an insertion into a
    full cache drops the block unused for the longest time and [fDeleteBlocks]
    more.  No call throws, follows a stale iterator or leaves the pool, and the
    cache never exceeds its size.  The callers provide ([op_ok]) whole blocks to insert,
    and objects to [flushOIDs] and [flushPartition] whose extents are named once
    ([flushOIDs_twice] shows the stale iterator otherwise). *)
Theorem cache_refines ops max del a b : 0 < max < 2 ^ 31 -> Forall op_ok ops ->
  exists c, cache_run ops (FileBufferMgr_new max del a b) = (Ret (spec_run max del ops []).1, c) /\
    fCacheSize c = Z.of_nat (length (spec_run max del ops []).2) /\ fCacheSize c <= max.
Proof.
  intros Hm Hok. destruct (new_follows max del a b ops Hm Hok) as (c & es & E & R & Hc & Hb).
  exists c. split; [exact E|]. rewrite <- Hb, length_fmap, (r_size _ _ (proj1 R)). split; [done|].
  rewrite <- Hc. apply (r_room _ _ (proj1 R)).
Qed.

(** C23: A flush leaves nothing stale behind: after a call that flushes a block,
    lookups give nothing or the bytes that were inserted since, whatever was
    cached before and whatever calls are in between. *)
Theorem cache_fresh max del a b pre f post k d : 0 < max < 2 ^ 31 -> Forall op_ok (pre ++ f :: post) ->
  flushes k f -> Forall (inserts_only k d) post ->
  exists rs r, (cache_run (pre ++ f :: post ++ [CFind k]) (FileBufferMgr_new max del a b)).1 =
    Ret (rs ++ [RBlock r]) /\ (r = None \/ r = Some d).
Proof.
  intros Hm Hok Hf Hi. set (ops := pre ++ f :: post).
  destruct (new_follows max del a b (ops ++ [CFind k])) as (c & es & E & _); [done|by apply Forall_app; repeat constructor|].
  replace (pre ++ f :: post ++ [CFind k]) with (ops ++ [CFind k]) by (unfold ops; by rewrite <- app_assoc).
  rewrite E, spec_run_find. do 2 eexists. split; [done|].
  destruct (spec_find k _) as [d'|] eqn:Ef; [right|by left]. f_equal. apply spec_find_in in Ef.
  unfold ops in Ef. rewrite spec_run_app in Ef. cbn [snd] in Ef. cbn [spec_run] in Ef.
  pose proof (flushes_spec max del k f (spec_run max del pre []).2 Hf) as Hgone.
  destruct (spec_exec max del f _) as [r1 b1]. cbn [snd] in Hgone.
  assert (H1 : holds_only k d b1).
  { apply Forall_forall. intros x Hx E1. destruct Hgone. rewrite <- E1. by apply list_elem_of_fmap_2. }
  pose proof (spec_run_holds max del k d post b1 H1 Hi) as H2.
  destruct (spec_run max del post b1) as [rs b2]. cbn [snd] in *. unfold holds_only in H2.
  rewrite Forall_forall in H2. by apply (H2 _ Ef).
Qed.

(** C24: A block that was just used stays cached while fewer than
    [fMaxNumBlocks - fDeleteBlocks] other blocks are looked up or inserted, in any order
    and any number of times, singly or in bulk, and nothing is flushed.
    (An insertion into a full cache leaves that many blocks.) *)
Theorem lru_keeps max del a b pre k post d rs1 rs2 r : 0 < max < 2 ^ 31 -> 0 <= del -> Forall op_ok (pre ++ post) ->
  Forall (fun op => is_flush op = false) post ->
  Z.of_nat (base.size (list_to_set (post ≫= mentions) ∖ {[k]} : gset bkey)) < max - del ->
  (cache_run (pre ++ CFind k :: post ++ [CFind k]) (FileBufferMgr_new max del a b)).1 =
    Ret (rs1 ++ RBlock (Some d) :: rs2 ++ [r]) -> length rs1 = length pre -> r = RBlock (Some d).
Proof.
  intros Hm Hdel Hok Hf Hs E Hlen. apply Forall_app in Hok as [Hok1 Hok2].
  replace (pre ++ CFind k :: post ++ [CFind k]) with (((pre ++ [CFind k]) ++ post) ++ [CFind k]) in E
    by (by rewrite <- !app_assoc).
  destruct (new_follows max del a b (((pre ++ [CFind k]) ++ post) ++ [CFind k])) as (c & es & E' & _); [done| |].
  { rewrite !Forall_app. repeat split; try done; by repeat constructor. }
  destruct (new_follows max del a b (pre ++ [CFind k])) as (c1 & es1 & E1 & R1 & _ & Hb1);
    [done|by apply Forall_app; repeat constructor|].
  rewrite E' in E. cbn [fst] in E. injection E as E. rewrite spec_run_find, spec_run_app in E. cbn [fst snd] in E.
  rewrite app_comm_cons, (assoc_L app) in E. apply app_inj_tail in E as [E <-]. f_equal.
  assert (Hfind : spec_find k (spec_run max del pre []).2 = Some d /\
      (spec_run max del (pre ++ [CFind k]) []).2 = spec_touch k (spec_run max del pre []).2).
  { rewrite spec_run_find, spec_run_app in *. cbn [spec_run spec_exec fst snd] in *. split; [|done].
    assert (HL : length (spec_run max del pre []).1 = length rs1).
    { rewrite Hlen. clear. generalize (@nil (bkey * list Z)). induction pre as [|op pre IH]; intros b; [done|]. cbn.
      destruct (spec_exec max del op b) as [r b1]. specialize (IH b1). destruct (spec_run max del pre b1). cbn in *. by rewrite IH. }
    rewrite <- app_assoc in E. apply app_inj_1 in E as [_ E]; [|done]. by injection E. }
  destruct Hfind as [Hk Hb]. rewrite Hb in *.
  assert (HB : behind max k d ∅ (spec_touch k (spec_run max del pre []).2)).
  { split; [rewrite <- Hb1, block_keys; apply (r_keys _ _ (proj1 R1))|].
    unfold spec_touch. rewrite Hk. eexists [], _. done. }
  destruct (behind_run max del k d post Hdel ∅ _ Hf HB) as (S' & HN & l1 & l2 & Eb & _); [by rewrite union_empty_r_L|].
  apply elem_of_list_to_map_1; [done|]. rewrite Eb. apply elem_of_app. right. apply list_elem_of_here.
Qed.
End unordered.

(** ** Small caches *)

Definition in_order (s : gmap bkey Z) : list (bkey * Z) := map_to_list s.
Definition select (ks : list bkey) (lbid : Z) : list bkey := filter (fun k => k.1 = lbid) ks.
Definition demo_block (x : Z) : list Z := replicate (Z.to_nat BLOCK_SIZE) x.

Lemma demo_block_ok x : BLOCK_SIZE <= Z.of_nat (length (demo_block x)).
Proof. unfold demo_block. rewrite length_replicate, Z2Nat.id; [done|unfold BLOCK_SIZE; lia]. Qed.

(** One extent of 1024 blocks from LBID 2048 on, for every object. *)
Definition demo_roots : DBROOTS_struct := mkRoots [1; 0; 0; 0].
Definition demo_extent : EMEntry :=
  mkEM (mkInline 2048 1) 3000 0 demo_roots 0 0 0 4 EXTENTAVAILABLE (mkCP 0 0 0 CP_INVALID).
Definition demo_extents (oid : Z) : Z * list EMEntry := (0, [demo_extent]).

Lemma demo_reaches : NoDup (reaches demo_extents [3000]).
Proof. unfold reaches. cbn [mbind list_bind demo_extents snd]. rewrite !app_nil_r. apply NoDup_seqZ. Qed.

Ltac demo_ok := cbn [app]; repeat match goal with
  | |- Forall _ (_ :: _) => constructor
  | |- Forall _ [] => constructor
  | |- op_ok _ => progress cbn [op_ok]
  | |- True => exact I
  | |- BLOCK_SIZE <= _ => cbn [snd]; apply demo_block_ok
  | |- NoDup _ => apply demo_reaches
  end.

Definition demo_calls : list cache_op :=
  [CInsert (2048, 0) (demo_block 1); CInsert (9, 0) (demo_block 2); CFind (2048, 0);
   CBulkInsert [((10, 0), demo_block 3); ((9, 0), demo_block 4)]; CInsert (11, 0) (demo_block 5);
   CFind (9, 0); CFlushOIDs demo_extents [3000];
   CExists (2048, 0); CBulkFind [(10, 0); (2048, 0)]].

Lemma demo_calls_ok : Forall op_ok demo_calls.
Proof. unfold demo_calls. demo_ok. Qed.

Lemma cache_refines_witness : Forall op_ok demo_calls /\
  exists c, cache_run in_order select demo_calls (FileBufferMgr_new 3 0 7 7) =
    (Ret [RCount 1; RCount 1; RBlock (Some (demo_block 1)); RCount 1; RCount 1; RBlock None; RUnit;
      RBool false; RBlocks [Some (demo_block 3); None] 1], c) /\ fCacheSize c = 2.
Proof.
  split; [exact demo_calls_ok|].
  destruct (cache_refines in_order select (fun _ => reflexivity _) (fun _ _ => reflexivity _) demo_calls 3 0 7 7)
    as (c & E & Hn & _); [lia|exact demo_calls_ok|].
  exists c. rewrite E, Hn. split; [f_equal; f_equal|]; vm_compute; reflexivity.
Defined.

Lemma cache_fresh_witness : flushes (2048, 0) (CFlushOIDs demo_extents [3000]) /\
  exists rs r, (cache_run in_order select
    ([CInsert (2048, 0) (demo_block 1)] ++ CFlushOIDs demo_extents [3000] ::
     [CInsert (9, 0) (demo_block 2); CInsert (2048, 0) (demo_block 3)] ++ [CFind (2048, 0)])
    (FileBufferMgr_new 3 1 0 0)).1 = Ret (rs ++ [RBlock r]) /\ (r = None \/ r = Some (demo_block 3)).
Proof.
  assert (Hf : flushes (2048, 0) (CFlushOIDs demo_extents [3000])).
  { cbn [flushes fst]. unfold reaches. apply list_elem_of_bind. exists 3000. split; [|apply list_elem_of_here].
    cbn [demo_extents snd mbind list_bind]. rewrite app_nil_r. apply elem_of_seqZ. vm_compute. done. }
  split; [exact Hf|].
  apply (cache_fresh in_order select (fun _ => reflexivity _) (fun _ _ => reflexivity _) 3 1 0 0
    [CInsert (2048, 0) (demo_block 1)] (CFlushOIDs demo_extents [3000])
    [CInsert (9, 0) (demo_block 2); CInsert (2048, 0) (demo_block 3)]).
  - lia.
  - demo_ok.
  - exact Hf.
  - constructor; [done|]. constructor; [|constructor]. intros _. vm_compute. reflexivity.
Defined.

(** Four slots and one block more to drop: the fifth block takes the places of blocks
    2 and 3. *)
Lemma lru_keeps_witness :
  (cache_run in_order select
    ([CInsert (1, 0) (demo_block 1); CInsert (2, 0) (demo_block 2); CInsert (3, 0) (demo_block 3);
      CInsert (4, 0) (demo_block 4)] ++
     CFind (1, 0) :: [CInsert (5, 0) (demo_block 5); CFind (4, 0); CInsert (5, 0) (demo_block 5); CExists (1, 0)] ++
     [CFind (1, 0)]) (FileBufferMgr_new 4 1 0 0)).1 =
  Ret ([RCount 1; RCount 1; RCount 1; RCount 1] ++ RBlock (Some (demo_block 1)) ::
    [RCount 1; RBlock (Some (demo_block 4)); RCount 0; RBool true] ++ [RBlock (Some (demo_block 1))]) /\
  RBlock (Some (demo_block 1)) = RBlock (Some (demo_block 1)).
Proof.
  assert (E : (cache_run in_order select
    ([CInsert (1, 0) (demo_block 1); CInsert (2, 0) (demo_block 2); CInsert (3, 0) (demo_block 3);
      CInsert (4, 0) (demo_block 4)] ++
     CFind (1, 0) :: [CInsert (5, 0) (demo_block 5); CFind (4, 0); CInsert (5, 0) (demo_block 5); CExists (1, 0)] ++
     [CFind (1, 0)]) (FileBufferMgr_new 4 1 0 0)).1 =
    Ret ([RCount 1; RCount 1; RCount 1; RCount 1] ++ RBlock (Some (demo_block 1)) ::
      [RCount 1; RBlock (Some (demo_block 4)); RCount 0; RBool true] ++ [RBlock (Some (demo_block 1))]))
    by (vm_compute; reflexivity).
  split; [exact E|].
  eapply (lru_keeps in_order select (fun _ => reflexivity _) (fun _ _ => reflexivity _) 4 1 0 0 _ (1, 0) _
    (demo_block 1) _ _ _ _ _ _ _ _ E).
  Unshelve.
  - reflexivity.
  - lia.
  - lia.
  - demo_ok.
  - repeat constructor.
  - vm_compute. reflexivity.
Defined.

(** The bytes are copied without the lock: another thread's insertion can put
    its block into the slot first, and the caller gets that block's bytes. *)
Theorem find_race : exists c idx c1 c2,
  cache_run in_order select [CInsert (1, 0) (demo_block 1)] (FileBufferMgr_new 1 0 0 0) = (Ret [RCount 1], c) /\
  touch (1, 0) c = (Ret (Some idx), c1) /\ cache_insert (2, 0) (demo_block 2) c1 = (Ret 1, c2) /\
  (copy_out idx c2).1 = Ret (demo_block 2) /\ demo_block 2 <> demo_block 1.
Proof.
  eexists _, 0, _, _. split; [vm_compute; reflexivity|]. split; [vm_compute; reflexivity|].
  split; [vm_compute; reflexivity|]. split; [vm_compute; reflexivity|]. vm_compute. discriminate.
Qed.

(** An object named twice: the second time the index leads to elements that have
    been erased. *)
Theorem flushOIDs_twice :
  (cache_run in_order select [CInsert (2048, 0) (demo_block 1); CFlushOIDs demo_extents [3000; 3000]]
    (FileBufferMgr_new 3 0 0 0)).1 = UB DanglingPointer.
Proof. vm_compute. reflexivity. Qed.
