(* ===== verification/ColumnScan.v ===== *)
(** * The scan of a column's block

    primitives/linux-port/column.cpp: [p_Col] reads a block of a column, tests
    each value against the filters of the request and writes the rows that pass.
    It also finds the smallest and the largest value of the block, which end up
    as the casual partitioning range of an extent.

    A request is its header's fields and the bytes that follow it.  Values are
    kept as the C++ variables hold them, signed or unsigned.  Doubles are
    compared through their bits, as IEEE 754 numbers. *)
From Stdlib Require Import ZArith Lia SpecFloat.
From stdpp Require Import sorting.
From S2P Require Import Prelude Bytes AutoIncrement.

Local Open Scope Z_scope.

(** ** Constants *)

Definition TINYINT : Z := 1.
Definition CHAR : Z := 2.
Definition SMALLINT : Z := 3.
Definition DECIMAL : Z := 4.
Definition INT : Z := 6.
Definition FLOAT : Z := 7.
Definition DATE : Z := 8.
Definition BIGINT : Z := 9.
Definition DOUBLE : Z := 10.
Definition DATETIME : Z := 11.
Definition VARCHAR : Z := 12.
Definition VARBINARY : Z := 13.
Definition UDECIMAL : Z := 18.
Definition UFLOAT : Z := 21.
Definition UDOUBLE : Z := 23.

Definition COMPARE_NIL : Z := 0x00.
Definition COMPARE_LT : Z := 0x01.
Definition COMPARE_EQ : Z := 0x02.
Definition COMPARE_LE : Z := 0x03.
Definition COMPARE_GT : Z := 0x04.
Definition COMPARE_NE : Z := 0x05.
Definition COMPARE_GE : Z := 0x06.
Definition COMPARE_NOT : Z := 0x08.
Definition COMPARE_LIKE : Z := 0x10.
Definition COMPARE_NLIKE : Z := 0x18.
Definition BOP_AND : Z := 1.
Definition BOP_OR : Z := 2.
Definition OT_RID : Z := 1.
Definition OT_TOKEN : Z := 2.
Definition OT_DATAVALUE : Z := 4.
Definition BLOCK_SIZE : Z := 8192.

(** [flags & bit] as a condition. *)
Definition has_bit (flags bit : Z) : bool := negb (bool_decide (Z.land flags bit = 0)).

(** ** Markers of a missing row and of NULL

    joblist/joblisttypes.h; [v] is the [W] bytes as an unsigned number. *)
Definition isEmptyVal (W type v : Z) : bool :=
  if decide (W = 8) then
    if decide (type = DOUBLE \/ type = UDOUBLE) then bool_decide (v = 0xFFFAAAAAAAAAAAAB)
    else if decide (type ∈ [CHAR; VARCHAR; DATE; DATETIME; VARBINARY; UBIGINT]) then bool_decide (v = 0xFFFFFFFFFFFFFFFF)
    else bool_decide (v = 0x8000000000000001)
  else if decide (W = 4) then
    if decide (type = FLOAT \/ type = UFLOAT) then bool_decide (v = 0xFFAAAAAB)
    else if decide (type ∈ [CHAR; VARCHAR; DATE; DATETIME; UINT]) then bool_decide (v = 0xFFFFFFFF)
    else bool_decide (v = 0x80000001)
  else if decide (W = 2) then
    if decide (type ∈ [CHAR; VARCHAR; DATE; DATETIME; USMALLINT]) then bool_decide (v = 0xFFFF)
    else bool_decide (v = 0x8001)
  else
    if decide (type ∈ [CHAR; VARCHAR; DATE; DATETIME; UTINYINT]) then bool_decide (v = 0xFF)
    else bool_decide (v = 0x81).

Definition isNullVal (W type v : Z) : bool :=
  if decide (W = 8) then
    if decide (type = DOUBLE \/ type = UDOUBLE) then bool_decide (v = 0xFFFAAAAAAAAAAAAA)
    else if decide (type ∈ [CHAR; VARCHAR; DATE; DATETIME; VARBINARY])
    then bool_decide (v = 0xFEFFFFFFFFFFFFFF) || bool_decide (v = 0xFFFFFFFFFFFFFFFE)
    else if decide (type = UBIGINT) then bool_decide (v = 0xFFFFFFFFFFFFFFFE)
    else bool_decide (v = 0x8000000000000000)
  else if decide (W = 4) then
    if decide (type = FLOAT \/ type = UFLOAT) then bool_decide (v = 0xFFAAAAAA)
    else if decide (type = CHAR \/ type = VARCHAR) then bool_decide (v = 0xFEFFFFFF)
    else if decide (type ∈ [DATE; DATETIME; UINT]) then bool_decide (v = 0xFFFFFFFE)
    else bool_decide (v = 0x80000000)
  else if decide (W = 2) then
    if decide (type ∈ [CHAR; VARCHAR; DATE; DATETIME]) then bool_decide (v = 0xFEFF)
    else if decide (type = USMALLINT) then bool_decide (v = 0xFFFE)
    else bool_decide (v = 0x8000)
  else if decide (W = 1) then
    if decide (type ∈ [CHAR; VARCHAR; DATE; DATETIME; UTINYINT]) then bool_decide (v = 0xFE)
    else bool_decide (v = 0x80)
  else false.

(** ** Values *)

(** The last [W] bytes of an integer variable. *)
Definition low_bytes (W x : Z) : Z := x mod 2 ^ (8 * W).
(** A [W]-byte pattern read as [intW_t]. *)
Definition sign_ext (W v : Z) : Z := if decide (2 ^ (8 * W - 1) <= v) then v - 2 ^ (8 * W) else v.
(** ... or as the type of the column. *)
Definition widen (unsigned : bool) (W v : Z) : Z := if unsigned then v else sign_ext W v.

Definition order_swap (x : Z) : Z :=
  Z.lor (Z.shiftr x 56)
  (Z.lor (Z.land (u64 (Z.shiftl x 40)) 0x00FF000000000000)
  (Z.lor (Z.land (u64 (Z.shiftl x 24)) 0x0000FF0000000000)
  (Z.lor (Z.land (u64 (Z.shiftl x 8)) 0x000000FF00000000)
  (Z.lor (Z.land (Z.shiftr x 8) 0x00000000FF000000)
  (Z.lor (Z.land (Z.shiftr x 24) 0x0000000000FF0000)
  (Z.lor (Z.land (Z.shiftr x 40) 0x000000000000FF00)
         (u64 (Z.shiftl x 56)))))))).

(** A number of [mw] mantissa bits and [ew] exponent bits. *)
Definition float_of (ew mw b : Z) : spec_float :=
  let s := bool_decide (2 ^ (ew + mw) <= b) in
  let e := (b / 2 ^ mw) mod 2 ^ ew in
  let m := b mod 2 ^ mw in
  let bias := 2 ^ (ew - 1) - 1 in
  if decide (e = 2 ^ ew - 1) then (if decide (m = 0) then S754_infinity s else S754_nan)
  else if decide (e = 0) then (if decide (m = 0) then S754_zero s else S754_finite s (Z.to_pos m) (1 - bias - mw))
  else S754_finite s (Z.to_pos (m + 2 ^ mw)) (e - bias - mw).
Definition float32 (v : Z) : spec_float := float_of 8 23 (low_bytes 4 v).
Definition float64 (v : Z) : spec_float := float_of 11 52 (low_bytes 8 v).

(** ** Comparisons *)

(** [colCompare_] of doubles. *)
Definition colCompare_float (x y : spec_float) (COP : Z) : bool :=
  if decide (COP = COMPARE_LT) then SFltb x y
  else if decide (COP = COMPARE_EQ) then SFeqb x y
  else if decide (COP = COMPARE_LE) then SFleb x y
  else if decide (COP = COMPARE_GT) then SFltb y x
  else if decide (COP = COMPARE_NE) then negb (SFeqb x y)
  else if decide (COP = COMPARE_GE) then SFleb y x
  else false.

(** [colCompare_] of integers without a rounding flag. *)
Definition colCompare_int (x y COP : Z) : bool :=
  if decide (COP = COMPARE_LT) then bool_decide (x < y)
  else if decide (COP = COMPARE_EQ) then bool_decide (x = y)
  else if decide (COP = COMPARE_LE) then bool_decide (x <= y)
  else if decide (COP = COMPARE_GT) then bool_decide (x > y)
  else if decide (COP = COMPARE_NE) then bool_decide (x <> y)
  else if decide (COP = COMPARE_GE) then bool_decide (x >= y)
  else false.

(** ... and with one. *)
Definition colCompare_rf (x y COP rf : Z) : bool :=
  if decide (COP = COMPARE_LT) then bool_decide (x < y) || bool_decide (x = y) && has_bit rf 0x01
  else if decide (COP = COMPARE_LE) then bool_decide (x < y) || bool_decide (x = y) && negb (bool_decide (Z.lxor rf 0x80 = 0))
  else if decide (COP = COMPARE_EQ) then bool_decide (x = y) && bool_decide (rf = 0)
  else if decide (COP = COMPARE_NE) then bool_decide (x <> y) || negb (bool_decide (rf = 0))
  else if decide (COP = COMPARE_GE) then bool_decide (x > y) || bool_decide (x = y) && negb (bool_decide (Z.lxor rf 0x01 = 0))
  else if decide (COP = COMPARE_GT) then bool_decide (x > y) || bool_decide (x = y) && has_bit rf 0x80
  else false.

(** The characters of a C string. *)
Fixpoint cstr (bs : list Z) : list Z :=
  match bs with [] => [] | b :: bs' => if decide (b = 0) then [] else b :: cstr bs' end.

Section scan.
(** The C library's regular expressions: does the subject match the pattern? *)
Context (regexec : list Z -> list Z -> bool).

(** [colStrCompare_]; the arguments are in string order. *)
Definition colStrCompare_ (x y COP rf : Z) (regex : option (list Z)) : res bool :=
  if decide (COP = COMPARE_LT) then Ret (bool_decide (x < y) || bool_decide (x = y) && negb (bool_decide (rf = 0)))
  else if decide (COP = COMPARE_LE) then Ret (bool_decide (x <= y))
  else if decide (COP = COMPARE_EQ) then Ret (bool_decide (x = y) && bool_decide (rf = 0))
  else if decide (COP = COMPARE_NE) then Ret (bool_decide (x <> y) || negb (bool_decide (rf = 0)))
  else if decide (COP = COMPARE_GE) then Ret (bool_decide (x > y) || bool_decide (x = y) && bool_decide (rf = 0))
  else if decide (COP = COMPARE_GT) then Ret (bool_decide (x > y))
  else if decide (COP = COMPARE_LIKE \/ COP = COMPARE_NLIKE) then
    match regex with
    | None => UB Indeterminate (* regexec of a pattern that was never compiled *)
    | Some re =>
        let m := regexec re (cstr (le_bytes 8 (order_swap x))) in
        Ret (if has_bit COP COMPARE_NOT then negb m else m)
    end
  else Ret false.

(** [colCompare]; [regex] is [Some] when its [used] flag is set. *)
Definition colCompare (val1 val2 COP rf type width : Z) (regex : option (list Z)) (isNull : bool) : res bool :=
  if decide (COP = COMPARE_NIL) then Ret false
  else if negb isNull && (bool_decide (type = FLOAT) || bool_decide (type = DOUBLE)) then
    if decide (type = FLOAT) then Ret (colCompare_float (float32 val1) (float32 val2) COP)
    else Ret (colCompare_float (float64 val1) (float64 val2) COP)
  else if (bool_decide (type = CHAR) || bool_decide (type = VARCHAR)) && negb isNull then
    if bool_decide (regex = None) && bool_decide (rf = 0)
    then Ret (colCompare_int (order_swap (u64 val1)) (order_swap (u64 val2)) COP)
    else colStrCompare_ (order_swap (u64 val1)) (order_swap (u64 val2)) COP rf regex
  else
    let val2Null := isNullVal width type (low_bytes width val2) in
    Ret (if Bool.eqb isNull val2Null || val2Null && bool_decide (COP = COMPARE_NE)
         then colCompare_rf val1 val2 COP rf else false).

Definition colCompareUnsigned (val1 val2 COP rf type width : Z) (isNull : bool) : bool :=
  if decide (COP = COMPARE_NIL) then false
  else
    let val2Null := isNullVal width type (low_bytes width val2) in
    if Bool.eqb isNull val2Null || val2Null && bool_decide (COP = COMPARE_NE)
    then colCompare_rf val1 val2 COP rf else false.

(** ** Filters *)

Record col_filter := mkFilter { f_COP : Z; f_rf : Z; f_val : Z; f_regex : option (list Z) }.

(** [convertToRegexp]: the SQL pattern as an anchored regular expression. *)
Fixpoint regexp_body (str : list Z) : list Z :=
  match str with
  | [] => []
  | c :: str' =>
      if decide (c = 37) then 46 :: 42 :: regexp_body str'      (* % is .* *)
      else if decide (c = 95) then 46 :: regexp_body str'       (* _ is . *)
      else if decide (c ∈ [46; 42; 94; 36; 63; 43; 124; 91; 93; 123; 125; 40; 41]) then 92 :: c :: regexp_body str'
      else if decide (c = 92) then
        match str' with
        | d :: str'' =>
            if decide (d = 37 \/ d = 95) then d :: regexp_body str''
            else if decide (d = 92) then 92 :: 92 :: regexp_body str''
            else 92 :: 92 :: regexp_body str'
        | [] => [92; 92]
        end
      else c :: regexp_body str'
  end.
Definition convertToRegexp (str : list Z) : list Z := 94 :: regexp_body str ++ [36].

(** [convertToPDataValue]: an argument of less than eight bytes is taken as a C
    string in the eight bytes of its variable. *)
Definition convertToPDataValue (val W : Z) : res (list Z) :=
  let bs := le_bytes 8 val in
  if bool_decide (W = 8) || bool_decide (0 ∈ bs) then Ret (cstr bs) else UB OutOfBounds.

Definition bytes_at (l : list Z) (off n : Z) : res (list Z) :=
  if decide (0 <= off /\ 0 <= n /\ off + n <= Z.of_nat (length l))
  then Ret (take (Z.to_nat n) (drop (Z.to_nat off) l)) else UB OutOfBounds.

Section request.
Context (W type : Z).

Definition filterSize : Z := 1 + 1 + W.

(** Argument [i] of a list of filters; [likes]: LIKE is prepared for unsigned
    columns, too. *)
Definition parse_arg (likes : bool) (bytes : list Z) (i : Z) : res col_filter :=
  b ← bytes_at bytes (i * filterSize) filterSize;
  COP ← rd b 0; rf ← rd b 1;
  let val := widen (isUnsigned type) W (of_le (drop 2 b)) in
  if has_bit COMPARE_LIKE COP && (likes || negb (isUnsigned type)) then
    str ← convertToPDataValue val W; Ret (mkFilter COP rf val (Some (convertToRegexp str)))
  else Ret (mkFilter COP rf val None).

Fixpoint parse_args (likes : bool) (bytes : list Z) (is_ : list Z) : res (list col_filter) :=
  match is_ with
  | [] => Ret []
  | i :: is' => f ← parse_arg likes bytes i; fs ← parse_args likes bytes is'; Ret (f :: fs)
  end.

(** A filter parsed before the scan: arrays, or a set of values. *)
Inductive ParsedColumnFilter :=
  | TwoArrays (fs : list col_filter)
  | UnorderedSet (vals : gset Z).

(** One that rules the set out. *)
Definition not_for_set (BOP : Z) (f : col_filter) : bool :=
  bool_decide (BOP = BOP_OR) && negb (bool_decide (f_COP f = COMPARE_EQ))
  || bool_decide (BOP = BOP_AND) && negb (bool_decide (f_COP f = COMPARE_NE))
  || bool_decide (f_COP f = COMPARE_NIL).

Definition parseColumnFilter (filterString : list Z) (filterCount BOP : Z) : res (option ParsedColumnFilter) :=
  if decide (filterCount = 0) then Ret None
  else
    fs ← parse_args true filterString (seqZ 0 filterCount);
    if negb (bool_decide (filterCount = 1)) && negb (existsb (not_for_set BOP) fs)
    then Ret (Some (UnorderedSet (list_to_set ((fun f => s64 (f_val f)) <$> filter (fun f => f_rf f = 0) fs))))
    else Ret (Some (TwoArrays fs)).

(** ** Rows *)

(** The request; [body] is what follows the header. *)
Context (OutputType BOP NOPS NVALS sort_ : Z) (body : list Z).
(** The block, and how many values it is taken to have. *)
Context (block : list Z) (itemsPerBlk : Z).

Definition raw (rid : Z) : res Z := bs ← bytes_at block (rid * W) W; Ret (of_le bs).

Record row := mkRow { r_rid : Z; r_isNull : bool; r_isEmpty : bool; r_val : Z }.

(** [nextColValue] and [nextUnsignedColValue]: the next row of those left, and
    the ones behind it.  [skip]: missing rows are passed over. *)
Fixpoint nextColValue (skip : bool) (rids : list Z) : res (option (row * list Z)) :=
  match rids with
  | [] => Ret None
  | rid :: rids' =>
      v ← raw rid;
      if isEmptyVal W type v && skip then nextColValue skip rids'
      else Ret (Some (mkRow rid (isNullVal W type v) (isEmptyVal W type v) (widen (isUnsigned type) W v), rids'))
  end.

Record ColResult := mkOut { o_NVALS : Z; o_RidFlags : Z; o_Min : Z; o_Max : Z; o_bytes : list Z }.

Definition store (rid : Z) (o : ColResult) : res ColResult :=
  data ← (if has_bit OutputType OT_TOKEN || has_bit OutputType OT_DATAVALUE then bytes_at block (rid * W) W else Ret []);
  let withRid := has_bit OutputType OT_RID in
  Ret (mkOut (u16 (o_NVALS o + 1))
         (if withRid then (Z.lor (o_RidFlags o) (Z.shiftl 1 (Z.shiftr rid 10))) mod 256 else o_RidFlags o)
         (o_Min o) (o_Max o)
         (o_bytes o ++ (if withRid then le_bytes 2 rid else []) ++ data)).

(** The loop over the filters: is the row stored in it, and where does it stop? *)
Fixpoint filter_loop (fs : list col_filter) (is_ : list Z) (r : row) : res (bool * bool) :=
  match is_ with
  | [] => Ret (false, true)
  | i :: is' =>
      f ← rd fs i;
      cmp ← (if isUnsigned type
             then Ret (colCompareUnsigned (r_val r) (f_val f) (f_COP f) (f_rf f) type W (r_isNull r))
             else colCompare (r_val r) (f_val f) (f_COP f) (f_rf f) type W (f_regex f) (r_isNull r));
      if decide (NOPS = 1) then Ret (cmp, false)
      else if bool_decide (BOP = BOP_AND) && negb cmp then Ret (false, false)
      else if bool_decide (BOP = BOP_OR) && cmp then Ret (true, false)
      else filter_loop fs is' r
  end.

Definition row_passes (pf : ParsedColumnFilter) (r : row) : res bool :=
  match pf with
  | UnorderedSet vals =>
      Ret (negb (r_isNull r && bool_decide (BOP = BOP_AND)) &&
           (bool_decide (BOP = BOP_OR) && bool_decide (s64 (r_val r) ∈ vals)
            || bool_decide (BOP = BOP_AND) && negb (bool_decide (s64 (r_val r) ∈ vals))))
  | TwoArrays fs =>
      '(stored, atEnd) ← filter_loop fs (seqZ 0 NOPS) r;
      Ret (stored || (atEnd && bool_decide (BOP = BOP_AND) || bool_decide (NOPS = 0)))
  end.

Definition isMinMaxValid : bool :=
  bool_decide (NVALS = 0) &&
  (if decide (type = CHAR) then bool_decide (W < 9)
   else if decide (type = VARCHAR) then bool_decide (W < 8)
   else if decide (type ∈ [TINYINT; SMALLINT; INT; DATE; BIGINT; DATETIME; UTINYINT; USMALLINT; UINT; UBIGINT]) then true
   else if decide (type = DECIMAL \/ type = UDECIMAL) then bool_decide (W <= 8)
   else false).

(** [a] comes before [b] in the column. *)
Definition comes_before (a b : Z) : bool :=
  if (bool_decide (type = CHAR) || bool_decide (type = VARCHAR)) && bool_decide (1 < W)
  then bool_decide (order_swap (u64 a) < order_swap (u64 b))
  else if isUnsigned type then bool_decide (u64 a < u64 b)
  else bool_decide (a < b).

Definition first_range : Z * Z :=
  if isMinMaxValid then (if isUnsigned type then (-1, 0) else (2 ^ 63 - 1, - 2 ^ 63)) else (0, 0).

Definition update_range (r : row) (o : ColResult) : ColResult :=
  if isMinMaxValid && negb (r_isNull r) && negb (r_isEmpty r) then
    mkOut (o_NVALS o) (o_RidFlags o)
      (if comes_before (r_val r) (o_Min o) then s64 (r_val r) else o_Min o)
      (if comes_before (o_Max o) (r_val r) then s64 (r_val r) else o_Max o) (o_bytes o)
  else o.

Fixpoint scan_loop (fuel : nat) (skip : bool) (pf : ParsedColumnFilter) (rids : list Z) (o : ColResult) : res ColResult :=
  match fuel with
  | O => UB Diverges
  | S fuel' =>
      n ← nextColValue skip rids;
      match n with
      | None => Ret o
      | Some (r, rids') =>
          pass ← row_passes pf r;
          o' ← (if pass : bool then store (r_rid r) o else Ret o);
          scan_loop fuel' skip pf rids' (update_range r o')
      end
  end.

(** The rows asked for behind the filters. *)
Fixpoint get_rids (n : nat) (off : Z) : res (list Z) :=
  match n with
  | O => Ret []
  | S n' => b ← bytes_at body off 2; rs ← get_rids n' (off + 2); Ret (of_le b :: rs)
  end.

(** Which rows are looked at, and whether missing ones are passed over. *)
Definition rows_asked : res (bool * list Z) :=
  if decide (0 < NVALS) then
    rs ← get_rids (Z.to_nat NVALS) (NOPS * filterSize);
    Ret (true, if decide (sort_ = 1) then merge_sort Z.le rs else rs)
  else Ret (has_bit OutputType OT_RID, seqZ 0 itemsPerBlk).

Definition p_Col_ridArray (parsed : option ParsedColumnFilter) : res ColResult :=
  rids ← rows_asked;
  pf ← match parsed with
       | Some pf => Ret pf
       | None => fs ← parse_args false body (seqZ 0 NOPS); Ret (TwoArrays fs)
       end;
  scan_loop (S (length rids.2)) rids.1 pf rids.2 (mkOut 0 0 first_range.1 first_range.2 []).
End request.
End scan.

(** [p_Col]; [logicalBlockMode]: the block is a whole run of 8192 values. *)
Definition p_Col (regexec : list Z -> list Z -> bool) (logicalBlockMode : bool)
    (W type OutputType BOP NOPS NVALS sort_ : Z) (body block : list Z) (parsed : option ParsedColumnFilter)
    : res ColResult :=
  if negb logicalBlockMode && bool_decide (W = 0) then UB DivisionByZero
  else if decide (W ∈ [8; 4; 2; 1]) then
    p_Col_ridArray regexec W type OutputType BOP NOPS NVALS sort_ body block
      (if logicalBlockMode then BLOCK_SIZE else BLOCK_SIZE / W) parsed
  else Throw (ERYDBExcept ERR_ASSERTION_FAILURE).
