(* ===== verification/ColumnScanProofs.v ===== *)
(** * Properties of the scan of a block *)
From Stdlib Require Import ZArith Lia SpecFloat.
From stdpp Require Import sorting.
From S2P Require Import Prelude Bytes AutoIncrement ColumnScan.

Local Open Scope Z_scope.

(** ** Values *)

Definition is_width (W : Z) : Prop := W ∈ [8; 4; 2; 1].
Definition is_byte (b : Z) : Prop := 0 <= b < 256.

Lemma is_width_cases W : is_width W -> W = 8 \/ W = 4 \/ W = 2 \/ W = 1.
Proof. unfold is_width. set_solver. Qed.

Lemma of_le_range bs : Forall is_byte bs -> 0 <= of_le bs < 2 ^ (8 * Z.of_nat (length bs)).
Proof.
  induction bs as [|b bs IH]; intros H; cbn [of_le length]; [done|]. apply Forall_cons in H as [Hb H]. specialize (IH H).
  replace (8 * Z.of_nat (S (length bs))) with (8 + 8 * Z.of_nat (length bs)) by lia. rewrite Z.pow_add_r by lia.
  unfold is_byte in Hb. nia.
Qed.

Lemma bytes_at_spec l off n : Forall is_byte l -> 0 <= off -> 0 <= n -> off + n <= Z.of_nat (length l) ->
  exists bs, bytes_at l off n = Ret bs /\ Z.of_nat (length bs) = n /\ Forall is_byte bs.
Proof.
  intros Hl Ho Hn Hfit. unfold bytes_at. rewrite decide_True by lia. eexists. split; [done|]. split.
  - rewrite length_take, length_drop. lia.
  - by apply Forall_take, Forall_drop.
Qed.

Section values.
Context (u : bool) (W : Z).
Hypothesis HW : is_width W.

Lemma widen_low v : 0 <= v < 2 ^ (8 * W) -> low_bytes W (widen u W v) = v.
Proof.
  intros Hv. unfold low_bytes, widen, sign_ext. destruct u; [by apply Z.mod_small|].
  destruct (decide _) as [H|H]; [|by apply Z.mod_small].
  rewrite <- (Z_mod_plus_full (v - 2 ^ (8 * W)) 1 (2 ^ (8 * W))).
  replace (v - 2 ^ (8 * W) + 1 * 2 ^ (8 * W)) with v by lia. by apply Z.mod_small.
Qed.

Lemma widen_inj v w : 0 <= v < 2 ^ (8 * W) -> 0 <= w < 2 ^ (8 * W) -> widen u W v = widen u W w -> v = w.
Proof. intros Hv Hw H. apply (f_equal (low_bytes W)) in H. by rewrite !widen_low in H. Qed.

Lemma widen_range v : 0 <= v < 2 ^ (8 * W) -> - 2 ^ 63 <= widen u W v < 2 ^ 64.
Proof.
  intros Hv. unfold widen, sign_ext. apply is_width_cases in HW as [->|[->|[->| ->]]]; cbn in *;
    destruct u; try destruct (decide _); lia.
Qed.
End values.

Lemma widen_signed W v : is_width W -> 0 <= v < 2 ^ (8 * W) -> - 2 ^ 63 <= widen false W v < 2 ^ 63.
Proof.
  intros HW Hv. unfold widen, sign_ext. apply is_width_cases in HW as [->|[->|[->| ->]]]; cbn in *;
    destruct (decide _); lia.
Qed.

Lemma u64_s64 x : u64 (s64 x) = u64 x.
Proof.
  unfold u64, s64. rewrite Zminus_mod, Z.mod_mod, <- Zminus_mod by lia. f_equal. lia.
Qed.
Lemma s64_u64 x : s64 (u64 x) = s64 x.
Proof. unfold u64, s64. rewrite Zplus_mod_idemp_l. done. Qed.
Lemma u64_inj u W v w : is_width W -> 0 <= v < 2 ^ (8 * W) -> 0 <= w < 2 ^ (8 * W) ->
  u64 (widen u W v) = u64 (widen u W w) -> v = w.
Proof.
  intros HW Hv Hw H. apply (widen_inj u W); [done..|].
  destruct u.
  - assert (Hle : 2 ^ (8 * W) <= 2 ^ 64) by (apply is_width_cases in HW as [->|[->|[->| ->]]]; done).
    unfold u64 in H. cbn [widen] in *. rewrite !Z.mod_small in H by lia. exact H.
  - apply (f_equal s64) in H. rewrite !s64_u64 in H.
    pose proof (widen_signed W v HW Hv). pose proof (widen_signed W w HW Hw). by rewrite !s64_id in H.
Qed.

(** [order_swap] reverses the bytes. *)
Definition mirror (n : Z) : Z := 8 * (7 - n / 8) + n mod 8.

Lemma u64_testbit x n : 0 <= n < 64 -> Z.testbit (u64 x) n = Z.testbit x n.
Proof. intros H. unfold u64. apply Z.mod_pow2_bits_low. lia. Qed.

Lemma high_testbit x n : 0 <= x < 2 ^ 64 -> 64 <= n -> Z.testbit x n = false.
Proof.
  intros Hx Hn. rewrite <- (Z.mod_small x (2 ^ 64)) by done. apply Z.mod_pow2_bits_high. lia.
Qed.

Lemma order_swap_bit x n : 0 <= x < 2 ^ 64 -> 0 <= n < 64 -> Z.testbit (order_swap x) (mirror n) = Z.testbit x n.
Proof.
  intros Hx Hn.
  assert (Hcases : exists k j, n = 8 * k + j /\ (k = 0 \/ k = 1 \/ k = 2 \/ k = 3 \/ k = 4 \/ k = 5 \/ k = 6 \/ k = 7) /\
    (j = 0 \/ j = 1 \/ j = 2 \/ j = 3 \/ j = 4 \/ j = 5 \/ j = 6 \/ j = 7)).
  { exists (n / 8), (n mod 8). pose proof (Z.div_mod n 8). pose proof (Z.mod_pos_bound n 8).
    assert (0 <= n / 8 < 8) by (split; [apply Z.div_pos; lia|apply Z.div_lt_upper_bound; lia]). lia. }
  destruct Hcases as (k & j & -> & Hk & Hj). clear Hn.
  unfold order_swap.
  repeat destruct Hk as [->|Hk]; try subst k;
  repeat destruct Hj as [->|Hj]; try subst j;
  match goal with |- context [mirror ?e] => let v := eval vm_compute in (mirror e) in change (mirror e) with v end;
  rewrite !Z.lor_spec, !Z.land_spec, !u64_testbit, !Z.shiftr_spec, !Z.shiftl_spec by lia;
  repeat match goal with |- context [Z.testbit (Zpos ?c) ?m] =>
    let b := eval vm_compute in (Z.testbit (Zpos c) m) in change (Z.testbit (Zpos c) m) with b end;
  rewrite ?andb_false_r, ?andb_true_r, ?orb_false_l, ?orb_false_r; cbn -[Z.testbit]; 
  rewrite ?(Z.testbit_neg_r x) by lia; rewrite ?(high_testbit x) by (done || lia); rewrite ?orb_false_r; try reflexivity.
Qed.

Lemma order_swap_inj x y : 0 <= x < 2 ^ 64 -> 0 <= y < 2 ^ 64 -> order_swap x = order_swap y -> x = y.
Proof.
  intros Hx Hy H. apply Z.bits_inj'. intros n Hn. destruct (decide (n < 64)) as [Hlt|Hge].
  - by rewrite <- (order_swap_bit x n), <- (order_swap_bit y n), H by lia.
  - by rewrite !high_testbit by lia.
Qed.


(** ** The loop over the filters *)

Lemma forallb_fmap {A} (p : A -> bool) l : forallb id (p <$> l) = forallb p l.
Proof. induction l as [|x l IH]; cbn; [done|by rewrite IH]. Qed.
Lemma existsb_fmap {A} (p : A -> bool) l : existsb id (p <$> l) = existsb p l.
Proof. induction l as [|x l IH]; cbn; [done|by rewrite IH]. Qed.
Lemma existsb_In {A} (p : A -> bool) l : existsb p l = true <-> exists x, x ∈ l /\ p x = true.
Proof. rewrite existsb_exists. by setoid_rewrite list_elem_of_In. Qed.
Lemma forallb_In {A} (p : A -> bool) l : forallb p l = true <-> forall x, x ∈ l -> p x = true.
Proof. rewrite forallb_forall. by setoid_rewrite list_elem_of_In. Qed.

Section filters.
Context (regexec : list Z -> list Z -> bool) (W type BOP NOPS : Z).

(** What the loop computes of one filter. *)
Definition cmp_filter (r : row) (f : col_filter) : res bool :=
  if isUnsigned type then Ret (colCompareUnsigned (r_val r) (f_val f) (f_COP f) (f_rf f) type W (r_isNull r))
  else colCompare regexec (r_val r) (f_val f) (f_COP f) (f_rf f) type W (f_regex f) (r_isNull r).

(** The results of the filters put together. *)
Definition combine_cmps (bs : list bool) : bool :=
  match bs with
  | [] => true
  | [b] => b
  | _ => if decide (BOP = BOP_AND) then forallb id bs else if decide (BOP = BOP_OR) then existsb id bs else false
  end.

Lemma combine_many bs : (2 <= length bs)%nat ->
  combine_cmps bs = if decide (BOP = BOP_AND) then forallb id bs else if decide (BOP = BOP_OR) then existsb id bs else false.
Proof. destruct bs as [|? [|? ?]]; cbn; [lia..|done]. Qed.

Lemma filter_loop_many (b : col_filter -> bool) r fs : NOPS <> 1 -> forall pre,
  Forall (fun f => cmp_filter r f = Ret (b f)) fs ->
  filter_loop regexec W type BOP NOPS (pre ++ fs) (seqZ (Z.of_nat (length pre)) (Z.of_nat (length fs))) r =
  Ret (if decide (BOP = BOP_AND) then (false, forallb b fs)
       else if decide (BOP = BOP_OR) then (existsb b fs, negb (existsb b fs)) else (false, true)).
Proof.
  intros Hn. induction fs as [|f fs IH]; intros pre Hb.
  { cbn. by destruct (decide (BOP = BOP_AND)), (decide (BOP = BOP_OR)). }
  apply Forall_cons in Hb as [Hf Hb]. rewrite seqZ_cons by (cbn; lia). cbn [filter_loop].
  rewrite (rd_nat _ _ f) by (by apply list_lookup_middle). cbn [mbind res_bind].
  fold (cmp_filter r f). rewrite Hf. cbn [mbind res_bind]. rewrite decide_False by done.
  specialize (IH (pre ++ [f])). rewrite <- app_assoc, length_app in IH. cbn [app length] in IH.
  replace (Z.of_nat (length pre + 1)) with (Z.succ (Z.of_nat (length pre))) in IH by lia.
  replace (Z.pred (Z.of_nat (length (f :: fs)))) with (Z.of_nat (length fs)) by (cbn; lia).
  rewrite IH by done. cbn [forallb existsb].
  destruct (decide (BOP = BOP_AND)) as [->|Ha]; cbn; [by destruct (b f)|].
  rewrite (bool_decide_false (BOP = BOP_AND)) by done. cbn.
  destruct (decide (BOP = BOP_OR)) as [->|Ho]; cbn; [by destruct (b f)|]. by rewrite (bool_decide_false (BOP = BOP_OR)).
Qed.

Lemma row_passes_arrays (b : col_filter -> bool) r fs : NOPS = Z.of_nat (length fs) ->
  Forall (fun f => cmp_filter r f = Ret (b f)) fs ->
  row_passes regexec W type BOP NOPS (TwoArrays fs) r = Ret (combine_cmps (b <$> fs)).
Proof.
  intros Hn Hb. unfold row_passes. destruct fs as [|f fs].
  { rewrite Hn. cbn. by destruct (bool_decide _). }
  destruct fs as [|f' fs].
  { apply Forall_cons in Hb as [Hf _]. rewrite Hn. change (seqZ 0 _) with [0]. cbn [filter_loop].
    change (rd [f] 0) with (Ret f). cbn [mbind res_bind]. fold (cmp_filter r f). rewrite Hf. cbn [mbind res_bind].
    rewrite decide_True by done. cbn. by rewrite !orb_false_r. }
  pose proof (filter_loop_many b r (f :: f' :: fs) ltac:(cbn in Hn; lia) [] Hb) as Hl.
  cbn [app] in Hl. change (Z.of_nat (length [])) with 0 in Hl. rewrite <- Hn in Hl. rewrite Hl. cbn [mbind res_bind].
  rewrite (bool_decide_false (NOPS = 0)) by (cbn in Hn; lia).
  unfold combine_cmps. cbn [fmap list_fmap].
  pose proof (forallb_fmap b (f :: f' :: fs)) as H1. pose proof (existsb_fmap b (f :: f' :: fs)) as H2.
  cbn [fmap list_fmap] in H1, H2. rewrite H1, H2.
  destruct (decide (BOP = BOP_AND)) as [->|Ha]; [rewrite bool_decide_true, andb_true_r, orb_false_r by done; done|].
  rewrite (bool_decide_false (BOP = BOP_AND)) by done.
  destruct (decide (BOP = BOP_OR)); [by rewrite andb_false_r, !orb_false_r|done].
Qed.
End filters.

(** ** Filters from a message *)

Section parsing.
Context (W type : Z).
Hypothesis HW : is_width W.

(** A filter whose argument is the byte pattern [a]. *)
Record fits (f : col_filter) (a : Z) : Prop := {
  ft_range : 0 <= a < 2 ^ (8 * W);
  ft_val : f_val f = widen (isUnsigned type) W a;
  ft_plain : has_bit COMPARE_LIKE (f_COP f) = false -> f_regex f = None;
  ft_like : isUnsigned type = false -> has_bit COMPARE_LIKE (f_COP f) = true -> f_regex f <> None;
}.

Lemma bytes_at_inv l off n bs : Forall is_byte l -> bytes_at l off n = Ret bs ->
  Z.of_nat (length bs) = n /\ Forall is_byte bs.
Proof.
  intros Hl. unfold bytes_at. destruct (decide _) as [H|]; [|done]. intros [= <-]. split.
  - rewrite length_take, length_drop. lia.
  - by apply Forall_take, Forall_drop.
Qed.

Lemma parse_arg_fits likes bytes i f : Forall is_byte bytes -> parse_arg W type likes bytes i = Ret f -> exists a, fits f a.
Proof.
  intros Hb. unfold parse_arg. destruct (bytes_at _ _ _) as [b| |] eqn:Eb; cbn [mbind res_bind]; [|done..].
  apply bytes_at_inv in Eb as [Hlen Hbs]; [|done].
  destruct (rd b 0) as [COP| |]; cbn [mbind res_bind]; [|done..].
  destruct (rd b 1) as [rf| |]; cbn [mbind res_bind]; [|done..].
  assert (Hr : 0 <= of_le (drop 2 b) < 2 ^ (8 * W)).
  { pose proof (of_le_range (drop 2 b)) as Hr. rewrite length_drop in Hr. unfold filterSize in Hlen.
    replace (Z.of_nat (length b - 2)) with W in Hr by (apply is_width_cases in HW; lia). apply Hr. by apply Forall_drop. }
  destruct (has_bit COMPARE_LIKE COP) eqn:El; cbn [andb].
  - destruct (likes || negb (isUnsigned type)) eqn:Eu.
    + destruct (convertToPDataValue _ _) as [str| |]; cbn [mbind res_bind]; [|done..]. intros [= <-].
      eexists. split; cbn; [exact Hr|done|congruence|done].
    + intros [= <-]. eexists. split; cbn; [exact Hr|done|done|]. intros Hu. rewrite Hu in Eu. by rewrite orb_true_r in Eu.
  - intros [= <-]. eexists. split; cbn; [exact Hr|done|done|congruence].
Qed.

Lemma parse_args_fits likes bytes is_ : Forall is_byte bytes -> forall fs, parse_args W type likes bytes is_ = Ret fs ->
  length fs = length is_ /\ Forall (fun f => exists a, fits f a) fs.
Proof.
  intros Hb. induction is_ as [|i is_ IH]; intros fs; cbn [parse_args]; [by intros [= <-]|].
  destruct (parse_arg _ _ _ _ _) as [f| |] eqn:Ef; cbn [mbind res_bind]; [|done..].
  destruct (parse_args _ _ _ _ _) as [fs'| |]; cbn [mbind res_bind]; [|done..]. intros [= <-].
  destruct (IH fs' eq_refl) as [Hl Hf]. split; [cbn; lia|]. constructor; [by eapply parse_arg_fits|done].
Qed.

(** The row of the byte pattern [v]. *)
Definition row_of (rid v : Z) : row :=
  mkRow rid (isNullVal W type v) (isEmptyVal W type v) (widen (isUnsigned type) W v).

Context (regexec : list Z -> list Z -> bool).

Lemma swap_eq v a : 0 <= v < 2 ^ (8 * W) -> 0 <= a < 2 ^ (8 * W) ->
  order_swap (u64 (widen (isUnsigned type) W v)) = order_swap (u64 (widen (isUnsigned type) W a)) <-> v = a.
Proof.
  intros Hv Ha. split; [|by intros ->]. intros H. apply order_swap_inj in H; [|apply u64_range..]. by apply u64_inj in H.
Qed.
Lemma widen_eq v a : 0 <= v < 2 ^ (8 * W) -> 0 <= a < 2 ^ (8 * W) ->
  widen (isUnsigned type) W v = widen (isUnsigned type) W a <-> v = a.
Proof. intros Hv Ha. split; [by apply widen_inj|by intros ->]. Qed.

Hypothesis Hfloat : type <> FLOAT /\ type <> DOUBLE.

(** The comparison for equality is one of byte patterns. *)
Lemma cmp_filter_eq f a rid v : fits f a -> 0 <= v < 2 ^ (8 * W) -> f_COP f = COMPARE_EQ ->
  cmp_filter regexec W type (row_of rid v) f = Ret (bool_decide (v = a) && bool_decide (f_rf f = 0)).
Proof.
  intros [Ha Hval Hplain _] Hv Hc. rewrite Hc in Hplain. unfold cmp_filter, row_of. cbn [r_val r_isNull].
  assert (Hgen : (if Bool.eqb (isNullVal W type v) (isNullVal W type (low_bytes W (f_val f)))
        || isNullVal W type (low_bytes W (f_val f)) && bool_decide (f_COP f = COMPARE_NE)
      then colCompare_rf (widen (isUnsigned type) W v) (f_val f) (f_COP f) (f_rf f) else false) =
      bool_decide (v = a) && bool_decide (f_rf f = 0)).
  { rewrite Hval, widen_low, Hc by done. rewrite (bool_decide_false (COMPARE_EQ = COMPARE_NE)) by done.
    rewrite andb_false_r, orb_false_r. change (colCompare_rf ?x ?y COMPARE_EQ ?r) with (bool_decide (x = y) && bool_decide (r = 0)).
    rewrite (bool_decide_ext _ _ (widen_eq v a Hv Ha)).
    destruct (decide (v = a)) as [->|Hne]; [by rewrite eqb_reflx|]. rewrite (bool_decide_false (v = a)) by done.
    by destruct (Bool.eqb _ _). }
  destruct (isUnsigned type) eqn:Eu.
  - unfold colCompareUnsigned. rewrite (decide_False (P := f_COP f = COMPARE_NIL)) by (by rewrite Hc). by rewrite Hgen.
  - unfold colCompare. rewrite (decide_False (P := f_COP f = COMPARE_NIL)) by (by rewrite Hc).
    rewrite (bool_decide_false (type = FLOAT)), (bool_decide_false (type = DOUBLE)) by apply Hfloat. rewrite andb_false_r.
    destruct ((bool_decide (type = CHAR) || bool_decide (type = VARCHAR)) && negb (isNullVal W type v)); [|by rewrite Hgen].
    rewrite Hplain by done. rewrite (bool_decide_true (None = None)) by done. rewrite Hval, Hc.
    pose proof (swap_eq v a Hv Ha) as Hs. rewrite Eu in Hs. destruct (bool_decide (f_rf f = 0)) eqn:Er; cbn [andb].
    + rewrite andb_true_r. change (colCompare_int ?x ?y COMPARE_EQ) with (bool_decide (x = y)). by rewrite (bool_decide_ext _ _ Hs).
    + rewrite andb_false_r. change (colStrCompare_ regexec ?x ?y COMPARE_EQ ?r ?re) with (Ret (bool_decide (x = y) && bool_decide (r = 0))).
      by rewrite Er, andb_false_r.
Qed.

Lemma cmp_filter_ne f a rid v : fits f a -> 0 <= v < 2 ^ (8 * W) -> f_COP f = COMPARE_NE ->
  cmp_filter regexec W type (row_of rid v) f =
  Ret (negb (isNullVal W type v && negb (isNullVal W type a)) && (bool_decide (v <> a) || negb (bool_decide (f_rf f = 0)))).
Proof.
  intros [Ha Hval Hplain _] Hv Hc. rewrite Hc in Hplain. unfold cmp_filter, row_of. cbn [r_val r_isNull].
  assert (Hgen : (if Bool.eqb (isNullVal W type v) (isNullVal W type (low_bytes W (f_val f)))
        || isNullVal W type (low_bytes W (f_val f)) && bool_decide (f_COP f = COMPARE_NE)
      then colCompare_rf (widen (isUnsigned type) W v) (f_val f) (f_COP f) (f_rf f) else false) =
      negb (isNullVal W type v && negb (isNullVal W type a)) && (bool_decide (v <> a) || negb (bool_decide (f_rf f = 0)))).
  { rewrite Hval, widen_low, Hc by done. rewrite (bool_decide_true (COMPARE_NE = COMPARE_NE)), andb_true_r by done.
    change (colCompare_rf ?x ?y COMPARE_NE ?r) with (bool_decide (x <> y) || negb (bool_decide (r = 0))).
    rewrite (bool_decide_ext _ _ (not_iff_compat (widen_eq v a Hv Ha))).
    by destruct (isNullVal W type v), (isNullVal W type a). }
  destruct (isUnsigned type) eqn:Eu.
  - unfold colCompareUnsigned. rewrite (decide_False (P := f_COP f = COMPARE_NIL)) by (by rewrite Hc). by rewrite Hgen.
  - unfold colCompare. rewrite (decide_False (P := f_COP f = COMPARE_NIL)) by (by rewrite Hc).
    rewrite (bool_decide_false (type = FLOAT)), (bool_decide_false (type = DOUBLE)) by apply Hfloat. rewrite andb_false_r.
    destruct (isNullVal W type v) eqn:En; cbn [negb andb]; [rewrite andb_false_r, Hgen; done|]. rewrite andb_true_r.
    destruct (bool_decide (type = CHAR) || bool_decide (type = VARCHAR)); [|by rewrite Hgen].
    rewrite Hplain by done. rewrite (bool_decide_true (None = None)) by done. rewrite Hval, Hc.
    pose proof (swap_eq v a Hv Ha) as Hs. rewrite Eu in Hs. destruct (bool_decide (f_rf f = 0)) eqn:Er; cbn [andb negb].
    + rewrite orb_false_r. change (colCompare_int ?x ?y COMPARE_NE) with (bool_decide (x <> y)).
      by rewrite (bool_decide_ext _ _ (not_iff_compat Hs)).
    + rewrite orb_true_r. change (colStrCompare_ regexec ?x ?y COMPARE_NE ?r ?re) with (Ret (bool_decide (x <> y) || negb (bool_decide (r = 0)))).
      by rewrite Er, orb_true_r.
Qed.
End parsing.

(** ** The set and the arrays *)

Section modes.
Context (regexec : list Z -> list Z -> bool) (W type BOP : Z) (fs : list col_filter).
Hypothesis HW : is_width W.
Hypothesis Hfloat : type <> FLOAT /\ type <> DOUBLE.
Hypothesis Hfits : Forall (fun f => exists a, fits W type f a) fs.

Definition arg_bytes (f : col_filter) : Z := low_bytes W (f_val f).

Lemma fits_arg f a : fits W type f a -> arg_bytes f = a.
Proof. intros [Ha Hv _ _]. unfold arg_bytes. rewrite Hv. by apply widen_low. Qed.

Lemma colStr_total x y COP rf re : (has_bit COMPARE_LIKE COP = true -> re <> None) ->
  exists b, colStrCompare_ regexec x y COP rf re = Ret b.
Proof.
  intros H. unfold colStrCompare_. repeat (case_decide; [by eexists|]). case_decide as Hl; [|by eexists].
  destruct re; [by eexists|]. exfalso. apply H; [|done]. by destruct Hl as [->| ->].
Qed.

Lemma cmp_filter_total f a r : fits W type f a -> exists b, cmp_filter regexec W type r f = Ret b.
Proof.
  intros [_ _ _ Hl]. unfold cmp_filter. destruct (isUnsigned type); [by eexists|]. unfold colCompare.
  repeat case_match; try (by eexists). apply colStr_total. by apply Hl.
Qed.

Definition set_of : gset Z := list_to_set ((fun f => s64 (f_val f)) <$> filter (fun f => f_rf f = 0) fs).

Lemma in_set v : 0 <= v < 2 ^ (8 * W) ->
  s64 (widen (isUnsigned type) W v) ∈ set_of <-> exists f, f ∈ fs /\ f_rf f = 0 /\ arg_bytes f = v.
Proof.
  intros Hv. unfold set_of. rewrite elem_of_list_to_set, list_elem_of_fmap. setoid_rewrite list_elem_of_filter.
  rewrite Forall_forall in Hfits. split.
  - intros (f & Hs & Hrf & Hf). exists f. split; [done|]. split; [done|]. destruct (Hfits f Hf) as [a Ha].
    rewrite (fits_arg f a Ha). destruct Ha as [Hr Hval _ _]. rewrite Hval in Hs.
    apply (f_equal u64) in Hs. rewrite !u64_s64 in Hs. by apply u64_inj in Hs.
  - intros (f & Hf & Hrf & Heq). exists f. split; [|done]. destruct (Hfits f Hf) as [a Ha].
    rewrite (fits_arg f a Ha) in Heq. subst a. by rewrite (ft_val _ _ _ _ Ha).
Qed.

(** Equality with one of the arguments. *)
Definition equals_one (v : Z) : bool := existsb (fun f => bool_decide (v = arg_bytes f) && bool_decide (f_rf f = 0)) fs.

Lemma in_set_bool v : 0 <= v < 2 ^ (8 * W) -> bool_decide (s64 (widen (isUnsigned type) W v) ∈ set_of) = equals_one v.
Proof.
  intros Hv. destruct (equals_one v) eqn:E.
  - apply bool_decide_true, in_set; [done|]. apply existsb_In in E as (f & Hf & [H1%bool_decide_eq_true H2%bool_decide_eq_true]%andb_true_iff). eauto.
  - apply bool_decide_false. rewrite in_set by done. intros (f & Hf & Hrf & <-). apply not_true_iff_false in E. apply E, existsb_In.
    exists f. by rewrite !bool_decide_true.
Qed.

Lemma set_row rid v : (2 <= length fs)%nat -> existsb (not_for_set BOP) fs = false -> 0 <= v < 2 ^ (8 * W) ->
  (BOP = BOP_AND -> Exists (fun f => isNullVal W type (arg_bytes f) = false) fs) ->
  row_passes regexec W type BOP (Z.of_nat (length fs)) (UnorderedSet set_of) (row_of W type rid v) =
  row_passes regexec W type BOP (Z.of_nat (length fs)) (TwoArrays fs) (row_of W type rid v).
Proof.
  intros Hlen Hset Hv Hnull. pose proof Hfits as Hft. rewrite Forall_forall in Hft.
  assert (Hcop : forall f, f ∈ fs -> (BOP = BOP_OR -> f_COP f = COMPARE_EQ) /\ (BOP = BOP_AND -> f_COP f = COMPARE_NE)).
  { intros f Hf. assert (Hn : not_for_set BOP f = false).
    { apply not_true_iff_false. intros Ht. apply not_true_iff_false in Hset. apply Hset, existsb_In. eauto. }
    unfold not_for_set in Hn. apply orb_false_iff in Hn as [[H1 H2]%orb_false_iff _].
    split; intros ->.
    - rewrite bool_decide_true in H1 by done. cbn in H1. by apply negb_false_iff, bool_decide_eq_true in H1.
    - rewrite bool_decide_true in H2 by done. cbn in H2. by apply negb_false_iff, bool_decide_eq_true in H2. }
  assert (Hmany : forall b : col_filter -> bool, combine_cmps BOP (b <$> fs) =
    if decide (BOP = BOP_AND) then forallb b fs else if decide (BOP = BOP_OR) then existsb b fs else false).
  { intros b. rewrite combine_many, forallb_fmap, existsb_fmap by (by rewrite length_fmap). done. }
  unfold row_passes at 1. cbn [r_val r_isNull row_of]. rewrite in_set_bool by done.
  destruct (decide (BOP = BOP_OR)) as [Hor|Hor]; [|destruct (decide (BOP = BOP_AND)) as [Hand|Hand]].
  - rewrite (row_passes_arrays regexec W type BOP _ (fun f => bool_decide (v = arg_bytes f) && bool_decide (f_rf f = 0))), Hmany; [|done|].
    2: { apply Forall_forall. intros f Hf. destruct (Hft f Hf) as [a Ha]. rewrite (fits_arg f a Ha).
         apply cmp_filter_eq; [done..|]. by apply Hcop. }
    subst BOP. cbn -[isNullVal]. rewrite andb_false_r. cbn. by rewrite orb_false_r.
  - rewrite (row_passes_arrays regexec W type BOP _ (fun f => negb (isNullVal W type v && negb (isNullVal W type (arg_bytes f)))
      && (bool_decide (v <> arg_bytes f) || negb (bool_decide (f_rf f = 0))))), Hmany; [|done|].
    2: { apply Forall_forall. intros f Hf. destruct (Hft f Hf) as [a Ha]. rewrite (fits_arg f a Ha).
         apply cmp_filter_ne; [done..|]. by apply Hcop. }
    subst BOP. rewrite (bool_decide_false (BOP_AND = BOP_OR)), (bool_decide_true (BOP_AND = BOP_AND)) by done.
    cbn [andb orb]. rewrite andb_true_r. f_equal. apply eq_true_iff_eq.
    rewrite forallb_In, andb_true_iff, !negb_true_iff. specialize (Hnull eq_refl). apply Exists_exists in Hnull as (f0 & Hf0 & Hn0).
    split.
    + intros [Hn He] f Hf. rewrite Hn. cbn [andb negb]. destruct (bool_decide (v <> arg_bytes f)) eqn:Ev; [done|].
      apply bool_decide_eq_false, dec_stable in Ev. cbn. apply negb_true_iff, not_true_iff_false. intros Hrf.
      rewrite <- not_true_iff_false in He. apply He. unfold equals_one. apply existsb_In. exists f. rewrite Hrf, bool_decide_true by done. done.
    + intros H. split.
      * pose proof (H f0 Hf0) as H0. rewrite Hn0 in H0. by destruct (isNullVal W type v).
      * apply not_true_iff_false. intros (f & Hf & [Hv1%bool_decide_eq_true Hrf]%andb_true_iff)%existsb_In.
        specialize (H f Hf). rewrite Hrf, (bool_decide_false (v <> arg_bytes f)) in H by (by intros []).
        by rewrite andb_false_r in H.
  - rewrite (row_passes_arrays regexec W type BOP _
      (fun f => match cmp_filter regexec W type (row_of W type rid v) f with Ret b => b | _ => false end)), Hmany; [|done|].
    2: { apply Forall_forall. intros f Hf. destruct (Hft f Hf) as [a Ha].
         by destruct (cmp_filter_total f a (row_of W type rid v) Ha) as [b ->]. }
    rewrite (bool_decide_false (BOP = BOP_OR)), (bool_decide_false (BOP = BOP_AND)) by done.
    by rewrite !andb_false_r.
Qed.
End modes.

(** ** The rows of a block *)

Section rows.
Context (regexec : list Z -> list Z -> bool) (W type OutputType BOP NOPS NVALS : Z) (block : list Z).
Hypothesis HW : is_width W.
Hypothesis Hblock : Forall is_byte block.

Definition in_block (rid : Z) : Prop := 0 <= rid /\ (rid + 1) * W <= Z.of_nat (length block).
(** The bytes of a row, and their value. *)
Definition data_at (rid : Z) : list Z := take (Z.to_nat W) (drop (Z.to_nat (rid * W)) block).
Definition val_at (rid : Z) : Z := of_le (data_at rid).
Definition row_at (rid : Z) : row := row_of W type rid (val_at rid).

Lemma data_at_spec rid : in_block rid -> bytes_at block (rid * W) W = Ret (data_at rid) /\ 0 <= val_at rid < 2 ^ (8 * W).
Proof.
  intros [H0 Hr]. assert (HW0 : 0 < W) by (apply is_width_cases in HW; lia).
  assert (E : bytes_at block (rid * W) W = Ret (data_at rid)) by (unfold bytes_at; rewrite decide_True by lia; done).
  split; [done|]. apply bytes_at_inv in E as [Hl Hb]; [|done]. unfold val_at.
  pose proof (of_le_range (data_at rid) Hb) as H. by rewrite Hl in H.
Qed.

(** The rows a scan looks at. *)
Definition kept (skip : bool) (rids : list Z) : list row :=
  filter (fun r => r_isEmpty r && skip = false) (row_at <$> rids).

Lemma next_spec skip rids : Forall in_block rids ->
  match kept skip rids with
  | [] => nextColValue W type block skip rids = Ret None
  | r :: rest => exists rids', nextColValue W type block skip rids = Ret (Some (r, rids')) /\
      kept skip rids' = rest /\ Forall in_block rids' /\ (length rids' < length rids)%nat
  end.
Proof.
  induction rids as [|rid rids IH]; intros Hr; [done|]. apply Forall_cons in Hr as [Hrid Hr]. specialize (IH Hr).
  destruct (data_at_spec rid Hrid) as [Ed _]. cbn [nextColValue]. unfold raw. rewrite Ed. cbn [mbind res_bind].
  fold (val_at rid). unfold kept in *. rewrite fmap_cons.
  change (isEmptyVal W type (val_at rid)) with (r_isEmpty (row_at rid)).
  destruct (r_isEmpty (row_at rid) && skip) eqn:Es.
  - rewrite filter_cons_False by congruence.
    destruct (filter _ (row_at <$> rids)) as [|r rest]; [done|]. destruct IH as (rids' & E & Hk & Hin & Hl).
    exists rids'. split_and!; try done. cbn. lia.
  - rewrite filter_cons_True by done. exists rids. split; [done|]. split; [done|]. split; [done|cbn; lia].
Qed.

(** One row after the other. *)
Fixpoint run_rows (pf : ParsedColumnFilter) (rows : list row) (o : ColResult) : res ColResult :=
  match rows with
  | [] => Ret o
  | r :: rows' =>
      pass ← row_passes regexec W type BOP NOPS pf r;
      o' ← (if pass : bool then store W OutputType block (r_rid r) o else Ret o);
      run_rows pf rows' (update_range W type NVALS r o')
  end.

(** The loop ends, and has looked at every row. *)
Lemma scan_loop_rows skip pf fuel : forall rids o, Forall in_block rids -> (length rids < fuel)%nat ->
  scan_loop regexec W type OutputType BOP NOPS NVALS block fuel skip pf rids o = run_rows pf (kept skip rids) o.
Proof.
  induction fuel as [|fuel IH]; intros rids o Hr Hf; [lia|]. cbn [scan_loop]. pose proof (next_spec skip rids Hr) as Hn.
  destruct (kept skip rids) as [|r rest]; [by rewrite Hn|]. destruct Hn as (rids' & -> & <- & Hr' & Hl).
  cbn [mbind res_bind run_rows]. destruct (row_passes _ _ _ _ _ _ _) as [p| |]; cbn [mbind res_bind]; [|done..].
  destruct (if p : bool then _ else _) as [o'| |]; cbn [mbind res_bind]; [|done..]. apply IH; [done|lia].
Qed.

(** Filters that agree on every row give the same answer. *)
Lemma run_rows_ext pf pf' rows : Forall (fun r => row_passes regexec W type BOP NOPS pf r = row_passes regexec W type BOP NOPS pf' r) rows ->
  forall o, run_rows pf rows o = run_rows pf' rows o.
Proof.
  induction rows as [|r rows IH]; intros H o; [done|]. apply Forall_cons in H as [Hr H]. cbn [run_rows]. rewrite Hr.
  destruct (row_passes _ _ _ _ _ pf' r) as [p| |]; cbn [mbind res_bind]; [|done..].
  destruct (if p : bool then _ else _) as [o'| |]; cbn [mbind res_bind]; [|done..]. by apply IH.
Qed.

Lemma kept_rows skip rids : Forall in_block rids ->
  Forall (fun r => exists rid, r = row_at rid /\ in_block rid /\ rid ∈ rids /\ 0 <= val_at rid < 2 ^ (8 * W)) (kept skip rids).
Proof.
  intros Hr. apply Forall_forall. intros r [_ Hin]%list_elem_of_filter. apply list_elem_of_fmap in Hin as (rid & -> & Hin).
  rewrite Forall_forall in Hr. exists rid. split; [done|]. split; [auto|]. split; [done|]. by apply data_at_spec, Hr.
Qed.

(** ** What is written *)

Definition with_rid : bool := has_bit OutputType OT_RID.
Definition with_data : bool := has_bit OutputType OT_TOKEN || has_bit OutputType OT_DATAVALUE.
(** A row of the answer. *)
Definition row_bytes (rid : Z) : list Z :=
  (if with_rid then le_bytes 2 rid else []) ++ (if with_data then data_at rid else []).

Definition range_step (rg : Z * Z) (r : row) : Z * Z :=
  if isMinMaxValid W type NVALS && negb (r_isNull r) && negb (r_isEmpty r)
  then (if comes_before W type (r_val r) rg.1 then s64 (r_val r) else rg.1,
        if comes_before W type rg.2 (r_val r) then s64 (r_val r) else rg.2)
  else rg.
Definition range_of (rows : list row) (rg : Z * Z) : Z * Z := foldl range_step rg rows.

Lemma update_range_step r o : update_range W type NVALS r o =
  let rg := range_step (o_Min o, o_Max o) r in mkOut (o_NVALS o) (o_RidFlags o) rg.1 rg.2 (o_bytes o).
Proof. unfold update_range, range_step. cbn. destruct (_ && _ && _); by destruct o. Qed.

Definition flag_step (flags : Z) (r : row) : Z :=
  if with_rid then Z.lor flags (Z.shiftl 1 (Z.shiftr (r_rid r) 10)) mod 256 else flags.

(** The answer for the rows [stored], and the range of all of [rows]. *)
Definition answer (rows stored : list row) (o : ColResult) : ColResult :=
  let rg := range_of rows (o_Min o, o_Max o) in
  mkOut (u16 (o_NVALS o + Z.of_nat (length stored))) (foldl flag_step (o_RidFlags o) stored) rg.1 rg.2
    (o_bytes o ++ (stored ≫= fun r => row_bytes (r_rid r))).

Lemma store_spec rid o : in_block rid -> store W OutputType block rid o =
  Ret (mkOut (u16 (o_NVALS o + 1)) (flag_step (o_RidFlags o) (mkRow rid false false 0)) (o_Min o) (o_Max o)
         (o_bytes o ++ row_bytes rid)).
Proof.
  intros Hr. unfold store, flag_step, row_bytes, with_rid, with_data. destruct (data_at_spec rid Hr) as [E _].
  destruct (has_bit OutputType OT_TOKEN || has_bit OutputType OT_DATAVALUE); [rewrite E|]; cbn [mbind res_bind]; done.
Qed.

Lemma u16_add a b : u16 (u16 a + b) = u16 (a + b).
Proof. unfold u16. apply Zplus_mod_idemp_l. Qed.

Lemma run_rows_answer pf (p : row -> bool) rows :
  Forall (fun r => row_passes regexec W type BOP NOPS pf r = Ret (p r) /\ in_block (r_rid r)) rows ->
  forall o, o_NVALS o = u16 (o_NVALS o) -> run_rows pf rows o = Ret (answer rows (filter (fun r => p r = true) rows) o).
Proof.
  induction rows as [|r rows IH]; intros H o Ho.
  { cbn. unfold answer. cbn. rewrite Z.add_0_r, <- Ho, app_nil_r. by destruct o. }
  apply Forall_cons in H as [[Hp Hin] H]. cbn [run_rows]. rewrite Hp. cbn [mbind res_bind].
  assert (Hu : forall x, u16 x = u16 (u16 x)) by (intros x; unfold u16; by rewrite Z.mod_mod by lia).
  rewrite filter_cons. destruct (p r) eqn:Epr; [rewrite decide_True by done|rewrite decide_False by done].
  - rewrite store_spec by done. cbn [mbind res_bind]. rewrite update_range_step, (IH H) by (cbn; apply Hu).
    unfold answer. cbn -[u16 Z.of_nat]. rewrite <- app_assoc, u16_add.
    match goal with |- context [u16 (o_NVALS o + 1 + Z.of_nat ?n)] =>
      replace (o_NVALS o + 1 + Z.of_nat n) with (o_NVALS o + Z.of_nat (S n)) by lia end. by rewrite <- surjective_pairing.
  - cbn [mbind res_bind]. rewrite update_range_step, (IH H) by done. unfold answer. cbn -[u16]. by rewrite <- surjective_pairing.
Qed.
End rows.
