(* ===== verification/ColumnScanContract.v ===== *)
(** * What a scan promises

    The rows in the answer are those that pass the filters, in order; the range
    returned holds every value of the block; and a filter parsed into a set
    selects the same rows as the filters themselves. *)
From Stdlib Require Import ZArith Lia SpecFloat.
From stdpp Require Import sorting.
From S2P Require Import Prelude Bytes AutoIncrement ColumnScan ColumnScanProofs.

Local Open Scope Z_scope.

(** ** The range of a block *)

Section range.
Context (W type NVALS : Z).
Hypothesis HW : is_width W.

(** The place of a value in the order of its column. *)
Definition key (a : Z) : Z :=
  if (bool_decide (type = CHAR) || bool_decide (type = VARCHAR)) && bool_decide (1 < W) then order_swap (u64 a)
  else if isUnsigned type then u64 a else a.

Lemma comes_before_key a b : comes_before W type a b = bool_decide (key a < key b).
Proof. unfold comes_before, key. destruct (_ && _); [done|]. by destruct (isUnsigned type). Qed.

Lemma key_s64 v : 0 <= v < 2 ^ (8 * W) ->
  key (s64 (widen (isUnsigned type) W v)) = key (widen (isUnsigned type) W v).
Proof.
  intros Hv. unfold key. rewrite u64_s64. destruct (_ && _); [done|]. destruct (isUnsigned type) eqn:E; [done|].
  apply s64_id. by apply widen_signed.
Qed.

(** A value a row can have. *)
Definition proper (r : row) : Prop := exists rid v, r = row_of W type rid v /\ 0 <= v < 2 ^ (8 * W).
(** A row that counts for the range. *)
Definition counts (r : row) : Prop := r_isNull r = false /\ r_isEmpty r = false.

Lemma range_step_sound rg r : proper r -> isMinMaxValid W type NVALS = true ->
  let rg' := range_step W type NVALS rg r in
  key rg'.1 <= key rg.1 /\ key rg.2 <= key rg'.2 /\ (counts r -> key rg'.1 <= key (r_val r) <= key rg'.2) /\
  (rg'.1 = rg.1 \/ counts r /\ rg'.1 = s64 (r_val r)) /\ (rg'.2 = rg.2 \/ counts r /\ rg'.2 = s64 (r_val r)).
Proof.
  intros (rid & v & -> & Hv) Hmm. unfold range_step, counts. rewrite Hmm. set (r := row_of W type rid v).
  assert (Hk : key (s64 (r_val r)) = key (r_val r)) by (by apply key_s64).
  destruct (r_isNull r), (r_isEmpty r); cbn -[r]; try (split_and!; [lia|lia|naive_solver|by left|by left]).
  rewrite !comes_before_key.
  destruct (bool_decide (key (r_val r) < key rg.1)) eqn:E1; [apply bool_decide_eq_true in E1|apply bool_decide_eq_false in E1];
  (destruct (bool_decide (key rg.2 < key (r_val r))) eqn:E2; [apply bool_decide_eq_true in E2|apply bool_decide_eq_false in E2]);
  rewrite ?Hk; split_and!; try lia; try (intros _; lia); try (by left); by right.
Qed.

Lemma range_of_sound rows : Forall proper rows -> isMinMaxValid W type NVALS = true -> forall rg,
  let rg' := range_of W type NVALS rows rg in
  key rg'.1 <= key rg.1 /\ key rg.2 <= key rg'.2 /\
  (forall r, r ∈ rows -> counts r -> key rg'.1 <= key (r_val r) <= key rg'.2) /\
  (rg'.1 = rg.1 \/ exists r, r ∈ rows /\ counts r /\ rg'.1 = s64 (r_val r)) /\
  (rg'.2 = rg.2 \/ exists r, r ∈ rows /\ counts r /\ rg'.2 = s64 (r_val r)).
Proof.
  intros Hp Hmm. induction rows as [|r rows IH]; intros rg; cbv zeta.
  { cbn. split_and!; [lia|lia| |by left|by left]. by intros r []%elem_of_nil. }
  apply Forall_cons in Hp as [Hr Hp]. pose proof (range_step_sound rg r Hr Hmm) as (H1 & H2 & H3 & H4 & H5).
  specialize (IH Hp (range_step W type NVALS rg r)) as (I1 & I2 & I3 & I4 & I5).
  unfold range_of in *. cbn [foldl]. set (rg' := foldl _ _ rows) in *. split_and!; [lia|lia| | |].
  - intros x [->|Hx]%elem_of_cons Hc; [specialize (H3 Hc); lia|by apply I3].
  - destruct I4 as [->|(x & Hx & Hc)]; [destruct H4 as [->|H4]; [by left|]|]; right;
      [exists r|exists x]; (split; [set_solver|done]).
  - destruct I5 as [->|(x & Hx & Hc)]; [destruct H5 as [->|H5]; [by left|]|]; right;
      [exists r|exists x]; (split; [set_solver|done]).
Qed.
End range.

(** ** The whole request *)

Section requests.
Context (regexec : list Z -> list Z -> bool) (logicalBlockMode : bool).
Context (W type OutputType BOP NOPS NVALS sort_ : Z) (body block : list Z).
Hypothesis HW : is_width W.
Hypothesis Hbody : Forall is_byte body.
Hypothesis Hblock : Forall is_byte block.

Definition items : Z := if logicalBlockMode then BLOCK_SIZE else BLOCK_SIZE / W.
(** The filters of the message and the rows it asks for. *)
Context (fs : list col_filter) (skip : bool) (rids : list Z).
Hypothesis Hfs : parse_args W type false body (seqZ 0 NOPS) = Ret fs.
Hypothesis Hrids : rows_asked W OutputType NOPS NVALS sort_ body items = Ret (skip, rids).
Hypothesis Hin : Forall (in_block W block) rids.

Lemma NOPS_length : 0 <= NOPS -> NOPS = Z.of_nat (length fs).
Proof. intros H. apply parse_args_fits in Hfs as [Hl _]; [|done..]. rewrite Hl, length_seqZ. lia. Qed.

Lemma p_Col_rows parsed pf : (parsed = None /\ pf = TwoArrays fs \/ parsed = Some pf) ->
  p_Col regexec logicalBlockMode W type OutputType BOP NOPS NVALS sort_ body block parsed =
  run_rows regexec W type OutputType BOP NOPS NVALS block pf (kept W type block skip rids)
    (mkOut 0 0 (first_range W type NVALS).1 (first_range W type NVALS).2 []).
Proof.
  intros Hp. unfold p_Col. rewrite (bool_decide_false (W = 0)) by (apply is_width_cases in HW; lia).
  rewrite andb_false_r, decide_True by done. unfold p_Col_ridArray. fold items. rewrite Hrids. cbn [mbind res_bind fst snd].
  assert (E : match parsed with Some pf => Ret pf | None => fs ← parse_args W type false body (seqZ 0 NOPS); Ret (TwoArrays fs) end = Ret pf).
  { destruct Hp as [[-> ->]| ->]; [by rewrite Hfs|done]. }
  rewrite E. cbn [mbind res_bind]. apply scan_loop_rows; [done..|lia].
Qed.
End requests.

(** ** A request on a block *)

Lemma all_in_block W block n : 0 <= W -> n * W <= Z.of_nat (length block) -> Forall (in_block W block) (seqZ 0 n).
Proof. intros HW Hl. apply Forall_forall. intros i Hi%elem_of_seqZ. split; [lia|]. nia. Qed.

Lemma bytes_checked l : forallb (fun b => bool_decide (is_byte b)) l = true -> Forall is_byte l.
Proof. intros H. apply Forall_forall. intros b Hb. rewrite forallb_In in H. by apply (bool_decide_eq_true_1 _), H. Qed.

(** A block of an INT column: 5, NULL, -3, 9, and 2044 rows that are not there. *)
Definition demo_four : list Z := le_bytes 4 5 ++ le_bytes 4 0x80000000 ++ le_bytes 4 (2 ^ 32 - 3) ++ le_bytes 4 9.
Definition demo_block : list Z := demo_four ++ concat (replicate 2044 (le_bytes 4 0x80000001)).
(** 5 or 9. *)
Definition demo_body : list Z := [COMPARE_EQ; 0] ++ le_bytes 4 5 ++ [COMPARE_EQ; 0] ++ le_bytes 4 9.
(** ... of the rows 3, 2, 1 and 0. *)
Definition demo_request : list Z := demo_body ++ concat (le_bytes 2 <$> [3; 2; 1; 0]).
Definition demo_filters : list col_filter := [mkFilter COMPARE_EQ 0 5 None; mkFilter COMPARE_EQ 0 9 None].
Definition no_regexec (pattern subject : list Z) : bool := false.

Lemma demo_length : Z.of_nat (length demo_block) = 2048 * 4.
Proof. by vm_compute. Qed.
Lemma demo_block_bytes : Forall is_byte demo_block.
Proof. apply bytes_checked. by vm_compute. Qed.
Lemma demo_body_bytes : Forall is_byte demo_body.
Proof. apply bytes_checked. by vm_compute. Qed.
Lemma demo_parsed : parse_args 4 INT false demo_body (seqZ 0 2) = Ret demo_filters.
Proof. by vm_compute. Qed.
Lemma demo_rows : rows_asked 4 5 2 0 0 demo_body (items false 4) = Ret (true, seqZ 0 2048).
Proof. by vm_compute. Qed.
Lemma demo_in_block : Forall (in_block 4 demo_block) (seqZ 0 2048).
Proof. apply all_in_block; [done|]. by rewrite demo_length. Qed.
Lemma width_4 : is_width 4.
Proof. unfold is_width. set_solver. Qed.

(** ** Filters parsed before the scan *)

(** The same but for the pattern, which an unsigned column does not look at. *)
Definition same_filter (type : Z) (f g : col_filter) : Prop :=
  f_COP f = f_COP g /\ f_rf f = f_rf g /\ f_val f = f_val g /\ (isUnsigned type = false -> f_regex f = f_regex g).

Lemma parse_arg_same W type bytes i f g : parse_arg W type true bytes i = Ret f -> parse_arg W type false bytes i = Ret g ->
  same_filter type f g.
Proof.
  unfold parse_arg. destruct (bytes_at _ _ _) as [b| |]; cbn [mbind res_bind]; [|done..].
  destruct (rd b 0) as [COP| |]; cbn [mbind res_bind]; [|done..]. destruct (rd b 1) as [rf| |]; cbn [mbind res_bind]; [|done..].
  cbn [orb]. destruct (has_bit COMPARE_LIKE COP); cbn [andb].
  - destruct (convertToPDataValue _ _) as [str| |]; cbn [mbind res_bind]; [|done..]. intros [= <-].
    destruct (isUnsigned type) eqn:Eu; cbn; intros [= <-]; unfold same_filter; rewrite ?Eu; naive_solver.
  - intros [= <-] [= <-]. done.
Qed.

Lemma parse_args_same W type bytes is_ : forall fs gs, parse_args W type true bytes is_ = Ret fs ->
  parse_args W type false bytes is_ = Ret gs -> Forall2 (same_filter type) fs gs.
Proof.
  induction is_ as [|i is_ IH]; intros fs gs; cbn [parse_args]; [by intros [= <-] [= <-]|].
  destruct (parse_arg _ _ true _ _) as [f| |] eqn:Ef; cbn [mbind res_bind]; [|done..].
  destruct (parse_args _ _ true _ _) as [fs'| |]; cbn [mbind res_bind]; [|done..]. intros [= <-].
  destruct (parse_arg _ _ false _ _) as [g| |] eqn:Eg; cbn [mbind res_bind]; [|done..].
  destruct (parse_args _ _ false _ _) as [gs'| |]; cbn [mbind res_bind]; [|done..]. intros [= <-].
  constructor; [by eapply parse_arg_same|by apply IH].
Qed.

Lemma same_cmp regexec W type r f g : same_filter type f g -> cmp_filter regexec W type r f = cmp_filter regexec W type r g.
Proof.
  intros (H1 & H2 & H3 & H4). unfold cmp_filter. rewrite H1, H2, H3. destruct (isUnsigned type); [done|]. by rewrite H4.
Qed.

Lemma same_rows regexec W type BOP r fs gs : Forall2 (same_filter type) fs gs -> Forall (fun f => exists a, fits W type f a) fs ->
  row_passes regexec W type BOP (Z.of_nat (length fs)) (TwoArrays fs) r = row_passes regexec W type BOP (Z.of_nat (length fs)) (TwoArrays gs) r.
Proof.
  intros Hs Hf. set (b := fun f => match cmp_filter regexec W type r f with Ret b => b | _ => false end).
  assert (Hb : forall f, f ∈ fs -> cmp_filter regexec W type r f = Ret (b f)).
  { intros f Hin. rewrite Forall_forall in Hf. destruct (Hf f Hin) as [a Ha]. unfold b.
    by destruct (cmp_filter_total regexec W type f a r Ha) as [x ->]. }
  assert (Hg : forall g, g ∈ gs -> cmp_filter regexec W type r g = Ret (b g)).
  { intros g [i Hi]%list_elem_of_lookup. destruct (Forall2_lookup_r _ _ _ _ _ Hs Hi) as (f & Hfi & Hfg).
    pose proof (same_cmp regexec W type r f g Hfg) as E. unfold b. rewrite <- E. apply list_elem_of_lookup_2 in Hfi.
    by rewrite (Hb f Hfi). }
  assert (Heq : b <$> fs = b <$> gs).
  { clear Hf Hb Hg. induction Hs as [|f g fs gs Hfg _ IH]; [done|]. cbn [fmap list_fmap]. rewrite IH. f_equal.
    unfold b. by rewrite (same_cmp regexec W type r f g). }
  rewrite (row_passes_arrays regexec W type BOP _ b r fs) by (done || by apply Forall_forall).
  rewrite (row_passes_arrays regexec W type BOP _ b r gs); [by rewrite Heq| |by apply Forall_forall].
  by rewrite (Forall2_length _ _ _ Hs).
Qed.

(** C11: a filter parsed before the scan, into arrays or into a set of values,
    gives the answer that the filters of the message give: the same rows, the
    same bytes and the same range.  (Not for floating point columns, and for a
    list of NOT EQUALs only when one of the arguments is not NULL.) *)
Theorem p_Col_parsed_filter (regexec : list Z -> list Z -> bool) (logicalBlockMode : bool)
    (W type OutputType BOP NOPS NVALS sort_ : Z) (body block : list Z) (pf : ParsedColumnFilter)
    (fs : list col_filter) (skip : bool) (rids : list Z) :
  is_width W -> Forall is_byte body -> Forall is_byte block -> 0 <= NOPS ->
  type <> FLOAT -> type <> DOUBLE ->
  parseColumnFilter W type body NOPS BOP = Ret (Some pf) ->
  parse_args W type false body (seqZ 0 NOPS) = Ret fs ->
  rows_asked W OutputType NOPS NVALS sort_ body (items logicalBlockMode W) = Ret (skip, rids) ->
  Forall (in_block W block) rids ->
  (BOP = BOP_AND -> Exists (fun f => isNullVal W type (arg_bytes W f) = false) fs) ->
  p_Col regexec logicalBlockMode W type OutputType BOP NOPS NVALS sort_ body block (Some pf) =
  p_Col regexec logicalBlockMode W type OutputType BOP NOPS NVALS sort_ body block None.
Proof.
  intros HW Hbody Hblock HN Hf1 Hf2 Hpf Hfs Hrids Hin Hnull.
  rewrite (p_Col_rows regexec logicalBlockMode W type OutputType BOP NOPS NVALS sort_ body block HW Hblock fs skip rids Hfs Hrids Hin (Some pf) pf) by auto.
  rewrite (p_Col_rows regexec logicalBlockMode W type OutputType BOP NOPS NVALS sort_ body block HW Hblock fs skip rids Hfs Hrids Hin None (TwoArrays fs)) by auto.
  apply run_rows_ext. pose proof (kept_rows W type block HW Hblock skip rids Hin) as Hk.
  eapply Forall_impl; [exact Hk|]. intros r (rid & -> & _ & _ & Hv). unfold row_at.
  unfold parseColumnFilter in Hpf. destruct (decide (NOPS = 0)); [done|].
  destruct (parse_args W type true body (seqZ 0 NOPS)) as [fs'| |] eqn:Efs'; cbn [mbind res_bind] in Hpf; [|done..].
  pose proof (parse_args_same _ _ _ _ _ _ Efs' Hfs) as Hsame.
  pose proof (parse_args_fits W type HW true body _ Hbody _ Efs') as [Hl Hfits].
  assert (HNl : NOPS = Z.of_nat (length fs')) by (rewrite Hl, length_seqZ; lia).
  rewrite HNl, <- (same_rows regexec W type BOP _ fs' fs Hsame Hfits).
  destruct (negb (bool_decide (NOPS = 1)) && negb (existsb (not_for_set BOP) fs')) eqn:Ec; [|by injection Hpf as <-].
  apply andb_true_iff in Ec as [E1%negb_true_iff E2%negb_true_iff]. apply bool_decide_eq_false in E1. injection Hpf as <-.
  apply set_row; [done|done|done|lia|done|done|]. intros Hand. specialize (Hnull Hand).
  apply Exists_exists in Hnull as (g & Hg & Hgn). apply list_elem_of_lookup in Hg as [i Hi].
  destruct (Forall2_lookup_r _ _ _ _ _ Hsame Hi) as (f & Hfi & (_ & _ & Hval & _)).
  apply Exists_exists. exists f. split; [by eapply list_elem_of_lookup_2|]. unfold arg_bytes in *. by rewrite Hval.
Qed.

Lemma p_Col_parsed_filter_witness :
  exists pf, parseColumnFilter 4 INT demo_body 2 BOP_OR = Ret (Some (UnorderedSet pf)) /\ elements pf = [9; 5] /\
  p_Col no_regexec false 4 INT 5 BOP_OR 2 0 0 demo_body demo_block (Some (UnorderedSet pf)) =
  p_Col no_regexec false 4 INT 5 BOP_OR 2 0 0 demo_body demo_block None.
Proof.
  exists {[5; 9]}. split_and!; [by vm_compute|by vm_compute|].
  eapply (p_Col_parsed_filter no_regexec false 4 INT 5 BOP_OR 2 0 0 demo_body demo_block (UnorderedSet {[5; 9]}) demo_filters true (seqZ 0 2048));
    [apply width_4|apply demo_body_bytes|apply demo_block_bytes|lia|done|done|by vm_compute|apply demo_parsed|apply demo_rows|apply demo_in_block|done].
Defined.

(** ** Which rows, and their range *)

(** Does the row pass the filters? *)
Definition row_matches (regexec : list Z -> list Z -> bool) (W type BOP : Z) (fs : list col_filter) (r : row) : bool :=
  combine_cmps BOP ((fun f => match cmp_filter regexec W type r f with Ret b => b | _ => false end) <$> fs).

Lemma matches_passes regexec W type BOP fs r : Forall (fun f => exists a, fits W type f a) fs ->
  row_passes regexec W type BOP (Z.of_nat (length fs)) (TwoArrays fs) r = Ret (row_matches regexec W type BOP fs r).
Proof.
  intros Hf. apply row_passes_arrays; [done|]. eapply Forall_impl; [exact Hf|]. intros f [a Ha].
  by destruct (cmp_filter_total regexec W type f a r Ha) as [b ->].
Qed.

Lemma p_Col_answer regexec logicalBlockMode W type OutputType BOP NOPS NVALS sort_ body block fs skip rids :
  is_width W -> Forall is_byte body -> Forall is_byte block -> 0 <= NOPS ->
  parse_args W type false body (seqZ 0 NOPS) = Ret fs ->
  rows_asked W OutputType NOPS NVALS sort_ body (items logicalBlockMode W) = Ret (skip, rids) ->
  Forall (in_block W block) rids ->
  p_Col regexec logicalBlockMode W type OutputType BOP NOPS NVALS sort_ body block None =
  Ret (answer W type OutputType NVALS block (kept W type block skip rids)
         (filter (fun r => row_matches regexec W type BOP fs r = true) (kept W type block skip rids))
         (mkOut 0 0 (first_range W type NVALS).1 (first_range W type NVALS).2 [])).
Proof.
  intros HW Hbody Hblock HN Hfs Hrids Hin.
  rewrite (p_Col_rows regexec logicalBlockMode W type OutputType BOP NOPS NVALS sort_ body block HW Hblock fs skip rids Hfs Hrids Hin None (TwoArrays fs)) by auto.
  pose proof (parse_args_fits W type HW false body _ Hbody _ Hfs) as [Hl Hfits].
  apply run_rows_answer; [done..| |done]. pose proof (kept_rows W type block HW Hblock skip rids Hin) as Hk.
  eapply Forall_impl; [exact Hk|]. intros r (rid & -> & Hib & _). split; [|exact Hib].
  replace NOPS with (Z.of_nat (length fs)) by (rewrite Hl, length_seqZ; lia). by apply matches_passes.
Qed.

(** Missing rows are passed over when the request names its rows or wants their
    numbers. *)
Lemma rows_asked_skip W OutputType NOPS NVALS sort_ body n skip rids :
  rows_asked W OutputType NOPS NVALS sort_ body n = Ret (skip, rids) ->
  skip = bool_decide (0 < NVALS) || has_bit OutputType OT_RID.
Proof.
  unfold rows_asked. case_decide as H.
  - rewrite bool_decide_eq_true_2 by done. destruct (get_rids _ _ _); [|done..]. by intros [= <- _].
  - rewrite bool_decide_eq_false_2 by done. by intros [= <- _].
Qed.

(** C10: the answer to a request holds, in order, one entry for each row it looks at
    that passes the filters (all of them for AND, one for OR): its number and its bytes
    as the request wants them; and the count of the entries.  It looks at the rows it names,
    or at all rows of the block; rows that are not there are passed over when it names
    rows or asks for row numbers, and are looked at like any other, and counted, when it is a
    whole block without row numbers. *)
Theorem p_Col_selects (regexec : list Z -> list Z -> bool) (logicalBlockMode : bool)
    (W type OutputType BOP NOPS NVALS sort_ : Z) (body block : list Z)
    (fs : list col_filter) (skip : bool) (rids : list Z) :
  is_width W -> Forall is_byte body -> Forall is_byte block -> 0 <= NOPS ->
  parse_args W type false body (seqZ 0 NOPS) = Ret fs ->
  rows_asked W OutputType NOPS NVALS sort_ body (items logicalBlockMode W) = Ret (skip, rids) ->
  Forall (in_block W block) rids ->
  skip = bool_decide (0 < NVALS) || has_bit OutputType OT_RID /\
  exists o, p_Col regexec logicalBlockMode W type OutputType BOP NOPS NVALS sort_ body block None = Ret o /\
    let stored := filter (fun r => row_matches regexec W type BOP fs r = true) (kept W type block skip rids) in
    o_bytes o = stored ≫= (fun r => row_bytes W OutputType block (r_rid r)) /\ o_NVALS o = u16 (Z.of_nat (length stored)).
Proof.
  intros HW Hbody Hblock HN Hfs Hrids Hin. split; [by eapply rows_asked_skip|]. eexists. split; [by eapply p_Col_answer|].
  cbv zeta. unfold answer. cbn -[u16 kept]. done.
Qed.

Lemma p_Col_selects_witness :
  exists o, p_Col no_regexec false 4 INT 5 BOP_OR 2 4 0 demo_request demo_four None = Ret o /\
    o_NVALS o = 2 /\ o_bytes o = le_bytes 2 3 ++ le_bytes 4 9 ++ le_bytes 2 0 ++ le_bytes 4 5.
Proof.
  destruct (p_Col_selects no_regexec false 4 INT 5 BOP_OR 2 4 0 demo_request demo_four demo_filters true [3; 2; 1; 0])
    as (_ & o & Ho & Hb & Hn);
    [apply width_4|apply bytes_checked; by vm_compute|apply bytes_checked; by vm_compute|lia|by vm_compute|by vm_compute|
     repeat constructor; by vm_compute|].
  exists o. split; [exact Ho|]. rewrite Hb, Hn. split; by vm_compute.
Defined.

(** The range returned with a block's scan holds every value in the block
    that is not NULL, in the order of the column, and each of its ends is a value
    of the block or the one it started from. *)
Theorem p_Col_range (regexec : list Z -> list Z -> bool) (logicalBlockMode : bool)
    (W type OutputType BOP NOPS NVALS sort_ : Z) (body block : list Z)
    (fs : list col_filter) (skip : bool) (rids : list Z) :
  is_width W -> Forall is_byte body -> Forall is_byte block -> 0 <= NOPS ->
  parse_args W type false body (seqZ 0 NOPS) = Ret fs ->
  rows_asked W OutputType NOPS NVALS sort_ body (items logicalBlockMode W) = Ret (skip, rids) ->
  Forall (in_block W block) rids -> isMinMaxValid W type NVALS = true ->
  exists o, p_Col regexec logicalBlockMode W type OutputType BOP NOPS NVALS sort_ body block None = Ret o /\
    (forall r, r ∈ kept W type block skip rids -> counts r ->
       key W type (o_Min o) <= key W type (r_val r) <= key W type (o_Max o)) /\
    (o_Min o = (first_range W type NVALS).1 \/ exists r, r ∈ kept W type block skip rids /\ counts r /\ o_Min o = s64 (r_val r)) /\
    (o_Max o = (first_range W type NVALS).2 \/ exists r, r ∈ kept W type block skip rids /\ counts r /\ o_Max o = s64 (r_val r)).
Proof.
  intros HW Hbody Hblock HN Hfs Hrids Hin Hmm. eexists. split; [by eapply p_Col_answer|]. unfold answer. cbn [o_Min o_Max].
  assert (Hp : Forall (proper W type) (kept W type block skip rids)).
  { eapply Forall_impl; [by apply kept_rows|]. intros r (rid & -> & _ & _ & Hv). by exists rid, (val_at W block rid). }
  destruct (range_of_sound W type NVALS HW _ Hp Hmm ((first_range W type NVALS).1, (first_range W type NVALS).2))
    as (_ & _ & H3 & H4 & H5). done.
Qed.

Lemma demo_range o : p_Col no_regexec false 4 INT 5 BOP_OR 2 0 0 demo_body demo_block None = Ret o -> o_Min o = -3 /\ o_Max o = 9.
Proof.
  assert (E : match p_Col no_regexec false 4 INT 5 BOP_OR 2 0 0 demo_body demo_block None with
              | Ret o => (o_Min o, o_Max o) | _ => (0, 0) end = (-3, 9)) by (vm_compute; reflexivity).
  intros Ho. rewrite Ho in E. clear Ho. by injection E.
Qed.

Lemma p_Col_range_witness :
  exists o, p_Col no_regexec false 4 INT 5 BOP_OR 2 0 0 demo_body demo_block None = Ret o /\
    o_Min o = -3 /\ o_Max o = 9 /\ (forall r, r ∈ kept 4 INT demo_block true (seqZ 0 2048) -> counts r -> -3 <= r_val r <= 9).
Proof.
  destruct (p_Col_range no_regexec false 4 INT 5 BOP_OR 2 0 0 demo_body demo_block demo_filters true (seqZ 0 2048))
    as (o & Ho & Hr & _ & _);
    [apply width_4|apply demo_body_bytes|apply demo_block_bytes|lia|apply demo_parsed|apply demo_rows|apply demo_in_block|by vm_compute|].
  destruct (demo_range o Ho) as [E1 E2]. exists o. split; [exact Ho|]. split; [exact E1|]. split; [exact E2|].
  rewrite E1, E2 in Hr. exact Hr.
Defined.
