(* ===== verification/CasualPartition.v ===== *)
(** * Skipping extents by their range of values

    dbcon/joblist/lbidlist.cpp: a scan leaves out an extent when the range of its
    values, which the BRM keeps, shows that no row can pass the filters
    ([CasualPartitionPredicate]).

    [elimination_sound] puts this together with the scan itself: what is left out
    has no row in the answer.  Three theorems at the end show where the two sides
    differ. *)
From Stdlib Require Import ZArith Lia SpecFloat.
From S2P Require Import Prelude Bytes AutoIncrement ColumnScan ColumnScanProofs ColumnScanContract.

Local Open Scope Z_scope.

Definition MEDINT : Z := 5.
Definition COMPARE_NLT : Z := 0x09.
Definition COMPARE_NLE : Z := 0x0b.
Definition COMPARE_NGT : Z := 0x0c.
Definition COMPARE_NGE : Z := 0x0e.

(** ** The predicate *)

Definition compareVal (Min Max value op lcf : Z) : bool :=
  if decide (op = COMPARE_LT \/ op = COMPARE_NGE) then negb (bool_decide (value <= Min))
  else if decide (op = COMPARE_LE \/ op = COMPARE_NGT) then negb (bool_decide (value < Min))
  else if decide (op = COMPARE_GT \/ op = COMPARE_NLE) then negb (bool_decide (value >= Max))
  else if decide (op = COMPARE_GE \/ op = COMPARE_NLT) then negb (bool_decide (value > Max))
  else if decide (op = COMPARE_EQ) then negb (bool_decide (value < Min) || bool_decide (value > Max) || bool_decide (lcf > 0))
  else if decide (op = COMPARE_NE) then negb (bool_decide (value = Min) && bool_decide (value = Max) && bool_decide (lcf = 0))
  else true.

(** [isNull] of the catalog: a NULL as a 64-bit value.  The case of decimals goes
    on into the one of doubles.  The width of a column is 1, 2, 4 or 8, as in
    [p_Col]; for wider ones the code throws or compares what is left in the
    variable. *)
Definition cp_isNull (W type val : Z) : bool :=
  if decide (type = TINYINT) then bool_decide (val = -128)
  else if decide (type = CHAR) then
    bool_decide (W = 1) && bool_decide (val = -2) || bool_decide (W = 2) && bool_decide (val = -257)
    || bool_decide (W < 5) && bool_decide (val = -16777217) || bool_decide (val = s64 0xFEFFFFFFFFFFFFFF)
  else if decide (type = SMALLINT) then bool_decide (val = -32768)
  else if decide (type = DECIMAL \/ type = UDECIMAL) then
    (if decide (W = 1) then bool_decide (val = -128) else if decide (W = 2) then bool_decide (val = -32768)
     else if decide (W = 4) then bool_decide (val = - 2 ^ 31) else bool_decide (val = - 2 ^ 63))
    || bool_decide (val = s64 0xFFFAAAAAAAAAAAAA)
  else if decide (type = DOUBLE \/ type = UDOUBLE) then bool_decide (val = s64 0xFFFAAAAAAAAAAAAA)
  else if decide (type = MEDINT \/ type = INT) then bool_decide (val = - 2 ^ 31)
  else if decide (type = FLOAT \/ type = UFLOAT) then bool_decide (val = s32 0xFFAAAAAA)
  else if decide (type = DATE) then bool_decide (val = -2)
  else if decide (type = BIGINT) then bool_decide (val = - 2 ^ 63)
  else if decide (type = DATETIME) then bool_decide (val = -2)
  else if decide (type = VARCHAR) then
    bool_decide (W < 3) && bool_decide (val = -257) || bool_decide (W < 5) && bool_decide (val = -16777217)
    || bool_decide (val = s64 0xFEFFFFFFFFFFFFFF)
  else if decide (type = UTINYINT) then bool_decide (val mod 2 ^ 8 = 0xFE)
  else if decide (type = USMALLINT) then bool_decide (val mod 2 ^ 16 = 0xFFFE)
  else if decide (type = UMEDINT \/ type = UINT) then bool_decide (val mod 2 ^ 32 = 0xFFFFFFFE)
  else if decide (type = UBIGINT) then bool_decide (val mod 2 ^ 64 = 0xFFFFFFFFFFFFFFFE)
  else false.

Section predicate.
Context (Min Max W type BOP : Z) (bytes : list Z).

(** The loop over the filters: [ptr] is [MsgDataPtr], which a NULL argument does
    not move. *)
Fixpoint cp_loop (n : nat) (ptr pos : Z) (scan : bool) : res bool :=
  match n with
  | O => Ret scan
  | S n' =>
      let pos := pos + W + 2 in
      if decide (pos > Z.of_nat (length bytes)) then Ret true
      else
        op ← rd bytes ptr; lcf ← rd bytes (ptr + 1);
        v ← bytes_at bytes (ptr + 2) W;
        let value := s64 (widen (isUnsigned type) W (of_le v)) in
        if cp_isNull W type value then cp_loop n' (ptr + 2) pos true
        else
          let scan := compareVal (key W type Min) (key W type Max) (key W type value) op lcf in
          if bool_decide (BOP = BOP_AND) && negb scan then Ret scan
          else if bool_decide (BOP = BOP_OR) && scan then Ret scan
          else cp_loop n' (ptr + 2 + W) pos scan
  end.
Definition CasualPartitionPredicate (NOPS : Z) : res bool := cp_loop (Z.to_nat NOPS) 0 0 true.
End predicate.

(** ** One filter *)

(** What the predicate knows when it rejects. *)
Inductive rejected (mn mx y lcf : Z) : Z -> Prop :=
  | rej_lt : y <= mn -> rejected mn mx y lcf COMPARE_LT
  | rej_le : y < mn -> rejected mn mx y lcf COMPARE_LE
  | rej_gt : mx <= y -> rejected mn mx y lcf COMPARE_GT
  | rej_ge : mx < y -> rejected mn mx y lcf COMPARE_GE
  | rej_eq : y < mn \/ mx < y \/ 0 < lcf -> rejected mn mx y lcf COMPARE_EQ
  | rej_ne : y = mn -> y = mx -> lcf = 0 -> rejected mn mx y lcf COMPARE_NE
  | rej_not op : op ∈ [COMPARE_NLT; COMPARE_NLE; COMPARE_NGT; COMPARE_NGE] -> rejected mn mx y lcf op.

Lemma compareVal_false mn mx y op lcf : compareVal mn mx y op lcf = false -> rejected mn mx y lcf op.
Proof.
  unfold compareVal.
  destruct (decide (op = COMPARE_LT \/ _)) as [[-> | ->]|_]; [intros H%negb_false_iff%bool_decide_eq_true; constructor; (lia || set_solver)..|].
  destruct (decide (op = COMPARE_LE \/ _)) as [[-> | ->]|_]; [intros H%negb_false_iff%bool_decide_eq_true; constructor; (lia || set_solver)..|].
  destruct (decide (op = COMPARE_GT \/ _)) as [[-> | ->]|_]; [intros H%negb_false_iff%bool_decide_eq_true; constructor; (lia || set_solver)..|].
  destruct (decide (op = COMPARE_GE \/ _)) as [[-> | ->]|_]; [intros H%negb_false_iff%bool_decide_eq_true; constructor; (lia || set_solver)..|].
  destruct (decide (op = COMPARE_EQ)) as [->|_].
  { intros H%negb_false_iff. apply orb_true_iff in H as [[H|H]%orb_true_iff|H]; apply bool_decide_eq_true in H; constructor; lia. }
  destruct (decide (op = COMPARE_NE)) as [->|_]; [|done].
  intros H%negb_false_iff. apply andb_true_iff in H as [[H1%bool_decide_eq_true H2%bool_decide_eq_true]%andb_true_iff H3%bool_decide_eq_true].
  by constructor.
Qed.

(** Every value lies between the keys; then no value passes a filter that the
    predicate rejects.  The predicate does not know of rounded arguments of [<]
    and [>]. *)
Section rejects.
Context (regexec : list Z -> list Z -> bool) (mn mx x y rf : Z).
Hypothesis Hx : mn <= x <= mx.

Ltac rejects := intros Hrej; destruct Hrej as [H|H|H|H|H|H1 H2 ->|op Hop]; intros Hrf;
  try specialize (Hrf ltac:(auto)); try subst rf;
  [..|repeat (apply elem_of_cons in Hop as [->|Hop]; [done|]); by apply elem_of_nil in Hop].

Lemma eq_and_rf : x <> y \/ rf <> 0 -> bool_decide (x = y) && bool_decide (rf = 0) = false.
Proof. intros [H|H]; [by rewrite bool_decide_false|]. rewrite (bool_decide_false (rf = 0)) by done. apply andb_false_r. Qed.

Lemma rejects_rf COP : rejected mn mx y rf COP -> (COP = COMPARE_LT \/ COP = COMPARE_GT -> rf = 0) ->
  colCompare_rf x y COP rf = false.
Proof.
  rejects; unfold colCompare_rf; cbn -[bool_decide].
  - rewrite (bool_decide_false (x < y)) by lia. by destruct (bool_decide (x = y)).
  - by rewrite (bool_decide_false (x < y)), (bool_decide_false (x = y)) by lia.
  - rewrite (bool_decide_false (x > y)) by lia. by destruct (bool_decide (x = y)).
  - by rewrite (bool_decide_false (x > y)), (bool_decide_false (x = y)) by lia.
  - change (bool_decide (x = y) && bool_decide (rf = 0) = false). apply eq_and_rf. lia.
  - by rewrite (bool_decide_false (x <> y)) by lia.
Qed.

Lemma rejects_int COP : rejected mn mx y rf COP -> (COP = COMPARE_LT \/ COP = COMPARE_GT -> rf = 0) -> rf = 0 ->
  colCompare_int x y COP = false.
Proof.
  rejects; intros Hz; unfold colCompare_int; cbn -[bool_decide]; apply bool_decide_false; lia.
Qed.

Lemma rejects_str COP re : rejected mn mx y rf COP -> (COP = COMPARE_LT \/ COP = COMPARE_GT -> rf = 0) ->
  colStrCompare_ regexec x y COP rf re = Ret false.
Proof.
  rejects; unfold colStrCompare_; cbn -[bool_decide]; f_equal.
  - rewrite (bool_decide_false (x < y)) by lia. by destruct (bool_decide (x = y)).
  - by apply bool_decide_false; lia.
  - by apply bool_decide_false; lia.
  - by rewrite (bool_decide_false (x > y)), (bool_decide_false (x = y)) by lia.
  - change (bool_decide (x = y) && bool_decide (rf = 0) = false). apply eq_and_rf. lia.
  - by rewrite (bool_decide_false (x <> y)) by lia.
Qed.
End rejects.

(** ** One row *)

Section row.
Context (regexec : list Z -> list Z -> bool) (W type Min Max : Z).
Hypothesis HW : is_width W.
Hypothesis Hfloat : type <> FLOAT /\ type <> DOUBLE.
(** A character column of one byte is compared in two ways. *)
Hypothesis Hchar1 : type = CHAR \/ type = VARCHAR -> 1 < W.

Definition elim (f : col_filter) : bool :=
  compareVal (key W type Min) (key W type Max) (key W type (s64 (f_val f))) (f_COP f) (f_rf f).

Lemma unsigned_not_char : isUnsigned type = true -> type <> CHAR /\ type <> VARCHAR.
Proof. intros H%bool_decide_eq_true. split; intros ->; revert H; vm_compute; set_solver. Qed.

Lemma key_unsigned v : isUnsigned type = true -> 0 <= v < 2 ^ (8 * W) ->
  key W type (widen (isUnsigned type) W v) = widen (isUnsigned type) W v.
Proof.
  intros Hu Hv. destruct (unsigned_not_char Hu) as [H1 H2]. unfold key.
  rewrite (bool_decide_false (type = CHAR)), (bool_decide_false (type = VARCHAR)) by done. cbn [orb andb]. rewrite Hu.
  cbn [widen]. unfold u64. apply Z.mod_small. apply is_width_cases in HW as [->|[->|[->| ->]]]; lia.
Qed.

(** A filter the predicate rejects passes neither a value in the range nor NULL. *)
Lemma rejects_row f a rid v : fits W type f a -> elim f = false -> 0 <= v < 2 ^ (8 * W) ->
  isNullVal W type a = false -> (f_COP f = COMPARE_LT \/ f_COP f = COMPARE_GT -> f_rf f = 0) ->
  (isNullVal W type v = false -> key W type Min <= key W type (widen (isUnsigned type) W v) <= key W type Max) ->
  cmp_filter regexec W type (row_of W type rid v) f = Ret false.
Proof.
  intros Hf Hel Hv Hna Hrf Hin. pose proof Hf as [Ha Hval Hplain _]. unfold elim in Hel. rewrite Hval, key_s64 in Hel by done.
  apply compareVal_false in Hel. unfold cmp_filter, row_of. cbn [r_val r_isNull].
  assert (Hlow : low_bytes W (f_val f) = a) by (rewrite Hval; by apply widen_low).
  destruct (isNullVal W type v) eqn:Env.
  { destruct (isUnsigned type).
    - unfold colCompareUnsigned. rewrite Hlow, Hna. by destruct (decide _).
    - unfold colCompare. rewrite Hlow, Hna. destruct (decide _); [done|]. cbn [negb andb]. by rewrite andb_false_r. }
  specialize (Hin eq_refl). destruct (isUnsigned type) eqn:Eu.
  - unfold colCompareUnsigned. rewrite Hlow, Hna. destruct (decide _); [done|]. cbn [Bool.eqb orb]. f_equal.
    pose proof (key_unsigned v Eu Hv) as K1. pose proof (key_unsigned a Eu Ha) as K2. rewrite Eu in K1, K2.
    rewrite K1 in Hin. rewrite K2 in Hel. rewrite Hval. by eapply rejects_rf.
  - unfold colCompare. destruct (decide _); [done|]. cbn [negb andb].
    rewrite (bool_decide_false (type = FLOAT)), (bool_decide_false (type = DOUBLE)) by apply Hfloat. cbn [orb]. rewrite andb_true_r.
    unfold key in Hin, Hel. rewrite Eu in Hin, Hel.
    destruct (bool_decide (type = CHAR) || bool_decide (type = VARCHAR)) eqn:Ec.
    + assert (Hch : 1 < W).
      { apply Hchar1. apply orb_true_iff in Ec as [Ec|Ec]; apply bool_decide_eq_true in Ec; auto. }
      rewrite (bool_decide_true (1 < W)) in Hin, Hel by done. cbn [andb] in Hin, Hel. rewrite Hval.
      destruct (bool_decide (f_regex f = None) && bool_decide (f_rf f = 0)) eqn:Er.
      * apply andb_true_iff in Er as [_ Er%bool_decide_eq_true]. f_equal. by eapply rejects_int.
      * by eapply rejects_str.
    + cbn [andb] in Hin, Hel. rewrite Hlow, Hna. cbn [Bool.eqb orb]. f_equal. rewrite Hval. by eapply rejects_rf.
Qed.
End row.

(** ** The loop over the filters *)

Fixpoint cp_fold (BOP : Z) (el : col_filter -> bool) (fs : list col_filter) (scan : bool) : bool :=
  match fs with
  | [] => scan
  | f :: fs' =>
      if bool_decide (BOP = BOP_AND) && negb (el f) || bool_decide (BOP = BOP_OR) && el f then el f
      else cp_fold BOP el fs' (el f)
  end.

Lemma parse_arg_inv W type bytes i f : is_width W -> 0 <= i -> parse_arg W type false bytes i = Ret f ->
  exists pre vs post, bytes = pre ++ f_COP f :: f_rf f :: vs ++ post /\ Z.of_nat (length pre) = i * filterSize W /\
    Z.of_nat (length vs) = W /\ f_val f = widen (isUnsigned type) W (of_le vs).
Proof.
  intros HW Hi. assert (HW0 : 0 < W) by (apply is_width_cases in HW; lia).
  unfold parse_arg, bytes_at at 1. destruct (decide _) as [Hfit|]; [|done]. cbn [mbind res_bind].
  set (k := Z.to_nat (i * filterSize W)) in *. unfold filterSize in *.
  pose proof (take_drop k bytes) as H1. pose proof (take_drop (Z.to_nat (1 + 1 + W)) (drop k bytes)) as H2.
  assert (Hlen : length (take (Z.to_nat (1 + 1 + W)) (drop k bytes)) = Z.to_nat (1 + 1 + W)).
  { rewrite length_take, length_drop. lia. }
  destruct (take (Z.to_nat (1 + 1 + W)) (drop k bytes)) as [|c0 [|c1 vs]] eqn:Eb; [cbn in Hlen; lia..|].
  change (rd (c0 :: c1 :: vs) 0) with (Ret c0). change (rd (c0 :: c1 :: vs) 1) with (Ret c1). cbn [mbind res_bind drop].
  intros Hf. assert (Hfields : f_COP f = c0 /\ f_rf f = c1 /\ f_val f = widen (isUnsigned type) W (of_le vs)).
  { destruct (has_bit COMPARE_LIKE c0 && (false || negb (isUnsigned type))); [|by injection Hf as <-].
    destruct (convertToPDataValue _ _); cbn [mbind res_bind] in Hf; [by injection Hf as <-|done..]. }
  destruct Hfields as (-> & -> & ->). exists (take k bytes), vs, (drop (Z.to_nat (1 + 1 + W)) (drop k bytes)).
  split_and!; [|rewrite length_take; lia|cbn in Hlen; lia|done].
  rewrite <- H1 at 1. f_equal. rewrite <- H2 at 1. done.
Qed.

Lemma cp_loop_fold Min Max W type BOP bytes : is_width W -> forall n i fs scan, 0 <= i ->
  parse_args W type false bytes (seqZ i (Z.of_nat n)) = Ret fs ->
  Forall (fun f => cp_isNull W type (s64 (f_val f)) = false) fs ->
  cp_loop Min Max W type BOP bytes n (i * filterSize W) (i * filterSize W) scan =
  Ret (cp_fold BOP (elim W type Min Max) fs scan).
Proof.
  intros HW. induction n as [|n IH]; intros i fs scan Hi.
  { change (seqZ i (Z.of_nat 0)) with (@nil Z). cbn [parse_args]. by intros [= <-]. }
  rewrite seqZ_cons by lia. replace (Z.pred (Z.of_nat (S n))) with (Z.of_nat n) by lia. cbn [parse_args].
  destruct (parse_arg W type false bytes i) as [f| |] eqn:Ef; cbn [mbind res_bind]; [|done..].
  destruct (parse_args _ _ _ _ _) as [fs'| |] eqn:Efs; cbn [mbind res_bind]; [|done..]. intros [= <-] [Hn Hns]%Forall_cons.
  specialize (IH (Z.succ i) fs' (elim W type Min Max f) ltac:(lia) Efs Hns).
  destruct (parse_arg_inv _ _ _ _ _ HW Hi Ef) as (pre & vs & post & Hb & Hpre & Hvs & Hval).
  cbn [cp_loop]. rewrite decide_False by (rewrite Hb, !length_app; cbn [length]; rewrite length_app; lia).
  assert (R0 : rd bytes (i * filterSize W) = Ret (f_COP f)).
  { rewrite <- Hpre, Hb. apply rd_nat. by apply list_lookup_middle. }
  assert (R1 : rd bytes (i * filterSize W + 1) = Ret (f_rf f)).
  { replace (i * filterSize W + 1) with (Z.of_nat (length (pre ++ [f_COP f]))) by (rewrite length_app; cbn; lia).
    rewrite Hb. change (f_COP f :: f_rf f :: vs ++ post) with ([f_COP f] ++ f_rf f :: vs ++ post).
    rewrite app_assoc. apply rd_nat. by apply list_lookup_middle. }
  assert (R2 : bytes_at bytes (i * filterSize W + 2) W = Ret vs).
  { unfold bytes_at. rewrite decide_True by (rewrite Hb, !length_app; cbn [length]; rewrite length_app; lia). f_equal.
    rewrite Hb. change (f_COP f :: f_rf f :: vs ++ post) with ([f_COP f; f_rf f] ++ vs ++ post).
    rewrite app_assoc, drop_app_length' by (rewrite length_app; cbn; lia). rewrite take_app_length'; [done|lia]. }
  rewrite R0, R1. cbn [mbind res_bind]. rewrite R2. cbn [mbind res_bind]. rewrite <- Hval, Hn.
  change (compareVal _ _ _ (f_COP f) (f_rf f)) with (elim W type Min Max f). cbn [cp_fold].
  destruct (bool_decide (BOP = BOP_AND) && negb (elim W type Min Max f)); [done|].
  destruct (bool_decide (BOP = BOP_OR) && elim W type Min Max f); [done|]. cbn [orb].
  replace (i * filterSize W + 2 + W) with (Z.succ i * filterSize W) by (unfold filterSize; lia).
  replace (i * filterSize W + W + 2) with (Z.succ i * filterSize W) by (unfold filterSize; lia). exact IH.
Qed.

(** What a rejection says about the filters. *)
Lemma cp_fold_false BOP el fs : cp_fold BOP el fs true = false ->
  match fs with
  | [] => False
  | [f] => el f = false
  | _ => if decide (BOP = BOP_AND) then exists f, f ∈ fs /\ el f = false
         else if decide (BOP = BOP_OR) then forall f, f ∈ fs -> el f = false else True
  end.
Proof.
  assert (Hand : BOP = BOP_AND -> forall l b, cp_fold BOP el l b = false -> (exists f, f ∈ l /\ el f = false) \/ b = false).
  { intros ->. induction l as [|f l IH]; intros b; cbn [cp_fold]; [by right|].
    rewrite (bool_decide_true (BOP_AND = BOP_AND)), (bool_decide_false (BOP_AND = BOP_OR)) by done. cbn [andb orb]. rewrite orb_false_r.
    destruct (el f) eqn:E; cbn; [|intros _; left; exists f; set_solver].
    intros [(g & Hg & Hel)|[=]]%IH. left. exists g. set_solver. }
  assert (Hor : BOP = BOP_OR -> forall l b, cp_fold BOP el l b = false -> forall f, f ∈ l -> el f = false).
  { intros ->. induction l as [|f l IH]; intros b; cbn [cp_fold]; [by intros _ f []%elem_of_nil|].
    rewrite (bool_decide_true (BOP_OR = BOP_OR)), (bool_decide_false (BOP_OR = BOP_AND)) by done. cbn [andb orb].
    destruct (el f) eqn:E; [done|]. intros H g [->|Hg]%elem_of_cons; [done|]. by eapply IH. }
  destruct fs as [|f [|f' fs]]; intros H.
  - done.
  - cbn in H. by destruct (_ || _).
  - destruct (decide (BOP = BOP_AND)) as [Ha|Ha].
    + by destruct (Hand Ha _ _ H) as [?|[=]].
    + destruct (decide (BOP = BOP_OR)) as [Ho|]; [|done]. by eapply Hor.
Qed.

(** ** The extent left out *)

(** The filters the predicate can judge: no NULL argument, and no rounded one
    for [<] and [>]. *)
Definition judged (W type : Z) (f : col_filter) : Prop :=
  isNullVal W type (arg_bytes W f) = false /\ cp_isNull W type (s64 (f_val f)) = false /\
  (f_COP f = COMPARE_LT \/ f_COP f = COMPARE_GT -> f_rf f = 0).

Lemma rejected_row_out regexec W type Min Max BOP fs r : is_width W -> type <> FLOAT /\ type <> DOUBLE ->
  (type = CHAR \/ type = VARCHAR -> 1 < W) -> Forall (fun f => exists a, fits W type f a) fs -> Forall (judged W type) fs ->
  proper W type r -> (r_isNull r = false -> key W type Min <= key W type (r_val r) <= key W type Max) ->
  cp_fold BOP (elim W type Min Max) fs true = false -> row_matches regexec W type BOP fs r = false.
Proof.
  intros HW Hfl Hch Hfits Hj (rid & v & -> & Hv) Hr Hcp%cp_fold_false. rewrite Forall_forall in Hfits, Hj.
  assert (Hno : forall f, f ∈ fs -> elim W type Min Max f = false -> cmp_filter regexec W type (row_of W type rid v) f = Ret false).
  { intros f Hf Hel. destruct (Hfits f Hf) as [a Ha]. destruct (Hj f Hf) as (Hna & _ & Hrf).
    rewrite (fits_arg W type f a Ha) in Hna. by eapply rejects_row. }
  unfold row_matches. destruct fs as [|f [|f' fs]]; [done| |].
  - cbn [fmap list_fmap combine_cmps]. by rewrite Hno by (done || set_solver).
  - set (l := f :: f' :: fs) in *. rewrite combine_many by (rewrite length_fmap; cbn; lia). rewrite forallb_fmap, existsb_fmap.
    subst l. destruct (decide (BOP = BOP_AND)); [|destruct (decide (BOP = BOP_OR)); [|done]].
    + destruct Hcp as (g & Hg & Hel). apply not_true_iff_false. rewrite forallb_In. intros Hall. specialize (Hall g Hg).
      by rewrite (Hno g Hg Hel) in Hall.
    + apply not_true_iff_false. intros (g & Hg & Hb)%existsb_In. by rewrite (Hno g Hg (Hcp g Hg)) in Hb.
Qed.

(** When [CasualPartitionPredicate] rejects an extent by a range that holds the
    values of its blocks, a scan of any of those blocks finds no row: the filters,
    the order of the column and NULL mean the same on both sides.  (No NULL
    argument, no rounded argument of [<] or [>], no floating point column and no
    character column of one byte.) *)
Lemma elimination_sound (regexec : list Z -> list Z -> bool) (logicalBlockMode : bool)
    (W type OutputType BOP NOPS NVALS sort_ Min Max : Z) (body block : list Z)
    (fs : list col_filter) (rids : list Z) :
  is_width W -> Forall is_byte body -> Forall is_byte block -> 0 <= NOPS ->
  parse_args W type false body (seqZ 0 NOPS) = Ret fs ->
  rows_asked W OutputType NOPS NVALS sort_ body (items logicalBlockMode W) = Ret (true, rids) ->
  Forall (in_block W block) rids ->
  type <> FLOAT /\ type <> DOUBLE -> (type = CHAR \/ type = VARCHAR -> 1 < W) -> Forall (judged W type) fs ->
  (forall r, r ∈ kept W type block true rids -> counts r ->
     key W type Min <= key W type (r_val r) <= key W type Max) ->
  CasualPartitionPredicate Min Max W type BOP body NOPS = Ret false ->
  exists o, p_Col regexec logicalBlockMode W type OutputType BOP NOPS NVALS sort_ body block None = Ret o /\
    o_bytes o = [] /\ o_NVALS o = 0.
Proof.
  intros HW Hbody Hblock HN Hfs Hrids Hin Hfl Hch Hj Hrange Hcp. eexists. split; [by eapply p_Col_answer|].
  pose proof (parse_args_fits W type HW false body _ Hbody _ Hfs) as [_ Hfits].
  assert (Hfold : cp_fold BOP (elim W type Min Max) fs true = false).
  { unfold CasualPartitionPredicate in Hcp. pose proof (cp_loop_fold Min Max W type BOP body HW (Z.to_nat NOPS) 0 fs true) as Hl.
    rewrite Z2Nat.id, Z.mul_0_l in Hl by done. rewrite Hl in Hcp; [by injection Hcp|done|done|].
    eapply Forall_impl; [exact Hj|]. by intros f (_ & ? & _). }
  assert (Hnone : filter (fun r => row_matches regexec W type BOP fs r = true) (kept W type block true rids) = []).
  { apply filter_none, Forall_forall. pose proof (kept_rows W type block HW Hblock true rids Hin) as Hk. intros r Hr. rewrite Forall_forall in Hk. destruct (Hk r Hr) as (rid & Hrow & _ & _ & Hv).
    rewrite not_true_iff_false. eapply (rejected_row_out _ _ _ Min Max); try done; [by exists rid, (val_at W block rid)|].
    intros Hnn. apply Hrange; [done|]. split; [done|]. apply list_elem_of_filter in Hr as [Hs _]. by rewrite andb_true_r in Hs. }
  rewrite Hnone. done.
Qed.

(** ** Where the two sides differ *)

(** A character column of one byte: the range and the predicate order its bytes as
    signed numbers, the filters of the scan as characters.  The extent with 'A' and
    0xE9 is left out of a scan for what is above 'B', which selects 0xE9. *)
Theorem one_character_skipped :
  let block := [0x41; 0xE9] in
  let body := [COMPARE_GT; 0; 0x42] ++ concat (le_bytes 2 <$> [0; 1]) in
  range_of 1 CHAR 0 (kept 1 CHAR block true [0; 1]) (first_range 1 CHAR 0) = (-23, 0x41) /\
  CasualPartitionPredicate (-23) 0x41 1 CHAR BOP_AND body 1 = Ret false /\
  exists o, p_Col no_regexec false 1 CHAR 5 BOP_AND 1 2 0 body block None = Ret o /\ o_bytes o = [1; 0; 0xE9].
Proof. split; [by vm_compute|]. split; [by vm_compute|]. eexists. split; by vm_compute. Qed.

(** A rounded argument: x < 5.5 is sent as < 5 with a rounding flag of 1, and
    selects 5; the predicate leaves out an extent that starts at 5. *)
Theorem rounded_argument_skipped :
  let body := [COMPARE_LT; 1] ++ le_bytes 4 5 ++ concat (le_bytes 2 <$> [0]) in
  CasualPartitionPredicate 5 9 4 INT BOP_AND body 1 = Ret false /\
  exists o, p_Col no_regexec false 4 INT 5 BOP_AND 1 1 0 body (le_bytes 4 5) None = Ret o /\ o_bytes o = [0; 0] ++ le_bytes 4 5.
Proof. split; [by vm_compute|]. eexists. split; by vm_compute. Qed.

(** A NULL argument: the pointer does not move past it, so that the filters behind
    it are read from the wrong bytes.  IS NOT NULL with 2 <= x <= 100 leaves out an
    extent of 0 to 50, which has the 7 that the scan selects. *)
Theorem null_argument_skipped :
  let body := [COMPARE_NE; 0; 0x80; COMPARE_GE; 0; 2; COMPARE_LE; 0; 100] ++ concat (le_bytes 2 <$> [0]) in
  CasualPartitionPredicate 0 50 1 TINYINT BOP_AND body 3 = Ret false /\
  exists o, p_Col no_regexec false 1 TINYINT 5 BOP_AND 3 1 0 body [7] None = Ret o /\ o_bytes o = [0; 0; 7].
Proof. split; [by vm_compute|]. eexists. split; by vm_compute. Qed.
