(* ===== verification/LbidList.v ===== *)
(** * The ranges of the extents of a scan

    dbcon/joblist/lbidlist.cpp: while a column is scanned, [LBIDList] keeps for
    each extent whose range of values the BRM does not know the range of the
    blocks that came back ([GetMinMax], [UpdateMinMax]); at the end the ranges are
    sent to the BRM ([UpdateAllPartitionInfo]), which the next scan asks before it
    reads the extent.

    The theorem: what is sent for an extent covers the range of every block of the
    extent that was scanned, and nothing is sent for an extent of which a block
    came back without one. *)
From Stdlib Require Import ZArith Lia SpecFloat.
From S2P Require Import Prelude Bytes ExtentMap SlaveExtents AutoIncrement ColumnScan ColumnScanProofs ColumnScanContract CasualPartition.

Local Open Scope Z_scope.

(** ** The partitions *)

Record MinMaxPartition := mkMmp {
  mp_lbid : Z; mp_lbidmax : Z; mp_min : Z; mp_max : Z; mp_seq : Z; mp_isValid : Z; mp_blksScanned : Z
}.

Definition isCharType (type : Z) : bool := bool_decide (type = VARCHAR) || bool_decide (type = CHAR).

(** Where the range of an extent starts. *)
Definition no_range (type : Z) : Z * Z :=
  if isUnsigned type then (s64 (2 ^ 64 - 1), 0) else (2 ^ 63 - 1, - 2 ^ 63).

(** [GetMinMax] with the entries of the extent map by their first LBID: the range
    the BRM has, or a new partition. *)
Definition GetMinMax (vec : list MinMaxPartition) (lbid : Z) (entries : gmap Z EMEntry) (type : Z)
    : list MinMaxPartition * option (Z * Z * Z) :=
  match entries !! lbid with
  | None => (vec, None)
  | Some entry =>
      let cp := cprange entry in
      if decide (isValid cp <> CP_VALID) then
        (vec ++ [mkMmp lbid (lbid + u32 (size (range entry) * 1024)) (no_range type).1 (no_range type).2
                   (sequenceNum cp) (isValid cp) 0], None)
      else (vec, Some (lo_val cp, hi_val cp, sequenceNum cp))
  end.

(** [getMinMaxFromEntries]: lo, hi, sequence number and state. *)
Fixpoint getMinMaxFromEntries (lbid : Z) (EMEntries : list EMEntry) : option (Z * Z * Z) * Z :=
  match EMEntries with
  | [] => (None, CP_INVALID)
  | e :: es =>
      let lastLBID := start (range e) + u32 (size (range e) * 1024) - 1 in
      if decide (start (range e) <= lbid <= lastLBID)
      then (Some (lo_val (cprange e), hi_val (cprange e), sequenceNum (cprange e)), isValid (cprange e))
      else getMinMaxFromEntries lbid es
  end.

(** The new range of a partition. *)
Definition widen_range (type min max : Z) (p : MinMaxPartition) : Z * Z :=
  if isCharType type then
    (if decide (order_swap (u64 min) < order_swap (u64 (mp_min p)) \/ mp_min p = 2 ^ 63 - 1) then min else mp_min p,
     if decide (order_swap (u64 max) > order_swap (u64 (mp_max p)) \/ mp_max p = - 2 ^ 63) then max else mp_max p)
  else if isUnsigned type then
    (if decide (u64 min < u64 (mp_min p)) then min else mp_min p, if decide (u64 max > u64 (mp_max p)) then max else mp_max p)
  else (if decide (min < mp_min p) then min else mp_min p, if decide (max > mp_max p) then max else mp_max p).

Definition covers_lbid (lbid : Z) (p : MinMaxPartition) : bool := bool_decide (mp_lbid p <= lbid) && bool_decide (lbid < mp_lbidmax p).

Definition update_mmp (min max type : Z) (validData : bool) (p : MinMaxPartition) : MinMaxPartition :=
  let n := u32 (mp_blksScanned p + 1) in
  if negb validData then mkMmp (mp_lbid p) (mp_lbidmax p) (mp_min p) (mp_max p) (mp_seq p) CP_UPDATING n
  else
    let rg := if decide (mp_isValid p = CP_INVALID) then widen_range type min max p else (mp_min p, mp_max p) in
    mkMmp (mp_lbid p) (mp_lbidmax p) rg.1 rg.2 (mp_seq p) (mp_isValid p) n.

(** [UpdateMinMax]: the first partition that has the block. *)
Fixpoint UpdateMinMax (min max lbid type : Z) (validData : bool) (vec : list MinMaxPartition) : list MinMaxPartition :=
  match vec with
  | [] => []
  | p :: vec' =>
      if covers_lbid lbid p then update_mmp min max type validData p :: vec'
      else p :: UpdateMinMax min max lbid type validData vec'
  end.

(** [UpdateAllPartitionInfo]: the messages to the BRM, of at most 25000 partitions
    each, and the partitions left. *)
Definition cpUpdateInterval : Z := 25000.

Definition sendable (p : MinMaxPartition) : bool := bool_decide (mp_isValid p = CP_INVALID) && bool_decide (0 < mp_blksScanned p).
Definition cpInfo_of (p : MinMaxPartition) : CPInfo := mkCPInfo (mp_lbid p) (mkMaxMin (mp_max p) (mp_min p) (s32 (mp_seq p))).
Definition set_valid (p : MinMaxPartition) : MinMaxPartition :=
  mkMmp (mp_lbid p) (mp_lbidmax p) (mp_min p) (mp_max p) (mp_seq p) CP_VALID (mp_blksScanned p).

Fixpoint info_loop (len i : Z) (vCpInfo : list CPInfo) (vec : list MinMaxPartition) : list (list CPInfo) * list MinMaxPartition :=
  match vec with
  | [] => (if decide (vCpInfo = []) then [] else [vCpInfo], [])
  | p :: vec' =>
      if sendable p then
        let v := vCpInfo ++ [cpInfo_of p] in
        if bool_decide ((i + 1) mod cpUpdateInterval = 0) || bool_decide (i + 1 = len) then
          let '(msgs, rest) := info_loop len (i + 1) [] vec' in (v :: msgs, set_valid p :: rest)
        else let '(msgs, rest) := info_loop len (i + 1) v vec' in (msgs, set_valid p :: rest)
      else let '(msgs, rest) := info_loop len (i + 1) vCpInfo vec' in (msgs, p :: rest)
  end.
Definition UpdateAllPartitionInfo (vec : list MinMaxPartition) : list (list CPInfo) * list MinMaxPartition :=
  info_loop (Z.of_nat (length vec)) 0 [] vec.

(** [CasualPartitionDataType]; UMEDINT and MEDINT are integers, too. *)
Definition CasualPartitionDataType (type size : Z) : bool :=
  if decide (type = CHAR) then bool_decide (size < 9)
  else if decide (type = VARCHAR) then bool_decide (size < 8)
  else bool_decide (type ∈ [TINYINT; SMALLINT; MEDINT; INT; BIGINT; DECIMAL; DATE; DATETIME;
                            UTINYINT; USMALLINT; UDECIMAL; UMEDINT; UINT; UBIGINT]).

(** [checkSingleValue] and [checkRangeOverlap]: the tests of the ranges of a join. *)
Definition checkSingleValue (min max value type : Z) : bool :=
  if isCharType type then
    bool_decide (order_swap (u64 value) >= order_swap (u64 min)) && bool_decide (order_swap (u64 value) <= order_swap (u64 max))
  else if isUnsigned type then bool_decide (u64 value >= u64 min) && bool_decide (u64 value <= u64 max)
  else bool_decide (value >= min) && bool_decide (value <= max).

Definition checkRangeOverlap (min max tmin tmax type : Z) : bool :=
  if isCharType type then
    bool_decide (order_swap (u64 tmin) <= order_swap (u64 max)) && bool_decide (order_swap (u64 tmax) >= order_swap (u64 min))
  else if isUnsigned type then bool_decide (u64 tmin <= u64 max) && bool_decide (u64 tmax >= u64 min)
  else bool_decide (tmin <= max) && bool_decide (tmax >= min).

(** ** What is sent *)

Lemma info_loop_sent len vec : forall i v,
  concat (info_loop len i v vec).1 = v ++ (cpInfo_of <$> filter (fun p => sendable p = true) vec) /\
  (info_loop len i v vec).2 = (fun p => if sendable p then set_valid p else p) <$> vec.
Proof.
  induction vec as [|p vec IH]; intros i v; cbn [info_loop].
  { split; [|done]. cbn. destruct (decide (v = [])) as [->|]; [done|]. cbn. by rewrite !app_nil_r. }
  destruct (sendable p) eqn:Es.
  - rewrite filter_cons_True by done. destruct (_ || _).
    + destruct (info_loop len (i + 1) [] vec) as [ms lf] eqn:E. specialize (IH (i + 1) []). rewrite E in IH. destruct IH as [H1 H2].
      cbn in *. rewrite H1, H2, Es. by rewrite <- app_assoc.
    + destruct (info_loop len (i + 1) (v ++ [cpInfo_of p]) vec) as [ms lf] eqn:E. specialize (IH (i + 1) (v ++ [cpInfo_of p])).
      rewrite E in IH. destruct IH as [H1 H2]. cbn in *. rewrite H1, H2, Es. by rewrite <- app_assoc.
  - rewrite filter_cons_False by (by rewrite Es). destruct (info_loop len (i + 1) v vec) as [ms lf] eqn:E.
    specialize (IH (i + 1) v). rewrite E in IH. destruct IH as [H1 H2]. cbn in *. by rewrite H1, H2, Es.
Qed.

(** ** The scan of the blocks *)

(** A block that came back. *)
Record block_range := mkBack { bk_lbid : Z; bk_min : Z; bk_max : Z; bk_valid : bool }.

Definition take_back (type : Z) (vec : list MinMaxPartition) (u : block_range) : list MinMaxPartition :=
  UpdateMinMax (bk_min u) (bk_max u) (bk_lbid u) type (bk_valid u) vec.

Section back.
Context (W type : Z).
Hypothesis Hchar1 : type = CHAR \/ type = VARCHAR -> 1 < W.

(** The range of a scan never leaves the one it starts from: [p_Col_range]. *)
Definition scan_range (u : block_range) : Prop :=
  key W type (bk_min u) <= key W type (no_range type).1 /\ key W type (no_range type).2 <= key W type (bk_max u).

(** The partition covers the block's range, if it is still to be sent. *)
Definition covered (u : block_range) (p : MinMaxPartition) : Prop :=
  mp_isValid p = CP_INVALID ->
  bk_valid u = true /\ key W type (mp_min p) <= key W type (bk_min u) /\ key W type (bk_max u) <= key W type (mp_max p).

Lemma key_char a : isCharType type = true -> key W type a = order_swap (u64 a) /\ isUnsigned type = false.
Proof.
  unfold isCharType. intros H%orb_true_iff. assert (Hc : type = CHAR \/ type = VARCHAR).
  { destruct H as [H|H]; apply bool_decide_eq_true in H; auto. }
  unfold key. rewrite (bool_decide_true (1 < W)) by auto. destruct Hc as [-> | ->]; done.
Qed.

Lemma key_other a : isCharType type = false -> key W type a = if isUnsigned type then u64 a else a.
Proof. unfold isCharType. intros [H1 H2]%orb_false_iff. unfold key. by rewrite H1, H2. Qed.

Lemma widen_range_key u p : scan_range u -> let rg := widen_range type (bk_min u) (bk_max u) p in
  (key W type rg.1 <= key W type (bk_min u) /\ key W type rg.1 <= key W type (mp_min p)) /\
  (key W type (bk_max u) <= key W type rg.2 /\ key W type (mp_max p) <= key W type rg.2).
Proof.
  intros [H1 H2]. unfold widen_range, no_range in *. cbv zeta. destruct (isCharType type) eqn:Ec.
  - destruct (key_char 0 Ec) as [_ Hu]. rewrite Hu in *. cbn [fst snd] in *.
    split; destruct (decide _) as [[H|H]|H]; rewrite ?(proj1 (key_char _ Ec)) in *; try rewrite H; lia.
  - destruct (isUnsigned type) eqn:Eu; cbn [fst snd]; split; destruct (decide _); rewrite !key_other, Eu by done; lia.
Qed.

Lemma update_covers u p : scan_range u -> covered u (update_mmp (bk_min u) (bk_max u) type (bk_valid u) p).
Proof.
  intros Hu. unfold update_mmp, covered. destruct (bk_valid u); cbn [negb mp_isValid]; [|done].
  intros Hv. rewrite decide_True by done. destruct (widen_range_key u p Hu) as [[? _] [? _]]. done.
Qed.

Lemma update_keeps u u0 p : scan_range u -> covered u0 p -> covered u0 (update_mmp (bk_min u) (bk_max u) type (bk_valid u) p).
Proof.
  intros Hu H0. unfold update_mmp, covered. destruct (bk_valid u); cbn [negb mp_isValid mp_min mp_max]; [|done].
  intros Hv. destruct (H0 Hv) as (Hb & H1 & H2). rewrite decide_True by done. destruct (widen_range_key u p Hu) as [[_ ?] [_ ?]].
  split; [done|lia].
Qed.

Lemma update_place min max v lbid p : covers_lbid lbid (update_mmp min max type v p) = covers_lbid lbid p.
Proof. unfold update_mmp. by destruct v. Qed.

(** The partition a block belongs to. *)
Fixpoint home (lbid : Z) (vec : list MinMaxPartition) : option MinMaxPartition :=
  match vec with [] => None | p :: vec' => if covers_lbid lbid p then Some p else home lbid vec' end.

Lemma home_later u lbid vec p : home lbid (take_back type vec u) = Some p ->
  exists p0, home lbid vec = Some p0 /\ (p = p0 \/ p = update_mmp (bk_min u) (bk_max u) type (bk_valid u) p0).
Proof.
  unfold take_back. induction vec as [|q vec IH]; cbn [UpdateMinMax home]; [done|].
  destruct (covers_lbid (bk_lbid u) q); cbn [home]; rewrite ?update_place; destruct (covers_lbid lbid q); eauto; intros [= <-]; eauto.
Qed.

Lemma home_at u vec p : home (bk_lbid u) (take_back type vec u) = Some p ->
  exists p0, p = update_mmp (bk_min u) (bk_max u) type (bk_valid u) p0.
Proof.
  unfold take_back. induction vec as [|q vec IH]; cbn [UpdateMinMax home]; [done|].
  destruct (covers_lbid (bk_lbid u) q) eqn:E; cbn [home]; rewrite ?update_place, E; [|done]. intros [= <-]. eauto.
Qed.

Lemma all_covered us : Forall scan_range us -> forall vec u p, u ∈ us ->
  home (bk_lbid u) (foldl (take_back type) vec us) = Some p -> covered u p.
Proof.
  induction us as [|u' us IH] using rev_ind; intros Hs vec u p; [by intros []%elem_of_nil|].
  apply Forall_app in Hs as [Hs [Hu' _]%Forall_cons]. rewrite foldl_app. cbn [foldl].
  intros [Hin| ->%list_elem_of_singleton]%elem_of_app Hp.
  - apply home_later in Hp as (p0 & Hp0 & [->| ->]); [by eapply IH|]. apply update_keeps; [done|]. by eapply IH.
  - apply home_at in Hp as [p0 ->]. by apply update_covers.
Qed.
End back.

(** ** A scan, and the next one *)

Lemma UpdateMinMax_lbids min max lbid type v vec : mp_lbid <$> UpdateMinMax min max lbid type v vec = mp_lbid <$> vec.
Proof.
  induction vec as [|p vec IH]; [done|]. cbn [UpdateMinMax]. destruct (covers_lbid lbid p); cbn [fmap list_fmap]; [|by rewrite IH].
  f_equal. unfold update_mmp. by destruct v.
Qed.

Lemma take_back_lbids type us : forall vec, mp_lbid <$> foldl (take_back type) vec us = mp_lbid <$> vec.
Proof. induction us as [|u us IH]; intros vec; [done|]. cbn [foldl]. rewrite IH. apply UpdateMinMax_lbids. Qed.

Lemma home_elem lbid vec p : home lbid vec = Some p -> p ∈ vec.
Proof.
  induction vec as [|q vec IH]; cbn [home]; [done|]. destruct (covers_lbid lbid q); [intros [= <-]; set_solver|].
  intros H. set_solver.
Qed.

Lemma same_lbid vec p q : NoDup (mp_lbid <$> vec) -> p ∈ vec -> q ∈ vec -> mp_lbid p = mp_lbid q -> p = q.
Proof.
  intros Hnd [i Hi]%list_elem_of_lookup [j Hj]%list_elem_of_lookup E.
  assert (i = j); [|naive_solver].
  apply (NoDup_lookup _ i j (mp_lbid q) Hnd); [by rewrite list_lookup_fmap, Hi, <- E|by rewrite list_lookup_fmap, Hj].
Qed.

(** What is sent for the partition of a block is its range, and it was still to
    be sent. *)
Lemma sent_is_home vec lbid p c : NoDup (mp_lbid <$> vec) -> home lbid vec = Some p ->
  c ∈ concat (UpdateAllPartitionInfo vec).1 -> ci_firstLbid c = mp_lbid p -> c = cpInfo_of p /\ mp_isValid p = CP_INVALID.
Proof.
  intros Hnd Hp%home_elem. unfold UpdateAllPartitionInfo. rewrite (proj1 (info_loop_sent _ vec 0 [])). cbn [app].
  intros (q & -> & [Hs Hq]%list_elem_of_filter)%list_elem_of_fmap E. cbn [ci_firstLbid cpInfo_of] in E.
  rewrite <- (same_lbid vec q p) by done. split; [done|]. by apply andb_true_iff in Hs as [Hs%bool_decide_eq_true _].
Qed.

Lemma first_no_range W type NVALS : isMinMaxValid W type NVALS = true -> first_range W type NVALS = no_range type.
Proof. intros H. unfold first_range, no_range. rewrite H. by destruct (isUnsigned type). Qed.

(** The range a whole block comes back with. *)
Lemma block_comes_back regexec W type OutputType BOP NOPS sort_ body block fs o lbid :
  is_width W -> Forall is_byte body -> Forall is_byte block -> 0 <= NOPS -> Z.of_nat (length block) = items false W * W ->
  parse_args W type false body (seqZ 0 NOPS) = Ret fs -> isMinMaxValid W type 0 = true ->
  p_Col regexec false W type OutputType BOP NOPS 0 sort_ body block None = Ret o ->
  scan_range W type (mkBack lbid (o_Min o) (o_Max o) true) /\
  forall rid, in_block W block rid -> counts (row_at W type block rid) ->
    key W type (o_Min o) <= key W type (r_val (row_at W type block rid)) <= key W type (o_Max o).
Proof.
  intros HW Hbody Hblock HN Hlen Hfs Hmm Ho. assert (HW0 : 0 < W) by (apply is_width_cases in HW; lia).
  set (skip := has_bit OutputType OT_RID). set (rids := seqZ 0 (items false W)).
  assert (Hr : rows_asked W OutputType NOPS 0 sort_ body (items false W) = Ret (skip, rids)) by done.
  assert (Hin : Forall (in_block W block) rids) by (apply all_in_block; lia).
  rewrite (p_Col_answer regexec false W type OutputType BOP NOPS 0 sort_ body block fs skip rids) in Ho by done.
  injection Ho as <-. unfold answer. cbn [o_Min o_Max].
  assert (Hp : Forall (proper W type) (kept W type block skip rids)).
  { eapply Forall_impl; [by apply kept_rows|]. intros r (rid & -> & _ & _ & Hv). by exists rid, (val_at W block rid). }
  destruct (range_of_sound W type 0 HW _ Hp Hmm ((first_range W type 0).1, (first_range W type 0).2)) as (H1 & H2 & H3 & _).
  split; [unfold scan_range; cbn [bk_min bk_max]; rewrite <- (first_no_range W type 0) by done; done|].
  intros rid Hrid Hc. apply H3; [|done]. apply list_elem_of_filter. split; [by rewrite (proj2 Hc)|].
  apply list_elem_of_fmap. exists rid. split; [done|]. apply elem_of_seqZ. destruct Hrid. nia.
Qed.

(** C6: After a scan of whole blocks of an extent, the range sent to the BRM is such
    that when the next scan leaves the extent out by it, no row of a block scanned
    passes the filters of that scan: the range of the block, the partition it is put
    into, the message to the BRM, the predicate and the filters of the scan agree. The
    column has ranges, is not floating point and is no character column of one byte; no
    filter of the next scan has a NULL argument or a rounded argument of [<] or [>]; and
    the next scan passes over rows that are not there, as it names its rows or wants
    their numbers. ([one_character_skipped], [rounded_argument_skipped] and
    [null_argument_skipped] show rows that are left out otherwise.) *)
Theorem scan_then_skip (regexec : list Z -> list Z -> bool) (W type : Z) (block : list Z)
    (OutputType BOP NOPS sort_ : Z) (body : list Z) (fs : list col_filter) (o : ColResult)
    (lbid : Z) (us : list block_range) (vec : list MinMaxPartition) (p : MinMaxPartition) (c : CPInfo)
    (OutputType' BOP' NOPS' NVALS' sort_' : Z) (body' : list Z) (fs' : list col_filter) (rids' : list Z) :
  is_width W -> type <> FLOAT /\ type <> DOUBLE -> (type = CHAR \/ type = VARCHAR -> 1 < W) -> isMinMaxValid W type 0 = true ->
  Forall is_byte block -> Z.of_nat (length block) = items false W * W ->
  (* the first scan *)
  Forall is_byte body -> 0 <= NOPS -> parse_args W type false body (seqZ 0 NOPS) = Ret fs ->
  p_Col regexec false W type OutputType BOP NOPS 0 sort_ body block None = Ret o ->
  (* the ranges of its blocks *)
  mkBack lbid (o_Min o) (o_Max o) true ∈ us -> Forall (scan_range W type) us ->
  NoDup (mp_lbid <$> vec) -> home lbid (foldl (take_back type) vec us) = Some p ->
  c ∈ concat (UpdateAllPartitionInfo (foldl (take_back type) vec us)).1 -> ci_firstLbid c = mp_lbid p ->
  (* the next scan *)
  Forall is_byte body' -> 0 <= NOPS' -> parse_args W type false body' (seqZ 0 NOPS') = Ret fs' -> Forall (judged W type) fs' ->
  rows_asked W OutputType' NOPS' NVALS' sort_' body' (items false W) = Ret (true, rids') -> Forall (in_block W block) rids' ->
  CasualPartitionPredicate (mm_min (ci_cp c)) (mm_max (ci_cp c)) W type BOP' body' NOPS' = Ret false ->
  exists o', p_Col regexec false W type OutputType' BOP' NOPS' NVALS' sort_' body' block None = Ret o' /\
    o_bytes o' = [] /\ o_NVALS o' = 0.
Proof.
  intros HW Hfl Hch Hmm Hblock Hlen Hbody HN Hfs Ho Hu Hus Hnd Hp Hc Hcl Hbody' HN' Hfs' Hj Hr' Hin' Hcp.
  destruct (block_comes_back regexec W type OutputType BOP NOPS sort_ body block fs o lbid) as [_ Hrange]; [done..|].
  rewrite <- (take_back_lbids type us vec) in Hnd. destruct (sent_is_home _ lbid p c Hnd Hp Hc Hcl) as [-> Hv].
  destruct (all_covered W type Hch us Hus vec _ p Hu Hp Hv) as (_ & H1 & H2). cbn [bk_min bk_max] in H1, H2.
  eapply (elimination_sound regexec false W type OutputType' BOP' NOPS' NVALS' sort_' (mp_min p) (mp_max p)); try done.
  pose proof (kept_rows W type block HW Hblock true rids' Hin') as Hk. rewrite Forall_forall in Hk.
  intros r (rid & -> & Hrid & _)%Hk Hcnt.
  specialize (Hrange rid Hrid Hcnt). lia.
Qed.

(** The block of 5, NULL, -3 and 9 is the second of an extent; the first one has
    the values 4 to 7.  The next scan is for values above 20 and below 50. *)
Definition demo_extent : list MinMaxPartition := [mkMmp 1000 9192 (2 ^ 63 - 1) (- 2 ^ 63) 12 CP_INVALID 0].
Definition demo_backs : list block_range := [mkBack 1000 4 7 true; mkBack 1001 (-3) 9 true].
Definition skipped_body : list Z := [COMPARE_GT; 0] ++ le_bytes 4 20 ++ [COMPARE_LT; 0] ++ le_bytes 4 50.

Lemma scan_then_skip_witness :
  exists c, (UpdateAllPartitionInfo (foldl (take_back INT) demo_extent demo_backs)).1 = [[c]] /\
    ci_cp c = mkMaxMin 9 (-3) 12 /\
    CasualPartitionPredicate (mm_min (ci_cp c)) (mm_max (ci_cp c)) 4 INT BOP_AND skipped_body 2 = Ret false /\
    exists o', p_Col no_regexec false 4 INT 5 BOP_AND 2 0 0 skipped_body demo_block None = Ret o' /\ o_bytes o' = [] /\ o_NVALS o' = 0.
Proof.
  exists (mkCPInfo 1000 (mkMaxMin 9 (-3) 12)). split; [by vm_compute|]. split; [done|]. split; [by vm_compute|].
  assert (Hs : exists o, p_Col no_regexec false 4 INT 5 BOP_OR 2 0 0 demo_body demo_block None = Ret o).
  { eexists. apply (p_Col_answer no_regexec false 4 INT 5 BOP_OR 2 0 0 demo_body demo_block demo_filters true (seqZ 0 2048));
      [apply width_4|apply demo_body_bytes|apply demo_block_bytes|lia|apply demo_parsed|apply demo_rows|apply demo_in_block]. }
  destruct Hs as [o Ho]. destruct (demo_range o Ho) as [E1 E2].
  apply (scan_then_skip no_regexec 4 INT demo_block 5 BOP_OR 2 0 demo_body demo_filters o 1001 demo_backs demo_extent
    (mkMmp 1000 9192 (-3) 9 12 CP_INVALID 2) (mkCPInfo 1000 (mkMaxMin 9 (-3) 12)) 5 BOP_AND 2 0 0 skipped_body
    [mkFilter COMPARE_GT 0 20 None; mkFilter COMPARE_LT 0 50 None] (seqZ 0 2048)).
  10: exact Ho.
  all: clear Ho.
  all: [> apply width_4|done|by intros [?|?]|done|apply demo_block_bytes|by rewrite demo_length|apply demo_body_bytes|lia|apply demo_parsed
    |rewrite E1, E2; set_solver|repeat constructor; by vm_compute|apply NoDup_singleton|by vm_compute|vm_compute; set_solver|done
    |apply bytes_checked; by vm_compute|lia|by vm_compute|repeat constructor; by vm_compute|by vm_compute|apply demo_in_block|by vm_compute].
Defined.
